(* ===== verification/_CoqProject ===== *)
-Q . S2P
Prelude.v
StateError.v
Algo.v
Util.v
StringVector.v
Protocol.v
StreamSearch.v
Rectangle.v
TileDesc.v
TileCombined.v
TileQueue.v
TileQueueSpec.v
KitQueue.v
KitQueueSpec.v
TileData.v
TileCache.v
TileCacheSpec.v
Message.v
SenderQueueSpec.v
ClientSession.v
ClientSessionSpec.v
TileServer.v
TileInvalidation.v
TileServerSpec.v
TileInvalidationSpec.v
FlowControlSpec.v
Delta.v
DeltaRle.v
DeltaSpec.v
TileDecoder.v
TileDecoderSpec.v
TilePipeline.v
ThreadPool.v
ThreadPoolSpec.v
Buffer.v
WebSocket.v
WebSocketSpec.v
RecordSet.v
RenderTiles.v
RenderTilesSpec.v
Storage.v
SaveManager.v
DocumentSave.v
DocumentPoll.v
DocumentSaveSpec.v
DocumentUploadSpec.v
HttpHeader.v
Http.v
HttpSpec.v
Clipboard.v
ClipboardSpec.v
HttpRequestSpec.v
HttpResponseSpec.v
JsonUtil.v
LoadOptions.v
LoadOptionsSpec.v
ClientInput.v
ClientInputSpec.v
SlideCache.v
KitMessages.v
KitMessagesSpec.v
ClipboardServer.v
ClipboardServerSpec.v
KitSession.v
KitCallbacks.v
KitReplay.v
KitCallbacksSpec.v
ProxyProtocol.v
ProxyProtocolSpec.v
