(* ===== verification/Prelude.v ===== *)
(** * Collabora Online: a verified model of its document server

    Collabora Online serves LibreOffice documents to browsers. One server
    process (wsd) keeps a DocumentBroker per open document; the broker has one
    ClientSession per browser view and talks over a WebSocket to one kit process,
    which loads the document and renders it. Pixels go kit -> wsd -> browser as
    tiles (a compressed key frame, then deltas); input, callbacks and state
    changes go through queues that merge and drop what a newer message makes
    obsolete; modified documents are saved by the kit and uploaded by the broker
    to the host they came from.

    ** Files and what they model

    Foundations.
    - [Prelude]: bytes, C strings, exceptions, machine integers, the tactics and
      hint databases. [StateError]: the state-and-exception monad of the
      handlers. [Algo]: std::lower_bound, std::find_if and erase, list lemmas.
      [RecordSet]: record update.
    - [Util]: common/Util.hpp, common/Util.cpp (numbers and strings).
      [StringVector]: common/StringVector.hpp and .cpp (the tokenizer).
      [Protocol]: common/Protocol.hpp and .cpp (name=value tokens).
      [Rectangle]: common/Rectangle.hpp.

    Tiles.
    - [TileDesc], [TileCombined]: the classes of wsd/TileDesc.hpp with their
      wire format.
    - [TileQueue], [TileQueueSpec]: the tile half of kit/KitQueue.hpp and .cpp:
      the order in which the kit renders and what it combines.
    - [Delta], [DeltaRle], [DeltaSpec]: kit/Delta.hpp, the delta generator.
    - [TileDecoder], [TileDecoderSpec]: the decoder of the browser
      (browser/src/layer/tile/CanvasTileUtils.ts).
    - [TileData]: the struct TileData of wsd/TileCache.hpp. [TileCache],
      [TileCacheSpec]: wsd/TileCache.hpp and .cpp.
    - [ClientSession], [ClientSessionSpec]: the tracker of what a client has and
      the messages that send it tiles (wsd/ClientSession.hpp and .cpp).
    - [TileServer], [TileServerSpec], [FlowControlSpec]: the tile handlers of
      wsd/DocumentBroker.cpp for all sessions of a document.
    - [TilePipeline]: the composition, from the pixels the kit renders through
      the server to the pixels the browser shows.

    Messages.
    - [KitQueue], [KitQueueSpec]: the message and callback half of
      kit/KitQueue.hpp and .cpp.
    - [Message], [SenderQueueSpec]: common/Message.hpp and wsd/SenderQueue.hpp.
    - [Buffer]: net/Buffer.hpp. [WebSocket], [WebSocketSpec]:
      net/WebSocketHandler.hpp and the part of net/Socket.hpp it uses.

    Saving.
    - [Storage]: uploading, of wsd/Storage.hpp and wsd/wopi/WopiStorage.cpp.
      [SaveManager]: the managers nested in wsd/DocumentBroker.hpp.
    - [DocumentSave], [DocumentPoll]: the handlers of wsd/DocumentBroker.cpp that
      save, upload, rename, lock, switch modes and unload, and a round of the poll
      loop (a dialog that suspends it, its activity switch); [handle] and [run] step
      the broker by one event and by a list of them. [DocumentSaveSpec],
      [DocumentUploadSpec]: their theorems.
    HTTP.
    - [HttpHeader], [Http]: net/HttpRequest.hpp and .cpp: header fields, the
      status line, requests and responses with their writers and incremental
      parsers. [HttpSpec], [HttpRequestSpec], [HttpResponseSpec]: their theorems.

    Client commands.
    - [JsonUtil]: common/JsonUtil.hpp, reading values under misspelled keys.
      [LoadOptions], [LoadOptionsSpec]: the load line of a client
      (common/Session.cpp), the load message wsd/ClientSession.cpp makes of it
      and what the kit's session reads.
    - [ClientInput], [ClientInputSpec]: ClientSession::_handleInput of
      wsd/ClientSession.cpp, the dispatcher of all a client sends, over both
      halves of the broker ([TileServer] and [DocumentSave]).

    Messages of the kit.
    - [TileInvalidation], [TileInvalidationSpec]: what a view asks for anew when
      tiles are invalidated (handleTileInvalidation of wsd/ClientSession.cpp).
    - [SlideCache]: wsd/SlideCache.hpp and .cpp.
    - [KitMessages], [KitMessagesSpec]: DocumentBroker::handleInput and
      forwardToClient, and handleKitToClientMessage of wsd/ClientSession.cpp with
      its handlers, over the state of [ClientInput].

    Clipboards.
    - [StreamSearch]: copyToMatch and seekToMatch of common/Util.cpp, which search
      a stream through a window. [Clipboard], [ClipboardSpec]: the format of a
      clipboard and the cache of common/Clipboard.hpp (called by one thread at a
      time), its reader and writer in kit/ChildSession.cpp, and the origin
      wsd/ClientSession.cpp adds and removes, over a file system. [ClipboardServer], [ClipboardServerSpec]: the HTTP
      requests for clipboards, of wsd/ClientSession.cpp and wsd/DocumentBroker.cpp.

    Proxied connections.
    - [ProxyProtocol], [ProxyProtocolSpec]: wsd/ProxyProtocol.cpp and .hpp (the
      server's end of a connection made of posted HTTP requests) and the
      ProxySocket of browser/js/global.js. The session is an interface
      ([MessageHandler]).

    Rendering in the kit.
    - [ThreadPool], [ThreadPoolSpec]: common/ThreadPool.hpp as a step relation on
      what its threads do while they hold the mutex, with the interleavings of
      jobs that [run] promises ([runs_to]).
    - [RenderTiles], [RenderTilesSpec]: doRender of common/RenderTiles.hpp: the
      layout of a batch in one pixmap, the jobs that compress its tiles, and the
      answer to the server.
    - [KitSession], [KitCallbacks]: the document of the kit and its sessions
      (kit/Kit.cpp, kit/ChildSession.cpp, kit/StateRecorder.hpp): what becomes of
      the callbacks of LibreOfficeKit, for active and inactive sessions, and
      what the document tells all its sessions. [KitReplay]: runs of callbacks
      and the recorder as a map. [KitCallbacksSpec]: the theorems.

    ** What the theorems show

    - A browser shows the last pixels the kit rendered, whatever mixture of key
      frames, deltas, evictions and rebalancing came before
      ([TilePipeline.browser_shows_last_pixels]); its parts: the decoder undoes
      the encoder, [TileData] joins frames without loss, and the tracker of a
      client agrees with what it was sent in every reachable state
      ([TileServerSpec.client_converges]).
    - The queues conserve work: rendering pops every tile once and in bounded
      steps, invalidations never shrink, and a message dropped from a sender
      queue is one that a newer message replaces.
    - Resources: the accounted size of the tile cache is exact and eviction frees
      enough; the number of tiles in flight respects its limit; the delta cache
      and the throttling of requests stay within bounds.
    - Encodings round trip or are validated: tile descriptors, combined tiles,
      WebSocket frames cut anywhere by the network.
    - Saving: as long as a modification is neither saved nor the document in
      conflict with the storage at a close, the broker keeps reporting it
      ([DocumentSaveSpec.modification_saved_or_reported]); unloading stops only
      when nothing is left to save or upload, if the session picked to save has a
      valid token ([DocumentUploadSpec.unload_loses_nothing]); a refused upload
      loses nothing ([DocumentUploadSpec.refused_upload]). Theorems also exhibit
      histories in which the code does something else than its comments say: an
      overlapping upload, a failed connection, a re-synchronization, a conflict
      whose loss goes unreported, an owner with an expired token, a dialog that
      suspends the poll loop; they are listed as findings of the manifest.
    - Client commands: what a client may bring about. Only a load line changes
      permissions, nothing but a load reaches the kit before a load, what the
      host forbids is not forwarded, and input that is forwarded arrives once
      and unchanged ([ClientInputSpec]), a client's own [.uno:Save] apart
      ([ClientInputSpec.uno_save_gets_through]); the load message arrives whole unless a
      part is asked for ([LoadOptionsSpec]).
    - Messages of the kit: an invalidated area that is seen is rendered anew
      ([TileInvalidationSpec.invalidated_area_requested]); the kit gives nobody a
      permission, a message for one session adds nothing to the others but the
      frames the broker sends all of them ([KitMessagesSpec.kit_message_is_private]),
      and what the server does not look at is passed on once ([KitMessagesSpec]).
      Frames of the broker go into the sender queues of their sessions there; how
      the saving half names a session as the tile half numbers it is a parameter
      ([kc_number]).
    - Clipboards: what is copied in one document is what is pasted in another,
      through the kit's format, the origin and the cache, if it comes as the body of
      the request that sets it ([ClipboardServerSpec.copy_paste_roundtrip]); one
      the server downloads itself keeps its origin and is misread
      ([ClipboardServerSpec.downloaded_clipboard_keeps_origin]); the cache has exactly the
      files that somebody needs ([ClipboardSpec.clipboard_files_exact]); where
      copying is forbidden nothing is given out.
    - HTTP: requests and responses are read as they were written, however they
      are cut ([HttpRequestSpec.request_roundtrip],
      [HttpResponseSpec.response_roundtrip]); what follows a message is not
      always kept apart from it ([HttpResponseSpec.late_data_finishes_again]).
    - Proxied connections: over posted requests that overtake each other and come in
      pieces, the session handles each message once and in order, and each request
      is answered once, with what the session sent
      ([ProxyProtocolSpec.proxy_delivers_in_order],
      [ProxyProtocolSpec.answers_read_back]); the browser's end does not put
      answers that overtake each other back in order
      ([ProxyProtocolSpec.overtaking_answers_reorder_messages]).
    - Rendering in the kit: the pool runs every job to its end, interleaved in
      some way, before [run] returns, and returns
      ([ThreadPoolSpec.run_executes_all], [ThreadPoolSpec.run_terminates]); in
      whatever order the jobs end, the server reads from the answer exactly the
      tiles of the batch with their bytes and saves them
      ([RenderTilesSpec.rendered_batch_saved]), and each tile is cut out of the
      pixmap where the document was painted for it
      ([RenderTilesSpec.batch_shows_document]).
    - Callbacks: the client of a user who was away was told last what it would
      have been told last all along, for every kind of event that lasts, comments
      and tracked changes one by one ([KitCallbacksSpec.inactive_session_catches_up]);
      invalidations of the current part are made up for by one of the whole part
      ([KitCallbacksSpec.missed_invalidation_replayed]), a callback for one view
      and the private information of one user reach nobody else
      ([KitCallbacksSpec.callback_is_private],
      [KitCallbacksSpec.private_information_stays_private]); concrete runs show
      what is lost or wrong: the modified state after a failed save, other parts.

    ** How code becomes definitions

    A handler that changes state and may throw is a computation in the monad of
    [StateError]; the save logic, whose handlers do not throw except where noted,
    takes and returns the broker's record. A server thread runs its handlers one
    at a time, so interleavings are sequences of handler calls: the step relations
    of [TileServerSpec] and [run] of [DocumentPoll]. Integers have the width of
    the C++ type, with wrap-around or undefined overflow written out at the
    operation; sizes that count live bytes are unbounded. Strings are lists of
    bytes. A std::weak_ptr to a session is the session's number, expired when the
    number is no longer in the map of sessions.

    Loops. Structural recursion where there is a list to walk; otherwise fuel
    that is the length of the input or of the queue, with a theorem that it is
    enough ([WebSocketSpec.handleIncomingMessage_terminates],
    [TileDecoderSpec.decode_tile_terminates],
    [TileQueueSpec.drain_renders_all],
    [ProxyProtocolSpec.parse_fuel_enough]).

    Parameters of the model, for what is not in the repository: the callback
    types of LibreOfficeKit; [json_viewId] and the values read from JSON objects
    (Poco); zstd's compress and decompress with their documented laws; the size
    of a cache item's overhead; conversions to UTF-7 and URI parsing; clock
    readings, one per handler; the answers of the storage host and the file
    system in [Env]; configuration values in [Config].

    ** Not modelled

    Logging, the unit-test hooks, the mobile builds (MOBILEAPP), sockets below
    the byte stream (polling, SSL), process management (wsd/COOLWSD.cpp, the
    forkit), the kit's calls into LibreOffice and the messages of its sessions
    other than useractive, userinactive and those for clipboards (kit/Kit.cpp,
    kit/ChildSession.cpp),
    file serving, administration, downloading a document and loading its
    presets, the quarantine, and the user interface of the browser. Downloads,
    asynchronous lock refreshes and the synchronous storage callback are left out
    of the broker. The AVX2 encoder of rows is taken to agree with the portable
    one. *)

From Stdlib Require Export ZArith Lia Sorting.Sorted.
From stdpp Require Export base decidable option list numbers sets gmap.
From Stdlib Require Ascii String.
Export String.StringSyntax.

#[export] Set Default Goal Selector "!".

Declare Scope cool_scope.
Delimit Scope cool_scope with cool.
Open Scope Z_scope.

(** ** Machine integers

    A C++ integer is a [Z]; the functions below write out the conversion to a
    fixed width (two's complement for the signed types). *)

Definition INT_MAX : Z := 2147483647.
Definition INT_MIN : Z := -2147483648.
Definition UINT32_MAX : Z := 4294967295.
Definition LONG_MAX : Z := 9223372036854775807.
Definition LONG_MIN : Z := -9223372036854775808.

Definition u8 (x : Z) : Z := x mod 256.
Definition u32 (x : Z) : Z := x mod 4294967296.
Definition u64 (x : Z) : Z := x mod 18446744073709551616.
Definition i32 (x : Z) : Z := (x + 2147483648) mod 4294967296 - 2147483648.

Definition is_i32 (x : Z) : Prop := INT_MIN <= x <= INT_MAX.
Definition is_u32 (x : Z) : Prop := 0 <= x <= UINT32_MAX.
Definition is_byte (x : Z) : Prop := 0 <= x < 256.

#[global] Instance is_i32_dec x : Decision (is_i32 x).
Proof. unfold is_i32. apply _. Defined.
#[global] Instance is_u32_dec x : Decision (is_u32 x).
Proof. unfold is_u32. apply _. Defined.
#[global] Instance is_byte_dec x : Decision (is_byte x).
Proof. unfold is_byte. apply _. Defined.

Ltac int_unfold :=
  unfold is_i32, is_u32, is_byte, INT_MAX, INT_MIN, UINT32_MAX, LONG_MAX, LONG_MIN in *.

Lemma i32_id x : is_i32 x -> i32 x = x.
Proof. int_unfold. unfold i32. intros H. rewrite Z.mod_small; lia. Qed.
Lemma i32_range x : is_i32 (i32 x).
Proof.
  int_unfold. unfold i32.
  pose proof (Z.mod_pos_bound (x + 2147483648) 4294967296). lia.
Qed.
Lemma u32_id x : is_u32 x -> u32 x = x.
Proof. int_unfold. unfold u32. intros H. rewrite Z.mod_small; lia. Qed.
Lemma u32_range x : is_u32 (u32 x).
Proof. int_unfold. unfold u32. pose proof (Z.mod_pos_bound x 4294967296). lia. Qed.
Lemma u32_i32 x : u32 (i32 x) = u32 x.
Proof.
  unfold u32, i32. rewrite Zminus_mod_idemp_l. f_equal. lia.
Qed.
Lemma u8_id x : is_byte x -> u8 x = x.
Proof. unfold is_byte, u8. intros H. by rewrite Z.mod_small. Qed.
Lemma u8_range x : is_byte (u8 x).
Proof. unfold is_byte, u8. apply Z.mod_pos_bound. lia. Qed.
Lemma u64_id x : 0 <= x < 18446744073709551616 -> u64 x = x.
Proof. intros H. unfold u64. by rewrite Z.mod_small. Qed.
Lemma u64_add_l x y : u64 (u64 x + y) = u64 (x + y).
Proof. unfold u64. by rewrite Zplus_mod_idemp_l. Qed.
Lemma u64_sub_l x y : u64 (u64 x - y) = u64 (x - y).
Proof. unfold u64. by rewrite Zminus_mod_idemp_l. Qed.

(** ** Bytes and literals *)

(** A [std::string], [std::string_view] or [std::vector<char>]: its bytes as
    unsigned values. *)
Abbreviation bytes := (list Z).

(** The bytes of a C++ string literal (without the terminator). *)
Definition str (s : String.string) : bytes :=
  map (fun c => Z.of_N (Ascii.N_of_ascii c)) (String.list_ascii_of_string s).
Arguments str s%_string_scope.

Definition chr_newline : Z := 10.
Definition chr_cr : Z := 13.
Definition chr_tab : Z := 9.
Definition chr_space : Z := 32.
Definition chr_plus : Z := 43.
Definition chr_comma : Z := 44.
Definition chr_minus : Z := 45.
Definition chr_0 : Z := 48.
Definition chr_9 : Z := 57.
Definition chr_eq : Z := 61.
Definition chr_nul : Z := 0.

Definition beq (a b : bytes) : bool := bool_decide (a = b).

Lemma beq_refl a : beq a a = true.
Proof. apply bool_decide_eq_true. done. Qed.
Lemma beq_eq a b : beq a b = true <-> a = b.
Proof. apply bool_decide_eq_true. Qed.
Lemma beq_neq a b : beq a b = false <-> a <> b.
Proof. apply bool_decide_eq_false. Qed.

(** [s.compare(0, prefix.size(), prefix) == 0] together with the size test. *)
Definition starts_with (p s : bytes) : bool := beq (take (length p) s) p.

Lemma starts_with_app p s : starts_with p (p ++ s) = true.
Proof. unfold starts_with. rewrite take_app_length. apply beq_refl. Qed.
Lemma starts_with_spec p s : starts_with p s = true <-> exists r, s = p ++ r.
Proof.
  unfold starts_with. rewrite beq_eq. split.
  - intros H. exists (drop (length p) s). rewrite <- H at 1. by rewrite take_drop.
  - intros [r ->]. by rewrite take_app_length.
Qed.

(** ** Errors as values *)

(** The exceptions the modelled code throws. *)
Inductive exn :=
| BadArgumentException  (* wsd/Exceptions.hpp *)
| runtime_error
| out_of_range
| undefined            (* not an exception: an access out of range, which C++ leaves undefined *)
| RangeError           (* of the script: [TypedArray.set] past the end *)
| json_error            (* any Poco::Exception raised by the JSON parser *)
| SyntaxException       (* Poco::SyntaxException: a text that cannot be decoded *)
| ParseError            (* wsd/Exceptions.hpp *)
| invalid_argument.     (* std::invalid_argument, std::out_of_range of [std::stod] *)

Inductive result (A : Type) :=
| Ok (a : A)
| Throw (e : exn).
Arguments Ok {A} a.
Arguments Throw {A} e.

#[global] Instance exn_eq_dec : EqDecision exn.
Proof. solve_decision. Defined.

Definition rbind {A B} (m : result A) (f : A -> result B) : result B :=
  match m with Ok a => f a | Throw e => Throw e end.

Notation "'try' x <- m ; k" := (rbind m (fun x => k))
  (at level 10, x pattern, m at level 100, k at level 200) : cool_scope.
Notation "'throw_if' c 'as' e ; k" := (if c then Throw e else k)
  (at level 10, c at level 100, e at level 0, k at level 200) : cool_scope.

Definition is_ok {A} (r : result A) : bool := match r with Ok _ => true | Throw _ => false end.

Lemma rbind_ok {A B} (m : result A) (f : A -> result B) b :
  rbind m f = Ok b <-> exists a, m = Ok a /\ f a = Ok b.
Proof. destruct m; simpl; naive_solver. Qed.

(** ** Boolean reflection *)

Create HintDb cool_bool.
#[export] Hint Rewrite andb_true_iff andb_false_iff orb_true_iff orb_false_iff
  negb_true_iff negb_false_iff Z.eqb_eq Z.eqb_neq Z.ltb_lt Z.ltb_ge Z.leb_le Z.leb_gt
  Nat.eqb_eq Nat.eqb_neq Nat.ltb_lt Nat.ltb_ge Nat.leb_le Nat.leb_gt beq_eq beq_neq
  bool_decide_eq_true bool_decide_eq_false : cool_bool.

(** Turn every boolean hypothesis into a proposition. *)
Ltac bool_hyps := autorewrite with cool_bool in *.
(** Case analysis on a comparison in the goal, then arithmetic. *)
Ltac zcases :=
  repeat match goal with
  | |- context [?a =? ?b] => destruct (Z.eqb_spec a b)
  | |- context [?a <? ?b] => destruct (Z.ltb_spec a b)
  | |- context [?a <=? ?b] => destruct (Z.leb_spec a b)
  end.

(** Decide a closed proposition (about literals, typically) by evaluation. *)
Ltac by_decide :=
  match goal with |- ?P => apply (bool_decide_eq_true_1 P); vm_compute; reflexivity end.
