(* ===== verification/StateError.v ===== *)
(** * A state monad with exceptions

    The handlers of the server change state and may throw; what they changed
    before the exception stays changed. A handler is a function from a state to
    the new state and a value or an exception. *)

From S2P Require Import Prelude.

Section monad.
Context {S : Type}.

Definition SE (A : Type) : Type := S -> S * result A.

Definition se_ret {A} (a : A) : SE A := fun s => (s, Ok a).
Definition se_throw {A} (e : exn) : SE A := fun s => (s, Throw e).
Definition se_bind {A B} (m : SE A) (f : A -> SE B) : SE B := fun s =>
  match m s with
  | (s', Ok a) => f a s'
  | (s', Throw e) => (s', Throw e)
  end.
Definition se_get : SE S := fun s => (s, Ok s).
Definition se_modify (f : S -> S) : SE unit := fun s => (f s, Ok tt).
Definition se_lift {A} (r : result A) : SE A := fun s => (s, r).

Fixpoint se_iter {A} (f : A -> SE unit) (l : list A) : SE unit :=
  match l with
  | [] => se_ret tt
  | a :: l' => se_bind (f a) (fun _ => se_iter f l')
  end.

(** ** Hoare triples

    [hoare P m Q E]: from [P], [m] ends in [Q] with its value, or throws in [E]. *)
Definition hoare {A} (P : S -> Prop) (m : SE A) (Q : A -> S -> Prop) (E : S -> Prop) : Prop :=
  forall s, P s -> match m s with (s', Ok a) => Q a s' | (s', Throw _) => E s' end.

Lemma hoare_ret {A} P (a : A) (Q : A -> S -> Prop) E : (forall s, P s -> Q a s) -> hoare P (se_ret a) Q E.
Proof. done. Qed.

Lemma hoare_bind {A B} P (m : SE A) (f : A -> SE B) R Q E :
  hoare P m R E -> (forall a, hoare (R a) (f a) Q E) -> hoare P (se_bind m f) Q E.
Proof.
  intros Hm Hf s Hs. specialize (Hm s Hs). unfold se_bind. destruct (m s) as [s' [a|e]]; [|done].
  by apply Hf.
Qed.

Lemma hoare_get P (Q : S -> S -> Prop) E : (forall s, P s -> Q s s) -> hoare P se_get Q E.
Proof. done. Qed.

(** Reading the state fixes it for what follows. *)
Lemma hoare_get_bind {B} P (f : S -> SE B) Q E :
  (forall s, P s -> hoare (fun s' => s' = s) (f s) Q E) -> hoare P (se_bind se_get f) Q E.
Proof. intros Hf s Hs. by apply (Hf s Hs s). Qed.

Lemma hoare_modify P f (Q : S -> Prop) E : (forall s, P s -> Q (f s)) -> hoare P (se_modify f) (fun _ => Q) E.
Proof. intros Hf s Hs. by apply Hf. Qed.

Lemma hoare_lift {A} P (r : result A) (Q : A -> S -> Prop) (E : S -> Prop) :
  (forall s a, P s -> r = Ok a -> Q a s) -> (forall s, P s -> E s) -> hoare P (se_lift r) Q E.
Proof. intros HQ HE s Hs. unfold se_lift. destruct r; [by apply HQ|by apply HE]. Qed.

Lemma hoare_conseq {A} (P P' : S -> Prop) (m : SE A) (Q Q' : A -> S -> Prop) (E E' : S -> Prop) :
  hoare P' m Q' E' -> (forall s, P s -> P' s) -> (forall a s, Q' a s -> Q a s) -> (forall s, E' s -> E s) ->
  hoare P m Q E.
Proof.
  intros Hm HP HQ HE s Hs. specialize (Hm s (HP s Hs)). destruct (m s) as [s' [a|e]]; [by apply HQ|by apply HE].
Qed.

(** One step of a run. *)
Lemma se_bind_ok {A B} (m : SE A) (f : A -> SE B) s s' a : m s = (s', Ok a) -> se_bind m f s = f a s'.
Proof. intros E. unfold se_bind. by rewrite E. Qed.

(** A fact the precondition implies, whatever the state. *)
Lemma hoare_extract (phi : Prop) {A} (P : S -> Prop) (m : SE A) (Q : A -> S -> Prop) (E : S -> Prop) :
  (forall s, P s -> phi) -> (phi -> hoare P m Q E) -> hoare P m Q E.
Proof. intros HP Hm s Hs. by apply Hm; [apply (HP s)|]. Qed.
Lemma hoare_pure (phi : Prop) {A} (P : S -> Prop) (m : SE A) (Q : A -> S -> Prop) (E : S -> Prop) :
  (phi -> hoare P m Q E) -> hoare (fun s => phi /\ P s) m Q E.
Proof. intros Hm s [Hphi Hs]. by apply Hm. Qed.
Lemma hoare_pre {A} (P P' : S -> Prop) (m : SE A) (Q : A -> S -> Prop) (E : S -> Prop) :
  (forall s, P s -> P' s) -> hoare P' m Q E -> hoare P m Q E.
Proof. intros HP Hm s Hs. by apply Hm, HP. Qed.

Lemma hoare_iter {A} (I : S -> Prop) (f : A -> SE unit) l E :
  (forall a, a ∈ l -> hoare I (f a) (fun _ => I) E) -> hoare I (se_iter f l) (fun _ => I) E.
Proof.
  induction l as [|a l IH]; intros Hf; simpl; [by apply hoare_ret|].
  apply (hoare_bind _ _ _ (fun _ => I)); [apply Hf; left|]. intros _. apply IH.
  intros b Hb. apply Hf. by right.
Qed.
End monad.

Arguments SE : clear implicits.

Notation "'do' x <- m ; k" := (se_bind m (fun x => k))
  (at level 10, x pattern, m at level 100, k at level 200) : cool_scope.
Notation "'exec' m ; k" := (se_bind m (fun _ => k))
  (at level 10, m at level 100, k at level 200) : cool_scope.
