(* ===== verification/Algo.v ===== *)
(** * Standard-library algorithms the components share

    [std::lower_bound] (the binary search of libstdc++), [std::find_if] with
    [erase], and the list lemmas about partitioned and strictly sorted
    sequences that the tile queue and the argument tables rely on. *)

From S2P Require Import Prelude.

(** ** Binary search *)

Section lower_bound.
Context {A : Type}.

(** The loop of [std::lower_bound]: [first] is the current position, [len]
    the length of the remaining range, [comp] the test [*it < value]. *)
Fixpoint lb_loop (fuel : nat) (comp : A -> bool) (l : list A) (first len : nat) : nat :=
  match fuel with
  | O => first
  | S fuel' =>
      if (len =? 0)%nat then first
      else
        let half := Nat.div2 len in
        let mid := (first + half)%nat in
        match l !! mid with
        | Some x =>
            if comp x then lb_loop fuel' comp l (S mid) (len - half - 1)%nat
            else lb_loop fuel' comp l first half
        | None => first
        end
  end.

Definition lower_bound (comp : A -> bool) (l : list A) : nat :=
  lb_loop (S (length l)) comp l 0 (length l).

(** [l] is a run of elements that satisfy [comp] followed by a run that do not. *)
Definition partitioned_at (comp : A -> bool) (l : list A) (k : nat) : Prop :=
  (k <= length l)%nat /\ forall i x, l !! i = Some x -> comp x = (i <? k)%nat.

Lemma lb_loop_correct comp l k fuel first len :
  partitioned_at comp l k -> (len < fuel)%nat ->
  (first <= k)%nat -> (k <= first + len)%nat -> (first + len <= length l)%nat ->
  lb_loop fuel comp l first len = k.
Proof.
  intros [Hk Hp]. revert first len.
  induction fuel as [|fuel IH]; intros first len Hf Hlo Hhi Hlen; [lia|]. simpl.
  destruct (Nat.eqb_spec len 0); [lia|].
  assert (Nat.div2 len < len)%nat by (apply Nat.lt_div2; lia).
  destruct (l !! (first + Nat.div2 len)%nat) as [x|] eqn:Hx.
  2: { apply lookup_ge_None in Hx. lia. }
  rewrite (Hp _ _ Hx). generalize dependent (Nat.div2 len). intros half Hhalf Hx.
  destruct (Nat.ltb_spec (first + half) k).
  - apply IH; lia.
  - apply IH; lia.
Qed.

Lemma lower_bound_correct comp l k :
  partitioned_at comp l k -> lower_bound comp l = k.
Proof. intros H. pose proof H as [? _]. apply lb_loop_correct; [done|lia..]. Qed.

Lemma partitioned_app comp (l1 l2 : list A) :
  Forall (fun x => comp x = true) l1 -> Forall (fun x => comp x = false) l2 ->
  partitioned_at comp (l1 ++ l2) (length l1).
Proof.
  intros H1 H2. split; [rewrite length_app; lia|]. intros i x Hx.
  destruct (Nat.ltb_spec i (length l1)).
  - rewrite lookup_app_l in Hx by done. exact (Forall_lookup_1 _ _ _ _ H1 Hx).
  - rewrite lookup_app_r in Hx by done. exact (Forall_lookup_1 _ _ _ _ H2 Hx).
Qed.

Lemma lower_bound_app comp (l1 l2 : list A) :
  Forall (fun x => comp x = true) l1 -> Forall (fun x => comp x = false) l2 ->
  lower_bound comp (l1 ++ l2) = length l1.
Proof. intros. by apply lower_bound_correct, partitioned_app. Qed.
End lower_bound.

(** ** Strict orders on lists *)

Section sorted.
Context {A : Type} (lt : A -> A -> bool).
Hypothesis lt_irrefl : forall x, lt x x = false.
Hypothesis lt_trans : forall x y z, lt x y = true -> lt y z = true -> lt x z = true.

Definition ssorted : list A -> Prop := StronglySorted (fun x y => lt x y = true).

(** Strictly below the probe, then not: holds of every strictly sorted list
    and every probe comparable with it through [lt]. *)
Lemma ssorted_split (comp : A -> bool) (l : list A) :
  ssorted l -> (forall x y, lt x y = true -> comp y = true -> comp x = true) ->
  exists l1 l2, l = l1 ++ l2 /\ Forall (fun x => comp x = true) l1
    /\ Forall (fun x => comp x = false) l2.
Proof using.
  clear lt_irrefl lt_trans.
  intros Hs Hmono. induction Hs as [|x l Hs IH Hx].
  { exists [], []. done. }
  destruct (comp x) eqn:Hc.
  - destruct IH as (l1 & l2 & -> & H1 & H2). exists (x :: l1), l2. auto.
  - exists [], (x :: l). split_and!; [done|done|]. constructor; [done|].
    eapply Forall_impl; [exact Hx|]. simpl. intros y Hy.
    destruct (comp y) eqn:Hcy; [|done]. by rewrite (Hmono x y) in Hc.
Qed.

Lemma ssorted_app (l1 l2 : list A) :
  ssorted (l1 ++ l2) <->
  ssorted l1 /\ ssorted l2 /\ (forall x y, x ∈ l1 -> y ∈ l2 -> lt x y = true).
Proof using.
clear lt_irrefl lt_trans.
  unfold ssorted. induction l1 as [|a l1 IH]; simpl.
  - split; [intros; split_and!; [constructor|done|set_solver]|tauto].
  - split.
    + inversion 1 as [|?? Hs Hf]; subst. apply IH in Hs as (H1 & H2 & H3).
      rewrite Forall_app in Hf. destruct Hf as [Hf1 Hf2]. split_and!; [by constructor|done|].
      intros x y Hx Hy. apply elem_of_cons in Hx as [->|Hx]; [|auto].
      rewrite Forall_forall in Hf2. auto.
    + intros (H1 & H2 & H3). inversion H1; subst. constructor.
      * apply IH. split_and!; [done..|]. intros x y Hx Hy. apply H3; [by right|done].
      * rewrite Forall_app. split; [done|]. rewrite Forall_forall. intros y Hy.
        apply H3; [by left|done].
Qed.

Lemma ssorted_NoDup l : ssorted l -> NoDup l.
Proof using lt_irrefl.
  induction 1 as [|x l Hs IH Hx]; constructor; [|done].
  intros Hin. rewrite Forall_forall in Hx. specialize (Hx _ Hin).
  simpl in Hx. congruence.
Qed.

(** Removing a contiguous block keeps the order. *)
Lemma ssorted_remove_block (l1 l2 l3 : list A) :
  ssorted (l1 ++ l2 ++ l3) -> ssorted (l1 ++ l3).
Proof using.
  clear lt_irrefl lt_trans.
  rewrite !ssorted_app. intros (H1 & (H2 & H3 & H4) & H5).
  split_and!; [done|done|]. intros x y Hx Hy. apply H5; [done|]. set_solver.
Qed.

Lemma ssorted_lookup_lt l i j x y :
  ssorted l -> (i < j)%nat -> l !! i = Some x -> l !! j = Some y -> lt x y = true.
Proof using.
  clear lt_irrefl lt_trans.
  intros Hs. revert i j. induction Hs as [|a l Hs IH Ha]; intros i j Hij Hx Hy; [done|].
  destruct j as [|j]; [lia|]. simpl in Hy. destruct i as [|i]; simpl in Hx.
  - injection Hx as <-. by apply (Forall_lookup_1 _ _ _ _ Ha Hy).
  - apply (IH i j); [lia|done..].
Qed.
End sorted.

(** ** [std::find_if] followed by [erase] *)

Section find_erase.
Context {A : Type} (p : A -> bool).

(** Position of the first element satisfying [p]. *)
Fixpoint find_if (l : list A) : option nat :=
  match l with
  | [] => None
  | x :: l' => if p x then Some 0%nat else S <$> find_if l'
  end.

(** Erase the first element satisfying [p], when there is one. *)
Fixpoint erase_first (l : list A) : list A :=
  match l with
  | [] => []
  | x :: l' => if p x then l' else x :: erase_first l'
  end.

Lemma find_if_None l : find_if l = None <-> Forall (fun x => p x = false) l.
Proof.
  induction l as [|x l IH]; simpl; [done|]. rewrite Forall_cons, <- IH.
  destruct (p x); [naive_solver|]. destruct (find_if l); naive_solver.
Qed.

Lemma find_if_Some l i : find_if l = Some i ->
  exists l1 x l2, l = l1 ++ x :: l2 /\ length l1 = i /\ p x = true
    /\ Forall (fun y => p y = false) l1.
Proof.
  revert i. induction l as [|x l IH]; intros i; simpl; [done|].
  destruct (p x) eqn:Hp.
  - intros [= <-]. exists [], x, l. auto.
  - destruct (find_if l) as [j|]; [|done]. intros [= <-].
    destruct (IH j) as (l1 & y & l2 & -> & <- & Hy & Hl); [done|].
    exists (x :: l1), y, l2. auto.
Qed.

(** The split made by [erase_first]. *)
Lemma erase_first_spec l :
  (Forall (fun x => p x = false) l /\ erase_first l = l) \/
  (exists l1 x l2, l = l1 ++ x :: l2 /\ p x = true /\
     Forall (fun y => p y = false) l1 /\ erase_first l = l1 ++ l2).
Proof.
  induction l as [|x l IH]; simpl; [left; auto|]. destruct (p x) eqn:Hp.
  - right. exists [], x, l. auto.
  - destruct IH as [[H1 H2]|(l1 & y & l2 & -> & Hy & Hl & He)].
    + left. rewrite H2. auto.
    + right. exists (x :: l1), y, l2. rewrite He. auto.
Qed.

Lemma erase_first_length l : (length (erase_first l) <= length l)%nat.
Proof. induction l as [|x l IH]; simpl; [done|]. destruct (p x); simpl; lia. Qed.
End find_erase.
