(* ===== verification/Util.v ===== *)
(** * Number and string helpers of [common/Util.hpp] and [common/Util.cpp]

    The C library conversions the sources call ([isspace], [isdigit],
    [strtol], [strtoul], [std::to_string]), [Util::safe_atoi],
    [Util::i32FromString], the delimiter searches and the splitters. *)

From S2P Require Import Prelude.

Open Scope cool_scope.

(** ** The C library *)

Definition isspace (c : Z) : bool := ((9 <=? c) && (c <=? 13)) || (c =? 32).
Definition isdigit (c : Z) : bool := (48 <=? c) && (c <=? 57).
Definition digit_val (c : Z) : Z := c - 48.

Fixpoint drop_spaces (s : bytes) : bytes :=
  match s with
  | c :: s' => if isspace c then drop_spaces s' else s
  | [] => []
  end.

(** The longest run of digits at the start of [s]. *)
Fixpoint digit_run (s : bytes) : bytes :=
  match s with
  | c :: s' => if isdigit c then c :: digit_run s' else []
  | [] => []
  end.

Definition digits_value (ds : bytes) : Z :=
  fold_left (fun acc c => acc * 10 + digit_val c) ds 0.

(** An optional sign: (is it a minus, what follows). *)
Definition split_sign (s : bytes) : bool * bytes :=
  match s with
  | c :: s' => if c =? chr_minus then (true, s') else if c =? chr_plus then (false, s') else (false, s)
  | [] => (false, [])
  end.

(** [strtol(s, &end, 10)] and [strtoul(s, &end, 10)] on a NUL-terminated
    string: the value, whether [end > s], and whether [errno == ERANGE]. *)
Record conversion := { cv_value : Z; cv_any : bool; cv_erange : bool }.

Definition strtol (s : bytes) : conversion :=
  let '(neg, s') := split_sign (drop_spaces s) in
  let ds := digit_run s' in
  match ds with
  | [] => {| cv_value := 0; cv_any := false; cv_erange := false |}
  | _ =>
      let v := if neg then - digits_value ds else digits_value ds in
      if v <? LONG_MIN then {| cv_value := LONG_MIN; cv_any := true; cv_erange := true |}
      else if LONG_MAX <? v then {| cv_value := LONG_MAX; cv_any := true; cv_erange := true |}
      else {| cv_value := v; cv_any := true; cv_erange := false |}
  end.

Definition strtoul (s : bytes) : conversion :=
  let '(neg, s') := split_sign (drop_spaces s) in
  let ds := digit_run s' in
  match ds with
  | [] => {| cv_value := 0; cv_any := false; cv_erange := false |}
  | _ =>
      let v := digits_value ds in
      if 18446744073709551615 <? v
      then {| cv_value := 18446744073709551615; cv_any := true; cv_erange := true |}
      else {| cv_value := if neg then u64 (- v) else v; cv_any := true; cv_erange := false |}
  end.

(** [std::atoi]: [strtol] converted to [int]. *)
Definition atoi (s : bytes) : Z := i32 (cv_value (strtol s)).

(** [std::to_string] and [operator<<] on an integer. *)
Fixpoint dec_digits (fuel : nat) (n : Z) : bytes :=
  match fuel with
  | O => []
  | S fuel' => if n <? 10 then [n + 48] else dec_digits fuel' (n / 10) ++ [n mod 10 + 48]
  end.

Definition dec_fuel (n : Z) : nat := S (Z.to_nat (Z.log2 n)).

Definition to_string (n : Z) : bytes :=
  if n <? 0 then chr_minus :: dec_digits (dec_fuel (- n)) (- n) else dec_digits (dec_fuel n) n.

(** ** [common/Util.hpp], [common/Util.cpp] *)

Definition i32FromString (input : bytes) : Z * bool :=
  let c := strtol input in
  (i32 (cv_value c), cv_any c && negb (cv_erange c)).

Definition i32FromString_def (input : bytes) (def : Z) : Z * bool :=
  let pair := i32FromString input in
  if pair.2 then pair else (def, false).

Definition u64FromString (input : bytes) : Z * bool :=
  let c := strtoul input in
  (cv_value c, cv_any c && negb (cv_erange c)).

Definition u64FromString_def (input : bytes) (def : Z) : Z * bool :=
  let pair := u64FromString input in
  if pair.2 then pair else (def, false).

(** The digit loop of [safe_atoi]: [ret] is the value so far. *)
Fixpoint safe_atoi_digits (p : bytes) (multiplier ret : Z) : Z :=
  match p with
  | c :: p' =>
      if isdigit c then
        let next := ret * 10 + digit_val c in
        if INT_MAX <=? next then multiplier * INT_MAX
        else safe_atoi_digits p' multiplier next
      else multiplier * ret
  | [] => multiplier * ret
  end.

(** [safe_atoi(p, len)]: the argument is the [len] bytes at [p]. *)
Definition safe_atoi (p : bytes) : Z :=
  let '(neg, p') := split_sign (drop_spaces p) in
  match p' with
  | [] => 0
  | _ => safe_atoi_digits p' (if neg then -1 else 1) 0
  end.

(** [std::memchr]: the position of the first [delim], or the length. *)
Fixpoint getDelimiterPosition (message : bytes) (delim : Z) : nat :=
  match message with
  | [] => 0%nat
  | c :: m => if c =? delim then 0%nat else S (getDelimiterPosition m delim)
  end.

Definition getDelimitedInitialSubstring (message : bytes) (delim : Z) : bytes :=
  take (getDelimiterPosition message delim) message.

(** [memrchr]: the position of the last [delim], or the length. *)
Definition getLastDelimiterPosition (message : bytes) (delim : Z) : nat :=
  let k := getDelimiterPosition (reverse message) delim in
  if (k =? length message)%nat then length message else (length message - 1 - k)%nat.

Definition eliminatePrefix (s prefix : bytes) : bytes :=
  if starts_with prefix s then drop (length prefix) s else s.

Definition split_at_pos (s : bytes) (size : nat) (removeDelim : bool) : bytes * bytes :=
  let after_pos := (size + (if removeDelim then 1 else 0))%nat in
  (take size s, if (after_pos <? length s)%nat then drop after_pos s else []).

Definition split (s : bytes) (delimiter : Z) (removeDelim : bool) : bytes * bytes :=
  split_at_pos s (getDelimiterPosition s delimiter) removeDelim.

Definition splitLast (s : bytes) (delimiter : Z) (removeDelim : bool) : bytes * bytes :=
  split_at_pos s (getLastDelimiterPosition s delimiter) removeDelim.

(** [std::tolower] in the C locale. *)
Definition tolower (c : Z) : Z := if (65 <=? c) && (c <=? 90) then c + 32 else c.
Definition toLower (s : bytes) : bytes := map tolower s.

Fixpoint all_equal_lower (l r : bytes) : bool :=
  match l, r with
  | a :: l', b :: r' => (tolower a =? tolower b) && all_equal_lower l' r'
  | _, _ => true
  end.
Definition iequal (lhs rhs : bytes) : bool :=
  (length lhs =? length rhs)%nat && all_equal_lower lhs rhs.

(** [s.find_first_not_of(ch)] as the remaining suffix, and its mirror image. *)
Fixpoint ltrim_char (ch : Z) (s : bytes) : bytes :=
  match s with
  | c :: s' => if c =? ch then ltrim_char ch s' else s
  | [] => []
  end.
Definition rtrim (s : bytes) (ch : Z) : bytes := reverse (ltrim_char ch (reverse s)).
Definition trimmed (s : bytes) : bytes := rtrim (ltrim_char chr_space s) chr_space.

Definition replaceInPlace (s : bytes) (a b : Z) : bytes :=
  map (fun c => if c =? a then b else c) s.

(** ** Facts *)

Lemma digits_value_app ds c : digits_value (ds ++ [c]) = digits_value ds * 10 + digit_val c.
Proof. unfold digits_value. by rewrite fold_left_app. Qed.

Lemma dec_fuel_div n : 10 <= n -> (dec_fuel (n / 10) < dec_fuel n)%nat.
Proof.
  intros H. unfold dec_fuel.
  assert (Z.log2 (n / 10) < Z.log2 n); [|pose proof (Z.log2_nonneg (n/10)); lia].
  assert (1 <= n / 10) by (apply Z.div_le_lower_bound; lia).
  apply Z.log2_lt_pow2; [lia|]. apply Z.div_lt_upper_bound; [lia|].
  pose proof (Z.log2_spec n). rewrite Z.pow_succ_r in * by apply Z.log2_nonneg. lia.
Qed.

(** The digits of a non-negative number: all digits, non-empty, with its value. *)
Lemma dec_digits_spec fuel n :
  0 <= n -> (dec_fuel n <= fuel)%nat ->
  Forall (fun c => isdigit c = true) (dec_digits fuel n) /\
  dec_digits fuel n <> [] /\ digits_value (dec_digits fuel n) = n.
Proof.
  revert n. induction fuel as [|fuel IH]; intros n Hn Hf; [unfold dec_fuel in Hf; lia|].
  simpl. destruct (Z.ltb_spec n 10).
  - split_and!; [|done|unfold digits_value, digit_val; simpl; lia].
    constructor; [|done]. unfold isdigit. rewrite andb_true_iff, !Z.leb_le. lia.
  - pose proof (dec_fuel_div n ltac:(lia)).
    destruct (IH (n / 10)) as (H1 & H2 & H3); [apply Z.div_pos; lia|lia|].
    pose proof (Z.mod_pos_bound n 10 ltac:(lia)). split_and!.
    + apply Forall_app_2; [done|]. constructor; [|done].
      unfold isdigit. rewrite andb_true_iff, !Z.leb_le. lia.
    + by destruct (dec_digits fuel (n / 10)).
    + rewrite digits_value_app, H3. unfold digit_val. pose proof (Z.div_mod n 10). lia.
Qed.

Lemma digit_run_all ds s :
  Forall (fun c => isdigit c = true) ds ->
  (forall c s', s = c :: s' -> isdigit c = false) -> digit_run (ds ++ s) = ds.
Proof.
  intros Hd Hs. induction Hd as [|c ds Hc Hd IH]; simpl.
  - destruct s as [|c s']; [done|]. simpl. by rewrite (Hs c s').
  - by rewrite Hc, IH.
Qed.

Lemma digit_not_space c : isdigit c = true -> isspace c = false.
Proof. unfold isdigit, isspace. intros H. bool_hyps. lia. Qed.
Lemma digit_not_sign c : isdigit c = true -> c <> chr_minus /\ c <> chr_plus.
Proof. unfold isdigit, chr_minus, chr_plus. intros H. bool_hyps. lia. Qed.

Lemma split_sign_digit c s : isdigit c = true -> split_sign (c :: s) = (false, c :: s).
Proof.
  intros H. simpl. destruct (digit_not_sign _ H) as [H1 H2].
  destruct (Z.eqb_spec c chr_minus); [done|]. by destruct (Z.eqb_spec c chr_plus).
Qed.

(** What a printed number looks like to the parsers: no blanks, the sign
    first, then digits only. *)
Lemma to_string_shape n :
  exists ds, ds <> [] /\ Forall (fun c => isdigit c = true) ds /\ digits_value ds = Z.abs n /\
    to_string n = (if n <? 0 then chr_minus :: ds else ds) /\
    drop_spaces (to_string n) = to_string n /\ split_sign (to_string n) = (n <? 0, ds).
Proof.
  unfold to_string. destruct (Z.ltb_spec n 0).
  - destruct (dec_digits_spec (dec_fuel (- n)) (- n)) as (H1 & H2 & H3); [lia..|].
    eexists. split_and!; [exact H2|exact H1|lia|done|done|done].
  - destruct (dec_digits_spec (dec_fuel n) n) as (H1 & H2 & H3); [lia..|].
    exists (dec_digits (dec_fuel n) n). split_and!; [done|done|lia|done| |].
    + destruct (dec_digits _ _) as [|c s]; [done|]. inversion H1; subst.
      simpl. by rewrite digit_not_space.
    + destruct (dec_digits _ _) as [|c s]; [done|]. inversion H1; subst.
      by apply split_sign_digit.
Qed.

Lemma strtol_to_string n : LONG_MIN <= n <= LONG_MAX ->
  strtol (to_string n) = {| cv_value := n; cv_any := true; cv_erange := false |}.
Proof.
  intros Hn. destruct (to_string_shape n) as (ds & Hne & Hd & Hv & Hs & Hsp & Hsg).
  unfold strtol. rewrite Hsp, Hsg.
  assert (Hr : digit_run ds = ds).
  { rewrite <- (app_nil_r ds) at 1. by apply digit_run_all. }
  rewrite Hr, Hv. destruct ds as [|c ds]; [done|]. destruct (Z.ltb_spec n 0); int_unfold; zcases; f_equal; lia.
Qed.

Lemma safe_atoi_digits_spec ds mul ret :
  Forall (fun c => isdigit c = true) ds -> 0 <= ret ->
  let v := fold_left (fun acc c => acc * 10 + digit_val c) ds ret in
  ret <= v /\ (v < INT_MAX -> safe_atoi_digits ds mul ret = mul * v).
Proof.
  intros Hd. revert ret. induction Hd as [|c ds Hc Hd IH]; intros ret Hr; simpl; [lia|].
  assert (0 <= digit_val c <= 9) by (unfold isdigit in Hc; unfold digit_val; bool_hyps; lia).
  destruct (IH (ret * 10 + digit_val c)) as [Hle Hval]; [lia|].
  split; [lia|]. intros Hlt. rewrite Hc. destruct (Z.leb_spec INT_MAX (ret * 10 + digit_val c)); [lia|auto].
Qed.

(** [safe_atoi] reads back every printed value strictly inside the [int] range. *)
Lemma safe_atoi_to_string n : Z.abs n < INT_MAX -> safe_atoi (to_string n) = n.
Proof.
  intros Hn. destruct (to_string_shape n) as (ds & Hne & Hd & Hv & Hs & Hsp & Hsg).
  unfold safe_atoi. rewrite Hsp, Hsg. destruct ds as [|c ds']; [done|].
  destruct (safe_atoi_digits_spec _ (if n <? 0 then -1 else 1) 0 Hd) as [_ H]; [lia|].
  unfold digits_value in Hv. rewrite H by lia. rewrite Hv. zcases; lia.
Qed.

Lemma i32FromString_to_string n : is_i32 n -> i32FromString (to_string n) = (n, true).
Proof.
  intros H. unfold i32FromString. rewrite strtol_to_string by (int_unfold; lia).
  simpl. by rewrite i32_id.
Qed.

Lemma to_string_chars n c : c ∈ to_string n -> c = chr_minus \/ isdigit c = true.
Proof.
  destruct (to_string_shape n) as (ds & _ & Hd & _ & -> & _).
  rewrite Forall_forall in Hd. destruct (n <? 0); [rewrite elem_of_cons|]; naive_solver.
Qed.

(** Printed numbers contain none of the separators of the wire format. *)
Lemma to_string_no_sep n c :
  c ∈ to_string n -> c <> chr_space /\ c <> chr_newline /\ c <> chr_comma /\ c <> chr_eq /\ c <> chr_nul.
Proof.
  intros [->|H]%to_string_chars; [by split_and!|].
  unfold isdigit, chr_space, chr_newline, chr_comma, chr_eq, chr_nul in *. bool_hyps. lia.
Qed.
Lemma to_string_nonempty n : to_string n <> [].
Proof. destruct (to_string_shape n) as (ds & ? & _ & _ & -> & _). by destruct (n <? 0). Qed.

(** The bounds [safe_atoi] promises: its result never leaves the [int] range. *)
Lemma safe_atoi_range p : - INT_MAX <= safe_atoi p <= INT_MAX.
Proof.
  unfold safe_atoi. destruct (split_sign _) as [neg p']. destruct p' as [|c p']; [int_unfold; lia|].
  assert (H : forall q m r, (m = 1 \/ m = -1) -> 0 <= r <= INT_MAX ->
    - INT_MAX <= safe_atoi_digits q m r <= INT_MAX).
  { induction q as [|d q IH]; intros m r Hm Hr; simpl; [int_unfold; lia|].
    destruct (isdigit d) eqn:Hd; [|int_unfold; lia].
    destruct (Z.leb_spec INT_MAX (r * 10 + digit_val d)); [int_unfold; lia|].
    apply IH; [done|]. unfold isdigit, digit_val in *. bool_hyps. lia. }
  apply H; [destruct neg; auto|int_unfold; lia].
Qed.

Lemma getDelimiterPosition_le s d : (getDelimiterPosition s d <= length s)%nat.
Proof. induction s as [|c s IH]; simpl; [done|]. destruct (c =? d); lia. Qed.

Lemma getDelimiterPosition_take s d c : c ∈ take (getDelimiterPosition s d) s -> c <> d.
Proof.
  induction s as [|a s IH]; simpl; [set_solver|]. destruct (Z.eqb_spec a d); simpl; set_solver.
Qed.

Lemma getDelimiterPosition_app s d r :
  Forall (fun c => c <> d) s -> getDelimiterPosition (s ++ d :: r) d = length s.
Proof.
  induction 1 as [|c s Hc Hs IH]; simpl; [by rewrite Z.eqb_refl|].
  destruct (Z.eqb_spec c d); [done|by rewrite IH].
Qed.
Lemma getDelimiterPosition_none s d :
  Forall (fun c => c <> d) s -> getDelimiterPosition s d = length s.
Proof.
  induction 1 as [|c s Hc Hs IH]; simpl; [done|]. destruct (Z.eqb_spec c d); [done|by rewrite IH].
Qed.

Lemma iequal_spec a b : iequal a b = true <-> toLower a = toLower b.
Proof.
  unfold iequal, toLower. revert b. induction a as [|x a IH]; intros [|y b]; simpl; try done.
  specialize (IH b). rewrite andb_true_iff, Nat.eqb_eq in *. rewrite andb_true_iff, Z.eqb_eq.
  split.
  - intros (Hl & Hx & Hr). f_equal; [done|]. apply IH. auto.
  - intros [= Hx Hr]. apply IH in Hr as [? ?]. auto.
Qed.
