(* ===== verification/StringVector.v ===== *)
(** * [StringVector]: a string and its tokens

    Models [common/StringVector.hpp] and [common/StringVector.cpp]: the
    tokenizer, the token accessors, the comparisons and the typed readers.
    A token is an (index, length) pair into the string, as in the source; the
    theorems relate the tokenizer's pointer walk to the plain specification
    "the non-empty fields of the first line". *)

From S2P Require Import Prelude Util.

(** ** Data *)

Record StringToken := { tk_index : nat; tk_length : nat }.
Record StringVector := { sv_string : bytes; sv_tokens : list StringToken }.

#[global] Instance StringToken_eq_dec : EqDecision StringToken.
Proof. solve_decision. Defined.

(** ** Tokenizing *)

(** [data[i] == c], for an index the code only reads in range. *)
Definition char_is (data : bytes) (i : nat) (c : Z) : bool :=
  match data !! i with Some x => x =? c | None => false end.

(** The loop of [StringVector::tokenize]: [i] is [end - data]. *)
Fixpoint tokenize_loop (data : bytes) (delimiter : Z) (fuel i start : nat)
    (tokens : list StringToken) : nat * nat * list StringToken :=
  match fuel with
  | O => (start, i, tokens)
  | S fuel' =>
      match data !! i with
      | None => (start, i, tokens)
      | Some c =>
          if c =? chr_newline then (start, i, tokens)
          else if c =? delimiter then
            let tokens' :=
              if negb (start =? i)%nat && negb (char_is data start delimiter)
              then tokens ++ [{| tk_index := start; tk_length := i - start |}] else tokens in
            tokenize_loop data delimiter fuel' (S i) i tokens'
          else if char_is data start delimiter
            then tokenize_loop data delimiter fuel' (S i) (S start) tokens
            else tokenize_loop data delimiter fuel' (S i) start tokens
      end
  end.

Definition tokenize_tokens (data : bytes) (delimiter : Z) : list StringToken :=
  match data with
  | [] => []
  | c :: _ =>
      if c =? chr_nul then [] else
      let '(start, end_, tokens) := tokenize_loop data delimiter (length data) 0 0 [] in
      if negb (start =? end_)%nat && negb (char_is data start delimiter)
         && negb (char_is data start chr_newline)
      then tokens ++ [{| tk_index := start; tk_length := end_ - start |}] else tokens
  end.

(** [StringVector::tokenize(data, size, delimiter)]. *)
Definition tokenize_data (data : bytes) (delimiter : Z) : StringVector :=
  match data with
  | [] => {| sv_string := []; sv_tokens := [] |}
  | c :: _ =>
      if c =? chr_nul then {| sv_string := []; sv_tokens := [] |}
      else {| sv_string := data; sv_tokens := tokenize_tokens data delimiter |}
  end.

(** [StringVector::tokenize(std::string, delimiter)]. *)
Definition tokenize (s : bytes) (delimiter : Z) : StringVector :=
  match s with
  | [] => {| sv_string := []; sv_tokens := [] |}
  | _ => {| sv_string := s; sv_tokens := tokenize_tokens s delimiter |}
  end.

(** ** Accessors *)

Definition substr (s : bytes) (index len : nat) : bytes := take len (drop index s).

Definition getParam (sv : StringVector) (t : StringToken) : bytes :=
  substr (sv_string sv) (tk_index t) (tk_length t).

(** [operator[]]: an empty string when the index is out of range. *)
Definition sv_get (sv : StringVector) (index : nat) : bytes :=
  match sv_tokens sv !! index with Some t => getParam sv t | None => [] end.

Definition sv_size (sv : StringVector) : nat := length (sv_tokens sv).
Definition sv_empty (sv : StringVector) : bool := (sv_size sv =? 0)%nat.

Definition push_back (sv : StringVector) (s : bytes) : StringVector :=
  {| sv_string := sv_string sv ++ s;
     sv_tokens := sv_tokens sv ++ [{| tk_index := length (sv_string sv); tk_length := length s |}] |}.

(** The loop of [cat]: the tokens after the first, each behind the separator. *)
Definition cat_rest (sv : StringVector) (separator : bytes) (ts : list StringToken) : bytes :=
  concat (map (fun t => separator ++ getParam sv t) ts).

(** [cat(separator, firstOffset, lastOffset)]; [None] is [std::string::npos]. *)
Definition cat (sv : StringVector) (separator : bytes) (firstOffset : nat)
    (lastOffset : option nat) : bytes :=
  let n := sv_size sv in
  if (n <=? firstOffset)%nat
     || match lastOffset with Some l => (l <? firstOffset)%nat | None => false end
  then []
  else
    let last := match lastOffset with Some l => Nat.min l (n - 1) | None => (n - 1)%nat end in
    match take (last + 1 - firstOffset) (drop firstOffset (sv_tokens sv)) with
    | [] => []
    | t :: ts => getParam sv t ++ cat_rest sv separator ts
    end.

(** [substrFromToken(firstOffset, lastOffset)]. *)
Definition substrFromToken (sv : StringVector) (firstOffset : nat) (lastOffset : option nat) : bytes :=
  match sv_tokens sv !! firstOffset with
  | None => []
  | Some t0 =>
      match lastOffset with
      | Some l =>
          if (l <? firstOffset)%nat then [] else
          match sv_tokens sv !! l with
          | Some t1 => substr (sv_string sv) (tk_index t0)
                              (tk_index t1 + tk_length t1 - tk_index t0)
          | None => drop (tk_index t0) (sv_string sv)
          end
      | None => drop (tk_index t0) (sv_string sv)
      end
  end.

Definition equals (sv : StringVector) (index : nat) (s : bytes) : bool :=
  match sv_tokens sv !! index with Some t => beq (getParam sv t) s | None => false end.

Definition equals_other (sv : StringVector) (index : nat) (other : StringVector) (otherIndex : nat) : bool :=
  match sv_tokens sv !! index, sv_tokens other !! otherIndex with
  | Some t, Some t' => beq (getParam sv t) (getParam other t')
  | _, _ => false
  end.

Definition startsWith (sv : StringVector) (index : nat) (s : bytes) : bool :=
  match sv_tokens sv !! index with
  | Some t => (length s <=? tk_length t)%nat && beq (substr (sv_string sv) (tk_index t) (length s)) s
  | None => false
  end.

(** [getUInt32(index, key, value)]: [None] when [value] is left alone,
    otherwise the assigned value and the returned flag. *)
Definition getUInt32 (sv : StringVector) (index : nat) (key : bytes) : option Z * bool :=
  match sv_tokens sv !! index with
  | None => (None, false)
  | Some t =>
      let offset := (length key + 1)%nat in
      if (offset <? tk_length t)%nat
         && beq (substr (sv_string sv) (tk_index t) (length key)) key
         && char_is (sv_string sv) (tk_index t + length key) chr_eq
      then
        let value := u32 (safe_atoi (substr (sv_string sv) (tk_index t + offset) (tk_length t - offset))) in
        (Some value, value <? UINT32_MAX)
      else (None, false)
  end.

(** The scan for ['='] in [getNameIntegerPair]. *)
Fixpoint find_equal (data : bytes) (n i : nat) : option nat :=
  match n with
  | O => None
  | S n' => if char_is data i chr_eq then Some i else find_equal data n' (S i)
  end.

(** [getNameIntegerPair(index, name, value)]: the assigned name and value, if
    any, and the returned flag. *)
Definition getNameIntegerPair (sv : StringVector) (index : nat) : option (bytes * Z) * bool :=
  match sv_tokens sv !! index with
  | None => (None, false)
  | Some t =>
      match find_equal (sv_string sv) (tk_length t) (tk_index t) with
      | None => (None, false)
      | Some mid =>
          let name := substr (sv_string sv) (tk_index t) (mid - tk_index t) in
          let offset := (mid + 1)%nat in
          let value := safe_atoi (substr (sv_string sv) offset (tk_index t + tk_length t - offset)) in
          (Some (name, value), (INT_MIN <? value) && (value <? INT_MAX))
      end
  end.

(** ** Specification: the fields of the first line *)

Fixpoint first_line (s : bytes) : bytes :=
  match s with
  | [] => []
  | c :: s' => if c =? chr_newline then [] else c :: first_line s'
  end.

Definition emit (cur : bytes) : list bytes := match cur with [] => [] | _ => [cur] end.

(** Split at [delim], dropping empty fields; [cur] is the field being read. *)
Fixpoint fields (delim : Z) (cur s : bytes) : list bytes :=
  match s with
  | [] => emit cur
  | c :: s' => if c =? delim then emit cur ++ fields delim [] s' else fields delim (cur ++ [c]) s'
  end.

Definition tokens_spec (delim : Z) (s : bytes) : list bytes := fields delim [] (first_line s).

Definition sv_strings (sv : StringVector) : list bytes := map (getParam sv) (sv_tokens sv).

(** ** The tokenizer meets its specification *)

(** The step after the loop. *)
Definition tokenize_finish (data : bytes) (delimiter : Z)
    (st : nat * nat * list StringToken) : list StringToken :=
  let '(start, end_, tokens) := st in
  if negb (start =? end_)%nat && negb (char_is data start delimiter)
     && negb (char_is data start chr_newline)
  then tokens ++ [{| tk_index := start; tk_length := end_ - start |}] else tokens.

Definition token_string (data : bytes) (t : StringToken) : bytes :=
  substr data (tk_index t) (tk_length t).

(** What [start] means at position [i]: either no field is open, or the field
    [cur] is open and starts at [start]. *)
Definition tok_state (data : bytes) (d : Z) (i start : nat) (cur : bytes) : Prop :=
  (cur = [] /\ ((i = 0%nat /\ start = 0%nat) \/ (i = S start /\ data !! start = Some d))) \/
  (exists c cur', cur = c :: cur' /\ c <> d /\ c <> chr_newline /\ (start < i)%nat /\
     data !! start = Some c /\ cur = substr data start (i - start)).

Lemma substr_snoc (data : bytes) (start i : nat) c :
  (start <= i)%nat -> data !! i = Some c ->
  substr data start (i - start) ++ [c] = substr data start (S i - start).
Proof.
  intros Hle Hc. unfold substr. replace (S i - start)%nat with (S (i - start)) by lia.
  rewrite (take_S_r _ _ c); [done|]. rewrite lookup_drop. by replace (start + (i - start))%nat with i by lia.
Qed.

Lemma substr_one (data : bytes) (i : nat) c : data !! i = Some c -> substr data i 1 = [c].
Proof.
  intros Hc. pose proof (substr_snoc data i i c ltac:(lia) Hc) as H.
  replace (S i - i)%nat with 1%nat in H by lia. by rewrite <- H, Nat.sub_diag.
Qed.

Lemma tok_state_emit data d i start cur toks :
  tok_state data d i start cur ->
  map (token_string data) (tokenize_finish data d (start, i, toks))
  = map (token_string data) toks ++ emit cur.
Proof.
  intros [[-> [[-> ->]|[-> Hd]]]|(c & cur' & Hcur & Hcd & Hcn & Hlt & Hs & Hsub)];
    unfold tokenize_finish.
  - simpl. by rewrite app_nil_r.
  - unfold char_is. rewrite Hd, Z.eqb_refl. simpl. rewrite andb_false_r. simpl. by rewrite app_nil_r.
  - unfold char_is. rewrite Hs. replace (start =? i)%nat with false by (symmetry; apply Nat.eqb_neq; lia).
    replace (c =? d) with false by (symmetry; apply Z.eqb_neq; lia).
    replace (c =? chr_newline) with false by (symmetry; apply Z.eqb_neq; lia).
    simpl. rewrite map_app, Hcur. simpl. unfold token_string at 2. simpl. by rewrite <- Hsub, Hcur.
Qed.

Lemma tokenize_loop_spec data d fuel pre rest start toks cur :
  d <> chr_newline -> data = pre ++ rest -> (length rest <= fuel)%nat ->
  tok_state data d (length pre) start cur ->
  map (token_string data)
    (tokenize_finish data d (tokenize_loop data d fuel (length pre) start toks))
  = map (token_string data) toks ++ fields d cur (first_line rest).
Proof.
  intros Hd. revert pre rest start toks cur.
  induction fuel as [|fuel IH]; intros pre rest start toks cur Hdata Hfuel Hst.
  { destruct rest; [|simpl in Hfuel; lia]. simpl. by apply tok_state_emit. }
  destruct rest as [|c rest].
  { simpl. assert (data !! length pre = None) as ->
      by (rewrite Hdata, app_nil_r; apply lookup_ge_None_2; lia).
    by apply tok_state_emit. }
  assert (Hc : data !! length pre = Some c) by (rewrite Hdata; by apply list_lookup_middle).
  simpl. rewrite Hc. destruct (Z.eqb_spec c chr_newline) as [|Hnl]; [by apply tok_state_emit|].
  assert (Hnext : S (length pre) = length (pre ++ [c])) by (rewrite length_app; simpl; lia).
  assert (Hdata' : data = (pre ++ [c]) ++ rest) by (by rewrite <- app_assoc).
  simpl in Hfuel. rewrite Hnext. destruct (Z.eqb_spec c d) as [->|Hcd].
  - rewrite (IH _ rest _ _ []); [|done|lia|].
    2: { left. split; [done|]. right. rewrite length_app. simpl. split; [lia|done]. }
    simpl. rewrite Z.eqb_refl. rewrite app_assoc. f_equal.
    destruct Hst as [[-> [[-> ->]|[Hi Hs]]]|(a & cur' & -> & Had & Han & Hlt & Hs & Hsub)].
    + simpl. by rewrite app_nil_r.
    + unfold char_is. rewrite Hs, Z.eqb_refl, andb_false_r. simpl. by rewrite app_nil_r.
    + unfold char_is. rewrite Hs.
      replace (start =? length pre)%nat with false by (symmetry; apply Nat.eqb_neq; lia).
      replace (a =? d) with false by (symmetry; apply Z.eqb_neq; lia).
      simpl. rewrite map_app. simpl. unfold token_string at 2. simpl. by rewrite <- Hsub.
  - simpl. replace (c =? d) with false by (symmetry; apply Z.eqb_neq; lia).
    assert (Hopen : forall s', s' = length pre -> tok_state data d (length (pre ++ [c])) s' [c]).
    { intros s' ->. right. exists c, []. rewrite <- Hnext. split_and!; try done; [lia|].
      replace (S (length pre) - length pre)%nat with 1%nat by lia. by rewrite substr_one with (c := c). }
    unfold char_is. destruct Hst as [[-> [[Hi ->]|[Hi Hs]]]|(a & cur' & Hcur & Had & Han & Hlt & Hs & Hsub)].
    + rewrite Hi in Hc. rewrite Hc. replace (c =? d) with false by (symmetry; apply Z.eqb_neq; lia).
      apply IH; [done|lia|]. apply Hopen. lia.
    + rewrite Hs, Z.eqb_refl. apply IH; [done|lia|]. apply Hopen. lia.
    + rewrite Hs. replace (a =? d) with false by (symmetry; apply Z.eqb_neq; lia).
      apply IH; [done|lia|]. right. exists a, (cur' ++ [c]). rewrite <- Hnext, Hcur.
      split_and!; try done; [lia|]. rewrite <- substr_snoc with (c := c) by (done || lia).
      by rewrite <- Hsub, Hcur.
Qed.

Lemma tokenize_tokens_spec data d :
  d <> chr_newline -> head data <> Some chr_nul ->
  map (token_string data) (tokenize_tokens data d) = tokens_spec d data.
Proof.
  intros Hd Hnul. destruct data as [|c data']; [done|].
  unfold tokenize_tokens, tokens_spec. simpl in Hnul.
  destruct (Z.eqb_spec c chr_nul); [congruence|]. set (data := c :: data') in *.
  pose proof (tokenize_loop_spec data d (length data) [] data 0 [] [] Hd eq_refl ltac:(lia)) as H.
  change (tokenize_finish data d (tokenize_loop data d (length data) 0 0 [])) with
    (let '(start, end_, tokens) := tokenize_loop data d (length data) 0 0 [] in
      if negb (start =? end_)%nat && negb (char_is data start d) && negb (char_is data start chr_newline)
      then tokens ++ [{| tk_index := start; tk_length := end_ - start |}] else tokens) in H.
  apply H. left. auto.
Qed.

Lemma tokenize_strings s d :
  d <> chr_newline -> head s <> Some chr_nul -> sv_strings (tokenize s d) = tokens_spec d s.
Proof.
  intros Hd Hn. rewrite <- tokenize_tokens_spec by done. by destruct s.
Qed.
Lemma tokenize_data_strings s d :
  d <> chr_newline -> head s <> Some chr_nul -> sv_strings (tokenize_data s d) = tokens_spec d s.
Proof.
  intros Hd Hn. rewrite <- tokenize_tokens_spec by done. destruct s as [|c s]; [done|].
  simpl in *. destruct (Z.eqb_spec c chr_nul); [congruence|done].
Qed.

(** ** Tokens stay inside the string *)

Definition token_ok (data : bytes) (t : StringToken) : Prop :=
  (tk_index t + tk_length t <= length data)%nat.

(** The invariant of every [StringVector]: all tokens are in range. *)
Definition sv_ok (sv : StringVector) : Prop := Forall (token_ok (sv_string sv)) (sv_tokens sv).

Lemma tokenize_loop_ok data d fuel i start toks :
  (start <= i <= length data)%nat -> Forall (token_ok data) toks ->
  let '(start', i', toks') := tokenize_loop data d fuel i start toks in
  (start' <= i' <= length data)%nat /\ Forall (token_ok data) toks'.
Proof.
  revert i start toks. induction fuel as [|fuel IH]; intros i start toks Hi Ht; simpl; [done|].
  destruct (data !! i) as [c|] eqn:Hc; [|done]. apply lookup_lt_Some in Hc.
  destruct (c =? chr_newline); [done|]. destruct (c =? d).
  - apply IH; [lia|]. case_match; [|done]. apply Forall_app_2; [done|]. constructor; [|done].
    unfold token_ok. simpl. lia.
  - destruct (char_is data start d) eqn:Hs; apply IH; try done; [|lia].
    destruct (decide (start = i)); lia.
Qed.

Lemma tokenize_tokens_ok data d : Forall (token_ok data) (tokenize_tokens data d).
Proof.
  destruct data as [|c data']; [constructor|]. unfold tokenize_tokens.
  destruct (c =? chr_nul); [constructor|].
  pose proof (tokenize_loop_ok (c :: data') d (length (c :: data')) 0 0 [] ltac:(lia) (Forall_nil_2 _)) as H.
  destruct (tokenize_loop _ _ _ _ _ _) as [[start e] toks]. destruct H as [H1 H2].
  case_match; [|done]. apply Forall_app_2; [done|]. constructor; [|done]. unfold token_ok. simpl in *. lia.
Qed.

Lemma tokenize_ok s d : sv_ok (tokenize s d).
Proof. destruct s; [constructor|]. apply tokenize_tokens_ok. Qed.
Lemma tokenize_data_ok s d : sv_ok (tokenize_data s d).
Proof.
  destruct s as [|c s]; [constructor|]. unfold tokenize_data.
  destruct (c =? chr_nul); [constructor|]. apply tokenize_tokens_ok.
Qed.

Lemma push_back_ok sv s : sv_ok sv -> sv_ok (push_back sv s).
Proof.
  intros H. unfold sv_ok, push_back. simpl. apply Forall_app_2.
  - eapply Forall_impl; [exact H|]. unfold token_ok. intros t. rewrite length_app. lia.
  - constructor; [|done]. unfold token_ok. simpl. rewrite length_app. lia.
Qed.

(** ** Accessors in terms of the token strings *)

Lemma sv_size_strings sv : sv_size sv = length (sv_strings sv).
Proof. unfold sv_size, sv_strings. by rewrite length_map. Qed.

Lemma sv_strings_lookup sv i : sv_strings sv !! i = getParam sv <$> sv_tokens sv !! i.
Proof. unfold sv_strings. by rewrite list_lookup_fmap. Qed.

Lemma sv_get_strings sv i : sv_get sv i = default [] (sv_strings sv !! i).
Proof. rewrite sv_strings_lookup. unfold sv_get. by destruct (_ !! i). Qed.

Lemma equals_strings sv i s :
  equals sv i s = match sv_strings sv !! i with Some x => beq x s | None => false end.
Proof. rewrite sv_strings_lookup. unfold equals. by destruct (_ !! i). Qed.

Lemma getParam_length sv t : token_ok (sv_string sv) t -> length (getParam sv t) = tk_length t.
Proof. unfold token_ok, getParam, substr. intros H. rewrite length_take, length_drop. lia. Qed.

Lemma substr_substr (s : bytes) i n j m :
  (j + m <= n)%nat -> substr (substr s i n) j m = substr s (i + j) m.
Proof.
  intros H. unfold substr. rewrite (take_drop_commute (take n (drop i s))), take_take.
  rewrite Nat.min_l by lia. by rewrite <- take_drop_commute, drop_drop.
Qed.

Lemma char_is_substr (s : bytes) i n j c : (j < n)%nat -> char_is (substr s i n) j c = char_is s (i + j) c.
Proof.
  intros H. unfold char_is, substr. rewrite lookup_take.
  destruct (decide (j < n)%nat); [|lia]. by rewrite lookup_drop.
Qed.

Lemma substr_full (s : bytes) : substr s 0 (length s) = s.
Proof. unfold substr. by rewrite drop_0, firstn_all. Qed.
Lemma substr_drop (s : bytes) i n : (length s <= i + n)%nat -> substr s i n = drop i s.
Proof. intros H. unfold substr. rewrite take_ge; [done|]. rewrite length_drop. lia. Qed.

(** [getUInt32] on one token. *)
Definition token_UInt32 (tok key : bytes) : option Z * bool :=
  if (length key + 1 <? length tok)%nat && beq (take (length key) tok) key
     && char_is tok (length key) chr_eq
  then let value := u32 (safe_atoi (drop (length key + 1) tok)) in
       (Some value, value <? UINT32_MAX)
  else (None, false).

Lemma getUInt32_token sv i key tok :
  sv_ok sv -> sv_strings sv !! i = Some tok -> getUInt32 sv i key = token_UInt32 tok key.
Proof.
  intros Hok. rewrite sv_strings_lookup. unfold getUInt32.
  destruct (sv_tokens sv !! i) as [t|] eqn:Ht; [|done]. intros [= <-].
  pose proof (Forall_lookup_1 _ _ _ _ Hok Ht) as Hin.
  unfold token_UInt32. rewrite getParam_length by done.
  destruct (Nat.ltb_spec (length key + 1) (tk_length t)) as [Hlt|]; [|done]. simpl.
  pose proof (getParam_length sv t Hin) as Hlen. unfold getParam in *. rewrite char_is_substr by lia.
  replace (take (length key) _) with (substr (substr (sv_string sv) (tk_index t) (tk_length t)) 0 (length key))
    by (unfold substr; by rewrite drop_0).
  rewrite substr_substr, Nat.add_0_r by lia.
  destruct (beq _ _); [|done]. simpl. destruct (char_is _ _ _); [|done].
  rewrite <- (substr_drop (substr (sv_string sv) (tk_index t) (tk_length t))
                (length key + 1) (tk_length t - (length key + 1))) by (rewrite Hlen; lia).
  by rewrite substr_substr by lia.
Qed.

(** [getNameIntegerPair] on one token. *)
Definition token_NameIntegerPair (tok : bytes) : option (bytes * Z) * bool :=
  let mid := getDelimiterPosition tok chr_eq in
  if (mid <? length tok)%nat then
    let value := safe_atoi (drop (mid + 1) tok) in
    (Some (take mid tok, value), (INT_MIN <? value) && (value <? INT_MAX))
  else (None, false).

Lemma find_equal_spec data n i :
  (i + n <= length data)%nat ->
  find_equal data n i =
    let mid := getDelimiterPosition (substr data i n) chr_eq in
    if (mid <? n)%nat then Some (i + mid)%nat else None.
Proof.
  revert i. induction n as [|n IH]; intros i Hn; [done|]. simpl.
  destruct (lookup_lt_is_Some_2 data i) as [c Hc]; [lia|].
  assert (Hs : substr data i (S n) = c :: substr data (S i) n).
  { unfold substr. by rewrite (drop_S data c i Hc). }
  rewrite Hs. simpl. unfold char_is. rewrite Hc.
  destruct (c =? chr_eq); [by rewrite Nat.add_0_r|].
  rewrite IH by lia. simpl.
  destruct (Nat.ltb_spec (getDelimiterPosition (substr data (S i) n) chr_eq) n);
    destruct (Nat.ltb_spec (S (getDelimiterPosition (substr data (S i) n) chr_eq)) (S n)); try lia; [|done].
  f_equal. lia.
Qed.

Lemma getNameIntegerPair_token sv i tok :
  sv_ok sv -> sv_strings sv !! i = Some tok -> getNameIntegerPair sv i = token_NameIntegerPair tok.
Proof.
  intros Hok. rewrite sv_strings_lookup. unfold getNameIntegerPair.
  destruct (sv_tokens sv !! i) as [t|] eqn:Ht; [|done]. intros [= <-].
  pose proof (Forall_lookup_1 _ _ _ _ Hok Ht) as Hin. unfold token_ok in Hin.
  rewrite find_equal_spec by lia. unfold token_NameIntegerPair. rewrite getParam_length by done.
  fold (getParam sv t). set (mid := getDelimiterPosition (getParam sv t) chr_eq).
  simpl. destruct (Nat.ltb_spec mid (tk_length t)); [|done].
  replace (tk_index t + mid - tk_index t)%nat with mid by lia.
  assert (H1 : substr (sv_string sv) (tk_index t) mid = take mid (getParam sv t)).
  { unfold getParam, substr. rewrite take_take. f_equal. lia. }
  assert (H2 : substr (sv_string sv) (tk_index t + mid + 1) (tk_index t + tk_length t - (tk_index t + mid + 1))
               = drop (mid + 1) (getParam sv t)).
  { rewrite <- (substr_drop (getParam sv t) (mid + 1) (tk_length t - (mid + 1)))
      by (rewrite getParam_length by done; lia).
    unfold getParam. rewrite substr_substr by lia. f_equal; lia. }
  by rewrite H1, H2.
Qed.

(** ** Fields of a joined line *)

Definition plain (d : Z) (s : bytes) : Prop :=
  s <> [] /\ Forall (fun c => c <> d /\ c <> chr_newline) s.

Lemma fields_plain d cur s rest :
  Forall (fun c => c <> d /\ c <> chr_newline) s ->
  fields d cur (s ++ rest) = fields d (cur ++ s) rest.
Proof.
  intros Hs. revert cur. induction Hs as [|c s [Hc _] Hs IH]; intros cur; simpl.
  - by rewrite app_nil_r.
  - destruct (Z.eqb_spec c d); [done|]. rewrite IH. by rewrite <- app_assoc.
Qed.

(** [d]-separated concatenation, each piece behind a separator. *)
Definition join_with (d : Z) (ts : list bytes) : bytes := concat (map (fun t => d :: t) ts).

Lemma first_line_plain s :
  Forall (fun c => c <> chr_newline) s -> first_line s = s.
Proof. induction 1 as [|c s Hc Hs IH]; simpl; [done|]. destruct (Z.eqb_spec c chr_newline); [done|by rewrite IH]. Qed.

Lemma fields_join d t ts :
  plain d t -> Forall (plain d) ts -> fields d [] (t ++ join_with d ts) = t :: ts.
Proof.
  intros [Hne Ht] Hts. revert t Hne Ht. induction Hts as [|u ts [Hu1 Hu2] Hts IH]; intros t Hne Ht.
  - unfold join_with. simpl. rewrite fields_plain by done. simpl. by destruct t.
  - rewrite fields_plain by done. simpl. rewrite Z.eqb_refl.
    fold (join_with d ts). rewrite IH by done. by destruct t.
Qed.

Lemma tokens_spec_join d t ts :
  d <> chr_newline -> plain d t -> Forall (plain d) ts ->
  tokens_spec d (t ++ join_with d ts) = t :: ts.
Proof.
  intros Hd Ht Hts. unfold tokens_spec. rewrite first_line_plain; [by apply fields_join|].
  assert (Hp : forall x, plain d x -> Forall (fun c => c <> chr_newline) x).
  { intros x [_ Hx]. eapply Forall_impl; [exact Hx|]. simpl. tauto. }
  apply Forall_app_2; [by apply Hp|]. clear Ht. induction Hts as [|u ts Hu Hts IH]; [constructor|].
  unfold join_with. simpl. constructor; [done|]. apply Forall_app_2; [by apply Hp|exact IH].
Qed.
