(* ===== verification/Protocol.v ===== *)
(** * [COOLProtocol]: reading the text protocol

    Models [common/Protocol.hpp] and [common/Protocol.cpp]: number parsing,
    [name=value] tokens, message prefixes, the abbreviations used for logging
    and the command classifiers. A function with an out-parameter returns the
    assigned value, [None] when the parameter is left alone, and the result. *)

From S2P Require Import Prelude Util StringVector.

(** ** Numbers *)

Definition stringToInteger (input : bytes) : Z * bool := i32FromString input.

(** [uint32_t] from the [int32_t] that [i32FromString] yields. *)
Definition stringToUInt32 (input : bytes) : Z * bool :=
  let '(v, res) := i32FromString input in (u32 v, res).

Definition stringToUInt64 (input : bytes) : Z * bool := u64FromString input.

(** ** Searching *)

(** [s.find(pat)] as an offset from the start of [s]. *)
Fixpoint find_sub (pat s : bytes) : option nat :=
  if starts_with pat s then Some 0%nat
  else match s with [] => None | _ :: s' => S <$> find_sub pat s' end.

(** [s.find(pat, pos)]. *)
Definition find_from (pat s : bytes) (pos : nat) : option nat :=
  (fun k => (pos + k)%nat) <$> (if (length s <? pos)%nat then None else find_sub pat (drop pos s)).

Definition contains (s pat : bytes) : bool := bool_decide (is_Some (find_sub pat s)).

(** ** Name and value tokens *)

Definition parseNameValuePair (token : bytes) (delim : Z) : option (bytes * bytes) :=
  let mid := getDelimiterPosition token delim in
  if (mid <? length token)%nat then Some (take mid token, drop (mid + 1) token) else None.

(** The common guard [token.compare(0, n, name) == 0 && token[n] == '=']. *)
Definition has_name (token name : bytes) : bool :=
  beq (take (length name) token) name && char_is token (length name) chr_eq.

Definition getTokenInteger (token name : bytes) : option Z * bool :=
  if (length name + 1 <? length token)%nat && has_name token name then
    let c := strtol (drop (length name + 1) token) in (Some (i32 (cv_value c)), cv_any c)
  else (None, false).

Definition getTokenUInt64 (token name : bytes) : option Z * bool :=
  if (length name + 1 <? length token)%nat && has_name token name then
    let c := strtoul (drop (length name + 1) token) in (Some (cv_value c), cv_any c)
  else (None, false).

Definition getTokenUInt32 (token name : bytes) : option Z * bool :=
  if (length name + 1 <? length token)%nat && has_name token name then
    let c := strtoul (drop (length name + 1) token) in (Some (u32 (cv_value c)), cv_any c)
  else (None, false).

Definition getTokenString (token name : bytes) : option bytes :=
  if (length name + 1 <=? length token)%nat && has_name token name
  then Some (drop (length name + 1) token) else None.

(** [getNonNegTokenInteger]: the template's [N] counts the terminator. *)
Definition getNonNegTokenInteger (token name : bytes) : option Z * bool :=
  let '(v, res) := getTokenInteger token name in
  (v, res && match v with Some x => 0 <=? x | None => false end).

(** Strip one pair of single quotes, as [getTokenKeyword] does. *)
Definition unquote (t : bytes) : bytes :=
  if char_is t 0 39 && char_is t (length t - 1) 39 then take (length t - 2) (drop 1 t) else t.

(** [map.find(t)]. *)
Fixpoint map_find (map : list (bytes * Z)) (t : bytes) : option Z :=
  match map with
  | [] => None
  | (k, v) :: map' => if beq k t then Some v else map_find map' t
  end.

Definition getTokenKeyword (token name : bytes) (map : list (bytes * Z)) : option Z :=
  match getTokenString token name with
  | Some t => map_find map (unquote t)
  | None => None
  end.

(** The first token for which [f] succeeds. *)
Fixpoint first_token {A} (f : bytes -> option A) (ts : list bytes) : option A :=
  match ts with
  | [] => None
  | t :: ts' => match f t with Some a => Some a | None => first_token f ts' end
  end.

Definition getTokenString_sv (tokens : StringVector) (name : bytes) : option bytes :=
  first_token (fun t => getTokenString t name) (sv_strings tokens).

Definition getTokenKeyword_sv (tokens : StringVector) (name : bytes) (map : list (bytes * Z)) : option Z :=
  first_token (fun t => getTokenKeyword t name map) (sv_strings tokens).

(** Every token that assigns [value] overwrites the previous assignment; the
    scan stops at the first success. *)
Fixpoint first_integer (ts : list bytes) (name : bytes) (value : option Z) : option Z * bool :=
  match ts with
  | [] => (value, false)
  | t :: ts' =>
      let '(v, res) := getTokenInteger t name in
      let value' := match v with Some x => Some x | None => value end in
      if res then (value', true) else first_integer ts' name value'
  end.

Definition getTokenInteger_sv (tokens : StringVector) (name : bytes) : option Z * bool :=
  first_integer (sv_strings tokens) name None.

Definition getTokenIntegerFromMessage (message name : bytes) : option Z * bool :=
  getTokenInteger_sv (tokenize message chr_space) name.

(** The end of a value: the next blank or newline, or the end of the message. *)
Fixpoint value_end (s : bytes) : nat :=
  match s with
  | [] => 0%nat
  | c :: s' => if (c =? chr_space) || (c =? chr_newline) then 0%nat else S (value_end s')
  end.

Fixpoint token_from_message_loop (fuel : nat) (message name : bytes) (pos : nat) : option bytes :=
  match fuel with
  | O => None
  | S fuel' =>
      let spaceBefore := (pos =? 0)%nat || char_is message (pos - 1) chr_space in
      let beg := (pos + length name)%nat in
      if spaceBefore && char_is message beg chr_eq then
        let v := drop (beg + 1) message in Some (take (value_end v) v)
      else
        match find_from name message (pos + length name) with
        | Some pos' => token_from_message_loop fuel' message name pos'
        | None => None
        end
  end.

Definition getTokenStringFromMessage (message name : bytes) : option bytes :=
  if (length name + 1 <? length message)%nat then
    match find_sub name message with
    | Some pos => token_from_message_loop (S (length message)) message name pos
    | None => None
    end
  else None.

(** [tokenizeInts]: the walk of [StringVector::tokenize] with [std::atoi] at
    each field start. *)
Definition tokenizeInts (data : bytes) (delimiter : Z) : list Z :=
  match data with
  | [] => []
  | _ =>
      let '(start, end_, tokens) := tokenize_loop data delimiter (length data) 0 0 [] in
      let ints := map (fun t => atoi (drop (tk_index t) data)) tokens in
      if negb (start =? end_)%nat && negb (char_is data start delimiter)
         && negb (char_is data start chr_newline)
      then ints ++ [atoi (drop start data)] else ints
  end.

(** ** Prefixes and first tokens *)

Definition getFirstToken (message : bytes) (delim : Z) : bytes :=
  getDelimitedInitialSubstring message delim.
Definition getFirstLine (message : bytes) : bytes :=
  getDelimitedInitialSubstring message chr_newline.

Definition matchPrefix (prefix message : bytes) : bool :=
  (length prefix <=? length message)%nat && starts_with prefix message.

(** With [ignoreWhitespace]: an all-blank argument is left as it is. *)
Definition skip_blanks (s : bytes) : bytes :=
  match ltrim_char chr_space s with [] => s | s' => s' end.
Definition matchPrefix_ws (prefix message : bytes) (ignoreWhitespace : bool) : bool :=
  if ignoreWhitespace then matchPrefix (skip_blanks prefix) (skip_blanks message)
  else matchPrefix prefix message.

(** ** Classifiers *)

Definition tokenIndicatesUserInteraction (token : bytes) : bool :=
  negb (contains token (str "tile")) && negb (contains token (str "status"))
  && negb (contains token (str "state")) && negb (beq token (str "userinactive")).

Definition tokenIndicatesDocumentModification (tokens : StringVector) : bool :=
  if equals tokens 0 (str "key") || equals tokens 0 (str "outlinestate")
     || equals tokens 0 (str "paste") || equals tokens 0 (str "insertfile")
     || equals tokens 0 (str "textinput") || equals tokens 0 (str "windowkey")
     || equals tokens 0 (str "windowmouse") || equals tokens 0 (str "windowgesture")
  then true
  else if (1 <? sv_size tokens)%nat && equals tokens 0 (str "uno") then
    negb (equals tokens 1 (str ".uno:SidebarHide")) && negb (equals tokens 1 (str ".uno:SidebarShow"))
    && negb (equals tokens 1 (str ".uno:Copy")) && negb (equals tokens 1 (str ".uno:Save"))
    && negb (startsWith tokens 1 (str ".uno:ToolbarMode"))
    && negb (equals tokens 1 (str ".uno:InvertBackground"))
    && negb (equals tokens 1 (str ".uno:ChangeTheme"))
  else false.

(** ** Abbreviated messages *)

Definition maxNonAbbreviatedMsgLen : nat := 500.

Definition shouldEllipse (message : bytes) (spanLen : nat) : bool :=
  if (spanLen =? length message)%nat then false
  else if (spanLen <? length message - 1)%nat then true
  else negb (char_is message (length message - 1) chr_newline).

(** A UTF-8 continuation byte: [(unit & 0xC0) == 0x80]. *)
Definition is_continuation (c : Z) : bool := Z.land c 192 =? 128.

Fixpoint take_continuations (s : bytes) : bytes :=
  match s with
  | c :: s' => if is_continuation c then c :: take_continuations s' else []
  | [] => []
  end.

Definition truncateUtf8 (message : bytes) (abbrevLen : nat) : bytes :=
  take abbrevLen message ++ take_continuations (drop abbrevLen message).

Definition getAbbreviatedMessage (message : bytes) : bytes :=
  match message with
  | [] => []
  | _ =>
      let spanLen := getDelimiterPosition
        (take (Nat.min (length message) maxNonAbbreviatedMsgLen) message) chr_newline in
      if shouldEllipse message spanLen then truncateUtf8 message spanLen ++ str "..."
      else take spanLen message
  end.

(** ** Versions *)

(** [std::stoi]: throws when there is no number or it does not fit. *)
Definition stoi (s : bytes) : result Z :=
  let c := strtol s in
  if negb (cv_any c) then Throw runtime_error
  else if cv_erange c || negb (bool_decide (is_i32 (cv_value c))) then Throw runtime_error
  else Ok (cv_value c).

Definition ParseVersion (version : bytes) : result (Z * Z * bytes) :=
  let firstTokens := tokenize version 46 in
  if (0 <? sv_size firstTokens)%nat then
    match stoi (sv_get firstTokens 0) with
    | Throw e => Throw e
    | Ok major =>
        let secondTokens := if (1 <? sv_size firstTokens)%nat
          then tokenize (sv_get firstTokens 1) chr_minus else {| sv_string := []; sv_tokens := [] |} in
        let patch := if (1 <? sv_size secondTokens)%nat then sv_get secondTokens 1 else [] in
        if (0 <? sv_size secondTokens)%nat then
          match stoi (sv_get secondTokens 0) with
          | Throw e => Throw e
          | Ok minor => Ok (major, minor, patch)
          end
        else Ok (major, -1, patch)
    end
  else Ok (-1, -1, []).
