(* ===== verification/StreamSearch.v ===== *)
(** * Searching texts and streams

    The laws of [find_sub] ([std::string::find], [Protocol]), and the search of a stream
    through a buffer, [processToMatch] of [common/Util.cpp], of which [seekToMatch] and
    [copyToMatch] are the two uses. The stream is what is left of it and whether it is
    good. *)

From S2P Require Import Prelude Protocol.

Open Scope cool_scope.

(** ** Streams *)

Record istream := { is_rest : bytes; is_good : bool }.

(** [in.read(buffer, n)]: what it reads; a short read sets the end and failure bits. *)
Definition is_read (n : nat) (i : istream) : bytes * istream :=
  if is_good i
  then (take n (is_rest i), {| is_rest := drop n (is_rest i); is_good := (n <=? length (is_rest i))%nat |})
  else ([], i).

Section search.
Context (bufferSize : nat).   (* [READ_BUFFER_SIZE] *)

(** The loop, with what is carried over from the last window and what was copied.
    After a match the stream is put back to its start. Each round reads something. *)
Fixpoint match_loop (fuel : nat) (search carry : bytes) (i : istream) (out : bytes) : bool * bytes * istream :=
  let overlap := (length search - 1)%nat in
  match fuel with
  | O => (false, out ++ carry, i)
  | S fuel' =>
      if negb (is_good i) then (false, out ++ carry, i)
      else
        let '(chunk, i) := is_read bufferSize i in
        if (length chunk =? 0)%nat then (false, out ++ carry, i)
        else
          let view := carry ++ chunk in
          match find_sub search view with
          | Some m => (true, out ++ take m view, {| is_rest := drop m view ++ is_rest i; is_good := true |})
          | None =>
              let carrySize := Nat.min overlap (length view) in
              match_loop fuel' search (drop (length view - carrySize) view) i (out ++ take (length view - overlap) view)
          end
  end.
Definition processToMatch (search : bytes) (i : istream) : bool * bytes * istream :=
  match_loop (S (length (is_rest i))) search [] i [].

(** [copyToMatch] writes what was passed over; [seekToMatch] does not. *)
Definition copyToMatch (search : bytes) (i : istream) : bool * bytes * istream := processToMatch search i.
Definition seekToMatch (search : bytes) (i : istream) : bool * istream :=
  let '(found, _, i) := processToMatch search i in (found, i).
End search.

Definition READ_BUFFER_SIZE : Z := 64 * 1024.

(** ** Finding a text in a text *)

Lemma starts_with_false p s : (forall r, s <> p ++ r) -> starts_with p s = false.
Proof. intros H. apply not_true_is_false. rewrite starts_with_spec. intros [r Hr]. by apply (H r). Qed.

Lemma find_sub_cons p d s : starts_with p (d :: s) = false -> find_sub p (d :: s) = S <$> find_sub p s.
Proof. intros E. cbn [find_sub]. by rewrite E. Qed.

Lemma find_sub_here p s r : s = p ++ r -> find_sub p s = Some 0%nat.
Proof. intros ->. pose proof (starts_with_app p r) as E. destruct (p ++ r); simpl; by rewrite E. Qed.

Lemma find_sub_absent_char p s c : c ∈ p -> c ∉ s -> find_sub p s = None.
Proof.
  intros Hp. induction s as [|d s IH]; intros Hs.
  - cbn [find_sub]. rewrite starts_with_false; [done|]. intros r E. destruct p; [by apply not_elem_of_nil in Hp|done].
  - rewrite find_sub_cons; [rewrite IH; [done|set_solver]|]. apply starts_with_false. intros r E. rewrite E in Hs. set_solver.
Qed.

(** A pattern whose first character does not come again is found where it was put, if
    it is not there before. *)
Lemma no_straddle c p x y r :
  c ∉ p -> find_sub (c :: p) x = None -> x <> [] -> head y = Some c -> x ++ y <> (c :: p) ++ r.
Proof.
  intros Hc Hx Hn Hy E. destruct (app_eq_inv _ _ _ _ E) as [(k & -> & _)|(k & Hk & ->)].
  - by rewrite (find_sub_here (c :: p) ((c :: p) ++ k) k) in Hx.
  - destruct k as [|d k].
    + rewrite app_nil_r in Hk. subst x. by rewrite (find_sub_here (c :: p) (c :: p) []) in Hx by by rewrite app_nil_r.
    + injection Hy as ->. destruct x as [|e x]; [done|]. injection Hk as -> ->. set_solver.
Qed.

Lemma find_sub_tail p d s : find_sub p (d :: s) = None -> find_sub p s = None.
Proof. cbn [find_sub]. destruct (starts_with p (d :: s)); [done|]. by destruct (find_sub p s). Qed.

Lemma find_sub_app c p x y :
  c ∉ p -> find_sub (c :: p) x = None -> find_sub (c :: p) (x ++ (c :: p) ++ y) = Some (length x).
Proof.
  intros Hc. induction x as [|d x IH]; intros Hx; [by apply (find_sub_here _ _ y)|].
  change ((d :: x) ++ (c :: p) ++ y) with (d :: (x ++ (c :: p) ++ y)).
  rewrite find_sub_cons, IH; [done|by apply find_sub_tail in Hx|].
  apply starts_with_false. intros r. by apply (no_straddle c p (d :: x)).
Qed.

Lemma find_sub_none_app c p x y :
  c ∉ p -> find_sub (c :: p) x = None -> head y = Some c -> find_sub (c :: p) y = None -> find_sub (c :: p) (x ++ y) = None.
Proof.
  intros Hc Hx Hy Hn. induction x as [|d x IH]; [done|]. change ((d :: x) ++ y) with (d :: (x ++ y)).
  rewrite find_sub_cons, IH; [done|by apply find_sub_tail in Hx|].
  apply starts_with_false. intros r. by apply (no_straddle c p (d :: x)).
Qed.

Lemma find_sub_first p s n m : find_sub p s = Some n -> (m < n)%nat -> starts_with p (drop m s) = false.
Proof.
  revert n m. induction s as [|d s IH]; intros n m; cbn [find_sub].
  - destruct (starts_with p []); [|done]. intros [= <-]. lia.
  - destruct (starts_with p (d :: s)) eqn:E; [intros [= <-]; lia|]. destruct (find_sub p s) as [k|]; [|done].
    intros [= <-] Hm. destruct m as [|m]; [done|]. apply (IH k); [done|lia].
Qed.
Lemma find_sub_intro p s n :
  starts_with p (drop n s) = true -> (forall m, (m < n)%nat -> starts_with p (drop m s) = false) -> find_sub p s = Some n.
Proof.
  revert n. induction s as [|d s IH]; intros n Hn Hm.
  - rewrite drop_nil in Hn. destruct n as [|n]; [cbn [find_sub]; by rewrite Hn|].
    specialize (Hm 0%nat ltac:(lia)). by rewrite drop_nil, Hn in Hm.
  - destruct n as [|n]; [cbn [find_sub]; rewrite drop_0 in Hn; by rewrite Hn|].
    rewrite find_sub_cons by (apply (Hm 0%nat); lia). rewrite (IH n); [done|done|].
    intros m Hlt. apply (Hm (S m)). lia.
Qed.

(** The second half of a pattern tells where the whole is. *)
Lemma find_sub_half p q s n :
  starts_with (p ++ q) (drop n s) = true -> find_sub q s = Some (n + length p)%nat -> find_sub (p ++ q) s = Some n.
Proof.
  intros Hn Hq. apply find_sub_intro; [done|]. intros m Hm. apply starts_with_false. intros r Hr.
  pose proof (find_sub_first q s _ (m + length p) Hq ltac:(lia)) as Hf.
  rewrite <- drop_drop, Hr, <- app_assoc, drop_app_length, starts_with_app in Hf. discriminate.
Qed.

Lemma find_sub_absent p s : (forall m, starts_with p (drop m s) = false) -> find_sub p s = None.
Proof.
  induction s as [|d s IH]; intros H.
  - cbn [find_sub]. specialize (H 0%nat). rewrite drop_0 in H. by rewrite H.
  - rewrite find_sub_cons by (apply (H 0%nat)). rewrite IH; [done|]. intros m. apply (H (S m)).
Qed.

Lemma starts_with_length p s : starts_with p s = true -> (length p <= length s)%nat.
Proof. intros [r ->]%starts_with_spec. rewrite length_app. lia. Qed.

Lemma starts_with_short p s r : (length p <= length s)%nat -> starts_with p (s ++ r) = starts_with p s.
Proof. intros H. unfold starts_with. by rewrite take_app_le. Qed.

Lemma find_sub_some p s n : find_sub p s = Some n -> starts_with p (drop n s) = true.
Proof.
  revert n. induction s as [|d s IH]; intros n; cbn [find_sub].
  - destruct (starts_with p []) eqn:E; [|done]. by intros [= <-].
  - destruct (starts_with p (d :: s)) eqn:E; [by intros [= <-]|]. destruct (find_sub p s) as [k|]; [|done].
    intros [= <-]. by apply IH.
Qed.

Lemma find_sub_never p s m : find_sub p s = None -> starts_with p (drop m s) = false.
Proof.
  revert m. induction s as [|d s IH]; intros m; cbn [find_sub].
  - rewrite drop_nil. by destruct (starts_with p []).
  - destruct (starts_with p (d :: s)) eqn:E; [done|]. destruct (find_sub p s) as [k|]; [done|]. intros _.
    destruct m as [|m]; [done|]. by apply IH.
Qed.

(** ** The search of a stream *)

Section search.
Context (bufferSize : nat) (Hsize : (0 < bufferSize)%nat).

Lemma drop_window (out view rest : bytes) q :
  (q <= length view)%nat -> drop (length out + q) (out ++ view ++ rest) = drop q view ++ rest.
Proof. intros Hq. by rewrite <- drop_drop, drop_app_length, drop_app_le. Qed.
Lemma in_window search out view rest q :
  (q + length search <= length view)%nat ->
  starts_with search (drop (length out + q) (out ++ view ++ rest)) = starts_with search (drop q view).
Proof. intros Hq. rewrite drop_window by lia. apply starts_with_short. rewrite length_drop. lia. Qed.

(** A match of a window is the first of the whole. *)
Lemma window_match search out view rest m :
  (forall p, (p < length out)%nat -> starts_with search (drop p (out ++ view ++ rest)) = false) ->
  find_sub search view = Some m -> find_sub search (out ++ view ++ rest) = Some (length out + m)%nat.
Proof.
  intros Hpre Em. pose proof (find_sub_some _ _ _ Em) as Hm. pose proof (starts_with_length _ _ Hm) as Hl.
  rewrite length_drop in Hl. destruct (Nat.le_gt_cases m (length view)) as [Hle|Hgt].
  - apply find_sub_intro.
    + destruct (Nat.le_gt_cases (m + length search) (length view)); [by rewrite in_window|].
      destruct search; simpl in *; [by destruct (drop _ _)|lia].
    + intros p Hp. destruct (Nat.lt_ge_cases p (length out)) as [Hpo|Hpo]; [by apply Hpre|].
      replace p with (length out + (p - length out))%nat by lia.
      destruct search as [|c search]; [by rewrite (find_sub_here [] view view) in Em by done; injection Em as <-; lia|].
      rewrite in_window by (simpl in *; lia). apply (find_sub_first _ _ m); [done|lia].
  - destruct search as [|c search]; [|simpl in Hl; lia].
    rewrite (find_sub_here [] view view) in Em by done. injection Em as <-. lia.
Qed.

(** Without a match, only the end of the window may begin one. *)
Lemma window_no_match search out view rest p :
  (forall p, (p < length out)%nat -> starts_with search (drop p (out ++ view ++ rest)) = false) ->
  find_sub search view = None -> (p + length search <= length out + length view)%nat ->
  starts_with search (drop p (out ++ view ++ rest)) = false.
Proof.
  intros Hpre En Hp. destruct (Nat.lt_ge_cases p (length out)) as [Hpo|Hpo]; [by apply Hpre|].
  replace p with (length out + (p - length out))%nat by lia. rewrite in_window by lia. by apply find_sub_never.
Qed.

(** Nothing that was written belongs to a match of the whole text. *)
Lemma match_loop_spec search carry rest out fuel :
  search <> [] -> (length carry < length search)%nat -> (length rest < fuel)%nat ->
  (forall m, (m < length out)%nat -> starts_with search (drop m (out ++ carry ++ rest)) = false) ->
  match_loop bufferSize fuel search carry {| is_rest := rest; is_good := true |} out
  = match find_sub search (out ++ carry ++ rest) with
    | Some m => (true, take m (out ++ carry ++ rest), {| is_rest := drop m (out ++ carry ++ rest); is_good := true |})
    | None => (false, out ++ carry ++ rest, {| is_rest := []; is_good := false |})
    end.
Proof.
  intros Hs. revert carry rest out. induction fuel as [|fuel IH]; intros carry rest out Hc Hf Hpre; [lia|].
  set (whole := out ++ carry ++ rest) in *.
  cbn [match_loop is_good negb]. unfold is_read. cbn [is_good is_rest].
  destruct (Nat.eqb_spec (length (take bufferSize rest)) 0) as [H0|H0].
  - apply length_zero_iff_nil in H0. destruct rest as [|d rest]; [|by destruct bufferSize; [lia|]].
    unfold whole in *. rewrite app_nil_r in *. rewrite find_sub_absent.
    + rewrite drop_nil. cbn [length]. by destruct bufferSize; [lia|].
    + intros m. destruct (Nat.lt_ge_cases m (length out)) as [Hm|Hm]; [by apply Hpre|].
      apply not_true_is_false. intros Hp%starts_with_length. rewrite length_drop, length_app in Hp. lia.
  - set (view := carry ++ take bufferSize rest). set (rest' := drop bufferSize rest).
    assert (Hw : whole = out ++ view ++ rest') by (unfold whole, view, rest'; by rewrite <- (assoc_L (++)), take_drop).
    rewrite Hw in *. destruct (find_sub search view) as [m|] eqn:Em.
    + pose proof (find_sub_some _ _ _ Em) as Hl%starts_with_length. rewrite length_drop in Hl.
      assert (Hm : (m <= length view)%nat) by (destruct search; [done|simpl in Hl; lia]).
      rewrite (window_match search out view rest' m) by done.
      rewrite drop_window, take_app_add, take_app_le by done. done.
    + assert (Hlen : (0 < length search)%nat) by (destruct search; simpl; [done|lia]).
      set (w := (length view - (length search - 1))%nat).
      assert (Ec : (length view - Nat.min (length search - 1) (length view))%nat = w) by lia. rewrite Ec.
      assert (Hsplit : out ++ view ++ rest' = (out ++ take w view) ++ drop w view ++ rest')
        by (rewrite <- !(assoc_L (++)), (assoc_L (++) (take w view)), take_drop; done).
      destruct (Nat.leb_spec bufferSize (length rest)) as [Hfull|Hshort].
      * rewrite IH; [by rewrite <- Hsplit|rewrite length_drop; lia|unfold rest'; rewrite length_drop; lia|].
        intros p Hp. rewrite <- Hsplit. rewrite length_app, length_take in Hp.
        destruct (Nat.lt_ge_cases p (length out)); [by apply Hpre|]. apply window_no_match; [done|done|lia].
      * assert (Hr : rest' = []) by (apply drop_ge; lia). rewrite Hr in *. rewrite app_nil_r in *.
        assert (Hnone : find_sub search (out ++ view) = None).
        { apply find_sub_absent. intros p. destruct (Nat.le_gt_cases (p + length search) (length out + length view)) as [H1|H1].
          - pose proof (window_no_match search out view [] p) as Hn. rewrite app_nil_r in Hn. by apply Hn.
          - apply not_true_is_false. intros Hp%starts_with_length. rewrite length_drop, length_app in Hp. lia. }
        rewrite Hnone. destruct fuel; cbn [match_loop is_good negb]; by rewrite <- (assoc_L (++)), take_drop.
Qed.

(** C36 (equivalence): a stream is searched through its buffer as if it were read whole. Whatever the
    size of the buffer, [processToMatch] finds the first match in what is left of the stream,
    even across two windows, passes over exactly what is before it, and leaves the stream at
    its start; without a match it passes over everything. *)
Theorem processToMatch_finds_first search rest :
  search <> [] ->
  processToMatch bufferSize search {| is_rest := rest; is_good := true |}
  = match find_sub search rest with
    | Some m => (true, take m rest, {| is_rest := drop m rest; is_good := true |})
    | None => (false, rest, {| is_rest := []; is_good := false |})
    end.
Proof.
  intros Hs. unfold processToMatch. rewrite match_loop_spec; [done|done| |simpl; lia|simpl; lia].
  destruct search; simpl; [done|lia].
Qed.
End search.

Lemma processToMatch_finds_first_witness :
  processToMatch 4 (str "</b>") {| is_rest := str "<b>bold</b>rest"; is_good := true |}
  = (true, str "<b>bold", {| is_rest := str "</b>rest"; is_good := true |}).
Proof. apply (processToMatch_finds_first 4 ltac:(lia) (str "</b>") (str "<b>bold</b>rest")). discriminate. Defined.
