(* ===== verification/Rectangle.v ===== *)
(** * [Util::Rectangle]: axis-aligned boxes

    Models [common/Rectangle.hpp]. A rectangle is its left, top, right and
    bottom [int]s; the arithmetic of the constructor and of the extents is
    written out at [int] width. *)

From S2P Require Import Prelude.

Record Rectangle := { _x1 : Z; _y1 : Z; _x2 : Z; _y2 : Z }.

#[global] Instance Rectangle_eq_dec : EqDecision Rectangle.
Proof. solve_decision. Defined.

(** The default constructor: the inverse extremes, neutral for [extend]. *)
Definition rect_empty : Rectangle :=
  {| _x1 := INT_MAX; _y1 := INT_MAX; _x2 := INT_MIN; _y2 := INT_MIN |}.

(** [Rectangle(x, y, width, height)]: an extent that overflows is dropped. *)
Definition rect_make (x y width height : Z) : Rectangle :=
  {| _x1 := x; _y1 := y;
     _x2 := if x + width <=? INT_MAX then i32 (x + width) else x;
     _y2 := if y + height <=? INT_MAX then i32 (y + height) else y |}.

Definition rect_create (x1 y1 x2 y2 : Z) : Rectangle :=
  {| _x1 := x1; _y1 := y1; _x2 := x2; _y2 := y2 |}.

Definition extend (r o : Rectangle) : Rectangle :=
  {| _x1 := if _x1 o <? _x1 r then _x1 o else _x1 r;
     _x2 := if _x2 r <? _x2 o then _x2 o else _x2 r;
     _y1 := if _y1 o <? _y1 r then _y1 o else _y1 r;
     _y2 := if _y2 r <? _y2 o then _y2 o else _y2 r |}.

Definition getLeft (r : Rectangle) : Z := _x1 r.
Definition getTop (r : Rectangle) : Z := _y1 r.
Definition getRight (r : Rectangle) : Z := _x2 r.
Definition getBottom (r : Rectangle) : Z := _y2 r.

Definition rect_getWidth (r : Rectangle) : Z :=
  if INT_MIN <? _x2 r - _x1 r then i32 (_x2 r - _x1 r) else INT_MIN.
Definition rect_getHeight (r : Rectangle) : Z :=
  if INT_MIN <? _y2 r - _y1 r then i32 (_y2 r - _y1 r) else INT_MIN.

Definition rect_isValid (r : Rectangle) : bool := (_x1 r <=? _x2 r) && (_y1 r <=? _y2 r).
Definition rect_hasSurface (r : Rectangle) : bool := (_x1 r <? _x2 r) && (_y1 r <? _y2 r).

Definition rect_intersects (r o : Rectangle) : bool :=
  let x1 := Z.max (_x1 r) (_x1 o) in
  let y1 := Z.max (_y1 r) (_y1 o) in
  let x2 := Z.min (_x2 r) (_x2 o) in
  let y2 := Z.min (_y2 r) (_y2 o) in
  (x1 <=? x2) && (y1 <=? y2).

Definition rect_contains (r o : Rectangle) : bool :=
  (_x2 o <=? _x2 r) && (_y2 o <=? _y2 r) && (_y1 r <=? _y1 o) && (_x1 r <=? _x1 o).

(** ** Meaning: the set of points of a box *)

Definition in_rect (r : Rectangle) (x y : Z) : Prop :=
  _x1 r <= x <= _x2 r /\ _y1 r <= y <= _y2 r.

Lemma intersects_points r o :
  rect_intersects r o = true <-> exists x y, in_rect r x y /\ in_rect o x y.
Proof.
  unfold rect_intersects, in_rect. rewrite andb_true_iff, !Z.leb_le. split.
  - intros [H1 H2]. exists (Z.max (_x1 r) (_x1 o)), (Z.max (_y1 r) (_y1 o)). lia.
  - intros (x & y & H). lia.
Qed.

Lemma intersects_comm r o : rect_intersects r o = rect_intersects o r.
Proof.
  unfold rect_intersects. by rewrite (Z.max_comm (_x1 r)), (Z.max_comm (_y1 r)),
    (Z.min_comm (_x2 r)), (Z.min_comm (_y2 r)).
Qed.

Lemma contains_points r o x y : rect_contains r o = true -> in_rect o x y -> in_rect r x y.
Proof. unfold rect_contains, in_rect. rewrite !andb_true_iff, !Z.leb_le. lia. Qed.

Lemma contains_refl r : rect_contains r r = true.
Proof. unfold rect_contains. rewrite !andb_true_iff, !Z.leb_le. lia. Qed.
Lemma contains_trans a b c :
  rect_contains a b = true -> rect_contains b c = true -> rect_contains a c = true.
Proof. unfold rect_contains. rewrite !andb_true_iff, !Z.leb_le. lia. Qed.

(** [extend] is the least box that contains both. *)
Lemma extend_contains r o :
  rect_contains (extend r o) r = true /\ rect_contains (extend r o) o = true.
Proof. unfold rect_contains, extend. simpl. rewrite !andb_true_iff, !Z.leb_le. zcases; lia. Qed.
Lemma extend_least r o b :
  rect_contains b r = true -> rect_contains b o = true -> rect_contains b (extend r o) = true.
Proof. unfold rect_contains, extend. simpl. rewrite !andb_true_iff, !Z.leb_le. zcases; lia. Qed.

(** The bounding box of a list of boxes, built as [TileCombined] builds it. *)
Definition bounding (l : list Rectangle) : Rectangle := fold_left extend l rect_empty.

Lemma fold_extend_contains l a :
  rect_contains (fold_left extend l a) a = true /\
  Forall (fun r => rect_contains (fold_left extend l a) r = true) l.
Proof.
  revert a. induction l as [|r l IH]; intros a; simpl; [split; [apply contains_refl|constructor]|].
  destruct (IH (extend a r)) as [H1 H2]. destruct (extend_contains a r) as [Ha Hr].
  split; [by eapply contains_trans|]. constructor; [by eapply contains_trans|done].
Qed.
