(* ===== verification/TileDesc.v ===== *)
(** * [TileDesc]: tile descriptors and their wire format

    Models the class [TileDesc] of [wsd/TileDesc.hpp]: the validated
    descriptor, its equality and strict order, the geometry, the hash used to
    deduplicate queued tiles, and the text serialization with its parser. *)

From S2P Require Import Prelude Algo Util StringVector Protocol Rectangle.

Open Scope cool_scope.

(** ** Sorted argument tables ([namespace TileParse]) *)

(** [operator<] of [std::string_view] and of [std::tie] tuples. *)
Fixpoint lex_lt (a b : list Z) : bool :=
  match a, b with
  | _, [] => false
  | [], _ :: _ => true
  | x :: a', y :: b' => (x <? y) || ((x =? y) && lex_lt a' b')
  end.

(** [setArg]: [equal_range] on the sorted table, then assign. *)
Definition setArg (args : list (bytes * Z)) (arg : bytes) (value : Z) : list (bytes * Z) * bool :=
  let first := lower_bound (fun av => lex_lt av.1 arg) args in
  match args !! first with
  | Some (k, _) => if lex_lt arg k then (args, false) else (<[first := (k, value)]> args, true)
  | None => (args, false)
  end.

(** ** The descriptor *)

Record TileDesc := {
  _canonicalViewId : Z;
  _part : Z;
  _mode : Z;
  _width : Z;
  _height : Z;
  _tilePosX : Z;
  _tilePosY : Z;
  _tileWidth : Z;
  _tileHeight : Z;
  _ver : Z;
  _imgSize : Z;
  _id : Z;
  _oldWireId : Z;
  _wireId : Z }.

#[global] Instance TileDesc_eq_dec : EqDecision TileDesc.
Proof. solve_decision. Defined.

Definition CanonicalViewId_Invalid : Z := -1.
Definition CanonicalViewId_None : Z := 0.

(** The constructor's validation. *)
Definition tile_args_invalid (canonicalViewId part mode width height tilePosX tilePosY
    tileWidth tileHeight imgSize : Z) : bool :=
  (canonicalViewId <=? CanonicalViewId_Invalid) || (part <? 0) || (mode <? 0) || (width <=? 0)
  || (height <=? 0) || (tilePosX <? 0) || (tilePosY <? 0) || (tileWidth <=? 0)
  || (tileHeight <=? 0) || (imgSize <? 0).

Definition TileDesc_new (canonicalViewId part mode width height tilePosX tilePosY
    tileWidth tileHeight ver imgSize id : Z) : result TileDesc :=
  throw_if tile_args_invalid canonicalViewId part mode width height tilePosX tilePosY
             tileWidth tileHeight imgSize as BadArgumentException;
  Ok {| _canonicalViewId := canonicalViewId; _part := part; _mode := mode; _width := width;
        _height := height; _tilePosX := tilePosX; _tilePosY := tilePosY; _tileWidth := tileWidth;
        _tileHeight := tileHeight; _ver := ver; _imgSize := imgSize; _id := id;
        _oldWireId := 0; _wireId := 0 |}.

Definition set_wids (t : TileDesc) (viewId ver imgSize id oldWid wid : Z) : TileDesc :=
  {| _canonicalViewId := viewId; _part := _part t; _mode := _mode t; _width := _width t;
     _height := _height t; _tilePosX := _tilePosX t; _tilePosY := _tilePosY t;
     _tileWidth := _tileWidth t; _tileHeight := _tileHeight t; _ver := ver;
     _imgSize := imgSize; _id := id; _oldWireId := oldWid; _wireId := wid |}.

Definition setCanonicalViewId (t : TileDesc) (v : Z) : TileDesc :=
  set_wids t v (_ver t) (_imgSize t) (_id t) (_oldWireId t) (_wireId t).
Definition setVersion (t : TileDesc) (v : Z) : TileDesc :=
  set_wids t (_canonicalViewId t) v (_imgSize t) (_id t) (_oldWireId t) (_wireId t).
Definition setImgSize (t : TileDesc) (v : Z) : TileDesc :=
  set_wids t (_canonicalViewId t) (_ver t) v (_id t) (_oldWireId t) (_wireId t).
(** [setId(TileWireId)]: an [uint32_t] stored in an [int]. *)
Definition setId (t : TileDesc) (v : Z) : TileDesc :=
  set_wids t (_canonicalViewId t) (_ver t) (_imgSize t) (i32 v) (_oldWireId t) (_wireId t).
Definition setOldWireId (t : TileDesc) (v : Z) : TileDesc :=
  set_wids t (_canonicalViewId t) (_ver t) (_imgSize t) (_id t) v (_wireId t).
Definition setWireId (t : TileDesc) (v : Z) : TileDesc :=
  set_wids t (_canonicalViewId t) (_ver t) (_imgSize t) (_id t) (_oldWireId t) v.
Definition forceKeyframe (t : TileDesc) : TileDesc := setOldWireId t 0.
Definition isForcedKeyFrame (t : TileDesc) : bool := _oldWireId t =? 0.
Definition isPreview (t : TileDesc) : bool := 0 <=? _id t.

(** ** Equality, order and hash *)

Definition tile_eq (a o : TileDesc) : bool :=
  (_part a =? _part o) && (_width a =? _width o) && (_height a =? _height o)
  && (_tilePosX a =? _tilePosX o) && (_tilePosY a =? _tilePosY o)
  && (_tileWidth a =? _tileWidth o) && (_tileHeight a =? _tileHeight o)
  && (_id a =? _id o) && (_canonicalViewId a =? _canonicalViewId o) && (_mode a =? _mode o).

(** The tuple [std::tie] compares, with the position given apart. *)
Definition order_key (t : TileDesc) (tilePosX tilePosY : Z) : list Z :=
  [_canonicalViewId t; _id t; _mode t; _part t; _height t; _width t;
   _tileHeight t; _tileWidth t; tilePosY; tilePosX].

Definition compareAsAtTilePos (t other : TileDesc) (tilePosX tilePosY : Z) : bool :=
  lex_lt (order_key t (_tilePosX t) (_tilePosY t)) (order_key other tilePosX tilePosY).

Definition tile_lt (t other : TileDesc) : bool :=
  compareAsAtTilePos t other (_tilePosX other) (_tilePosY other).

Definition equalityHash (t : TileDesc) : Z :=
  let a := u32 (Z.shiftl (_canonicalViewId t) 17) in
  let b := u32 (Z.shiftl (_tilePosX t) 7) in
  let a := Z.lxor a (u32 (_part t)) in
  let b := Z.lxor b (u32 (_tilePosY t)) in
  let a := Z.lxor a (u32 (Z.shiftl (_mode t) 30)) in
  let b := Z.lxor b (u32 (Z.shiftl (_tileWidth t) 20)) in
  let a := Z.lxor a (u32 (Z.shiftl (_width t) 19)) in
  Z.lxor a b.

(** ** Geometry *)

Definition toAABBox (t : TileDesc) : Rectangle :=
  let x2 := if _tilePosX t + _tileWidth t <=? INT_MAX then _tilePosX t + _tileWidth t else _tilePosX t in
  let y2 := if _tilePosY t + _tileHeight t <=? INT_MAX then _tilePosY t + _tileHeight t else _tilePosY t in
  rect_create (_tilePosX t) (_tilePosY t) x2 y2.

(** The sums are [int] additions. *)
Definition rectanglesIntersect (ax ay aw ah bx by_ bw bh : Z) : bool :=
  rect_intersects (rect_create ax ay (i32 (ax + aw)) (i32 (ay + ah)))
                  (rect_create bx by_ (i32 (bx + bw)) (i32 (by_ + bh))).

Definition intersectsWithRect (t : TileDesc) (x y w h : Z) : bool :=
  rect_intersects (toAABBox t) (rect_create x y (i32 (x + w)) (i32 (y + h))).
Definition tile_intersects (t other : TileDesc) : bool := rect_intersects (toAABBox t) (toAABBox other).
Definition isContained (t : TileDesc) (otherAABBox : Rectangle) : bool :=
  rect_contains otherAABBox (toAABBox t).

Definition same_size_params (t other : TileDesc) : bool :=
  (_part other =? _part t) && (_mode other =? _mode t) && (_width other =? _width t)
  && (_height other =? _height t) && (_tileWidth other =? _tileWidth t)
  && (_tileHeight other =? _tileHeight t).

Definition isAdjacent (t other : TileDesc) : bool :=
  if negb (same_size_params t other) then false else tile_intersects t other.

Definition sameTileCombineParams (t other : TileDesc) : bool :=
  same_size_params t other && (_canonicalViewId other =? _canonicalViewId t).

(** ** Serialization *)

Definition serialize (t : TileDesc) (prefix suffix : bytes) : bytes :=
  prefix
  ++ str " nviewid=" ++ to_string (_canonicalViewId t)
  ++ str " part=" ++ to_string (_part t)
  ++ str " width=" ++ to_string (_width t)
  ++ str " height=" ++ to_string (_height t)
  ++ str " tileposx=" ++ to_string (_tilePosX t)
  ++ str " tileposy=" ++ to_string (_tilePosY t)
  ++ str " tilewidth=" ++ to_string (_tileWidth t)
  ++ str " tileheight=" ++ to_string (_tileHeight t)
  ++ (if negb (_oldWireId t =? 0) then str " oldwid=" ++ to_string (_oldWireId t) else [])
  ++ (if negb (_wireId t =? 0) then str " wid=" ++ to_string (_wireId t) else [])
  ++ str " ver=" ++ to_string (_ver t)
  ++ (if 0 <=? _id t then str " id=" ++ to_string (_id t) else [])
  ++ (if 0 <? _imgSize t then str " imgsize=" ++ to_string (_imgSize t) else [])
  ++ (if negb (_mode t =? 0) then str " mode=" ++ to_string (_mode t) else [])
  ++ suffix.

Definition debugName (t : TileDesc) : bytes :=
  str "(" ++ to_string (_canonicalViewId t) ++ str "," ++ to_string (_part t) ++ str ","
  ++ to_string (_mode t) ++ str "," ++ to_string (_tilePosX t) ++ str "," ++ to_string (_tilePosY t) ++ str ")".

Definition generateID (t : TileDesc) : bytes :=
  to_string (_part t) ++ str ":" ++ to_string (_mode t) ++ str ":" ++ to_string (_tilePosX t)
  ++ str ":" ++ to_string (_tilePosY t) ++ str ":" ++ to_string (_tileWidth t) ++ str ":"
  ++ to_string (_tileHeight t) ++ str ":" ++ to_string (_canonicalViewId t).

(** ** Parsing *)

(** [TileDescParseResults]: the argument table, in the order of [argenum]. *)
Definition tile_args (height id imgsize mode nviewid part tileheight tileposx tileposy tilewidth
    ver width : Z) : list (bytes * Z) :=
  [(str "height", height); (str "id", id); (str "imgsize", imgsize); (str "mode", mode);
   (str "nviewid", nviewid); (str "part", part); (str "tileheight", tileheight);
   (str "tileposx", tileposx); (str "tileposy", tileposy); (str "tilewidth", tilewidth);
   (str "ver", ver); (str "width", width)].

Definition tile_args_init : list (bytes * Z) := tile_args 0 (-1) 0 0 0 0 0 0 0 0 (-1) 0.

Definition arg_at (args : list (bytes * Z)) (i : nat) : Z :=
  match args !! i with Some (_, v) => v | None => 0 end.

(** The variables of the parse loop: [oldWireId], [wireId], [pairs]. *)
Definition parse_state : Type := Z * Z * list (bytes * Z).

Definition parse_token (tokens : StringVector) (st : parse_state) (i : nat) : parse_state :=
  let '(oldWireId, wireId, pairs) := st in
  let '(v1, r1) := getUInt32 tokens i (str "oldwid") in
  let oldWireId := default oldWireId v1 in
  if r1 then (oldWireId, wireId, pairs) else
  let '(v2, r2) := getUInt32 tokens i (str "wid") in
  let wireId := default wireId v2 in
  if r2 then (oldWireId, wireId, pairs) else
  match getNameIntegerPair tokens i with
  | (Some (name, value), true) => (oldWireId, wireId, (setArg pairs name value).1)
  | _ => (oldWireId, wireId, pairs)
  end.

Definition tile_of_args (pairs : list (bytes * Z)) : result TileDesc :=
  TileDesc_new (arg_at pairs 4) (arg_at pairs 5) (arg_at pairs 3) (arg_at pairs 11) (arg_at pairs 0)
    (arg_at pairs 7) (arg_at pairs 8) (arg_at pairs 9) (arg_at pairs 6) (arg_at pairs 10)
    (arg_at pairs 2) (arg_at pairs 1).

Definition parse_tokens (tokens : StringVector) : result TileDesc :=
  let '(oldWireId, wireId, pairs) :=
    fold_left (parse_token tokens) (seq 0 (sv_size tokens)) (0, 0, tile_args_init) in
  try t <- tile_of_args pairs;
  Ok (setWireId (setOldWireId t oldWireId) wireId).

Definition parse (message : bytes) : result TileDesc := parse_tokens (tokenize_data message chr_space).

(** ** The order is a strict total order up to [operator==] *)

Lemma lex_lt_irrefl a : lex_lt a a = false.
Proof. induction a as [|x a IH]; simpl; [done|]. by rewrite Z.ltb_irrefl, Z.eqb_refl, IH. Qed.

Lemma lex_lt_trans a b c : lex_lt a b = true -> lex_lt b c = true -> lex_lt a c = true.
Proof.
  revert b c. induction a as [|x a IH]; intros [|y b] [|z c]; simpl; try done.
  rewrite !orb_true_iff, !andb_true_iff, !Z.ltb_lt, !Z.eqb_eq. intros [H1|[-> H1]] [H2|[-> H2]].
  - left. lia.
  - auto.
  - auto.
  - right. split; [done|]. eauto.
Qed.

Lemma lex_lt_total a b : length a = length b -> lex_lt a b = false -> lex_lt b a = false -> a = b.
Proof.
  revert b. induction a as [|x a IH]; intros [|y b]; simpl; try done. intros [= Hl].
  rewrite !orb_false_iff, !andb_false_iff, !Z.ltb_ge, !Z.eqb_neq. intros [H1 H2] [H3 H4].
  assert (x = y) as -> by lia. f_equal. apply IH; naive_solver.
Qed.

Lemma tile_lt_irrefl t : tile_lt t t = false.
Proof. apply lex_lt_irrefl. Qed.
Lemma tile_lt_trans a b c : tile_lt a b = true -> tile_lt b c = true -> tile_lt a c = true.
Proof. apply lex_lt_trans. Qed.

(** [operator==] is equality of the compared tuples. *)
Lemma tile_eq_key a b :
  tile_eq a b = true <->
  order_key a (_tilePosX a) (_tilePosY a) = order_key b (_tilePosX b) (_tilePosY b).
Proof.
  unfold tile_eq, order_key. rewrite !andb_true_iff, !Z.eqb_eq. split.
  - intros H. destruct_and! H. congruence.
  - intros [=]. by split_and!.
Qed.

Lemma tile_eq_refl a : tile_eq a a = true.
Proof. by apply tile_eq_key. Qed.
Lemma tile_eq_sym a b : tile_eq a b = tile_eq b a.
Proof. apply eq_true_iff_eq. rewrite !tile_eq_key. split; congruence. Qed.

Lemma tile_trichotomy a b : tile_lt a b = false -> tile_lt b a = false -> tile_eq a b = true.
Proof. intros H1 H2. apply tile_eq_key. by apply lex_lt_total. Qed.

Lemma tile_eq_lt_l a b c : tile_eq a b = true -> tile_lt a c = tile_lt b c.
Proof. intros H%tile_eq_key. unfold tile_lt, compareAsAtTilePos. by rewrite H. Qed.
Lemma tile_eq_lt_r a b c : tile_eq a b = true -> tile_lt c a = tile_lt c b.
Proof. intros H%tile_eq_key. unfold tile_lt, compareAsAtTilePos. by rewrite H. Qed.
Lemma tile_lt_not_eq a b : tile_lt a b = true -> tile_eq a b = false.
Proof.
  intros H. destruct (tile_eq a b) eqn:E; [|done].
  rewrite (tile_eq_lt_l _ _ _ E), tile_lt_irrefl in H. done.
Qed.

(** Equal tiles have equal hashes, so the hash filter of [SenderQueue] never
    misses a duplicate. *)
Lemma equalityHash_eq a b : tile_eq a b = true -> equalityHash a = equalityHash b.
Proof.
  unfold tile_eq. rewrite !andb_true_iff, !Z.eqb_eq. intros H. unfold equalityHash.
  destruct_and! H. congruence.
Qed.

(** ** Tokens of the form [name=value] *)

Definition kv (name : bytes) (v : Z) : bytes := name ++ chr_eq :: to_string v.

Definition no_eq (s : bytes) : Prop := Forall (fun c => c <> chr_eq) s.

Lemma char_is_eq s i c : char_is s i c = true <-> s !! i = Some c.
Proof. unfold char_is. destruct (s !! i) as [x|]; [|done]. rewrite Z.eqb_eq. naive_solver. Qed.

(** A token whose first ['='] is at [length name'] has no other name. *)
Lemma has_name_kv name' v name :
  no_eq name -> no_eq name' -> has_name (name' ++ chr_eq :: v) name = bool_decide (name = name').
Proof.
  intros Hn Hn'. apply eq_true_iff_eq. unfold has_name.
  rewrite andb_true_iff, beq_eq, char_is_eq, bool_decide_eq_true. split.
  - intros [Ht Hc]. destruct (lt_eq_lt_dec (length name) (length name')) as [[Hl|Hl]|Hl].
    + rewrite lookup_app_l in Hc by done. by apply (Forall_lookup_1 _ _ _ _ Hn') in Hc.
    + by rewrite Hl, take_app_length in Ht.
    + rewrite <- Ht in Hn. rewrite take_app_ge in Hn by lia.
      destruct (length name - length name')%nat as [|k] eqn:E; [lia|]. simpl in Hn.
      unfold no_eq in Hn. rewrite Forall_app, Forall_cons in Hn. naive_solver.
  - intros ->. rewrite take_app_length. split; [done|]. by apply list_lookup_middle.
Qed.

Lemma token_UInt32_kv name' v name :
  no_eq name -> no_eq name' -> 0 <= v < INT_MAX ->
  token_UInt32 (kv name' v) name = if bool_decide (name = name') then (Some v, true) else (None, false).
Proof.
  intros Hn Hn' Hv. unfold token_UInt32. rewrite <- andb_assoc.
  fold (has_name (kv name' v) name). unfold kv at 2. rewrite has_name_kv by done.
  case_bool_decide as Heq; [|by rewrite andb_false_r]. subst name'.
  pose proof (to_string_nonempty v) as Hne. unfold kv. rewrite length_app. simpl.
  destruct (to_string v) as [|c s] eqn:E; [done|]. simpl.
  replace (length name + 1 <? length name + S (S (length s)))%nat with true
    by (symmetry; apply Nat.ltb_lt; lia). simpl.
  rewrite <- E. replace (drop (length name + 1) (name ++ chr_eq :: to_string v)) with (to_string v).
  - rewrite safe_atoi_to_string by lia. rewrite u32_id by (int_unfold; lia). f_equal. int_unfold. zcases; lia.
  - rewrite drop_app_ge by lia. by replace (length name + 1 - length name)%nat with 1%nat by lia.
Qed.

Lemma token_UInt32_other name' v name :
  no_eq name -> no_eq name' -> name <> name' -> token_UInt32 (kv name' v) name = (None, false).
Proof.
  intros Hn Hn' Hd. unfold token_UInt32. rewrite <- andb_assoc.
  fold (has_name (kv name' v) name). unfold kv at 2. rewrite has_name_kv by done.
  rewrite bool_decide_eq_false_2 by done. by rewrite andb_false_r.
Qed.

Lemma token_NameIntegerPair_kv name v :
  no_eq name -> Z.abs v < INT_MAX -> token_NameIntegerPair (kv name v) = (Some (name, v), true).
Proof.
  intros Hn Hv. unfold token_NameIntegerPair, kv. rewrite getDelimiterPosition_app by done.
  rewrite length_app. simpl.
  replace (length name <? length name + S (length (to_string v)))%nat with true
    by (symmetry; apply Nat.ltb_lt; lia).
  rewrite take_app_length, drop_app_ge by lia.
  replace (length name + 1 - length name)%nat with 1%nat by lia. simpl. rewrite drop_0.
  rewrite safe_atoi_to_string by lia. f_equal. int_unfold. rewrite andb_true_iff, !Z.ltb_lt. lia.
Qed.

Lemma token_plain_prefix p name :
  no_eq p -> token_UInt32 p name = (None, false) /\ token_NameIntegerPair p = (None, false).
Proof.
  intros Hp. split.
  - unfold token_UInt32. replace (char_is p (length name) chr_eq) with false; [by rewrite andb_false_r|].
    symmetry. apply not_true_iff_false. rewrite char_is_eq. intros H.
    by apply (Forall_lookup_1 _ _ _ _ Hp) in H.
  - unfold token_NameIntegerPair. rewrite getDelimiterPosition_none by done. by rewrite Nat.ltb_irrefl.
Qed.

(** ** The parser, token by token *)

Definition parse_step (st : parse_state) (tok : bytes) : parse_state :=
  let '(oldWireId, wireId, pairs) := st in
  let '(v1, r1) := token_UInt32 tok (str "oldwid") in
  let oldWireId := default oldWireId v1 in
  if r1 then (oldWireId, wireId, pairs) else
  let '(v2, r2) := token_UInt32 tok (str "wid") in
  let wireId := default wireId v2 in
  if r2 then (oldWireId, wireId, pairs) else
  match token_NameIntegerPair tok with
  | (Some (name, value), true) => (oldWireId, wireId, (setArg pairs name value).1)
  | _ => (oldWireId, wireId, pairs)
  end.

Lemma parse_fold_tokens sv st :
  sv_ok sv ->
  fold_left (parse_token sv) (seq 0 (sv_size sv)) st = fold_left parse_step (sv_strings sv) st.
Proof.
  intros Hok. rewrite sv_size_strings.
  assert (H : forall ts i st, (forall j tok, ts !! j = Some tok -> sv_strings sv !! (i + j)%nat = Some tok) ->
    fold_left (parse_token sv) (seq i (length ts)) st = fold_left parse_step ts st).
  { intros ts. induction ts as [|tok ts IH]; intros i st' Hts; [done|]. simpl.
    assert (Hi : sv_strings sv !! i = Some tok).
    { rewrite <- (Nat.add_0_r i). by apply Hts. }
    rewrite IH.
    - f_equal. destruct st' as [[o w] p]. unfold parse_token, parse_step.
      rewrite !(getUInt32_token _ _ _ tok), (getNameIntegerPair_token _ _ tok) by done. done.
    - intros j tok' Hj. replace (S i + j)%nat with (i + S j)%nat by lia. by apply (Hts (S j)). }
  apply H. intros j tok Hj. done.
Qed.

Lemma parse_step_oldwid st v :
  0 <= v < INT_MAX -> parse_step st (kv (str "oldwid") v) = (v, st.1.2, st.2).
Proof.
  intros Hv. destruct st as [[o w] p]. unfold parse_step.
  rewrite token_UInt32_kv by (first [assumption | unfold no_eq; by_decide]). by rewrite bool_decide_eq_true_2.
Qed.

Lemma parse_step_wid st v :
  0 <= v < INT_MAX -> parse_step st (kv (str "wid") v) = (st.1.1, v, st.2).
Proof.
  intros Hv. destruct st as [[o w] p]. unfold parse_step.
  rewrite token_UInt32_other by (first [assumption | unfold no_eq; by_decide]). simpl.
  rewrite token_UInt32_kv by (first [assumption | unfold no_eq; by_decide]). by rewrite bool_decide_eq_true_2.
Qed.

Lemma parse_step_arg st name v :
  no_eq name -> name <> str "oldwid" -> name <> str "wid" -> Z.abs v < INT_MAX ->
  parse_step st (kv name v) = (st.1.1, st.1.2, (setArg st.2 name v).1).
Proof.
  intros Hn H1 H2 Hv. destruct st as [[o w] p]. unfold parse_step.
  rewrite !token_UInt32_other by (first [assumption | congruence | unfold no_eq; by_decide]). simpl.
  by rewrite token_NameIntegerPair_kv.
Qed.

Lemma parse_step_prefix st p : no_eq p -> parse_step st p = st.
Proof.
  intros Hp. destruct st as [[o w] q]. unfold parse_step.
  destruct (token_plain_prefix p (str "oldwid") Hp) as [-> Hn].
  destruct (token_plain_prefix p (str "wid") Hp) as [-> _]. by rewrite Hn.
Qed.

(** ** Ranges of parsed fields *)

Lemma safe_atoi_i32 s : is_i32 (safe_atoi s).
Proof. pose proof (safe_atoi_range s). int_unfold. lia. Qed.

Lemma setArg_i32 args n v :
  Forall (fun a => is_i32 a.2) args -> is_i32 v -> Forall (fun a => is_i32 a.2) (setArg args n v).1.
Proof.
  intros Ha Hv. unfold setArg. destruct (args !! _) as [[k x]|]; [|done].
  destruct (lex_lt n k); [done|]. simpl. by apply Forall_insert.
Qed.

Definition parse_state_ok (st : parse_state) : Prop :=
  is_u32 st.1.1 /\ is_u32 st.1.2 /\ Forall (fun a => is_i32 a.2) st.2.

Lemma getUInt32_u32 sv i key v : (getUInt32 sv i key).1 = Some v -> is_u32 v.
Proof.
  unfold getUInt32. destruct (sv_tokens sv !! i); [|done]. case_match; [|done].
  simpl. intros [= <-]. apply u32_range.
Qed.

Lemma parse_token_ok tokens st i : parse_state_ok st -> parse_state_ok (parse_token tokens st i).
Proof.
  destruct st as [[o w] p]. intros (Ho & Hw & Hp). unfold parse_token. simpl in *.
  pose proof (getUInt32_u32 tokens i (str "oldwid")) as G1.
  destruct (getUInt32 tokens i (str "oldwid")) as [v1 r1].
  assert (is_u32 (default o v1)) by (destruct v1; simpl; auto). destruct r1; [done|].
  pose proof (getUInt32_u32 tokens i (str "wid")) as G2.
  destruct (getUInt32 tokens i (str "wid")) as [v2 r2].
  assert (is_u32 (default w v2)) by (destruct v2; simpl; auto). destruct r2; [done|].
  destruct (getNameIntegerPair tokens i) as [[[n v]|] [|]] eqn:E; [|done..].
  split_and!; [done|done|]. apply setArg_i32; [done|]. unfold getNameIntegerPair in E.
  destruct (sv_tokens tokens !! i); [|done]. destruct (find_equal _ _ _); [|done].
  injection E as <- <- _. apply safe_atoi_i32.
Qed.

Lemma parse_loop_ok tokens idx st :
  parse_state_ok st -> parse_state_ok (fold_left (parse_token tokens) idx st).
Proof. revert st. induction idx as [|i idx IH]; intros st H; simpl; [done|]. by apply IH, parse_token_ok. Qed.

Lemma arg_at_i32 args i : Forall (fun a => is_i32 a.2) args -> is_i32 (arg_at args i).
Proof.
  intros H. unfold arg_at. destruct (args !! i) as [[k v]|] eqn:E; [|by_decide].
  exact (Forall_lookup_1 _ _ _ _ H E).
Qed.

(** ** Round trip *)

(** The tokens after the prefix. *)
Definition opt (b : bool) (t : bytes) : list bytes := if b then [t] else [].

Definition tile_tokens (t : TileDesc) : list bytes :=
  [kv (str "nviewid") (_canonicalViewId t); kv (str "part") (_part t); kv (str "width") (_width t);
   kv (str "height") (_height t); kv (str "tileposx") (_tilePosX t); kv (str "tileposy") (_tilePosY t);
   kv (str "tilewidth") (_tileWidth t); kv (str "tileheight") (_tileHeight t)]
  ++ opt (negb (_oldWireId t =? 0)) (kv (str "oldwid") (_oldWireId t))
  ++ opt (negb (_wireId t =? 0)) (kv (str "wid") (_wireId t))
  ++ [kv (str "ver") (_ver t)]
  ++ opt (0 <=? _id t) (kv (str "id") (_id t))
  ++ opt (0 <? _imgSize t) (kv (str "imgsize") (_imgSize t))
  ++ opt (negb (_mode t =? 0)) (kv (str "mode") (_mode t)).

Lemma join_with_app d a b : join_with d (a ++ b) = join_with d a ++ join_with d b.
Proof. unfold join_with. by rewrite map_app, concat_app. Qed.

Lemma join_with_opt d b t : join_with d (opt b t) = if b then d :: t else [].
Proof. destruct b; [|done]. unfold join_with. simpl. by rewrite app_nil_r. Qed.

Lemma serialize_tokens t prefix :
  serialize t prefix [] = prefix ++ join_with chr_space (tile_tokens t).
Proof.
  unfold serialize, tile_tokens. rewrite !join_with_app, !join_with_opt, app_nil_r.
  unfold join_with, kv. generalize to_string. intros f.
  repeat case_match; simpl; repeat (progress (rewrite <- ?app_assoc; simpl)); rewrite ?app_nil_r; done.
Qed.

(** Descriptors the wire format can carry: valid, and every field strictly
    inside the [int] range, as [safe_atoi] saturates at its end. *)
Definition wire_int (v : Z) : Prop := - INT_MAX < v < INT_MAX.

Definition tile_valid (t : TileDesc) : Prop :=
  tile_args_invalid (_canonicalViewId t) (_part t) (_mode t) (_width t) (_height t) (_tilePosX t)
    (_tilePosY t) (_tileWidth t) (_tileHeight t) (_imgSize t) = false.

Record tile_wire_ok (t : TileDesc) : Prop := {
  two_valid : tile_valid t;
  two_ints : Forall wire_int [_canonicalViewId t; _part t; _mode t; _width t; _height t; _tilePosX t;
               _tilePosY t; _tileWidth t; _tileHeight t; _ver t; _imgSize t; _id t];
  two_id : -1 <= _id t;
  two_oldwid : 0 <= _oldWireId t < INT_MAX;
  two_wid : 0 <= _wireId t < INT_MAX }.

Lemma kv_plain d name v :
  (d = chr_space \/ d = chr_comma) -> Forall (fun c => c <> d /\ c <> chr_newline) name -> plain d (kv name v).
Proof.
  intros Hd Hn. split; [unfold kv; by destruct name|]. unfold kv. apply Forall_app_2; [done|].
  constructor; [unfold chr_eq, chr_space, chr_comma, chr_newline in *; lia|]. rewrite Forall_forall.
  intros c Hc. apply to_string_no_sep in Hc. naive_solver.
Qed.

Lemma opt_Forall (P : bytes -> Prop) b t : P t -> Forall P (opt b t).
Proof. destruct b; repeat constructor; done. Qed.

Lemma tile_tokens_plain t : Forall (plain chr_space) (tile_tokens t).
Proof.
  unfold tile_tokens. repeat first [apply Forall_app_2 | apply opt_Forall | apply Forall_cons_2 | apply Forall_nil_2];
    (apply kv_plain; [by left|by_decide]).
Qed.

(** *** The argument table after each token *)

Definition table_of (t : TileDesc) : list (bytes * Z) :=
  tile_args (_height t) (_id t) (_imgSize t) (_mode t) (_canonicalViewId t) (_part t) (_tileHeight t)
    (_tilePosX t) (_tilePosY t) (_tileWidth t) (_ver t) (_width t).

Lemma fold_opt st b tok :
  fold_left parse_step (opt b tok) st = if b then parse_step st tok else st.
Proof. by destruct b. Qed.

(** The [name=value] tokens other than the wire ids, as pairs. *)
Definition arg_ok (nv : bytes * Z) : Prop :=
  no_eq nv.1 /\ nv.1 <> str "oldwid" /\ nv.1 <> str "wid" /\ wire_int nv.2.

Definition set_pair (pairs : list (bytes * Z)) (nv : bytes * Z) : list (bytes * Z) :=
  (setArg pairs nv.1 nv.2).1.

Lemma fold_args l st :
  Forall arg_ok l ->
  fold_left parse_step (map (uncurry kv) l) st = (st.1.1, st.1.2, fold_left set_pair l st.2).
Proof.
  intros Hl. revert st. induction Hl as [|[n v] l (H1 & H2 & H3 & [H4 H5]) Hl IH]; intros st; simpl.
  - by destruct st as [[? ?] ?].
  - simpl in *. rewrite parse_step_arg by (done || lia). by rewrite IH.
Qed.

Definition geometry_args (t : TileDesc) : list (bytes * Z) :=
  [(str "nviewid", _canonicalViewId t); (str "part", _part t); (str "width", _width t);
   (str "height", _height t); (str "tileposx", _tilePosX t); (str "tileposy", _tilePosY t);
   (str "tilewidth", _tileWidth t); (str "tileheight", _tileHeight t)].

Definition version_args (t : TileDesc) : list (bytes * Z) :=
  (str "ver", _ver t) :: (if 0 <=? _id t then [(str "id", _id t)] else [])
  ++ (if 0 <? _imgSize t then [(str "imgsize", _imgSize t)] else [])
  ++ (if negb (_mode t =? 0) then [(str "mode", _mode t)] else []).

Lemma tile_tokens_args t :
  tile_tokens t =
  map (uncurry kv) (geometry_args t)
  ++ opt (negb (_oldWireId t =? 0)) (kv (str "oldwid") (_oldWireId t))
  ++ opt (negb (_wireId t =? 0)) (kv (str "wid") (_wireId t))
  ++ map (uncurry kv) (version_args t).
Proof.
  unfold tile_tokens, version_args, opt. generalize kv. intros f.
  destruct (0 <=? _id t), (0 <? _imgSize t), (negb (_mode t =? 0)); done.
Qed.

Ltac arg_goal := split_and!; [unfold no_eq; by_decide | by_decide | by_decide | done].

Lemma geometry_args_ok t : tile_wire_ok t -> Forall arg_ok (geometry_args t).
Proof.
  intros [_ Hi _ _ _]. rewrite !Forall_cons in Hi. destruct_and! Hi.
  unfold geometry_args. repeat (apply Forall_cons_2; [arg_goal|]). apply Forall_nil_2.
Qed.

Lemma version_args_ok t : tile_wire_ok t -> Forall arg_ok (version_args t).
Proof.
  intros [_ Hi _ _ _]. rewrite !Forall_cons in Hi. destruct_and! Hi. unfold version_args.
  apply Forall_cons_2; [arg_goal|].
  repeat apply Forall_app_2; case_match; repeat (apply Forall_cons_2; [arg_goal|]); apply Forall_nil_2.
Qed.

Lemma table_built t :
  0 <= _mode t -> 0 <= _imgSize t -> -1 <= _id t ->
  fold_left set_pair (version_args t) (fold_left set_pair (geometry_args t) tile_args_init) = table_of t.
Proof.
  intros Hm Hs Hi. unfold version_args, table_of.
  assert (Hid : (if 0 <=? _id t then _id t else -1) = _id t) by (zcases; lia).
  assert (Himg : (if 0 <? _imgSize t then _imgSize t else 0) = _imgSize t) by (zcases; lia).
  assert (Hmode : (if negb (_mode t =? 0) then _mode t else 0) = _mode t) by (zcases; simpl; lia).
  unfold geometry_args. revert Hid Himg Hmode. destruct t as [vid part mode w h x y tw th ver img id ow wid]. simpl in *.
  destruct (0 <=? id), (0 <? img), (negb (mode =? 0)); intros H1 H2 H3; rewrite <- ?H1, <- ?H2, <- ?H3;
    vm_compute; reflexivity.
Qed.

Lemma parse_fold_table t :
  tile_wire_ok t ->
  fold_left parse_step (tile_tokens t) (0, 0, tile_args_init) = (_oldWireId t, _wireId t, table_of t).
Proof.
  intros Ht. rewrite tile_tokens_args, !fold_left_app, !fold_opt.
  rewrite (fold_args _ _ (geometry_args_ok t Ht)), (fold_args _ _ (version_args_ok t Ht)).
  destruct Ht as [Hv _ Hid Ho Hw]. unfold tile_valid, tile_args_invalid in Hv. rewrite !orb_false_iff in Hv.
  destruct_and! Hv. bool_hyps. rewrite parse_step_oldwid, parse_step_wid by done. cbn [fst snd].
  rewrite <- table_built by done.
  destruct (Z.eqb_spec (_oldWireId t) 0) as [->|], (Z.eqb_spec (_wireId t) 0) as [->|]; done.
Qed.

Lemma tile_of_table t :
  tile_valid t ->
  tile_of_args (table_of t) = Ok (setWireId (setOldWireId t 0) 0).
Proof.
  intros Hv. transitivity (TileDesc_new (_canonicalViewId t) (_part t) (_mode t) (_width t) (_height t)
    (_tilePosX t) (_tilePosY t) (_tileWidth t) (_tileHeight t) (_ver t) (_imgSize t) (_id t)); [done|].
  unfold TileDesc_new. by rewrite Hv.
Qed.

Lemma parse_tokens_table tokens t :
  sv_ok tokens -> tile_valid t ->
  fold_left parse_step (sv_strings tokens) (0, 0, tile_args_init) = (_oldWireId t, _wireId t, table_of t) ->
  parse_tokens tokens = Ok t.
Proof.
  intros Hok Hv Hf. unfold parse_tokens. rewrite parse_fold_tokens, Hf by done.
  rewrite tile_of_table by done. simpl. by destruct t.
Qed.

(** A wire prefix such as ["tile"] or ["tile:"]: one token without ['=']. *)
Definition wire_prefix (p : bytes) : Prop :=
  plain chr_space p /\ no_eq p /\ head p <> Some chr_nul.

Lemma parse_serialize_ok t prefix :
  tile_wire_ok t -> wire_prefix prefix -> parse (serialize t prefix []) = Ok t.
Proof.
  intros Ht (Hp & Heq & Hn). unfold parse. apply parse_tokens_table; [apply tokenize_data_ok|apply Ht|].
  rewrite serialize_tokens, tokenize_data_strings; [|done|].
  - rewrite tokens_spec_join by (done || apply tile_tokens_plain). cbn [fold_left].
    rewrite parse_step_prefix by done. by apply parse_fold_table.
  - destruct prefix; [by destruct Hp|done].
Qed.

(** C31 (roundtrip): [TileDesc::parse] of [TileDesc::serialize] gives the descriptor
    back, every field included, for every valid descriptor whose integers lie
    strictly inside the [int] range and every one-word prefix. *)
Theorem parse_serialize t prefix :
  tile_wire_ok t -> wire_prefix prefix -> parse (serialize t prefix []) = Ok t.
Proof. apply parse_serialize_ok. Qed.

Definition sample_tile : TileDesc :=
  {| _canonicalViewId := 1000; _part := 2; _mode := 1; _width := 256; _height := 256;
     _tilePosX := 3840; _tilePosY := 7680; _tileWidth := 3840; _tileHeight := 3840; _ver := 17;
     _imgSize := 512; _id := -1; _oldWireId := 41; _wireId := 42 |}.

Lemma sample_tile_wire_ok : tile_wire_ok sample_tile.
Proof. constructor; by_decide. Defined.

Lemma parse_serialize_witness :
  parse (serialize sample_tile (str "tile:") []) = Ok sample_tile.
Proof.
  apply (parse_serialize sample_tile (str "tile:")); [apply sample_tile_wire_ok|].
  split; [split; [done|by_decide]|]. split; [unfold no_eq; by_decide|done].
Defined.

(** The fields of a descriptor fit their C++ types. *)
Record tile_fits (t : TileDesc) : Prop := {
  tf_ints : Forall is_i32 [_canonicalViewId t; _part t; _mode t; _width t; _height t; _tilePosX t;
              _tilePosY t; _tileWidth t; _tileHeight t; _ver t; _imgSize t; _id t];
  tf_old : is_u32 (_oldWireId t);
  tf_wid : is_u32 (_wireId t) }.

Lemma parse_ok_inv message t : parse message = Ok t -> tile_valid t /\ tile_fits t.
Proof.
  unfold parse, parse_tokens. set (tokens := tokenize_data message chr_space).
  pose proof (parse_loop_ok tokens (seq 0 (sv_size tokens)) (0, 0, tile_args_init)) as Hl.
  destruct (fold_left _ _ _) as [[o w] p].
  destruct Hl as (Ho & Hw & Hp); [split_and!; by_decide|]. simpl in *.
  unfold tile_of_args, TileDesc_new. destruct (tile_args_invalid _ _ _ _ _ _ _ _ _ _) eqn:E; simpl; [done|].
  intros [= <-]. split; [exact E|]. constructor; [|done|done].
  repeat (apply Forall_cons_2; [by apply arg_at_i32|]). apply Forall_nil_2.
Qed.

(** C32 (type): [TileDesc::parse] either rejects the message with
    [BadArgumentException] or returns a descriptor that passes the constructor's
    validation and whose fields fit their C++ types, whatever bytes it is given. *)
Theorem parse_validates message :
  match parse message with
  | Ok t => tile_valid t /\ tile_fits t
  | Throw e => e = BadArgumentException
  end.
Proof.
  destruct (parse message) as [t|e] eqn:E; [by apply (parse_ok_inv message)|].
  revert E. unfold parse, parse_tokens. destruct (fold_left _ _ _) as [[o w] p].
  unfold tile_of_args, TileDesc_new. destruct (tile_args_invalid _ _ _ _ _ _ _ _ _ _); simpl; congruence.
Qed.

(** Fact (bounds): the wire ids do not round-trip at the end of their 32-bit range:
    a descriptor with wire id [2^31] is parsed back with id [2^31 - 1], since
    [getUInt32] goes through the saturating [int] parser [safe_atoi]. *)
Theorem wire_id_saturates :
  parse (serialize (setWireId sample_tile 2147483648) (str "tile:") []) =
  Ok (setWireId sample_tile 2147483647).
Proof. vm_compute. reflexivity. Qed.
