(* ===== verification/TileCombined.v ===== *)
(** * [TileCombined]: several tiles in one message

    Models the classes [TileCombined] and [TileCombinedBuilder] of
    [wsd/TileDesc.hpp]: construction from comma separated position lists,
    the wire format and its parser, [create] from a list of descriptors and
    the incremental builder. *)

From S2P Require Import Prelude Algo Util StringVector Protocol Rectangle TileDesc.

Open Scope cool_scope.

(** ** Data *)

Record TileCombined := {
  tc_tiles : list TileDesc;
  tc_aabbox : Rectangle;
  tc_canonicalViewId : Z;
  tc_part : Z;
  tc_mode : Z;
  tc_width : Z;
  tc_height : Z;
  tc_tileWidth : Z;
  tc_tileHeight : Z;
  tc_hasWids : bool;
  tc_hasOldWids : bool;
  tc_isCombined : bool;
  tc_hasImgSizes : bool }.

#[global] Instance TileCombined_eq_dec : EqDecision TileCombined.
Proof. solve_decision. Defined.

(** The protected default constructor. *)
Definition TileCombined_default : TileCombined :=
  {| tc_tiles := []; tc_aabbox := rect_empty; tc_canonicalViewId := CanonicalViewId_Invalid;
     tc_part := -1; tc_mode := -1; tc_width := -1; tc_height := -1; tc_tileWidth := -1;
     tc_tileHeight := -1; tc_hasWids := false; tc_hasOldWids := false; tc_isCombined := false;
     tc_hasImgSizes := false |}.

(** ** The private constructor *)

(** One column of the message: a value per position. [present] is the test that
    the column's token list is not empty. *)
Definition read_int (tokens : StringVector) (i : nat) (dflt : Z) : result Z :=
  if sv_empty tokens then Ok dflt
  else let '(v, ok) := stringToInteger (sv_get tokens i) in
       throw_if negb ok as BadArgumentException; Ok v.

Definition read_version (tokens : StringVector) (i : nat) : result Z :=
  if negb (sv_empty tokens) && negb (bool_decide (sv_get tokens i = [])) then
    let '(v, ok) := stringToInteger (sv_get tokens i) in
    throw_if negb ok as BadArgumentException; Ok v
  else Ok (-1).

Definition read_wid (tokens : StringVector) (i : nat) : result Z :=
  if sv_empty tokens then Ok 0
  else let '(v, ok) := stringToUInt32 (sv_get tokens i) in
       throw_if negb ok as BadArgumentException; Ok v.

(** The token lists the constructor reads from. *)
Record columns := {
  positionXtokens : StringVector;
  positionYtokens : StringVector;
  imgSizeTokens : StringVector;
  verTokens : StringVector;
  oldWireIdTokens : StringVector;
  wireIdTokens : StringVector }.

(** A position is always read: its token list has [numberOfPositions] items. *)
Definition read_pos (tokens : StringVector) (i : nat) : result Z :=
  let '(v, ok) := stringToInteger (sv_get tokens i) in
  throw_if negb ok as BadArgumentException; Ok v.

(** The body of the loop over the positions. *)
Definition add_tile (c : columns) (tc : TileCombined) (i : nat) : result TileCombined :=
  try x <- read_pos (positionXtokens c) i;
  try y <- read_pos (positionYtokens c) i;
  try imgSize <- read_int (imgSizeTokens c) i 0;
  try ver <- read_version (verTokens c) i;
  try oldWireId <- read_wid (oldWireIdTokens c) i;
  try wireId <- read_wid (wireIdTokens c) i;
  try t <- TileDesc_new (tc_canonicalViewId tc) (tc_part tc) (tc_mode tc) (tc_width tc) (tc_height tc)
             x y (tc_tileWidth tc) (tc_tileHeight tc) ver imgSize (-1);
  let t := setWireId (setOldWireId t oldWireId) wireId in
  Ok {| tc_tiles := tc_tiles tc ++ [t];
        tc_aabbox := extend (tc_aabbox tc) (toAABBox t);
        tc_canonicalViewId := tc_canonicalViewId tc; tc_part := tc_part tc; tc_mode := tc_mode tc;
        tc_width := tc_width tc; tc_height := tc_height tc; tc_tileWidth := tc_tileWidth tc;
        tc_tileHeight := tc_tileHeight tc;
        tc_hasWids := tc_hasWids tc || negb (wireId =? 0);
        tc_hasOldWids := tc_hasOldWids tc || negb (oldWireId =? 0);
        tc_isCombined := tc_isCombined tc;
        tc_hasImgSizes := tc_hasImgSizes tc || negb (imgSize =? 0) |}.

Fixpoint add_tiles (c : columns) (tc : TileCombined) (idx : list nat) : result TileCombined :=
  match idx with
  | [] => Ok tc
  | i :: idx' => try tc' <- add_tile c tc i; add_tiles c tc' idx'
  end.

Definition nonempty (s : bytes) : bool := negb (bool_decide (s = [])).

Definition TileCombined_new (canonicalViewId part mode width height : Z)
    (tilePositionsX tilePositionsY : bytes) (tileWidth tileHeight : Z)
    (vers imgSizes oldWireIds wireIds : bytes) : result TileCombined :=
  throw_if (part <? 0) || (mode <? 0) || (width <=? 0) || (height <=? 0) || (tileWidth <=? 0)
           || (tileHeight <=? 0) as BadArgumentException;
  let c := {| positionXtokens := tokenize tilePositionsX chr_comma;
              positionYtokens := tokenize tilePositionsY chr_comma;
              imgSizeTokens := tokenize imgSizes chr_comma;
              verTokens := tokenize vers chr_comma;
              oldWireIdTokens := tokenize oldWireIds chr_comma;
              wireIdTokens := tokenize wireIds chr_comma |} in
  let numberOfPositions := sv_size (positionXtokens c) in
  throw_if negb (numberOfPositions =? sv_size (positionYtokens c))%nat
           || (nonempty imgSizes && negb (numberOfPositions =? sv_size (imgSizeTokens c))%nat)
           || (nonempty vers && negb (numberOfPositions =? sv_size (verTokens c))%nat)
           || (nonempty oldWireIds && negb (numberOfPositions =? sv_size (oldWireIdTokens c))%nat)
           || (nonempty wireIds && negb (numberOfPositions =? sv_size (wireIdTokens c))%nat)
    as BadArgumentException;
  add_tiles c
    {| tc_tiles := []; tc_aabbox := rect_empty; tc_canonicalViewId := canonicalViewId;
       tc_part := part; tc_mode := mode; tc_width := width; tc_height := height;
       tc_tileWidth := tileWidth; tc_tileHeight := tileHeight; tc_hasWids := false;
       tc_hasOldWids := false; tc_isCombined := true; tc_hasImgSizes := false |}
    (seq 0 numberOfPositions).

(** ** Operations *)

Definition tc_setTiles (tc : TileCombined) (tiles : list TileDesc) : TileCombined :=
  {| tc_tiles := tiles; tc_aabbox := tc_aabbox tc; tc_canonicalViewId := tc_canonicalViewId tc;
     tc_part := tc_part tc; tc_mode := tc_mode tc; tc_width := tc_width tc; tc_height := tc_height tc;
     tc_tileWidth := tc_tileWidth tc; tc_tileHeight := tc_tileHeight tc; tc_hasWids := tc_hasWids tc;
     tc_hasOldWids := tc_hasOldWids tc; tc_isCombined := tc_isCombined tc;
     tc_hasImgSizes := tc_hasImgSizes tc |}.

Definition tc_setHasOldWireId (tc : TileCombined) : TileCombined :=
  {| tc_tiles := tc_tiles tc; tc_aabbox := tc_aabbox tc; tc_canonicalViewId := tc_canonicalViewId tc;
     tc_part := tc_part tc; tc_mode := tc_mode tc; tc_width := tc_width tc; tc_height := tc_height tc;
     tc_tileWidth := tc_tileWidth tc; tc_tileHeight := tc_tileHeight tc; tc_hasWids := tc_hasWids tc;
     tc_hasOldWids := true; tc_isCombined := tc_isCombined tc; tc_hasImgSizes := tc_hasImgSizes tc |}.

Definition tc_setCanonicalViewId (tc : TileCombined) (viewId : Z) : TileCombined :=
  {| tc_tiles := map (fun t => setCanonicalViewId t viewId) (tc_tiles tc); tc_aabbox := tc_aabbox tc;
     tc_canonicalViewId := viewId;
     tc_part := tc_part tc; tc_mode := tc_mode tc; tc_width := tc_width tc; tc_height := tc_height tc;
     tc_tileWidth := tc_tileWidth tc; tc_tileHeight := tc_tileHeight tc; tc_hasWids := tc_hasWids tc;
     tc_hasOldWids := tc_hasOldWids tc; tc_isCombined := tc_isCombined tc;
     tc_hasImgSizes := tc_hasImgSizes tc |}.

Definition same_pos (a b : TileDesc) : bool :=
  (_tilePosX a =? _tilePosX b) && (_tilePosY a =? _tilePosY b).

(** The two loops of [hasDuplicates]. *)
Fixpoint has_dup_pos (tiles : list TileDesc) : bool :=
  match tiles with
  | [] => false
  | a :: rest => existsb (same_pos a) rest || has_dup_pos rest
  end.
Definition hasDuplicates (tc : TileCombined) : bool :=
  if (length (tc_tiles tc) <? 2)%nat then false else has_dup_pos (tc_tiles tc).

(** [initFrom]: called on a default-constructed object, so [_tiles] is empty. *)
Definition initFrom (tc : TileCombined) (desc : TileDesc) : TileCombined :=
  {| tc_tiles := tc_tiles tc ++ [desc]; tc_aabbox := tc_aabbox tc;
     tc_canonicalViewId := _canonicalViewId desc; tc_part := _part desc; tc_mode := _mode desc;
     tc_width := _width desc; tc_height := _height desc; tc_tileWidth := _tileWidth desc;
     tc_tileHeight := _tileHeight desc; tc_hasWids := negb (_wireId desc =? 0);
     tc_hasOldWids := negb (_oldWireId desc =? 0); tc_isCombined := false;
     tc_hasImgSizes := negb (_imgSize desc =? 0) |}.

Definition TileCombined_of (desc : TileDesc) : TileCombined := initFrom TileCombined_default desc.

(** The last element of a vector, updated in place. *)
Definition update_back {A} (f : A -> A) (l : list A) : list A :=
  match last l with Some x => take (length l - 1) l ++ [f x] | None => l end.

(** [TileCombinedBuilder::pushRendered]; [imgSize] is a [size_t]. *)
Definition pushRendered (tc : TileCombined) (desc : TileDesc) (wireId imgSize : Z) : TileCombined :=
  let tc := if (tc_part tc <? 0) && (tc_mode tc <? 0) && (tc_width tc <=? 0)
            then initFrom tc desc else tc_setTiles tc (tc_tiles tc ++ [desc]) in
  let tiles := update_back (fun t => setImgSize (setWireId t wireId) (i32 imgSize)) (tc_tiles tc) in
  {| tc_tiles := tiles; tc_aabbox := tc_aabbox tc; tc_canonicalViewId := tc_canonicalViewId tc;
     tc_part := tc_part tc; tc_mode := tc_mode tc; tc_width := tc_width tc; tc_height := tc_height tc;
     tc_tileWidth := tc_tileWidth tc; tc_tileHeight := tc_tileHeight tc; tc_hasWids := true;
     tc_hasOldWids := tc_hasOldWids tc; tc_isCombined := (1 <? length tiles)%nat;
     tc_hasImgSizes := true |}.

(** ** Wire format *)

(** [(num++ ? "," : "") << v] for each element. *)
Fixpoint comma_list (l : list Z) : bytes :=
  match l with
  | [] => []
  | [v] => to_string v
  | v :: l' => to_string v ++ chr_comma :: comma_list l'
  end.

Definition tc_serialize (tc : TileCombined) (prefix suffix : bytes) : bytes :=
  prefix
  ++ str " nviewid=" ++ to_string (tc_canonicalViewId tc)
  ++ str " part=" ++ to_string (tc_part tc)
  ++ str " width=" ++ to_string (tc_width tc)
  ++ str " height=" ++ to_string (tc_height tc)
  ++ str " tileposx=" ++ comma_list (map _tilePosX (tc_tiles tc))
  ++ str " tileposy=" ++ comma_list (map _tilePosY (tc_tiles tc))
  ++ (if tc_hasImgSizes tc then str " imgsize=" ++ comma_list (map _imgSize (tc_tiles tc)) else [])
  ++ str " tilewidth=" ++ to_string (tc_tileWidth tc)
  ++ str " tileheight=" ++ to_string (tc_tileHeight tc)
  ++ str " ver=" ++ comma_list (map _ver (tc_tiles tc))
  ++ (if tc_hasOldWids tc then str " oldwid=" ++ comma_list (map _oldWireId (tc_tiles tc)) else [])
  ++ (if tc_hasWids tc then str " wid=" ++ comma_list (map _wireId (tc_tiles tc)) else [])
  ++ (if negb (tc_mode tc =? 0) then str " mode=" ++ to_string (tc_mode tc) else [])
  ++ suffix.

(** [TileCombinedParseResults], in the order of [argenum]. *)
Definition combined_args (height mode nviewid part tileheight tilewidth width : Z) : list (bytes * Z) :=
  [(str "height", height); (str "mode", mode); (str "nviewid", nviewid); (str "part", part);
   (str "tileheight", tileheight); (str "tilewidth", tilewidth); (str "width", width)].

(** The variables of the parse loop. *)
Record combined_state := {
  cs_x : bytes; cs_y : bytes; cs_img : bytes; cs_ver : bytes; cs_old : bytes; cs_wid : bytes;
  cs_pairs : list (bytes * Z) }.

Definition combined_init : combined_state :=
  {| cs_x := []; cs_y := []; cs_img := []; cs_ver := []; cs_old := []; cs_wid := [];
     cs_pairs := combined_args 0 0 0 0 0 0 0 |}.

Definition set_named (st : combined_state) (name value : bytes) : combined_state :=
  let 'Build_combined_state x y img ver old wid pairs := st in
  if beq name (str "tileposx") then Build_combined_state value y img ver old wid pairs
  else if beq name (str "tileposy") then Build_combined_state x value img ver old wid pairs
  else if beq name (str "imgsize") then Build_combined_state x y value ver old wid pairs
  else if beq name (str "ver") then Build_combined_state x y img value old wid pairs
  else if beq name (str "oldwid") then Build_combined_state x y img ver value wid pairs
  else if beq name (str "wid") then Build_combined_state x y img ver old value pairs
  else let '(v, ok) := stringToInteger value in
       if ok then Build_combined_state x y img ver old wid (setArg pairs name v).1 else st.

Definition combined_token (st : combined_state) (token : bytes) : combined_state :=
  match parseNameValuePair token chr_eq with
  | Some (name, value) => set_named st name value
  | None => st
  end.

Definition tc_parse_tokens (tokens : StringVector) : result TileCombined :=
  let st := fold_left combined_token (sv_strings tokens) combined_init in
  let a := arg_at (cs_pairs st) in
  TileCombined_new (a 2%nat) (a 3%nat) (a 1%nat) (a 6%nat) (a 0%nat) (cs_x st) (cs_y st)
    (a 5%nat) (a 4%nat) (cs_ver st) (cs_img st) (cs_old st) (cs_wid st).

Definition tc_parse (message : bytes) : result TileCombined :=
  tc_parse_tokens (tokenize_data message chr_space).

(** ** [create] *)

(** [os << v << ','] for each element. *)
Definition trailing_comma_list (l : list Z) : bytes :=
  concat (map (fun v => to_string v ++ [chr_comma]) l).

(** [seekp(-1)] moves the put pointer only: [vers.str()] keeps its last comma. *)
Definition create (tiles : list TileDesc) : result TileCombined :=
  match tiles with
  | [] => Throw runtime_error (* [assert(!tiles.empty())] *)
  | t0 :: _ =>
      TileCombined_new (_canonicalViewId t0) (_part t0) (_mode t0) (_width t0) (_height t0)
        (trailing_comma_list (map _tilePosX tiles)) (trailing_comma_list (map _tilePosY tiles))
        (_tileWidth t0) (_tileHeight t0) (trailing_comma_list (map _ver tiles)) []
        (trailing_comma_list (map _oldWireId tiles)) (trailing_comma_list (map _wireId tiles))
  end.

(** ** Comma separated columns *)

Lemma to_string_plain d n : d = chr_comma \/ d = chr_space -> plain d (to_string n).
Proof.
  intros Hd. split; [apply to_string_nonempty|]. rewrite Forall_forall. intros c Hc.
  apply to_string_no_sep in Hc. naive_solver.
Qed.

Lemma comma_list_cons v l :
  comma_list (v :: l) = to_string v ++ join_with chr_comma (map to_string l).
Proof.
  revert v. induction l as [|w l IH]; intros v; [simpl; by rewrite app_nil_r|].
  change (comma_list (v :: w :: l)) with (to_string v ++ chr_comma :: comma_list (w :: l)).
  rewrite IH. done.
Qed.

Lemma to_string_head n s : head (to_string n ++ s) <> Some chr_nul.
Proof.
  pose proof (to_string_nonempty n). destruct (to_string n) as [|c r] eqn:E; [done|]. simpl. intros [= ->].
  assert (Hc : chr_nul ∈ to_string n) by (rewrite E; by left). apply to_string_no_sep in Hc. naive_solver.
Qed.

(** Column [tokens] holds the numbers [l]. *)
Definition column_is (tokens : StringVector) (l : list Z) : Prop :=
  sv_strings tokens = map to_string l.

Lemma comma_list_column l : column_is (tokenize (comma_list l) chr_comma) l.
Proof.
  unfold column_is. destruct l as [|v l]; [done|]. rewrite comma_list_cons.
  rewrite tokenize_strings by (done || apply to_string_head).
  rewrite tokens_spec_join; [done|done|apply to_string_plain; by left|].
  rewrite Forall_map. apply Forall_true. intros. apply to_string_plain. by left.
Qed.

(** [os << v << ','] ends in a comma the tokenizer ignores. *)
Lemma fields_trailing d t ts :
  plain d t -> Forall (plain d) ts -> fields d [] (t ++ join_with d ts ++ [d]) = t :: ts.
Proof.
  intros [Hne Ht] Hts. revert t Hne Ht. induction Hts as [|u ts [Hu1 Hu2] Hts IH]; intros t Hne Ht.
  - rewrite fields_plain by done. simpl. rewrite Z.eqb_refl. simpl. by destruct t.
  - rewrite fields_plain by done. simpl. rewrite Z.eqb_refl.
    change (concat (map (fun t0 => d :: t0) ts)) with (join_with d ts). rewrite <- app_assoc, IH by done.
    by destruct t.
Qed.

Lemma trailing_comma_cons v l :
  trailing_comma_list (v :: l) = to_string v ++ join_with chr_comma (map to_string l) ++ [chr_comma].
Proof.
  revert v. induction l as [|w l IH]; intros v; [cbn; by rewrite app_nil_r|].
  change (trailing_comma_list (v :: w :: l)) with ((to_string v ++ [chr_comma]) ++ trailing_comma_list (w :: l)).
  rewrite IH, <- app_assoc. cbn. by rewrite <- app_assoc.
Qed.

Lemma trailing_comma_column l : column_is (tokenize (trailing_comma_list l) chr_comma) l.
Proof.
  unfold column_is. destruct l as [|v l]; [done|]. rewrite trailing_comma_cons.
  rewrite tokenize_strings by (done || apply to_string_head). unfold tokens_spec.
  assert (Hp : forall n, plain chr_comma (to_string n)) by (intros n; apply to_string_plain; by left).
  rewrite first_line_plain.
  - rewrite fields_trailing; [done|done|]. rewrite Forall_map. apply Forall_true. intros x. apply Hp.
  - assert (Hn : forall n, Forall (fun c => c <> chr_newline) (to_string n)).
    { intros n. eapply Forall_impl; [apply (Hp n)|]. simpl. tauto. }
    apply Forall_app_2; [done|]. apply Forall_app_2; [|by repeat constructor].
    clear. assert (Hn : forall n, Forall (fun c => c <> chr_newline) (to_string n)).
    { intros n. eapply Forall_impl; [apply (to_string_plain chr_comma n); by left|]. simpl. tauto. }
    induction l as [|w l IH]; [constructor|]. unfold join_with. simpl. constructor; [done|].
    by apply Forall_app_2.
Qed.

Lemma i32FromString_wide n :
  LONG_MIN <= n <= LONG_MAX -> i32FromString (to_string n) = (i32 n, true).
Proof. intros H. unfold i32FromString. by rewrite strtol_to_string. Qed.

Lemma column_get tokens l i v :
  column_is tokens l -> l !! i = Some v -> sv_get tokens i = to_string v.
Proof. intros Hc Hi. rewrite sv_get_strings, Hc. by rewrite list_lookup_fmap, Hi. Qed.

Lemma column_size tokens l : column_is tokens l -> sv_size tokens = length l.
Proof. intros Hc. by rewrite sv_size_strings, Hc, length_map. Qed.

Lemma column_nonempty tokens l i v :
  column_is tokens l -> l !! i = Some v -> sv_empty tokens = false.
Proof.
  intros Hc Hi. unfold sv_empty. rewrite (column_size _ _ Hc). apply lookup_lt_Some in Hi.
  apply Nat.eqb_neq. lia.
Qed.

Lemma read_pos_column tokens l i v :
  column_is tokens l -> l !! i = Some v -> is_i32 v -> read_pos tokens i = Ok v.
Proof.
  intros Hc Hi Hv. unfold read_pos, stringToInteger. rewrite (column_get _ _ _ _ Hc Hi).
  by rewrite i32FromString_to_string.
Qed.

Lemma read_version_column tokens l i v :
  column_is tokens l -> l !! i = Some v -> is_i32 v -> read_version tokens i = Ok v.
Proof.
  intros Hc Hi Hv. unfold read_version, stringToInteger.
  rewrite (column_nonempty _ _ _ _ Hc Hi), (column_get _ _ _ _ Hc Hi).
  rewrite bool_decide_eq_false_2 by apply to_string_nonempty. cbn [negb andb].
  by rewrite i32FromString_to_string.
Qed.

(** A column that may be left out when all its values are the default [0]. *)
Definition column_or_zero (tokens : StringVector) (l : list Z) : Prop :=
  column_is tokens l \/ (sv_empty tokens = true /\ Forall (fun v => v = 0) l).

Lemma read_int_column tokens l i v :
  column_or_zero tokens l -> l !! i = Some v -> is_i32 v -> read_int tokens i 0 = Ok v.
Proof.
  intros [Hc|[He Hz]] Hi Hv; unfold read_int.
  - rewrite (column_nonempty _ _ _ _ Hc Hi), (column_get _ _ _ _ Hc Hi). unfold stringToInteger.
    by rewrite i32FromString_to_string.
  - rewrite He. by rewrite (Forall_lookup_1 _ _ _ _ Hz Hi).
Qed.

Lemma read_wid_column tokens l i v :
  column_or_zero tokens l -> l !! i = Some v -> is_u32 v -> read_wid tokens i = Ok v.
Proof.
  intros [Hc|[He Hz]] Hi Hv; unfold read_wid.
  - rewrite (column_nonempty _ _ _ _ Hc Hi), (column_get _ _ _ _ Hc Hi). unfold stringToUInt32.
    rewrite i32FromString_wide by (int_unfold; lia). simpl. by rewrite u32_i32, u32_id.
  - rewrite He. by rewrite (Forall_lookup_1 _ _ _ _ Hz Hi).
Qed.

(** ** What the constructor builds *)

(** The object for tiles [ts] that all share the parameters of [p]. *)
Definition combined_of (p : TileDesc) (ts : list TileDesc) : TileCombined :=
  {| tc_tiles := ts; tc_aabbox := bounding (map toAABBox ts);
     tc_canonicalViewId := _canonicalViewId p; tc_part := _part p; tc_mode := _mode p;
     tc_width := _width p; tc_height := _height p; tc_tileWidth := _tileWidth p;
     tc_tileHeight := _tileHeight p;
     tc_hasWids := existsb (fun t => negb (_wireId t =? 0)) ts;
     tc_hasOldWids := existsb (fun t => negb (_oldWireId t =? 0)) ts;
     tc_isCombined := true;
     tc_hasImgSizes := existsb (fun t => negb (_imgSize t =? 0)) ts |}.

(** A tile the message can carry next to [p]: the shared parameters, a valid
    descriptor, no preview id and fields of the machine widths. *)
Record combined_tile (p t : TileDesc) : Prop := {
  ct_same : sameTileCombineParams p t = true;
  ct_valid : tile_valid t;
  ct_id : _id t = -1;
  ct_x : is_i32 (_tilePosX t);
  ct_y : is_i32 (_tilePosY t);
  ct_ver : is_i32 (_ver t);
  ct_img : is_i32 (_imgSize t);
  ct_old : is_u32 (_oldWireId t);
  ct_wid : is_u32 (_wireId t) }.

(** The columns the constructor must find for the tiles [ts]. *)
Record columns_for (c : columns) (ts : list TileDesc) : Prop := {
  cf_x : column_is (positionXtokens c) (map _tilePosX ts);
  cf_y : column_is (positionYtokens c) (map _tilePosY ts);
  cf_ver : column_is (verTokens c) (map _ver ts);
  cf_img : column_or_zero (imgSizeTokens c) (map _imgSize ts);
  cf_old : column_or_zero (oldWireIdTokens c) (map _oldWireId ts);
  cf_wid : column_or_zero (wireIdTokens c) (map _wireId ts) }.

Lemma map_lookup_at {A B} (f : A -> B) l i x : l !! i = Some x -> map f l !! i = Some (f x).
Proof. intros H. by rewrite list_lookup_fmap, H. Qed.

Lemma existsb_snoc {A} (f : A -> bool) l x : existsb f (l ++ [x]) = existsb f l || f x.
Proof. rewrite existsb_app. simpl. by rewrite orb_false_r. Qed.

Lemma same_params_fields p t :
  sameTileCombineParams p t = true ->
  _canonicalViewId p = _canonicalViewId t /\ _part p = _part t /\ _mode p = _mode t /\
  _width p = _width t /\ _height p = _height t /\ _tileWidth p = _tileWidth t /\
  _tileHeight p = _tileHeight t.
Proof.
  unfold sameTileCombineParams, same_size_params. rewrite !andb_true_iff, !Z.eqb_eq.
  intros H. destruct_and! H. split_and!; congruence.
Qed.

Lemma add_tile_spec c p ts i done_ t :
  columns_for c ts -> combined_tile p t -> ts !! i = Some t ->
  add_tile c (combined_of p done_) i = Ok (combined_of p (done_ ++ [t])).
Proof.
  intros [Hx Hy Hver Himg Hold Hwid] [Hs Hv Hid ??????] Hi. unfold add_tile.
  rewrite (read_pos_column _ _ _ _ Hx (map_lookup_at _ _ _ _ Hi)) by done. simpl rbind.
  rewrite (read_pos_column _ _ _ _ Hy (map_lookup_at _ _ _ _ Hi)) by done. simpl rbind.
  rewrite (read_int_column _ _ _ _ Himg (map_lookup_at _ _ _ _ Hi)) by done. simpl rbind.
  rewrite (read_version_column _ _ _ _ Hver (map_lookup_at _ _ _ _ Hi)) by done. simpl rbind.
  rewrite (read_wid_column _ _ _ _ Hold (map_lookup_at _ _ _ _ Hi)) by done. simpl rbind.
  rewrite (read_wid_column _ _ _ _ Hwid (map_lookup_at _ _ _ _ Hi)) by done. simpl rbind.
  apply same_params_fields in Hs. destruct_and! Hs.
  unfold combined_of, TileDesc_new. cbn [tc_canonicalViewId tc_part tc_mode tc_width tc_height tc_tileWidth tc_tileHeight].
  unfold tile_valid in Hv.
  repeat match goal with H : _ p = _ t |- _ => rewrite H; clear H end.
  rewrite Hv. cbn [rbind]. f_equal. rewrite map_app, !existsb_snoc. unfold bounding. rewrite fold_left_app.
  cbn [map fold_left]. rewrite <- Hid. by destruct t.
Qed.

Lemma add_tiles_spec c p ts done_ rest :
  columns_for c ts -> Forall (combined_tile p) ts -> ts = done_ ++ rest ->
  add_tiles c (combined_of p done_) (seq (length done_) (length rest)) = Ok (combined_of p ts).
Proof.
  intros Hc Hts. revert done_. induction rest as [|t rest IH]; intros done_ Heq; simpl.
  - by rewrite Heq, app_nil_r.
  - assert (Hi : ts !! length done_ = Some t) by (rewrite Heq; by apply list_lookup_middle).
    rewrite (add_tile_spec _ _ _ _ _ t Hc) by (done || by apply (Forall_lookup_1 _ _ _ _ Hts Hi)).
    simpl. specialize (IH (done_ ++ [t])). rewrite length_app in IH. simpl in IH.
    rewrite Nat.add_1_r in IH. apply IH. by rewrite <- app_assoc.
Qed.

(** The string [s] of a column: either the numbers [l], or left out. *)
Definition opt_column (s : bytes) (l : list Z) : Prop :=
  column_is (tokenize s chr_comma) l \/ (s = [] /\ Forall (fun v => v = 0) l).

Lemma opt_column_tokens s l : opt_column s l -> column_or_zero (tokenize s chr_comma) l.
Proof. intros [H|[-> H]]; [by left|right; done]. Qed.

Lemma opt_column_size s l :
  opt_column s l -> nonempty s && negb (length l =? sv_size (tokenize s chr_comma))%nat = false.
Proof.
  intros [H|[-> H]]; [|done]. rewrite (column_size _ _ H), Nat.eqb_refl. by rewrite andb_false_r.
Qed.

Definition params_valid (p : TileDesc) : Prop :=
  0 <= _part p /\ 0 <= _mode p /\ 0 < _width p /\ 0 < _height p /\ 0 < _tileWidth p /\ 0 < _tileHeight p.

Lemma TileCombined_new_spec p ts xs ys vers imgs olds wids :
  params_valid p -> Forall (combined_tile p) ts ->
  column_is (tokenize xs chr_comma) (map _tilePosX ts) ->
  column_is (tokenize ys chr_comma) (map _tilePosY ts) ->
  column_is (tokenize vers chr_comma) (map _ver ts) ->
  opt_column imgs (map _imgSize ts) ->
  opt_column olds (map _oldWireId ts) -> opt_column wids (map _wireId ts) ->
  TileCombined_new (_canonicalViewId p) (_part p) (_mode p) (_width p) (_height p) xs ys
    (_tileWidth p) (_tileHeight p) vers imgs olds wids = Ok (combined_of p ts).
Proof.
  intros (?&?&?&?&?&?) Hts Hx Hy Hv Hi Ho Hw. unfold TileCombined_new.
  replace ((_part p <? 0) || (_mode p <? 0) || (_width p <=? 0) || (_height p <=? 0)
           || (_tileWidth p <=? 0) || (_tileHeight p <=? 0)) with false by (symmetry; bool_hyps; lia).
  cbn [positionXtokens positionYtokens imgSizeTokens verTokens oldWireIdTokens wireIdTokens].
  pose proof (opt_column_size _ _ (or_introl Hv : opt_column vers _)) as Hvs.
  apply opt_column_size in Hi as His, Ho as Hos, Hw as Hws. rewrite length_map in His, Hos, Hws, Hvs.
  rewrite (column_size _ _ Hx), (column_size _ _ Hy), !length_map, Nat.eqb_refl, Hvs, His, Hos, Hws.
  cbn [negb orb].
  change {| tc_tiles := []; tc_aabbox := rect_empty; tc_canonicalViewId := _canonicalViewId p;
            tc_part := _part p; tc_mode := _mode p; tc_width := _width p; tc_height := _height p;
            tc_tileWidth := _tileWidth p; tc_tileHeight := _tileHeight p; tc_hasWids := false;
            tc_hasOldWids := false; tc_isCombined := true; tc_hasImgSizes := false |}
    with (combined_of p []).
  apply (add_tiles_spec _ p ts [] ts); [|done..].
  constructor; cbn; try done; by apply opt_column_tokens.
Qed.

(** ** [create] *)

(** What [create] keeps of a tile: not the image size, not the preview id. *)
Definition drop_img_id (t : TileDesc) : TileDesc :=
  set_wids t (_canonicalViewId t) (_ver t) 0 (-1) (_oldWireId t) (_wireId t).

(** The tiles [create] accepts: what the queue hands to it. *)
Record queue_tile (t : TileDesc) : Prop := {
  qt_valid : tile_valid t;
  qt_x : is_i32 (_tilePosX t);
  qt_y : is_i32 (_tilePosY t);
  qt_ver : is_i32 (_ver t);
  qt_old : is_u32 (_oldWireId t);
  qt_wid : is_u32 (_wireId t) }.

#[global] Instance queue_tile_dec t : Decision (queue_tile t).
Proof.
  refine (cast_if (decide (tile_valid t /\ is_i32 (_tilePosX t) /\ is_i32 (_tilePosY t) /\ is_i32 (_ver t)
    /\ is_u32 (_oldWireId t) /\ is_u32 (_wireId t)))); [|intros []]; (constructor || idtac); naive_solver.
Defined.

Lemma tile_valid_params t : tile_valid t -> params_valid t.
Proof.
  unfold tile_valid, tile_args_invalid, params_valid. rewrite !orb_false_iff. intros H. destruct_and! H.
  bool_hyps. lia.
Qed.

Lemma drop_img_id_tile p t :
  queue_tile t -> sameTileCombineParams p t = true -> combined_tile p (drop_img_id t).
Proof.
  intros [] Hs. constructor; try done.
  unfold tile_valid, tile_args_invalid in *. cbn. rewrite !orb_false_iff in *. naive_solver.
Qed.

Lemma map_drop {A} (f : TileDesc -> A) ts :
  (forall t, f (drop_img_id t) = f t) -> map f (map drop_img_id ts) = map f ts.
Proof. intros Hf. rewrite map_map. by apply map_ext. Qed.

Lemma create_spec p ts :
  Forall queue_tile (p :: ts) -> Forall (fun t => sameTileCombineParams p t = true) ts ->
  create (p :: ts) = Ok (combined_of p (map drop_img_id (p :: ts))).
Proof.
  intros Hq Hs. inversion Hq as [|? ? Hp Hq']; subst. unfold create.
  assert (Hpp : sameTileCombineParams p p = true).
  { unfold sameTileCombineParams, same_size_params. by rewrite !Z.eqb_refl. }
  apply TileCombined_new_spec.
  - apply tile_valid_params, Hp.
  - rewrite Forall_map, Forall_forall. intros t Ht. rewrite Forall_forall in Hq, Hs.
    apply drop_img_id_tile; [by apply Hq|]. apply elem_of_cons in Ht as [->|Ht]; [done|by apply Hs].
  - rewrite map_drop by done. apply trailing_comma_column.
  - rewrite map_drop by done. apply trailing_comma_column.
  - rewrite map_drop by done. apply trailing_comma_column.
  - right. split; [done|]. rewrite map_map, Forall_map. by apply Forall_true.
  - left. rewrite map_drop by done. apply trailing_comma_column.
  - left. rewrite map_drop by done. apply trailing_comma_column.
Qed.

(** ** The tokens of a serialized message *)

Definition kvs (name value : bytes) : bytes := name ++ chr_eq :: value.
Definition kvi (nv : bytes * Z) : bytes := kvs nv.1 (to_string nv.2).

Definition combined_tokens (tc : TileCombined) : list bytes :=
  map kvi [(str "nviewid", tc_canonicalViewId tc); (str "part", tc_part tc);
           (str "width", tc_width tc); (str "height", tc_height tc)]
  ++ [kvs (str "tileposx") (comma_list (map _tilePosX (tc_tiles tc)));
      kvs (str "tileposy") (comma_list (map _tilePosY (tc_tiles tc)))]
  ++ opt (tc_hasImgSizes tc) (kvs (str "imgsize") (comma_list (map _imgSize (tc_tiles tc))))
  ++ map kvi [(str "tilewidth", tc_tileWidth tc); (str "tileheight", tc_tileHeight tc)]
  ++ [kvs (str "ver") (comma_list (map _ver (tc_tiles tc)))]
  ++ opt (tc_hasOldWids tc) (kvs (str "oldwid") (comma_list (map _oldWireId (tc_tiles tc))))
  ++ opt (tc_hasWids tc) (kvs (str "wid") (comma_list (map _wireId (tc_tiles tc))))
  ++ map kvi (if negb (tc_mode tc =? 0) then [(str "mode", tc_mode tc)] else []).

Lemma tc_serialize_tokens tc prefix :
  tc_serialize tc prefix [] = prefix ++ join_with chr_space (combined_tokens tc).
Proof.
  unfold tc_serialize, combined_tokens. rewrite !join_with_app, !join_with_opt, app_nil_r.
  unfold join_with, kvi, kvs. generalize to_string. intros f. generalize comma_list. intros g.
  repeat case_match; simpl; repeat (progress (rewrite <- ?app_assoc; simpl)); rewrite ?app_nil_r; done.
Qed.

Lemma comma_list_chars l : Forall (fun c => c <> chr_space /\ c <> chr_newline) (comma_list l).
Proof.
  assert (Hn : forall n, Forall (fun c => c <> chr_space /\ c <> chr_newline) (to_string n)).
  { intros n. apply (to_string_plain chr_space n). by right. }
  induction l as [|v [|w l] IH]; [constructor|apply Hn|].
  change (comma_list (v :: w :: l)) with (to_string v ++ chr_comma :: comma_list (w :: l)).
  apply Forall_app_2; [apply Hn|]. by constructor.
Qed.

Lemma kvs_plain name value :
  Forall (fun c => c <> chr_space /\ c <> chr_newline) name ->
  Forall (fun c => c <> chr_space /\ c <> chr_newline) value -> plain chr_space (kvs name value).
Proof.
  intros Hn Hv. split; [unfold kvs; by destruct name|]. unfold kvs. apply Forall_app_2; [done|].
  by constructor.
Qed.

Lemma combined_tokens_plain tc : Forall (plain chr_space) (combined_tokens tc).
Proof.
  assert (Hn : forall n, Forall (fun c => c <> chr_space /\ c <> chr_newline) (to_string n)).
  { intros n. apply (to_string_plain chr_space n). by right. }
  unfold combined_tokens.
  repeat first [apply Forall_app_2 | apply opt_Forall | apply Forall_cons_2 | apply Forall_nil_2 | case_match];
    (apply kvs_plain; [by_decide|first [apply comma_list_chars | apply Hn]]).
Qed.

(** ** The parser, token by token *)

Lemma combined_token_kvs st name value :
  no_eq name -> combined_token st (kvs name value) = set_named st name value.
Proof.
  intros Hn. unfold combined_token, parseNameValuePair, kvs.
  rewrite getDelimiterPosition_app by done. rewrite length_app. simpl length.
  replace (length name <? length name + S (length value))%nat with true
    by (symmetry; apply Nat.ltb_lt; lia).
  rewrite take_app_length, drop_app_ge by lia.
  by replace (length name + 1 - length name)%nat with 1%nat by lia.
Qed.

Lemma combined_token_prefix st p : no_eq p -> combined_token st p = st.
Proof.
  intros Hp. unfold combined_token, parseNameValuePair.
  by rewrite getDelimiterPosition_none, Nat.ltb_irrefl by done.
Qed.

Definition with_pairs (st : combined_state) (pairs : list (bytes * Z)) : combined_state :=
  let 'Build_combined_state x y img ver old wid _ := st in Build_combined_state x y img ver old wid pairs.

Definition text_columns : list bytes :=
  [str "tileposx"; str "tileposy"; str "imgsize"; str "ver"; str "oldwid"; str "wid"].

Definition int_arg_ok (nv : bytes * Z) : Prop := no_eq nv.1 /\ nv.1 ∉ text_columns /\ is_i32 nv.2.

Lemma combined_fold_ints l st :
  Forall int_arg_ok l ->
  fold_left combined_token (map kvi l) st = with_pairs st (fold_left set_pair l (cs_pairs st)).
Proof.
  intros Hl. revert st. induction Hl as [|[n v] l (H1 & H2 & H3) Hl IH]; intros st; simpl.
  - by destruct st.
  - unfold kvi at 2. simpl in *. rewrite combined_token_kvs by done.
    unfold text_columns in H2. rewrite !not_elem_of_cons in H2. destruct_and! H2.
    destruct st. unfold set_named. repeat match goal with |- context [beq n ?s] =>
      rewrite (proj2 (beq_neq n s)) by done end.
    unfold stringToInteger. rewrite i32FromString_to_string by done. by rewrite IH.
Qed.

Lemma combined_opt st b tok :
  fold_left combined_token (opt b tok) st = if b then combined_token st tok else st.
Proof. by destruct b. Qed.

(** The parameters fit their [int] fields. *)
Definition params_i32 (p : TileDesc) : Prop :=
  Forall is_i32 [_canonicalViewId p; _part p; _mode p; _width p; _height p; _tileWidth p; _tileHeight p].

Ltac int_arg_goal := split_and!; [unfold no_eq; by_decide | by_decide | done].

Lemma combined_fold tc :
  Forall is_i32 [tc_canonicalViewId tc; tc_part tc; tc_mode tc; tc_width tc; tc_height tc;
                 tc_tileWidth tc; tc_tileHeight tc] ->
  fold_left combined_token (combined_tokens tc) combined_init =
  {| cs_x := comma_list (map _tilePosX (tc_tiles tc));
     cs_y := comma_list (map _tilePosY (tc_tiles tc));
     cs_img := if tc_hasImgSizes tc then comma_list (map _imgSize (tc_tiles tc)) else [];
     cs_ver := comma_list (map _ver (tc_tiles tc));
     cs_old := if tc_hasOldWids tc then comma_list (map _oldWireId (tc_tiles tc)) else [];
     cs_wid := if tc_hasWids tc then comma_list (map _wireId (tc_tiles tc)) else [];
     cs_pairs := combined_args (tc_height tc) (tc_mode tc) (tc_canonicalViewId tc) (tc_part tc)
                   (tc_tileHeight tc) (tc_tileWidth tc) (tc_width tc) |}.
Proof.
  intros Hi. rewrite !Forall_cons in Hi. destruct_and! Hi.
  unfold combined_tokens. rewrite !fold_left_app, !combined_opt. cbn [fold_left].
  rewrite !combined_token_kvs by (unfold no_eq; by_decide).
  rewrite !combined_fold_ints.
  - destruct tc as [tiles box vid part mode w h tw th hw ho ic hi]. cbn in *.
    generalize comma_list. intros cl.
    destruct (Z.eqb_spec mode 0) as [->|]; destruct hw, ho, hi; vm_compute; done.
  - repeat (apply Forall_cons_2; [int_arg_goal|]). apply Forall_nil_2.
  - repeat (apply Forall_cons_2; [int_arg_goal|]). apply Forall_nil_2.
  - case_match; repeat (apply Forall_cons_2; [int_arg_goal|]); apply Forall_nil_2.
Qed.

(** ** What a parsed message holds *)

(** The tiles of a message: valid, in range, without preview ids and with the
    parameters of the message. *)
Definition message_tile (tc : TileCombined) (t : TileDesc) : Prop :=
  queue_tile t /\ _id t = -1 /\ _canonicalViewId t = tc_canonicalViewId tc /\ _part t = tc_part tc /\
  _mode t = tc_mode tc /\ _width t = tc_width tc /\ _height t = tc_height tc /\
  _tileWidth t = tc_tileWidth tc /\ _tileHeight t = tc_tileHeight tc.

Lemma stringToInteger_i32 s v b : stringToInteger s = (v, b) -> is_i32 v.
Proof. unfold stringToInteger, i32FromString. intros [= <- _]. apply i32_range. Qed.

Lemma read_pos_i32 tokens i v : read_pos tokens i = Ok v -> is_i32 v.
Proof.
  unfold read_pos. destruct (stringToInteger _) as [x b] eqn:E. destruct b; [|done].
  intros [= <-]. by eapply stringToInteger_i32.
Qed.

Lemma read_version_i32 tokens i v : read_version tokens i = Ok v -> is_i32 v.
Proof.
  unfold read_version. destruct (_ && _); [|intros [= <-]; by_decide].
  destruct (stringToInteger _) as [x b] eqn:E. destruct b; [|done].
  intros [= <-]. by eapply stringToInteger_i32.
Qed.

Lemma read_wid_u32 tokens i v : read_wid tokens i = Ok v -> is_u32 v.
Proof.
  unfold read_wid. destruct (sv_empty tokens); [intros [= <-]; by_decide|].
  unfold stringToUInt32. destruct (i32FromString _) as [x b]. destruct b; [|done].
  intros [= <-]. apply u32_range.
Qed.

Lemma add_tile_inv c tc i tc' :
  add_tile c tc i = Ok tc' ->
  exists t, tc_tiles tc' = tc_tiles tc ++ [t] /\ message_tile tc' t /\
    (forall u, message_tile tc u <-> message_tile tc' u) /\
    tc_canonicalViewId tc' = tc_canonicalViewId tc.
Proof.
  unfold add_tile. intros H.
  apply rbind_ok in H as (x & Hx & H). apply rbind_ok in H as (y & Hy & H).
  apply rbind_ok in H as (img & Himg & H). apply rbind_ok in H as (ver & Hver & H).
  apply rbind_ok in H as (o & Ho & H). apply rbind_ok in H as (w & Hw & H).
  apply rbind_ok in H as (t & Ht & H). injection H as <-.
  unfold TileDesc_new in Ht. destruct (tile_args_invalid _ _ _ _ _ _ _ _ _ _) eqn:E; [done|].
  injection Ht as <-. eexists. split; [done|]. split; [|done].
  split; [|done]. constructor; cbn.
  - exact E.
  - by eapply read_pos_i32.
  - by eapply read_pos_i32.
  - by eapply read_version_i32.
  - by eapply read_wid_u32.
  - by eapply read_wid_u32.
Qed.

Lemma add_tiles_inv c idx tc tc' :
  add_tiles c tc idx = Ok tc' -> Forall (message_tile tc) (tc_tiles tc) ->
  Forall (message_tile tc') (tc_tiles tc') /\ length (tc_tiles tc') = (length (tc_tiles tc) + length idx)%nat.
Proof.
  revert tc. induction idx as [|i idx IH]; intros tc; simpl.
  - intros [= ->] Hf. split; [done|lia].
  - intros H Hf. apply rbind_ok in H as (tc1 & H1 & H2).
    apply add_tile_inv in H1 as (t & Ht & Hm & Hmm & _). apply IH in H2 as [H2 H3].
    + split; [done|]. rewrite H3, Ht, length_app. simpl. lia.
    + rewrite Ht. apply Forall_app_2; [|by apply Forall_singleton]. eapply Forall_impl; [exact Hf|].
      intros u. apply Hmm.
Qed.

Lemma tc_parse_inv message tc : tc_parse message = Ok tc -> Forall (message_tile tc) (tc_tiles tc).
Proof.
  unfold tc_parse, tc_parse_tokens, TileCombined_new. generalize (fold_left combined_token
    (sv_strings (tokenize_data message chr_space)) combined_init). intros st.
  destruct (_ || _ || _ || _ || _ || _); [done|]. destruct (_ || _ || _ || _ || _); [done|].
  intros H. by apply add_tiles_inv in H as [? _].
Qed.

Lemma add_tile_throw c tc i e : add_tile c tc i = Throw e -> e = BadArgumentException.
Proof.
  unfold add_tile, rbind, read_pos, read_int, read_version, read_wid, TileDesc_new.
  repeat case_match; congruence.
Qed.

Lemma add_tiles_throw c tc idx e : add_tiles c tc idx = Throw e -> e = BadArgumentException.
Proof.
  revert tc. induction idx as [|i idx IH]; intros tc; simpl; [done|].
  destruct (add_tile c tc i) as [tc'|e'] eqn:E; simpl; [apply IH|]. intros [= <-]. by eapply add_tile_throw.
Qed.

(** Fact (error): whatever bytes it is given, [TileCombined::parse] fails with
    [BadArgumentException] or returns an object all of whose tiles are valid, fit
    their C++ types, carry no preview id and share the object's view, part, mode
    and sizes. *)
Theorem tc_parse_validates message :
  match tc_parse message with
  | Ok tc => Forall (message_tile tc) (tc_tiles tc)
  | Throw e => e = BadArgumentException
  end.
Proof.
  destruct (tc_parse message) as [tc|e] eqn:E; [by apply (tc_parse_inv message)|].
  revert E. unfold tc_parse, tc_parse_tokens, TileCombined_new.
  generalize (fold_left combined_token (sv_strings (tokenize_data message chr_space)) combined_init). intros st.
  destruct (_ || _ || _ || _ || _ || _); [congruence|]. destruct (_ || _ || _ || _ || _); [congruence|].
  generalize (seq 0 (sv_size (positionXtokens {|
    positionXtokens := tokenize (cs_x st) chr_comma; positionYtokens := tokenize (cs_y st) chr_comma;
    imgSizeTokens := tokenize (cs_img st) chr_comma; verTokens := tokenize (cs_ver st) chr_comma;
    oldWireIdTokens := tokenize (cs_old st) chr_comma; wireIdTokens := tokenize (cs_wid st) chr_comma |}))).
  intros idx. apply add_tiles_throw.
Qed.

(** ** Main theorems *)

Lemma existsb_false_Forall (f : TileDesc -> Z) ts :
  existsb (fun t => negb (f t =? 0)) ts = false -> Forall (fun v => v = 0) (map f ts).
Proof.
  induction ts as [|t ts IH]; simpl; [constructor|]. rewrite orb_false_iff, negb_false_iff, Z.eqb_eq.
  intros [H1 H2]. constructor; auto.
Qed.

Lemma opt_column_written (f : TileDesc -> Z) ts b :
  b = existsb (fun t => negb (f t =? 0)) ts ->
  opt_column (if b then comma_list (map f ts) else []) (map f ts).
Proof.
  intros Hb. destruct b; [left; apply comma_list_column|]. right. split; [done|].
  by apply existsb_false_Forall.
Qed.

(** Fact (roundtrip): a [tilecombine] message survives the wire: for tiles that share
    the parameters of [p], [TileCombined::parse] of [TileCombined::serialize]
    rebuilds the object, with every tile, its bounding box and its flags. *)
Theorem tc_parse_serialize p ts prefix :
  params_valid p -> params_i32 p -> Forall (combined_tile p) ts -> wire_prefix prefix ->
  tc_parse (tc_serialize (combined_of p ts) prefix []) = Ok (combined_of p ts).
Proof.
  intros Hp Hi Hts (Hpl & Heq & Hn). unfold tc_parse, tc_parse_tokens.
  rewrite tc_serialize_tokens, tokenize_data_strings; [|done|by destruct prefix; [destruct Hpl|]].
  rewrite tokens_spec_join by (done || apply combined_tokens_plain). cbn [fold_left].
  rewrite combined_token_prefix, combined_fold by done. cbn.
  apply (TileCombined_new_spec p ts); try done; try apply comma_list_column;
    by apply opt_column_written.
Qed.

Definition sample_tile2 : TileDesc :=
  {| _canonicalViewId := 1000; _part := 2; _mode := 1; _width := 256; _height := 256;
     _tilePosX := 7680; _tilePosY := 7680; _tileWidth := 3840; _tileHeight := 3840; _ver := 18;
     _imgSize := 0; _id := -1; _oldWireId := 0; _wireId := 43 |}.

Lemma sample_combined : Forall (combined_tile sample_tile) [sample_tile; sample_tile2].
Proof. repeat constructor; by_decide. Defined.

Lemma tc_parse_serialize_witness :
  tc_parse (tc_serialize (combined_of sample_tile [sample_tile; sample_tile2]) (str "tilecombine") [])
  = Ok (combined_of sample_tile [sample_tile; sample_tile2]).
Proof.
  apply (tc_parse_serialize sample_tile [sample_tile; sample_tile2] (str "tilecombine"));
    [by_decide|unfold params_i32; by_decide|apply sample_combined|].
  split; [split; [done|by_decide]|]. split; [unfold no_eq; by_decide|done].
Defined.

(** Fact (functional): [TileCombined::create] accepts every non-empty list of valid
    tiles with common combine parameters; the result holds exactly those tiles, in
    order, with their versions and wire ids (image size and preview id reset), and
    its box contains every one of them. *)
Theorem create_keeps_tiles p ts :
  Forall queue_tile (p :: ts) -> Forall (fun t => sameTileCombineParams p t = true) ts ->
  exists tc, create (p :: ts) = Ok tc /\ tc_tiles tc = map drop_img_id (p :: ts) /\
    tc_isCombined tc = true /\
    Forall (fun t => rect_contains (tc_aabbox tc) (toAABBox t) = true) (tc_tiles tc).
Proof.
  intros Hq Hs. exists (combined_of p (map drop_img_id (p :: ts))).
  split; [by apply create_spec|]. split_and!; [done|done|]. cbn [tc_aabbox tc_tiles combined_of].
  unfold bounding. rewrite <- (Forall_map toAABBox (fun r => rect_contains _ r = true)).
  apply fold_extend_contains.
Qed.

Lemma create_keeps_tiles_witness :
  exists tc, create [sample_tile; sample_tile2] = Ok tc /\
    tc_tiles tc = map drop_img_id [sample_tile; sample_tile2] /\ tc_isCombined tc = true /\
    Forall (fun t => rect_contains (tc_aabbox tc) (toAABBox t) = true) (tc_tiles tc).
Proof. apply (create_keeps_tiles sample_tile [sample_tile2]); by_decide. Defined.
