(* ===== verification/TileQueue.v ===== *)
(** * The tile queues of [KitQueue]

    Models the tile half of [kit/KitQueue.hpp] and [kit/KitQueue.cpp]: one
    sorted queue per canonical view, insertion with deduplication, the choice
    of the tile to render next and the greedy combination of its neighbours
    into one [TileCombined]. *)

From S2P Require Import Prelude Algo Util StringVector Protocol Rectangle TileDesc TileCombined.

Open Scope cool_scope.

(** ** The interface to the session layer *)

(** [enum class Priority : std::int8_t], as its value. *)
Definition Priority_NONE : Z := -1.
Definition Priority_LOWEST : Z := 0.
Definition Priority_LOW : Z := 1.
Definition Priority_NORMAL : Z := 2.
Definition Priority_HIGH : Z := 3.
Definition Priority_VERYHIGH : Z := 4.
Definition Priority_ULTRAHIGH : Z := 5.

(** The abstract class [TilePrioritizer]; only the view ids of the second
    method's pairs are read. *)
Class TilePrioritizer := {
  getTilePriority : TileDesc -> Z;
  getViewIdsByInactivity : list Z }.

(** The default implementations of the base class. *)
Definition default_prioritizer : TilePrioritizer :=
  {| getTilePriority := fun _ => Priority_NORMAL; getViewIdsByInactivity := [] |}.

(** ** Helpers of the anonymous namespace *)

Definition allowCombine (a b : TileDesc) : bool :=
  if isPreview a || isPreview b then false else sameTileCombineParams a b.

Definition allowCombineIfRow (prioTile : TileDesc) (tilePosY : Z) (candidate : TileDesc) : bool :=
  (tilePosY =? _tilePosY candidate) && allowCombine prioTile candidate.

Definition sortedInsert (tileQueue : list TileDesc) (tile : TileDesc) : list TileDesc :=
  let it := lower_bound (fun x => tile_lt x tile) tileQueue in
  match tileQueue !! it with
  | Some d => if tile_eq tile d then <[it := tile]> tileQueue
              else take it tileQueue ++ tile :: drop it tileQueue
  | None => take it tileQueue ++ tile :: drop it tileQueue
  end.

Definition maxCombinedGridSpan : Z := 16.

(** The column of a tile: an [int] division. *)
Definition gridX_of (t : TileDesc) (tileWidth : Z) : Z := Z.quot (_tilePosX t) tileWidth.

(** The variables of the loop of [combineHoriAround]. *)
Record hori := {
  h_leftGridX : Z;
  h_rightGridX : Z;
  h_leftTile : Z;
  h_rightTile : Z;
  h_dest : list TileDesc }.

(** [tileQueue[leftTile]], when it can be combined. *)
Definition combineLeft (prioTile : TileDesc) (tileQueue : list TileDesc) (h : hori) : option TileDesc :=
  if -1 <? h_leftTile h then
    match tileQueue !! Z.to_nat (h_leftTile h) with
    | Some t => if allowCombineIfRow prioTile (_tilePosY prioTile) t then Some t else None
    | None => None
    end
  else None.

Definition combineRight (prioTile : TileDesc) (tileQueue : list TileDesc) (h : hori) : option TileDesc :=
  if u32 (h_rightTile h) <? Z.of_nat (length tileQueue) then
    match tileQueue !! Z.to_nat (h_rightTile h) with
    | Some t => if allowCombineIfRow prioTile (_tilePosY prioTile) t then Some t else None
    | None => None
    end
  else None.

(** One round: [None] when the loop breaks; [Some None] when the code reads
    [tileQueue] out of range. *)
Definition hori_step (prioTile : TileDesc) (prioGridPos : Z) (tileQueue : list TileDesc) (h : hori)
    : option (option hori) :=
  let tileWidth := _tileWidth prioTile in
  let left := combineLeft prioTile tileQueue h in
  let right := combineRight prioTile tileQueue h in
  match left, right with
  | None, None => None
  | _, _ =>
      let leftProposedGridX := match left with Some t => gridX_of t tileWidth | None => h_leftGridX h end in
      let leftGridDistance := match left with Some _ => prioGridPos - leftProposedGridX | None => INT_MAX end in
      let rightProposedGridX := match right with Some t => gridX_of t tileWidth | None => h_rightGridX h end in
      let rightGridDistance := match right with Some _ => rightProposedGridX - prioGridPos | None => INT_MAX end in
      if leftGridDistance <? rightGridDistance then
        if maxCombinedGridSpan <=? h_rightGridX h - leftProposedGridX then None
        else Some match left with
          | Some t => Some {| h_leftGridX := leftProposedGridX; h_rightGridX := h_rightGridX h;
                              h_leftTile := h_leftTile h - 1; h_rightTile := h_rightTile h;
                              h_dest := sortedInsert (h_dest h) t |}
          | None => None
          end
      else
        if maxCombinedGridSpan <=? rightProposedGridX - h_leftGridX h then None
        else Some match tileQueue !! Z.to_nat (h_rightTile h) with
          | Some t => Some {| h_leftGridX := h_leftGridX h; h_rightGridX := rightProposedGridX;
                              h_leftTile := h_leftTile h; h_rightTile := h_rightTile h + 1;
                              h_dest := sortedInsert (h_dest h) t |}
          | None => None
          end
  end.

(** Every round moves one of the two indices outwards: [length tileQueue]
    rounds are enough. *)
Fixpoint hori_loop (fuel : nat) (prioTile : TileDesc) (prioGridPos : Z) (tileQueue : list TileDesc)
    (h : hori) : option hori :=
  match fuel with
  | O => None
  | S fuel' =>
      match hori_step prioTile prioGridPos tileQueue h with
      | None => Some h
      | Some None => None
      | Some (Some h') => hori_loop fuel' prioTile prioGridPos tileQueue h'
      end
  end.

(** [combineHoriAround]: the queue without the combined tiles, the render list
    and the grid range; [None] when a tile is read out of range. *)
Definition combineHoriAround (tileQueue destTiles : list TileDesc) (tilePos : nat)
    : option (list TileDesc * list TileDesc * Z * Z) :=
  match tileQueue !! tilePos with
  | None => None
  | Some prioTile =>
      let prioGridPos := gridX_of prioTile (_tileWidth prioTile) in
      match hori_loop (S (length tileQueue)) prioTile prioGridPos tileQueue
              {| h_leftGridX := prioGridPos; h_rightGridX := prioGridPos;
                 h_leftTile := Z.of_nat tilePos - 1; h_rightTile := Z.of_nat tilePos + 1;
                 h_dest := destTiles |} with
      | None => None
      | Some h => Some (take (Z.to_nat (h_leftTile h + 1)) tileQueue ++ drop (Z.to_nat (h_rightTile h)) tileQueue,
                        h_dest h, h_leftGridX h, h_rightGridX h)
      end
  end.

(** [SpeculativeTileDesc] and its [operator<]. *)
Record SpeculativeTileDesc := { sp_prioTile : TileDesc; sp_tilePosX : Z; sp_tilePosY : Z }.
Definition SpeculativeTileDesc_new (prioTile : TileDesc) (leftGridX vertDirection : Z) : SpeculativeTileDesc :=
  {| sp_prioTile := prioTile;
     sp_tilePosX := i32 (leftGridX * _tileWidth prioTile);
     sp_tilePosY := i32 (_tilePosY prioTile + _tileHeight prioTile * vertDirection) |}.
Definition lt_speculative (candidate : TileDesc) (other : SpeculativeTileDesc) : bool :=
  compareAsAtTilePos candidate (sp_prioTile other) (sp_tilePosX other) (sp_tilePosY other).

(** The loop of [combineVerticalTiles] from [it] on: what stays in the queue
    and the render list. *)
Fixpoint vert_loop (prioTile : TileDesc) (tilePosY leftGridX rightGridX : Z)
    (suffix destTiles : list TileDesc) : list TileDesc * list TileDesc :=
  match suffix with
  | [] => ([], destTiles)
  | t :: rest =>
      if negb (allowCombineIfRow prioTile tilePosY t) then (suffix, destTiles)
      else
        let gridX := gridX_of t (_tileWidth t) in
        if (leftGridX <=? gridX) && (gridX <=? rightGridX) then
          vert_loop prioTile tilePosY leftGridX rightGridX rest (sortedInsert destTiles t)
        else
          let '(kept, dest) := vert_loop prioTile tilePosY leftGridX rightGridX rest destTiles in
          (t :: kept, dest)
  end.

Definition combineVerticalTiles (tileQueue destTiles : list TileDesc) (prioTile : TileDesc)
    (leftGridX rightGridX vertDirection : Z) : list TileDesc * list TileDesc :=
  let anchorTile := SpeculativeTileDesc_new prioTile leftGridX vertDirection in
  let it := lower_bound (fun t => lt_speculative t anchorTile) tileQueue in
  let '(kept, dest) :=
    vert_loop prioTile (sp_tilePosY anchorTile) leftGridX rightGridX (drop it tileQueue) destTiles in
  (take it tileQueue ++ kept, dest).

(** Widening the range to the whole span before looking at other rows. *)
Definition widen (leftGridX rightGridX : Z) : Z * Z :=
  let gridSpan := rightGridX - leftGridX in
  if gridSpan <? maxCombinedGridSpan then
    let availSpans := maxCombinedGridSpan - gridSpan in
    let leftExpand := Z.min leftGridX (Z.quot availSpans 2) in
    let rightExpand := availSpans - leftExpand in
    (leftGridX - leftExpand, i32 (rightGridX + rightExpand))
  else (leftGridX, rightGridX).

(** ** Popping *)

Section prioritizer.
Context `{TilePrioritizer}.

(** The scan for the first tile of highest priority, from index [i] on. *)
Fixpoint scan_priority (rest : list TileDesc) (i : nat) (best : nat * Z) : nat * Z :=
  match rest with
  | [] => best
  | t :: rest' =>
      let p := getTilePriority t in
      scan_priority rest' (S i) (if best.2 <? p then (i, p) else best)
  end.

(** What [popTileQueue(tileQueue, priority)] takes out of the queue: the
    render list, the remaining queue and the priority. *)
Definition pop_tiles (tileQueue : list TileDesc) : option (list TileDesc * list TileDesc * Z) :=
  match tileQueue with
  | [] => None (* [assert(!tileQueue.empty())] *)
  | t0 :: rest =>
      let '(prioritized, priority) := scan_priority rest 1 (0%nat, getTilePriority t0) in
      match tileQueue !! prioritized with
      | None => None
      | Some msg =>
          if isPreview msg then Some ([msg], delete prioritized tileQueue, priority)
          else
            match combineHoriAround tileQueue [msg] prioritized with
            | None => None
            | Some (queue, tiles, leftGridX, rightGridX) =>
                let '(leftGridX, rightGridX) := widen leftGridX rightGridX in
                let '(queue, tiles) := combineVerticalTiles queue tiles msg leftGridX rightGridX (-1) in
                let '(queue, tiles) := combineVerticalTiles queue tiles msg leftGridX rightGridX 1 in
                Some (tiles, queue, priority)
            end
      end
  end.

(** The message made from the render list. *)
Definition combine_result (tiles : list TileDesc) : result TileCombined :=
  match tiles with
  | [t] => Ok (TileCombined_of t)
  | _ => create tiles
  end.

Definition popTileQueue1 (tileQueue : list TileDesc)
    : option (result TileCombined * list TileDesc * Z) :=
  match pop_tiles tileQueue with
  | Some (tiles, queue, priority) => Some (combine_result tiles, queue, priority)
  | None => None
  end.

(** ** The queues per view *)

Definition viewTileQueues : Type := list (Z * list TileDesc).

(** [ensureTileQueue(viewid)] followed by an update of the queue it returns. *)
Fixpoint ensureTileQueue (viewid : Z) (f : list TileDesc -> list TileDesc) (qs : viewTileQueues)
    : viewTileQueues :=
  match qs with
  | [] => [(viewid, f [])]
  | (v, q) :: qs' => if v =? viewid then (v, f q) :: qs' else (v, q) :: ensureTileQueue viewid f qs'
  end.

Definition pushTileQueue (qs : viewTileQueues) (value : bytes) : result viewTileQueues :=
  try desc <- parse value;
  Ok (ensureTileQueue (_canonicalViewId desc) (fun q => sortedInsert q desc) qs).

Definition pushTileCombineRequest (qs : viewTileQueues) (value : bytes) : result viewTileQueues :=
  try tc <- tc_parse value;
  Ok (ensureTileQueue (tc_canonicalViewId tc) (fun q => fold_left sortedInsert (tc_tiles tc) q) qs).

Definition getTileQueueSize (qs : viewTileQueues) : nat := list_sum (map (fun q => length q.2) qs).
Definition isTileQueueEmpty (qs : viewTileQueues) : bool :=
  forallb (fun q => bool_decide (q.2 = [])) qs.
Definition clearTileQueue (qs : viewTileQueues) : viewTileQueues := [].

(** The queue of the least inactive view that has tiles. *)
Fixpoint select_by_view (viewIds : list Z) (qs : viewTileQueues) : option nat :=
  match viewIds with
  | [] => None
  | v :: vs =>
      match find_if (fun q : Z * list TileDesc => (v =? q.1) && negb (bool_decide (q.2 = []))) qs with
      | Some i => Some i
      | None => select_by_view vs qs
      end
  end.

Definition select_queue (qs : viewTileQueues) : option nat :=
  match select_by_view getViewIdsByInactivity qs with
  | Some i => Some i
  | None => find_if (fun q : Z * list TileDesc => negb (bool_decide (q.2 = []))) qs
  end.

(** [popTileQueue(priority)]; [None] when an assertion fails or a tile is
    read out of range. *)
Definition popTileQueue (qs : viewTileQueues) : option (result TileCombined * viewTileQueues * Z) :=
  match select_queue qs with
  | None => None
  | Some i =>
      match qs !! i with
      | None => None
      | Some (v, q) =>
          match popTileQueue1 q with
          | None => None
          | Some (res, q', priority) => Some (res, <[i := (v, q')]> qs, priority)
          end
      end
  end.
End prioritizer.

(** ** Keys *)

(** The tuple the order compares, and its part before the column position. *)
Definition tkey (t : TileDesc) : list Z := order_key t (_tilePosX t) (_tilePosY t).
Definition row_key (t : TileDesc) (y : Z) : list Z :=
  [_canonicalViewId t; _id t; _mode t; _part t; _height t; _width t; _tileHeight t; _tileWidth t; y].

Lemma tkey_row t : tkey t = row_key t (_tilePosY t) ++ [_tilePosX t].
Proof. done. Qed.

Lemma tile_lt_key a b : tile_lt a b = lex_lt (tkey a) (tkey b).
Proof. done. Qed.

Lemma lex_lt_common p a b : lex_lt (p ++ [a]) (p ++ [b]) = (a <? b).
Proof.
  induction p as [|x p IH]; simpl.
  - by rewrite andb_false_r, orb_false_r.
  - by rewrite Z.ltb_irrefl, Z.eqb_refl.
Qed.

(** A key between two keys of one row is in that row. *)
Lemma lex_between p a b k :
  length k = S (length p) -> lex_lt k (p ++ [a]) = false -> lex_lt k (p ++ [b]) = true ->
  exists x, k = p ++ [x] /\ a <= x < b.
Proof.
  revert k. induction p as [|y p IH]; intros [|z k] Hl; try done; simpl in Hl.
  - destruct k; [|done]. simpl. rewrite !andb_false_r, !orb_false_r, Z.ltb_ge, Z.ltb_lt.
    intros ??. by exists z.
  - simpl. rewrite orb_false_iff, andb_false_iff, orb_true_iff, andb_true_iff, Z.ltb_ge, !Z.ltb_lt, Z.eqb_neq, Z.eqb_eq.
    intros [H1 H2] [H3|[-> H4]]; [lia|]. destruct H2 as [H2|H2]; [done|].
    destruct (IH k) as (x & -> & Hx); [lia|done..|]. by exists x.
Qed.

Notation tsorted := (ssorted tile_lt).

Lemma tsorted_NoDup q : tsorted q -> NoDup (map tkey q).
Proof.
  unfold ssorted. induction 1 as [|t q Hs IH Ht]; simpl; constructor; [|done].
  rewrite list_elem_of_fmap. intros (u & Hk & Hu). rewrite Forall_forall in Ht.
  specialize (Ht u Hu). simpl in Ht. rewrite tile_lt_key, Hk, lex_lt_irrefl in Ht. done.
Qed.

Lemma key_fresh t l : NoDup (map tkey (t :: l)) -> Forall (fun x => tile_eq t x = false) l.
Proof.
  simpl. rewrite NoDup_cons. intros [Hn _]. rewrite Forall_forall. intros x Hx.
  destruct (tile_eq t x) eqn:E; [|done]. apply tile_eq_key in E. exfalso. apply Hn.
  rewrite list_elem_of_fmap. by exists x.
Qed.

Lemma tsorted_sublist a b : sublist a b -> tsorted b -> tsorted a.
Proof.
  unfold ssorted. induction 1 as [|x a b Hs IH|x a b Hs IH]; [done| |].
  - inversion 1 as [|?? Hb Hf]; subst. constructor; [auto|].
    rewrite Forall_forall in *. intros y Hy. apply Hf. by eapply elem_of_sublist.
  - inversion 1; subst. auto.
Qed.

(** ** [sortedInsert] *)

Lemma sortedInsert_split q t :
  tsorted q ->
  exists l1 l2, sortedInsert q t = l1 ++ t :: l2 /\ tsorted (l1 ++ t :: l2) /\
    ((q = l1 ++ l2 /\ Forall (fun x => tile_eq t x = false) q) \/
     (exists d, q = l1 ++ d :: l2 /\ tile_eq t d = true)).
Proof.
  intros Hs. destruct (ssorted_split tile_lt (fun x => tile_lt x t) q Hs) as (l1 & l2 & -> & H1 & H2).
  { intros x y Hxy Hy. by eapply tile_lt_trans. }
  unfold sortedInsert. rewrite lower_bound_app by done. rewrite lookup_app_r, Nat.sub_diag by done.
  apply ssorted_app in Hs as (Hs1 & Hs2 & Hs12). rewrite Forall_forall in H1.
  destruct l2 as [|d l2]; simpl.
  - exists l1, []. rewrite app_nil_r, take_ge, drop_ge by done. split; [done|]. split.
    + apply ssorted_app. split_and!; [done|by repeat constructor|].
      intros x y Hx Hy. apply list_elem_of_singleton in Hy as ->. auto.
    + left. split; [done|]. rewrite Forall_forall. intros x Hx. rewrite tile_eq_sym.
      by apply tile_lt_not_eq, H1.
  - rewrite Forall_cons in H2. destruct H2 as [Hd H2]. inversion Hs2 as [|?? Hs2' Hdl]; subst.
    rewrite take_app_length, drop_app_length. destruct (tile_eq t d) eqn:Heq.
    + exists l1, l2. rewrite insert_app_r_alt, Nat.sub_diag by lia. simpl. split; [done|]. split; [|right; by exists d].
      apply ssorted_app. split_and!; [done| |].
      * constructor; [done|]. eapply Forall_impl; [exact Hdl|]. simpl. intros x Hx.
        by rewrite (tile_eq_lt_l _ _ _ Heq).
      * intros x y Hx [->|Hy]%elem_of_cons; [auto|]. apply Hs12; [done|by right].
    + assert (Htd : tile_lt t d = true).
      { destruct (tile_lt t d) eqn:E; [done|]. by rewrite (tile_trichotomy t d E Hd) in Heq. }
      exists l1, (d :: l2). split; [done|]. split.
      * apply ssorted_app. split_and!; [done| |].
        -- constructor; [done|]. constructor; [done|]. eapply Forall_impl; [exact Hdl|]. simpl.
           intros x Hx. by eapply tile_lt_trans.
        -- intros x y Hx [->|Hy]%elem_of_cons; [auto|]. by apply Hs12.
      * left. split; [done|]. rewrite Forall_forall. intros x [Hx|Hx]%elem_of_app.
        -- rewrite tile_eq_sym. by apply tile_lt_not_eq, H1.
        -- apply elem_of_cons in Hx as [->|Hx]; [done|]. apply tile_lt_not_eq.
           rewrite Forall_forall in Hdl. eapply tile_lt_trans; [done|]. by apply Hdl.
Qed.

Lemma sortedInsert_sorted q t : tsorted q -> tsorted (sortedInsert q t).
Proof. intros H. by destruct (sortedInsert_split q t H) as (l1 & l2 & -> & Hs & _). Qed.

Lemma sortedInsert_elem q t x :
  tsorted q -> x ∈ sortedInsert q t <-> x = t \/ (x ∈ q /\ tile_eq t x = false).
Proof.
  intros Hq. destruct (sortedInsert_split q t Hq) as (l1 & l2 & -> & Hs & [[-> Hf]|(d & -> & Hd)]).
  - rewrite !elem_of_app, elem_of_cons. rewrite Forall_forall in Hf. split; [|naive_solver].
    intros [Hx|[->|Hx]]; [right|by left|right]; (split; [naive_solver|]); apply Hf; set_solver.
  - assert (Hn : Forall (fun x => tile_eq t x = false) (l1 ++ l2)).
    { apply key_fresh. eapply (NoDup_Permutation_proper _ (map tkey (l1 ++ t :: l2)));
        [|by apply tsorted_NoDup]. apply fmap_Permutation. by rewrite Permutation_middle. }
    rewrite Forall_forall in Hn. rewrite !elem_of_app, !elem_of_cons. split.
    + intros [Hx|[->|Hx]]; [right|by left|right]; (split; [naive_solver|]); apply Hn; set_solver.
    + intros [->|[[Hx|[->|Hx]] He]]; [naive_solver|naive_solver|congruence|naive_solver].
Qed.

Lemma sortedInsert_fresh q t :
  tsorted q -> Forall (fun x => tile_eq t x = false) q -> Permutation (sortedInsert q t) (t :: q).
Proof.
  intros Hq Hf. destruct (sortedInsert_split q t Hq) as (l1 & l2 & -> & Hs & [[-> _]|(d & -> & Hd)]).
  - by rewrite Permutation_middle.
  - rewrite Forall_forall in Hf. rewrite Hf in Hd; [done|set_solver].
Qed.

(** ** Rows *)

(** Well-formed queue entries: a valid tile with fields of their width, an id
    that is a preview id or [-1], and a position that leaves room for a grid span below
    [INT_MAX]. *)
Record tile_ok (t : TileDesc) : Prop := {
  tok_queue : queue_tile t;
  tok_id : -1 <= _id t;
  tok_pos : _tilePosX t < INT_MAX - maxCombinedGridSpan }.

Lemma tile_ok_iff t : tile_ok t <-> queue_tile t /\ -1 <= _id t /\ _tilePosX t < INT_MAX - maxCombinedGridSpan.
Proof. split; [by intros []|]. intros (?&?&?). by constructor. Qed.

#[global] Instance tile_ok_dec t : Decision (tile_ok t).
Proof.
  destruct (decide (queue_tile t /\ -1 <= _id t /\ _tilePosX t < INT_MAX - maxCombinedGridSpan)) as [H|H].
  - left. by apply tile_ok_iff.
  - right. by rewrite tile_ok_iff.
Defined.

Lemma tile_ok_geom t : tile_ok t -> 0 <= _tilePosX t /\ 0 <= _tilePosY t /\ 0 < _tileWidth t /\ 0 < _tileHeight t.
Proof.
  intros [[Hv _ _ _ _ _] _ _]. unfold tile_valid, tile_args_invalid in Hv. rewrite !orb_false_iff in Hv.
  destruct_and! Hv. bool_hyps. lia.
Qed.

Notation in_row prio y t := (allowCombineIfRow prio y t = true).

Lemma in_row_key prio y t :
  -1 <= _id prio -> -1 <= _id t -> in_row prio y t -> tkey t = row_key prio y ++ [_tilePosX t].
Proof.
  unfold allowCombineIfRow, allowCombine, isPreview. intros Hp Ht.
  destruct (Z.leb_spec 0 (_id prio)), (Z.leb_spec 0 (_id t)); simpl; rewrite ?andb_false_r; try done.
  rewrite andb_true_iff, Z.eqb_eq. intros [Hy Hs%same_params_fields]. destruct_and! Hs.
  rewrite tkey_row. unfold row_key. assert (_id t = _id prio) by lia. simpl. congruence.
Qed.

Lemma key_in_row prio y t :
  isPreview prio = false -> tkey t = row_key prio y ++ [_tilePosX t] -> in_row prio y t.
Proof.
  rewrite tkey_row. unfold row_key, allowCombineIfRow, allowCombine, isPreview, sameTileCombineParams, same_size_params.
  intros Hp [=]. simplify_eq. replace (0 <=? _id t) with false by (symmetry; congruence).
  rewrite Hp. simpl.
  repeat match goal with H : _ t = _ |- _ => rewrite H; clear H end. by rewrite !Z.eqb_refl.
Qed.

Lemma in_row_lt prio y a b :
  -1 <= _id prio -> tile_ok a -> tile_ok b -> in_row prio y a -> in_row prio y b ->
  tile_lt a b = true -> _tilePosX a < _tilePosX b.
Proof.
  intros Hp Ha Hb Hra Hrb. rewrite tile_lt_key, (in_row_key prio y a), (in_row_key prio y b), lex_lt_common
    by (done || apply Ha || apply Hb). by rewrite Z.ltb_lt.
Qed.

Lemma in_row_width prio y t : in_row prio y t -> _tileWidth t = _tileWidth prio /\ isPreview t = false.
Proof.
  unfold allowCombineIfRow, allowCombine. destruct (isPreview prio || isPreview t) eqn:E;
    [by rewrite andb_false_r|]. rewrite andb_true_iff. intros [_ Hs%same_params_fields].
  apply orb_false_iff in E. naive_solver.
Qed.

Lemma in_row_self prio : isPreview prio = false -> in_row prio (_tilePosY prio) prio.
Proof. intros Hp. by apply key_in_row. Qed.

Lemma gridX_mono a b w : 0 < w -> 0 <= _tilePosX a <= _tilePosX b -> gridX_of a w <= gridX_of b w.
Proof. intros Hw H. unfold gridX_of. rewrite !Z.quot_div_nonneg by lia. apply Z.div_le_mono; lia. Qed.

Lemma gridX_bounds t w : 0 < w -> 0 <= _tilePosX t -> 0 <= gridX_of t w <= _tilePosX t.
Proof.
  intros Hw H. unfold gridX_of. rewrite Z.quot_div_nonneg by lia.
  split; [by apply Z.div_pos|]. apply Z.div_le_upper_bound; nia.
Qed.

(** ** Segments of the queue *)

Definition seg (q : list TileDesc) (a b : nat) : list TileDesc := take (b - a) (drop a q).

Lemma seg_snoc q a b t : (a <= b)%nat -> q !! b = Some t -> seg q a (S b) = seg q a b ++ [t].
Proof.
  intros Hab Hb. unfold seg. replace (S b - a)%nat with (S (b - a)) by lia.
  erewrite take_S_r; [done|]. rewrite lookup_drop. by replace (a + (b - a))%nat with b by lia.
Qed.

Lemma seg_cons q a b t : (S a <= b)%nat -> q !! a = Some t -> seg q a b = t :: seg q (S a) b.
Proof.
  intros Hab Ha. unfold seg. rewrite (drop_S _ _ _ Ha).
  by replace (b - a)%nat with (S (b - S a)) by lia.
Qed.

Lemma seg_split q a b : (a <= b)%nat -> q = take a q ++ seg q a b ++ drop b q.
Proof.
  intros Hab. unfold seg. rewrite <- (take_drop a q) at 1. f_equal.
  rewrite <- (take_drop (b - a) (drop a q)) at 1. f_equal. rewrite drop_drop. f_equal. lia.
Qed.

Lemma sorted_lookup q i j a b :
  tsorted q -> (i < j)%nat -> q !! i = Some a -> q !! j = Some b -> tile_lt a b = true.
Proof. apply ssorted_lookup_lt. Qed.

(** A queue element outside a segment differs from everything in it. *)
Lemma seg_fresh q a b i t d :
  tsorted q -> (a <= b)%nat -> (i < a \/ b <= i)%nat -> q !! i = Some t -> Permutation d (seg q a b) ->
  Forall (fun x => tile_eq t x = false) d.
Proof.
  intros Hs Hab Hi Ht Hd. rewrite Hd. unfold seg. rewrite Forall_lookup. intros j x Hx.
  apply lookup_take_Some in Hx as [Hx Hj]. rewrite lookup_drop in Hx.
  destruct Hi.
  - apply tile_lt_not_eq. eapply (sorted_lookup q i); [done| |done|done]. lia.
  - rewrite tile_eq_sym. apply tile_lt_not_eq. eapply (sorted_lookup q _ i); [done| |done|done]. lia.
Qed.

(** ** The horizontal combination *)

Section hori.
Variables (q : list TileDesc) (pos : nat) (prio : TileDesc).
Hypothesis Hsorted : tsorted q.
Hypothesis Hok : Forall tile_ok q.
Hypothesis Hprio : q !! pos = Some prio.
Hypothesis Hview : isPreview prio = false.

Let w := _tileWidth prio.
Let pg := gridX_of prio w.
Let y := _tilePosY prio.

(** After some rounds: the tiles between the two indices are in the render
    list, they form one stretch of the row of [prio], and the grid range is
    that of its ends. *)
Record hori_inv (h : hori) (a b : nat) : Prop := {
  hi_left : h_leftTile h + 1 = Z.of_nat a;
  hi_right : h_rightTile h = Z.of_nat b;
  hi_ab : (a <= pos < b)%nat /\ (b <= length q)%nat;
  hi_sorted : tsorted (h_dest h);
  hi_perm : Permutation (h_dest h) (seg q a b);
  hi_row : Forall (fun t => in_row prio y t) (seg q a b);
  hi_grid : Forall (fun t => h_leftGridX h <= gridX_of t w <= h_rightGridX h) (seg q a b);
  hi_first : exists t, q !! a = Some t /\ h_leftGridX h = gridX_of t w;
  hi_last : exists t, q !! (b - 1)%nat = Some t /\ h_rightGridX h = gridX_of t w;
  hi_span : 0 <= h_leftGridX h <= pg /\ pg <= h_rightGridX h /\
            h_rightGridX h - h_leftGridX h < maxCombinedGridSpan }.

Lemma tile_at i t : q !! i = Some t -> tile_ok t.
Proof. intros Hi. exact (Forall_lookup_1 _ _ _ _ Hok Hi). Qed.

Lemma prio_ok : tile_ok prio.
Proof. by apply (tile_at pos). Qed.

Lemma width_pos : 0 < w.
Proof. apply (tile_ok_geom prio prio_ok). Qed.

Lemma pos_lt : (pos < length q)%nat.
Proof. by apply lookup_lt_Some in Hprio. Qed.

Lemma seg_one : seg q pos (S pos) = [prio].
Proof.
  rewrite (seg_cons _ _ _ prio) by (lia || done). unfold seg. by rewrite Nat.sub_diag.
Qed.

Lemma hori_inv_init :
  hori_inv {| h_leftGridX := pg; h_rightGridX := pg; h_leftTile := Z.of_nat pos - 1;
              h_rightTile := Z.of_nat pos + 1; h_dest := [prio] |} pos (S pos).
Proof.
  pose proof pos_lt. constructor; cbn [h_leftTile h_rightTile h_dest h_leftGridX h_rightGridX];
    rewrite ?seg_one.
  - lia.
  - lia.
  - lia.
  - by repeat constructor.
  - done.
  - constructor; [by apply in_row_self|done].
  - repeat constructor; unfold pg; lia.
  - by exists prio.
  - exists prio. by rewrite Nat.sub_succ, Nat.sub_0_r.
  - pose proof (gridX_bounds prio w width_pos). destruct (tile_ok_geom prio prio_ok) as [? _].
    fold pg in H0. unfold maxCombinedGridSpan. lia.
Qed.

Lemma combineLeft_spec h a b t :
  hori_inv h a b -> combineLeft prio q h = Some t ->
  exists a', a = S a' /\ q !! a' = Some t /\ in_row prio y t.
Proof.
  intros [Hl _ _ _ _ _ _ _ _ _]. unfold combineLeft. destruct (Z.ltb_spec (-1) (h_leftTile h)); [|done].
  destruct (q !! Z.to_nat (h_leftTile h)) as [t'|] eqn:Ht; [|done].
  destruct (allowCombineIfRow _ _ _) eqn:Hr; [|done]. intros [= ->].
  exists (Z.to_nat (h_leftTile h)). split_and!; [lia|done|done].
Qed.

Lemma combineRight_spec h a b t :
  hori_inv h a b -> combineRight prio q h = Some t -> q !! b = Some t /\ in_row prio y t.
Proof.
  intros [_ Hr _ _ _ _ _ _ _ _]. unfold combineRight. destruct (_ <? _); [|done].
  rewrite Hr, Nat2Z.id. destruct (q !! b) as [t'|] eqn:Ht; [|done].
  destruct (allowCombineIfRow _ _ _) eqn:Hrow; [|done]. by intros [= ->].
Qed.

(** Two tiles of the row, in queue order, are in grid order. *)
Lemma row_grid_mono i j a b :
  (i < j)%nat -> q !! i = Some a -> q !! j = Some b -> in_row prio y a -> in_row prio y b ->
  0 <= gridX_of a w <= gridX_of b w /\ gridX_of b w < INT_MAX - maxCombinedGridSpan.
Proof.
  intros Hij Ha Hb Hra Hrb. pose proof (tile_at _ _ Ha) as Hoka. pose proof (tile_at _ _ Hb) as Hokb.
  destruct (tile_ok_geom a Hoka) as [? _]. destruct (tile_ok_geom b Hokb) as [? _].
  assert (_tilePosX a < _tilePosX b).
  { eapply in_row_lt; [apply prio_ok|done..|]. by eapply sorted_lookup. }
  pose proof (gridX_bounds a w width_pos). pose proof (gridX_bounds b w width_pos).
  pose proof (gridX_mono a b w width_pos). destruct Hokb as [_ _ ?]. lia.
Qed.

Lemma add_left h a t :
  hori_inv h (S a) (Z.to_nat (h_rightTile h)) -> q !! a = Some t -> in_row prio y t ->
  h_rightGridX h - gridX_of t w < maxCombinedGridSpan ->
  hori_inv {| h_leftGridX := gridX_of t w; h_rightGridX := h_rightGridX h;
              h_leftTile := h_leftTile h - 1; h_rightTile := h_rightTile h;
              h_dest := sortedInsert (h_dest h) t |} a (Z.to_nat (h_rightTile h)).
Proof.
  set (b := Z.to_nat (h_rightTile h)).
  intros [Hl Hr Hab Hs Hp Hrow Hgrid (tf & Hf & Hfg) (tl & Hla & Hlg) Hspan] Ht Hrt Hsp.
  assert (Hfr : Forall (fun x => tile_eq t x = false) (h_dest h)).
  { apply (seg_fresh q (S a) b a); [done|lia|lia|done|done]. }
  assert (Hrf : in_row prio y tf).
  { rewrite Forall_lookup in Hrow. apply (Hrow 0%nat). unfold seg.
    rewrite lookup_take, lookup_drop by lia. case_decide; [|lia]. by rewrite Nat.add_0_r. }
  destruct (row_grid_mono a (S a) t tf) as [Hm _]; [lia|done..|].
  constructor; cbn [h_leftTile h_rightTile h_dest h_leftGridX h_rightGridX].
  - lia.
  - unfold b. lia.
  - lia.
  - by apply sortedInsert_sorted.
  - rewrite (seg_cons q a b t) by (lia || done). rewrite sortedInsert_fresh by done. by constructor.
  - rewrite (seg_cons q a b t) by (lia || done). by constructor.
  - rewrite (seg_cons q a b t) by (lia || done). constructor; [lia|].
    eapply Forall_impl; [exact Hgrid|]. simpl. lia.
  - by exists t.
  - by exists tl.
  - lia.
Qed.

Lemma add_right h a b t :
  hori_inv h a b -> q !! b = Some t -> in_row prio y t ->
  gridX_of t w - h_leftGridX h < maxCombinedGridSpan ->
  hori_inv {| h_leftGridX := h_leftGridX h; h_rightGridX := gridX_of t w;
              h_leftTile := h_leftTile h; h_rightTile := h_rightTile h + 1;
              h_dest := sortedInsert (h_dest h) t |} a (S b).
Proof.
  intros [Hl Hr Hab Hs Hp Hrow Hgrid (tf & Hf & Hfg) (tl & Hla & Hlg) Hspan] Ht Hrt Hsp.
  assert (Hfr : Forall (fun x => tile_eq t x = false) (h_dest h)).
  { apply (seg_fresh q a b b); [done|lia|lia|done|done]. }
  assert (Hrl : in_row prio y tl).
  { rewrite Forall_lookup in Hrow. apply (Hrow (b - 1 - a)%nat). unfold seg.
    rewrite lookup_take, lookup_drop by lia. case_decide; [|lia].
    by replace (a + (b - 1 - a))%nat with (b - 1)%nat by lia. }
  destruct (row_grid_mono (b - 1) b tl t) as [Hm _]; [lia|done..|].
  apply lookup_lt_Some in Ht as Hlt.
  constructor; cbn [h_leftTile h_rightTile h_dest h_leftGridX h_rightGridX].
  - done.
  - lia.
  - lia.
  - by apply sortedInsert_sorted.
  - rewrite (seg_snoc q a b t) by (lia || done). rewrite sortedInsert_fresh by done.
    rewrite Hp. by rewrite Permutation_app_comm.
  - rewrite (seg_snoc q a b t) by (lia || done). apply Forall_app_2; [done|by repeat constructor].
  - rewrite (seg_snoc q a b t) by (lia || done). apply Forall_app_2.
    + eapply Forall_impl; [exact Hgrid|]. simpl. lia.
    + constructor; [lia|done].
  - by exists tf.
  - exists t. split; [|done]. by replace (S b - 1)%nat with b by lia.
  - lia.
Qed.

Lemma left_distance h a b t :
  hori_inv h a b -> combineLeft prio q h = Some t -> 0 <= pg - gridX_of t w < INT_MAX - maxCombinedGridSpan.
Proof.
  intros Hi Hc. destruct (combineLeft_spec _ _ _ _ Hi Hc) as (a' & -> & Ht & Hr).
  pose proof (hi_ab _ _ _ Hi).
  destruct (row_grid_mono a' pos t prio) as [H1 H2]; [lia|done..| |].
  - by apply in_row_self.
  - fold pg in H1, H2. lia.
Qed.

(** A round either stops or moves one index by one, inside the queue. *)
Lemma hori_step_spec h a b :
  hori_inv h a b ->
  hori_step prio pg q h = None \/
  exists h' a' b', hori_step prio pg q h = Some (Some h') /\ hori_inv h' a' b' /\
    (a' + (length q - b') < a + (length q - b))%nat.
Proof.
  intros Hi. pose proof (hi_ab _ _ _ Hi) as Hab. pose proof (hi_right _ _ _ Hi) as Hr.
  pose proof (hi_span _ _ _ Hi) as Hs.
  assert (Hb : Z.to_nat (h_rightTile h) = b) by lia.
  unfold hori_step. fold w.
  destruct (combineLeft prio q h) as [tl|] eqn:HL.
  - pose proof (left_distance _ _ _ _ Hi HL) as Hd.
    destruct (combineLeft_spec _ _ _ _ Hi HL) as (a' & -> & Htl & Hrl).
    assert (Hleft : forall g, h_rightGridX h - gridX_of tl w < maxCombinedGridSpan ->
      g = {| h_leftGridX := gridX_of tl w; h_rightGridX := h_rightGridX h;
             h_leftTile := h_leftTile h - 1; h_rightTile := h_rightTile h;
             h_dest := sortedInsert (h_dest h) tl |} ->
      hori_inv g a' b /\ (a' + (length q - b) < S a' + (length q - b))%nat).
    { intros g Hg ->. split; [|lia]. rewrite <- Hb in Hi. pose proof (add_left _ _ _ Hi Htl Hrl Hg) as H.
      by rewrite Hb in H. }
    destruct (combineRight prio q h) as [tr|] eqn:HR; cbv beta iota zeta.
    + destruct (combineRight_spec _ _ _ _ Hi HR) as [Htr Hrr]. rewrite Hb, Htr.
      apply lookup_lt_Some in Htr as Hlt.
      destruct (_ <? _).
      * destruct (Z.leb_spec maxCombinedGridSpan (h_rightGridX h - gridX_of tl w)); [by left|right].
        eexists _, _, _. split; [done|]. by apply Hleft.
      * destruct (Z.leb_spec maxCombinedGridSpan (gridX_of tr w - h_leftGridX h)); [by left|right].
        eexists _, _, _. split; [done|]. split; [by apply (add_right h (S a') b)|lia].
    + destruct (Z.ltb_spec (pg - gridX_of tl w) INT_MAX); [|unfold maxCombinedGridSpan in *; lia].
      destruct (Z.leb_spec maxCombinedGridSpan (h_rightGridX h - gridX_of tl w)); [by left|right].
      eexists _, _, _. split; [done|]. by apply Hleft.
  - destruct (combineRight prio q h) as [tr|] eqn:HR; cbv beta iota zeta; [|by left].
    destruct (combineRight_spec _ _ _ _ Hi HR) as [Htr Hrr]. rewrite Hb, Htr.
    apply lookup_lt_Some in Htr as Hlt.
    destruct (row_grid_mono pos b prio tr) as [Hm1 Hm2]; [lia|done..|by apply in_row_self|done|].
    fold pg in Hm1. destruct (Z.ltb_spec INT_MAX (gridX_of tr w - pg)); [unfold maxCombinedGridSpan in *; lia|].
    destruct (Z.leb_spec maxCombinedGridSpan (gridX_of tr w - h_leftGridX h)); [by left|right].
    eexists _, _, _. split; [done|]. split; [by apply (add_right h a b)|lia].
Qed.

(** The loop ends within its fuel, in a state of the invariant where no
    further round is possible. *)
Lemma hori_loop_spec fuel h a b :
  hori_inv h a b -> (a + (length q - b) < fuel)%nat ->
  exists h' a' b', hori_loop fuel prio pg q h = Some h' /\ hori_inv h' a' b' /\
    hori_step prio pg q h' = None.
Proof.
  revert h a b. induction fuel as [|fuel IH]; intros h a b Hi Hf; [lia|]. simpl.
  destruct (hori_step_spec h a b Hi) as [Hn|(h' & a' & b' & Hs & Hi' & Hm)].
  - rewrite Hn. by exists h, a, b.
  - rewrite Hs. apply (IH h' a' b'); [done|lia].
Qed.

Lemma combineHoriAround_spec :
  exists h a b,
    combineHoriAround q [prio] pos = Some (take a q ++ drop b q, h_dest h, h_leftGridX h, h_rightGridX h) /\
    hori_inv h a b.
Proof.
  unfold combineHoriAround. rewrite Hprio.
  destruct (hori_loop_spec (S (length q)) _ _ _ hori_inv_init) as (h & a & b & Hl & Hi & _).
  { pose proof pos_lt. lia. }
  exists h, a, b. split; [|done]. unfold pg, w in Hl. rewrite Hl.
  rewrite (hi_left _ _ _ Hi), (hi_right _ _ _ Hi), !Nat2Z.id. done.
Qed.
End hori.

(** ** The vertical combination *)

Definition in_span (L R : Z) (t : TileDesc) : Prop := L <= gridX_of t (_tileWidth t) <= R.

Lemma vert_loop_spec prio y L R suffix dest kept dest' :
  vert_loop prio y L R suffix dest = (kept, dest') ->
  tsorted dest -> NoDup (map tkey (dest ++ suffix)) ->
  tsorted dest' /\ Permutation (dest' ++ kept) (dest ++ suffix) /\ sublist kept suffix /\
  forall t, t ∈ dest' -> t ∈ dest \/ (t ∈ suffix /\ in_row prio y t /\ in_span L R t).
Proof.
  revert dest kept dest'. induction suffix as [|t rest IH]; intros dest kept dest'; simpl.
  { intros [= <- <-] ??. split_and!; [done|done|done|]. auto. }
  destruct (allowCombineIfRow prio y t) eqn:Hrow; simpl.
  2: { intros [= <- <-] ??. split_and!; [done|done|done|]. auto. }
  intros Heq Hs Hnd.
  assert (Hmid : Permutation (dest ++ t :: rest) ((t :: dest) ++ rest)) by (symmetry; apply Permutation_middle).
  rewrite Hmid in Hnd. destruct ((_ <=? _) && _) eqn:Hg.
  - assert (Hfr : Forall (fun x => tile_eq t x = false) dest).
    { apply key_fresh. rewrite map_app in Hnd. by apply NoDup_app in Hnd as (? & _ & _). }
    pose proof (sortedInsert_fresh dest t Hs Hfr) as Hp.
    apply IH in Heq as (H1 & H2 & H3 & H4); [|by apply sortedInsert_sorted|by rewrite Hp].
    split_and!; [done|by rewrite H2, Hp, Hmid|by constructor|].
    intros x Hx. destruct (H4 x Hx) as [Hd|(Hr & Hrow' & Hsp)].
    + rewrite Hp in Hd. apply elem_of_cons in Hd as [->|Hd]; [|by left]. right.
      split_and!; [by left|done|]. bool_hyps. done.
    + right. split_and!; [by right|done|done].
  - destruct (vert_loop prio y L R rest dest) as [kept0 dest0] eqn:E. injection Heq as <- <-.
    apply IH in E as (H1 & H2 & H3 & H4); [|done|].
    2: { simpl in Hnd. by apply NoDup_cons in Hnd as [_ ?]. }
    split_and!; [done| |by constructor|].
    + rewrite <- Permutation_middle, H2. by rewrite Permutation_middle.
    + intros x Hx. destruct (H4 x Hx) as [Hd|(Hr & ?)]; [by left|right]. split; [by right|done].
Qed.

(** Nothing combinable stays behind: above the anchor, the row is a stretch of
    the sorted queue, so the loop does not stop before its end. *)
Lemma vert_loop_complete prio y L R ax suffix dest kept dest' :
  -1 <= _id prio -> isPreview prio = false -> Forall tile_ok suffix -> tsorted suffix ->
  Forall (fun t => lex_lt (tkey t) (row_key prio y ++ [ax]) = false) suffix ->
  vert_loop prio y L R suffix dest = (kept, dest') ->
  forall t, t ∈ kept -> ~ (in_row prio y t /\ in_span L R t).
Proof.
  intros Hp Hv. revert dest kept dest'. induction suffix as [|u rest IH]; intros dest kept dest' Hok Hs Ha; simpl.
  { intros [= <- <-] t Ht. set_solver. }
  apply Forall_cons in Hok as [Hu Hok]. apply Forall_cons in Ha as [Hau Ha]. inversion Hs as [|?? Hs' Hlt]; subst.
  destruct (allowCombineIfRow prio y u) eqn:Hrow; simpl.
  - destruct ((_ <=? _) && _) eqn:Hg; [by apply IH|].
    destruct (vert_loop prio y L R rest dest) as [kept0 dest0] eqn:E. intros [= <- <-] t Ht.
    apply elem_of_cons in Ht as [->|Ht]; [|by eapply IH]. unfold in_span. intros [_ ?]. bool_hyps. lia.
  - intros [= <- <-] t Ht [Hrt _]. apply elem_of_cons in Ht as [->|Ht]; [congruence|].
    assert (Hut : tile_lt u t = true) by (rewrite Forall_forall in Hlt; by apply Hlt).
    rewrite Forall_forall in Hok. rewrite tile_lt_key, (in_row_key prio y t) in Hut; [|done|apply (Hok t Ht)|done].
    destruct (lex_between (row_key prio y) ax (_tilePosX t) (tkey u)) as (x & Hk & _); [done|done|done|].
    enough (in_row prio y u) by congruence. apply key_in_row; [done|]. rewrite Hk. f_equal.
    rewrite tkey_row in Hk. unfold row_key in Hk. simpl in Hk. congruence.
Qed.

Lemma combineVerticalTiles_spec q dest prio L R dir q' dest' :
  -1 <= _id prio -> isPreview prio = false -> 0 < _tileWidth prio -> is_i32 (L * _tileWidth prio) ->
  Forall tile_ok q -> tsorted q -> tsorted dest -> NoDup (map tkey (dest ++ q)) ->
  combineVerticalTiles q dest prio L R dir = (q', dest') ->
  let y := i32 (_tilePosY prio + _tileHeight prio * dir) in
  tsorted dest' /\ Permutation (dest' ++ q') (dest ++ q) /\ sublist q' q /\
  (forall t, t ∈ dest' -> t ∈ dest \/ (t ∈ q /\ in_row prio y t /\ in_span L R t)) /\
  (forall t, t ∈ q' -> ~ (in_row prio y t /\ in_span L R t)).
Proof.
  intros Hp Hv Hw HL Hok Hs Hd Hnd. unfold combineVerticalTiles, lt_speculative, compareAsAtTilePos.
  cbn [sp_prioTile sp_tilePosX sp_tilePosY SpeculativeTileDesc_new].
  set (y := i32 (_tilePosY prio + _tileHeight prio * dir)). rewrite (i32_id _ HL).
  set (comp := fun t => lex_lt (order_key t (_tilePosX t) (_tilePosY t)) (order_key prio (L * _tileWidth prio) y)).
  destruct (ssorted_split tile_lt comp q Hs) as (l1 & l2 & -> & H1 & H2).
  { intros a b Hab Hb. unfold comp in *. by eapply lex_lt_trans. }
  rewrite lower_bound_app, drop_app_length, take_app_length by done.
  destruct (vert_loop prio y L R l2 dest) as [kept dest0] eqn:E. intros [= <- <-].
  apply ssorted_app in Hs as Hss. destruct Hss as (_ & Hs2 & _). apply Forall_app in Hok as [Hok1 Hok2].
  assert (Hpc : vert_loop prio y L R l2 dest = (kept, dest0)) by done.
  apply vert_loop_spec in E as (E1 & E2 & E3 & E4); [|done|].
  2: { rewrite map_app, !map_app in *. apply NoDup_app in Hnd as (N1 & N2 & N3).
       apply NoDup_app in N3 as (_ & _ & N3). apply NoDup_app. split_and!; [done| |done].
       intros k Hk Hk2. apply (N2 k Hk). rewrite elem_of_app. by right. }
  split_and!.
  - done.
  - rewrite (Permutation_app_comm l1 l2), (Permutation_app_comm l1 kept), !app_assoc. by rewrite E2.
  - by apply sublist_app.
  - intros t Ht. destruct (E4 t Ht) as [?|(? & ?)]; [by left|right]. split; [set_solver|done].
  - intros t Ht [Hr Hsp]. apply elem_of_app in Ht as [Ht|Ht].
    + rewrite Forall_forall in H1, Hok1. pose proof (H1 t Ht) as Hc. unfold comp in Hc.
      change (lex_lt (tkey t) (row_key prio y ++ [L * _tileWidth prio]) = true) in Hc.
      rewrite (in_row_key prio y t), lex_lt_common in Hc; [|done|apply (Hok1 t Ht)|done].
      apply Z.ltb_lt in Hc. unfold in_span, gridX_of in Hsp.
      destruct (in_row_width _ _ _ Hr) as [Hwt _]. rewrite Hwt in Hsp.
      destruct (tile_ok_geom t (Hok1 t Ht)) as [? _].
      rewrite Z.quot_div_nonneg in Hsp by lia. pose proof (Z.mul_div_le (_tilePosX t) (_tileWidth prio)). nia.
    + eapply (vert_loop_complete prio y L R (L * _tileWidth prio) l2); try done.
Qed.

(** A tile of the render list stays in it. *)
Lemma render_list_keeps (d d' k s : list TileDesc) t :
  Permutation (d' ++ k) (d ++ s) -> sublist k s -> NoDup (map tkey (d ++ s)) -> t ∈ d -> t ∈ d'.
Proof.
  intros Hp Hk Hnd Ht. assert (Hin : t ∈ d' ++ k) by (rewrite Hp, elem_of_app; by left).
  apply elem_of_app in Hin as [?|Hin]; [done|]. exfalso. rewrite map_app in Hnd.
  apply NoDup_app in Hnd as (_ & Hd & _). apply (Hd (tkey t)); apply list_elem_of_fmap_2; [done|].
  by eapply elem_of_sublist.
Qed.

(** ** The tile to pop *)

Section pop.
Context `{TP : TilePrioritizer}.

Lemma scan_priority_spec rest i best :
  (scan_priority rest i best = best /\ Forall (fun t => getTilePriority t <= best.2) rest) \/
  (exists j t, rest !! j = Some t /\ scan_priority rest i best = ((i + j)%nat, getTilePriority t) /\
     best.2 < getTilePriority t /\
     forall j' t', rest !! j' = Some t' ->
       getTilePriority t' <= getTilePriority t /\ ((j' < j)%nat -> getTilePriority t' < getTilePriority t)).
Proof.
  revert i best. induction rest as [|u rest IH]; intros i best; simpl; [by left|].
  destruct (Z.ltb_spec best.2 (getTilePriority u)) as [Hlt|Hge].
  - right. destruct (IH (S i) (i, getTilePriority u)) as [[-> Hf]|(j & t & Hj & -> & Hlt' & Hall)]; simpl in *.
    + exists 0%nat, u. rewrite Nat.add_0_r. split_and!; [done|done|done|].
      intros [|j'] t' Hj'; simpl in Hj'; [injection Hj' as <-; lia|].
      rewrite Forall_lookup in Hf. specialize (Hf _ _ Hj'). simpl in Hf. split; [lia|lia].
    + exists (S j), t. split_and!; [done|f_equal; lia|lia|].
      intros [|j'] t' Hj'; simpl in Hj'; [injection Hj' as <-; lia|].
      destruct (Hall j' t' Hj'). split; [lia|]. intros. assert (j' < j)%nat by lia. auto.
  - destruct (IH (S i) best) as [[-> Hf]|(j & t & Hj & -> & Hlt' & Hall)].
    + left. split; [done|]. by constructor.
    + right. exists (S j), t. split_and!; [done|f_equal; lia|done|].
      intros [|j'] t' Hj'; simpl in Hj'; [injection Hj' as <-; lia|].
      destruct (Hall j' t' Hj'). split; [lia|]. intros. assert (j' < j)%nat by lia. auto.
Qed.

(** The first tile of highest priority. *)
Definition first_best (q : list TileDesc) (i : nat) (prio : TileDesc) : Prop :=
  q !! i = Some prio /\
  forall j t, q !! j = Some t ->
    getTilePriority t <= getTilePriority prio /\ ((j < i)%nat -> getTilePriority t < getTilePriority prio).

Lemma scan_first_best t0 rest :
  exists i prio, scan_priority rest 1 (0%nat, getTilePriority t0) = (i, getTilePriority prio) /\
    first_best (t0 :: rest) i prio.
Proof.
  destruct (scan_priority_spec rest 1 (0%nat, getTilePriority t0)) as [[-> Hf]|(j & t & Hj & -> & Hlt & Hall)].
  - exists 0%nat, t0. split; [done|]. split; [done|]. intros [|j] t Hj; simpl in Hj.
    + injection Hj as <-. lia.
    + rewrite Forall_lookup in Hf. specialize (Hf _ _ Hj). simpl in Hf. lia.
  - exists (S j), t. split; [done|]. split; [done|]. intros [|j'] t' Hj'; simpl in Hj'.
    + injection Hj' as <-. simpl in Hlt. lia.
    + destruct (Hall _ _ Hj'). split; [lia|]. intros. assert (j' < j)%nat by lia. auto.
Qed.

(** A queue in the state the insertions keep it in. *)
Record queue_ok (q : list TileDesc) : Prop := {
  qo_sorted : tsorted q;
  qo_tiles : Forall tile_ok q }.

(** The window a tile is combined in: its row and the two next to it, and
    one grid span. *)
Definition combined_with (prio : TileDesc) (L R : Z) (t : TileDesc) : Prop :=
  in_span L R t /\
  exists dir, (dir = -1 \/ dir = 0 \/ dir = 1) /\
    in_row prio (i32 (_tilePosY prio + _tileHeight prio * dir)) t.

(** The rows above and below, in the window. *)
Definition neighbour (prio : TileDesc) (L R : Z) (t : TileDesc) : Prop :=
  in_span L R t /\
  exists dir, (dir = -1 \/ dir = 1) /\ in_row prio (i32 (_tilePosY prio + _tileHeight prio * dir)) t.

Lemma widen_spec L R pg :
  0 <= L <= pg -> pg <= R -> R - L < maxCombinedGridSpan -> R < INT_MAX - maxCombinedGridSpan ->
  exists L' R', widen L R = (L', R') /\ 0 <= L' <= L /\ R <= R' /\ R' - L' = maxCombinedGridSpan.
Proof.
  intros H1 H2 H3 H4. unfold widen. destruct (Z.ltb_spec (R - L) maxCombinedGridSpan); [|lia].
  pose proof (Z.quot_pos (maxCombinedGridSpan - (R - L)) 2). pose proof (Z.quot_le_upper_bound
    (maxCombinedGridSpan - (R - L)) 2 (maxCombinedGridSpan - (R - L))).
  eexists _, _. split; [done|]. rewrite i32_id by (unfold maxCombinedGridSpan in *; int_unfold; lia).
  split_and!; lia.
Qed.

Lemma delete_sorted q i : tsorted q -> tsorted (delete i q).
Proof. apply tsorted_sublist. apply sublist_delete. Qed.

(** What the combination of a non-preview tile does. *)
Lemma combine_around_spec q i prio :
  queue_ok q -> q !! i = Some prio -> isPreview prio = false ->
  exists queue0 tiles0 L0 R0 L R queue1 tiles1 queue tiles,
    combineHoriAround q [prio] i = Some (queue0, tiles0, L0, R0) /\
    widen L0 R0 = (L, R) /\
    combineVerticalTiles queue0 tiles0 prio L R (-1) = (queue1, tiles1) /\
    combineVerticalTiles queue1 tiles1 prio L R 1 = (queue, tiles) /\
    tsorted tiles /\ tsorted queue /\ Permutation (tiles ++ queue) q /\ prio ∈ tiles /\
    0 <= L /\ R - L = maxCombinedGridSpan /\ Forall (combined_with prio L R) tiles /\
    (forall t, t ∈ queue -> ~ neighbour prio L R t).
Proof.
  intros [Hs Hok] Hi Hv.
  destruct (combineHoriAround_spec q i prio Hs Hok Hi Hv) as (h & a & b & Hc & Hinv).
  destruct Hinv as [_ _ Hab Hds Hdp Hrow Hgrid _ (tl & Htl & Hlg) Hspan].
  pose proof (Forall_lookup_1 _ _ _ _ Hok Hi) as Hpok. pose proof (tile_ok_geom _ Hpok) as (Hpx & Hpy & Hpw & Hph).
  pose proof (Forall_lookup_1 _ _ _ _ Hok Htl) as Htlok.
  assert (HR : h_rightGridX h < INT_MAX - maxCombinedGridSpan).
  { rewrite Hlg. destruct (tile_ok_geom _ Htlok) as [? _]. pose proof (gridX_bounds tl _ Hpw).
    destruct Htlok as [_ _ ?]. lia. }
  destruct (widen_spec (h_leftGridX h) (h_rightGridX h) (gridX_of prio (_tileWidth prio)))
    as (L & R & Hwd & HL & HRr & Hsp); [lia|lia|lia|done|].
  assert (Hsplit : Permutation (h_dest h ++ take a q ++ drop b q) q).
  { rewrite Hdp. rewrite (seg_split q a b) at 4 by lia. by rewrite Permutation_app_swap_app. }
  assert (Hsub : sublist (take a q ++ drop b q) q).
  { rewrite (seg_split q a b) at 3 by lia. apply sublist_app; [done|]. by apply sublist_inserts_l. }
  assert (HLw : is_i32 (L * _tileWidth prio)).
  { pose proof (gridX_bounds prio _ Hpw Hpx). unfold gridX_of in *. rewrite Z.quot_div_nonneg in * by lia.
    pose proof (Z.mul_div_le (_tilePosX prio) (_tileWidth prio) Hpw). destruct Hpok as [_ _ Hpp].
    unfold maxCombinedGridSpan in *. int_unfold. nia. }
  destruct (combineVerticalTiles (take a q ++ drop b q) (h_dest h) prio L R (-1)) as [queue1 tiles1] eqn:E1.
  assert (Hok0 : Forall tile_ok (take a q ++ drop b q)).
  { rewrite Forall_forall in *. intros t Ht. apply Hok. by eapply elem_of_sublist. }
  apply combineVerticalTiles_spec in E1 as F1; [|apply Hpok|done|done|done|done|by eapply tsorted_sublist|done|].
  2: { rewrite Hsplit. by apply tsorted_NoDup. }
  destruct F1 as (S1 & P1 & B1 & V1 & C1).
  destruct (combineVerticalTiles queue1 tiles1 prio L R 1) as [queue tiles] eqn:E2.
  apply combineVerticalTiles_spec in E2 as F2; [|apply Hpok|done|done|done| | |done|].
  2: { rewrite Forall_forall in *. intros t Ht. apply Hok0. by eapply elem_of_sublist. }
  2: { apply (tsorted_sublist _ q); [|done]. etrans; [exact B1|exact Hsub]. }
  2: { rewrite P1, Hsplit. by apply tsorted_NoDup. }
  destruct F2 as (S2 & P2 & B2 & V2 & C2).
  exists (take a q ++ drop b q), (h_dest h), (h_leftGridX h), (h_rightGridX h), L, R, queue1, tiles1, queue, tiles.
  assert (Hprio_in : prio ∈ h_dest h).
  { rewrite Hdp. apply list_elem_of_lookup. exists (i - a)%nat. unfold seg.
    rewrite lookup_take, lookup_drop. case_decide; [|lia]. by replace (a + (i - a))%nat with i by lia. }
  assert (Hbase : forall t, t ∈ h_dest h -> combined_with prio L R t).
  { intros t Ht. rewrite Hdp in Ht. rewrite Forall_forall in Hrow, Hgrid.
    specialize (Hrow t Ht). specialize (Hgrid t Ht). simpl in Hgrid. split.
    - unfold in_span. destruct (in_row_width _ _ _ Hrow) as [-> _]. lia.
    - exists 0. split; [auto|]. rewrite Z.mul_0_r, Z.add_0_r, i32_id; [done|]. apply Hpok. }
  assert (Hin : prio ∈ tiles).
  { eapply render_list_keeps; [exact P2|done|by rewrite P1, Hsplit; apply tsorted_NoDup|].
    eapply render_list_keeps; [exact P1|done|by rewrite Hsplit; apply tsorted_NoDup|done]. }
  split_and!; try done.
  - apply (tsorted_sublist _ q); [|done]. etrans; [exact B2|]. etrans; [exact B1|exact Hsub].
  - by rewrite P2, P1.
  - lia.
  - rewrite Forall_forall. intros t Ht. destruct (V2 t Ht) as [Ht1|(_ & Hr & Hg)].
    + destruct (V1 t Ht1) as [Ht0|(_ & Hr & Hg)]; [by apply Hbase|]. split; [done|]. exists (-1). auto.
    + split; [done|]. exists 1. auto.
  - intros t Ht (Hg & dir & [-> | ->] & Hr).
    + apply (C1 t); [by eapply elem_of_sublist|done].
    + by apply (C2 t).
Qed.

Lemma queue_ok_sub q q' : queue_ok q -> sublist q' q -> queue_ok q'.
Proof.
  intros [Hs Hok] Hsub. constructor; [by eapply tsorted_sublist|].
  rewrite Forall_forall in *. intros t Ht. apply Hok. by eapply elem_of_sublist.
Qed.

(** The outcome of one pop. *)
Record popped (q tiles queue : list TileDesc) (prio : TileDesc) : Prop := {
  pp_sorted : tsorted tiles;
  pp_perm : Permutation (tiles ++ queue) q;
  pp_queue : tsorted queue;
  pp_prio : prio ∈ tiles;
  pp_window :
    (isPreview prio = true /\ tiles = [prio]) \/
    (isPreview prio = false /\ exists L R, 0 <= L /\ R - L = maxCombinedGridSpan /\
       Forall (combined_with prio L R) tiles /\ forall t, t ∈ queue -> ~ neighbour prio L R t) }.

Lemma pop_tiles_popped q :
  queue_ok q -> q <> [] ->
  exists tiles queue prio i, pop_tiles q = Some (tiles, queue, getTilePriority prio) /\
    first_best q i prio /\ popped q tiles queue prio.
Proof.
  intros Hq Hne. destruct q as [|t0 rest]; [done|]. unfold pop_tiles.
  destruct (scan_first_best t0 rest) as (i & prio & -> & Hb). pose proof Hb as [Hi _]. rewrite Hi.
  destruct (isPreview prio) eqn:Hv.
  - exists [prio], (delete i (t0 :: rest)), prio, i. split_and!; [done|done|].
    constructor; [by repeat constructor| | |by left|by left].
    + simpl app. symmetry. by apply delete_Permutation.
    + apply delete_sorted, Hq.
  - destruct (combine_around_spec _ _ _ Hq Hi Hv)
      as (q0 & d0 & L0 & R0 & L & R & q1 & d1 & queue & tiles & -> & -> & -> & -> & H).
    exists tiles, queue, prio, i. split_and!; [done|done|]. destruct_and! H.
    constructor; [done..|]. right. split; [done|]. exists L, R. done.
Qed.

Lemma popped_queue_ok q tiles queue prio : queue_ok q -> popped q tiles queue prio -> queue_ok queue.
Proof.
  intros [Hs Hok] [H1 H2 H3 _ _]. constructor; [done|]. rewrite <- H2 in Hok. by apply Forall_app in Hok as [_ ?].
Qed.

(** Every tile of the render list can stand in one message with any other. *)
Lemma popped_same q tiles queue prio :
  queue_ok q -> popped q tiles queue prio -> (1 < length tiles)%nat ->
  Forall (fun t => isPreview t = false /\ sameTileCombineParams prio t = true) tiles.
Proof.
  intros Hq [_ _ _ _ [[_ ->]|(_ & L & R & _ & _ & Hw & _)]] Hl; [simpl in Hl; lia|].
  eapply Forall_impl; [exact Hw|]. intros t (_ & dir & _ & Hr). unfold allowCombineIfRow, allowCombine in Hr.
  destruct (isPreview prio || isPreview t) eqn:E; [by rewrite andb_false_r in Hr|].
  apply orb_false_iff in E. apply andb_true_iff in Hr. naive_solver.
Qed.
End pop.

Lemma same_params_sym a b : sameTileCombineParams a b = sameTileCombineParams b a.
Proof.
  unfold sameTileCombineParams, same_size_params. rewrite (Z.eqb_sym (_part a)), (Z.eqb_sym (_mode a)),
    (Z.eqb_sym (_width a)), (Z.eqb_sym (_height a)), (Z.eqb_sym (_tileWidth a)), (Z.eqb_sym (_tileHeight a)),
    (Z.eqb_sym (_canonicalViewId a)). done.
Qed.

Lemma same_params_trans a b c :
  sameTileCombineParams a b = true -> sameTileCombineParams a c = true -> sameTileCombineParams b c = true.
Proof.
  intros H1%same_params_fields H2%same_params_fields. unfold sameTileCombineParams, same_size_params.
  rewrite !andb_true_iff, !Z.eqb_eq. destruct_and! H1. destruct_and! H2. split_and!; congruence.
Qed.

(** Sorted tiles with the same parameters have different positions. *)
Lemma sorted_no_dup_pos ts :
  tsorted ts -> Forall tile_ok ts -> Forall (fun t => isPreview t = false) ts ->
  (forall a b, a ∈ ts -> b ∈ ts -> sameTileCombineParams a b = true) -> has_dup_pos ts = false.
Proof.
  intros Hs. induction Hs as [|t ts Hs IH Ht]; intros Hok Hv Hsame; simpl; [done|].
  apply Forall_cons in Hok as [Hokt Hok]. apply Forall_cons in Hv as [Hvt Hv].
  apply orb_false_iff. split; [|apply IH; [done..|]; intros; apply Hsame; by right].
  apply not_true_iff_false. rewrite existsb_exists. intros (u & Hu & Hp). apply list_elem_of_In in Hu.
  rewrite Forall_forall in Ht, Hok, Hv. pose proof (tile_lt_not_eq _ _ (Ht u Hu)) as Hne.
  assert (tile_eq t u = true); [|congruence].
  unfold same_pos in Hp. rewrite andb_true_iff, !Z.eqb_eq in Hp.
  pose proof (same_params_fields _ _ (Hsame t u ltac:(by left) ltac:(by right))) as Hf. destruct_and! Hf.
  unfold isPreview in *. pose proof (Hv u Hu) as Hvu. simpl in Hvu. bool_hyps.
  destruct (Hok u Hu) as [_ ? _]. destruct Hokt as [_ ? _].
  unfold tile_eq. rewrite !andb_true_iff, !Z.eqb_eq. split_and!; (congruence || lia).
Qed.

Lemma dup_pos_map ts : has_dup_pos (map drop_img_id ts) = has_dup_pos ts.
Proof.
  induction ts as [|t ts IH]; simpl; [done|]. rewrite IH. f_equal.
  clear IH. induction ts as [|u ts IH]; simpl; [done|]. by rewrite IH.
Qed.
