(* ===== verification/TileQueueSpec.v ===== *)
(** * What the tile queues promise

    The specification of [TileQueue.v]: a queue is a map from the compared
    fields of a tile to the latest request for it; the queues of different
    views are independent; popping takes the first tile of highest priority
    together with a window around it, loses nothing and never fails. *)

From S2P Require Import Prelude Algo Util StringVector Protocol Rectangle TileDesc TileCombined TileQueue.

Open Scope cool_scope.

Notation tsorted := (ssorted tile_lt).

(** ** A queue as a map *)

Definition to_map (q : list TileDesc) : gmap (list Z) TileDesc :=
  list_to_map (map (fun t => (tkey t, t)) q).

Lemma fst_tkey q : (map (fun t => (tkey t, t)) q).*1 = map tkey q.
Proof. induction q as [|t q IH]; [done|]. cbn. f_equal. exact IH. Qed.

Lemma to_map_perm q q' : NoDup (map tkey q) -> Permutation q q' -> to_map q = to_map q'.
Proof.
  intros Hnd Hp. apply list_to_map_proper; [by rewrite fst_tkey|]. by apply fmap_Permutation.
Qed.

Lemma to_map_lookup q k t : NoDup (map tkey q) -> to_map q !! k = Some t <-> t ∈ q /\ tkey t = k.
Proof.
  intros Hnd. unfold to_map. rewrite <- elem_of_list_to_map by by rewrite fst_tkey.
  rewrite list_elem_of_fmap. naive_solver.
Qed.

(** Fact (refinement): [sortedInsert] implements map insertion: on a sorted queue the
    result is sorted, and as a map from the compared fields to requests it is the
    old map with the new request put at its key (replacing an equal tile). *)
Theorem sortedInsert_refines q t :
  tsorted q ->
  tsorted (sortedInsert q t) /\ to_map (sortedInsert q t) = <[tkey t := t]> (to_map q).
Proof.
  intros Hs. split; [by apply sortedInsert_sorted|].
  destruct (sortedInsert_split q t Hs) as (l1 & l2 & -> & Hs' & Hq).
  rewrite (to_map_perm _ (t :: l1 ++ l2)) by (by apply tsorted_NoDup || (symmetry; apply Permutation_middle)).
  destruct Hq as [[-> _]|(d & -> & Hd%tile_eq_key)]; [done|].
  rewrite (to_map_perm (l1 ++ d :: l2) (d :: l1 ++ l2))
    by (by apply tsorted_NoDup || (symmetry; apply Permutation_middle)).
  unfold to_map. simpl. change (tkey t = tkey d) in Hd. by rewrite Hd, insert_insert_eq.
Qed.

Lemma sample_sorted : tsorted [sample_tile; sample_tile2].
Proof. repeat constructor. Defined.

Lemma sortedInsert_refines_witness :
  tsorted (sortedInsert [sample_tile; sample_tile2] (setVersion sample_tile2 99)) /\
  to_map (sortedInsert [sample_tile; sample_tile2] (setVersion sample_tile2 99)) =
  <[tkey sample_tile2 := setVersion sample_tile2 99]> (to_map [sample_tile; sample_tile2]).
Proof. apply (sortedInsert_refines [sample_tile; sample_tile2] (setVersion sample_tile2 99) sample_sorted). Defined.

(** ** Popping one queue *)

(** Priorities by part, as an example of a prioritizer. *)
Definition by_part : TilePrioritizer :=
  {| getTilePriority := fun t => _part t; getViewIdsByInactivity := [1000; 1001] |}.

Lemma sample_queue_ok : queue_ok [sample_tile; sample_tile2].
Proof. constructor; [apply sample_sorted|by_decide]. Defined.

(** Fact (functional): popping a non-empty queue always succeeds (no tile is read out
    of range, the loop ends): it reports the highest priority, takes the first tile
    that has it, and the popped tiles and the remaining queue together are exactly
    the old queue; what remains is again a well-formed queue. *)
Theorem pop_conserves `{TilePrioritizer} q :
  queue_ok q -> q <> [] ->
  exists tiles queue prio i,
    pop_tiles q = Some (tiles, queue, getTilePriority prio) /\
    first_best q i prio /\ prio ∈ tiles /\ Permutation (tiles ++ queue) q /\
    queue_ok queue /\ (length queue < length q)%nat.
Proof.
  intros Hq Hne. destruct (pop_tiles_popped q Hq Hne) as (tiles & queue & prio & i & Hp & Hb & Hpop).
  exists tiles, queue, prio, i. pose proof (popped_queue_ok _ _ _ _ Hq Hpop) as Hq'.
  destruct Hpop as [_ Hperm _ Hin _]. split_and!; try done.
  rewrite <- Hperm, length_app. destruct tiles; [by apply elem_of_nil in Hin|]. simpl. lia.
Qed.

Lemma pop_conserves_witness :
  exists tiles queue prio i,
    @pop_tiles by_part [sample_tile; sample_tile2] = Some (tiles, queue, @getTilePriority by_part prio) /\
    @first_best by_part [sample_tile; sample_tile2] i prio /\ prio ∈ tiles /\
    Permutation (tiles ++ queue) [sample_tile; sample_tile2] /\
    queue_ok queue /\ (length queue < 2)%nat.
Proof. apply (@pop_conserves by_part [sample_tile; sample_tile2] sample_queue_ok). discriminate. Defined.

(** Fact (functional): which tiles are popped with a non-preview tile: only tiles with
    its parameters, in its row or the rows directly above and below, inside a window
    of [maxCombinedGridSpan] columns; and no such tile of the two neighbouring rows
    is left in the queue. A preview is popped alone. *)
Theorem pop_window `{TilePrioritizer} q tiles queue pr :
  queue_ok q -> pop_tiles q = Some (tiles, queue, pr) ->
  exists prio, prio ∈ tiles /\ getTilePriority prio = pr /\
    if isPreview prio then tiles = [prio]
    else exists L, 0 <= L /\
      Forall (combined_with prio L (L + maxCombinedGridSpan)) tiles /\
      forall t, t ∈ queue -> ~ neighbour prio L (L + maxCombinedGridSpan) t.
Proof.
  intros Hq Hp. destruct q as [|t0 q]; [done|].
  destruct (pop_tiles_popped (t0 :: q) Hq) as (ts & qu & prio & i & Hp' & _ & [_ _ _ Hin Hw]); [done|].
  rewrite Hp in Hp'. injection Hp' as -> -> ->. exists prio. split_and!; [done|done|].
  destruct Hw as [[-> ->]|(-> & L & R & HL & HR & Hw)]; [done|].
  exists L. replace (L + maxCombinedGridSpan) with R by lia. done.
Qed.

Lemma pop_window_witness :
  @pop_tiles by_part [sample_tile; sample_tile2] = Some ([sample_tile; sample_tile2], [], 2) /\
  exists prio, prio ∈ [sample_tile; sample_tile2] /\ @getTilePriority by_part prio = 2 /\
    if isPreview prio then [sample_tile; sample_tile2] = [prio]
    else exists L, 0 <= L /\
      Forall (combined_with prio L (L + maxCombinedGridSpan)) [sample_tile; sample_tile2] /\
      forall t, t ∈ [] -> ~ neighbour prio L (L + maxCombinedGridSpan) t.
Proof.
  split; [vm_compute; reflexivity|].
  apply (@pop_window by_part _ _ _ 2 sample_queue_ok). vm_compute. reflexivity.
Defined.

(** The message tiles carry what was popped. *)
Lemma popped_create `{TilePrioritizer} q tiles queue prio :
  queue_ok q -> popped q tiles queue prio -> (1 < length tiles)%nat ->
  exists tc, create tiles = Ok tc /\ tc_tiles tc = map drop_img_id tiles.
Proof.
  intros Hq Hpop Hl. pose proof (popped_same _ _ _ _ Hq Hpop Hl) as Hsame.
  destruct Hpop as [_ Hperm _ _ _]. destruct Hq as [_ Hok]. rewrite <- Hperm in Hok.
  apply Forall_app in Hok as [Hok _]. destruct tiles as [|p ts]; [simpl in Hl; lia|].
  eexists. split; [apply create_spec|done].
  - eapply Forall_impl; [exact Hok|]. by intros t [? _ _].
  - apply Forall_cons in Hsame as [[_ Hp] Hts]. eapply Forall_impl; [exact Hts|]. simpl.
    intros t [_ Ht]. by eapply same_params_trans.
Qed.

(** Fact (safety): the message [popTileQueue] builds: construction never throws, the
    tiles are the popped ones in order, and no two tiles of a combined message have
    the same position (the assertion on [hasDuplicates] holds). *)
Theorem popTileQueue_message `{TilePrioritizer} q :
  queue_ok q -> q <> [] ->
  exists tc tiles queue pr,
    popTileQueue1 q = Some (Ok tc, queue, pr) /\ pop_tiles q = Some (tiles, queue, pr) /\
    map drop_img_id (tc_tiles tc) = map drop_img_id tiles /\ hasDuplicates tc = false.
Proof.
  intros Hq Hne. destruct (pop_tiles_popped q Hq Hne) as (tiles & queue & prio & i & Hp & _ & Hpop).
  unfold popTileQueue1. rewrite Hp. destruct tiles as [|p [|p' ts]].
  - destruct Hpop as [_ _ _ Hin _]. by apply elem_of_nil in Hin.
  - eexists _, _, _, _. split_and!; [done|done|done|done].
  - destruct (popped_create _ _ _ _ Hq Hpop) as (tc & Hc & Ht); [simpl; lia|].
    pose proof (popped_same _ _ _ _ Hq Hpop) as Hsame. simpl length in Hsame.
    specialize (Hsame ltac:(lia)). destruct Hpop as [Hs Hperm _ _ _].
    destruct Hq as [_ Hok]. rewrite <- Hperm in Hok. apply Forall_app in Hok as [Hok _].
    unfold combine_result. rewrite Hc. eexists _, _, _, _. split_and!; [done|done| |].
    + rewrite Ht, map_map. by apply map_ext.
    + unfold hasDuplicates. destruct (_ <? _)%nat; [done|]. rewrite Ht, dup_pos_map.
      rewrite Forall_forall in Hsame. apply sorted_no_dup_pos; [done|done| |].
      * rewrite Forall_forall. intros t Hti. apply (Hsame t Hti).
      * intros a b Ha Hb. apply (same_params_trans prio); [apply (Hsame a Ha)|apply (Hsame b Hb)].
Qed.

Lemma popTileQueue_message_witness :
  exists tc tiles queue pr,
    @popTileQueue1 by_part [sample_tile; sample_tile2] = Some (Ok tc, queue, pr) /\
    @pop_tiles by_part [sample_tile; sample_tile2] = Some (tiles, queue, pr) /\
    map drop_img_id (tc_tiles tc) = map drop_img_id tiles /\ hasDuplicates tc = false.
Proof. apply (@popTileQueue_message by_part _ sample_queue_ok). discriminate. Defined.

(** ** The queues of all views *)

(** The queue of a view; empty when the view has none yet. *)
Fixpoint view_queue (qs : viewTileQueues) (v : Z) : list TileDesc :=
  match qs with
  | [] => []
  | (v', q) :: qs' => if v' =? v then q else view_queue qs' v
  end.

Definition view_ok (vq : Z * list TileDesc) : Prop :=
  queue_ok vq.2 /\ Forall (fun t => _canonicalViewId t = vq.1) vq.2.

(** One queue per view, each sorted and holding tiles of its view only. *)
Record queues_ok (qs : viewTileQueues) : Prop := {
  qso_views : NoDup (map fst qs);
  qso_queues : Forall view_ok qs }.

Lemma ensure_view_queue v f qs v' :
  view_queue (ensureTileQueue v f qs) v' = if v =? v' then f (view_queue qs v) else view_queue qs v'.
Proof.
  induction qs as [|[u q] qs IH]; simpl.
  - destruct (Z.eqb_spec v v'); done.
  - destruct (Z.eqb_spec u v) as [->|Hu]; simpl.
    + destruct (Z.eqb_spec v v'); done.
    + rewrite IH. destruct (Z.eqb_spec u v') as [->|]; [|done]. by destruct (Z.eqb_spec v v').
Qed.

Lemma ensure_views v f qs k : k ∈ map fst (ensureTileQueue v f qs) -> k = v \/ k ∈ map fst qs.
Proof.
  induction qs as [|[u q] qs IH]; simpl; [set_solver|].
  destruct (u =? v); simpl; rewrite !elem_of_cons; naive_solver.
Qed.

Lemma ensure_ok v f qs :
  queues_ok qs -> (forall q, view_ok (v, q) -> view_ok (v, f q)) -> queues_ok (ensureTileQueue v f qs).
Proof.
  intros [Hnd Hqs] Hf.
  assert (Hempty : view_ok (v, [])) by (split; [constructor; constructor|constructor]).
  induction qs as [|[u q] qs IH]; simpl.
  - constructor; [by repeat constructor; set_solver|]. repeat constructor; by apply Hf.
  - simpl in Hnd. apply NoDup_cons in Hnd as [Hn Hnd]. apply Forall_cons in Hqs as [Hq Hqs].
    destruct (Z.eqb_spec u v) as [->|Hu].
    + constructor; [by constructor|]. constructor; [by apply Hf|done].
    + destruct (IH Hnd Hqs) as [H1 H2]. constructor; [|by constructor]. simpl. constructor; [|done].
      intros Hk. apply ensure_views in Hk as [->|Hk]; done.
Qed.

Lemma insert_view_ok v q t :
  tile_ok t -> _canonicalViewId t = v -> view_ok (v, q) -> view_ok (v, sortedInsert q t).
Proof.
  intros Ht Hv [[Hs Hok] Hview]. simpl in *. split; [constructor|]; simpl.
  - by apply sortedInsert_sorted.
  - rewrite Forall_forall in *. intros x [->|[Hx _]]%sortedInsert_elem; [done|by apply Hok|done].
  - rewrite Forall_forall in *. intros x [->|[Hx _]]%sortedInsert_elem; [done|by apply Hview|done].
Qed.

Lemma fold_insert_view_ok v ts q :
  Forall (fun t => tile_ok t /\ _canonicalViewId t = v) ts -> view_ok (v, q) ->
  view_ok (v, fold_left sortedInsert ts q).
Proof.
  intros Hts. revert q. induction Hts as [|t ts [Ht Hv] Hts IH]; intros q Hq; simpl; [done|].
  by apply IH, insert_view_ok.
Qed.

Lemma fold_insert_map ts q :
  tsorted q ->
  to_map (fold_left sortedInsert ts q) = fold_left (fun m t => <[tkey t := t]> m) ts (to_map q).
Proof.
  revert q. induction ts as [|t ts IH]; intros q Hq; simpl; [done|].
  rewrite IH by by apply sortedInsert_sorted. f_equal.
  destruct (sortedInsert_split q t Hq) as (l1 & l2 & -> & Hs' & Hd).
  rewrite (to_map_perm _ (t :: l1 ++ l2)) by (by apply tsorted_NoDup || (symmetry; apply Permutation_middle)).
  destruct Hd as [[-> _]|(d & -> & Hd%tile_eq_key)]; [done|].
  rewrite (to_map_perm (l1 ++ d :: l2) (d :: l1 ++ l2))
    by (by apply tsorted_NoDup || (symmetry; apply Permutation_middle)).
  unfold to_map. simpl. change (tkey t = tkey d) in Hd. by rewrite Hd, insert_insert_eq.
Qed.

Lemma view_queue_ok qs v : queues_ok qs -> view_ok (v, view_queue qs v).
Proof.
  intros [_ Hqs]. induction Hqs as [|[u q] qs Hq Hqs IH]; simpl.
  - split; [constructor; constructor|constructor].
  - by destruct (Z.eqb_spec u v) as [->|].
Qed.

(** The positions of a message leave room for a grid span. *)
Definition positions_ok (tc : TileCombined) : Prop :=
  Forall (fun t => _tilePosX t < INT_MAX - maxCombinedGridSpan) (tc_tiles tc).

Lemma message_tile_ok tc :
  positions_ok tc -> Forall (message_tile tc) (tc_tiles tc) ->
  Forall (fun t => tile_ok t /\ _canonicalViewId t = tc_canonicalViewId tc) (tc_tiles tc).
Proof.
  unfold positions_ok. rewrite !Forall_forall. intros Hp Hm t Ht.
  destruct (Hm t Ht) as (Hq & Hid & Hv & _). split; [|done]. constructor; [done|lia|by apply Hp].
Qed.

(** Fact (invariant): a [tilecombine] request keeps the queues well formed: it puts
    exactly its tiles into the map of its own view, in message order, and leaves
    the queue of every other view alone. *)
Theorem pushTileCombineRequest_spec qs value tc :
  tc_parse value = Ok tc -> positions_ok tc -> queues_ok qs ->
  exists qs', pushTileCombineRequest qs value = Ok qs' /\ queues_ok qs' /\
    to_map (view_queue qs' (tc_canonicalViewId tc)) =
      fold_left (fun m t => <[tkey t := t]> m) (tc_tiles tc) (to_map (view_queue qs (tc_canonicalViewId tc))) /\
    forall v, v <> tc_canonicalViewId tc -> view_queue qs' v = view_queue qs v.
Proof.
  intros Hparse Hpos Hqs. unfold pushTileCombineRequest. rewrite Hparse. simpl.
  pose proof (message_tile_ok tc Hpos (tc_parse_inv _ _ Hparse)) as Hts.
  eexists. split; [done|]. split_and!.
  - apply ensure_ok; [done|]. intros q. by apply fold_insert_view_ok.
  - rewrite ensure_view_queue, Z.eqb_refl. apply fold_insert_map.
    by destruct (view_queue_ok qs (tc_canonicalViewId tc) Hqs) as [[? _] _].
  - intros v Hv. rewrite ensure_view_queue. by destruct (Z.eqb_spec (tc_canonicalViewId tc) v).
Qed.

Definition sample_request : bytes := tc_serialize (combined_of sample_tile [sample_tile; sample_tile2]) (str "tilecombine") [].

Lemma empty_queues_ok : queues_ok [].
Proof. constructor; constructor. Defined.

Lemma pushTileCombineRequest_spec_witness :
  exists qs', pushTileCombineRequest [] sample_request = Ok qs' /\ queues_ok qs' /\
    to_map (view_queue qs' 1000) =
      fold_left (fun m t => <[tkey t := t]> m) [sample_tile; sample_tile2] (to_map (view_queue [] 1000)) /\
    forall v, v <> 1000 -> view_queue qs' v = view_queue [] v.
Proof.
  apply (pushTileCombineRequest_spec [] sample_request (combined_of sample_tile [sample_tile; sample_tile2]));
    [vm_compute; reflexivity|unfold positions_ok; by_decide|apply empty_queues_ok].
Defined.

(** Fact (invariant): a single [tile] request keeps the queues well formed and
    replaces or adds exactly one entry, in the queue of its own view. *)
Theorem pushTileQueue_spec qs value t :
  parse value = Ok t -> -1 <= _id t -> _tilePosX t < INT_MAX - maxCombinedGridSpan -> queues_ok qs ->
  exists qs', pushTileQueue qs value = Ok qs' /\ queues_ok qs' /\
    to_map (view_queue qs' (_canonicalViewId t)) = <[tkey t := t]> (to_map (view_queue qs (_canonicalViewId t))) /\
    forall v, v <> _canonicalViewId t -> view_queue qs' v = view_queue qs v.
Proof.
  intros Hparse Hid Hx Hqs. unfold pushTileQueue. rewrite Hparse. simpl.
  destruct (parse_ok_inv _ _ Hparse) as [Hvalid [Hf Ho Hw]]. rewrite !Forall_cons in Hf. destruct_and! Hf.
  assert (Hok : tile_ok t) by (constructor; [constructor|..]; done).
  eexists. split; [done|]. split_and!.
  - apply ensure_ok; [done|]. intros q. by apply insert_view_ok.
  - rewrite ensure_view_queue, Z.eqb_refl.
    destruct (view_queue_ok qs (_canonicalViewId t) Hqs) as [[Hs _] _].
    exact (fold_insert_map [t] _ Hs).
  - intros v Hv. rewrite ensure_view_queue. by destruct (Z.eqb_spec (_canonicalViewId t) v).
Qed.

Lemma pushTileQueue_spec_witness :
  exists qs', pushTileQueue [] (serialize sample_tile (str "tile") []) = Ok qs' /\ queues_ok qs' /\
    to_map (view_queue qs' 1000) = <[tkey sample_tile := sample_tile]> (to_map (view_queue [] 1000)) /\
    forall v, v <> 1000 -> view_queue qs' v = view_queue [] v.
Proof.
  apply (pushTileQueue_spec [] (serialize sample_tile (str "tile") []) sample_tile);
    [vm_compute; reflexivity|by_decide|by_decide|apply empty_queues_ok].
Defined.

(** ** Popping over all views *)

Definition has_tiles (q : Z * list TileDesc) : bool := negb (bool_decide (q.2 = [])).

Section views.
Context `{TP : TilePrioritizer}.

Lemma select_by_view_Some vs qs i :
  select_by_view vs qs = Some i ->
  exists v q before after, qs !! i = Some (v, q) /\ q <> [] /\ vs = before ++ v :: after /\
    Forall (fun u => forall j q', qs !! j = Some (u, q') -> q' = []) before.
Proof.
  induction vs as [|u vs IH]; simpl; [done|].
  destruct (find_if _ qs) as [j|] eqn:E.
  - intros [= <-]. apply find_if_Some in E as (l1 & [v q] & l2 & -> & <- & Hp & _). simpl in Hp.
    bool_hyps. destruct Hp as [-> Hq]. exists v, q, [], vs. split_and!; try done. by apply list_lookup_middle.
  - intros Hs. destruct (IH Hs) as (v & q & b & a & Hi & Hq & -> & Hb). exists v, q, (u :: b), a.
    split_and!; [done|done|done|]. constructor; [|done]. intros j q' Hj.
    apply find_if_None in E. pose proof (Forall_lookup_1 _ _ _ _ E Hj) as Hf. simpl in Hf.
    rewrite Z.eqb_refl in Hf. simpl in Hf. by bool_hyps.
Qed.

Lemma select_queue_Some qs i :
  select_queue qs = Some i -> exists v q, qs !! i = Some (v, q) /\ q <> [].
Proof.
  unfold select_queue. destruct (select_by_view _ qs) as [j|] eqn:E.
  - intros [= <-]. apply select_by_view_Some in E as (v & q & _ & _ & ? & ? & _). by exists v, q.
  - intros Hf. apply find_if_Some in Hf as (l1 & [v q] & l2 & -> & <- & Hp & _).
    simpl in Hp. bool_hyps. exists v, q. split; [by apply list_lookup_middle|done].
Qed.

Lemma select_queue_None qs : select_queue qs = None -> isTileQueueEmpty qs = true.
Proof.
  unfold select_queue. destruct (select_by_view _ qs); [done|]. intros Hf%find_if_None.
  unfold isTileQueueEmpty. apply forallb_forall. intros x Hx%list_elem_of_In.
  rewrite Forall_forall in Hf. specialize (Hf x Hx). simpl in Hf. by bool_hyps.
Qed.

(** All queued tiles. *)
Definition all_tiles (qs : viewTileQueues) : list TileDesc := concat (map snd qs).

Lemma all_tiles_length qs : getTileQueueSize qs = length (all_tiles qs).
Proof.
  unfold getTileQueueSize, all_tiles. induction qs as [|[v q] qs IH]; simpl; [done|].
  rewrite length_app, IH. done.
Qed.

Lemma all_tiles_insert qs i v q q' tiles :
  qs !! i = Some (v, q) -> Permutation (tiles ++ q') q ->
  Permutation (tiles ++ all_tiles (<[i := (v, q')]> qs)) (all_tiles qs).
Proof.
  unfold all_tiles. revert i. induction qs as [|[u r] qs IH]; intros [|i] Hi Hp; simpl in *; try done.
  - injection Hi as -> ->. by rewrite app_assoc, Hp.
  - rewrite <- (IH i Hi Hp). by rewrite Permutation_app_swap_app.
Qed.

Lemma map_fst_insert (qs : viewTileQueues) i v q q' :
  qs !! i = Some (v, q) -> map fst (<[i := (v, q')]> qs) = map fst qs.
Proof.
  revert i. induction qs as [|[u r] qs IH]; intros [|i] Hi; simpl in *; [done|done| |].
  - by injection Hi as -> ->.
  - f_equal. exact (IH i Hi).
Qed.

Lemma pop_keeps_ok qs i v q q' :
  queues_ok qs -> qs !! i = Some (v, q) -> view_ok (v, q') -> queues_ok (<[i := (v, q')]> qs).
Proof.
  intros [Hnd Hqs] Hi Hq'. constructor; [|by apply Forall_insert].
  by rewrite (map_fst_insert _ _ _ _ q' Hi).
Qed.

(** One pop over all views, with the list of popped tiles. *)
Lemma popTileQueue_inv qs :
  queues_ok qs -> isTileQueueEmpty qs = false ->
  exists tc qs' pr tiles, popTileQueue qs = Some (Ok tc, qs', pr) /\ queues_ok qs' /\
    map drop_img_id (tc_tiles tc) = map drop_img_id tiles /\ tiles <> [] /\
    Permutation (tiles ++ all_tiles qs') (all_tiles qs).
Proof.
  intros Hqs He. unfold popTileQueue. destruct (select_queue qs) as [i|] eqn:Hsel.
  2: { apply select_queue_None in Hsel. congruence. }
  apply select_queue_Some in Hsel as (v & q & Hi & Hq). rewrite Hi.
  destruct (Forall_lookup_1 _ _ _ _ (qso_queues _ Hqs) Hi) as [Hok Hview]. simpl in *.
  destruct (pop_tiles_popped q Hok Hq) as (tiles & queue & prio & k & Hp & _ & Hpop).
  assert (Hmsg : exists tc, combine_result tiles = Ok tc /\ map drop_img_id (tc_tiles tc) = map drop_img_id tiles).
  { destruct tiles as [|p [|p' ts]]; [by destruct Hpop as [_ _ _ Hin%elem_of_nil _]|by eexists|].
    destruct (popped_create _ _ _ _ Hok Hpop) as (tc & Hc & Ht); [simpl; lia|].
    exists tc. split; [done|]. rewrite Ht, map_map. by apply map_ext. }
  destruct Hmsg as (tc & Hc & Ht). unfold popTileQueue1. rewrite Hp, Hc.
  pose proof (popped_queue_ok _ _ _ _ Hok Hpop) as Hok'. destruct Hpop as [_ Hperm _ Hin _].
  exists tc, (<[i := (v, queue)]> qs), (getTilePriority prio), tiles. split_and!; [done| |done| |].
  - eapply pop_keeps_ok; [done|done|]. split; [done|]. simpl. rewrite <- Hperm in Hview.
    by apply Forall_app in Hview as [_ ?].
  - intros ->. by apply elem_of_nil in Hin.
  - by eapply all_tiles_insert.
Qed.

(** Pop until the queues are empty. *)
Fixpoint drain (fuel : nat) (qs : viewTileQueues) : option (list TileCombined) :=
  if isTileQueueEmpty qs then Some [] else
  match fuel with
  | O => None
  | S fuel' =>
      match popTileQueue qs with
      | Some (Ok tc, qs', _) => (fun l => tc :: l) <$> drain fuel' qs'
      | _ => None
      end
  end.

Lemma empty_all_tiles qs : isTileQueueEmpty qs = true -> all_tiles qs = [].
Proof.
  unfold isTileQueueEmpty, all_tiles. induction qs as [|[v q] qs IH]; simpl; [done|].
  rewrite andb_true_iff, bool_decide_eq_true. by intros [-> H%IH].
Qed.

Lemma drain_all fuel qs :
  queues_ok qs -> (length (all_tiles qs) <= fuel)%nat ->
  exists tcs, drain fuel qs = Some tcs /\
    Permutation (map drop_img_id (concat (map tc_tiles tcs))) (map drop_img_id (all_tiles qs)).
Proof.
  revert qs. induction fuel as [|fuel IH]; intros qs Hqs Hf; simpl.
  - destruct (all_tiles qs) as [|t l] eqn:E; [|simpl in Hf; lia].
    destruct (isTileQueueEmpty qs) eqn:He; [by exists []|].
    destruct (popTileQueue_inv qs Hqs He) as (tc0 & qs0 & pr0 & tiles & _ & _ & _ & Hne & Hp).
    rewrite E in Hp. apply Permutation_nil_r in Hp. apply app_eq_nil in Hp. naive_solver.
  - destruct (isTileQueueEmpty qs) eqn:He.
    { exists []. by rewrite (empty_all_tiles _ He). }
    destruct (popTileQueue_inv qs Hqs He) as (tc & qs' & pr & tiles & Hpop & Hqs' & Ht & Hne & Hp).
    rewrite Hpop. destruct (IH qs' Hqs') as (tcs & Hd & Hdp).
    { rewrite <- Hp, length_app in Hf. destruct tiles; [done|]. simpl in Hf. lia. }
    rewrite Hd. exists (tc :: tcs). split; [done|]. simpl. rewrite map_app, Ht, Hdp.
    rewrite <- map_app. by rewrite Hp.
Qed.
End views.

(** Fact (safety): which queue is served: the queue of the first view, in the order of
    increasing inactivity, that has tiles; views before it have none. *)
Theorem least_inactive_view_first `{TilePrioritizer} qs i :
  select_by_view getViewIdsByInactivity qs = Some i ->
  select_queue qs = Some i /\
  exists v q before after, qs !! i = Some (v, q) /\ q <> [] /\
    getViewIdsByInactivity = before ++ v :: after /\
    Forall (fun u => forall j q', qs !! j = Some (u, q') -> q' = []) before.
Proof.
  intros Hs. split; [unfold select_queue; by rewrite Hs|]. by apply select_by_view_Some.
Qed.

Lemma least_inactive_view_first_witness :
  @select_queue by_part [(1001, [sample_tile]); (1000, [sample_tile2])] = Some 1%nat /\
  exists v q before after,
    [(1001, [sample_tile]); (1000, [sample_tile2])] !! 1%nat = Some (v, q) /\ q <> [] /\
    @getViewIdsByInactivity by_part = before ++ v :: after /\
    Forall (fun u => forall j q', [(1001, [sample_tile]); (1000, [sample_tile2])] !! j = Some (u, q') -> q' = []) before.
Proof.
  apply (@least_inactive_view_first by_part [(1001, [sample_tile]); (1000, [sample_tile2])] 1). reflexivity.
Defined.

(** C29 (liveness): every queued tile is rendered exactly once. If every queue is
    non-repeating and its tiles are well-formed - valid, with fields of their width, an
    id of at least -1, and a column at least a grid span (16) below [INT_MAX] -
    popping until the queues are empty ends after at most as many pops as there are
    tiles and without failing, and the messages together hold exactly the queued
    tiles, but for the image size and the preview id, which a combined message does
    not carry. Tiles further right, which requests may have, can make a pop fail
    ([combineHoriAround_reads_past_end]). *)
Theorem drain_renders_all `{TilePrioritizer} qs :
  queues_ok qs ->
  exists tcs, drain (getTileQueueSize qs) qs = Some tcs /\
    Permutation (map drop_img_id (concat (map tc_tiles tcs))) (map drop_img_id (all_tiles qs)).
Proof. intros Hqs. apply drain_all; [done|]. by rewrite all_tiles_length. Qed.

Lemma sample_queues_ok : queues_ok [(1000, [sample_tile; sample_tile2])].
Proof.
  constructor; [by_decide|]. apply Forall_singleton. split; [apply sample_queue_ok|]. by_decide.
Defined.

Lemma drain_renders_all_witness :
  exists tcs, @drain by_part 2 [(1000, [sample_tile; sample_tile2])] = Some tcs /\
    Permutation (map drop_img_id (concat (map tc_tiles tcs)))
      (map drop_img_id (all_tiles [(1000, [sample_tile; sample_tile2])])).
Proof. apply (@drain_renders_all by_part _ sample_queues_ok). Defined.

(** ** A read out of range *)

(** Two tiles of one row, one pixel wide, at the two ends of the [int] range. *)
Definition far_tile (x : Z) : TileDesc :=
  {| _canonicalViewId := 1000; _part := 0; _mode := 0; _width := 256; _height := 256;
     _tilePosX := x; _tilePosY := 0; _tileWidth := 1; _tileHeight := 1; _ver := 1;
     _imgSize := 0; _id := -1; _oldWireId := 0; _wireId := 0 |}.

(** Prefer the tiles further right, as a cursor near the right edge does. *)
Definition by_x : TilePrioritizer :=
  {| getTilePriority := fun t => if _tilePosX t =? 0 then Priority_NORMAL else Priority_ULTRAHIGH;
     getViewIdsByInactivity := [1000] |}.

(** Fact (bounds): the position bound of [tile_ok] is needed: after one [tilecombine]
    request with [tilewidth=1] and tiles at columns [0] and [INT_MAX], with the
    cursor at the second, both distances in [combineHoriAround] are [INT_MAX], the
    comparison picks the missing right neighbour and the vector is read past its
    end. *)
Theorem combineHoriAround_reads_past_end :
  let q := [far_tile 0; far_tile INT_MAX] in
  pushTileCombineRequest [] (tc_serialize (combined_of (far_tile 0) q) (str "tilecombine") []) = Ok [(1000, q)] /\
  combineHoriAround q [far_tile INT_MAX] 1 = None /\
  hori_step (far_tile INT_MAX) INT_MAX q
    {| h_leftGridX := INT_MAX; h_rightGridX := INT_MAX; h_leftTile := 0; h_rightTile := 2;
       h_dest := [far_tile INT_MAX] |} = Some None /\
  @popTileQueue by_x [(1000, q)] = None.
Proof. cbv zeta. split_and!; vm_compute; reflexivity. Qed.
