(* ===== verification/KitQueue.v ===== *)
(** * [KitQueue]: messages and callbacks between the kit and its document

    Models the rest of [kit/KitQueue.hpp] and [kit/KitQueue.cpp]: the queue of
    incoming messages with the merging of text input, and the queue of
    LibreOfficeKit callbacks with the elision of callbacks a newer one makes
    obsolete. The tile queues are in [TileQueue.v].

    Two things the code takes from other packages are parameters: the callback
    type an [int] stands for (an enum of the LibreOfficeKit headers), and the
    ["viewId"] member of a JSON payload (read with Poco, which may throw). *)

From S2P Require Import Prelude Algo Util StringVector Protocol Rectangle TileDesc TileCombined TileQueue.

Open Scope cool_scope.

(** ** Data *)

(** The callback types the code distinguishes. *)
Inductive LibreOfficeKitCallbackType :=
| LOK_CALLBACK_INVALIDATE_TILES
| LOK_CALLBACK_STATE_CHANGED
| LOK_CALLBACK_INVALIDATE_VISIBLE_CURSOR
| LOK_CALLBACK_CURSOR_VISIBLE
| LOK_CALLBACK_STATUS_INDICATOR_SET_VALUE
| LOK_CALLBACK_DOCUMENT_SIZE_CHANGED
| LOK_CALLBACK_CELL_CURSOR
| LOK_CALLBACK_INVALIDATE_VIEW_CURSOR
| LOK_CALLBACK_CELL_VIEW_CURSOR
| LOK_CALLBACK_VIEW_CURSOR_VISIBLE
| LOK_CALLBACK_OTHER.

#[global] Instance LibreOfficeKitCallbackType_eq_dec : EqDecision LibreOfficeKitCallbackType.
Proof. solve_decision. Defined.

Record Callback := { cb_view : Z; cb_type : Z; cb_payload : bytes }.

#[global] Instance Callback_eq_dec : EqDecision Callback.
Proof. solve_decision. Defined.

(** What the code takes from the LibreOfficeKit headers and from Poco. *)
Class CallbackEnv := {
  lokCallbackType : Z -> LibreOfficeKitCallbackType;
  extractViewId : bytes -> result bytes }.

(** ** Reading payloads *)

Definition extractUnoCommand (command : bytes) : bytes :=
  if negb (matchPrefix (str ".uno:") command) then []
  else match find_sub [chr_eq] command with
       | Some equalPos => take equalPos command
       | None => command
       end.

(** A rectangle of an invalidation with its part and mode. *)
Record invalidation := { inv_x : Z; inv_y : Z; inv_w : Z; inv_h : Z; inv_part : Z; inv_mode : Z }.

(** [extractRectangle]: [None] when it returns [false]. *)
Definition extractRectangle (tokens : StringVector) : option invalidation :=
  if (sv_size tokens <? 2)%nat then None
  else if equals tokens 0 (str "EMPTY,") then
    Some {| inv_x := 0; inv_y := 0; inv_w := INT_MAX; inv_h := INT_MAX;
            inv_part := atoi (sv_get tokens 1); inv_mode := 0 |}
  else if (sv_size tokens <? 5)%nat then None
  else Some {| inv_x := atoi (sv_get tokens 0); inv_y := atoi (sv_get tokens 1);
               inv_w := atoi (sv_get tokens 2); inv_h := atoi (sv_get tokens 3);
               inv_part := atoi (sv_get tokens 4);
               inv_mode := if (sv_size tokens =? 6)%nat then atoi (sv_get tokens 5) else 0 |}.

(** ** Invalidations *)

Definition reasonableSizeX : Z := 4 * 3840.
Definition reasonableSizeY : Z := 2 * 3840.

(** The queued invalidation is inside the message's. *)
Definition inv_covered (msg queued : invalidation) : bool :=
  (inv_x msg <=? inv_x queued) && (i32 (inv_x queued + inv_w queued) <=? i32 (inv_x msg + inv_w msg))
  && (inv_y msg <=? inv_y queued) && (i32 (inv_y queued + inv_h queued) <=? i32 (inv_y msg + inv_h msg)).

Definition inv_join (msg queued : invalidation) : invalidation :=
  let joinX := Z.min (inv_x msg) (inv_x queued) in
  let joinY := Z.min (inv_y msg) (inv_y queued) in
  {| inv_x := joinX; inv_y := joinY;
     inv_w := i32 (Z.max (i32 (inv_x msg + inv_w msg)) (i32 (inv_x queued + inv_w queued)) - joinX);
     inv_h := i32 (Z.max (i32 (inv_y msg + inv_h msg)) (i32 (inv_y queued + inv_h queued)) - joinY);
     inv_part := inv_part msg; inv_mode := inv_mode msg |}.

Section env.
Context `{CallbackEnv}.

(** The loop over the queue: what stays, the grown rectangle and
    [performedMerge]. *)
Fixpoint merge_invalidations (view type : Z) (callbacks : list Callback) (msg : invalidation)
    (performedMerge : bool) : list Callback * invalidation * bool :=
  match callbacks with
  | [] => ([], msg, performedMerge)
  | it :: rest =>
      let keep :=
        let '(kept, msg', merged) := merge_invalidations view type rest msg performedMerge in
        (it :: kept, msg', merged) in
      if negb (cb_type it =? type) || negb (cb_view it =? view) then keep
      else match extractRectangle (tokenize (cb_payload it) chr_space) with
      | None => keep
      | Some queued =>
          if negb (inv_part msg =? inv_part queued) then keep
          else if negb (inv_mode msg =? inv_mode queued) then keep
          else if inv_covered msg queued then merge_invalidations view type rest msg performedMerge
          else if rectanglesIntersect (inv_x msg) (inv_y msg) (inv_w msg) (inv_h msg)
                    (inv_x queued) (inv_y queued) (inv_w queued) (inv_h queued) then
            let joined := inv_join msg queued in
            if (reasonableSizeX <? inv_w joined) || (reasonableSizeY <? inv_h joined) then keep
            else merge_invalidations view type rest joined true
          else keep
      end
  end.

Definition merged_payload (msg : invalidation) (tokens : StringVector) : bytes :=
  to_string (inv_x msg) ++ str ", " ++ to_string (inv_y msg) ++ str ", "
  ++ to_string (inv_w msg) ++ str ", " ++ to_string (inv_h msg) ++ str ", "
  ++ cat tokens [chr_space] 4 None.

(** ** Obsolete callbacks *)

(** [unoCommand.compare(0, len, payload)] compares [unoCommand] with the whole
    payload. *)
Definition obsolete_state (view type : Z) (unoCommand : bytes) (it : Callback) : bool :=
  (cb_type it =? type) && (cb_view it =? view)
  && negb ((length (cb_payload it) <? length unoCommand + 1)%nat
           || negb (beq (take (length unoCommand) unoCommand) (cb_payload it))
           || negb (char_is (cb_payload it) (length unoCommand) chr_eq)).

(** The loop over view cursors: reading a queued payload may throw. *)
Fixpoint erase_view_cursor (view type : Z) (viewId : bytes) (callbacks : list Callback)
    : result (list Callback) :=
  match callbacks with
  | [] => Ok []
  | it :: rest =>
      if negb (cb_type it =? type) || negb (cb_view it =? view) then
        try rest' <- erase_view_cursor view type viewId rest; Ok (it :: rest')
      else
        try queuedViewId <- extractViewId (cb_payload it);
        if beq viewId queuedViewId then Ok rest
        else try rest' <- erase_view_cursor view type viewId rest; Ok (it :: rest')
  end.

Definition isViewCallback (t : LibreOfficeKitCallbackType) : bool :=
  match t with
  | LOK_CALLBACK_INVALIDATE_VIEW_CURSOR | LOK_CALLBACK_CELL_VIEW_CURSOR
  | LOK_CALLBACK_VIEW_CURSOR_VISIBLE => true
  | _ => false
  end.

(** [elideDuplicateCallback]: the new queue and whether the callback is elided. *)
Definition elideDuplicateCallback (callbacks : list Callback) (view type : Z) (payload : bytes)
    : result (list Callback * bool) :=
  match callbacks with
  | [] => Ok ([], false)
  | _ =>
      match lokCallbackType type with
      | LOK_CALLBACK_INVALIDATE_TILES =>
          let tokens := tokenize payload chr_space in
          match extractRectangle tokens with
          | None => Ok (callbacks, false)
          | Some msg =>
              let '(kept, msg', performedMerge) := merge_invalidations view type callbacks msg false in
              if performedMerge then
                Ok (kept ++ [{| cb_view := view; cb_type := type; cb_payload := merged_payload msg' tokens |}], true)
              else Ok (kept, false)
          end
      | LOK_CALLBACK_STATE_CHANGED =>
          let unoCommand := extractUnoCommand payload in
          if bool_decide (unoCommand = []) then Ok (callbacks, false)
          else if beq unoCommand (str ".uno:ModifiedStatus") then Ok (callbacks, false)
          else Ok (erase_first (obsolete_state view type unoCommand) callbacks, false)
      | LOK_CALLBACK_INVALIDATE_VISIBLE_CURSOR | LOK_CALLBACK_CURSOR_VISIBLE
      | LOK_CALLBACK_STATUS_INDICATOR_SET_VALUE | LOK_CALLBACK_DOCUMENT_SIZE_CHANGED
      | LOK_CALLBACK_CELL_CURSOR =>
          Ok (erase_first (fun it => (cb_type it =? type) && (cb_view it =? view)) callbacks, false)
      | LOK_CALLBACK_INVALIDATE_VIEW_CURSOR | LOK_CALLBACK_CELL_VIEW_CURSOR
      | LOK_CALLBACK_VIEW_CURSOR_VISIBLE =>
          try viewId <- extractViewId payload;
          try callbacks' <- erase_view_cursor view type viewId callbacks;
          Ok (callbacks', false)
      | LOK_CALLBACK_OTHER => Ok (callbacks, false)
      end
  end.

Definition putCallback (callbacks : list Callback) (view type : Z) (payload : bytes)
    : result (list Callback) :=
  try r <- elideDuplicateCallback callbacks view type payload;
  let '(callbacks', elided) := r in
  Ok (if elided then callbacks'
      else callbacks' ++ [{| cb_view := view; cb_type := type; cb_payload := payload |}]).
End env.

(** [getCallback(callback)]. *)
Definition getCallback (callbacks : list Callback) : option (Callback * list Callback) :=
  match callbacks with [] => None | front :: rest => Some (front, rest) end.

(** ** Text input *)

(** [memcmp(value + at, name, min(n, name.size())) == 0], with [n] bytes left. *)
Definition memcmp_prefix (value : bytes) (at_ : nat) (name : bytes) (n : nat) : bool :=
  let len := Nat.min n (length name) in
  beq (take len (drop at_ value)) (take len name).

(** [textItem]: [None] when it returns [false], otherwise [removeText]. *)
Definition textItem (value firstToken : bytes) : option bool :=
  let offset := length firstToken in
  if (length value <? offset + 3)%nat then None
  else
    let remaining := (length value - length firstToken)%nat in
    if memcmp_prefix value (offset + 1) (str "textinput") (remaining - 1) then Some false
    else if memcmp_prefix value (offset + 1) (str "removetextcontext") (remaining - 1) then Some true
    else None.

(** A queued message after which nothing can be combined. *)
Definition blocks_combining (queuedTokens tokens : StringVector) (other : bytes) : bool :=
  (sv_size queuedTokens =? 1)%nat
  || (equals_other queuedTokens 0 tokens 0
      && (equals queuedTokens 1 (str "key") || equals queuedTokens 1 (str "mouse")
          || equals queuedTokens 1 other || equals queuedTokens 1 (str "windowkey"))).

(** The part of a queued textinput message that matches [id]. *)
Definition queued_text (queuedTokens tokens : StringVector) (id : bytes) : option bytes :=
  if equals_other queuedTokens 0 tokens 0 && equals queuedTokens 1 (str "textinput") then
    match getTokenString_sv queuedTokens (str "id") with
    | Some queuedId => if beq queuedId id then getTokenString_sv queuedTokens (str "text") else None
    | None => None
    end
  else None.

Definition text_message (session id text : bytes) : bytes :=
  session ++ str " textinput id=" ++ id ++ str " text=" ++ text.

(** The walk back over the queue; the new message is empty when nothing is
    combined. [n] is [i + 1]. *)
Fixpoint combine_text_loop (n : nat) (queue : list bytes) (tokens : StringVector) (id text : bytes)
    : bytes * list bytes :=
  match n with
  | O => ([], queue)
  | S i =>
      match queue !! i with
      | None => ([], queue)
      | Some it =>
          let queuedTokens := tokenize_data it chr_space in
          if blocks_combining queuedTokens tokens (str "removetextcontext") then ([], queue)
          else match queued_text queuedTokens tokens id with
          | Some queuedText =>
              (text_message (sv_get queuedTokens 0) id (queuedText ++ text), delete i queue)
          | None => combine_text_loop i queue tokens id text
          end
      end
  end.

Definition combineTextInput (queue : list bytes) (tokens : StringVector) : bytes * list bytes :=
  match getTokenString_sv tokens (str "id"), getTokenString_sv tokens (str "text") with
  | Some id, Some text => combine_text_loop (length queue) queue tokens id text
  | _, _ => ([], queue)
  end.

(** The counts of a queued removetextcontext message that matches [id]. *)
Definition queued_counts (it : bytes) (queuedTokens tokens : StringVector) (id : bytes) : option (Z * Z) :=
  if equals_other queuedTokens 0 tokens 0 && equals queuedTokens 1 (str "removetextcontext") then
    match getTokenStringFromMessage it (str "id") with
    | Some queuedId =>
        if beq queuedId id then
          match getTokenIntegerFromMessage it (str "before"), getTokenIntegerFromMessage it (str "after") with
          | (Some b, true), (Some a, true) => Some (b, a)
          | _, _ => None
          end
        else None
    | None => None
    end
  else None.

Definition remove_message (session id : bytes) (before after : Z) : bytes :=
  session ++ str " removetextcontext id=" ++ id ++ str " before=" ++ to_string before
  ++ str " after=" ++ to_string after.

Fixpoint combine_remove_loop (n : nat) (queue : list bytes) (tokens : StringVector) (id : bytes)
    (before after : Z) : bytes * list bytes :=
  match n with
  | O => ([], queue)
  | S i =>
      match queue !! i with
      | None => ([], queue)
      | Some it =>
          let queuedTokens := tokenize_data it chr_space in
          if blocks_combining queuedTokens tokens (str "textinput") then ([], queue)
          else match queued_counts it queuedTokens tokens id with
          | Some (queuedBefore, queuedAfter) =>
              (remove_message (sv_get queuedTokens 0) id (i32 (queuedBefore + before)) (i32 (queuedAfter + after)),
               delete i queue)
          | None => combine_remove_loop i queue tokens id before after
          end
      end
  end.

Definition combineRemoveText (queue : list bytes) (tokens : StringVector) : bytes * list bytes :=
  match getTokenString_sv tokens (str "id"), getTokenInteger_sv tokens (str "before"),
        getTokenInteger_sv tokens (str "after") with
  | Some id, (Some before, true), (Some after, true) =>
      combine_remove_loop (length queue) queue tokens id before after
  | _, _, _ => ([], queue)
  end.

(** ** The whole queue *)

Record KitQueue := {
  kq_queue : list bytes;
  kq_tileQueues : viewTileQueues;
  kq_callbacks : list Callback }.

Definition KitQueue_new : KitQueue := {| kq_queue := []; kq_tileQueues := []; kq_callbacks := [] |}.

Definition set_queue (k : KitQueue) (q : list bytes) : KitQueue :=
  {| kq_queue := q; kq_tileQueues := kq_tileQueues k; kq_callbacks := kq_callbacks k |}.
Definition set_tileQueues (k : KitQueue) (qs : viewTileQueues) : KitQueue :=
  {| kq_queue := kq_queue k; kq_tileQueues := qs; kq_callbacks := kq_callbacks k |}.

(** [put]; a ["callback"] message trips an assertion that release builds drop. *)
Definition put (k : KitQueue) (value : bytes) : result KitQueue :=
  match value with
  | [] => Throw runtime_error
  | _ =>
      let firstToken := getFirstToken value chr_space in
      if beq firstToken (str "tilecombine") then
        try qs <- pushTileCombineRequest (kq_tileQueues k) value; Ok (set_tileQueues k qs)
      else if beq firstToken (str "tile") then
        try qs <- pushTileQueue (kq_tileQueues k) value; Ok (set_tileQueues k qs)
      else if beq firstToken (str "callback") then Ok k
      else match textItem value firstToken with
      | Some removeText =>
          let tokens := tokenize_data value chr_space in
          let '(newMsg, queue) := if removeText then combineRemoveText (kq_queue k) tokens
                                  else combineTextInput (kq_queue k) tokens in
          match newMsg with
          | [] => Ok (set_queue k (queue ++ [value]))
          | _ => Ok (set_queue k (queue ++ [newMsg]))
          end
      | None => Ok (set_queue k (kq_queue k ++ [value]))
      end
  end.

(** [pop]: an empty payload when the queue is empty. *)
Definition pop (k : KitQueue) : bytes * KitQueue :=
  match kq_queue k with
  | [] => ([], k)
  | front :: rest => (front, set_queue k rest)
  end.

Definition clear (k : KitQueue) : KitQueue :=
  {| kq_queue := []; kq_tileQueues := kq_tileQueues k; kq_callbacks := [] |}.
