(* ===== verification/KitQueueSpec.v ===== *)
(** * What the message and callback queues promise

    Theorems about [KitQueue.v]: merging invalidations never loses an
    invalidated point, a newer cursor or size callback replaces the older one,
    text input is merged without losing text or overtaking a barrier, and other
    messages are first in, first out. *)

From S2P Require Import Prelude Algo Util StringVector Protocol Rectangle TileDesc TileCombined TileQueue KitQueue.

Open Scope cool_scope.

(** ** Printing and reading a rectangle *)

(** [cat] with a one-character separator, from a given token to the end. *)
Lemma cat_join sv n t ts :
  drop n (sv_strings sv) = t :: ts -> cat sv [chr_space] n None = t ++ join_with chr_space ts.
Proof.
  intros Hd. assert (Hl : (n < length (sv_strings sv))%nat).
  { destruct (Nat.ltb_spec n (length (sv_strings sv))); [done|]. rewrite drop_ge in Hd by done. done. }
  rewrite <- sv_size_strings in Hl. unfold cat. destruct (Nat.leb_spec (sv_size sv) n); [lia|]. simpl.
  unfold sv_strings in Hd. rewrite <- skipn_map in Hd || rewrite <- fmap_drop in Hd.
  unfold sv_size in *. rewrite take_ge by (rewrite length_drop; lia).
  destruct (drop n (sv_tokens sv)) as [|tk tks]; [done|]. simpl in Hd. injection Hd as <- <-.
  f_equal. unfold cat_rest, join_with. rewrite map_map. done.
Qed.

Lemma digit_run_stop ds s :
  Forall (fun c => isdigit c = true) ds -> s = [] \/ head s = Some chr_comma -> digit_run (ds ++ s) = ds.
Proof.
  intros Hd Hs. assert (E : digit_run s = []) by (destruct Hs as [->|Hs]; [done|destruct s as [|c s]; [done|by injection Hs as ->]]).
  induction Hd as [|d ds Hd' Hd IH]; [done|]. simpl. by rewrite Hd', IH.
Qed.

(** A printed number, and what does not belong to it. *)
Lemma atoi_to_string_tail n tail : is_i32 n -> tail = [] \/ head tail = Some chr_comma -> atoi (to_string n ++ tail) = n.
Proof.
  intros Hn Ht. unfold atoi, strtol.
  destruct (to_string_shape n) as (ds & Hne & Hd & Hv & Hs & _ & _). rewrite Hs.
  assert (Hdr : drop_spaces ((if n <? 0 then chr_minus :: ds else ds) ++ tail)
                = (if n <? 0 then chr_minus :: ds else ds) ++ tail).
  { destruct (n <? 0); [done|]. destruct ds as [|c ds]; [done|]. inversion Hd; subst. simpl.
    by rewrite digit_not_space. }
  rewrite Hdr.
  assert (Hsg : split_sign ((if n <? 0 then chr_minus :: ds else ds) ++ tail) = (n <? 0, ds ++ tail)).
  { destruct (n <? 0); [done|]. destruct ds as [|c ds]; [done|]. inversion Hd; subst.
    by apply split_sign_digit. }
  rewrite Hsg, digit_run_stop by done. destruct ds as [|c ds]; [done|]. rewrite Hv.
  destruct (Z.ltb_spec n 0); int_unfold; zcases; try lia; cbn [cv_value];
    rewrite i32_id by (int_unfold; lia); lia.
Qed.
Lemma atoi_to_string n : is_i32 n -> atoi (to_string n) = n.
Proof. intros Hn. rewrite <- (app_nil_r (to_string n)). apply atoi_to_string_tail; auto. Qed.
Lemma atoi_to_string_comma n : is_i32 n -> atoi (to_string n ++ [chr_comma]) = n.
Proof. intros Hn. apply atoi_to_string_tail; auto. Qed.

Definition field_comma (n : Z) : bytes := to_string n ++ [chr_comma].

Lemma field_comma_plain n : plain chr_space (field_comma n).
Proof.
  split; [unfold field_comma; by destruct (to_string n)|]. apply Forall_app_2; [|by repeat constructor].
  apply (to_string_plain chr_space n). by right.
Qed.

Lemma field_comma_not_EMPTY n : field_comma n <> str "EMPTY,".
Proof.
  unfold field_comma. destruct (to_string_shape n) as (ds & Hne & Hd & _ & -> & _).
  destruct (n <? 0); [discriminate|]. destruct ds as [|c ds]; [done|]. inversion Hd; subst.
  intros [=]. subst c. discriminate.
Qed.

(** ** Invalidations *)

(** The payloads of an invalidation, as the kit's session reads them and tells the
    clients: a part or a rectangle of it, in the default mode or in a given one. *)
Inductive Payload :=
| All (part : Z)
| AllMode (part mode : Z)
| Area (x y w h part : Z)
| AreaMode (x y w h part mode : Z).

Definition comma_list (ns : list Z) (n : Z) : bytes := concat (map (fun k => to_string k ++ str ", ") ns) ++ to_string n.
Definition text (p : Payload) : bytes :=
  match p with
  | All part => str "EMPTY, " ++ to_string part
  | AllMode part mode => str "EMPTY, " ++ comma_list [part] mode
  | Area x y w h part => comma_list [x; y; w; h] part
  | AreaMode x y w h part mode => comma_list [x; y; w; h; part] mode
  end.
(** What it invalidates. *)
Definition region (p : Payload) : invalidation :=
  match p with
  | All part => {| inv_x := 0; inv_y := 0; inv_w := INT_MAX; inv_h := INT_MAX; inv_part := part; inv_mode := 0 |}
  | AllMode part mode =>
      {| inv_x := 0; inv_y := 0; inv_w := INT_MAX; inv_h := INT_MAX; inv_part := part; inv_mode := mode |}
  | Area x y w h part => {| inv_x := x; inv_y := y; inv_w := w; inv_h := h; inv_part := part; inv_mode := 0 |}
  | AreaMode x y w h part mode =>
      {| inv_x := x; inv_y := y; inv_w := w; inv_h := h; inv_part := part; inv_mode := mode |}
  end.

(** The rectangles whose [int] arithmetic stays in range. *)
Definition inv_ok (v : invalidation) : Prop :=
  0 <= inv_x v /\ 0 <= inv_y v /\ 0 <= inv_w v /\ 0 <= inv_h v /\
  inv_x v + inv_w v <= INT_MAX /\ inv_y v + inv_h v <= INT_MAX.

(** The payloads the queue reads as they are meant: numbers of their width, a
    rectangle in range, and no mode for a whole part. *)
Definition payload_ok (p : Payload) : Prop :=
  inv_ok (region p) /\ is_i32 (inv_part (region p)) /\ is_i32 (inv_mode (region p)) /\
  match p with AllMode _ mode => mode = 0 | _ => True end.

(** The points an invalidation covers. *)
Definition inv_point (v : invalidation) (px py : Z) : Prop :=
  inv_x v <= px <= inv_x v + inv_w v /\ inv_y v <= py <= inv_y v + inv_h v.

Definition inv_within (a b : invalidation) : Prop :=
  inv_x b <= inv_x a /\ inv_x a + inv_w a <= inv_x b + inv_w b /\
  inv_y b <= inv_y a /\ inv_y a + inv_h a <= inv_y b + inv_h b /\
  inv_part b = inv_part a /\ inv_mode b = inv_mode a.

Lemma inv_within_refl a : inv_within a a.
Proof. unfold inv_within. lia. Qed.
Lemma inv_within_trans a b c : inv_within a b -> inv_within b c -> inv_within a c.
Proof. unfold inv_within. lia. Qed.

Lemma i32_sum a b : 0 <= a -> 0 <= b -> a + b <= INT_MAX -> i32 (a + b) = a + b.
Proof. intros. apply i32_id. int_unfold. lia. Qed.

Lemma inv_covered_within msg queued :
  inv_ok msg -> inv_ok queued -> inv_part msg = inv_part queued -> inv_mode msg = inv_mode queued ->
  inv_covered msg queued = true -> inv_within queued msg.
Proof.
  intros (?&?&?&?&?&?) (?&?&?&?&?&?) ??. unfold inv_covered. rewrite !i32_sum by done.
  rewrite !andb_true_iff, !Z.leb_le. unfold inv_within. lia.
Qed.

Lemma inv_join_spec msg queued :
  inv_ok msg -> inv_ok queued -> inv_part msg = inv_part queued -> inv_mode msg = inv_mode queued ->
  inv_ok (inv_join msg queued) /\ inv_within msg (inv_join msg queued) /\
  inv_within queued (inv_join msg queued).
Proof.
  intros (?&?&?&?&?&?) (?&?&?&?&?&?) ??. unfold inv_ok, inv_within, inv_join. cbn.
  rewrite !i32_sum by done. rewrite !i32_id by (int_unfold; lia). lia.
Qed.

Section env.
Context `{CallbackEnv}.

(** The invalidation a queued callback stands for. *)
Definition invalidates (cb : Callback) (view type : Z) (v : invalidation) : Prop :=
  cb_view cb = view /\ cb_type cb = type /\ extractRectangle (tokenize (cb_payload cb) chr_space) = Some v.

Definition cbs_ok (type : Z) (cbs : list Callback) : Prop :=
  Forall (fun cb => cb_type cb = type ->
    forall v, extractRectangle (tokenize (cb_payload cb) chr_space) = Some v -> inv_ok v) cbs.

Lemma merge_invalidations_spec view type cbs msg m kept msg' m' :
  merge_invalidations view type cbs msg m = (kept, msg', m') ->
  inv_ok msg -> cbs_ok type cbs ->
  inv_ok msg' /\ inv_within msg msg' /\ sublist kept cbs /\
  ((msg' = msg /\ m' = m) \/ (inv_w msg' <= reasonableSizeX /\ m' = true)) /\
  forall cb, cb ∈ cbs -> cb ∈ kept \/ exists v, invalidates cb view type v /\ inv_within v msg'.
Proof.
  revert msg m kept msg' m'. induction cbs as [|it rest IH]; intros msg m kept msg' m'; simpl.
  { intros [= <- <- <-] ??. split_and!; [done|apply inv_within_refl|done|by left|set_solver]. }
  intros Heq Hm Hcbs. apply Forall_cons in Hcbs as [Hit Hrest].
  assert (Hkeep : forall x y z,
    (let '(kept0, msg0, merged) := merge_invalidations view type rest msg m in (it :: kept0, msg0, merged)) = (x, y, z) ->
    inv_ok y /\ inv_within msg y /\ sublist x (it :: rest) /\
    ((y = msg /\ z = m) \/ (inv_w y <= reasonableSizeX /\ z = true)) /\
    forall cb, cb ∈ it :: rest -> cb ∈ x \/ exists v, invalidates cb view type v /\ inv_within v y).
  { intros x y z. destruct (merge_invalidations view type rest msg m) as [[k0 y0] z0] eqn:E. intros [= <- <- <-].
    apply IH in E as (H1 & H2 & H3 & H4 & H5); [|done..]. split_and!; [done|done|by constructor|done|].
    intros cb [->|Hcb]%elem_of_cons; [left; by left|]. destruct (H5 cb Hcb); [left; by right|by right]. }
  destruct (negb (cb_type it =? type) || negb (cb_view it =? view)) eqn:Htv; [by apply Hkeep|].
  destruct (extractRectangle _) as [queued|] eqn:Hex; [|by apply Hkeep].
  destruct (Z.eqb_spec (inv_part msg) (inv_part queued)) as [Hpart|]; simpl in Heq; [|by apply Hkeep].
  destruct (Z.eqb_spec (inv_mode msg) (inv_mode queued)) as [Hmode|]; simpl in Heq; [|by apply Hkeep].
  assert (Hinv : invalidates it view type queued).
  { apply orb_false_iff in Htv as [Ht Hv]. apply negb_false_iff, Z.eqb_eq in Ht.
    apply negb_false_iff, Z.eqb_eq in Hv. done. }
  pose proof (Hit (proj1 (proj2 Hinv)) _ eq_refl) as Hq.
  destruct (inv_covered msg queued) eqn:Hcov.
  - apply IH in Heq as (H1 & H2 & H3 & H4 & H5); [|done..].
    split_and!; [done|done|by constructor|done|]. intros cb [->|Hcb]%elem_of_cons; [|by apply H5].
    right. exists queued. split; [done|]. eapply inv_within_trans; [|done]. by apply inv_covered_within.
  - destruct (rectanglesIntersect _ _ _ _ _ _ _ _) eqn:Hint; [|by apply Hkeep].
    destruct ((_ <? _) || (_ <? _)) eqn:Hsize; [by apply Hkeep|].
    destruct (inv_join_spec msg queued Hm Hq Hpart Hmode) as (J1 & J2 & J3).
    apply IH in Heq as (H1 & H2 & H3 & H4 & H5); [|done..].
    split_and!; [done|by eapply inv_within_trans|by constructor| |].
    + right. destruct H4 as [[-> ->]|[? ->]]; [|done]. split; [|done].
      apply orb_false_iff in Hsize as [Hs _]. by apply Z.ltb_ge in Hs.
    + intros cb [->|Hcb]%elem_of_cons; [|by apply H5].
      right. exists queued. split; [done|]. by eapply inv_within_trans.
Qed.
End env.

Definition new_callback (view type : Z) (payload : bytes) : Callback :=
  {| cb_view := view; cb_type := type; cb_payload := payload |}.

Lemma inv_within_point a b px py : inv_within a b -> inv_point a px py -> inv_point b px py.
Proof. unfold inv_within, inv_point. lia. Qed.

(** The numbers of a payload behind blanks. *)
Fixpoint comma_tokens (ns : list Z) (n : Z) : list bytes :=
  match ns with [] => [to_string n] | k :: ns' => field_comma k :: comma_tokens ns' n end.

Lemma comma_tokens_plain ns n : Forall (plain chr_space) (comma_tokens ns n).
Proof.
  induction ns as [|k ns IH]; [|constructor; [apply field_comma_plain|done]].
  apply Forall_singleton, to_string_plain. by right.
Qed.

Lemma comma_list_join ns n : exists t ts, comma_tokens ns n = t :: ts /\ comma_list ns n = t ++ join_with chr_space ts.
Proof.
  induction ns as [|k ns (t & ts & E1 & E2)].
  - exists (to_string n), []. split; [done|]. unfold comma_list. cbn. by rewrite app_nil_r.
  - exists (field_comma k), (t :: ts). split; [by cbn; rewrite E1|].
    unfold comma_list in *. cbn [map concat]. rewrite <- app_assoc, E2. unfold field_comma, join_with. cbn.
    by rewrite <- !app_assoc.
Qed.

Lemma comma_list_head ns n s : head (comma_list ns n ++ s) <> Some chr_nul.
Proof. destruct ns as [|k ns]; unfold comma_list; cbn; rewrite <- ?app_assoc; apply to_string_head. Qed.

Lemma comma_list_tokens ns n : sv_strings (tokenize (comma_list ns n) chr_space) = comma_tokens ns n.
Proof.
  rewrite tokenize_strings; [|done|rewrite <- (app_nil_r (comma_list ns n)); apply comma_list_head].
  destruct (comma_list_join ns n) as (t & ts & E1 & E2). pose proof (comma_tokens_plain ns n) as Hp.
  rewrite E1 in *. rewrite E2. by apply Forall_cons in Hp as [? ?]; apply tokens_spec_join.
Qed.

Lemma empty_tokens ns n :
  sv_strings (tokenize (str "EMPTY, " ++ comma_list ns n) chr_space) = str "EMPTY," :: comma_tokens ns n.
Proof.
  rewrite tokenize_strings by done.
  destruct (comma_list_join ns n) as (t & ts & E1 & E2). pose proof (comma_tokens_plain ns n) as Hp. rewrite E1 in *.
  assert (E : str "EMPTY, " ++ comma_list ns n = str "EMPTY," ++ join_with chr_space (t :: ts)).
  { rewrite E2. unfold join_with. cbn. done. }
  rewrite E. apply tokens_spec_join; [done| |done]. split; [done|]. repeat constructor; discriminate.
Qed.

(** What the queue reads. *)
Definition region_read (p : Payload) : invalidation :=
  match p with AllMode part _ => region (All part) | _ => region p end.

Lemma text_extract p :
  inv_ok (region p) -> is_i32 (inv_part (region p)) -> is_i32 (inv_mode (region p)) ->
  extractRectangle (tokenize (text p) chr_space) = Some (region_read p).
Proof.
  intros (?&?&?&?&?&?) Hp Hm. unfold extractRectangle. rewrite sv_size_strings, equals_strings, !sv_get_strings.
  assert (Hi : forall a b, 0 <= a -> 0 <= b -> a + b <= INT_MAX -> is_i32 a /\ is_i32 b) by (int_unfold; lia).
  destruct p as [part|part mode|x y w h part|x y w h part mode]; cbn [text region region_read] in *;
    cbn [inv_part inv_mode inv_x inv_y inv_w inv_h] in *.
  - change (to_string part) with (comma_list [] part). rewrite empty_tokens. cbn. by rewrite atoi_to_string.
  - rewrite empty_tokens. cbn. unfold field_comma. by rewrite atoi_to_string_comma.
  - rewrite comma_list_tokens. simpl. rewrite (proj2 (beq_neq _ _) (field_comma_not_EMPTY x)). unfold field_comma.
    rewrite !atoi_to_string_comma, atoi_to_string by (done || apply (Hi x w) || apply (Hi y h); done). done.
  - rewrite comma_list_tokens. simpl. rewrite (proj2 (beq_neq _ _) (field_comma_not_EMPTY x)). unfold field_comma.
    rewrite !atoi_to_string_comma, atoi_to_string by (done || apply (Hi x w) || apply (Hi y h); done). done.
Qed.

Lemma payload_extract p : payload_ok p -> extractRectangle (tokenize (text p) chr_space) = Some (region p).
Proof.
  intros (H1 & H2 & H3 & H4). rewrite text_extract by done. destruct p; try done. by cbn in H4; subst.
Qed.

(** The payload of a merged invalidation. *)
Definition resized (p : Payload) (v : invalidation) : Payload :=
  match p with
  | AreaMode _ _ _ _ _ _ => AreaMode (inv_x v) (inv_y v) (inv_w v) (inv_h v) (inv_part v) (inv_mode v)
  | _ => Area (inv_x v) (inv_y v) (inv_w v) (inv_h v) (inv_part v)
  end.

Lemma resized_payload p msg :
  payload_ok p -> inv_ok msg -> inv_within (region p) msg -> inv_w msg <= reasonableSizeX ->
  merged_payload msg (tokenize (text p) chr_space) = text (resized p msg) /\
  region (resized p msg) = msg /\ payload_ok (resized p msg).
Proof.
  intros (H1 & H2 & H3 & _) Hm (W1 & W2 & W3 & W4 & W5 & W6) Hs. unfold payload_ok, inv_ok in *.
  destruct p as [part|part mode|x y w h part|x y w h part mode]; cbn [region inv_part inv_mode inv_x inv_y inv_w inv_h] in *;
    try (exfalso; unfold reasonableSizeX in Hs; int_unfold; lia).
  all: destruct msg as [mx my mw mh mp mm]; cbn [inv_part inv_mode inv_x inv_y inv_w inv_h] in *; subst mp mm;
    (split; [|split; [reflexivity|exact (conj Hm (conj H2 (conj H3 I)))]]);
    unfold merged_payload; cbn [text resized inv_x inv_y inv_w inv_h inv_part inv_mode];
    (erewrite cat_join; [|rewrite comma_list_tokens; reflexivity]); unfold comma_list, join_with, field_comma; cbn.
  - by repeat (rewrite <- ?app_assoc, ?app_nil_r; cbn).
  - by repeat (rewrite <- ?app_assoc, ?app_nil_r; cbn).
Qed.

Section never_lost.
Context `{CallbackEnv}.

(** A queued invalidation. *)
Definition stands_for (cb : Callback) (view type : Z) (p : Payload) : Prop :=
  cb_view cb = view /\ cb_type cb = type /\ cb_payload cb = text p /\ payload_ok p.
Definition queue_well_formed (cbs : list Callback) : Prop :=
  Forall (fun cb => lokCallbackType (cb_type cb) = LOK_CALLBACK_INVALIDATE_TILES ->
    exists p, stands_for cb (cb_view cb) (cb_type cb) p) cbs.

Lemma well_formed_cbs_ok type cbs :
  lokCallbackType type = LOK_CALLBACK_INVALIDATE_TILES -> queue_well_formed cbs -> cbs_ok type cbs.
Proof.
  intros Ht Hq. eapply Forall_impl; [exact Hq|]. cbn. intros cb Hcb <- v Hv. destruct (Hcb Ht) as (p & _ & _ & Ep & Hp).
  rewrite Ep, payload_extract in Hv by done. injection Hv as <-. apply Hp.
Qed.

Lemma stands_for_invalidates cb view type p : stands_for cb view type p -> invalidates cb view type (region p).
Proof. intros (H1 & H2 & H3 & H4). split_and!; [done..|]. by rewrite H3, payload_extract. Qed.

(** What the merge leaves, with the new callback behind it. *)
Lemma merged_queue view type p0 cbs kept msg' m' :
  lokCallbackType type = LOK_CALLBACK_INVALIDATE_TILES -> payload_ok p0 -> queue_well_formed cbs ->
  merge_invalidations view type cbs (region p0) false = (kept, msg', m') ->
  let cb := {| cb_view := view; cb_type := type;
               cb_payload := if m' then merged_payload msg' (tokenize (text p0) chr_space) else text p0 |} in
  exists p1, stands_for cb view type p1 /\ inv_within (region p0) (region p1) /\ sublist kept cbs /\
    forall cb0 p, cb0 ∈ cbs -> stands_for cb0 (cb_view cb0) (cb_type cb0) p ->
      cb0 ∈ kept \/ cb_view cb0 = view /\ cb_type cb0 = type /\ inv_within (region p) (region p1).
Proof.
  intros Ht Hp Hq E. pose proof (well_formed_cbs_ok type cbs Ht Hq) as Hok.
  apply merge_invalidations_spec in E as (H1 & H2 & H3 & H4 & H5); [|apply Hp|done].
  assert (exists p1, region p1 = msg' /\ payload_ok p1 /\
    (if m' then merged_payload msg' (tokenize (text p0) chr_space) else text p0) = text p1) as (p1 & <- & Hp1 & Et).
  { destruct H4 as [[-> ->]|[Hs ->]]; [by exists p0|].
    destruct (resized_payload p0 msg' Hp H1 H2 Hs) as (R1 & R2 & R3). by exists (resized p0 msg'). }
  exists p1. split; [by split_and!|]. split; [done|]. split; [done|]. intros cb0 p Hin Hs.
  destruct (H5 cb0 Hin) as [Hk|(v & (Hv & Hty & Hx) & Hw)]; [by left|right].
  apply stands_for_invalidates in Hs as (_ & _ & Hs). rewrite Hs in Hx. injection Hx as <-. done.
Qed.

(** C30 (safety): no invalidation is lost. In a queue whose invalidations are
    well-formed payloads - a part or a rectangle of one, the rectangle in a mode or in
    the default one - queueing another never fails, adds at most one callback and
    leaves a queue of such payloads, in which every point that was invalidated
    before or by the new payload, for any view, part and mode, is still invalidated
    by a callback with the same part and mode. A whole part in a given mode ([EMPTY,
    part, mode]) is only well-formed for mode 0: of any other the queue forgets the
    mode ([moded_invalidation_elided]). *)
Theorem invalidation_never_lost cbs view type p0 :
  lokCallbackType type = LOK_CALLBACK_INVALIDATE_TILES -> payload_ok p0 -> queue_well_formed cbs ->
  exists cbs', putCallback cbs view type (text p0) = Ok cbs' /\ (length cbs' <= S (length cbs))%nat /\
    queue_well_formed cbs' /\
    forall cb vw ty p px py, cb ∈ cbs ++ [new_callback view type (text p0)] -> stands_for cb vw ty p ->
      inv_point (region p) px py ->
      exists cb' p', cb' ∈ cbs' /\ stands_for cb' vw ty p' /\ inv_part (region p') = inv_part (region p) /\
        inv_mode (region p') = inv_mode (region p) /\ inv_point (region p') px py.
Proof.
  intros Ht Hp Hq.
  destruct (merge_invalidations view type cbs (region p0) false) as [[kept msg'] m'] eqn:E.
  pose proof (merged_queue view type p0 cbs kept msg' m' Ht Hp Hq E) as (p1 & Hs & Hw & Hsub & Hall).
  set (cb1 := Build_Callback _ _ _) in Hs.
  exists (kept ++ [cb1]). split.
  { unfold putCallback, elideDuplicateCallback. destruct cbs as [|c0 cs].
    - cbn in E. injection E as <- <- <-. done.
    - rewrite Ht, payload_extract by done. rewrite E. by destruct m'. }
  pose proof (sublist_length _ _ Hsub) as Hlen. split; [rewrite length_app; simpl; lia|]. split.
  { apply Forall_app_2.
    { apply Forall_forall. intros cb Hcb. unfold queue_well_formed in Hq. rewrite Forall_forall in Hq.
      by eapply Hq, elem_of_submseteq, sublist_submseteq. }
    apply Forall_singleton. intros _. by exists p1. }
  intros cb vw ty p px py Hcb Hst Hpt.
  assert (Hnew : vw = view -> ty = type -> inv_within (region p) (region p1) ->
    exists cb' p', cb' ∈ kept ++ [cb1] /\ stands_for cb' vw ty p' /\ inv_part (region p') = inv_part (region p) /\
        inv_mode (region p') = inv_mode (region p) /\ inv_point (region p') px py).
  { intros -> -> Hin. exists cb1, p1. pose proof Hin as (_ & _ & _ & _ & ? & ?).
    split_and!; [apply elem_of_app; right; by left|done..|by eapply inv_within_point]. }
  pose proof Hst as (<- & <- & Ecb & _). apply elem_of_app in Hcb as [Hcb|Hcb].
  - destruct (Hall cb p Hcb Hst) as [Hk|(? & ? & Hin)]; [|by apply Hnew].
    exists cb, p. split_and!; [apply elem_of_app; by left|done..].
  - apply list_elem_of_singleton in Hcb as ->. apply Hnew; [done..|].
    apply stands_for_invalidates in Hst as (_ & _ & Hx). cbn in Hx. rewrite payload_extract in Hx by done.
    by injection Hx as <-.
Qed.

(** Fact (error): the queue reads no mode after [EMPTY]. An invalidation of a whole part
    in a given mode, which the protocol and the kit's session know, is taken for one
    in the default mode: when the part is invalidated in the default mode
    while it is queued, it is elided, and no queued callback invalidates the part in
    its mode any more. *)
Theorem moded_invalidation_elided view type part mode :
  lokCallbackType type = LOK_CALLBACK_INVALIDATE_TILES -> is_i32 part -> is_i32 mode ->
  putCallback [new_callback view type (text (AllMode part mode))] view type (text (All part))
  = Ok [new_callback view type (text (All part))].
Proof.
  intros Ht Hp Hm. unfold putCallback, elideDuplicateCallback. rewrite Ht.
  assert (Hok : forall n, inv_ok {| inv_x := 0; inv_y := 0; inv_w := INT_MAX; inv_h := INT_MAX; inv_part := part; inv_mode := n |})
    by (intros n; unfold inv_ok; cbn; int_unfold; lia).
  rewrite (text_extract (All part)) by (apply Hok || done || (cbn; int_unfold; lia)).
  unfold merge_invalidations. cbn [new_callback cb_type cb_view cb_payload]. rewrite !Z.eqb_refl. cbn [negb orb].
  rewrite (text_extract (AllMode part mode)) by (apply Hok || done). cbn [region_read region inv_part inv_mode].
  rewrite !Z.eqb_refl. reflexivity.
Qed.
End never_lost.

(** An environment with the types of the unit tests. *)
Definition test_env : CallbackEnv :=
  {| lokCallbackType := fun t => if t =? 0 then LOK_CALLBACK_INVALIDATE_TILES
       else if t =? 8 then LOK_CALLBACK_STATE_CHANGED
       else if t =? 13 then LOK_CALLBACK_DOCUMENT_SIZE_CHANGED else LOK_CALLBACK_OTHER;
     extractViewId := fun p => Ok p |}.

(** The join of the unit test [testCallbackInvalidation]. *)
Lemma invalidation_never_lost_witness :
  let queued := new_callback (-1) 0 (text (Area 284 1418 11105 275 0)) in
  exists cbs', @putCallback test_env [queued] (-1) 0 (text (Area 4299 1418 7090 275 0)) = Ok cbs' /\
    (length cbs' <= 2)%nat /\
    exists cb' p', cb' ∈ cbs' /\ @stands_for cb' (-1) 0 p' /\ inv_part (region p') = 0 /\
      inv_mode (region p') = 0 /\ inv_point (region p') 300 1500.
Proof.
  intros queued.
  destruct (@invalidation_never_lost test_env [queued] (-1) 0 (Area 4299 1418 7090 275 0))
    as (cbs' & H1 & H2 & _ & H3).
  - reflexivity.
  - unfold payload_ok, inv_ok. by_decide.
  - apply Forall_singleton. intros _. exists (Area 284 1418 11105 275 0).
    split_and!; [done..|unfold payload_ok, inv_ok; by_decide].
  - exists cbs'. split; [done|]. split; [done|].
    apply (H3 queued (-1) 0 (Area 284 1418 11105 275 0) 300 1500).
    + by left.
    + split_and!; [done..|unfold payload_ok, inv_ok; by_decide].
    + unfold inv_point. by_decide.
Defined.

Lemma moded_invalidation_elided_witness :
  @putCallback test_env [new_callback (-1) 0 (str "EMPTY, 0, 1")] (-1) 0 (str "EMPTY, 0")
  = Ok [new_callback (-1) 0 (str "EMPTY, 0")].
Proof. apply (@moded_invalidation_elided test_env (-1) 0 0 1); [reflexivity|by_decide..]. Defined.

(** ** Cursor and size callbacks *)

Definition same_slot (view type : Z) (cb : Callback) : bool := (cb_type cb =? type) && (cb_view cb =? view).

Definition simple_cursor (t : LibreOfficeKitCallbackType) : bool :=
  match t with
  | LOK_CALLBACK_INVALIDATE_VISIBLE_CURSOR | LOK_CALLBACK_CURSOR_VISIBLE
  | LOK_CALLBACK_STATUS_INDICATOR_SET_VALUE | LOK_CALLBACK_DOCUMENT_SIZE_CHANGED
  | LOK_CALLBACK_CELL_CURSOR => true
  | _ => false
  end.

Lemma filter_none {A} (p : A -> bool) l : Forall (fun x => p x = false) l -> List.filter p l = [].
Proof. induction 1 as [|x l Hx Hl IH]; simpl; [done|]. by rewrite Hx. Qed.

(** Fact (invariant): at most one queued callback per view and per cursor, indicator or
    size type: queueing another replaces it by the new one at the end of the queue
    and keeps every other callback in its order. *)
Theorem cursor_callback_replaced `{CallbackEnv} cbs view type payload :
  simple_cursor (lokCallbackType type) = true ->
  (length (List.filter (same_slot view type) cbs) <= 1)%nat ->
  exists cbs', putCallback cbs view type payload = Ok cbs' /\
    last cbs' = Some (new_callback view type payload) /\
    List.filter (same_slot view type) cbs' = [new_callback view type payload] /\
    List.filter (fun cb => negb (same_slot view type cb)) cbs'
      = List.filter (fun cb => negb (same_slot view type cb)) cbs.
Proof.
  intros Ht Hone. exists (erase_first (same_slot view type) cbs ++ [new_callback view type payload]).
  assert (Hnew : same_slot view type (new_callback view type payload) = true).
  { unfold same_slot. cbn. by rewrite !Z.eqb_refl. }
  split; [|split; [apply last_snoc|]].
  - unfold putCallback, elideDuplicateCallback. destruct cbs as [|c cs]; [done|].
    destruct (lokCallbackType type); try done.
  - rewrite !List.filter_app. simpl. rewrite Hnew. simpl. rewrite app_nil_r.
    destruct (erase_first_spec (same_slot view type) cbs) as [[Hf He]|(l1 & x & l2 & -> & Hx & Hl & He)]; rewrite He.
    + by rewrite (filter_none _ _ Hf).
    + rewrite !List.filter_app in *. simpl in *. rewrite Hx in *. simpl in *.
      rewrite (filter_none _ _ Hl) in *. simpl in *.
      destruct (List.filter (same_slot view type) l2); [done|simpl in Hone; lia].
Qed.

Lemma cursor_callback_replaced_witness :
  exists cbs', @putCallback test_env [new_callback (-1) 13 (str "12474, 188626"); new_callback 2 8 (str ".uno:Bold=true")]
      (-1) 13 (str "12474, 205748") = Ok cbs' /\
    last cbs' = Some (new_callback (-1) 13 (str "12474, 205748")) /\
    List.filter (same_slot (-1) 13) cbs' = [new_callback (-1) 13 (str "12474, 205748")] /\
    List.filter (fun cb => negb (same_slot (-1) 13 cb)) cbs'
      = List.filter (fun cb => negb (same_slot (-1) 13 cb))
          [new_callback (-1) 13 (str "12474, 188626"); new_callback 2 8 (str ".uno:Bold=true")].
Proof.
  apply (@cursor_callback_replaced test_env [new_callback (-1) 13 (str "12474, 188626"); new_callback 2 8 (str ".uno:Bold=true")]
    (-1) 13 (str "12474, 205748")); [reflexivity|vm_compute; lia].
Defined.

(** Fact (error): the elision of obsolete [.uno:] states never happens: the comparison
    is between the command and the whole queued payload, which is longer, so a state
    change is always appended and nothing is removed. *)
Theorem state_change_never_elided `{CallbackEnv} cbs view type payload :
  lokCallbackType type = LOK_CALLBACK_STATE_CHANGED ->
  putCallback cbs view type payload = Ok (cbs ++ [new_callback view type payload]).
Proof.
  intros Ht. unfold putCallback, elideDuplicateCallback. destruct cbs as [|c cs]; [done|].
  rewrite Ht. destruct (bool_decide _); [done|]. destruct (beq _ (str ".uno:ModifiedStatus")); [done|].
  cbn [rbind]. destruct (erase_first_spec (obsolete_state view type (extractUnoCommand payload)) (c :: cs))
    as [[_ ->]|(l1 & x & l2 & _ & Hx & _)]; [done|]. exfalso.
  unfold obsolete_state in Hx. rewrite take_ge in Hx by lia.
  rewrite !andb_true_iff, negb_true_iff, !orb_false_iff, negb_false_iff, beq_eq, Nat.ltb_ge in Hx.
  destruct Hx as [_ [[Hl He] _]]. rewrite <- He in Hl. lia.
Qed.

Lemma state_change_never_elided_witness :
  @putCallback test_env [new_callback 1 8 (str ".uno:Bold=true")] 1 8 (str ".uno:Bold=false")
  = Ok [new_callback 1 8 (str ".uno:Bold=true"); new_callback 1 8 (str ".uno:Bold=false")].
Proof. apply (@state_change_never_elided test_env [new_callback 1 8 (str ".uno:Bold=true")]). reflexivity. Defined.

(** ** Text input *)

(** One word of a message. *)
Definition word (s : bytes) : Prop := plain chr_space s /\ head s <> Some chr_nul.
(** What an id or a text may be: no blanks and no newlines (it may be empty). *)
Definition value_text (s : bytes) : Prop := Forall (fun c => c <> chr_space /\ c <> chr_newline) s.

Definition text_tokens (s id text : bytes) : list bytes :=
  [s; str "textinput"; str "id=" ++ id; str "text=" ++ text].

Lemma text_message_tokens s id text :
  word s -> value_text id -> value_text text ->
  sv_strings (tokenize_data (text_message s id text) chr_space) = text_tokens s id text.
Proof.
  intros [Hs Hn] Hid Ht.
  assert (Heq : text_message s id text =
    s ++ join_with chr_space [str "textinput"; str "id=" ++ id; str "text=" ++ text]).
  { unfold text_message, join_with. simpl. repeat (rewrite <- app_assoc; simpl). by rewrite app_nil_r. }
  assert (Hp : forall p q, p <> [] -> Forall (fun c => c <> chr_space /\ c <> chr_newline) p ->
    value_text q -> plain chr_space (p ++ q)).
  { intros p q Hp Hpl Hq. split; [by destruct p|]. by apply Forall_app_2. }
  rewrite Heq, tokenize_data_strings; [|done|by destruct Hs as [? _]; destruct s].
  apply tokens_spec_join; [done|done|].
  apply Forall_cons_2; [split; [done|by_decide]|]. apply Forall_cons_2; [apply Hp; [done|by_decide|done]|].
  apply Forall_cons_2; [apply Hp; [done|by_decide|done]|]. apply Forall_nil_2.
Qed.

Lemma getTokenString_hit name v : getTokenString (name ++ chr_eq :: v) name = Some v.
Proof.
  unfold getTokenString, has_name. rewrite take_app_length, beq_refl.
  rewrite (proj2 (char_is_eq _ _ _)) by by apply list_lookup_middle.
  rewrite length_app. simpl. replace (length name + 1 <=? length name + S (length v))%nat with true
    by (symmetry; apply Nat.leb_le; lia).
  simpl. rewrite drop_app_ge by lia. by replace (length name + 1 - length name)%nat with 1%nat by lia.
Qed.

Lemma getTokenString_miss t name : no_eq t -> getTokenString t name = None.
Proof.
  intros Ht. unfold getTokenString, has_name. destruct (char_is t (length name) chr_eq) eqn:E.
  - apply char_is_eq in E. by apply (Forall_lookup_1 _ _ _ _ Ht) in E.
  - by rewrite !andb_false_r.
Qed.

Lemma getTokenString_other name' v name :
  no_eq name -> no_eq name' -> name <> name' -> getTokenString (name' ++ chr_eq :: v) name = None.
Proof.
  intros Hn Hn' Hd. unfold getTokenString.
  by rewrite has_name_kv, bool_decide_eq_false_2, andb_false_r by done.
Qed.

Lemma text_token_values sv s id text :
  no_eq s -> sv_strings sv = text_tokens s id text ->
  getTokenString_sv sv (str "id") = Some id /\ getTokenString_sv sv (str "text") = Some text /\
  sv_get sv 0 = s /\ equals sv 1 (str "textinput") = true /\ sv_size sv = 4%nat.
Proof.
  intros Hs Hsv. unfold getTokenString_sv. rewrite Hsv. cbn [first_token text_tokens].
  rewrite !(getTokenString_miss s) by done. rewrite !(getTokenString_miss (str "textinput")) by (unfold no_eq; by_decide).
  change (str "id=" ++ id) with (str "id" ++ chr_eq :: id).
  change (str "text=" ++ text) with (str "text" ++ chr_eq :: text).
  rewrite !getTokenString_hit. rewrite sv_get_strings, sv_size_strings, equals_strings, Hsv.
  split_and!; try done.
  by rewrite getTokenString_other by (done || (unfold no_eq; by_decide)).
Qed.

Lemma equals_other_strings a i b j :
  equals_other a i b j = match sv_strings a !! i, sv_strings b !! j with
                         | Some x, Some y => beq x y | _, _ => false end.
Proof.
  unfold equals_other. rewrite !sv_strings_lookup.
  destruct (sv_tokens a !! i), (sv_tokens b !! j); done.
Qed.

(** A queued message that neither blocks the search for [id] nor matches it. *)
Definition transparent (tokens : StringVector) (id : bytes) (it : bytes) : Prop :=
  blocks_combining (tokenize_data it chr_space) tokens (str "removetextcontext") = false /\
  queued_text (tokenize_data it chr_space) tokens id = None.

Lemma combine_text_skip q mid tokens id text :
  Forall (transparent tokens id) mid ->
  forall rest, combine_text_loop (length q + length mid) (q ++ mid ++ rest) tokens id text =
               combine_text_loop (length q) (q ++ mid ++ rest) tokens id text.
Proof.
  intros Hm. induction mid as [|x mid IH] using rev_ind; intros rest; [by rewrite Nat.add_0_r|].
  apply Forall_app in Hm as [Hm Hx]. rewrite Forall_singleton in Hx. destruct Hx as [Hb Hq].
  rewrite length_app. simpl. replace (length q + (length mid + 1))%nat with (S (length q + length mid)) by lia.
  simpl. replace ((q ++ (mid ++ [x]) ++ rest) !! (length q + length mid)%nat) with (Some x).
  - rewrite Hb, Hq. rewrite <- app_assoc. by rewrite IH.
  - rewrite <- app_assoc, app_assoc. simpl. rewrite <- length_app. symmetry. by apply list_lookup_middle.
Qed.

Lemma textinput_put k s id text :
  word s -> no_eq s -> value_text id -> value_text text ->
  s <> str "tilecombine" -> s <> str "tile" -> s <> str "callback" ->
  put k (text_message s id text) =
  let '(newMsg, queue) := combineTextInput (kq_queue k) (tokenize_data (text_message s id text) chr_space) in
  Ok (set_queue k (queue ++ [match newMsg with [] => text_message s id text | _ => newMsg end])).
Proof.
  intros [[Hne Hp] _] _ _ _ H1 H2 H3.
  assert (Hft : getFirstToken (text_message s id text) chr_space = s).
  { unfold getFirstToken, getDelimitedInitialSubstring, text_message.
    change (str " textinput id=" ++ id ++ str " text=" ++ text)
      with (chr_space :: (str "textinput id=" ++ id ++ str " text=" ++ text)).
    rewrite getDelimiterPosition_app, take_app_length; [done|].
    eapply Forall_impl; [exact Hp|]. simpl. tauto. }
  unfold put. rewrite Hft.
  rewrite (proj2 (beq_neq s (str "tilecombine"))), (proj2 (beq_neq s (str "tile"))),
    (proj2 (beq_neq s (str "callback"))) by done.
  assert (Htx : textItem (text_message s id text) s = Some false).
  { unfold textItem, memcmp_prefix, text_message. rewrite !length_app.
    destruct (Nat.ltb_spec (length s + (length (str " textinput id=") + (length id + (length (str " text=") + length text))))
      (length s + 3)) as [Hl|_]; [simpl in Hl; lia|].
    rewrite drop_app_ge by lia. replace (length s + 1 - length s)%nat with 1%nat by lia.
    rewrite Nat.min_r; [|simpl; rewrite ?length_app; simpl; lia].
    rewrite (proj2 (beq_eq (take (length (str "textinput")) _) (take (length (str "textinput")) _))) . 2: { vm_compute. reflexivity. }
    reflexivity. }
  rewrite Htx. assert (Hnil : text_message s id text <> []) by (unfold text_message; by destruct s).
  destruct (combineTextInput _ _) as [newMsg queue]. destruct (text_message s id text); [done|]. by destruct newMsg.
Qed.

(** Fact (functional): text input is merged: when the queue holds a textinput message of
    the same session and input id, followed only by messages that neither block
    combining nor match, the new message is merged into it: the old entry leaves its
    place, and one message whose text is the old text followed by the new one goes to
    the end; nothing else moves. *)
Theorem textinput_merged k before mid s id a b :
  word s -> no_eq s -> value_text id -> value_text a -> value_text b ->
  s <> str "tilecombine" -> s <> str "tile" -> s <> str "callback" ->
  kq_queue k = before ++ text_message s id a :: mid ->
  Forall (transparent (tokenize_data (text_message s id b) chr_space) id) mid ->
  put k (text_message s id b) = Ok (set_queue k (before ++ mid ++ [text_message s id (a ++ b)])).
Proof.
  intros Hw Hne Hid Ha Hb H1 H2 H3 Hq Hm. rewrite textinput_put by done.
  pose proof (text_message_tokens s id b Hw Hid Hb) as Hsv.
  pose proof (text_message_tokens s id a Hw Hid Ha) as Hsva.
  destruct (text_token_values _ _ _ _ Hne Hsv) as (T1 & T2 & T3 & T4 & T5).
  destruct (text_token_values _ _ _ _ Hne Hsva) as (A1 & A2 & A3 & A4 & A5).
  unfold combineTextInput. rewrite T1, T2, Hq.
  pose proof (combine_text_skip (before ++ [text_message s id a]) mid _ id b Hm []) as Hskip.
  rewrite !app_nil_r, <- !app_assoc, !length_app in Hskip. simpl in Hskip.
  rewrite length_app. simpl. replace (length before + S (length mid))%nat with (length before + 1 + length mid)%nat by lia.
  rewrite Hskip, Nat.add_1_r. simpl.
  rewrite list_lookup_middle by done.
  assert (Heo : equals_other (tokenize_data (text_message s id a) chr_space) 0
                  (tokenize_data (text_message s id b) chr_space) 0 = true).
  { rewrite equals_other_strings, Hsv, Hsva. simpl. apply beq_refl. }
  assert (Hnb : blocks_combining (tokenize_data (text_message s id a) chr_space)
                  (tokenize_data (text_message s id b) chr_space) (str "removetextcontext") = false).
  { unfold blocks_combining. rewrite A5, Heo, !equals_strings, Hsva. done. }
  rewrite Hnb. unfold queued_text. rewrite Heo, A4, A1, beq_refl, A2, A3. simpl.
  rewrite delete_middle.
  assert (Hnil : text_message s id (a ++ b) <> []) by (unfold text_message; by destruct Hw as [[? _] _]; destruct s).
  destruct (text_message s id (a ++ b)); [done|]. by rewrite <- app_assoc.
Qed.

Lemma textinput_merged_witness :
  put {| kq_queue := [str "s1 ping 1"; text_message (str "s1") (str "0") (str "he"); str "s2 key code"];
         kq_tileQueues := []; kq_callbacks := [] |} (text_message (str "s1") (str "0") (str "llo"))
  = Ok (set_queue {| kq_queue := [str "s1 ping 1"; text_message (str "s1") (str "0") (str "he"); str "s2 key code"];
                     kq_tileQueues := []; kq_callbacks := [] |}
          [str "s1 ping 1"; str "s2 key code"; text_message (str "s1") (str "0") (str "hello")]).
Proof.
  apply (textinput_merged {| kq_queue := [str "s1 ping 1"; text_message (str "s1") (str "0") (str "he"); str "s2 key code"];
           kq_tileQueues := []; kq_callbacks := [] |} [str "s1 ping 1"] [str "s2 key code"]
           (str "s1") (str "0") (str "he") (str "llo")).
  - split; [split; [done|by_decide]|done].
  - unfold no_eq. by_decide.
  - unfold value_text. by_decide.
  - unfold value_text. by_decide.
  - unfold value_text. by_decide.
  - by_decide.
  - by_decide.
  - by_decide.
  - reflexivity.
  - apply Forall_singleton. split; vm_compute; reflexivity.
Defined.

(** Fact (safety): text input never overtakes a key, mouse or removal event of its
    session: if such a message is queued and only transparent ones follow it, the new
    message is appended unchanged. *)
Theorem textinput_barrier k before barrier mid s id b :
  word s -> no_eq s -> value_text id -> value_text b ->
  s <> str "tilecombine" -> s <> str "tile" -> s <> str "callback" ->
  kq_queue k = before ++ barrier :: mid ->
  blocks_combining (tokenize_data barrier chr_space) (tokenize_data (text_message s id b) chr_space)
    (str "removetextcontext") = true ->
  Forall (transparent (tokenize_data (text_message s id b) chr_space) id) mid ->
  put k (text_message s id b) = Ok (set_queue k (kq_queue k ++ [text_message s id b])).
Proof.
  intros Hw Hne Hid Hb H1 H2 H3 Hq Hbar Hm. rewrite textinput_put by done.
  pose proof (text_message_tokens s id b Hw Hid Hb) as Hsv.
  destruct (text_token_values _ _ _ _ Hne Hsv) as (T1 & T2 & _).
  unfold combineTextInput. rewrite T1, T2, Hq.
  pose proof (combine_text_skip (before ++ [barrier]) mid _ id b Hm []) as Hskip.
  rewrite !app_nil_r, <- !app_assoc, !length_app in Hskip. simpl in Hskip.
  rewrite length_app. simpl. replace (length before + S (length mid))%nat with (length before + 1 + length mid)%nat by lia.
  rewrite Hskip, Nat.add_1_r. simpl. rewrite list_lookup_middle by done. by rewrite Hbar.
Qed.

Lemma textinput_barrier_witness :
  put {| kq_queue := [text_message (str "s1") (str "0") (str "he"); str "s1 key type=input"];
         kq_tileQueues := []; kq_callbacks := [] |} (text_message (str "s1") (str "0") (str "llo"))
  = Ok (set_queue {| kq_queue := [text_message (str "s1") (str "0") (str "he"); str "s1 key type=input"];
                     kq_tileQueues := []; kq_callbacks := [] |}
          ([text_message (str "s1") (str "0") (str "he"); str "s1 key type=input"]
           ++ [text_message (str "s1") (str "0") (str "llo")])).
Proof.
  apply (textinput_barrier {| kq_queue := [text_message (str "s1") (str "0") (str "he"); str "s1 key type=input"];
           kq_tileQueues := []; kq_callbacks := [] |} [text_message (str "s1") (str "0") (str "he")]
           (str "s1 key type=input") [] (str "s1") (str "0") (str "llo")).
  - split; [split; [done|by_decide]|done].
  - unfold no_eq. by_decide.
  - unfold value_text. by_decide.
  - unfold value_text. by_decide.
  - by_decide.
  - by_decide.
  - by_decide.
  - reflexivity.
  - vm_compute. reflexivity.
  - constructor.
Defined.
