(* ===== verification/TileData.v ===== *)
(** * [TileData]: a key frame and its deltas

    Models the struct [TileData] of [wsd/TileCache.hpp]: the blob that holds a
    key frame followed by deltas, the wire ids and the start offsets of its
    frames. The theorems relate the three parallel vectors to the list of
    frames they stand for. *)

From stdpp Require Import sorting.
From S2P Require Import Prelude StringVector.

(** ** Data *)

Record TileData := {
  _wids : list Z;
  _offsets : list nat;
  _deltas : bytes;
  _valid : bool }.

#[global] Instance TileData_eq_dec : EqDecision TileData.
Proof. solve_decision. Defined.

(** An object before its constructor has run [appendBlob]. *)
Definition TileData_empty : TileData := {| _wids := []; _offsets := []; _deltas := []; _valid := false |}.

Definition td_size (t : TileData) : nat := length (_deltas t).

Definition isKeyframe (data : bytes) : bool :=
  match data with c :: _ => (c =? 90 (* 'Z' *)) || (c =? 137 (* 0x89 *)) | [] => false end.

(** [isPng] looks at the first stored byte. *)
Definition isPng (t : TileData) : bool := (1 <? td_size t)%nat && char_is (_deltas t) 0 137.

Definition isValid (t : TileData) : bool := _valid t.
Definition invalidate (t : TileData) : TileData :=
  {| _wids := _wids t; _offsets := _offsets t; _deltas := _deltas t; _valid := false |}.

(** [v.back() = x]. *)
Definition set_back {A} (v : list A) (x : A) : list A := take (length v - 1) v ++ [x].

(** [appendBlob]: the new object; the size change is [td_size] after minus before. *)
Definition appendBlob (t : TileData) (id : Z) (data : bytes) : TileData :=
  let '(wids, offsets, deltas) :=
    if isKeyframe data then ([], [], []) else (_wids t, _offsets t, _deltas t) in
  let oldSize := length deltas in
  if (length data =? 1)%nat && (1 <? length offsets)%nat
     && bool_decide (last offsets = Some (length deltas)) then
    {| _wids := set_back wids id; _offsets := offsets; _deltas := deltas; _valid := true |}
  else
    {| _wids := wids ++ [id]; _offsets := offsets ++ [length deltas];
       _deltas := if (1 <? length data)%nat then deltas ++ drop 1 data else deltas;
       _valid := true |}.

Definition appendBlob_change (t : TileData) (id : Z) (data : bytes) : Z :=
  Z.of_nat (td_size (appendBlob t id data)) - Z.of_nat (td_size t).

(** The constructor. *)
Definition TileData_new (start : Z) (data : bytes) : TileData := appendBlob TileData_empty start data.

Definition tooLarge (t : TileData) : bool :=
  if (length (_offsets t) <=? 1)%nat then false
  else match _offsets t !! 1%nat with
       | Some o => (128 * 1024 <? td_size t - o)%nat
       | None => false
       end.

(** [_wids[0]] is read without a check: [None] when there is no frame. *)
Definition needsKeyframe (t : TileData) (since : Z) : option bool :=
  match _wids t with w :: _ => Some (since <? w) | [] => None end.

(** The index loop of [appendChangesSince]. *)
Fixpoint skip_wids (wids : list Z) (since : Z) (i : nat) : nat :=
  match wids with
  | [] => i
  | w :: rest => if negb (since =? 0) && (w <=? since) then skip_wids rest since (S i) else i
  end.

(** [appendChangesSince]: the output and the returned flag. *)
Definition appendChangesSince (t : TileData) (output : bytes) (since : Z) : bytes * bool :=
  let i := skip_wids (_wids t) since 0 in
  if (length (_wids t) <=? i)%nat then (output, false)
  else match _offsets t !! i with
       | Some offset => (output ++ drop offset (_deltas t), true)
       | None => (output, false)
       end.

(** ** Specification: a list of frames *)

(** A frame: its wire id and its payload (without the leading type byte). *)
Abbreviation frame := (Z * list Z)%type.

Fixpoint offsets_from (start : nat) (fs : list frame) : list nat :=
  match fs with [] => [] | f :: rest => start :: offsets_from (start + length f.2) rest end.

Definition payloads (fs : list frame) : bytes := concat (map snd fs).

(** [t] stores the frames [fs]. *)
Record stores (t : TileData) (fs : list frame) : Prop := {
  st_wids : _wids t = map fst fs;
  st_offsets : _offsets t = offsets_from 0 fs;
  st_deltas : _deltas t = payloads fs }.

(** What a blob does to the frames. *)
Definition append_frame (fs : list frame) (id : Z) (data : bytes) : list frame :=
  if isKeyframe data then [(id, drop 1 data)]
  else if (length data =? 1)%nat && (1 <? length fs)%nat
          && bool_decide (snd <$> last fs = Some []) then take (length fs - 1) fs ++ [(id, [])]
  else fs ++ [(id, drop 1 data)].

Lemma offsets_from_length n fs : length (offsets_from n fs) = length fs.
Proof. revert n. induction fs as [|f fs IH]; intros n; simpl; [done|]. by rewrite IH. Qed.

Lemma payloads_app a b : payloads (a ++ b) = payloads a ++ payloads b.
Proof. unfold payloads. by rewrite map_app, concat_app. Qed.

Lemma offsets_from_app n a b :
  offsets_from n (a ++ b) = offsets_from n a ++ offsets_from (n + length (payloads a)) b.
Proof.
  revert n. induction a as [|f a IH]; intros n; simpl; [by rewrite Nat.add_0_r|].
  rewrite IH. unfold payloads. simpl. rewrite length_app.
  by replace (n + (length f.2 + length (concat (map snd a))))%nat
    with (n + length f.2 + length (concat (map snd a)))%nat by lia.
Qed.

Lemma payloads_snoc fs f : payloads (fs ++ [f]) = payloads fs ++ f.2.
Proof. rewrite payloads_app. unfold payloads at 2. simpl. by rewrite app_nil_r. Qed.

(** The last frame is empty exactly when it starts at the end of the blob. *)
Lemma last_offset_spec fs :
  last (offsets_from 0 fs) = Some (length (payloads fs)) <-> snd <$> last fs = Some [].
Proof.
  destruct fs as [|f fs] using rev_ind; [done|].
  rewrite offsets_from_app, payloads_snoc, length_app. simpl. rewrite !last_snoc. simpl. split.
  - intros [= H]. f_equal. destruct (snd f); [done|]. simpl in H. lia.
  - intros [= ->]. f_equal. simpl. lia.
Qed.

Lemma stores_append t fs id data :
  stores t fs -> data <> [] -> stores (appendBlob t id data) (append_frame fs id data).
Proof.
  intros [Hw Ho Hd] Hne. unfold appendBlob, append_frame.
  destruct (isKeyframe data) eqn:Hk.
  - rewrite andb_false_r. simpl. destruct data as [|c data]; [done|]. constructor; simpl; [done|done|].
    unfold payloads. simpl. rewrite app_nil_r. by destruct data.
  - rewrite Ho, Hd, offsets_from_length. rewrite (bool_decide_ext _ _ (last_offset_spec fs)).
    destruct ((length data =? 1)%nat && (1 <? length fs)%nat && _) eqn:E.
    + bool_hyps. destruct E as [[H1 H2] H3]. destruct fs as [|f fs] using rev_ind; [simpl in H2; lia|].
      rewrite last_snoc in H3. injection H3 as H3. rewrite length_app. simpl.
      rewrite Nat.add_sub, take_app_length. constructor; cbn [_wids _offsets _deltas].
      * rewrite Hw. unfold set_back. rewrite !map_app, length_app. simpl.
        rewrite Nat.add_sub. by rewrite take_app_length' by by rewrite length_map.
      * rewrite !offsets_from_app. done.
      * rewrite !payloads_snoc. by rewrite H3.
    + constructor; cbn [_wids _offsets _deltas].
      * by rewrite Hw, map_app.
      * by rewrite offsets_from_app.
      * rewrite payloads_snoc.
        destruct data as [|c [|d data]]; simpl; [done|by rewrite app_nil_r|done].
Qed.

(** ** Reading changes *)

(** The frames a client that has everything up to [since] lacks. *)
Definition newer (since : Z) (f : frame) : bool := (since =? 0) || (since <? f.1).

(** Wire ids grow from frame to frame. *)
Definition ascending (fs : list frame) : Prop := StronglySorted (fun a b => a.1 < b.1) fs.

Lemma offsets_from_lookup fs i :
  (i < length fs)%nat -> offsets_from 0 fs !! i = Some (length (payloads (take i fs))).
Proof.
  intros Hi. rewrite <- (take_drop i fs) at 1. rewrite offsets_from_app.
  rewrite lookup_app_r, offsets_from_length by (rewrite offsets_from_length, length_take; lia).
  rewrite length_take, Nat.min_l, Nat.sub_diag by lia.
  destruct (drop i fs) as [|f r] eqn:E; [|done].
  apply (f_equal length) in E. rewrite length_drop in E. simpl in E. lia.
Qed.

Lemma payloads_drop fs i : drop (length (payloads (take i fs))) (payloads fs) = payloads (drop i fs).
Proof. rewrite <- (take_drop i fs) at 2. by rewrite payloads_app, drop_app_length. Qed.

Lemma skip_wids_le (fs : list frame) since n :
  (n <= skip_wids (map fst fs) since n <= n + length fs)%nat.
Proof.
  revert n. induction fs as [|f fs IH]; intros n; simpl; [lia|].
  destruct (negb _ && _); [|lia]. specialize (IH (S n)). lia.
Qed.

Lemma skip_wids_newer fs since n :
  ascending fs -> List.filter (newer since) fs = drop (skip_wids (map fst fs) since n - n) fs.
Proof.
  intros Ha. revert n. induction Ha as [|f fs Ha IH Hf]; intros n; simpl.
  { by rewrite drop_nil. }
  unfold newer at 1. destruct (Z.eqb_spec since 0) as [->|Hs]; simpl.
  - rewrite Nat.sub_diag. simpl. f_equal. clear. induction fs as [|g fs IH]; simpl; [done|]. by rewrite IH.
  - destruct (Z.leb_spec f.1 since) as [Hle|Hgt]; simpl.
    + destruct (Z.ltb_spec since f.1); [lia|]. rewrite (IH (S n)). pose proof (skip_wids_le fs since (S n)).
      by replace (skip_wids (map fst fs) since (S n) - n)%nat
        with (S (skip_wids (map fst fs) since (S n) - S n))%nat by lia.
    + destruct (Z.ltb_spec since f.1); [|lia]. rewrite Nat.sub_diag. simpl. f_equal.
      assert (Hall : Forall (fun g => newer since g = true) fs).
      { eapply Forall_impl; [exact Hf|]. simpl. intros g Hg. unfold newer.
        apply orb_true_iff. right. apply Z.ltb_lt. lia. }
      clear -Hall. induction Hall as [|g fs Hg Hall IH]; simpl; [done|]. by rewrite Hg, IH.
Qed.

Lemma appendChangesSince_frames t fs output since :
  stores t fs -> ascending fs ->
  appendChangesSince t output since =
    (output ++ payloads (List.filter (newer since) fs), bool_decide (List.filter (newer since) fs <> [])).
Proof.
  intros [Hw Ho Hd] Ha. unfold appendChangesSince. rewrite Hw, Ho, Hd, length_map.
  rewrite (skip_wids_newer fs since 0 Ha), Nat.sub_0_r. set (i := skip_wids (map fst fs) since 0).
  destruct (Nat.leb_spec (length fs) i) as [Hge|Hlt].
  - rewrite drop_ge by done. unfold payloads. simpl. by rewrite app_nil_r.
  - rewrite offsets_from_lookup, payloads_drop by done. rewrite bool_decide_eq_true_2; [done|].
    intros E. apply (f_equal length) in E. rewrite length_drop in E. simpl in E. lia.
Qed.

(** ** The frames after a blob *)

Lemma ascending_snoc fs (f : frame) :
  ascending fs -> Forall (fun g : frame => g.1 < f.1) fs -> ascending (fs ++ [f]).
Proof.
  induction 1 as [|g fs Ha IH Hg]; simpl; intros Hf; [repeat constructor|].
  apply Forall_cons in Hf as [Hgf Hf]. constructor; [by apply IH|]. apply Forall_app_2; [done|by apply Forall_singleton].
Qed.

Lemma ascending_prefix fs gs : ascending (fs ++ gs) -> ascending fs.
Proof. apply StronglySorted_app_1_l. Qed.

(** The three shapes of [append_frame]. *)
Lemma append_frame_cases fs id data :
  (isKeyframe data = true /\ append_frame fs id data = [(id, drop 1 data)]) \/
  (exists pre x, pre <> [] /\ drop 1 data = [] /\ fs = pre ++ [(x, [])] /\ append_frame fs id data = pre ++ [(id, [])]) \/
  append_frame fs id data = fs ++ [(id, drop 1 data)].
Proof.
  unfold append_frame. destruct (isKeyframe data); [by left|right].
  destruct (_ && _ && _) eqn:E; [left|by right]. bool_hyps. destruct E as [[Hd Hl] He].
  destruct fs as [|[x p] pre _] using rev_ind; [done|]. rewrite last_snoc in He. simpl in He. injection He as ->.
  exists pre, x. rewrite length_app in *. simpl in *. rewrite Nat.add_sub, take_app_length.
  split_and!; [destruct pre; [simpl in *; lia|done]|by destruct data as [|c []]|done|done].
Qed.

Lemma append_frame_ok fs id data :
  ascending fs -> Forall (fun f : frame => 0 < f.1) fs -> Forall (fun f : frame => f.1 < id) fs -> 0 < id ->
  append_frame fs id data <> [] /\ ascending (append_frame fs id data) /\
  Forall (fun f : frame => 0 < f.1) (append_frame fs id data) /\ fst <$> last (append_frame fs id data) = Some id /\
  Forall (fun f : frame => f.1 <= id) (append_frame fs id data).
Proof.
  intros Ha Hp Hlt Hid.
  assert (Hs : forall pre x, ascending pre -> Forall (fun f : frame => 0 < f.1) pre ->
    Forall (fun f : frame => f.1 < id) pre ->
    let l := pre ++ [(id, x)] in l <> [] /\ ascending l /\ Forall (fun f : frame => 0 < f.1) l /\
    fst <$> last l = Some id /\ Forall (fun f : frame => f.1 <= id) l).
  { intros pre x H1 H2 H3. cbv zeta. split_and!.
    - by destruct pre.
    - by apply ascending_snoc.
    - apply Forall_app_2; [done|by apply Forall_singleton].
    - by rewrite last_snoc.
    - apply Forall_app_2; [eapply Forall_impl; [exact H3|]; simpl; lia|apply Forall_singleton; simpl; lia]. }
  destruct (append_frame_cases fs id data) as [[_ ->]|[(pre & x & Hne & _ & -> & ->)| ->]].
  - apply (Hs [] (drop 1 data)); constructor.
  - apply Forall_app in Hp as [Hp _]. apply Forall_app in Hlt as [Hlt _]. apply Hs; [by eapply ascending_prefix|done|done].
  - by apply Hs.
Qed.

(** ** Theorems *)

(** C33 (refinement): the blob with its ids and offsets implements a list of frames:
    [appendBlob] replaces the list by a key frame, bumps the id of a trailing empty
    delta, or appends a frame; the tile becomes valid. *)
Theorem appendBlob_refines t fs id data :
  stores t fs -> data <> [] ->
  stores (appendBlob t id data) (append_frame fs id data) /\ isValid (appendBlob t id data) = true.
Proof.
  intros Hs Hd. split; [by apply stores_append|]. unfold appendBlob, isValid.
  destruct (if isKeyframe data then _ else _) as [[ws os] ds]. by destruct (_ && _ && _).
Qed.

Lemma stores_empty : stores TileData_empty [].
Proof. by constructor. Defined.

(** The sequence of the unit test [testTileData]. *)
Definition sample_frames : list frame := [(43, str "foo"); (44, str "baa")].
Definition sample_data : TileData :=
  appendBlob (appendBlob (TileData_new 42 (str "Zfoo")) 43 (str "Zfoo")) 44 (str "Dbaa").

Lemma sample_stores : stores sample_data sample_frames.
Proof. constructor; vm_compute; reflexivity. Defined.

Lemma appendBlob_refines_witness :
  stores (appendBlob sample_data 47 (str "Dbaz")) [(43, str "foo"); (44, str "baa"); (47, str "baz")] /\
  isValid (appendBlob sample_data 47 (str "Dbaz")) = true.
Proof. apply (appendBlob_refines sample_data sample_frames 47 (str "Dbaz") sample_stores). discriminate. Defined.

(** Fact (functional): [appendChangesSince] hands out exactly the frames newer than
    [since] (all of them for [since = 0]), in order and without gaps, and reports
    whether there are any. *)
Theorem appendChangesSince_spec t fs output since :
  stores t fs -> ascending fs ->
  appendChangesSince t output since =
    (output ++ payloads (List.filter (newer since) fs), bool_decide (List.filter (newer since) fs <> [])).
Proof. apply appendChangesSince_frames. Qed.

Lemma sample_ascending : ascending sample_frames.
Proof. repeat constructor. Defined.

Lemma appendChangesSince_spec_witness :
  appendChangesSince sample_data [] 43 = (str "baa", true).
Proof. exact (appendChangesSince_spec sample_data sample_frames [] 43 sample_stores sample_ascending). Defined.

(** Fact (error): [isPng] never recognises a PNG image: [appendBlob] drops the first
    byte of the blob, which is the byte [isPng] looks for, so a blob that starts with
    the PNG signature is not seen as one. *)
Theorem isPng_misses_png start rest :
  isPng (TileData_new start (137 :: 80 :: rest)) = false.
Proof.
  unfold TileData_new, appendBlob, isPng. cbn. by rewrite andb_false_r || done.
Qed.
