(* ===== verification/TileCache.v ===== *)
(** * [TileCache]: the rendered tiles of one document

    Models [wsd/TileCache.hpp] and [wsd/TileCache.cpp]: the cache of tiles and
    its size accounting, eviction by wire id, invalidation, the tiles being
    rendered with their subscribers, and the stream cache.

    The two hash maps are keyed by the fields their hasher and comparison use.
    A [std::weak_ptr] to a session is the session's number with a test whether
    it is still alive; [sizeof(Tile) + sizeof(TileDesc)] is a parameter; times
    are milliseconds of the steady clock. *)

From stdpp Require Import sorting.
From S2P Require Import Prelude Algo Util StringVector Protocol Rectangle TileDesc TileData.

Open Scope cool_scope.

(** ** Keys *)

(** The fields of [TileDescCacheCompareEq]. *)
Definition cache_key (t : TileDesc) : list Z :=
  [_part t; _width t; _height t; _tilePosX t; _tilePosY t; _tileWidth t; _tileHeight t;
   _canonicalViewId t; _mode t].

Definition TileDescCacheCompareEq (l r : TileDesc) : bool :=
  (_part l =? _part r) && (_width l =? _width r) && (_height l =? _height r)
  && (_tilePosX l =? _tilePosX r) && (_tilePosY l =? _tilePosY r)
  && (_tileWidth l =? _tileWidth r) && (_tileHeight l =? _tileHeight r)
  && (_canonicalViewId l =? _canonicalViewId r) && (_mode l =? _mode r).

(** [TileDescCacheHasher], on [size_t]. *)
Definition TileDescCacheHasher (t : TileDesc) : Z :=
  fold_left (fun hash v => u64 (u64 (Z.shiftl hash 5) + hash + u64 v))
    [_mode t; _width t; _height t; _tilePosX t; _tilePosY t; _tileWidth t; _tileHeight t; _canonicalViewId t]
    (u64 (_part t)).

(** ** Data *)

(** A map entry: the key the map stores is the descriptor of the first insertion. *)
Record entry := { e_desc : TileDesc; e_tile : TileData }.

Record TileBeingRendered := {
  r_subscribers : list Z;
  r_startTime : Z;
  r_tile : TileDesc }.

Inductive StreamType := Font | Style | CmdValues.
#[global] Instance StreamType_eq_dec : EqDecision StreamType.
Proof. solve_decision. Defined.
Definition stream_index (t : StreamType) : nat := match t with Font => 0 | Style => 1 | CmdValues => 2 end.

Record TileCache := {
  tcc_cache : gmap (list Z) entry;
  tcc_rendered : gmap (list Z) TileBeingRendered;
  tcc_streams : gmap (nat * list Z) bytes;
  tcc_cacheSize : Z;
  tcc_maxCacheSize : Z;
  tcc_dontCache : bool }.

Definition TileCache_new (dontCache : bool) : TileCache :=
  {| tcc_cache := ∅; tcc_rendered := ∅; tcc_streams := ∅; tcc_cacheSize := 0;
     tcc_maxCacheSize := 1024 * 1024; tcc_dontCache := dontCache |}.

Definition set_cache (c : TileCache) (m : gmap (list Z) entry) (size : Z) : TileCache :=
  {| tcc_cache := m; tcc_rendered := tcc_rendered c; tcc_streams := tcc_streams c; tcc_cacheSize := size;
     tcc_maxCacheSize := tcc_maxCacheSize c; tcc_dontCache := tcc_dontCache c |}.
Definition set_rendered (c : TileCache) (r : gmap (list Z) TileBeingRendered) : TileCache :=
  {| tcc_cache := tcc_cache c; tcc_rendered := r; tcc_streams := tcc_streams c;
     tcc_cacheSize := tcc_cacheSize c; tcc_maxCacheSize := tcc_maxCacheSize c;
     tcc_dontCache := tcc_dontCache c |}.

Definition tcache_clear (c : TileCache) : TileCache :=
  {| tcc_cache := ∅; tcc_rendered := tcc_rendered c; tcc_streams := ∅; tcc_cacheSize := 0;
     tcc_maxCacheSize := tcc_maxCacheSize c; tcc_dontCache := tcc_dontCache c |}.

(** ** Tiles being rendered *)

Definition COMMAND_TIMEOUT_MS : Z := 5000.

Definition isStale (r : TileBeingRendered) (now : Z) : bool := COMMAND_TIMEOUT_MS <? now - r_startTime r.
Definition r_version (r : TileBeingRendered) : Z := _ver (r_tile r).
Definition r_setVersion (r : TileBeingRendered) (v : Z) : TileBeingRendered :=
  {| r_subscribers := r_subscribers r; r_startTime := r_startTime r; r_tile := setVersion (r_tile r) v |}.

Definition findTileBeingRendered (c : TileCache) (tile : TileDesc) : option TileBeingRendered :=
  tcc_rendered c !! cache_key tile.

Definition hasTileBeingRendered (c : TileCache) (tile : TileDesc) (now : option Z) : bool :=
  match tcc_rendered c !! cache_key tile with
  | None => false
  | Some r => match now with None => true | Some n => negb (isStale r n) end
  end.

Definition getTileBeingRenderedVersion (c : TileCache) (tile : TileDesc) : Z :=
  match findTileBeingRendered c tile with Some r => r_version r | None => 0 end.

Definition forgetTileBeingRendered (c : TileCache) (descForKitReply : TileDesc) (r : TileBeingRendered)
    : TileCache :=
  if r_version r <=? _ver descForKitReply
  then set_rendered c (delete (cache_key (r_tile r)) (tcc_rendered c)) else c.

(** The count over the map: the number of subscriptions of a live session. *)
Definition countTilesBeingRenderedForSession (c : TileCache) (session now : Z) : nat :=
  list_sum (map (fun kr => if isStale kr.2 now then 0%nat
                           else length (List.filter (Z.eqb session) (r_subscribers kr.2)))
              (map_to_list (tcc_rendered c))).

Definition subscribeToTileRendering (c : TileCache) (tile : TileDesc) (subscriber now : Z) : TileCache * bool :=
  match findTileBeingRendered c tile with
  | Some r =>
      if existsb (Z.eqb subscriber) (r_subscribers r) then
        (set_rendered c (<[cache_key tile := r_setVersion r (_ver tile)]> (tcc_rendered c)), false)
      else
        (set_rendered c (<[cache_key tile := {| r_subscribers := r_subscribers r ++ [subscriber];
           r_startTime := r_startTime r; r_tile := r_tile r |}]> (tcc_rendered c)), true)
  | None =>
      (set_rendered c (<[cache_key tile := {| r_subscribers := [subscriber]; r_startTime := now;
         r_tile := tile |}]> (tcc_rendered c)), true)
  end.

(** ** The cache *)

Definition findTile (c : TileCache) (desc : TileDesc) : option TileData :=
  e_tile <$> tcc_cache c !! cache_key desc.

Definition lookupTile (c : TileCache) (desc : TileDesc) : option TileData :=
  if tcc_dontCache c then None else findTile c desc.

Section sizes.
(** [sizeof(Tile) + sizeof(TileDesc)]. *)
Context (item_overhead : Z).

Definition itemCacheSize (t : TileData) : Z := item_overhead + Z.of_nat (td_size t).

(** [WidSize]: the wire id of the key and the size of the item. *)
Definition wid_size (e : entry) : Z * Z := (_wireId (e_desc e), itemCacheSize (e_tile e)).
Definition wid_le (a b : Z * Z) : Prop := a.1 <= b.1.
#[global] Instance wid_le_dec a b : Decision (wid_le a b).
Proof. unfold wid_le. apply _. Defined.

(** The loop that picks the wire id up to which tiles are removed. *)
Fixpoint pick_wid (wids : list (Z * Z)) (limit total maxToRemove : Z) : Z :=
  match wids with
  | [] => maxToRemove
  | (wid, size) :: rest =>
      if limit <? total + size then wid else pick_wid rest limit (total + size) wid
  end.

Definition max_to_remove (wids : list (Z * Z)) (maxCacheSize : Z) : Z :=
  match head wids, last wids with
  | Some front, Some back =>
      if 256 * 256 * 256 <? u32 (back.1 - front.1) then back.1
      else pick_wid wids (maxCacheSize / 4) 0 front.1
  | _, _ => 0
  end.

(** One round of the eviction loop. *)
Definition evict_step (rendered : gmap (list Z) TileBeingRendered) (maxToRemove : Z)
    (st : gmap (list Z) entry * Z) (ke : list Z * entry) : gmap (list Z) entry * Z :=
  if _wireId (e_desc ke.2) <=? maxToRemove then
    match rendered !! ke.1 with
    | Some _ => st
    | None => (delete ke.1 st.1, u64 (st.2 - itemCacheSize (e_tile ke.2)))
    end
  else st.

Definition ensureCacheSize (c : TileCache) : TileCache :=
  if (tcc_cacheSize c <? tcc_maxCacheSize c) || (size (tcc_cache c) <? 2)%nat then c
  else
    let items := map_to_list (tcc_cache c) in
    let wids := merge_sort wid_le (map (fun ke => wid_size ke.2) items) in
    let maxToRemove := max_to_remove wids (tcc_maxCacheSize c) in
    let '(m, sz) := fold_left (evict_step (tcc_rendered c) maxToRemove) items (tcc_cache c, tcc_cacheSize c) in
    set_cache c m sz.

Definition setMaxCacheSize (c : TileCache) (cacheSize : Z) : TileCache :=
  ensureCacheSize {| tcc_cache := tcc_cache c; tcc_rendered := tcc_rendered c; tcc_streams := tcc_streams c;
                     tcc_cacheSize := tcc_cacheSize c; tcc_maxCacheSize := cacheSize;
                     tcc_dontCache := tcc_dontCache c |}.

Definition saveDataToCache (c : TileCache) (desc : TileDesc) (data : bytes) : TileCache * option TileData :=
  if tcc_dontCache c then (c, Some (TileData_new (_wireId desc) data))
  else
    let c := ensureCacheSize c in
    match tcc_cache c !! cache_key desc with
    | None =>
        if negb (isKeyframe data) then (c, None)
        else
          let tile := TileData_new (_wireId desc) data in
          (set_cache c (<[cache_key desc := {| e_desc := desc; e_tile := tile |}]> (tcc_cache c))
             (u64 (tcc_cacheSize c + itemCacheSize tile)), Some tile)
    | Some e =>
        let tile := appendBlob (e_tile e) (_wireId desc) data in
        (set_cache c (<[cache_key desc := {| e_desc := e_desc e; e_tile := tile |}]> (tcc_cache c))
           (u64 (tcc_cacheSize c + appendBlob_change (e_tile e) (_wireId desc) data)), Some tile)
    end.

(** [saveTileAndNotify]: the new cache and the sessions the tile is sent to. *)
Definition saveTileAndNotify (alive : Z -> bool) (c : TileCache) (desc : TileDesc) (data : bytes)
    : TileCache * option TileData * list Z :=
  let tileBeingRendered := findTileBeingRendered c desc in
  let '(c, tile) := saveDataToCache c desc data in
  match tileBeingRendered with
  | Some r =>
      let sent := match tile with Some _ => List.filter alive (r_subscribers r) | None => [] end in
      (forgetTileBeingRendered c desc r, tile, sent)
  | None => (c, tile, [])
  end.
End sizes.

(** ** Invalidation *)

Definition intersectsTile (tileDesc : TileDesc) (part mode x y width height canonicalViewId : Z) : bool :=
  if negb (part =? -1) && negb (_part tileDesc =? part) then false
  else if negb (mode =? _mode tileDesc) then false
  else if negb (canonicalViewId =? _canonicalViewId tileDesc) then false
  else
    let left := Z.max x (_tilePosX tileDesc) in
    let right := Z.min (i32 (x + width)) (i32 (_tilePosX tileDesc + _tileWidth tileDesc)) in
    let top := Z.max y (_tilePosY tileDesc) in
    let bottom := Z.min (i32 (y + height)) (i32 (_tilePosY tileDesc + _tileHeight tileDesc)) in
    (left <=? right) && (top <=? bottom).

Definition invalidate_entry (part mode x y width height canonicalViewId : Z) (e : entry) : entry :=
  if intersectsTile (e_desc e) part mode x y width height canonicalViewId
  then {| e_desc := e_desc e; e_tile := invalidate (e_tile e) |} else e.

Definition invalidateTilesRect (c : TileCache) (part mode x y width height canonicalViewId : Z)
    : TileCache * bool :=
  if bool_decide (tcc_cache c = ∅) then (c, false)
  else (set_cache c (invalidate_entry part mode x y width height canonicalViewId <$> tcc_cache c)
          (tcc_cacheSize c), true).

(** The out-parameters of [parseInvalidateMsg] with the returned rectangle. *)
Record invalidate_msg := { im_rect : Rectangle; im_part : Z; im_mode : Z; im_wid : Z }.

Definition im_everything : Rectangle := rect_make 0 0 INT_MAX INT_MAX.

(** The failing end of the function: an assertion release builds drop. *)
Definition im_unexpected (mode wid : Z) : invalidate_msg :=
  {| im_rect := rect_make 0 0 0 0; im_part := -1; im_mode := mode; im_wid := wid |}.

Definition wid_of (tokens : StringVector) (i : nat) : Z := default 0 (getUInt32 tokens i (str "wid")).1.

(** The test chain of one of the two long forms from token [i] on: the
    rectangle when every test succeeds. *)
Definition im_fields (tokens : StringVector) (i : nat) : option (Z * Z * Z * Z) :=
  match getNonNegTokenInteger (sv_get tokens i) (str "x") with
  | (Some x, true) =>
      match getNonNegTokenInteger (sv_get tokens (i + 1)) (str "y") with
      | (Some y, true) =>
          match getNonNegTokenInteger (sv_get tokens (i + 2)) (str "width") with
          | (Some w, true) =>
              match getNonNegTokenInteger (sv_get tokens (i + 3)) (str "height") with
              | (Some h, true) => Some (x, y, w, h)
              | _ => None
              end
          | _ => None
          end
      | _ => None
      end
  | _ => None
  end.

Definition parseInvalidateMsg (tiles : bytes) : invalidate_msg :=
  let tokens := tokenize tiles chr_space in
  let n := sv_size tokens in
  if (n =? 2)%nat && equals tokens 1 (str "EMPTY") then
    {| im_rect := im_everything; im_part := -1; im_mode := 0; im_wid := 0 |}
  else if (n =? 3)%nat && equals tokens 1 (str "EMPTY,") then
    {| im_rect := im_everything; im_part := -1; im_mode := 0; im_wid := wid_of tokens 2 |}
  else if (n =? 4)%nat && equals tokens 1 (str "EMPTY,") then
    let '(part, ok) := stringToInteger (sv_get tokens 2) in
    if ok then {| im_rect := im_everything; im_part := part; im_mode := 0; im_wid := wid_of tokens 3 |}
    else im_unexpected 0 0
  else if (n =? 5)%nat && equals tokens 1 (str "EMPTY,") then
    let '(part, ok) := stringToInteger (sv_get tokens 2) in
    if ok then
      let '(mode, ok) := stringToInteger (sv_get tokens 3) in
      if ok then {| im_rect := im_everything; im_part := part; im_mode := mode; im_wid := wid_of tokens 4 |}
      else im_unexpected mode 0
    else im_unexpected 0 0
  else if (n =? 7)%nat then
    match getTokenInteger (sv_get tokens 1) (str "part"), im_fields tokens 2 with
    | (Some part, true), Some (x, y, w, h) =>
        let '(wid, ok) := getUInt32 tokens 6 (str "wid") in
        if ok then {| im_rect := rect_make x y w h; im_part := part; im_mode := 0; im_wid := default 0 wid |}
        else im_unexpected 0 (default 0 wid)
    | _, _ => im_unexpected 0 0
    end
  else if (n =? 8)%nat then
    match getTokenInteger (sv_get tokens 1) (str "part") with
    | (Some part, true) =>
        let '(mode, ok) := getTokenInteger (sv_get tokens 2) (str "mode") in
        if ok then
          match im_fields tokens 3 with
          | Some (x, y, w, h) =>
              let '(wid, ok) := getUInt32 tokens 7 (str "wid") in
              if ok then {| im_rect := rect_make x y w h; im_part := part; im_mode := default 0 mode;
                            im_wid := default 0 wid |}
              else im_unexpected (default 0 mode) (default 0 wid)
          | None => im_unexpected (default 0 mode) 0
          end
        else im_unexpected (default 0 mode) 0
    | _ => im_unexpected 0 0
    end
  else im_unexpected 0 0.

Definition invalidateTiles (c : TileCache) (tiles : bytes) (canonicalViewId : Z) : TileCache * bool :=
  let m := parseInvalidateMsg tiles in
  invalidateTilesRect c (im_part m) (im_mode m) (getLeft (im_rect m)) (getTop (im_rect m))
    (rect_getWidth (im_rect m)) (rect_getHeight (im_rect m)) canonicalViewId.

(** ** File names and streams *)

Definition cacheFileName (t : TileDesc) : bytes :=
  to_string (_canonicalViewId t) ++ str "_" ++ to_string (_part t) ++ str "_" ++ to_string (_mode t)
  ++ str "_" ++ to_string (_width t) ++ str "x" ++ to_string (_height t) ++ str "."
  ++ to_string (_tilePosX t) ++ str "," ++ to_string (_tilePosY t) ++ str "."
  ++ to_string (_tileWidth t) ++ str "x" ++ to_string (_tileHeight t) ++ str ".png".

Definition saveDataToStreamCache (c : TileCache) (type : StreamType) (fileName data : bytes) : TileCache :=
  if tcc_dontCache c then c
  else {| tcc_cache := tcc_cache c; tcc_rendered := tcc_rendered c;
          tcc_streams := <[(stream_index type, fileName) := data]> (tcc_streams c);
          tcc_cacheSize := tcc_cacheSize c; tcc_maxCacheSize := tcc_maxCacheSize c;
          tcc_dontCache := tcc_dontCache c |}.
Definition saveTextStream := saveDataToStreamCache.
Definition saveStream := saveDataToStreamCache.

Definition lookupCachedStream (c : TileCache) (type : StreamType) (name : bytes) : option bytes :=
  tcc_streams c !! (stream_index type, name).

Definition getTextStream (c : TileCache) (type : StreamType) (fileName : bytes) : option bytes :=
  (fun b => if bool_decide (last b = Some chr_newline) then take (length b - 1) b else b)
    <$> lookupCachedStream c type fileName.
