(* ===== verification/TileCacheSpec.v ===== *)
(** * What the tile cache promises

    Theorems about [TileCache.v]: the accounted size is the sum of the item
    sizes after every operation, eviction only removes old tiles nobody waits
    for and frees enough, saving and looking up, invalidation, and the
    subscriptions of tiles being rendered. *)

From stdpp Require Import sorting.
From S2P Require Import Prelude Algo Util StringVector Protocol Rectangle TileDesc TileCombined TileData TileCache.

Open Scope cool_scope.

(** ** Keys *)

Lemma cache_key_eq l r : TileDescCacheCompareEq l r = true <-> cache_key l = cache_key r.
Proof.
  unfold TileDescCacheCompareEq, cache_key. rewrite !andb_true_iff, !Z.eqb_eq. split.
  - intros H. destruct_and! H. congruence.
  - intros [=]. by split_and!.
Qed.

(** Fact (equivalence): the hash map's comparison and hasher agree: tiles that compare
    equal have equal hashes, and the comparison is equality of the nine cached
    fields, so keying the map by these fields models it. *)
Theorem cache_hash_compatible l r :
  (TileDescCacheCompareEq l r = true <-> cache_key l = cache_key r) /\
  (TileDescCacheCompareEq l r = true -> TileDescCacheHasher l = TileDescCacheHasher r).
Proof.
  split; [apply cache_key_eq|]. unfold TileDescCacheCompareEq. rewrite !andb_true_iff, !Z.eqb_eq.
  intros H. destruct_and! H. unfold TileDescCacheHasher. congruence.
Qed.

Section sizes.
Context (ov : Z).

Notation isize := (itemCacheSize ov).

(** ** The accounted size *)

Definition sum_sizes (l : list (list Z * entry)) : Z :=
  fold_right (fun ke acc => isize (e_tile ke.2) + acc) 0 l.
Definition total (m : gmap (list Z) entry) : Z := sum_sizes (map_to_list m).

Lemma sum_sizes_perm l1 l2 : Permutation l1 l2 -> sum_sizes l1 = sum_sizes l2.
Proof. induction 1; simpl; lia. Qed.

Lemma sum_sizes_app l1 l2 : sum_sizes (l1 ++ l2) = sum_sizes l1 + sum_sizes l2.
Proof. induction l1 as [|x l1 IH]; simpl; [done|]. rewrite IH. lia. Qed.

Lemma total_insert m k e : m !! k = None -> total (<[k:=e]> m) = isize (e_tile e) + total m.
Proof. intros Hk. unfold total. by rewrite (sum_sizes_perm _ _ (map_to_list_insert m k e Hk)). Qed.

Lemma total_delete m k e : m !! k = Some e -> total m = isize (e_tile e) + total (delete k m).
Proof. intros Hk. unfold total. by rewrite <- (sum_sizes_perm _ _ (map_to_list_delete m k e Hk)). Qed.

Lemma total_update m k e e' :
  m !! k = Some e -> total (<[k:=e']> m) = total m - isize (e_tile e) + isize (e_tile e').
Proof.
  intros Hk. rewrite <- insert_delete_eq. rewrite total_insert by apply lookup_delete_eq.
  rewrite (total_delete m k e Hk). lia.
Qed.

Lemma total_empty : total ∅ = 0.
Proof. unfold total. by rewrite map_to_list_empty. Qed.

Definition size_ok (c : TileCache) : Prop := tcc_cacheSize c = u64 (total (tcc_cache c)).

(** ** Eviction *)

Definition evictable (rendered : gmap (list Z) TileBeingRendered) (cut : Z) (k : list Z) (e : entry) : Prop :=
  _wireId (e_desc e) <= cut /\ rendered !! k = None.

#[global] Instance evictable_dec r cut k e : Decision (evictable r cut k e).
Proof. unfold evictable. apply _. Defined.

Lemma u64_idem x : u64 x = u64 (u64 x).
Proof. unfold u64. by rewrite Zmod_mod. Qed.

Lemma u64_cancel a b t : u64 (a + t) = u64 (b + t) -> u64 a = u64 b.
Proof.
  intros H. replace a with (a + t - t) by lia. replace b with (b + t - t) by lia.
  by rewrite <- u64_sub_l, H, u64_sub_l.
Qed.

(** The eviction loop over distinct keys of the map. *)
Lemma evict_loop r cut items m sz :
  NoDup items.*1 -> (forall k e, (k, e) ∈ items -> m !! k = Some e) ->
  forall m' sz', fold_left (evict_step ov r cut) items (m, sz) = (m', sz') ->
    (forall k e, m' !! k = Some e <-> m !! k = Some e /\ ((k, e) ∈ items -> ~ evictable r cut k e)) /\
    u64 (sz' + total m) = u64 (sz + total m') /\ (sz = u64 sz -> sz' = u64 sz').
Proof.
  revert m sz. induction items as [|[k e] items IH]; intros m sz Hnd Hin m' sz'; simpl.
  { intros [= <- <-]. split; [|done]. intros k e. split; [|naive_solver]. intros H. split; [done|].
    intros Hn. by apply elem_of_nil in Hn. }
  simpl in Hnd. apply NoDup_cons in Hnd as [Hk Hnd].
  assert (Hke : m !! k = Some e) by (apply Hin; by left).
  unfold evict_step at 2. simpl. destruct (Z.leb_spec (_wireId (e_desc e)) cut) as [Hle|Hgt].
  - destruct (r !! k) as [rd|] eqn:Hr.
    + intros Hf. apply IH in Hf as [H1 H2]; [|done|intros; apply Hin; by right]. split; [|done].
      intros k' e'. rewrite H1. split; intros [Ha Hb]; (split; [done|]); intros Hi; [|apply Hb; by right].
      apply elem_of_cons in Hi as [[= -> ->]|Hi]; [|by apply Hb]. intros [_ ?]. congruence.
    + intros Hf. apply IH in Hf as (H1 & H2 & H3); [|done|].
      2: { intros k' e' Hi. rewrite lookup_delete_ne; [apply Hin; by right|]. intros ->.
           apply Hk. apply list_elem_of_fmap. by exists (k', e'). }
      split.
      * intros k' e'. rewrite H1. destruct (decide (k = k')) as [<-|Hne].
        -- rewrite lookup_delete_eq. split; [by intros [? _]|]. intros [Hm Hn]. exfalso.
           rewrite Hke in Hm. injection Hm as <-. apply Hn; [by left|done].
        -- rewrite lookup_delete_ne by done. split; intros [Ha Hb]; (split; [done|]); intros Hi.
           ++ apply elem_of_cons in Hi as [[= <- <-]|Hi]; [done|by apply Hb].
           ++ apply Hb. by right.
      * split; [|intros _; apply H3, u64_idem]. rewrite (total_delete m k e Hke).
        replace (sz' + (isize (e_tile e) + total (delete k m))) with ((sz' + total (delete k m)) + isize (e_tile e)) by lia.
        rewrite <- u64_add_l, H2, u64_add_l, <- Z.add_assoc, u64_add_l. f_equal. lia.
  - intros Hf. apply IH in Hf as [H1 H2]; [|done|intros; apply Hin; by right]. split; [|done].
    intros k' e'. rewrite H1. split; intros [Ha Hb]; (split; [done|]); intros Hi; [|apply Hb; by right].
    apply elem_of_cons in Hi as [[= -> ->]|Hi]; [|by apply Hb]. intros [? _]. lia.
Qed.

Lemma sublist_map {A B} (f : A -> B) l1 l2 : sublist l1 l2 -> sublist (f <$> l1) (f <$> l2).
Proof. induction 1; simpl; by constructor. Qed.

Lemma total_filter (P : list Z -> entry -> Prop) `{!forall k e, Decision (P k e)} m m' :
  (forall k e, m' !! k = Some e <-> m !! k = Some e /\ ~ P k e) ->
  total m = total m' + sum_sizes (filter (fun ke => P ke.1 ke.2) (map_to_list m)).
Proof.
  intros Hm'.
  assert (m' = filter (fun ke => ~ P ke.1 ke.2) m) as ->.
  { apply map_eq. intros k. apply option_eq. intros e. rewrite Hm', map_lookup_filter_Some. done. }
  rewrite map_filter_alt. unfold total at 2.
  assert (Hnd : NoDup (filter (fun ke : list Z * entry => ~ P ke.1 ke.2) (map_to_list m)).*1).
  { apply (sublist_NoDup _ (map_to_list m).*1); [apply NoDup_fst_map_to_list|].
    apply sublist_map, sublist_filter. }
  rewrite (sum_sizes_perm _ _ (map_to_list_to_map _ Hnd)). clear Hnd Hm'.
  unfold total. induction (map_to_list m) as [|[k e] l IH]; [done|].
  rewrite !filter_cons. simpl. rewrite IH. destruct (decide (P k e)) as [HP|HP].
  - rewrite decide_False by naive_solver. simpl. lia.
  - rewrite decide_True by done. simpl. lia.
Qed.

(** Sum of the sizes of the items up to a wire id. *)
Definition below (cut : Z) (wids : list (Z * Z)) : Z :=
  fold_right (fun ws acc => (if ws.1 <=? cut then ws.2 else 0) + acc) 0 wids.
Definition sum_snd (wids : list (Z * Z)) : Z := fold_right (fun ws acc => ws.2 + acc) 0 wids.

Lemma below_nonneg cut wids : Forall (fun ws => 0 <= ws.2) wids -> 0 <= below cut wids.
Proof. induction 1; simpl; [lia|]. case_match; lia. Qed.

Lemma pick_wid_spec wids limit tot m :
  StronglySorted wid_le wids -> Forall (fun ws => 0 <= ws.2) wids -> Forall (fun ws => m <= ws.1) wids ->
  m <= pick_wid wids limit tot m /\
  (limit < tot + sum_snd wids -> limit < tot \/ limit < tot + below (pick_wid wids limit tot m) wids).
Proof.
  intros Hs. revert tot m. induction Hs as [|[w s] wids Hs IH Hw]; intros tot m Hp Hm; simpl.
  { split; [lia|]. intros; left; lia. }
  apply Forall_cons in Hp as [Hs0 Hp]. apply Forall_cons in Hm as [Hmw Hm]. simpl in *.
  destruct (Z.ltb_spec limit (tot + s)) as [Hlt|Hge].
  - split; [lia|]. intros _. right. rewrite (proj2 (Z.leb_le w w)) by lia.
    pose proof (below_nonneg w wids Hp). lia.
  - destruct (IH (tot + s) w Hp Hw) as [H1 H2]. split; [lia|]. intros Hsum. right.
    rewrite (proj2 (Z.leb_le w (pick_wid wids limit (tot + s) w))) by lia.
    destruct H2; lia.
Qed.

Lemma below_perm cut a b : Permutation a b -> below cut a = below cut b.
Proof. induction 1; simpl; lia. Qed.
Lemma sum_snd_perm a b : Permutation a b -> sum_snd a = sum_snd b.
Proof. induction 1; simpl; lia. Qed.

Lemma below_all cut wids : Forall (fun ws => ws.1 <= cut) wids -> below cut wids = sum_snd wids.
Proof. induction 1 as [|ws wids Hw Hws IH]; simpl; [done|]. rewrite (proj2 (Z.leb_le _ _)) by done. lia. Qed.

Lemma sum_snd_items items : sum_snd (map (fun ke => wid_size ov ke.2) items) = sum_sizes items.
Proof. induction items as [|x items IH]; simpl; [done|]. by rewrite IH. Qed.

Lemma below_items cut (items : list (list Z * entry)) :
  below cut (map (fun ke => wid_size ov ke.2) items)
  = sum_sizes (filter (fun ke => _wireId (e_desc ke.2) <= cut) items).
Proof.
  induction items as [|x items IH]; [done|]. rewrite filter_cons. simpl. rewrite IH.
  destruct (Z.leb_spec (_wireId (e_desc x.2)) cut).
  - by rewrite decide_True.
  - rewrite decide_False by lia. done.
Qed.

#[local] Instance wid_le_total : Total wid_le.
Proof. intros a b. unfold wid_le. lia. Qed.
#[local] Instance wid_le_trans : Transitive wid_le.
Proof. intros a b c. unfold wid_le. lia. Qed.

Lemma sorted_last_max (wids : list (Z * Z)) b :
  StronglySorted wid_le wids -> last wids = Some b -> Forall (fun ws => ws.1 <= b.1) wids.
Proof.
  induction wids as [|x wids IH]; [done|]. intros Hs Hl. apply StronglySorted_inv in Hs as [Hs Hx].
  destruct wids as [|y wids]; [injection Hl as ->; repeat constructor; lia|].
  rewrite last_cons_cons in Hl. constructor; [|by apply IH].
  assert (Hb : b ∈ y :: wids) by by apply last_Some_elem_of.
  rewrite Forall_forall in Hx. by apply Hx.
Qed.

(** The chosen wire id covers more than a quarter of the limit. *)
Lemma max_to_remove_covers wids maxSize :
  StronglySorted wid_le wids -> Forall (fun ws => 0 <= ws.2) wids ->
  0 <= maxSize -> maxSize / 4 < sum_snd wids ->
  maxSize / 4 < below (max_to_remove wids maxSize) wids.
Proof.
  intros Hs Hp Hmax Hsum. unfold max_to_remove. destruct (head wids) as [front|] eqn:Hf.
  2: { destruct wids; [|done]. simpl in *. lia. }
  destruct (last wids) as [back|] eqn:Hb; [|apply last_None in Hb; by subst].
  destruct (_ <? _).
  - by rewrite below_all by by apply sorted_last_max.
  - destruct wids as [|f wids]; [done|]. injection Hf as ->.
    destruct (pick_wid_spec (front :: wids) (maxSize / 4) 0 front.1 Hs Hp) as [_ H].
    + apply StronglySorted_inv in Hs as [_ Hx]. constructor; [lia|exact Hx].
    + pose proof (Z.div_pos maxSize 4). destruct H; lia.
Qed.

(** What eviction does to the cache: nothing, or removing every item up to some
    wire id that is not being rendered. *)
Lemma ensureCacheSize_inv c :
  size_ok c ->
  size_ok (ensureCacheSize ov c) /\ tcc_rendered (ensureCacheSize ov c) = tcc_rendered c /\
  tcc_streams (ensureCacheSize ov c) = tcc_streams c /\
  tcc_maxCacheSize (ensureCacheSize ov c) = tcc_maxCacheSize c /\
  tcc_dontCache (ensureCacheSize ov c) = tcc_dontCache c /\
  (((tcc_cacheSize c < tcc_maxCacheSize c \/ (size (tcc_cache c) < 2)%nat) /\ ensureCacheSize ov c = c) \/
   exists wids, Permutation wids (map (fun ke => wid_size ov ke.2) (map_to_list (tcc_cache c))) /\
     StronglySorted wid_le wids /\ tcc_maxCacheSize c <= tcc_cacheSize c /\ (2 <= size (tcc_cache c))%nat /\
     forall k e, tcc_cache (ensureCacheSize ov c) !! k = Some e <->
       tcc_cache c !! k = Some e /\
       ~ evictable (tcc_rendered c) (max_to_remove wids (tcc_maxCacheSize c)) k e).
Proof.
  intros Hok. unfold ensureCacheSize. destruct (_ || _) eqn:Hearly; [bool_hyps; by split_and!; [..|left]|].
  set (wids := merge_sort wid_le (map (fun ke => wid_size ov ke.2) (map_to_list (tcc_cache c)))).
  destruct (fold_left _ _ _) as [m sz] eqn:Hf.
  apply evict_loop in Hf as (H1 & H2 & H3); [|apply NoDup_fst_map_to_list|intros k e; apply elem_of_map_to_list].
  assert (Hsz : size_ok (set_cache c m sz)).
  { unfold size_ok in *. cbn. rewrite H3 by (rewrite Hok; apply u64_idem).
    apply (u64_cancel _ _ (total (tcc_cache c))). rewrite H2, Hok, u64_add_l. f_equal. lia. }
  split_and!; try done. right. exists wids. bool_hyps. destruct Hearly as [He1 He2].
  split_and!; [apply merge_sort_Permutation|by apply (StronglySorted_merge_sort wid_le)|done|lia|].
  intros k e. cbn. rewrite H1, elem_of_map_to_list. naive_solver.
Qed.

(** ** Saving *)

Lemma saveDataToCache_ok c desc data : size_ok c -> size_ok (saveDataToCache ov c desc data).1.
Proof.
  intros Hok. unfold saveDataToCache. destruct (tcc_dontCache c); [done|].
  destruct (ensureCacheSize_inv c Hok) as (Hok' & _). set (c1 := ensureCacheSize ov c) in *.
  destruct (tcc_cache c1 !! cache_key desc) as [e|] eqn:Hk.
  - unfold size_ok in *. cbn. rewrite Hok', (total_update _ _ _ _ Hk), u64_add_l. f_equal.
    cbn. unfold itemCacheSize, appendBlob_change. lia.
  - destruct (negb (isKeyframe data)); [done|]. unfold size_ok in *. cbn.
    rewrite Hok', (total_insert _ _ _ Hk), u64_add_l. f_equal. cbn. lia.
Qed.

Lemma total_fmap (f : entry -> entry) m :
  (forall e, isize (e_tile (f e)) = isize (e_tile e)) -> total (f <$> m) = total m.
Proof.
  intros Hf. induction m as [|k e m Hk IH] using map_ind; [by rewrite fmap_empty|].
  rewrite fmap_insert, !total_insert by (done || by rewrite lookup_fmap, Hk). by rewrite Hf, IH.
Qed.

(** ** Every operation as a step *)

Inductive cstep : TileCache -> TileCache -> Prop :=
| step_subscribe c tile subscriber now : cstep c (subscribeToTileRendering c tile subscriber now).1
| step_save c alive desc data : cstep c (saveTileAndNotify ov alive c desc data).1.1
| step_max c n : cstep c (setMaxCacheSize ov c n)
| step_invalidate c msg view : cstep c (invalidateTiles c msg view).1
| step_stream c type name data : cstep c (saveStream c type name data)
| step_clear c : cstep c (tcache_clear c).

Lemma cstep_size_ok c c' : cstep c c' -> size_ok c -> size_ok c'.
Proof.
  intros Hstep Hok. destruct Hstep as [c tile s now|c alive desc data|c n|c msg view|c type name data|c].
  - unfold subscribeToTileRendering. destruct (findTileBeingRendered c tile); [|done]. by destruct (existsb _ _).
  - pose proof (saveDataToCache_ok c desc data Hok) as H. unfold saveTileAndNotify.
    destruct (saveDataToCache ov c desc data) as [c1 tile]. simpl in H.
    destruct (findTileBeingRendered c desc) as [r|]; [|done].
    simpl. unfold forgetTileBeingRendered. by destruct (_ <=? _).
  - unfold setMaxCacheSize. by apply ensureCacheSize_inv.
  - unfold invalidateTiles, invalidateTilesRect. case_bool_decide; [done|].
    unfold size_ok in *. cbn. rewrite total_fmap; [done|]. intros e. unfold invalidate_entry.
    by destruct (intersectsTile _ _ _ _ _ _ _ _).
  - unfold saveStream, saveDataToStreamCache. by destruct (tcc_dontCache c).
  - unfold size_ok. cbn. by rewrite total_empty.
Qed.

(** ** Subscriptions *)

Definition rendered_ok (c : TileCache) : Prop :=
  forall k r, tcc_rendered c !! k = Some r ->
    cache_key (r_tile r) = k /\ NoDup (r_subscribers r) /\ r_subscribers r <> [].

Lemma saveDataToCache_rendered c desc data :
  size_ok c -> tcc_rendered (saveDataToCache ov c desc data).1 = tcc_rendered c.
Proof.
  intros Hok. unfold saveDataToCache. destruct (tcc_dontCache c); [done|].
  destruct (ensureCacheSize_inv c Hok) as (_ & Hr & _).
  destruct (tcc_cache _ !! _); [done|]. by destruct (negb _).
Qed.

Lemma existsb_eqb x l : existsb (Z.eqb x) l = false <-> x ∉ l.
Proof.
  rewrite <- not_true_iff_false, existsb_exists. split.
  - intros H Hx. apply H. exists x. split; [by apply list_elem_of_In|apply Z.eqb_refl].
  - intros H (y & Hy & ->%Z.eqb_eq). by apply H, list_elem_of_In.
Qed.

Lemma cstep_rendered_ok c c' : cstep c c' -> size_ok c -> rendered_ok c -> rendered_ok c'.
Proof.
  intros Hstep Hsz Hok. destruct Hstep as [c tile s now|c alive desc data|c n|c msg view|c type name data|c].
  - unfold subscribeToTileRendering, findTileBeingRendered.
    destruct (tcc_rendered c !! cache_key tile) as [r|] eqn:Hr.
    + destruct (Hok _ _ Hr) as (H1 & H2 & H3).
      destruct (existsb _ _) eqn:Hex; intros k r'; cbn; rewrite lookup_insert_Some;
        intros [[<- <-]|[_ Hk]]; [|by apply Hok| |by apply Hok]; cbn.
      * split_and!; [done|done|done].
      * apply existsb_eqb in Hex. split_and!; [done| |by destruct (r_subscribers r)].
        apply NoDup_app. split_and!; [done| |apply NoDup_singleton].
        intros x Hx ->%list_elem_of_singleton. done.
    + intros k r'. cbn. rewrite lookup_insert_Some. intros [[<- <-]|[_ Hk]]; [|by apply Hok].
      cbn. split_and!; [done|apply NoDup_singleton|done].
  - pose proof (saveDataToCache_rendered c desc data Hsz) as H. unfold saveTileAndNotify.
    destruct (saveDataToCache ov c desc data) as [c1 tile]. simpl in H.
    assert (Hok1 : rendered_ok c1) by (unfold rendered_ok; by rewrite H).
    destruct (findTileBeingRendered c desc) as [r|]; [|done].
    simpl. unfold forgetTileBeingRendered. destruct (_ <=? _); [|done].
    intros k r'. cbn. rewrite lookup_delete_Some. intros [_ ?]. by apply Hok1.
  - unfold setMaxCacheSize, rendered_ok in *.
    set (c1 := {| tcc_cache := tcc_cache c; tcc_rendered := tcc_rendered c; tcc_streams := tcc_streams c;
      tcc_cacheSize := tcc_cacheSize c; tcc_maxCacheSize := n; tcc_dontCache := tcc_dontCache c |}).
    destruct (ensureCacheSize_inv c1 Hsz) as (_ & Hr & _). rewrite Hr. exact Hok.
  - unfold invalidateTiles, invalidateTilesRect. by case_bool_decide.
  - unfold saveStream, saveDataToStreamCache. by destruct (tcc_dontCache c).
  - done.
Qed.

Lemma reachable_ok dontCache c :
  rtc cstep (TileCache_new dontCache) c -> size_ok c /\ rendered_ok c.
Proof.
  intros Hr.
  assert (H : forall c1 c2, rtc cstep c1 c2 -> size_ok c1 -> rendered_ok c1 -> size_ok c2 /\ rendered_ok c2).
  { clear. induction 1 as [c|c1 c2 c3 Hs Hr IH]; intros H1 H2; [done|].
    apply IH; [by eapply cstep_size_ok|by eapply cstep_rendered_ok]. }
  apply (H _ _ Hr).
  - unfold size_ok. cbn. by rewrite total_empty.
  - intros k r. cbn. by rewrite lookup_empty.
Qed.
End sizes.

(** ** Theorems *)

(** C35 (invariant): in every reachable state of the cache (any sequence of
    subscriptions, renderings, invalidations, limit changes, stream writes and
    clears) the accounted size is the sum of the sizes of the cached items (the
    debug assertion of [assertCacheSize]), modulo the width of [size_t]. *)
Theorem cache_size_exact ov dontCache c :
  rtc (cstep ov) (TileCache_new dontCache) c -> tcc_cacheSize c = u64 (total ov (tcc_cache c)).
Proof. intros Hr. apply (reachable_ok ov dontCache c Hr). Qed.

Definition sample_cache : TileCache :=
  (saveTileAndNotify 72 (fun _ => true)
     (subscribeToTileRendering (TileCache_new false) sample_tile 7 0).1 sample_tile (str "Zabc")).1.1.

Lemma sample_reachable : rtc (cstep 72) (TileCache_new false) sample_cache.
Proof.
  eapply rtc_l; [apply (step_subscribe 72 _ sample_tile 7 0)|].
  eapply rtc_l; [apply (step_save 72 _ (fun _ => true) sample_tile (str "Zabc"))|]. apply rtc_refl.
Defined.

Lemma cache_size_exact_witness :
  tcc_cacheSize sample_cache = 75 /\ tcc_cacheSize sample_cache = u64 (total 72 (tcc_cache sample_cache)).
Proof. split; [vm_compute; reflexivity|]. apply (cache_size_exact 72 false _ sample_reachable). Defined.

(** C34 (safety): eviction never touches what is needed: a tile somebody waits for
    stays, no cached tile is changed or added, the subscriptions and streams stay,
    and the accounting stays exact. *)
Theorem eviction_safe ov c :
  size_ok ov c ->
  let c' := ensureCacheSize ov c in
  size_ok ov c' /\ tcc_rendered c' = tcc_rendered c /\ tcc_streams c' = tcc_streams c /\
  (forall k e, tcc_cache c' !! k = Some e -> tcc_cache c !! k = Some e) /\
  (forall k, is_Some (tcc_rendered c !! k) -> tcc_cache c' !! k = tcc_cache c !! k).
Proof.
  intros Hok. cbv zeta. destruct (ensureCacheSize_inv ov c Hok) as (H1 & H2 & H3 & _ & _ & H4).
  split_and!; [done|done|done| |].
  - destruct H4 as [[_ ->]|(wids & _ & _ & _ & _ & H)]; [done|]. intros k e He. by apply H in He as [? _].
  - destruct H4 as [[_ ->]|(wids & _ & _ & _ & _ & H)]; [done|]. intros k [r Hr]. apply option_eq. intros e.
    rewrite H. split; [by intros [? _]|]. intros He. split; [done|]. intros [_ ?]. congruence.
Qed.

Lemma sample_size_ok : size_ok 72 sample_cache.
Proof. vm_compute. reflexivity. Defined.

Lemma eviction_safe_witness :
  let c' := ensureCacheSize 72 sample_cache in
  size_ok 72 c' /\ tcc_rendered c' = tcc_rendered sample_cache /\ tcc_streams c' = tcc_streams sample_cache /\
  (forall k e, tcc_cache c' !! k = Some e -> tcc_cache sample_cache !! k = Some e) /\
  (forall k, is_Some (tcc_rendered sample_cache !! k) -> tcc_cache c' !! k = tcc_cache sample_cache !! k).
Proof. apply (eviction_safe 72 sample_cache sample_size_ok). Defined.

(** Fact (bounds): eviction makes room: when the cache has reached its limit, holds two
    items or more and nothing is being rendered, cleaning frees more than a quarter of
    the limit, in whole items with the lowest wire ids (or everything when the ids
    have wrapped around). *)
Theorem eviction_frees ov c :
  0 < ov -> size_ok ov c -> total ov (tcc_cache c) < 18446744073709551616 ->
  tcc_rendered c = ∅ -> 0 <= tcc_maxCacheSize c <= tcc_cacheSize c -> (2 <= size (tcc_cache c))%nat ->
  tcc_maxCacheSize c / 4 < total ov (tcc_cache c) - total ov (tcc_cache (ensureCacheSize ov c)).
Proof.
  intros Hov Hok Hbig Hr Hmax Hsize.
  assert (Hpos : forall items : list (list Z * entry),
    Forall (fun ws => 0 <= ws.2) (map (fun ke => wid_size ov ke.2) items)).
  { intros items. rewrite Forall_map. apply Forall_true. intros ke. cbn. unfold itemCacheSize. lia. }
  assert (Hitems : Z.of_nat (length (map_to_list (tcc_cache c))) <= sum_sizes ov (map_to_list (tcc_cache c))).
  { induction (map_to_list (tcc_cache c)) as [|x l IH]; simpl; [lia|]. unfold itemCacheSize. lia. }
  rewrite length_map_to_list in Hitems. change (sum_sizes ov (map_to_list (tcc_cache c))) with (total ov (tcc_cache c)) in Hitems.
  assert (Hsz : tcc_cacheSize c = total ov (tcc_cache c)) by (rewrite Hok; apply u64_id; lia).
  destruct (ensureCacheSize_inv ov c Hok) as (_ & _ & _ & _ & _ & [[Heq _]|(wids & Hp & Hs & _ & _ & Hc)]).
  - exfalso. lia.
  - assert (Hq : tcc_maxCacheSize c / 4 < sum_snd wids).
    { rewrite (sum_snd_perm _ _ Hp), sum_snd_items.
      change (sum_sizes ov (map_to_list (tcc_cache c))) with (total ov (tcc_cache c)).
      assert (tcc_maxCacheSize c / 4 <= tcc_maxCacheSize c) by (apply Z.div_le_upper_bound; lia).
      destruct (decide (tcc_maxCacheSize c = 0)) as [->|]; [change (0 / 4) with 0; lia|].
      assert (tcc_maxCacheSize c / 4 < tcc_maxCacheSize c) by (apply Z.div_lt; lia). lia. }
    pose proof (max_to_remove_covers wids (tcc_maxCacheSize c) Hs) as Hcov.
    rewrite (below_perm _ _ _ Hp), below_items in Hcov.
    set (cut := max_to_remove wids (tcc_maxCacheSize c)) in *.
    rewrite (@total_filter ov (fun _ e => _wireId (e_desc e) <= cut) (fun _ e => Z.le_dec (_wireId (e_desc e)) cut)
      (tcc_cache c) (tcc_cache (ensureCacheSize ov c))).
    + apply Hcov in Hq; [|rewrite Hp; apply Hpos|lia].
      match goal with |- _ < ?a + ?b - ?a => replace (a + b - a) with b by lia end. exact Hq.
    + intros k e. rewrite Hc. unfold evictable. rewrite Hr, lookup_empty. naive_solver.
Qed.

(** Two cached tiles and a limit of one byte. *)
Definition full_cache : TileCache :=
  {| tcc_cache := <[cache_key sample_tile := {| e_desc := sample_tile; e_tile := TileData_new 42 (str "Zabc") |}]>
       (<[cache_key (setWireId (setVersion (setCanonicalViewId sample_tile 7) 3) 50) :=
          {| e_desc := setWireId (setCanonicalViewId sample_tile 7) 50; e_tile := TileData_new 50 (str "Zabcdef") |}]> ∅);
     tcc_rendered := ∅; tcc_streams := ∅; tcc_cacheSize := 153; tcc_maxCacheSize := 100;
     tcc_dontCache := false |}.

Lemma eviction_frees_witness :
  tcc_maxCacheSize full_cache / 4 <
  total 72 (tcc_cache full_cache) - total 72 (tcc_cache (ensureCacheSize 72 full_cache)).
Proof.
  apply (eviction_frees 72 full_cache); [lia|vm_compute; reflexivity|vm_compute; reflexivity|reflexivity|by_decide|vm_compute; lia].
Defined.

(** Fact (functional): saving and looking up. A key frame is always kept: afterwards the
    tile holds exactly that frame. A delta is appended to the tile's frames when the
    tile is cached, and otherwise dropped without caching anything. Only that tile
    can appear or change. *)
Theorem save_then_lookup ov c desc data :
  size_ok ov c -> tcc_dontCache c = false -> data <> [] ->
  let c' := (saveDataToCache ov c desc data).1 in
  (isKeyframe data = true ->
     exists t, lookupTile c' desc = Some t /\ stores t [(_wireId desc, drop 1 data)] /\ isValid t = true) /\
  (isKeyframe data = false -> findTile c desc = None -> lookupTile c' desc = None) /\
  (forall t fs, findTile (ensureCacheSize ov c) desc = Some t -> stores t fs ->
     exists t', lookupTile c' desc = Some t' /\ stores t' (append_frame fs (_wireId desc) data)) /\
  (forall k e, k <> cache_key desc -> tcc_cache c' !! k = Some e -> tcc_cache c !! k = Some e).
Proof.
  intros Hok Hdc Hne. cbv zeta. unfold saveDataToCache, lookupTile, findTile. rewrite Hdc.
  destruct (ensureCacheSize_inv ov c Hok) as (_ & _ & _ & _ & Hd & Hc). rewrite Hdc in Hd.
  assert (Hsub : forall k e, tcc_cache (ensureCacheSize ov c) !! k = Some e -> tcc_cache c !! k = Some e).
  { intros k e. destruct Hc as [[_ ->]|(wids & _ & _ & _ & _ & H)]; [done|]. rewrite H. by intros [? _]. }
  set (c1 := ensureCacheSize ov c) in *.
  assert (Hkey : forall t fs, isKeyframe data = true -> stores t fs ->
            stores (appendBlob t (_wireId desc) data) [(_wireId desc, drop 1 data)] /\
            isValid (appendBlob t (_wireId desc) data) = true).
  { intros t fs Hk Hs. split; [|unfold isValid, appendBlob; rewrite Hk; by destruct (_ && _ && _)].
    pose proof (stores_append t fs (_wireId desc) data Hs Hne) as H. unfold append_frame in H. by rewrite Hk in H. }
  destruct (tcc_cache c1 !! cache_key desc) as [e|] eqn:Hk; cbn.
  - rewrite Hd, lookup_insert_eq. cbn. split_and!.
    + intros Hkf. eexists. split; [done|]. unfold appendBlob, isValid. rewrite Hkf. simpl.
      rewrite andb_false_r. simpl. destruct data as [|x data]; [done|].
      split; [|done]. constructor; cbn; [done|done|]. unfold payloads. simpl. rewrite app_nil_r. by destruct data.
    + intros _ Hf. apply Hsub in Hk. by rewrite Hk in Hf.
    + intros t fs [= <-] Hs. eexists. split; [done|]. by apply stores_append.
    + intros k e' Hn. rewrite lookup_insert_ne by done. apply Hsub.
  - destruct (isKeyframe data) eqn:Hkf; cbn.
    + rewrite Hd, lookup_insert_eq. cbn. split_and!; [|done|done|].
      * intros _. eexists. split; [done|]. unfold TileData_new. by apply (Hkey TileData_empty []).
      * intros k e' Hn. rewrite lookup_insert_ne by done. apply Hsub.
    + rewrite Hd, Hk. split_and!; [done|done|done|]. intros k e' _. apply Hsub.
Qed.

Lemma save_then_lookup_witness :
  exists t, lookupTile (saveDataToCache 72 sample_cache sample_tile2 (str "Zxyz")).1 sample_tile2 = Some t /\
    stores t [(43, str "xyz")] /\ isValid t = true.
Proof.
  destruct (save_then_lookup 72 sample_cache sample_tile2 (str "Zxyz") sample_size_ok) as [H _];
    [reflexivity|discriminate|]. apply H. reflexivity.
Defined.

(** Fact (functional): invalidation marks exactly the cached tiles of the view, part (or
    any part) and mode that intersect the rectangle; their data, the other tiles and
    the accounting are left alone. *)
Theorem invalidateTiles_spec c part mode x y w h view :
  tcc_cache c <> ∅ ->
  let c' := (invalidateTilesRect c part mode x y w h view).1 in
  tcc_cacheSize c' = tcc_cacheSize c /\
  forall k, tcc_cache c' !! k =
    (fun e => {| e_desc := e_desc e;
                 e_tile := {| _wids := _wids (e_tile e); _offsets := _offsets (e_tile e); _deltas := _deltas (e_tile e);
                              _valid := _valid (e_tile e)
                                && negb (intersectsTile (e_desc e) part mode x y w h view) |} |})
    <$> tcc_cache c !! k.
Proof.
  intros Hne. cbv zeta. unfold invalidateTilesRect. rewrite bool_decide_eq_false_2 by done.
  split; [done|]. intros k. cbn. rewrite lookup_fmap. destruct (tcc_cache c !! k) as [[d t]|]; [|done].
  cbn. f_equal. unfold invalidate_entry. cbn. destruct (intersectsTile _ _ _ _ _ _ _ _); cbn.
  - rewrite andb_false_r. done.
  - rewrite andb_true_r. by destruct t.
Qed.

Lemma sample_cache_nonempty : tcc_cache sample_cache <> ∅.
Proof. intros H. apply (f_equal size) in H. vm_compute in H. discriminate. Defined.

Lemma invalidateTiles_spec_witness :
  let c' := (invalidateTilesRect sample_cache 2 1 0 0 INT_MAX INT_MAX 1000).1 in
  tcc_cacheSize c' = tcc_cacheSize sample_cache /\
  forall k, tcc_cache c' !! k =
    (fun e => {| e_desc := e_desc e;
                 e_tile := {| _wids := _wids (e_tile e); _offsets := _offsets (e_tile e); _deltas := _deltas (e_tile e);
                              _valid := _valid (e_tile e)
                                && negb (intersectsTile (e_desc e) 2 1 0 0 INT_MAX INT_MAX 1000) |} |})
    <$> tcc_cache sample_cache !! k.
Proof. apply (invalidateTiles_spec sample_cache). apply sample_cache_nonempty. Defined.

(** Fact (safety): rendering subscriptions. In every reachable state each tile being
    rendered has at least one subscriber and no subscriber twice; when the rendered
    tile arrives and was stored, every live subscriber is sent it exactly once, and the
    subscriptions end unless a newer version is still awaited. *)
Theorem rendering_subscriptions ov dontCache alive c desc data r :
  rtc (cstep ov) (TileCache_new dontCache) c ->
  findTileBeingRendered c desc = Some r ->
  NoDup (r_subscribers r) /\ r_subscribers r <> [] /\
  let '(c', tile, sent) := saveTileAndNotify ov alive c desc data in
  (is_Some tile -> forall s, s ∈ sent <-> (s ∈ r_subscribers r /\ alive s = true)) /\
  NoDup sent /\
  (findTileBeingRendered c' desc = if r_version r <=? _ver desc then None else Some r).
Proof.
  intros Hreach Hr. destruct (reachable_ok ov dontCache c Hreach) as [Hsz Hok].
  destruct (Hok _ _ Hr) as (Hkey & Hnd & Hne). split; [done|]. split; [done|].
  unfold saveTileAndNotify. rewrite Hr. pose proof (saveDataToCache_rendered ov c desc data Hsz) as Hren.
  destruct (saveDataToCache ov c desc data) as [c1 tile]. simpl in Hren.
  assert (Hf : NoDup (List.filter alive (r_subscribers r))).
  { clear -Hnd. induction Hnd as [|x l Hx Hl IH]; simpl; [constructor|]. destruct (alive x); [|done].
    constructor; [|done]. rewrite list_elem_of_In, filter_In. intros [Hin _]. by apply Hx, list_elem_of_In. }
  split_and!.
  - intros [t ->] s. rewrite list_elem_of_In, filter_In, <- list_elem_of_In. done.
  - destruct tile; [done|constructor].
  - unfold forgetTileBeingRendered, findTileBeingRendered. destruct (_ <=? _).
    + cbn. rewrite Hren, Hkey. apply lookup_delete_eq.
    + by rewrite Hren.
Qed.

Definition waiting_cache : TileCache := (subscribeToTileRendering (TileCache_new false) sample_tile 7 0).1.
Lemma waiting_reachable : rtc (cstep 72) (TileCache_new false) waiting_cache.
Proof. apply rtc_once. apply (step_subscribe 72 (TileCache_new false) sample_tile 7 0). Defined.

Lemma rendering_subscriptions_witness :
  NoDup [7] /\ [7] <> [] /\
  let '(c', tile, sent) := saveTileAndNotify 72 (fun _ => true) waiting_cache sample_tile (str "Zabc") in
  (is_Some tile -> forall s, s ∈ sent <-> (s ∈ [7] /\ true = true)) /\ NoDup sent /\
  (findTileBeingRendered c' sample_tile = if 17 <=? 17 then None
     else Some {| r_subscribers := [7]; r_startTime := 0; r_tile := sample_tile |}).
Proof.
  apply (rendering_subscriptions 72 false (fun _ => true) waiting_cache sample_tile (str "Zabc")
    {| r_subscribers := [7]; r_startTime := 0; r_tile := sample_tile |} waiting_reachable). reflexivity.
Defined.
