(* ===== verification/Message.v ===== *)
(** * [Message] and [SenderQueue]: what is queued for a client

    Models [common/Message.hpp], the payload passed between the sockets and the
    sessions, and [wsd/SenderQueue.hpp], the queue of a session, which drops an
    older message that the new one makes obsolete.

    The message number is left out (it is only logged). The queue's mutex makes
    its operations atomic, so they are functions of the queue. The JSON parser
    is a parameter: [json_viewId] yields the [viewId] of a JSON text. *)

From S2P Require Import Prelude Util StringVector Protocol TileDesc TileData TileCache.

Open Scope cool_scope.

(** ** [Message] *)

Inductive Type_ := Text | JSON | Binary.
#[global] Instance Type_eq_dec : EqDecision Type_.
Proof. solve_decision. Defined.

Record Message := {
  m_forwardToken : bytes;
  m_data : bytes;
  m_tokens : StringVector;
  m_firstLine : bytes;  (* cached, empty until it is first asked for *)
  m_type : Type_;
  m_hash : Z }.

Definition getForwardToken (buffer : bytes) : bytes :=
  let forward := getFirstToken buffer chr_space in
  if bool_decide (chr_minus ∈ forward) then forward else [].

Definition copyDataAfterOffset (p : bytes) (fromOffset : nat) : bytes :=
  if (length p <=? fromOffset)%nat then [] else ltrim_char chr_space (drop fromOffset p).

Definition detectType (tokens : StringVector) (data : bytes) : Type_ :=
  if equals tokens 0 (str "tile:") || equals tokens 0 (str "tilecombine:")
     || equals tokens 0 (str "delta:") || equals tokens 0 (str "renderfont:")
     || equals tokens 0 (str "rendersearchresult:") || equals tokens 0 (str "slidelayer:")
     || equals tokens 0 (str "windowpaint:") || equals tokens 0 (str "urp:")
  then Binary
  else if bool_decide (last data = Some 125 (* '}' *)) || bool_decide (last data = Some 93 (* ']' *))
  then JSON else Text.

Definition Message_new (p : bytes) : Message :=
  let forward := getForwardToken p in
  let data := copyDataAfterOffset p (length forward) in
  let tokens := tokenize_data data chr_space in
  {| m_forwardToken := forward; m_data := data; m_tokens := tokens; m_firstLine := [];
     m_type := detectType tokens data; m_hash := 0 |}.

Definition msg_size (m : Message) : nat := length (m_data m).
Definition firstToken (m : Message) : bytes := sv_get (m_tokens m) 0.
Definition firstTokenMatches (m : Message) (target : bytes) : bool := equals (m_tokens m) 0 target.
Definition msg_get (m : Message) (index : nat) : bytes := sv_get (m_tokens m) index.
Definition msg_contains (m : Message) (msg : bytes) : bool := contains (m_data m) msg.
Definition isBinary (m : Message) : bool := bool_decide (m_type m = Binary).

Definition setHash (m : Message) (hash : Z) : Message :=
  {| m_forwardToken := m_forwardToken m; m_data := m_data m; m_tokens := m_tokens m;
     m_firstLine := m_firstLine m; m_type := m_type m; m_hash := hash |}.

(** [assignFirstLineIfEmpty], and the value [firstLine] returns after it. *)
Definition msg_firstLine (m : Message) : bytes :=
  match m_firstLine m with [] => getFirstLine (m_data m) | l => l end.
Definition assignFirstLineIfEmpty (m : Message) : Message :=
  {| m_forwardToken := m_forwardToken m; m_data := m_data m; m_tokens := m_tokens m;
     m_firstLine := msg_firstLine m; m_type := m_type m; m_hash := m_hash m |}.

Definition msg_append (m : Message) (p : bytes) : Message :=
  {| m_forwardToken := m_forwardToken m; m_data := m_data m ++ p; m_tokens := m_tokens m;
     m_firstLine := m_firstLine m; m_type := m_type m; m_hash := m_hash m |}.

(** [rewriteDataBody]: [func] yields the new data when it changes it. *)
Definition rewriteDataBody (m : Message) (func : bytes -> option bytes) : Message :=
  let m := assignFirstLineIfEmpty m in
  match func (m_data m) with
  | Some data => {| m_forwardToken := m_forwardToken m; m_data := data; m_tokens := m_tokens m;
                    m_firstLine := m_firstLine m; m_type := m_type m; m_hash := m_hash m |}
  | None => m
  end.

Definition jsonString (m : Message) : bytes :=
  if (1 <? sv_size (m_tokens m))%nat && (1 <=? length (sv_get (m_tokens m) 1))%nat
     && (char_is (sv_get (m_tokens m) 1) 0 123 (* '{' *) || char_is (sv_get (m_tokens m) 1) 0 91 (* '[' *))
  then drop (length (sv_get (m_tokens m) 0)) (m_data m) else [].

Definition msg_getTokenInteger (m : Message) (name : bytes) : option Z * bool :=
  getTokenInteger_sv (m_tokens m) name.

(** ** [SenderQueue] *)

(** [std::find_if] with a predicate that may throw. *)
Fixpoint find_if (p : Message -> result bool) (queue : list Message) : result (option nat) :=
  match queue with
  | [] => Ok None
  | cur :: rest =>
      try b <- p cur;
      if b then Ok (Some 0%nat)
      else try r <- find_if p rest; Ok (S <$> r)
  end.

Definition find_erase (p : Message -> result bool) (queue : list Message) : result (list Message) :=
  try pos <- find_if p queue;
  Ok (match pos with Some i => delete i queue | None => queue end).

(** [newTile != TileDesc::parse(...)] behind the test of the hashes. *)
Definition same_tile (newTile : TileDesc) (newTilePosHash : Z) (cur : Message) : result bool :=
  if negb (firstTokenMatches cur (str "tile:")) then Ok false
  else if negb (newTilePosHash =? m_hash cur) then Ok false
  else try t <- parse (msg_firstLine cur); Ok (tile_eq newTile t).

Definition setvalueTag : bytes :=
  [34; 105; 100; 34; 58; 34; 115; 101; 116; 118; 97; 108; 117; 101; 34].

Section queue.
Context (json_viewId : bytes -> result bytes).

Definition same_view (command viewId : bytes) (cur : Message) : result bool :=
  if firstTokenMatches cur command then
    try id <- json_viewId (jsonString cur); Ok (beq viewId id)
  else Ok false.

(** [deduplicate] always answers [true]: the queue without the obsolete message
    and the item, annotated with its hash. *)
Definition deduplicate (queue : list Message) (item : Message) : result (list Message * Message) :=
  let command := firstToken item in
  if beq command (str "tile:") then
    try newTile <- parse (msg_firstLine item);
    let newTilePosHash := equalityHash newTile in
    let item := setHash (assignFirstLineIfEmpty item) newTilePosHash in
    try q <- find_erase (same_tile newTile newTilePosHash) queue;
    Ok (q, item)
  else if beq command (str "invalidatecursor:") || beq command (str "setpart:") then
    try q <- find_erase (fun cur => Ok (firstTokenMatches cur command)) queue;
    Ok (q, item)
  else if beq command (str "progress:") then
    if msg_contains item setvalueTag then
      try q <- find_erase (fun cur => Ok (firstTokenMatches cur command && msg_contains cur setvalueTag)) queue;
      Ok (q, item)
    else Ok (queue, item)
  else if beq command (str "invalidateviewcursor:") then
    try viewId <- json_viewId (jsonString item);
    try q <- find_erase (same_view command viewId) queue;
    Ok (q, item)
  else Ok (queue, item).

(** [enqueue]: the queue and its size; an exception leaves the queue alone. *)
Definition enqueue (terminating : bool) (queue : list Message) (item : Message) : result (list Message * nat) :=
  if terminating then Ok (queue, length queue)
  else
    try r <- deduplicate queue item;
    Ok (r.1 ++ [r.2], S (length r.1)).
End queue.

Definition dequeue (terminating : bool) (queue : list Message) : list Message * option Message :=
  if terminating then (queue, None)
  else match queue with item :: rest => (rest, Some item) | [] => ([], None) end.
