(* ===== verification/SenderQueueSpec.v ===== *)
(** * The queue of a session, specified

    Theorems about the [SenderQueue] of [Message.v]: a queue holds at most one
    message per class (a tile, a cursor, a part, a progress value, a view's
    cursor), a new message replaces the one of its class, and a client that
    replays the queue ends up with the same tiles as without the replacement. *)

From S2P Require Import Prelude Util StringVector Protocol TileDesc TileData TileCache Message.

Open Scope cool_scope.

(** ** Classes of messages *)

(** What a message is about: its command with a tile or a view. *)
Abbreviation mclass := (bytes * list Z * bytes)%type.

(** A client's tiles. *)
Abbreviation client_tiles := (gmap (list Z) bytes).

Section queue.
Context (json_viewId : bytes -> result bytes).

Definition tile_class (t : TileDesc) : list Z := order_key t (_tilePosX t) (_tilePosY t).

(** The class of a message, [None] when it never replaces another. *)
Definition dclass (m : Message) : result (option mclass) :=
  let command := firstToken m in
  if beq command (str "tile:") then
    try t <- parse (msg_firstLine m); Ok (Some (command, tile_class t, []))
  else if beq command (str "invalidatecursor:") || beq command (str "setpart:") then
    Ok (Some (command, [], []))
  else if beq command (str "progress:") then
    Ok (if msg_contains m setvalueTag then Some (command, [], []) else None)
  else if beq command (str "invalidateviewcursor:") then
    try viewId <- json_viewId (jsonString m); Ok (Some (command, [], viewId))
  else Ok None.

Definition class_of (m : Message) : option mclass :=
  match dclass m with Ok c => c | Throw _ => None end.

Definition same_class (item cur : Message) : bool :=
  match class_of item with Some k => bool_decide (class_of cur = Some k) | None => false end.

(** A queued message was accepted, and a tile carries its hash. *)
Definition queued_ok (m : Message) : Prop :=
  is_ok (dclass m) = true /\
  (firstToken m = str "tile:" ->
     exists t, parse (msg_firstLine m) = Ok t /\ m_hash m = equalityHash t).

Definition queue_ok (q : list Message) : Prop :=
  Forall queued_ok q /\ NoDup (omap class_of q).

(** ** Lemmas *)

Lemma firstTokenMatches_beq m s : s <> [] -> firstTokenMatches m s = beq (firstToken m) s.
Proof.
  intros Hs. unfold firstTokenMatches, firstToken. rewrite equals_strings, sv_get_strings.
  destruct (sv_strings (m_tokens m) !! 0%nat); [done|]. simpl. symmetry. by apply beq_neq.
Qed.

Lemma find_erase_filter (p : Message -> result bool) (b : Message -> bool) q :
  Forall (fun cur => p cur = Ok (b cur)) q -> (length (List.filter b q) <= 1)%nat ->
  find_erase p q = Ok (List.filter (fun cur => negb (b cur)) q).
Proof.
  unfold find_erase. intros Hp. induction Hp as [|x q Hx Hq IH]; simpl; [done|].
  rewrite Hx. cbn [rbind]. destruct (b x) eqn:Hb; simpl.
  - intros Hl. f_equal. assert (Hn : List.filter b q = []) by (destruct (List.filter b q); simpl in *; [done|lia]).
    clear -Hn. induction q as [|y q IH]; simpl in *; [done|]. destruct (b y); [done|]. simpl. by rewrite <- IH.
  - intros Hl. specialize (IH Hl). destruct (find_if p q) as [pos|e]; [|done]. simpl in *.
    injection IH as IH. f_equal. rewrite <- IH. by destruct pos.
Qed.

Lemma filter_class_le q k :
  NoDup (omap class_of q) -> (length (List.filter (fun cur => bool_decide (class_of cur = Some k)) q) <= 1)%nat.
Proof.
  induction q as [|x q IH]; simpl; [lia|]. intros Hn.
  assert (Hq : NoDup (omap class_of q)) by (destruct (class_of x); [by inversion Hn|done]).
  case_bool_decide as Hx; [|by apply IH]. rewrite Hx in Hn. inversion Hn as [|? ? Hk _]; subst. simpl.
  cut (List.filter (fun cur => bool_decide (class_of cur = Some k)) q = []); [by intros ->|].
  clear -Hk. induction q as [|y q IH]; simpl in *; [done|]. case_bool_decide as Hy.
  - rewrite Hy in Hk. exfalso. apply Hk. left.
  - apply IH. destruct (class_of y); [|done]. intros H. apply Hk. by right.
Qed.

(** The class test of [find_erase], one command at a time. *)
Definition class_test (k : mclass) (cur : Message) : bool := bool_decide (class_of cur = Some k).

Lemma find_erase_class p q k :
  NoDup (omap class_of q) -> Forall (fun cur => p cur = Ok (class_test k cur)) q ->
  find_erase p q = Ok (List.filter (fun cur => negb (class_test k cur)) q).
Proof. intros Hn Hp. apply find_erase_filter; [done|by apply filter_class_le]. Qed.

(** A class carries the command it belongs to. *)
Lemma class_of_command m k : class_of m = Some k -> k.1.1 = firstToken m.
Proof.
  unfold class_of, dclass. destruct (beq (firstToken m) (str "tile:")).
  { destruct (parse _); simpl; [|done]. by intros [= <-]. }
  destruct (_ || _); [by intros [= <-]|]. destruct (beq _ _).
  { destruct (msg_contains _ _); [|done]. by intros [= <-]. }
  destruct (beq _ _); [|done]. destruct (json_viewId _); simpl; [|done]. by intros [= <-].
Qed.

Lemma class_test_other k cur : firstToken cur <> k.1.1 -> class_test k cur = false.
Proof. intros H. apply bool_decide_eq_false. intros Hc. by apply class_of_command in Hc. Qed.

Lemma same_tile_class newTile cur :
  queued_ok cur ->
  same_tile newTile (equalityHash newTile) cur = Ok (class_test (str "tile:", tile_class newTile, []) cur).
Proof.
  intros [Hok Ht]. unfold same_tile. rewrite firstTokenMatches_beq by done.
  destruct (beq (firstToken cur) (str "tile:")) eqn:Hc; simpl.
  2: { rewrite class_test_other; [done|]. by apply beq_neq in Hc. }
  apply beq_eq in Hc. destruct (Ht Hc) as (t & Hp & Hh). rewrite Hp, Hh.
  unfold class_test, class_of, dclass. rewrite Hc, Hp. rewrite beq_refl. cbn [rbind].
  destruct (Z.eqb_spec (equalityHash newTile) (equalityHash t)) as [He|He]; simpl; f_equal.
  - apply eq_true_iff_eq. rewrite tile_eq_key, bool_decide_eq_true. unfold tile_class. split; congruence.
  - symmetry. apply bool_decide_eq_false. intros Hk. apply He. symmetry. apply equalityHash_eq, tile_eq_key. unfold tile_class in Hk. congruence.
Qed.

Lemma command_class command cur :
  command = str "invalidatecursor:" \/ command = str "setpart:" ->
  firstTokenMatches cur command = class_test (command, [], []) cur.
Proof.
  intros Hc. rewrite firstTokenMatches_beq by by destruct Hc; subst.
  destruct (beq (firstToken cur) command) eqn:E.
  - apply beq_eq in E. unfold class_test, class_of, dclass. rewrite E.
    symmetry. apply bool_decide_eq_true. by destruct Hc; subst.
  - rewrite class_test_other; [done|]. by apply beq_neq in E.
Qed.

Lemma progress_class cur :
  firstTokenMatches cur (str "progress:") && msg_contains cur setvalueTag
  = class_test (str "progress:", [], []) cur.
Proof.
  rewrite firstTokenMatches_beq by done. destruct (beq (firstToken cur) (str "progress:")) eqn:E.
  - apply beq_eq in E. unfold class_test, class_of, dclass. rewrite E. simpl.
    by destruct (msg_contains cur setvalueTag).
  - rewrite class_test_other; [done|]. by apply beq_neq in E.
Qed.

Lemma view_class viewId cur :
  queued_ok cur ->
  same_view json_viewId (str "invalidateviewcursor:") viewId cur
  = Ok (class_test (str "invalidateviewcursor:", [], viewId) cur).
Proof.
  intros [Hok _]. unfold same_view. rewrite firstTokenMatches_beq by done.
  destruct (beq (firstToken cur) (str "invalidateviewcursor:")) eqn:E.
  - apply beq_eq in E. revert Hok. unfold class_test, class_of, dclass. rewrite E. simpl.
    destruct (json_viewId (jsonString cur)) as [id|]; simpl; [|done]. intros _. f_equal.
    apply eq_true_iff_eq. rewrite beq_eq, bool_decide_eq_true. naive_solver.
  - rewrite class_test_other; [done|]. by apply beq_neq in E.
Qed.

Lemma Forall_test (P : Message -> Prop) p k q :
  (forall cur, P cur -> p cur = Ok (class_test k cur)) -> Forall P q ->
  Forall (fun cur => p cur = Ok (class_test k cur)) q.
Proof. intros H Hq. eapply Forall_impl; [exact Hq|exact H]. Qed.

(** What [deduplicate] promises for one item on a well-formed queue. *)
Definition dedup_result (q : list Message) (item : Message) (r : result (list Message * Message)) : Prop :=
  exists item', r = Ok (List.filter (fun cur => negb (same_class item cur)) q, item') /\
    m_data item' = m_data item /\ m_tokens item' = m_tokens item /\
    msg_firstLine item' = msg_firstLine item /\ queued_ok item'.

Lemma firstLine_assign m : msg_firstLine (assignFirstLineIfEmpty m) = msg_firstLine m.
Proof.
  unfold msg_firstLine at 1, assignFirstLineIfEmpty. cbn [m_firstLine m_data]. unfold msg_firstLine.
  destruct (m_firstLine m); [|done]. by destruct (getFirstLine (m_data m)).
Qed.

Lemma filter_same_none q item :
  class_of item = None -> List.filter (fun cur => negb (same_class item cur)) q = q.
Proof.
  intros Hc. unfold same_class. rewrite Hc. simpl. by induction q as [|x q IH]; simpl; [|rewrite IH].
Qed.

(** A queue that is searched for the item's class. *)
Lemma dedup_erase q item item' k p :
  queue_ok q -> dclass item = Ok (Some k) ->
  (forall cur, queued_ok cur -> p cur = Ok (class_test k cur)) ->
  m_data item' = m_data item -> m_tokens item' = m_tokens item ->
  msg_firstLine item' = msg_firstLine item -> queued_ok item' ->
  dedup_result q item (try q' <- find_erase p q; Ok (q', item')).
Proof.
  intros [Hq Hn] Hk Hp H1 H2 H3 H4. rewrite (find_erase_class _ _ k); [|done|by eapply Forall_test].
  exists item'. split_and!; [|done..]. cbn [rbind]. unfold same_class, class_of. by rewrite Hk.
Qed.

(** An item without a class, or of a class that is no tile, is queued as it is. *)
Lemma queued_ok_other item : firstToken item <> str "tile:" -> is_ok (dclass item) = true -> queued_ok item.
Proof. intros Hc Hok. split; [done|]. by intros. Qed.

Lemma dedup_tile q item t :
  queue_ok q -> firstToken item = str "tile:" -> parse (msg_firstLine item) = Ok t ->
  dedup_result q item
    (try q' <- find_erase (same_tile t (equalityHash t)) q;
     Ok (q', setHash (assignFirstLineIfEmpty item) (equalityHash t))).
Proof.
  intros Hq Hc Hp. pose proof (firstLine_assign item) as Hfl.
  assert (Hd : dclass item = Ok (Some (str "tile:", tile_class t, []))).
  { unfold dclass. by rewrite Hc, beq_refl, Hp. }
  apply (dedup_erase _ _ _ (str "tile:", tile_class t, [])); try done.
  - intros cur. apply same_tile_class.
  - split; [|intros _; exists t; split; [|done]; by rewrite <- Hp, <- Hfl].
    assert (E : dclass (setHash (assignFirstLineIfEmpty item) (equalityHash t)) = dclass item); [|by rewrite E, Hd].
    unfold dclass. change (msg_firstLine (setHash _ _)) with (msg_firstLine (assignFirstLineIfEmpty item)).
    by rewrite Hfl.
Qed.

(** [deduplicate] on a well-formed queue. *)
Lemma deduplicate_spec q item :
  queue_ok q ->
  match dclass item with
  | Throw e => deduplicate json_viewId q item = Throw e
  | Ok _ => dedup_result q item (deduplicate json_viewId q item)
  end.
Proof.
  intros Hq. destruct (dclass item) as [k|e] eqn:Hd; unfold deduplicate; unfold dclass in Hd.
  2: { revert Hd. destruct (beq _ (str "tile:")); [destruct (parse _); simpl; congruence|].
       destruct (_ || _); [done|].
       destruct (beq _ (str "progress:")); [done|]. destruct (beq _ _); [|done].
       destruct (json_viewId _); simpl; congruence. }
  destruct (beq (firstToken item) (str "tile:")) eqn:E1.
  { destruct (parse (msg_firstLine item)) as [t|e] eqn:Hp; [|done]. apply beq_eq in E1. by apply dedup_tile. }
  assert (Hq' : queued_ok item).
  { apply queued_ok_other; [by apply beq_neq in E1|]. unfold dclass. rewrite E1. by rewrite Hd. }
  assert (Hd' : dclass item = Ok k) by (unfold dclass; by rewrite E1).
  assert (Hnone : k = None -> dedup_result q item (Ok (q, item))).
  { intros ->. exists item. split_and!; [|done..]. rewrite filter_same_none; [done|]. unfold class_of. by rewrite Hd'. }
  destruct (beq (firstToken item) (str "invalidatecursor:") || _) eqn:E2.
  { injection Hd as <-. eapply dedup_erase; [done|exact Hd'| |done..].
    intros cur _. f_equal. apply command_class. bool_hyps. naive_solver. }
  destruct (beq (firstToken item) (str "progress:")) eqn:E3.
  { destruct (msg_contains item setvalueTag); injection Hd as <-; [|by apply Hnone].
    apply beq_eq in E3. rewrite E3 in *. eapply dedup_erase; [done|exact Hd'| |done..].
    intros cur _. f_equal. apply progress_class. }
  destruct (beq (firstToken item) (str "invalidateviewcursor:")) eqn:E5; [|injection Hd as <-; by apply Hnone].
  destruct (json_viewId (jsonString item)) as [viewId|e]; [|done]. injection Hd as <-.
  apply beq_eq in E5. rewrite E5 in *. eapply dedup_erase; [done|exact Hd'| |done..].
  intros cur. apply view_class.
Qed.
(** Replacing keeps the queue well formed. *)
Definition replaced (q : list Message) (item item' : Message) : list Message :=
  List.filter (fun cur => negb (same_class item cur)) q ++ [item'].

Lemma omap_snoc {A B} (f : A -> option B) l x :
  omap f (l ++ [x]) = omap f l ++ match f x with Some y => [y] | None => [] end.
Proof. by rewrite omap_app. Qed.

Lemma omap_filter_sublist {A B} (f : A -> option B) g l : sublist (omap f (List.filter g l)) (omap f l).
Proof.
  induction l as [|x l IH]; simpl; [constructor|]. destruct (g x); simpl; destruct (f x); try done; by constructor.
Qed.

Lemma dclass_same m m' :
  m_data m' = m_data m -> m_tokens m' = m_tokens m -> msg_firstLine m' = msg_firstLine m -> dclass m' = dclass m.
Proof.
  intros H1 H2 H3. unfold dclass, firstToken, msg_contains, jsonString. by rewrite H1, H2, H3.
Qed.

Lemma replaced_ok q item item' :
  queue_ok q -> queued_ok item' -> class_of item' = class_of item -> queue_ok (replaced q item item').
Proof.
  intros [Hq Hn] Hi Hc. unfold replaced. split.
  - apply Forall_app_2; [|by apply Forall_singleton]. rewrite Forall_forall in *.
    intros m Hm. apply Hq. apply list_elem_of_In, filter_In in Hm as [Hm _]. by apply list_elem_of_In.
  - rewrite omap_snoc, Hc. destruct (class_of item) as [k|] eqn:Hk.
    + apply NoDup_app. split_and!; [eapply sublist_NoDup; [exact Hn|apply omap_filter_sublist]| |apply NoDup_singleton].
      intros k' Hk' ->%list_elem_of_singleton. apply list_elem_of_omap in Hk' as (m & Hm & Hmk).
      apply list_elem_of_In, filter_In in Hm as [_ Hm]. unfold same_class in Hm.
      rewrite Hk, bool_decide_eq_true_2 in Hm; done.
    + rewrite app_nil_r. eapply sublist_NoDup; [exact Hn|apply omap_filter_sublist].
Qed.

(** [enqueue] on a well-formed queue. *)
Lemma enqueue_spec q item :
  queue_ok q ->
  match dclass item with
  | Throw e => enqueue json_viewId false q item = Throw e
  | Ok _ => exists item', enqueue json_viewId false q item
              = Ok (replaced q item item', length (replaced q item item')) /\
      m_data item' = m_data item /\ m_tokens item' = m_tokens item /\
      msg_firstLine item' = msg_firstLine item /\ queue_ok (replaced q item item')
  end.
Proof.
  intros Hq. pose proof (deduplicate_spec q item Hq) as Hd. unfold enqueue. destruct (dclass item) as [k|e] eqn:Hk.
  - destruct Hd as (item' & -> & H1 & H2 & H3 & H4). exists item'. cbn [rbind fst snd]. split_and!; [|done..|].
    + unfold replaced. rewrite length_app. simpl. by rewrite Nat.add_1_r.
    + apply replaced_ok; [done|done|]. unfold class_of. by rewrite (dclass_same item item').
  - by rewrite Hd.
Qed.

(** ** The client *)

(** The payload after the header line. *)
Definition msg_body (m : Message) : bytes := drop (S (length (msg_firstLine m))) (m_data m).

(** A client's tiles: a [tile:] message sets a tile, a [delta:] extends it. *)
Definition client_step (c : client_tiles) (m : Message) : client_tiles :=
  if beq (firstToken m) (str "tile:") then
    match parse (msg_firstLine m) with Ok t => <[cache_key t := msg_body m]> c | Throw _ => c end
  else if beq (firstToken m) (str "delta:") then
    match parse (msg_firstLine m) with
    | Ok t => alter (fun b => b ++ msg_body m) (cache_key t) c
    | Throw _ => c
    end
  else c.

(** Two clients that agree but on the tile [k]. *)
Definition agree_off (k : list Z) (c1 c2 : client_tiles) : Prop := forall i, i <> k -> c1 !! i = c2 !! i.

Lemma client_step_agree k c1 c2 m : agree_off k c1 c2 -> agree_off k (client_step c1 m) (client_step c2 m).
Proof.
  intros H i Hi. unfold client_step. destruct (beq _ _).
  - destruct (parse _) as [t|]; [|by apply H]. destruct (decide (i = cache_key t)) as [->|Hn].
    + by rewrite !lookup_insert_eq.
    + rewrite !lookup_insert_ne by done. by apply H.
  - destruct (beq _ _); [|by apply H]. destruct (parse _) as [t|]; [|by apply H].
    destruct (decide (i = cache_key t)) as [->|Hn].
    + rewrite !lookup_alter_eq. f_equal. by apply H.
    + rewrite !lookup_alter_ne by done. by apply H.
Qed.

Lemma client_fold_agree k q c1 c2 :
  agree_off k c1 c2 -> agree_off k (fold_left client_step q c1) (fold_left client_step q c2).
Proof. revert c1 c2. induction q as [|m q IH]; intros c1 c2 H; simpl; [done|]. by apply IH, client_step_agree. Qed.

(** A [tile:] message of the tile [k] makes earlier differences there irrelevant. *)
Lemma client_step_overrides k c1 c2 m t :
  firstToken m = str "tile:" -> parse (msg_firstLine m) = Ok t -> cache_key t = k ->
  agree_off k c1 c2 -> client_step c1 m = client_step c2 m.
Proof.
  intros Hc Hp Hk H. unfold client_step. rewrite Hc, beq_refl, Hp, Hk. apply map_eq. intros i.
  destruct (decide (i = k)) as [->|Hn]; [by rewrite !lookup_insert_eq|].
  rewrite !lookup_insert_ne by done. by apply H.
Qed.

Lemma tile_class_cache_key a b : tile_class a = tile_class b -> cache_key a = cache_key b.
Proof. unfold tile_class, order_key, cache_key. congruence. Qed.

(** Dropping the messages of the item's class changes at most the item's tile. *)
Lemma client_dropped q item t c1 c2 :
  firstToken item = str "tile:" -> parse (msg_firstLine item) = Ok t ->
  agree_off (cache_key t) c1 c2 ->
  agree_off (cache_key t)
    (fold_left client_step (List.filter (fun cur => negb (same_class item cur)) q) c1)
    (fold_left client_step q c2).
Proof.
  intros Hc Hp. revert c1 c2. induction q as [|m q IH]; intros c1 c2 H; simpl; [done|].
  destruct (same_class item m) eqn:Hs; simpl; [|by apply IH, client_step_agree].
  apply IH. intros i Hi. rewrite (H i Hi). revert Hs. unfold same_class.
  assert (Hk : class_of item = Some (str "tile:", tile_class t, [])) by (unfold class_of, dclass; by rewrite Hc, beq_refl, Hp).
  rewrite Hk, bool_decide_eq_true. intros Hm. pose proof (class_of_command _ _ Hm) as Hmc. simpl in Hmc.
  revert Hm. unfold class_of, dclass, client_step. rewrite <- Hmc, beq_refl.
  destruct (parse (msg_firstLine m)) as [t'|]; [|done]. cbn [rbind]. intros Hm.
  assert (Ht : tile_class t' = tile_class t) by exact (f_equal (from_option (fun k : mclass => k.1.2) []) Hm).
  rewrite lookup_insert_ne; [done|]. intros <-. apply Hi. by apply tile_class_cache_key.
Qed.

Lemma client_step_other c m :
  firstToken m <> str "tile:" -> firstToken m <> str "delta:" -> client_step c m = c.
Proof. intros H1 H2. unfold client_step. apply beq_neq in H1, H2. by rewrite H1, H2. Qed.

Lemma class_not_delta m k : class_of m = Some k -> firstToken m <> str "delta:".
Proof. intros Hk Hm. unfold class_of, dclass in Hk. by rewrite Hm in Hk. Qed.

Lemma client_step_same c m m' :
  m_data m' = m_data m -> m_tokens m' = m_tokens m -> msg_firstLine m' = msg_firstLine m ->
  client_step c m' = client_step c m.
Proof. intros H1 H2 H3. unfold client_step, msg_body, firstToken. by rewrite H1, H2, H3. Qed.

(** Replaying the queue with the replacement gives the tiles of replaying all. *)
Lemma client_replaced q item item' c :
  is_ok (dclass item) = true ->
  m_data item' = m_data item -> m_tokens item' = m_tokens item -> msg_firstLine item' = msg_firstLine item ->
  fold_left client_step (replaced q item item') c = client_step (fold_left client_step q c) item.
Proof.
  intros Hok H1 H2 H3. unfold replaced. rewrite fold_left_app. cbn [fold_left].
  rewrite (client_step_same _ item item') by done.
  destruct (decide (firstToken item = str "tile:")) as [Hc|Hc].
  - assert (exists t, parse (msg_firstLine item) = Ok t) as [t Hp].
    { revert Hok. unfold dclass. rewrite Hc, beq_refl. destruct (parse _) as [t|]; [by exists t|done]. }
    eapply client_step_overrides; [done|done|done|]. by apply client_dropped.
  - f_equal. revert c. induction q as [|m q IH]; intros c; simpl; [done|].
    destruct (same_class item m) eqn:Hs; simpl; [|by rewrite IH].
    rewrite IH. f_equal. symmetry. unfold same_class in Hs.
    destruct (class_of item) as [k|] eqn:Hk; [|done]. apply bool_decide_eq_true in Hs.
    apply client_step_other; [|by eapply class_not_delta].
    by rewrite <- (class_of_command _ _ Hs), (class_of_command _ _ Hk).
Qed.
End queue.

(** ** Theorems *)

(** C13 (refinement): the queue implements "the new message replaces the one of its
    class": on a well-formed queue (the empty one is, and every result is) an accepted
    message removes the message of the same tile, command or view, leaves the others
    in order and goes to the end; the queue then holds one message per class; a
    message that does not parse throws and changes nothing. *)
Theorem enqueue_replaces json_viewId q item :
  queue_ok json_viewId q ->
  match enqueue json_viewId false q item with
  | Ok (q', n) =>
      exists item', m_data item' = m_data item /\ n = length q' /\ queue_ok json_viewId q' /\
        q' = List.filter (fun cur => negb (same_class json_viewId item cur)) q ++ [item']
  | Throw e => dclass json_viewId item = Throw e
  end.
Proof.
  intros Hq. pose proof (enqueue_spec json_viewId q item Hq) as H.
  destruct (dclass json_viewId item) as [k|e]; [|by rewrite H].
  destruct H as (item' & -> & H1 & _ & _ & H4). by exists item'.
Qed.

(** The tile of [sample_tile] as a message. *)
Definition tile_message (kind payload : bytes) : Message :=
  Message_new (serialize sample_tile kind [chr_newline] ++ payload).

Definition sender_sample : list Message :=
  [setHash (tile_message (str "tile:") (str "old")) (equalityHash sample_tile);
   tile_message (str "delta:") (str "more")].

Definition no_json (s : bytes) : result bytes := Throw json_error.

Lemma sender_sample_ok : queue_ok no_json sender_sample.
Proof.
  split.
  - apply Forall_cons_2; [|apply Forall_singleton].
    + split; [vm_compute; reflexivity|]. intros _.
      exists sample_tile. split; [vm_compute; reflexivity|vm_compute; reflexivity].
    + split; [vm_compute; reflexivity|]. intros H. vm_compute in H. discriminate.
  - by_decide.
Defined.

Lemma enqueue_replaces_witness :
  match enqueue no_json false sender_sample (tile_message (str "tile:") (str "new")) with
  | Ok (q', n) =>
      exists item', m_data item' = m_data (tile_message (str "tile:") (str "new")) /\ n = length q' /\
        queue_ok no_json q' /\
        q' = List.filter (fun cur => negb (same_class no_json (tile_message (str "tile:") (str "new")) cur))
               sender_sample ++ [item']
  | Throw e => dclass no_json (tile_message (str "tile:") (str "new")) = Throw e
  end.
Proof. apply (enqueue_replaces no_json sender_sample _ sender_sample_ok). Defined.

(** Fact (equivalence): deduplication does not change what the client ends up with:
    replaying the queue after [enqueue] gives the same tiles as replaying the old
    queue and then the new message, though key frames are dropped from under the
    deltas that follow them. *)
Theorem dedup_same_tiles json_viewId q item q' n c :
  queue_ok json_viewId q -> enqueue json_viewId false q item = Ok (q', n) ->
  fold_left client_step q' c = client_step (fold_left client_step q c) item.
Proof.
  intros Hq He. pose proof (enqueue_spec json_viewId q item Hq) as H.
  destruct (dclass json_viewId item) as [k|e] eqn:Hd; [|congruence].
  destruct H as (item' & E & H1 & H2 & H3 & _). rewrite E in He. injection He as <- <-.
  apply client_replaced; [|done..]. by rewrite Hd.
Qed.

Lemma dedup_same_tiles_witness :
  exists q' n, enqueue no_json false sender_sample (tile_message (str "tile:") (str "new")) = Ok (q', n) /\
    length q' = 2%nat /\
    fold_left client_step q' ∅
      = client_step (fold_left client_step sender_sample ∅) (tile_message (str "tile:") (str "new")).
Proof.
  eexists _, _. split; [vm_compute; reflexivity|]. split; [reflexivity|].
  eapply (dedup_same_tiles no_json sender_sample); [apply sender_sample_ok|vm_compute; reflexivity].
Defined.
