(* ===== verification/ClientSession.v ===== *)
(** * [ClientSession]: sending tiles to one client

    Models the part of [wsd/ClientSession.hpp] and [wsd/ClientSession.cpp] that
    sends tiles: the tracker of what the client has ([ClientDeltaTracker] of
    [wsd/TileCache.hpp]), the messages [tile:], [delta:] and [update:], the sender
    queue, and the count of tiles on the fly with its limit.

    The tracker is an [unordered_set] of descriptors of which only the wire id is
    read: a map from the key to the id. [_docBroker.lock()] succeeds, as the broker
    runs these methods. Times are milliseconds. *)

From S2P Require Import Prelude StateError Util StringVector Protocol Rectangle TileDesc TileData TileCache Message.

Open Scope cool_scope.

(** ** Data *)

(** [ClientDeltaTracker::_cache]. *)
Abbreviation ClientDeltaTracker := (gmap (list Z) Z).

Record ClientSession := {
  s_tracker : ClientDeltaTracker;
  s_tilesOnFly : list (Z * Z);
  s_requestedTiles : list TileDesc;
  s_senderQueue : list Message;
  s_closeFrame : bool;
  s_clientVisibleArea : Rectangle;
  s_tileWidthTwips : Z;
  s_tileHeightTwips : Z;
  s_canonicalViewId : Z }.

Definition s_set (s : ClientSession) (tracker : ClientDeltaTracker) (onFly : list (Z * Z))
    (requested : list TileDesc) (queue : list Message) : ClientSession :=
  {| s_tracker := tracker; s_tilesOnFly := onFly; s_requestedTiles := requested;
     s_senderQueue := queue; s_closeFrame := s_closeFrame s;
     s_clientVisibleArea := s_clientVisibleArea s; s_tileWidthTwips := s_tileWidthTwips s;
     s_tileHeightTwips := s_tileHeightTwips s; s_canonicalViewId := s_canonicalViewId s |}.
Definition s_setTracker (s : ClientSession) (tracker : ClientDeltaTracker) : ClientSession :=
  s_set s tracker (s_tilesOnFly s) (s_requestedTiles s) (s_senderQueue s).
Definition s_setOnFly (s : ClientSession) (onFly : list (Z * Z)) : ClientSession :=
  s_set s (s_tracker s) onFly (s_requestedTiles s) (s_senderQueue s).
Definition s_setRequested (s : ClientSession) (requested : list TileDesc) : ClientSession :=
  s_set s (s_tracker s) (s_tilesOnFly s) requested (s_senderQueue s).
Definition s_setQueue (s : ClientSession) (queue : list Message) : ClientSession :=
  s_set s (s_tracker s) (s_tilesOnFly s) (s_requestedTiles s) queue.

(** ** The tracker *)

(** The tracker and the id of the last tile sent. *)
Definition updateTileSeq (t : ClientDeltaTracker) (desc : TileDesc) : ClientDeltaTracker * Z :=
  (<[cache_key desc := _wireId desc]> t, default 0 (t !! cache_key desc)).

Definition tracker_resetTileSeq (t : ClientDeltaTracker) (desc : TileDesc) : ClientDeltaTracker :=
  match t !! cache_key desc with
  | None => t
  | Some _ => <[cache_key desc := 0]> t
  end.

Definition resetTileSeq (s : ClientSession) (desc : TileDesc) : ClientSession :=
  s_setTracker s (tracker_resetTileSeq (s_tracker s) desc).

(** ** Tiles on the fly *)

Definition addTileOnFly (s : ClientSession) (wireId now : Z) : ClientSession :=
  s_setOnFly s (s_tilesOnFly s ++ [(wireId, now)]).

Definition getTilesOnFlyCount (s : ClientSession) : nat := length (s_tilesOnFly s).

Fixpoint erase_first (l : list (Z * Z)) (wireId : Z) : list (Z * Z) :=
  match l with
  | [] => []
  | curTile :: rest => if curTile.1 =? wireId then rest else curTile :: erase_first rest wireId
  end.

Definition onTileProcessed (s : ClientSession) (wireId : Z) : ClientSession :=
  s_setOnFly s (erase_first (s_tilesOnFly s) wireId).

Definition TILE_ROUNDTRIP_TIMEOUT_MS : Z := 10000.

(** [(int)(0.9 * TILE_ROUNDTRIP_TIMEOUT_MS)]. *)
Definition lowTimeoutMs : Z := 9000.

Fixpoint remove_outdated (l : list (Z * Z)) (now : Z) (dropped : nat) : list (Z * Z) :=
  match l with
  | [] => []
  | tile :: rest =>
      let elapsedTimeMs := now - tile.2 in
      if (TILE_ROUNDTRIP_TIMEOUT_MS <? elapsedTimeMs) || ((0 <? dropped)%nat && (lowTimeoutMs <? elapsedTimeMs))
      then remove_outdated rest now (S dropped) else l
  end.

Definition removeOutdatedTilesOnFly (s : ClientSession) (now : Z) : ClientSession :=
  s_setOnFly s (remove_outdated (s_tilesOnFly s) now 0).

Definition getNormalizedVisibleArea (s : ClientSession) : Rectangle :=
  {| _x1 := Z.max (getLeft (s_clientVisibleArea s)) 0; _y1 := Z.max (getTop (s_clientVisibleArea s)) 0;
     _x2 := getRight (s_clientVisibleArea s); _y2 := getBottom (s_clientVisibleArea s) |}.

(** Rounding to the 24 significant bits of a [float], to nearest and to even on a
    tie; the argument is a number of fixed-point units. *)
Definition f32_round_pos (m : Z) : Z :=
  let e := Z.max 0 (Z.log2 m - 23) in
  let unit := Z.shiftl 1 e in
  let q := Z.shiftr m e in
  let r := m - q * unit in
  if (unit <? 2 * r) || ((2 * r =? unit) && Z.odd q) then (q + 1) * unit else q * unit.
Definition f32_round (m : Z) : Z := if m <? 0 then - f32_round_pos (- m) else f32_round_pos m.

(** [n * 1.1f] as a [float], in units of [2^-23]; [1.1f] is [9227469 * 2^-23]. *)
Definition times_1_1f (n : Z) : Z := f32_round (f32_round n * 9227469).

Definition TILES_ON_FLY_MIN_UPPER_LIMIT : Z := 10 * 8388608.

Definition getTilesOnFlyUpperLimit (s : ClientSession) : Z :=
  let area := getNormalizedVisibleArea s in
  if rect_hasSurface area && negb (s_tileWidthTwips s =? 0) && negb (s_tileHeightTwips s =? 0) then
    let tilesFitOnWidth := i32 (Z.quot (getRight area) (s_tileWidthTwips s)
                                - Z.quot (getLeft area) (s_tileWidthTwips s) + 1) in
    let tilesFitOnHeight := i32 (Z.quot (getBottom area) (s_tileHeightTwips s)
                                 - Z.quot (getTop area) (s_tileHeightTwips s) + 1) in
    let tilesInVisArea := i32 (tilesFitOnWidth * tilesFitOnHeight) in
    Z.max TILES_ON_FLY_MIN_UPPER_LIMIT (times_1_1f tilesInVisArea) / 8388608
  else 200.

(** ** Sending *)

Section sending.
Context (json_viewId : bytes -> result bytes) (terminating : bool).

(** [enqueueSendMessage]; [now] is read by [addTileOnFly]. *)
Definition enqueueSendMessage (now : Z) (data : Message) : SE ClientSession unit := fun s =>
  if s_closeFrame s then (s, Ok tt)
  else
    let parsed :=
      if firstTokenMatches data (str "tile:") || firstTokenMatches data (str "delta:") then
        try t <- parse (msg_firstLine data); Ok (Some (_wireId t), assignFirstLineIfEmpty data)
      else Ok (None, data) in
    match parsed with
    | Throw e => (s, Throw e)
    | Ok (wireId, data) =>
        let sizeBefore := length (s_senderQueue s) in
        match enqueue json_viewId terminating (s_senderQueue s) data with
        | Throw e => (s, Throw e)
        | Ok (queue, newSize) =>
            let s := s_setQueue s queue in
            match wireId with
            | Some id => if negb (sizeBefore =? newSize)%nat then (addTileOnFly s id now, Ok tt) else (s, Ok tt)
            | None => (s, Ok tt)
            end
        end
    end.

Definition sendTextFrame (now : Z) (buffer : bytes) : SE ClientSession bool := fun s =>
  if negb (s_closeFrame s) then (exec enqueueSendMessage now (Message_new buffer); se_ret true) s
  else (s, Ok false).
Definition sendBinaryFrame : Z -> bytes -> SE ClientSession bool := sendTextFrame.

Definition sendUpdateNow (now : Z) (desc : TileDesc) : SE ClientSession bool :=
  exec se_modify (fun s => s_setTracker s (updateTileSeq (s_tracker s) desc).1);
  sendTextFrame now (serialize desc (str "update:") [chr_newline]).

Definition sendTileNow (now : Z) (desc : TileDesc) (tile : TileData) : SE ClientSession bool :=
  do s <- se_get;
  let lastSentId := (updateTileSeq (s_tracker s) desc).2 in
  exec se_modify (fun s => s_setTracker s (updateTileSeq (s_tracker s) desc).1);
  do keyframe <- se_lift (match needsKeyframe tile lastSentId with Some b => Ok b | None => Throw undefined end);
  let header := if keyframe || isPng tile then serialize desc (str "tile:") [chr_newline]
                else serialize desc (str "delta:") [chr_newline] in
  let '(output, hasContent) := appendChangesSince tile header (if isPng tile then 0 else lastSentId) in
  sendBinaryFrame now output.

Definition sendBlob (now : Z) (header blob : bytes) : SE ClientSession bool :=
  sendBinaryFrame now (header ++ blob).
End sending.
