(* ===== verification/ClientSessionSpec.v ===== *)
(** * Sending tiles, specified

    Theorems about [ClientSession.v]: a client that replays what it is sent has
    the bytes of the server's tile, whatever mixture of key frames, deltas and
    resets led there; and the limit on the tiles in flight. *)

From S2P Require Import Prelude StateError Util StringVector Protocol Rectangle TileDesc TileData TileCache Message SenderQueueSpec ClientSession.

Open Scope cool_scope.

(** ** The limit on tiles in flight *)

Lemma f32_round_pos_bound m :
  0 <= m -> 0 <= f32_round_pos m /\ 16777215 * m <= 16777216 * f32_round_pos m.
Proof.
  intros Hm. unfold f32_round_pos. set (e := Z.max 0 (Z.log2 m - 23)).
  assert (He : 0 <= e) by lia. rewrite Z.shiftl_1_l, Z.shiftr_div_pow2 by done. set (u := 2 ^ e).
  assert (Hu : 0 < u) by (apply Z.pow_pos_nonneg; lia).
  pose proof (Z.div_mod m u). pose proof (Z.mod_pos_bound m u Hu).
  assert (Hq : 0 <= m / u) by (apply Z.div_pos; lia).
  assert (Hue : u = 1 \/ u * 8388608 <= m).
  { destruct (Z.le_gt_cases (Z.log2 m) 23) as [Hl|Hl].
    - left. unfold u. by replace e with 0 by lia.
    - right. unfold u. replace e with (Z.log2 m - 23) by lia.
      assert (0 < m) by (destruct (Z.eq_dec m 0) as [->|]; [simpl in Hl; lia|lia]).
      pose proof (Z.log2_spec m). change 8388608 with (2 ^ 23). rewrite <- Z.pow_add_r by lia.
      replace (Z.log2 m - 23 + 23) with (Z.log2 m) by lia. lia. }
  set (q := m / u) in *. assert (Hr : m - q * u = m mod u) by lia. rewrite Hr.
  set (r := m mod u) in *. assert (Hm' : m = u * q + r) by lia.
  destruct ((u <? 2 * r) || ((2 * r =? u) && Z.odd q)) eqn:E.
  - split; nia.
  - bool_hyps. destruct E as [E _]. split; nia.
Qed.

Lemma f32_round_bound m : 0 <= m -> 0 <= f32_round m /\ 16777215 * m <= 16777216 * f32_round m.
Proof. intros Hm. unfold f32_round. rewrite (proj2 (Z.ltb_ge m 0)) by done. by apply f32_round_pos_bound. Qed.

Lemma times_1_1f_ge n : 0 <= n -> n * 8388608 <= times_1_1f n.
Proof.
  intros Hn. unfold times_1_1f. destruct (f32_round_bound n Hn) as [H1 H2].
  destruct (f32_round_bound (f32_round n * 9227469)) as [H3 H4]; [lia|]. lia.
Qed.

(** ** The messages of a tile *)

Lemma serialize_suffix t prefix suffix : serialize t prefix suffix = serialize t prefix [] ++ suffix.
Proof. unfold serialize. rewrite app_nil_r. by rewrite <- !app_assoc. Qed.

Lemma serialize_no_newline t prefix :
  plain chr_space prefix -> Forall (fun c => c <> chr_newline) (serialize t prefix []).
Proof.
  intros [_ Hp]. rewrite serialize_tokens. apply Forall_app_2.
  - eapply Forall_impl; [exact Hp|]. simpl. tauto.
  - pose proof (tile_tokens_plain t) as Ht. induction Ht as [|x l [_ Hx] Hl IH]; [constructor|].
    unfold join_with. simpl. constructor; [done|]. apply Forall_app_2; [|exact IH].
    eapply Forall_impl; [exact Hx|]. simpl. tauto.
Qed.

Lemma first_line_app s rest :
  Forall (fun c => c <> chr_newline) s -> first_line (s ++ chr_newline :: rest) = s.
Proof.
  induction 1 as [|c s Hc Hs IH]; simpl; [done|]. destruct (Z.eqb_spec c chr_newline); [done|]. by rewrite IH.
Qed.

(** A wire prefix that is not taken for a forwarding token. *)
Definition tile_prefix (p : bytes) : Prop := p = str "tile:" \/ p = str "delta:" \/ p = str "update:".

Lemma tile_prefix_wire p : tile_prefix p -> wire_prefix p.
Proof.
  intros [-> | [-> | ->]]; (split; [split; [done|by_decide]|]; split; [unfold no_eq; by_decide|done]).
Qed.

Lemma serialize_head t p suffix : exists rest, serialize t p suffix = p ++ chr_space :: rest.
Proof. unfold serialize. eexists. f_equal. Qed.

Lemma getFirstToken_prefix p rest :
  tile_prefix p -> getFirstToken (p ++ chr_space :: rest) chr_space = p.
Proof.
  intros Hp. unfold getFirstToken, getDelimitedInitialSubstring.
  rewrite getDelimiterPosition_app by (destruct Hp as [-> | [-> | ->]]; by_decide). apply take_app_length.
Qed.

Section message.
Context (t : TileDesc) (p payload : bytes) (Ht : tile_wire_ok t) (Hp : tile_prefix p).

Definition tile_msg : Message := Message_new (serialize t p [chr_newline] ++ payload).

Lemma tile_msg_data : m_data tile_msg = serialize t p [] ++ chr_newline :: payload.
Proof.
  unfold tile_msg. rewrite serialize_suffix, <- app_assoc. simpl. unfold Message_new. cbn [m_data].
  destruct (serialize_head t p []) as [rest Hr]. rewrite Hr, <- app_assoc. simpl.
  unfold getForwardToken. rewrite getFirstToken_prefix by done.
  rewrite bool_decide_eq_false_2 by (destruct Hp as [-> | [-> | ->]]; by_decide).
  unfold copyDataAfterOffset. destruct Hp as [-> | [-> | ->]]; done.
Qed.

Lemma tile_msg_tokens : sv_strings (m_tokens tile_msg) = p :: tile_tokens t.
Proof.
  pose proof tile_msg_data as Hd. unfold tile_msg, Message_new in *. cbn [m_data m_tokens] in *. rewrite Hd.
  destruct (tile_prefix_wire p Hp) as (Hpl & _ & Hn).
  rewrite tokenize_data_strings; [|done|].
  - unfold tokens_spec. rewrite first_line_app by by apply serialize_no_newline.
    rewrite serialize_tokens. apply fields_join; [done|apply tile_tokens_plain].
  - destruct (serialize_head t p []) as [rest ->]. by destruct Hp as [-> | [-> | ->]].
Qed.

Lemma tile_msg_firstToken : firstToken tile_msg = p.
Proof. unfold firstToken. by rewrite sv_get_strings, tile_msg_tokens. Qed.

Lemma tile_msg_firstLine : msg_firstLine tile_msg = serialize t p [].
Proof.
  unfold msg_firstLine. change (m_firstLine tile_msg) with (@nil Z). cbn iota. rewrite tile_msg_data.
  unfold getFirstLine, getDelimitedInitialSubstring.
  rewrite getDelimiterPosition_app by (apply serialize_no_newline, tile_prefix_wire, Hp). apply take_app_length.
Qed.

Lemma tile_msg_parse : parse (msg_firstLine tile_msg) = Ok t.
Proof. rewrite tile_msg_firstLine. apply parse_serialize_ok; [done|by apply tile_prefix_wire]. Qed.

Lemma tile_msg_body : msg_body tile_msg = payload.
Proof.
  unfold msg_body. rewrite tile_msg_firstLine, tile_msg_data.
  change (S (length (serialize t p []))) with (1 + length (serialize t p []))%nat. rewrite Nat.add_comm.
  by rewrite <- drop_drop, drop_app_length.
Qed.
End message.

(** ** What the client has *)

(** The frames of a tile: some, with growing positive ids. *)
Record tile_frames (t : TileData) (fs : list frame) : Prop := {
  tf_stores : stores t fs;
  tf_nonempty : fs <> [];
  tf_ascending : ascending fs;
  tf_positive : Forall (fun f : frame => 0 < f.1) fs }.

(** The frames up to a wire id, and the ones after it. *)
Definition upto (w : Z) (f : frame) : bool := f.1 <=? w.

Lemma split_upto fs w :
  ascending fs -> 0 < w -> List.filter (upto w) fs ++ List.filter (newer w) fs = fs.
Proof.
  intros Ha Hw. induction Ha as [|f fs Ha IH Hf]; simpl; [done|].
  unfold upto at 1, newer at 1. destruct (Z.eqb_spec w 0); [lia|]. simpl.
  destruct (Z.leb_spec f.1 w), (Z.ltb_spec w f.1); simpl; try lia; [by rewrite IH|].
  assert (E : List.filter (upto w) fs = []).
  { clear -Hf H. induction Hf as [|g fs Hg Hf IH]; simpl; [done|]. unfold upto at 1.
    destruct (Z.leb_spec g.1 w); [simpl in *; lia|done]. }
  rewrite E in *. simpl in *. by rewrite IH.
Qed.

Lemma filter_newer_all fs w :
  (w = 0 \/ exists f, head fs = Some f /\ w < f.1) -> ascending fs -> List.filter (newer w) fs = fs.
Proof.
  intros Hw Ha. assert (Hall : Forall (fun g => newer w g = true) fs).
  { unfold newer. destruct Hw as [-> | (f & Hf & Hlt)]; [apply Forall_true; done|].
    destruct fs as [|g fs]; [done|]. injection Hf as ->. apply StronglySorted_inv in Ha as [_ Ha].
    constructor; [zcases; (done || lia)|]. eapply Forall_impl; [exact Ha|]. simpl. intros h Hh. zcases; (done || lia). }
  clear -Hall. induction Hall as [|g fs Hg Hall IH]; simpl; [done|]. by rewrite Hg, IH.
Qed.

Lemma filter_upto_last fs f :
  ascending fs -> last fs = Some f -> List.filter (upto f.1) fs = fs.
Proof.
  intros Ha. induction Ha as [|g fs Ha IH Hg]; [done|]. intros Hl. simpl.
  destruct fs as [|h fs]; [injection Hl as ->; simpl; unfold upto; by rewrite Z.leb_refl|].
  rewrite last_cons_cons in Hl. rewrite IH by done. unfold upto.
  assert (Hin : f ∈ h :: fs) by by apply last_Some_elem_of.
  rewrite Forall_forall in Hg. specialize (Hg _ Hin). simpl in Hg. by rewrite (proj2 (Z.leb_le _ _)) by lia.
Qed.

(** The client, once it has received everything queued. *)
Definition drained (c : client_tiles) (s : ClientSession) : client_tiles :=
  fold_left client_step (s_senderQueue s) c.

(** What the tracker says the client has of a tile, it has, as far as the tile's
    frames go back. *)
Definition synced (c : client_tiles) (s : ClientSession) (k : list Z) (fs : list frame) : Prop :=
  forall w, s_tracker s !! k = Some w ->
    (exists f, head fs = Some f /\ w < f.1) \/
    drained c s !! k = Some (payloads (List.filter (upto w) fs)).

Section sending.
Context (json_viewId : bytes -> result bytes).

(** Everything but the queue and the tiles on the fly is left alone. *)
Definition same_but_queue (s s' : ClientSession) : Prop :=
  exists onFly queue, s' = s_setOnFly (s_setQueue s queue) onFly.

Lemma dclass_tile_msg t p payload :
  tile_wire_ok t -> tile_prefix p -> is_ok (dclass json_viewId (tile_msg t p payload)) = true.
Proof.
  intros Ht Hp. unfold dclass. rewrite tile_msg_firstToken, tile_msg_parse by done.
  by destruct Hp as [-> | [-> | ->]].
Qed.

Lemma sendTextFrame_tile now s t p payload :
  s_closeFrame s = false -> queue_ok json_viewId (s_senderQueue s) -> tile_wire_ok t -> tile_prefix p ->
  exists s', sendTextFrame json_viewId false now (serialize t p [chr_newline] ++ payload) s = (s', Ok true) /\
    same_but_queue s s' /\ queue_ok json_viewId (s_senderQueue s') /\
    forall c, drained c s' = client_step (drained c s) (tile_msg t p payload).
Proof.
  intros Hc Hq Ht Hp. unfold sendTextFrame, se_bind, enqueueSendMessage. rewrite Hc. cbn [negb].
  fold (tile_msg t p payload). set (m := tile_msg t p payload).
  assert (Hparsed : exists wid m', (if firstTokenMatches m (str "tile:") || firstTokenMatches m (str "delta:")
      then try t <- parse (msg_firstLine m); Ok (Some (_wireId t), assignFirstLineIfEmpty m) else Ok (None, m))
      = Ok (wid, m') /\ m_data m' = m_data m /\ m_tokens m' = m_tokens m /\ msg_firstLine m' = msg_firstLine m).
  { destruct (_ || _); [|eexists _, _; by split_and!]. unfold m. rewrite tile_msg_parse by done. cbn [rbind].
    eexists _, _. split_and!; [done..|apply firstLine_assign]. }
  destruct Hparsed as (wid & m' & -> & H1 & H2 & H3).
  pose proof (enqueue_spec json_viewId (s_senderQueue s) m' Hq) as He.
  assert (Hok : is_ok (dclass json_viewId m') = true).
  { rewrite (dclass_same json_viewId m m') by done. by apply dclass_tile_msg. }
  destruct (dclass json_viewId m') as [k|] eqn:Hd; [|done].
  destruct He as (item & -> & G1 & G2 & G3 & G4). set (q := replaced _ _ _ _) in *.
  assert (Hdr : forall c, fold_left client_step q c = client_step (drained c s) m).
  { intros c. unfold q. rewrite client_replaced; [by apply client_step_same|by rewrite Hd|done..]. }
  assert (Hs0 : same_but_queue s (s_setQueue s q)) by (by exists (s_tilesOnFly s), q).
  destruct wid as [id|]; [|by exists (s_setQueue s q)].
  destruct (negb _); [|by exists (s_setQueue s q)].
  exists (addTileOnFly (s_setQueue s q) id now). split_and!; [done| |done|done].
  by exists (s_tilesOnFly s ++ [(id, now)]), q.
Qed.

Lemma client_step_tile c t payload :
  tile_wire_ok t -> client_step c (tile_msg t (str "tile:") payload) = <[cache_key t := payload]> c.
Proof.
  intros Ht. assert (Hp : tile_prefix (str "tile:")) by by left. unfold client_step.
  by rewrite tile_msg_firstToken, beq_refl, tile_msg_parse, tile_msg_body.
Qed.

Lemma client_step_delta c t payload b :
  tile_wire_ok t -> c !! cache_key t = Some b ->
  client_step c (tile_msg t (str "delta:") payload) = <[cache_key t := b ++ payload]> c.
Proof.
  intros Ht Hb. assert (Hp : tile_prefix (str "delta:")) by (right; by left). unfold client_step.
  rewrite tile_msg_firstToken, tile_msg_parse, tile_msg_body by done. simpl.
  apply map_eq. intros i. destruct (decide (i = cache_key t)) as [->|Hi].
  - by rewrite lookup_alter_eq, lookup_insert_eq, Hb.
  - by rewrite lookup_alter_ne, lookup_insert_ne.
Qed.

(** The message [sendTileNow] chooses brings the client up to date. *)
Lemma sendTileNow_updates now c s desc tile fs f :
  s_closeFrame s = false -> queue_ok json_viewId (s_senderQueue s) -> tile_wire_ok desc ->
  tile_frames tile fs -> last fs = Some f -> synced c s (cache_key desc) fs ->
  exists s', sendTileNow json_viewId false now desc tile s = (s', Ok true) /\
    same_but_queue (s_setTracker s (<[cache_key desc := _wireId desc]> (s_tracker s))) s' /\
    queue_ok json_viewId (s_senderQueue s') /\
    drained c s' = <[cache_key desc := payloads fs]> (drained c s).
Proof.
  intros Hc Hq Hw [Hst Hne Hasc Hpos] Hl Hsync. unfold sendTileNow, se_bind, se_get, se_modify, se_lift.
  cbn [updateTileSeq fst snd]. set (s1 := s_setTracker s _). set (lastSent := default 0 _).
  destruct fs as [|f0 fs0]; [done|].
  assert (Hnk : needsKeyframe tile lastSent = Some (lastSent <? f0.1)) by (unfold needsKeyframe; by rewrite (st_wids _ _ Hst)).
  rewrite Hnk. rewrite (appendChangesSince_frames tile (f0 :: fs0)) by done.
  assert (Hsend := fun p payload Hp => sendTextFrame_tile now s1 desc p payload Hc Hq Hw Hp).
  destruct ((lastSent <? f0.1) || isPng tile) eqn:Hkf.
  - replace (List.filter _ (f0 :: fs0)) with (f0 :: fs0).
    2: { symmetry. apply filter_newer_all; [|done]. destruct (isPng tile); [by left|]. right.
         exists f0. rewrite orb_false_r in Hkf. bool_hyps. done. }
    destruct (Hsend (str "tile:") (payloads (f0 :: fs0))) as (s' & E & H1 & H2 & H3); [by left|].
    exists s'. split_and!; [exact E|done|done|]. by rewrite H3, client_step_tile.
  - apply orb_false_iff in Hkf as [Hlt Hpng]. apply Z.ltb_ge in Hlt. rewrite Hpng.
    assert (0 < f0.1) by by inversion Hpos.
    destruct (s_tracker s !! cache_key desc) as [w|] eqn:Ht; [|unfold lastSent in Hlt; simpl in Hlt; lia].
    change lastSent with w in *. destruct (Hsync w Ht) as [(f1 & [= <-] & ?)|Hd]; [lia|].
    destruct (Hsend (str "delta:") (payloads (List.filter (newer w) (f0 :: fs0)))) as (s' & E & H1 & H2 & H3);
      [right; by left|].
    exists s'. split_and!; [exact E|done|done|]. rewrite H3.
    rewrite (client_step_delta _ _ _ _ Hw Hd), <- payloads_app, split_upto by (done || lia). done.
Qed.
End sending.
