(* ===== verification/TileServer.v ===== *)
(** * [DocumentBroker]: serving tiles

    Models the tile handlers of [wsd/DocumentBroker.cpp] and their callers in
    [wsd/ClientSession.cpp]: a request is answered from the cache or forwarded to
    the kit, the requested tiles of a session are sent while few enough are in
    flight, and a rendered tile is cached and sent to its subscribers.

    The broker runs on one thread; a handler is a [SE] computation on its state. A
    session is its number in the map [_sessions]; a [std::weak_ptr] to it is
    expired when the number is not in the map. The messages to the kit are
    collected in a list. The counter of rendered tiles (debugging) and the log are
    left out. *)

From S2P Require Import Prelude StateError Util StringVector Protocol Rectangle TileDesc TileCombined TileData TileCache Message ClientSession.

Open Scope cool_scope.

(** ** State *)

Record DocumentBroker := {
  b_tileVersion : Z;
  b_tileCache : option TileCache;
  b_sessions : gmap Z ClientSession;
  b_childProcess : list bytes }.

Definition b_setCache (b : DocumentBroker) (c : option TileCache) : DocumentBroker :=
  {| b_tileVersion := b_tileVersion b; b_tileCache := c; b_sessions := b_sessions b;
     b_childProcess := b_childProcess b |}.
Definition b_setSessions (b : DocumentBroker) (m : gmap Z ClientSession) : DocumentBroker :=
  {| b_tileVersion := b_tileVersion b; b_tileCache := b_tileCache b; b_sessions := m;
     b_childProcess := b_childProcess b |}.
(** [++_tileVersion], a [size_t]. *)
Definition b_bumpVersion (b : DocumentBroker) : DocumentBroker :=
  {| b_tileVersion := u64 (b_tileVersion b + 1); b_tileCache := b_tileCache b; b_sessions := b_sessions b;
     b_childProcess := b_childProcess b |}.
(** [_childProcess->sendTextFrame]. *)
Definition b_toKit (b : DocumentBroker) (msg : bytes) : DocumentBroker :=
  {| b_tileVersion := b_tileVersion b; b_tileCache := b_tileCache b; b_sessions := b_sessions b;
     b_childProcess := b_childProcess b ++ [msg] |}.

Definition hasTileCache (b : DocumentBroker) : bool := bool_decide (is_Some (b_tileCache b)).

(** Run a session's method. A method is only called on a session that exists. *)
Definition on_session {A} (sid : Z) (m : SE ClientSession A) : SE DocumentBroker A := fun b =>
  match b_sessions b !! sid with
  | Some s => let '(s', r) := m s in (b_setSessions b (<[sid := s']> (b_sessions b)), r)
  | None => (b, Throw undefined)
  end.

(** [tileCache()], which exists at the callers. *)
Definition get_cache : SE DocumentBroker TileCache := fun b =>
  match b_tileCache b with Some c => (b, Ok c) | None => (b, Throw undefined) end.
Definition set_cache_ (c : TileCache) : SE DocumentBroker unit := se_modify (fun b => b_setCache b (Some c)).

(** [_wids.back()]. *)
Definition last_wid (t : TileData) : SE DocumentBroker Z :=
  se_lift (match last (_wids t) with Some w => Ok w | None => Throw undefined end).

Section server.
Context (json_viewId : bytes -> result bytes) (terminating : bool) (item_overhead : Z).

Definition sendTile_to (sid now : Z) (desc : TileDesc) (tile : TileData) : SE DocumentBroker bool :=
  on_session sid (sendTileNow json_viewId terminating now desc tile).

(** ** Requests *)

Definition sendTileCombine (newTileCombined : TileCombined) : SE DocumentBroker unit :=
  se_modify (fun b => b_toKit b (tc_serialize newTileCombined (str "tilecombine") [])).

Definition subscribe (tile : TileDesc) (sid now : Z) : SE DocumentBroker unit :=
  do c <- get_cache; set_cache_ (subscribeToTileRendering c tile sid now).1.

(** [tile.setWireId(cachedTile->_wids.back())] for a request without an id. *)
Definition with_wid (tile : TileDesc) (cachedTile : TileData) : SE DocumentBroker TileDesc :=
  if _wireId tile =? 0 then do w <- last_wid cachedTile; se_ret (setWireId tile w) else se_ret tile.

(** The answer from the cache. *)
Definition answer (sid now : Z) (tile : TileDesc) (cachedTile : TileData) : SE DocumentBroker unit :=
  do tile <- with_wid tile cachedTile;
  exec sendTile_to sid now tile cachedTile; se_ret tt.

Definition handleTileRequest (tokens : StringVector) (forceKeyframe_ : bool) (sid now : Z) : SE DocumentBroker unit :=
  do tile <- se_lift (parse_tokens tokens);
  do session <- on_session sid se_get;
  let tile := setCanonicalViewId tile (s_canonicalViewId session) in
  exec se_modify b_bumpVersion;
  do b <- se_get;
  let tile := setVersion tile (i32 (b_tileVersion b)) in
  let tileMsg := serialize tile [] [] in
  if negb (hasTileCache b) then se_ret tt
  else
    exec (if forceKeyframe_ then on_session sid (se_modify (fun s => resetTileSeq s tile)) else se_ret tt);
    do cache <- get_cache;
    match lookupTile cache tile with
    | Some cachedTile =>
        if isValid cachedTile then answer sid now tile cachedTile
        else
          let tile := if tooLarge cachedTile then forceKeyframe tile else tile in
          exec subscribe tile sid now;
          se_modify (fun b => b_toKit b (str "tile " ++ tileMsg))
    | None =>
        let tile := forceKeyframe tile in
        exec subscribe tile sid now;
        se_modify (fun b => b_toKit b (str "tile " ++ tileMsg))
    end.

(** [requestTileRendering]: the changed tile, the tiles to render and the result. *)
Definition requestTileRendering (tile : TileDesc) (forceKeyframe_ : bool) (version now : Z)
    (tilesNeedsRendering : list TileDesc) (sid : Z) : SE DocumentBroker (TileDesc * list TileDesc * bool) :=
  do c <- get_cache;
  let '(tile, needs, allSamePartAndSize) :=
    if negb (hasTileBeingRendered c tile (Some now)) || (getTileBeingRenderedVersion c tile <? _ver tile) then
      let tile := setVersion tile version in
      let tile := if forceKeyframe_ then forceKeyframe tile else tile in
      (tile, tilesNeedsRendering ++ [tile],
       match last tilesNeedsRendering with None => true | Some back => sameTileCombineParams tile back end)
    else (tile, tilesNeedsRendering, true) in
  exec subscribe tile sid now;
  se_ret (tile, needs, allSamePartAndSize).

(** ** Sending the requested tiles *)

(** The buckets of tiles that fit in one [tilecombine]. *)
Fixpoint insert_group (t : TileDesc) (groups : list (list TileDesc)) : list (list TileDesc) :=
  match groups with
  | [] => [[t]]
  | g :: rest =>
      match g with
      | g0 :: _ => if sameTileCombineParams t g0 then (g ++ [t]) :: rest else g :: insert_group t rest
      | [] => g :: insert_group t rest
      end
  end.
Definition group_tiles (tiles : list TileDesc) : list (list TileDesc) :=
  fold_left (fun groups t => insert_group t groups) tiles [].

Definition send_combined (tiles : list TileDesc) : SE DocumentBroker unit :=
  do tc <- se_lift (create tiles); sendTileCombine tc.

(** A requested tile that needs rendering; the version is bumped once per loop. *)
Definition render_requested (tile : TileDesc) (forceKeyFrame bumpedVersion : bool) (now : Z)
    (needs : list TileDesc) (sid : Z) : SE DocumentBroker (TileDesc * list TileDesc * bool) :=
  exec (if bumpedVersion then se_ret tt else se_modify b_bumpVersion);
  do b <- se_get;
  requestTileRendering tile forceKeyFrame (i32 (b_tileVersion b)) now needs sid.

(** The loop over the session's deque, which is [requestedTiles] and the state's
    copy of it: at each round the front is handled and popped. (The front is a
    reference, and its changes go away with the pop.) *)
Fixpoint send_requested (requestedTiles : list TileDesc) (sid limit now : Z) (bumpedVersion : bool)
    (needs : list TileDesc) (allSame : bool) : SE DocumentBroker (list TileDesc * bool) :=
  match requestedTiles with
  | [] => se_ret (needs, allSame)
  | tile :: rest =>
      do session <- on_session sid se_get;
      if Z.of_nat (getTilesOnFlyCount session) <? limit then
        do cache <- get_cache;
        let pop_front := on_session sid (se_modify (fun s => s_setRequested s rest)) in
        match lookupTile cache tile with
        | Some cachedTile =>
            if isValid cachedTile then
              exec answer sid now tile cachedTile;
              exec pop_front;
              send_requested rest sid limit now bumpedVersion needs allSame
            else
              do r <- render_requested tile false bumpedVersion now needs sid;
              exec pop_front;
              send_requested rest sid limit now true r.1.2 (allSame && r.2)
        | None =>
            do r <- render_requested tile true bumpedVersion now needs sid;
            exec pop_front;
            send_requested rest sid limit now true r.1.2 (allSame && r.2)
        end
      else se_ret (needs, allSame)
  end.

Definition sendRequestedTiles (sid now : Z) : SE DocumentBroker unit :=
  do session <- on_session sid se_get;
  let tilesOnFlyUpperLimit := getTilesOnFlyUpperLimit session in
  exec on_session sid (se_modify (fun s => removeOutdatedTilesOnFly s now));
  do b <- se_get;
  if negb (bool_decide (s_requestedTiles session = [])) && hasTileCache b then
    do r <- send_requested (s_requestedTiles session) sid tilesOnFlyUpperLimit now false [] true;
    let '(tilesNeedsRendering, allSamePartAndSize) := r in
    if bool_decide (tilesNeedsRendering = []) then se_ret tt
    else if allSamePartAndSize then send_combined tilesNeedsRendering
    else se_iter send_combined (group_tiles tilesNeedsRendering)
  else se_ret tt.

(** ** Combined requests *)

(** The loop over the tiles of the request: the changed tiles, the tiles to
    render, and whether a key frame was forced. *)
Fixpoint combined_tiles (tiles : list TileDesc) (canForceKeyframe : bool) (sid version now : Z)
    (needs : list TileDesc) : SE DocumentBroker (list TileDesc * list TileDesc * bool) :=
  match tiles with
  | [] => se_ret ([], needs, false)
  | tile :: rest =>
      let tile := setVersion tile version in
      let forced := canForceKeyframe && isForcedKeyFrame tile in
      exec (if forced then on_session sid (se_modify (fun s => resetTileSeq s tile)) else se_ret tt);
      let tile := if forced then setOldWireId tile 1 else tile in
      do cache <- get_cache;
      let cachedTile := lookupTile cache tile in
      let tooLarge_ := match cachedTile with Some t => tooLarge t | None => false end in
      let valid := match cachedTile with Some t => isValid t | None => false end in
      let forceKeyFrame := bool_decide (cachedTile = None) || tooLarge_ in
      do r <- (if negb valid || tooLarge_ then
                 requestTileRendering (if forceKeyFrame then forceKeyframe tile else tile)
                   forceKeyFrame version now needs sid
               else se_ret (tile, needs, true));
      do s <- combined_tiles rest canForceKeyframe sid version now r.1.2;
      se_ret (r.1.1 :: s.1.1, s.1.2, forced || s.2)
  end.

(** [oldTile] takes the version and the wire ids of the same tile requested anew. *)
Definition same_request (oldTile newTile : TileDesc) : bool :=
  (_tilePosX oldTile =? _tilePosX newTile) && (_tilePosY oldTile =? _tilePosY newTile)
  && sameTileCombineParams oldTile newTile.
Definition renew (oldTile newTile : TileDesc) : TileDesc :=
  setWireId (setOldWireId (setVersion oldTile (_ver newTile)) (_oldWireId newTile)) (_wireId newTile).
Fixpoint accumulate_one (requestedTiles : list TileDesc) (newTile : TileDesc) : list TileDesc :=
  match requestedTiles with
  | [] => [newTile]
  | oldTile :: rest =>
      if same_request oldTile newTile then renew oldTile newTile :: rest
      else oldTile :: accumulate_one rest newTile
  end.
Definition accumulate (requestedTiles newTiles : list TileDesc) (canonicalViewId : Z) : list TileDesc :=
  match requestedTiles with
  | [] => newTiles
  | _ =>
      fold_left accumulate_one newTiles
        (map (fun t => if negb (_canonicalViewId t =? canonicalViewId)
                       then setCanonicalViewId t canonicalViewId else t) requestedTiles)
  end.

Definition handleTileCombinedRequest (tileCombined : TileCombined) (canForceKeyframe : bool) (sid now : Z)
    : SE DocumentBroker unit :=
  do b <- se_get;
  if negb (hasTileCache b) then se_ret tt
  else
    exec se_modify b_bumpVersion;
    do b <- se_get;
    do r <- combined_tiles (tc_tiles tileCombined) canForceKeyframe sid (i32 (b_tileVersion b)) now [];
    let '(tiles, tilesNeedsRendering, hasOldWireId) := r in
    exec (if bool_decide (tilesNeedsRendering = []) then se_ret tt else send_combined tilesNeedsRendering);
    exec on_session sid (se_modify (fun s =>
      s_setRequested s (accumulate (s_requestedTiles s) tiles (s_canonicalViewId s))));
    sendRequestedTiles sid now.

(** ** The client's messages *)

(** [catch (const std::exception&)]. *)
Definition catching (m h : SE DocumentBroker unit) : SE DocumentBroker unit := fun b =>
  match m b with
  | (b', Throw e) => if bool_decide (e = undefined) then (b', Throw undefined) else h b'
  | r => r
  end.

Definition sendError (sid now : Z) : SE DocumentBroker unit :=
  exec on_session sid (sendTextFrame json_viewId terminating now (str "error: cmd=tile kind=invalid"));
  se_ret tt.

Definition sendTile (tokens : StringVector) (sid now : Z) : SE DocumentBroker unit :=
  catching (handleTileRequest tokens true sid now) (sendError sid now).

Definition sendCombinedTiles (tokens : StringVector) (sid now : Z) : SE DocumentBroker unit :=
  catching
    (do tc <- se_lift (tc_parse_tokens tokens);
     do session <- on_session sid se_get;
     let tc := tc_setCanonicalViewId tc (s_canonicalViewId session) in
     if hasDuplicates tc then sendError sid now
     else handleTileCombinedRequest tc true sid now)
    (se_ret tt).

(** [tileprocessed]: the ids are no longer in flight, and more tiles are sent. *)
Definition tileprocessed (tokens : StringVector) (sid now : Z) : SE DocumentBroker unit :=
  match (if (sv_size tokens =? 2)%nat then getTokenString (sv_get tokens 1) (str "wids") else None) with
  | None => se_ret tt
  | Some wids =>
      exec se_iter (fun token => on_session sid (se_modify (fun s =>
             onTileProcessed s (u32 (i32FromString token).1)))) (sv_strings (tokenize_data wids chr_comma));
      sendRequestedTiles sid now
  end.

(** ** The kit's answers *)

(** [saveTileAndNotify]: a subscriber whose session is gone is skipped. *)
Definition notify (desc : TileDesc) (now : Z) (tile : TileData) (sid : Z) : SE DocumentBroker unit :=
  do b <- se_get;
  match b_sessions b !! sid with
  | Some _ => exec sendTile_to sid now desc tile; se_ret tt
  | None => se_ret tt
  end.

Definition save_and_notify (desc : TileDesc) (data : bytes) (now : Z) : SE DocumentBroker unit :=
  do c <- get_cache;
  let tileBeingRendered := findTileBeingRendered c desc in
  let '(c', tile) := saveDataToCache item_overhead c desc data in
  exec set_cache_ c';
  match tileBeingRendered with
  | Some r =>
      exec (match tile with Some t => se_iter (notify desc now t) (r_subscribers r) | None => se_ret tt end);
      do c <- get_cache;
      set_cache_ (forgetTileBeingRendered c desc r)
  | None => se_ret tt
  end.

Definition handleTileResponse (message : Message) (now : Z) : SE DocumentBroker unit :=
  let firstLine := msg_firstLine message in
  let length_ := Z.of_nat (msg_size message) in
  catching
    (if Z.of_nat (length firstLine) <? u64 (length_ - 1) then
       do tile <- se_lift (parse firstLine);
       save_and_notify tile (drop (length firstLine + 1) (m_data message)) now
     else se_ret tt)
    (se_ret tt).

(** The blobs are read at running offsets; nothing checks that they lie inside the
    message. *)
Fixpoint save_blobs (tiles : list TileDesc) (buffer : bytes) (offset : nat) (now : Z) : SE DocumentBroker unit :=
  match tiles with
  | [] => se_ret tt
  | tile :: rest =>
      let n := Z.to_nat (_imgSize tile) in
      exec (if (length buffer <? offset + n)%nat then se_throw undefined
            else save_and_notify tile (take n (drop offset buffer)) now);
      save_blobs rest buffer (offset + n) now
  end.

Definition handleTileCombinedResponse (message : Message) (now : Z) : SE DocumentBroker unit :=
  let firstLine := msg_firstLine message in
  let length_ := Z.of_nat (msg_size message) in
  catching
    (if Z.of_nat (length firstLine) <=? u64 (length_ - 1) then
       do tc <- se_lift (tc_parse firstLine);
       save_blobs (tc_tiles tc) (m_data message) (length firstLine + 1) now
     else se_ret tt)
    (se_ret tt).
End server.
