(* ===== verification/TileInvalidation.v ===== *)
(** * Invalidated tiles

    When the kit reports a changed area, the session whose view shows it asks for the
    tiles of its visible panes again. Models [ClientSession::handleTileInvalidation]
    with the split panes ([wsd/ClientSession.cpp]) and [DocumentBroker::invalidateTiles]
    ([wsd/DocumentBroker.hpp]), over the tile half of the broker. *)

From S2P Require Import Prelude StateError Util StringVector Protocol Rectangle TileDesc TileCombined TileData TileCache Message ClientSession TileServer.

Open Scope cool_scope.

(** ** Panes *)

Inductive SplitPaneName := TOPLEFT_PANE | TOPRIGHT_PANE | BOTTOMLEFT_PANE | BOTTOMRIGHT_PANE.

(** What of the session's view the tile half does not hold. *)
Record PaneView := {
  pv_splitX : Z;
  pv_splitY : Z;
  pv_clientSelectedPart : Z;
  pv_clientSelectedMode : Z;
  pv_tileWidthPixel : Z;
  pv_tileHeightPixel : Z;
  pv_isTextDocument : bool }.

Section view.
Context (v : PaneView) (s : ClientSession).

Definition isSplitPane (paneName : SplitPaneName) : bool :=
  let x := negb (pv_splitX v =? 0) in
  let y := negb (pv_splitY v =? 0) in
  match paneName with
  | BOTTOMRIGHT_PANE => true
  | TOPLEFT_PANE => x && y
  | TOPRIGHT_PANE => y
  | BOTTOMLEFT_PANE => x
  end.

Definition getNormalizedVisiblePaneArea (paneName : SplitPaneName) : Rectangle :=
  let normalizedVisArea := getNormalizedVisibleArea s in
  let splitX := pv_splitX v in
  let splitY := pv_splitY v in
  if (splitX =? 0) && (splitY =? 0) then
    match paneName with BOTTOMRIGHT_PANE => normalizedVisArea | _ => rect_empty end
  else
    let freeStartX := i32 (getLeft normalizedVisArea + splitX) in
    let freeStartY := i32 (getTop normalizedVisArea + splitY) in
    let freeWidth := i32 (rect_getWidth normalizedVisArea - splitX) in
    let freeHeight := i32 (rect_getHeight normalizedVisArea - splitY) in
    match paneName with
    | BOTTOMRIGHT_PANE => rect_make freeStartX freeStartY freeWidth freeHeight
    | TOPLEFT_PANE =>
        if negb (splitX =? 0) && negb (splitY =? 0) then rect_make 0 0 splitX splitY else rect_empty
    | TOPRIGHT_PANE => if negb (splitY =? 0) then rect_make freeStartX 0 freeWidth splitY else rect_empty
    | BOTTOMLEFT_PANE => if negb (splitX =? 0) then rect_make 0 freeStartY splitX freeHeight else rect_empty
    end.

Definition panes : list SplitPaneName := [TOPLEFT_PANE; TOPRIGHT_PANE; BOTTOMLEFT_PANE; BOTTOMRIGHT_PANE].

Definition isTileInsideVisibleArea (tile : TileDesc) : bool :=
  if (pv_splitX v =? 0) && (pv_splitY v =? 0) then rect_intersects (toAABBox tile) (s_clientVisibleArea s)
  else existsb (fun p => isSplitPane p && rect_intersects (toAABBox tile) (getNormalizedVisiblePaneArea p)) panes.

(** [paneRects]. *)
Definition pane_rects (invalidateRect : Rectangle) : list Rectangle :=
  List.filter (fun rect => rect_intersects rect invalidateRect)
    (map getNormalizedVisiblePaneArea (List.filter isSplitPane panes)).

(** ** The tiles of an area *)

(** [std::ceil(a / static_cast<double>(b))]: on 32-bit operands the rounded quotient
    has the ceiling of the exact one. *)
Definition ceil_div (a b : Z) : Z := - (- a / b).

Definition tile_steps (start end_ tileTwips : Z) : list Z :=
  seqZ (Z.quot start tileTwips) (ceil_div end_ tileTwips - Z.quot start tileTwips + 1).

(** Rows and columns in the order of the two loops. *)
Definition visible_cells (normalizedVisArea : Rectangle) : list (Z * Z) :=
  i ← tile_steps (getTop normalizedVisArea) (getBottom normalizedVisArea) (s_tileHeightTwips s);
  j ← tile_steps (getLeft normalizedVisArea) (getRight normalizedVisArea) (s_tileWidthTwips s);
  [(i, j)].

Definition cell_x (j : Z) : Z := i32 (j * s_tileWidthTwips s).
Definition cell_y (i : Z) : Z := i32 (i * s_tileHeightTwips s).

(** The body of the loops; [cached] tells the tiles the cache has. *)
Definition invalid_tile (cached : TileDesc -> bool) (part mode : Z) (invalidateRect : Rectangle)
    (invalidTiles : list TileDesc) (cell : Z * Z) : result (list TileDesc) :=
  let '(i, j) := cell in
  let tileRect := rect_make (cell_x j) (cell_y i) (s_tileWidthTwips s) (s_tileHeightTwips s) in
  if negb (rect_intersects invalidateRect tileRect) then Ok invalidTiles
  else
    try desc <- TileDesc_new (s_canonicalViewId s) part mode (pv_tileWidthPixel v) (pv_tileHeightPixel v)
                  (cell_x j) (cell_y i) (s_tileWidthTwips s) (s_tileHeightTwips s) (-1) 0 (-1);
    if existsb (fun it => tile_eq it desc) invalidTiles then Ok invalidTiles
    else
      let makeDelta := if cached desc then 1 else 0 in
      Ok (invalidTiles ++ [setWireId (setOldWireId desc makeDelta) 0]).

Fixpoint invalid_tiles (cached : TileDesc -> bool) (part mode : Z) (invalidateRect : Rectangle)
    (cells : list (Z * Z)) (invalidTiles : list TileDesc) : result (list TileDesc) :=
  match cells with
  | [] => Ok invalidTiles
  | cell :: cells' =>
      try tiles <- invalid_tile cached part mode invalidateRect invalidTiles cell;
      invalid_tiles cached part mode invalidateRect cells' tiles
  end.

(** The client has not said yet what it sees. *)
Definition no_visible_area : bool :=
  negb (rect_hasSurface (s_clientVisibleArea s)) || (pv_tileWidthPixel v =? 0) || (pv_tileHeightPixel v =? 0)
  || (s_tileWidthTwips s =? 0) || (s_tileHeightTwips s =? 0)
  || ((pv_clientSelectedPart v =? -1) && negb (pv_isTextDocument v)).

(** The tiles to ask for, for a message with the given area, part and mode. *)
Definition tiles_to_request (cached : TileDesc -> bool) (m : invalidate_msg) : result (list TileDesc) :=
  let paneRects := pane_rects (im_rect m) in
  if bool_decide (paneRects = []) then Ok []
  else
    let part := if im_part m =? -1 then pv_clientSelectedPart v else im_part m in
    if ((part =? pv_clientSelectedPart v) && (im_mode m =? pv_clientSelectedMode v)) || pv_isTextDocument v then
      invalid_tiles cached part (im_mode m) (im_rect m) (paneRects ≫= visible_cells) []
    else Ok [].
End view.

(** ** The handler *)

Section server.
Context (json_viewId : bytes -> result bytes) (terminating : bool).

(** The tile half of [DocumentBroker::invalidateTiles]: the cache, which must exist. *)
Definition broker_invalidateTiles (tiles : bytes) (canonicalViewId : Z) : SE DocumentBroker unit :=
  do c <- get_cache; set_cache_ (invalidateTiles c tiles canonicalViewId).1.

Definition request_invalid (invalidTiles : list TileDesc) (sid now : Z) : SE DocumentBroker unit :=
  match invalidTiles with
  | [] => se_ret tt
  | _ =>
      do session <- on_session sid se_get;
      do tileCombined <- se_lift (create invalidTiles);
      handleTileCombinedRequest json_viewId terminating
        (tc_setCanonicalViewId tileCombined (s_canonicalViewId session)) false sid now
  end.

Definition handleTileInvalidation (v : PaneView) (message : bytes) (sid now : Z) : SE DocumentBroker unit :=
  do session <- on_session sid se_get;
  exec broker_invalidateTiles message (s_canonicalViewId session);
  if no_visible_area v session || s_closeFrame session then se_ret tt
  else
    do c <- get_cache;
    do invalidTiles <- se_lift (tiles_to_request v session
                                  (fun desc => bool_decide (is_Some (lookupTile c desc))) (parseInvalidateMsg message));
    request_invalid invalidTiles sid now.
End server.
