(* ===== verification/TileServerSpec.v ===== *)
(** * Serving tiles, specified

    Theorems about [TileServer.v]: in every state the broker's handlers and the
    deliveries to the clients can reach, a client whose tracked wire id is the
    newest of a cached tile has exactly the bytes of that tile once its queue is
    drained; a rendered tile reaches its subscribers. *)

From stdpp Require Import sorting.
From S2P Require Import Prelude StateError Util StringVector Protocol Rectangle TileDesc TileCombined TileData TileCache TileCacheSpec Message SenderQueueSpec ClientSession ClientSessionSpec TileServer TileInvalidation.

Open Scope cool_scope.

(** ** The invariant *)

(** A requested tile: it fits the wire, and leaves the wire id to the server. *)
Definition request_tile (t : TileDesc) : Prop := tile_wire_ok t /\ _wireId t = 0.

Section server.
Context (json_viewId : bytes -> result bytes) (ov : Z).

Record session_ok (s : ClientSession) : Prop := {
  so_queue : queue_ok json_viewId (s_senderQueue s);
  so_requested : Forall request_tile (s_requestedTiles s);
  so_view : 0 <= s_canonicalViewId s < INT_MAX }.

(** Every open session's tracker is right about the frames [fs] of the tile [k]. *)
Definition all_synced (cl : Z -> client_tiles) (b : DocumentBroker) (k : list Z) (fs : list frame) : Prop :=
  forall sid s, b_sessions b !! sid = Some s -> s_closeFrame s = false -> synced (cl sid) s k fs.

Definition wids_fit (fs : list frame) : Prop := Forall (fun f : frame => f.1 < INT_MAX) fs.

Record cache_ok (cl : Z -> client_tiles) (b : DocumentBroker) (c : TileCache) : Prop := {
  co_size : size_ok ov c;
  co_cached : tcc_dontCache c = false;
  co_frames : forall k e, tcc_cache c !! k = Some e ->
    exists fs, tile_frames (e_tile e) fs /\ wids_fit fs /\ all_synced cl b k fs }.

(** [V] bounds the tile version, [D] is the set of sessions. *)
Record inv (V : Z) (D : gset Z) (cl : Z -> client_tiles) (b : DocumentBroker) : Prop := {
  in_cache : exists c, b_tileCache b = Some c /\ cache_ok cl b c;
  in_sessions : map_Forall (fun _ s => session_ok s) (b_sessions b);
  in_version : 0 <= b_tileVersion b <= V;
  in_dom : dom (b_sessions b) = D }.

(** The tile the cache holds under [k]. *)
Definition cached (b : DocumentBroker) (k : list Z) (t : TileData) : Prop :=
  exists c e, b_tileCache b = Some c /\ tcc_cache c !! k = Some e /\ e_tile e = t.

(** ** Changing one session *)

Lemma session_of V D cl b sid : inv V D cl b -> sid ∈ D -> exists s, b_sessions b !! sid = Some s.
Proof. intros [_ _ _ Hd] Hs. rewrite <- Hd in Hs. by apply elem_of_dom in Hs. Qed.

Lemma all_synced_set cl b k fs sid s s' :
  b_sessions b !! sid = Some s -> all_synced cl b k fs ->
  (s_closeFrame s' = false -> synced (cl sid) s' k fs) ->
  all_synced cl (b_setSessions b (<[sid := s']> (b_sessions b))) k fs.
Proof.
  intros Hs Hall Hsync i si. cbn. rewrite lookup_insert_Some. intros [[<- <-]|[_ Hi]] Hc; [by apply Hsync|].
  by apply (Hall i si).
Qed.

Lemma inv_set_session V D cl b sid s s' :
  inv V D cl b -> b_sessions b !! sid = Some s -> session_ok s' ->
  (s_closeFrame s' = false -> forall c k e, b_tileCache b = Some c -> tcc_cache c !! k = Some e ->
     exists fs, tile_frames (e_tile e) fs /\ wids_fit fs /\ all_synced cl b k fs /\ synced (cl sid) s' k fs) ->
  inv V D cl (b_setSessions b (<[sid := s']> (b_sessions b))).
Proof.
  intros [(c & Hc & [H1 H2 H3]) Hses Hv Hd] Hs Hok Hsync. constructor.
  - exists c. split; [done|]. constructor; [done|done|]. intros k e He.
    destruct (s_closeFrame s') eqn:Hcl.
    + destruct (H3 k e He) as (fs & F1 & F2 & F3). exists fs. split_and!; [done|done|].
      eapply all_synced_set; [done|done|]. congruence.
    + destruct (Hsync eq_refl c k e Hc He) as (fs & F1 & F2 & F3 & F4). exists fs. split_and!; [done|done|].
      by eapply all_synced_set.
  - by apply map_Forall_insert_2.
  - done.
  - cbn. rewrite dom_insert_L, Hd. apply elem_of_dom_2 in Hs. rewrite Hd in Hs. set_solver.
Qed.

(** A session changed without touching what its tracker says. *)
Lemma inv_session_same V D cl b sid s s' :
  inv V D cl b -> b_sessions b !! sid = Some s -> session_ok s' -> s_closeFrame s' = s_closeFrame s ->
  s_tracker s' = s_tracker s -> drained (cl sid) s' = drained (cl sid) s ->
  inv V D cl (b_setSessions b (<[sid := s']> (b_sessions b))).
Proof.
  intros Hi Hs Hok Hc Ht Hd. eapply inv_set_session; [done|done|done|]. intros Hopen c k e Hcc He.
  destruct Hi as [(c' & Hc' & [_ _ H3]) _ _ _]. rewrite Hc' in Hcc. injection Hcc as ->.
  destruct (H3 k e He) as (fs & F1 & F2 & F3). exists fs. split_and!; [done|done|done|].
  intros w Hw. rewrite Hd. rewrite Ht in Hw. apply (F3 sid s); congruence.
Qed.

Lemma on_session_hoare {A} V D cl sid (m : SE ClientSession A) (Q : A -> DocumentBroker -> Prop) E
    (P : DocumentBroker -> Prop) :
  sid ∈ D -> (forall b, P b -> inv V D cl b) ->
  (forall b s, P b -> b_sessions b !! sid = Some s ->
     match m s with
     | (s', Ok a) => Q a (b_setSessions b (<[sid := s']> (b_sessions b)))
     | (s', Throw _) => E (b_setSessions b (<[sid := s']> (b_sessions b)))
     end) ->
  hoare P (on_session sid m) Q E.
Proof.
  intros Hsid HP Hm b Hb. destruct (session_of _ _ _ _ _ (HP b Hb) Hsid) as [s Hs].
  unfold on_session. rewrite Hs. specialize (Hm b s Hb Hs). by destruct (m s) as [s' [a|e]].
Qed.

Lemma set_same b sid (s : ClientSession) :
  b_sessions b !! sid = Some s -> b_setSessions b (<[sid := s]> (b_sessions b)) = b.
Proof. intros Hs. unfold b_setSessions. rewrite insert_id by done. by destruct b. Qed.

(** Reading a session. *)
Lemma read_session_hoare V D cl sid (P : DocumentBroker -> Prop) E :
  sid ∈ D -> (forall b, P b -> inv V D cl b) ->
  hoare P (on_session sid se_get) (fun s b => P b /\ b_sessions b !! sid = Some s) E.
Proof. intros Hsid HP. eapply on_session_hoare; [done|done|]. intros b s Hb Hs.
  unfold se_get. by rewrite (set_same b sid s Hs). Qed.

(** ** Sending a cached tile *)

Lemma wids_last t fs w : tile_frames t fs -> last (_wids t) = Some w -> exists f, last fs = Some f /\ f.1 = w.
Proof.
  intros [[Hw _ _] _ _ _]. rewrite Hw. destruct fs as [|f fs _] using rev_ind; [done|].
  rewrite map_app. change (map fst [f]) with [f.1]. rewrite !last_snoc. intros Hl. exists f. split; [done|congruence].
Qed.

Lemma stores_inj t fs fs' : stores t fs -> stores t fs' -> payloads fs = payloads fs'.
Proof. intros [_ _ H1] [_ _ H2]. congruence. Qed.

Lemma inv_frames V D cl b c k e :
  inv V D cl b -> b_tileCache b = Some c -> tcc_cache c !! k = Some e ->
  exists fs, tile_frames (e_tile e) fs /\ wids_fit fs /\ all_synced cl b k fs.
Proof. intros [(c' & Hc' & Hok) _ _ _] Hc He. rewrite Hc' in Hc. injection Hc as ->. by apply (co_frames _ _ _ Hok). Qed.

Lemma same_but_queue_fields s s' :
  same_but_queue s s' ->
  s_tracker s' = s_tracker s /\ s_requestedTiles s' = s_requestedTiles s /\
  s_closeFrame s' = s_closeFrame s /\ s_canonicalViewId s' = s_canonicalViewId s.
Proof. by intros (onFly & q & ->). Qed.

(** Sending an open session the cached tile, under its newest id. *)
Lemma send_open V D cl b sid s now desc tile :
  inv V D cl b -> b_sessions b !! sid = Some s -> s_closeFrame s = false -> tile_wire_ok desc ->
  cached b (cache_key desc) tile -> last (_wids tile) = Some (_wireId desc) ->
  exists s', sendTileNow json_viewId false now desc tile s = (s', Ok true) /\
    inv V D cl (b_setSessions b (<[sid := s']> (b_sessions b))) /\
    s_closeFrame s' = false /\ s_tracker s' !! cache_key desc = Some (_wireId desc) /\
    drained (cl sid) s' !! cache_key desc = Some (_deltas tile).
Proof.
  intros Hi Hs Hopen Hw (c & e & Hc & He & <-) Hlast.
  destruct (inv_frames _ _ _ _ _ _ _ Hi Hc He) as (fs & F1 & F2 & F3).
  destruct (wids_last _ _ _ F1 Hlast) as (f & Hf & Hfw).
  destruct (in_sessions _ _ _ _ Hi sid s Hs) as [Hq Hreq Hview].
  destruct (sendTileNow_updates json_viewId now (cl sid) s desc (e_tile e) fs f) as (s' & E & Hsame & Hq' & Hdr);
    [done..|by apply (F3 sid s)|].
  destruct (same_but_queue_fields _ _ Hsame) as (Ht & Hr & Hcl & Hv). cbn in Ht, Hr, Hcl, Hv.
  assert (Hpay : payloads fs = _deltas (e_tile e)) by by rewrite (st_deltas _ _ (tf_stores _ _ F1)).
  exists s'. split_and!; [done| |congruence|by rewrite Ht, lookup_insert_eq|by rewrite Hdr, lookup_insert_eq, Hpay].
  eapply inv_set_session; [done|done|by constructor; rewrite ?Hr, ?Hv|]. intros _ c' k e' Hc' He'.
  destruct (decide (k = cache_key desc)) as [->|Hk].
  - assert (c' = c) as -> by congruence. assert (e' = e) as -> by congruence. exists fs.
    split_and!; [done|done|done|]. intros w. rewrite Ht, Hdr, lookup_insert_eq. intros [= <-]. right.
    rewrite lookup_insert_eq. rewrite <- Hfw. by rewrite (filter_upto_last fs f (tf_ascending _ _ F1) Hf).
  - destruct (inv_frames _ _ _ _ _ _ _ Hi Hc' He') as (fs' & G1 & G2 & G3). exists fs'.
    split_and!; [done|done|done|]. intros w. rewrite Ht, Hdr, !lookup_insert_ne by done. by apply (G3 sid s).
Qed.

Lemma sendTileNow_closed s now desc tile :
  s_closeFrame s = true -> _wids tile <> [] ->
  exists s', sendTileNow json_viewId false now desc tile s = (s', Ok false) /\
    s_closeFrame s' = true /\ s_senderQueue s' = s_senderQueue s /\
    s_requestedTiles s' = s_requestedTiles s /\ s_canonicalViewId s' = s_canonicalViewId s.
Proof.
  intros Hc Hw. unfold sendTileNow, se_bind, se_get, se_modify, se_lift.
  destruct (needsKeyframe tile _) as [kf|] eqn:Hk; [|by unfold needsKeyframe in Hk; destruct (_wids tile)].
  destruct (appendChangesSince _ _ _) as [out hc]. unfold sendBinaryFrame, sendTextFrame.
  cbn [s_closeFrame s_setTracker s_set]. rewrite Hc. simpl. eexists. by split_and!.
Qed.

Lemma sendTile_to_hoare V D cl sid now desc tile E :
  sid ∈ D -> tile_wire_ok desc -> last (_wids tile) = Some (_wireId desc) ->
  hoare (fun b => inv V D cl b /\ cached b (cache_key desc) tile)
    (sendTile_to json_viewId false sid now desc tile)
    (fun _ b => inv V D cl b /\ cached b (cache_key desc) tile) E.
Proof.
  intros Hsid Hw Hl. unfold sendTile_to. eapply on_session_hoare; [done|by intros b [? _]|].
  intros b s [Hi Hcd] Hs. destruct (s_closeFrame s) eqn:Hc.
  - destruct (sendTileNow_closed s now desc tile Hc) as (s' & -> & Hc' & Hq & Hr & Hv); [by destruct (_wids tile)|].
    split; [|done]. eapply inv_set_session; [done|done| |congruence].
    destruct (in_sessions _ _ _ _ Hi sid s Hs). by constructor; rewrite ?Hq, ?Hr, ?Hv.
  - destruct (send_open V D cl b sid s now desc tile) as (s' & -> & Hi' & _); [done..|]. by split.
Qed.

(** ** Changing the cache without changing the tiles *)

(** [c'] has no tile [c] has not. *)
Definition sub_cache (c' c : TileCache) : Prop :=
  tcc_dontCache c' = tcc_dontCache c /\
  forall k e', tcc_cache c' !! k = Some e' ->
    exists e, tcc_cache c !! k = Some e /\ forall fs, stores (e_tile e) fs -> stores (e_tile e') fs.

Lemma stores_frames t t' fs :
  (forall fs, stores t fs -> stores t' fs) -> tile_frames t fs -> tile_frames t' fs.
Proof. intros H [? ? ? ?]. constructor; auto. Qed.

Lemma inv_sub_cache V D cl b c c' :
  inv V D cl b -> b_tileCache b = Some c -> size_ok ov c' -> sub_cache c' c ->
  inv V D cl (b_setCache b (Some c')).
Proof.
  intros [(c0 & Hc0 & [H1 H2 H3]) Hs Hv Hd] Hc Hsz [Hdc Hsub]. rewrite Hc0 in Hc. injection Hc as ->.
  constructor; try done. exists c'. split; [done|]. constructor; [done|congruence|]. intros k e' He'.
  destruct (Hsub k e' He') as (e & He & Hst). destruct (H3 k e He) as (fs & F1 & F2 & F3).
  exists fs. split_and!; [by eapply stores_frames|done|exact F3].
Qed.

(** The rendering subscriptions do not matter. *)
Lemma size_ok_rendered c r : size_ok ov c -> size_ok ov (set_rendered c r).
Proof. done. Qed.
Lemma sub_cache_rendered c r : sub_cache (set_rendered c r) c.
Proof. split; [done|]. intros k e He. by exists e. Qed.

Lemma subscribe_rendered c tile sid now : exists r, (subscribeToTileRendering c tile sid now).1 = set_rendered c r.
Proof.
  unfold subscribeToTileRendering. destruct (findTileBeingRendered c tile); [|by eexists].
  destruct (existsb _ _); by eexists.
Qed.

(** A fact about the state that outlives a change of the subscriptions. *)
Definition ignores_rendered (F : DocumentBroker -> Prop) : Prop :=
  forall b c r, b_tileCache b = Some c -> F b -> F (b_setCache b (Some (set_rendered c r))).

Lemma subscribe_hoare V D cl (F : DocumentBroker -> Prop) tile sid now E :
  ignores_rendered F ->
  hoare (fun b => inv V D cl b /\ F b) (subscribe tile sid now) (fun _ b => inv V D cl b /\ F b) E.
Proof.
  intros HF b [Hi HFb]. destruct (in_cache _ _ _ _ Hi) as (c & Hc & Hok).
  unfold subscribe, se_bind, get_cache. rewrite Hc. unfold set_cache_, se_modify.
  destruct (subscribe_rendered c tile sid now) as [r ->]. split; [|by apply HF].
  eapply inv_sub_cache; [done|done|apply size_ok_rendered, Hok|apply sub_cache_rendered].
Qed.

Lemma cached_rendered k t : ignores_rendered (fun b => cached b k t).
Proof. intros b c r Hc (c' & e & Hc' & He & Ht). rewrite Hc in Hc'. injection Hc' as <-. by exists (set_rendered c r), e. Qed.

(** ** Requests *)

Lemma wire_ok_version t v : tile_wire_ok t -> wire_int v -> tile_wire_ok (setVersion t v).
Proof.
  intros [H1 H2 H3 H4 H5] Hv. constructor; [exact H1| |done..].
  rewrite !Forall_cons in *. cbn in *. tauto.
Qed.
Lemma wire_ok_oldwid t w : tile_wire_ok t -> 0 <= w < INT_MAX -> tile_wire_ok (setOldWireId t w).
Proof. intros [H1 H2 H3 H4 H5] Hw. by constructor. Qed.
Lemma wire_ok_wid t w : tile_wire_ok t -> 0 <= w < INT_MAX -> tile_wire_ok (setWireId t w).
Proof. intros [H1 H2 H3 H4 H5] Hw. by constructor. Qed.
Lemma wire_ok_view t v : tile_wire_ok t -> 0 <= v < INT_MAX -> tile_wire_ok (setCanonicalViewId t v).
Proof.
  intros [H1 H2 H3 H4 H5] Hv. constructor; [|rewrite !Forall_cons in *; cbn in *; unfold wire_int in *; split_and!; (tauto || lia)|done..].
  unfold tile_valid, tile_args_invalid in *. rewrite !orb_false_iff in *. cbn.
  unfold CanonicalViewId_Invalid in *. split_and!; try tauto. apply Z.leb_gt. lia.
Qed.

Lemma request_version t v : request_tile t -> wire_int v -> request_tile (setVersion t v).
Proof. intros [H1 H2] Hv. split; [by apply wire_ok_version|done]. Qed.
Lemma request_oldwid t w : request_tile t -> 0 <= w < INT_MAX -> request_tile (setOldWireId t w).
Proof. intros [H1 H2] Hw. split; [by apply wire_ok_oldwid|done]. Qed.
Lemma request_view t v : request_tile t -> 0 <= v < INT_MAX -> request_tile (setCanonicalViewId t v).
Proof. intros [H1 H2] Hw. split; [by apply wire_ok_view|done]. Qed.
Lemma request_force t : request_tile t -> request_tile (forceKeyframe t).
Proof. intros H. apply request_oldwid; [done|]. unfold INT_MAX. lia. Qed.

Lemma requestTileRendering_hoare V D cl tile force version now needs sid E :
  request_tile tile -> wire_int version ->
  hoare (inv V D cl) (requestTileRendering tile force version now needs sid)
    (fun (r : TileDesc * list TileDesc * bool) b => request_tile r.1.1 /\ inv V D cl b) E.
Proof.
  intros Ht Hv. apply (hoare_bind _ _ _ (fun _ => inv V D cl)).
  { intros b Hi. destruct (in_cache _ _ _ _ Hi) as (c & Hc & _). unfold get_cache. by rewrite Hc. }
  intros c. assert (Hsub : forall tile' n s, request_tile tile' ->
    hoare (inv V D cl) (exec subscribe tile' sid now; se_ret (tile', n, s))
      (fun (r : TileDesc * list TileDesc * bool) b => request_tile r.1.1 /\ inv V D cl b) E).
  { intros tile' n s Ht'. apply (hoare_bind _ _ _ (fun _ b => inv V D cl b /\ True)).
    - eapply hoare_conseq; [by apply (subscribe_hoare V D cl (fun _ => True))|done..].
    - intros _. apply hoare_ret. by intros b [? _]. }
  destruct (_ || _); [|by apply Hsub]. apply Hsub. destruct force; [apply request_force|]; by apply request_version.
Qed.

Lemma bump_hoare V D cl E :
  V + 1 < INT_MAX -> hoare (inv V D cl) (se_modify b_bumpVersion) (fun _ => inv (V + 1) D cl) E.
Proof.
  intros HV. apply hoare_modify. intros b [(c & Hc & [H1 H2 H3]) Hs Hv Hd].
  constructor; [exists c; split; [done|by constructor]|done| |done]. cbn. rewrite u64_id; unfold INT_MAX in *; lia.
Qed.

Lemma inv_weaken V V' D cl b : V <= V' -> inv V D cl b -> inv V' D cl b.
Proof. intros HV [Hc Hs Hv Hd]. constructor; [done|done|lia|done]. Qed.

Lemma version_wire V D cl b : V < INT_MAX -> inv V D cl b -> wire_int (i32 (b_tileVersion b)).
Proof. intros HV [_ _ Hv _]. unfold wire_int. rewrite i32_id; int_unfold; lia. Qed.

Lemma wids_fit_last t fs w :
  tile_frames t fs -> wids_fit fs -> last (_wids t) = Some w -> 0 <= w < INT_MAX.
Proof.
  intros Ht Hf Hl. destruct (wids_last _ _ _ Ht Hl) as (f & Hlf & <-).
  apply last_Some_elem_of in Hlf. destruct Ht as [_ _ _ Hp]. unfold wids_fit in Hf.
  rewrite Forall_forall in Hp, Hf. specialize (Hp f Hlf). specialize (Hf f Hlf). simpl in *. lia.
Qed.

Lemma lookup_cached V D cl b c tile t :
  inv V D cl b -> b_tileCache b = Some c -> lookupTile c tile = Some t -> cached b (cache_key tile) t.
Proof.
  intros Hi Hc. unfold lookupTile. destruct (tcc_dontCache c); [done|]. unfold findTile.
  destruct (tcc_cache c !! cache_key tile) as [e|] eqn:He; [|done]. intros [= <-]. by exists c, e.
Qed.

Lemma with_wid_hoare V D cl tile t E :
  request_tile tile ->
  hoare (fun b => inv V D cl b /\ cached b (cache_key tile) t) (with_wid tile t)
    (fun tile' b => (inv V D cl b /\ cached b (cache_key tile) t) /\ tile_wire_ok tile' /\
       cache_key tile' = cache_key tile /\ last (_wids t) = Some (_wireId tile') /\
       setWireId tile' 0 = tile) E.
Proof.
  intros [Hw H0] b [Hi Hcd]. unfold with_wid. rewrite H0. simpl. unfold se_bind, last_wid, se_lift.
  destruct Hcd as (c & e & Hc & He & <-). destruct (inv_frames _ _ _ _ _ _ _ Hi Hc He) as (fs & F1 & F2 & F3).
  destruct (last (_wids (e_tile e))) as [w|] eqn:Hl.
  - pose proof (wids_fit_last _ _ _ F1 F2 Hl). split_and!; [done|by exists c, e|by apply wire_ok_wid|done|done|].
    destruct tile. simpl in *. by subst.
  - exfalso. apply last_None in Hl. destruct F1 as [[Hwids _ _] Hne _ _]. rewrite Hl in Hwids. by destruct fs.
Qed.

(** ** The handlers keep the invariant *)

Lemma get_cache_hoare V D cl (P : DocumentBroker -> Prop) E :
  (forall b, P b -> inv V D cl b) -> hoare P get_cache (fun c b => P b /\ b_tileCache b = Some c) E.
Proof. intros HP b Hb. destruct (in_cache _ _ _ _ (HP b Hb)) as (c & Hc & _). unfold get_cache. by rewrite Hc. Qed.

(** A session's bookkeeping that the client does not see. *)
Lemma bookkeeping_hoare V D cl sid f E :
  sid ∈ D ->
  (forall s, s_tracker (f s) = s_tracker s /\ s_senderQueue (f s) = s_senderQueue s /\
     s_closeFrame (f s) = s_closeFrame s /\ s_canonicalViewId (f s) = s_canonicalViewId s) ->
  (forall s, session_ok s -> Forall request_tile (s_requestedTiles (f s))) ->
  hoare (inv V D cl) (on_session sid (se_modify f)) (fun _ => inv V D cl) E.
Proof.
  intros Hsid Hf Hreq. eapply on_session_hoare; [done|done|]. intros b s Hi Hs. unfold se_modify.
  destruct (Hf s) as (F1 & F2 & F3 & F4). pose proof (in_sessions _ _ _ _ Hi sid s Hs) as Hok.
  eapply inv_session_same; [done|done| |done|done|by unfold drained; rewrite F2].
  constructor; [rewrite F2; apply Hok|by apply Hreq|rewrite F4; apply Hok].
Qed.

Lemma pop_front_hoare V D cl sid rest E :
  sid ∈ D -> Forall request_tile rest ->
  hoare (inv V D cl) (on_session sid (se_modify (fun s => s_setRequested s rest))) (fun _ => inv V D cl) E.
Proof. intros Hsid Hr. apply bookkeeping_hoare; [done|done|]. by intros s _. Qed.

(** Answering a request from the cache. *)
Lemma answer_hoare V D cl sid now tile t E :
  sid ∈ D -> request_tile tile ->
  hoare (fun b => inv V D cl b /\ cached b (cache_key tile) t)
    (answer json_viewId false sid now tile t) (fun _ => inv V D cl) E.
Proof.
  intros Hsid Ht. eapply hoare_bind; [by apply with_wid_hoare|]. intros tile'. cbn beta.
  intros b (Hb & Hw & Hk & Hl & _). rewrite <- Hk in Hb.
  assert (H : hoare (fun b => inv V D cl b /\ cached b (cache_key tile') t)
    (exec sendTile_to json_viewId false sid now tile' t; se_ret tt) (fun _ => inv V D cl) E); [|by apply H].
  eapply hoare_bind; [by apply sendTile_to_hoare|]. intros ?. apply hoare_ret. by intros ? [? _].
Qed.

Definition vbound (bumped : bool) (V : Z) : Z := if bumped then V + 1 else V.

Lemma bump_once_hoare V D cl bumped E :
  V + 1 < INT_MAX ->
  hoare (inv (vbound bumped V) D cl) (if bumped then se_ret tt else se_modify b_bumpVersion)
    (fun _ => inv (V + 1) D cl) E.
Proof. intros HV. destruct bumped; [by apply hoare_ret|]. by apply bump_hoare. Qed.

(** Sending a requested tile to the kit. *)
Lemma render_requested_hoare V D cl tile force bumped now needs sid E :
  V + 1 < INT_MAX -> request_tile tile ->
  hoare (inv (vbound bumped V) D cl)
    (render_requested tile force bumped now needs sid) (fun _ => inv (V + 1) D cl) E.
Proof.
  intros HV Ht. eapply hoare_bind; [by apply bump_once_hoare|]. intros ?. apply hoare_get_bind. intros b Hb.
  eapply hoare_conseq; [apply (requestTileRendering_hoare (V + 1) D cl)|by intros ? ->|by intros ? ? [_ ?]|by intros ? H; exact H].
  - done.
  - by eapply version_wire.
Qed.

Lemma send_requested_hoare V D cl requested sid limit now bumped needs same (E : DocumentBroker -> Prop) :
  V + 1 < INT_MAX -> sid ∈ D -> Forall request_tile requested ->
  hoare (inv (vbound bumped V) D cl)
    (send_requested json_viewId false requested sid limit now bumped needs same)
    (fun _ => inv (V + 1) D cl) E.
Proof.
  intros HV Hsid Hr. revert bumped needs same. induction Hr as [|tile rest Ht Hr IH]; intros bumped needs same; simpl.
  { apply hoare_ret. intros b. apply inv_weaken. destruct bumped; simpl; lia. }
  eapply hoare_bind; [by apply (read_session_hoare (vbound bumped V) D cl)|]. intros s.
  destruct (_ <? limit).
  2: { apply hoare_ret. intros b [Hb _]. eapply inv_weaken; [|done]. destruct bumped; simpl; lia. }
  eapply hoare_bind; [apply (get_cache_hoare (vbound bumped V) D cl); by intros b [? _]|]. intros c.
  assert (Hpop : forall V' bumped' n sm, (forall b, inv V' D cl b -> inv (vbound bumped' V) D cl b) ->
    hoare (inv V' D cl) (exec on_session sid (se_modify (fun s => s_setRequested s rest));
       send_requested json_viewId false rest sid limit now bumped' n sm) (fun _ => inv (V + 1) D cl) E).
  { intros V' bumped' n sm HV'. eapply hoare_bind; [by apply pop_front_hoare|]. intros ?.
    eapply hoare_conseq; [by apply (IH bumped')|exact HV'|done|done]. }
  assert (Hrender : forall force, hoare (inv (vbound bumped V) D cl)
    (do r <- render_requested tile force bumped now needs sid;
     exec on_session sid (se_modify (fun s => s_setRequested s rest));
     send_requested json_viewId false rest sid limit now true r.1.2 (same && r.2))
    (fun _ => inv (V + 1) D cl) E).
  { intros force. eapply hoare_bind; [by apply render_requested_hoare|]. intros r. by apply Hpop. }
  intros b [[Hb _] Hc]. destruct (lookupTile c tile) as [t|] eqn:Hl; [|by apply Hrender].
  destruct (isValid t); [|by apply Hrender].
  pose proof (lookup_cached _ _ _ _ _ _ _ Hb Hc Hl) as Hcd. revert b Hb Hcd Hc. 
  assert (H : hoare (fun b => inv (vbound bumped V) D cl b /\ cached b (cache_key tile) t)
    (exec answer json_viewId false sid now tile t;
     exec on_session sid (se_modify (fun s => s_setRequested s rest));
     send_requested json_viewId false rest sid limit now bumped needs same) (fun _ => inv (V + 1) D cl) E).
  { eapply hoare_bind; [by apply answer_hoare|]. intros ?. by apply Hpop. }
  intros b Hb Hcd _. by apply H.
Qed.

Lemma to_kit_inv V D cl b msg : inv V D cl b -> inv V D cl (b_toKit b msg).
Proof.
  intros [(c & Hc & [H1 H2 H3]) Hs Hv Hd]. constructor; [exists c; split; [done|by constructor]|done..].
Qed.

Lemma send_combined_hoare V D cl tiles :
  hoare (inv V D cl) (send_combined tiles) (fun _ => inv V D cl) (inv V D cl).
Proof.
  eapply hoare_bind; [by apply (hoare_lift _ _ (fun _ => inv V D cl))|]. intros tc.
  apply hoare_modify. intros b. apply to_kit_inv.
Qed.

Lemma remove_outdated_hoare V D cl sid now E :
  sid ∈ D ->
  hoare (inv V D cl) (on_session sid (se_modify (fun s => removeOutdatedTilesOnFly s now))) (fun _ => inv V D cl) E.
Proof. intros Hsid. apply bookkeeping_hoare; [done|done|]. intros s Hs. apply Hs. Qed.

Lemma sendRequestedTiles_hoare V D cl sid now :
  V + 1 < INT_MAX -> sid ∈ D ->
  hoare (inv V D cl) (sendRequestedTiles json_viewId false sid now) (fun _ => inv (V + 1) D cl) (inv (V + 1) D cl).
Proof.
  intros HV Hsid.
  assert (Hmono : forall b, inv V D cl b -> inv (V + 1) D cl b) by (intros b; apply inv_weaken; lia).
  eapply hoare_bind; [by apply (read_session_hoare V D cl)|]. intros session.
  apply (hoare_extract (Forall request_tile (s_requestedTiles session))).
  { intros b [Hb Hs]. apply (in_sessions _ _ _ _ Hb sid session Hs). }
  intros Hreq. eapply hoare_pre; [intros b [Hb _]; exact Hb|].
  eapply hoare_bind; [by apply remove_outdated_hoare|]. intros ?. apply hoare_get_bind. intros b Hb.
  eapply hoare_pre; [intros b' ->; exact Hb|]. destruct (_ && _); [|by apply hoare_ret].
  eapply hoare_bind; [by apply (send_requested_hoare V D cl _ _ _ _ false)|]. intros [needs same].
  case_bool_decide; [by apply hoare_ret|]. destruct same; [apply send_combined_hoare|].
  apply hoare_iter. intros ? _. apply send_combined_hoare.
Qed.

(** ** Combined requests *)

Lemma synced_reset cl s k fs t :
  Forall (fun f : frame => 0 < f.1) fs -> fs <> [] -> synced cl s k fs -> synced cl (resetTileSeq s t) k fs.
Proof.
  intros Hpos Hne Hs w. unfold resetTileSeq, tracker_resetTileSeq.
  assert (H0 : exists f, head fs = Some f /\ 0 < f.1) by (destruct fs as [|f fs]; [done|]; exists f; by inversion Hpos).
  destruct (s_tracker s !! cache_key t) as [w0|] eqn:Ht; [|apply Hs]. cbn.
  rewrite lookup_insert_Some. intros [[_ <-]|[_ Hw]]; [by left|]. by apply Hs.
Qed.

Lemma reset_hoare V D cl sid t E :
  sid ∈ D -> hoare (inv V D cl) (on_session sid (se_modify (fun s => resetTileSeq s t))) (fun _ => inv V D cl) E.
Proof.
  intros Hsid. eapply on_session_hoare; [done|done|]. intros b s Hi Hs. unfold se_modify.
  destruct (in_sessions _ _ _ _ Hi sid s Hs) as [G1 G2 G3].
  eapply inv_set_session; [done|done|by constructor|]. intros Hopen c k e Hc He.
  destruct (inv_frames _ _ _ _ _ _ _ Hi Hc He) as (fs & F1 & F2 & F3). exists fs. split_and!; [done..|].
  apply synced_reset; [apply F1|apply F1|]. by apply (F3 sid s).
Qed.

Lemma combined_tiles_hoare V D cl tiles force sid version now needs E :
  sid ∈ D -> wire_int version -> Forall request_tile tiles ->
  hoare (inv V D cl) (combined_tiles tiles force sid version now needs)
    (fun r b => Forall request_tile (r : list TileDesc * list TileDesc * bool).1.1 /\ inv V D cl b) E.
Proof.
  intros Hsid Hv Ht. revert needs. induction Ht as [|t tiles Ht Hts IH]; intros needs; cbn [combined_tiles].
  { apply hoare_ret. intros b Hb. by split. }
  eapply hoare_bind with (R := fun _ => inv V D cl).
  { destruct (force && _); [by apply reset_hoare|by apply hoare_ret]. }
  intros ?. eapply hoare_bind; [by apply (get_cache_hoare V D cl)|]. intros c.
  set (tile := if force && _ then _ else _). assert (Htile : request_tile tile).
  { assert (request_tile (setVersion t version)) by by apply request_version. unfold tile.
    destruct (force && _); [|done]. apply request_oldwid; [done|]. unfold INT_MAX. lia. }
  clearbody tile. set (fk := bool_decide _ || _). set (cond := negb _ || _).
  eapply hoare_bind with (R := fun r b => request_tile (r : TileDesc * list TileDesc * bool).1.1 /\ inv V D cl b).
  { eapply hoare_conseq with (P' := inv V D cl); [|by intros ? [? _]|by intros ? ? H; exact H|by intros ? H; exact H].
    destruct cond; [|by apply hoare_ret]. apply requestTileRendering_hoare; [|done].
    by destruct fk; [apply request_force|]. }
  intros [[tile' needs'] same]. cbn [fst snd].
  apply hoare_pure. intros Ht'. eapply hoare_bind; [by apply IH|]. intros [[ts n] f]. cbn [fst snd].
  apply hoare_ret. intros b [Hts' Hb]. split; [by constructor|done].
Qed.

Lemma renew_request old new : request_tile old -> request_tile new -> request_tile (renew old new).
Proof.
  intros [H1 H2] [G1 G2]. unfold renew. split; [|by rewrite <- G2].
  apply wire_ok_wid; [|rewrite G2; unfold INT_MAX; lia]. apply wire_ok_oldwid; [|apply G1].
  apply wire_ok_version; [done|]. destruct G1 as [_ Hi _ _ _]. rewrite !Forall_cons in Hi. tauto.
Qed.

Lemma accumulate_one_request l t :
  Forall request_tile l -> request_tile t -> Forall request_tile (accumulate_one l t).
Proof.
  intros Hl Ht. induction Hl as [|o l Ho Hl IH]; simpl; [by apply Forall_singleton|].
  destruct (same_request o t); constructor; [by apply renew_request|done|done|done].
Qed.

Lemma accumulate_request l ts view :
  Forall request_tile l -> Forall request_tile ts -> 0 <= view < INT_MAX ->
  Forall request_tile (accumulate l ts view).
Proof.
  intros Hl Hts Hv. destruct l as [|t0 l0]; [done|]. unfold accumulate. set (l := t0 :: l0) in *.
  assert (Hl' : Forall request_tile (map (fun t => if negb (_canonicalViewId t =? view)
                  then setCanonicalViewId t view else t) l)).
  { apply Forall_map. eapply Forall_impl; [exact Hl|]. simpl. intros t Ht.
    destruct (negb _); [by apply request_view|done]. }
  clearbody l. revert Hl'. generalize (map (fun t => if negb (_canonicalViewId t =? view)
                  then setCanonicalViewId t view else t) l). clear Hl l0.
  induction Hts as [|t ts Ht Hts IH]; intros l' Hl'; simpl; [done|]. apply IH. by apply accumulate_one_request.
Qed.

Lemma handleTileCombinedRequest_hoare V D cl tc force sid now :
  V + 2 < INT_MAX -> sid ∈ D -> Forall request_tile (tc_tiles tc) ->
  hoare (inv V D cl) (handleTileCombinedRequest json_viewId false tc force sid now)
    (fun _ => inv (V + 2) D cl) (inv (V + 2) D cl).
Proof.
  intros HV Hsid Ht. assert (Hw : forall b, inv (V + 1) D cl b -> inv (V + 2) D cl b) by (intros b; apply inv_weaken; lia).
  apply hoare_get_bind. intros b0 Hb0. eapply hoare_pre; [intros b ->; exact Hb0|].
  destruct (negb (hasTileCache b0)); [apply hoare_ret; intros b; apply inv_weaken; lia|].
  eapply hoare_bind; [apply bump_hoare; lia|]. intros ?. apply hoare_get_bind. intros b Hb.
  eapply hoare_pre; [intros b' ->; exact Hb|].
  eapply hoare_bind; [apply (combined_tiles_hoare (V + 1) D cl); [done| |done]; eapply version_wire; [|exact Hb]; lia|].
  intros [[tiles needs] old]. cbn [fst snd]. apply hoare_pure. intros Htiles.
  eapply hoare_bind with (R := fun _ => inv (V + 1) D cl).
  { case_bool_decide; [by apply hoare_ret|]. eapply hoare_conseq; [apply (send_combined_hoare (V + 1) D cl)|done|done|exact Hw]. }
  intros ?. eapply hoare_bind; [apply (bookkeeping_hoare (V + 1) D cl); [done|done|]|].
  - intros s [_ Hr Hvw]. by apply accumulate_request.
  - intros ?. replace (V + 2) with (V + 1 + 1) by lia. apply sendRequestedTiles_hoare; [lia|done].
Qed.

(** ** Other messages, single requests, processed tiles *)

Definition other_message (m : Message) : Prop :=
  firstToken m <> str "tile:" /\ firstToken m <> str "delta:".

Lemma enqueue_other now m s :
  other_message m -> session_ok s ->
  let s' := (enqueueSendMessage json_viewId false now m s).1 in
  session_ok s' /\ s_closeFrame s' = s_closeFrame s /\ s_tracker s' = s_tracker s /\
  forall c, drained c s' = drained c s.
Proof.
  intros [Ht Hd] [Hq Hr Hv]. cbv zeta. unfold enqueueSendMessage. destruct (s_closeFrame s) eqn:Hc; [by split_and!|].
  rewrite !firstTokenMatches_beq by done. pose proof Ht as Ht'. pose proof Hd as Hd'. apply beq_neq in Ht', Hd'.
  rewrite Ht', Hd'. cbn [orb]. pose proof (enqueue_spec json_viewId (s_senderQueue s) m Hq) as H.
  destruct (dclass json_viewId m) as [k|e] eqn:Hk; [|rewrite H; by split_and!].
  destruct H as (item & -> & H1 & H2 & H3 & H4). split_and!; [by constructor|done|done|]. intros c.
  unfold drained. cbn. rewrite (client_replaced json_viewId) by (done || by rewrite Hk). by apply client_step_other.
Qed.

Lemma enqueue_other_hoare V D cl sid now m :
  sid ∈ D -> other_message m ->
  hoare (inv V D cl) (on_session sid (enqueueSendMessage json_viewId false now m)) (fun _ => inv V D cl) (inv V D cl).
Proof.
  intros Hsid Hm. eapply on_session_hoare; [done|done|]. intros b s Hi Hs.
  destruct (enqueue_other now m s Hm) as (H1 & H2 & H3 & H4); [by apply (in_sessions _ _ _ _ Hi sid)|].
  destruct (enqueueSendMessage _ _ _ _ s) as [s' [a|e]]; by eapply inv_session_same.
Qed.

Lemma sendError_hoare V D cl sid now :
  sid ∈ D -> hoare (inv V D cl) (sendError json_viewId false sid now) (fun _ => inv V D cl) (inv V D cl).
Proof.
  intros Hsid. eapply hoare_bind with (R := fun _ => inv V D cl); [|intros ?; by apply hoare_ret].
  eapply on_session_hoare; [done|done|]. intros b s Hi Hs. unfold sendTextFrame, se_bind.
  destruct (s_closeFrame s) eqn:Hc; simpl; [by rewrite set_same|].
  destruct (enqueue_other now (Message_new (str "error: cmd=tile kind=invalid")) s) as (H1 & H2 & H3 & H4);
    [split; vm_compute; discriminate|by apply (in_sessions _ _ _ _ Hi sid)|].
  destruct (enqueueSendMessage _ _ _ _ s) as [s' [a|e]]; simpl in *; (eapply inv_session_same; [done..|by rewrite H2|done|done]).
Qed.

Lemma catching_hoare (P : DocumentBroker -> Prop) m h (Q : unit -> DocumentBroker -> Prop) E E' :
  hoare P m Q E -> hoare E h Q E' -> (forall b, E b -> E' b) -> hoare P (catching m h) Q E'.
Proof.
  intros Hm Hh HE b Hb. specialize (Hm b Hb). unfold catching. destruct (m b) as [b' [u|e]]; [done|].
  case_bool_decide; [by apply HE|by apply Hh].
Qed.

Lemma handleTileRequest_hoare V D cl tokens force sid now :
  V + 1 < INT_MAX -> sid ∈ D -> (forall t, parse_tokens tokens = Ok t -> request_tile t) ->
  hoare (inv V D cl) (handleTileRequest json_viewId false tokens force sid now)
    (fun _ => inv (V + 1) D cl) (inv (V + 1) D cl).
Proof.
  intros HV Hsid Ht. assert (Hmono : forall b, inv V D cl b -> inv (V + 1) D cl b) by (intros b; apply inv_weaken; lia).
  eapply hoare_bind with (R := fun t b => request_tile t /\ inv V D cl b).
  { apply hoare_lift; [|by intros b Hb; apply Hmono]. intros b t Hb E. split; [by apply Ht|done]. }
  intros t. apply hoare_pure. intros Hreq. eapply hoare_bind; [by apply (read_session_hoare V D cl)|]. intros session.
  apply (hoare_extract (0 <= s_canonicalViewId session < INT_MAX)).
  { intros b [Hb Hs]. apply (in_sessions _ _ _ _ Hb sid session Hs). }
  intros Hview. eapply hoare_pre; [intros b [Hb _]; exact Hb|].
  eapply hoare_bind; [by apply bump_hoare|]. intros ?. apply hoare_get_bind. intros b Hb.
  eapply hoare_pre; [intros b' ->; exact Hb|].
  set (tile := setVersion _ _). assert (Htile : request_tile tile).
  { apply request_version; [by apply request_view|]. by eapply version_wire. }
  clearbody tile. destruct (negb _); [by apply hoare_ret|].
  eapply hoare_bind with (R := fun _ => inv (V + 1) D cl).
  { destruct force; [by apply reset_hoare|by apply hoare_ret]. }
  intros ?. eapply hoare_bind; [by apply (get_cache_hoare (V + 1) D cl)|]. intros c.
  assert (Hsub : forall tile' msg, hoare (inv (V + 1) D cl) (exec subscribe tile' sid now; se_modify (fun b => b_toKit b msg))
    (fun _ => inv (V + 1) D cl) (inv (V + 1) D cl)).
  { intros tile' msg. eapply hoare_bind with (R := fun _ b => inv (V + 1) D cl b /\ True).
    - eapply hoare_pre; [|by apply (subscribe_hoare (V + 1) D cl (fun _ => True))]. by intros.
    - intros ?. apply hoare_modify. intros b' [H _]. by apply to_kit_inv. }
  intros b' [Hb' Hc']. destruct (lookupTile c tile) as [t'|] eqn:Hl; [|by apply Hsub].
  destruct (isValid t'); [|by apply Hsub]. apply (answer_hoare (V + 1) D cl); [done|done|].
  split; [done|]. by eapply lookup_cached.
Qed.

Lemma tileprocessed_hoare V D cl tokens sid now :
  V + 1 < INT_MAX -> sid ∈ D ->
  hoare (inv V D cl) (tileprocessed json_viewId false tokens sid now) (fun _ => inv (V + 1) D cl) (inv (V + 1) D cl).
Proof.
  intros HV Hsid. unfold tileprocessed. destruct (if (sv_size tokens =? 2)%nat then getTokenString (sv_get tokens 1) (str "wids") else None) as [wids|].
  2: { apply hoare_ret. intros b. apply inv_weaken. lia. }
  eapply hoare_bind; [|intros ?; by apply sendRequestedTiles_hoare].
  apply hoare_iter. intros token _. apply bookkeeping_hoare; [done|done|]. intros s Hs. apply Hs.
Qed.

Lemma sendTile_hoare V D cl tokens sid now :
  V + 1 < INT_MAX -> sid ∈ D -> (forall t, parse_tokens tokens = Ok t -> request_tile t) ->
  hoare (inv V D cl) (sendTile json_viewId false tokens sid now) (fun _ => inv (V + 1) D cl) (inv (V + 1) D cl).
Proof.
  intros HV Hsid Ht. eapply catching_hoare; [by apply handleTileRequest_hoare|by apply sendError_hoare|done].
Qed.

Lemma sendCombinedTiles_hoare V D cl tokens sid now :
  V + 2 < INT_MAX -> sid ∈ D ->
  (forall tc, tc_parse_tokens tokens = Ok tc -> Forall request_tile (tc_tiles tc)) ->
  hoare (inv V D cl) (sendCombinedTiles json_viewId false tokens sid now)
    (fun _ => inv (V + 2) D cl) (inv (V + 2) D cl).
Proof.
  intros HV Hsid Ht. assert (Hmono : forall b, inv V D cl b -> inv (V + 2) D cl b) by (intros b; apply inv_weaken; lia).
  eapply catching_hoare with (E := inv (V + 2) D cl); [|by apply hoare_ret|done].
  eapply hoare_bind with (R := fun tc b => Forall request_tile (tc_tiles tc) /\ inv V D cl b).
  { apply hoare_lift; [|by intros b Hb; apply Hmono]. intros b tc Hb E. split; [by apply Ht|done]. }
  intros tc. apply hoare_pure. intros Htc. eapply hoare_bind; [by apply (read_session_hoare V D cl)|]. intros session.
  apply (hoare_extract (0 <= s_canonicalViewId session < INT_MAX)).
  { intros b [Hb Hs]. apply (in_sessions _ _ _ _ Hb sid session Hs). }
  intros Hview. eapply hoare_pre; [intros b [Hb _]; exact Hb|]. cbv zeta.
  destruct (hasDuplicates (tc_setCanonicalViewId tc (s_canonicalViewId session))).
  - eapply hoare_conseq; [by apply (sendError_hoare V D cl)|done|by intros ?; apply Hmono|exact Hmono].
  - apply handleTileCombinedRequest_hoare; [done|done|]. unfold tc_setCanonicalViewId. cbn [tc_tiles].
    apply Forall_map. eapply Forall_impl; [exact Htc|]. intros t H. by apply request_view.
Qed.

(** ** A rendered tile is saved *)

(** The kit's wire id is newer than anything known about the tile. *)
Definition fresh (b : DocumentBroker) (desc : TileDesc) : Prop :=
  0 < _wireId desc /\
  (forall c e, b_tileCache b = Some c -> tcc_cache c !! cache_key desc = Some e ->
     Forall (fun w => w < _wireId desc) (_wids (e_tile e))) /\
  (forall sid s w, b_sessions b !! sid = Some s -> s_tracker s !! cache_key desc = Some w -> w < _wireId desc).

Lemma synced_append c s k fs id data :
  (forall w, s_tracker s !! k = Some w -> w < id) ->
  synced c s k fs -> synced c s k (append_frame fs id data).
Proof.
  intros Hlt Hs w Hw. specialize (Hlt w Hw).
  assert (Hnew : forall x, List.filter (upto w) [(id, x)] = []).
  { intros x. simpl. unfold upto. simpl. destruct (Z.leb_spec id w); [lia|done]. }
  destruct (append_frame_cases fs id data) as [[_ ->]|[(pre & x & Hne & _ & -> & ->)| ->]].
  - left. by exists (id, drop 1 data).
  - destruct (Hs w Hw) as [(f & Hf & Hlt')|Hd].
    + left. exists f. split; [|done]. by destruct pre.
    + right. rewrite Hd. f_equal. rewrite !List.filter_app, !payloads_app, Hnew. f_equal.
      simpl. by destruct (upto w _).
  - destruct (Hs w Hw) as [(f & Hf & Hlt')|Hd].
    + left. exists f. split; [|done]. by destruct fs.
    + right. rewrite Hd. f_equal. by rewrite List.filter_app, Hnew, app_nil_r.
Qed.

(** What [saveDataToCache] does. *)
Lemma save_result c desc data c' r :
  size_ok ov c -> tcc_dontCache c = false -> data <> [] -> saveDataToCache ov c desc data = (c', r) ->
  size_ok ov c' /\ tcc_dontCache c' = false /\
  (forall k e, k <> cache_key desc -> tcc_cache c' !! k = Some e -> tcc_cache c !! k = Some e) /\
  match r with
  | None => tcc_cache c' !! cache_key desc = None
  | Some t => exists e', tcc_cache c' !! cache_key desc = Some e' /\ e_tile e' = t /\
      ((exists e, tcc_cache c !! cache_key desc = Some e /\ t = appendBlob (e_tile e) (_wireId desc) data) \/
       t = TileData_new (_wireId desc) data /\ isKeyframe data = true)
  end.
Proof.
  intros Hok Hdc Hne E. pose proof (saveDataToCache_ok ov c desc data Hok) as Hok'. rewrite E in Hok'.
  split; [exact Hok'|]. revert E. unfold saveDataToCache. rewrite Hdc.
  destruct (ensureCacheSize_inv ov c Hok) as (_ & _ & _ & _ & Hd & Hc). rewrite Hdc in Hd.
  assert (Hsub : forall k e, tcc_cache (ensureCacheSize ov c) !! k = Some e -> tcc_cache c !! k = Some e).
  { intros k e. destruct Hc as [[_ ->]|(wids & _ & _ & _ & _ & H)]; [done|]. rewrite H. by intros [? _]. }
  set (c1 := ensureCacheSize ov c) in *. destruct (tcc_cache c1 !! cache_key desc) as [e|] eqn:Hk.
  - intros [= <- <-]. cbn. split; [done|]. split; [intros k e' Hn; rewrite lookup_insert_ne by done; apply Hsub|].
    eexists. rewrite lookup_insert_eq. split; [done|]. split; [done|]. left. exists e. split; [by apply Hsub|done].
  - destruct (isKeyframe data) eqn:Hkf; simpl; intros [= <- <-].
    + cbn. split; [done|]. split; [intros k e' Hn; rewrite lookup_insert_ne by done; apply Hsub|].
      eexists. rewrite lookup_insert_eq. split; [done|]. split; [done|]. by right.
    + split; [done|]. split; [intros k e' _; apply Hsub|done].
Qed.

Lemma new_frames wid data :
  isKeyframe data = true -> data <> [] -> 0 < wid -> tile_frames (TileData_new wid data) (append_frame [] wid data).
Proof.
  intros Hk Hne Hw. destruct (append_frame_ok [] wid data) as (H1 & H2 & H3 & _); [constructor..|done|].
  constructor; [|done..]. apply stores_append; [apply stores_empty|done].
Qed.

(** Saving keeps the invariant, and the tile it yields ends in the new id. *)
Lemma save_inv V D cl b c desc data c' r :
  inv V D cl b -> b_tileCache b = Some c -> fresh b desc -> _wireId desc < INT_MAX -> data <> [] ->
  saveDataToCache ov c desc data = (c', r) ->
  inv V D cl (b_setCache b (Some c')) /\
  match r with
  | Some t => cached (b_setCache b (Some c')) (cache_key desc) t /\ last (_wids t) = Some (_wireId desc)
  | None => True
  end.
Proof.
  intros Hi Hc (Hpos & Hfr & Htr) Hwid Hne E.
  destruct (in_cache _ _ _ _ Hi) as (c0 & Hc0 & [H1 H2 H3]). rewrite Hc0 in Hc. injection Hc as ->.
  destruct (save_result c desc data c' r H1 H2 Hne E) as (S1 & S2 & S3 & S4).
  assert (Htile : match r with None => True | Some t => exists fs, tile_frames t fs /\ wids_fit fs /\
     all_synced cl b (cache_key desc) fs /\ last (_wids t) = Some (_wireId desc) end).
  { destruct r as [t|]; [|done].
    assert (Hlast : forall t fs, tile_frames t fs -> fst <$> last fs = Some (_wireId desc) -> last (_wids t) = Some (_wireId desc)).
    { intros t' fs [[Hw _ _] _ _ _] Hl. by rewrite Hw, fmap_last. }
    assert (Hfit : forall fs, Forall (fun f : frame => f.1 <= _wireId desc) fs -> wids_fit fs).
    { intros fs Hle. eapply Forall_impl; [exact Hle|]. simpl. lia. }
    destruct S4 as (e' & He' & _ & [(e & He & ->)|[-> Hk]]).
    - destruct (H3 _ _ He) as (fs & F1 & F2 & F3). destruct F1 as [G1 G2 G3 G4].
      assert (Hlt : Forall (fun f : frame => f.1 < _wireId desc) fs).
      { specialize (Hfr c e Hc0 He). rewrite (st_wids _ _ G1), Forall_map in Hfr. exact Hfr. }
      destruct (append_frame_ok fs (_wireId desc) data G3 G4 Hlt Hpos) as (A1 & A2 & A3 & A4 & A5).
      assert (Hf : tile_frames (appendBlob (e_tile e) (_wireId desc) data) (append_frame fs (_wireId desc) data)).
      { constructor; [by apply stores_append|done..]. }
      eexists. split_and!; [exact Hf|by apply Hfit| |by eapply Hlast].
      intros sid s Hs Hopen. apply synced_append; [intros w Hw; by eapply Htr|by apply (F3 sid s)].
    - destruct (append_frame_ok [] (_wireId desc) data) as (A1 & A2 & A3 & A4 & A5); [constructor..|done|].
      assert (Hf := new_frames (_wireId desc) data Hk Hne Hpos). eexists. split_and!; [exact Hf|by apply Hfit| |by eapply Hlast].
      intros sid s Hs Hopen w Hw. left. unfold append_frame. rewrite Hk. eexists. split; [done|]. simpl. by eapply Htr. }
  split.
  - destruct Hi as [_ Hs Hv Hd]. constructor; [|done..]. exists c'. split; [done|]. constructor; [done|done|].
    intros k e He. destruct (decide (k = cache_key desc)) as [->|Hk]; [|by apply H3, S3].
    destruct r as [t|]; [|congruence]. destruct S4 as (e' & He' & <- & _). rewrite He' in He. injection He as ->.
    destruct Htile as (fs & F1 & F2 & F3 & _). by exists fs.
  - destruct r as [t|]; [|done]. destruct Htile as (fs & _ & _ & _ & Hl). split; [|done].
    destruct S4 as (e' & He' & Ht & _). by exists c', e'.
Qed.

(** The client of a session has, once drained, the newest bytes of a tile. *)
Definition up_to_date (cl : Z -> client_tiles) (b : DocumentBroker) (k : list Z) (t : TileData) (sid : Z) : Prop :=
  forall s, b_sessions b !! sid = Some s -> s_closeFrame s = false -> drained (cl sid) s !! k = Some (_deltas t).

Lemma notify_hoare V D cl desc now t sid E :
  tile_wire_ok desc -> last (_wids t) = Some (_wireId desc) ->
  hoare (fun b => inv V D cl b /\ cached b (cache_key desc) t)
    (notify json_viewId false desc now t sid)
    (fun _ b => (inv V D cl b /\ cached b (cache_key desc) t) /\ up_to_date cl b (cache_key desc) t sid) E.
Proof.
  intros Hw Hl b [Hi Hcd]. unfold notify, se_bind, se_get. destruct (b_sessions b !! sid) as [s|] eqn:Hs.
  2: { split; [done|]. intros s'. by rewrite Hs. }
  unfold sendTile_to, on_session. rewrite Hs. destruct (s_closeFrame s) eqn:Hc.
  - destruct (sendTileNow_closed s now desc t Hc) as (s' & -> & Hc' & Hq & Hr & Hv); [by destruct (_wids t)|].
    split; [split; [|done]|].
    + eapply inv_set_session; [done|done| |congruence].
      destruct (in_sessions _ _ _ _ Hi sid s Hs). by constructor; rewrite ?Hq, ?Hr, ?Hv.
    + intros s2. cbn. rewrite lookup_insert_eq. intros [= <-]. congruence.
  - destruct (send_open V D cl b sid s now desc t) as (s' & -> & Hi' & _ & _ & Hdr); [done..|].
    split; [by split|]. intros s2. cbn. rewrite lookup_insert_eq. intros [= <-] _. exact Hdr.
Qed.

(** A later notification does not take away an earlier one. *)
Lemma notify_keeps V D cl desc now t sid sid' b :
  tile_wire_ok desc -> last (_wids t) = Some (_wireId desc) ->
  inv V D cl b -> cached b (cache_key desc) t ->
  up_to_date cl b (cache_key desc) t sid' ->
  up_to_date cl (notify json_viewId false desc now t sid b).1 (cache_key desc) t sid'.
Proof.
  intros Hw Hl Hi Hcd Hup. destruct (decide (sid = sid')) as [->|Hn].
  - pose proof (notify_hoare V D cl desc now t sid' (fun _ => True) Hw Hl b (conj Hi Hcd)) as H.
    pose proof (sendTile_to_hoare V D cl sid' now desc t (fun _ => False)) as Hno.
    unfold notify, se_bind, se_get in *. destruct (b_sessions b !! sid') as [s|] eqn:Hs; [|exact Hup].
    assert (Hsid : sid' ∈ D) by (rewrite <- (in_dom _ _ _ _ Hi); by eapply elem_of_dom_2).
    specialize (Hno Hsid Hw Hl b (conj Hi Hcd)). destruct (sendTile_to _ _ _ _ _ _ b) as [b' [u|e]]; [|done].
    by destruct H.
  - unfold notify, se_bind, se_get. destruct (b_sessions b !! sid) as [s|] eqn:Hs; [|exact Hup].
    unfold sendTile_to, on_session. rewrite Hs. intros s2.
    destruct (sendTileNow _ _ _ _ _ s) as [s' [u|e]]; cbn; rewrite lookup_insert_ne by done; apply Hup.
Qed.

Lemma notify_all V D cl desc now t sids done_ E :
  tile_wire_ok desc -> last (_wids t) = Some (_wireId desc) ->
  hoare (fun b => (inv V D cl b /\ cached b (cache_key desc) t) /\
           forall sid, sid ∈ done_ -> up_to_date cl b (cache_key desc) t sid)
    (se_iter (notify json_viewId false desc now t) sids)
    (fun _ b => inv V D cl b /\ forall sid, sid ∈ done_ ++ sids -> up_to_date cl b (cache_key desc) t sid) E.
Proof.
  intros Hw Hl. revert done_. induction sids as [|sid sids IH]; intros done_; simpl.
  { apply hoare_ret. intros b [[Hi _] Hup]. by rewrite app_nil_r. }
  eapply hoare_bind with (R := fun _ b => (inv V D cl b /\ cached b (cache_key desc) t) /\
    forall s, s ∈ done_ ++ [sid] -> up_to_date cl b (cache_key desc) t s).
  - intros b [[Hi Hcd] Hup]. pose proof (notify_hoare V D cl desc now t sid E Hw Hl b (conj Hi Hcd)) as H.
    assert (Hk : forall s, s ∈ done_ -> up_to_date cl (notify json_viewId false desc now t sid b).1 (cache_key desc) t s).
    { intros s Hs. eapply notify_keeps; [done..|]. by apply Hup. }
    destruct (notify json_viewId false desc now t sid b) as [b' [u|e]]; [|done]. destruct H as [H1 H2].
    split; [done|]. intros s [Hs| ->%list_elem_of_singleton]%elem_of_app; [by apply Hk|done].
  - intros ?. replace (done_ ++ sid :: sids) with ((done_ ++ [sid]) ++ sids) by by rewrite <- app_assoc. apply IH.
Qed.

Lemma set_cache_session b c sid : b_sessions (b_setCache b c) !! sid = b_sessions b !! sid.
Proof. done. Qed.

Lemma inv_set_rendered V D cl b c r :
  inv V D cl b -> b_tileCache b = Some c -> inv V D cl (b_setCache b (Some (set_rendered c r))).
Proof.
  intros Hi Hc. eapply inv_sub_cache; [done|done| |apply sub_cache_rendered].
  destruct (in_cache _ _ _ _ Hi) as (c0 & Hc0 & [H1 _ _]). rewrite Hc0 in Hc. injection Hc as ->. done.
Qed.

Lemma forget_rendered c desc r : exists m, forgetTileBeingRendered c desc r = set_rendered c m.
Proof.
  unfold forgetTileBeingRendered. destruct (_ <=? _); [by eexists|].
  exists (tcc_rendered c). by destruct c.
Qed.

(** The end of [saveTileAndNotify]: the subscriptions go, nothing else changes. *)
Lemma forget_hoare V D cl desc r (F : DocumentBroker -> Prop) E :
  (forall b c, F b -> F (b_setCache b c)) ->
  hoare (fun b => inv V D cl b /\ F b)
    (do c <- get_cache; set_cache_ (forgetTileBeingRendered c desc r))
    (fun _ b => inv V D cl b /\ F b) E.
Proof.
  intros HF. eapply hoare_bind; [apply (get_cache_hoare V D cl); by intros b [? _]|]. intros c.
  apply hoare_modify. intros b [[Hi HFb] Hc]. destruct (forget_rendered c desc r) as [m ->].
  split; [by apply inv_set_rendered|by apply HF].
Qed.

Lemma save_and_notify_spec V D cl b c desc data now :
  inv V D cl b -> b_tileCache b = Some c -> fresh b desc -> tile_wire_ok desc -> data <> [] ->
  exists b', save_and_notify json_viewId false ov desc data now b = (b', Ok tt) /\ inv V D cl b' /\
    match findTileBeingRendered c desc, (saveDataToCache ov c desc data).2 with
    | Some r, Some t => forall sid, sid ∈ r_subscribers r -> up_to_date cl b' (cache_key desc) t sid
    | _, _ => True
    end.
Proof.
  intros Hi Hc Hfr Hw Hne. unfold save_and_notify, se_bind at 1, get_cache. rewrite Hc.
  destruct (saveDataToCache ov c desc data) as [c' r] eqn:E.
  destruct (save_inv V D cl b c desc data c' r) as [Hi' Ht]; [done|done|done|apply Hw|done|done|].
  unfold set_cache_ at 1, se_modify, se_bind at 1. set (b1 := b_setCache b (Some c')) in *. clearbody b1.
  destruct (findTileBeingRendered c desc) as [rend|]; [|by exists b1]. cbn [snd].
  assert (H : hoare (fun b' => b' = b1)
    (exec (match r with Some t => se_iter (notify json_viewId false desc now t) (r_subscribers rend) | None => se_ret tt end);
     do c <- get_cache; set_cache_ (forgetTileBeingRendered c desc rend))
    (fun _ b' => inv V D cl b' /\ match r with
       | Some t => forall sid, sid ∈ r_subscribers rend -> up_to_date cl b' (cache_key desc) t sid
       | None => True end) (fun _ => False)).
  { eapply hoare_bind with (R := fun _ b' => inv V D cl b' /\ match r with
       | Some t => forall sid, sid ∈ r_subscribers rend -> up_to_date cl b' (cache_key desc) t sid
       | None => True end).
    - destruct r as [t|]; [|apply hoare_ret; by intros ? ->]. destruct Ht as [Hcd Hl].
      eapply hoare_pre; [|by apply (notify_all V D cl desc now t (r_subscribers rend) [])].
      intros ? ->. split; [done|]. by intros ? ?%elem_of_nil.
    - intros ?. apply forget_hoare. intros b' c2. by destruct r. }
  specialize (H b1 eq_refl). revert H.
  match goal with |- match ?x with _ => _ end -> exists b', ?y = _ /\ _ =>
    change y with x; destruct x as [b2 [[]|e]]; [|done] end.
  intros [H1 H2]. exists b2. split; [done|]. split; [done|]. by destruct r.
Qed.

(** ** The whole system *)

(** A state: the broker, and the tiles of every client. *)
Definition system : Type := DocumentBroker * (Z -> client_tiles).

Definition set_client (cl : Z -> client_tiles) (sid : Z) (c : client_tiles) : Z -> client_tiles :=
  fun i => if decide (i = sid) then c else cl i.

Definition close_session (s : ClientSession) : ClientSession :=
  {| s_tracker := s_tracker s; s_tilesOnFly := s_tilesOnFly s; s_requestedTiles := s_requestedTiles s;
     s_senderQueue := s_senderQueue s; s_closeFrame := true; s_clientVisibleArea := s_clientVisibleArea s;
     s_tileWidthTwips := s_tileWidthTwips s; s_tileHeightTwips := s_tileHeightTwips s;
     s_canonicalViewId := s_canonicalViewId s |}.

(** One event: a message of a client, a rendered tile or an invalidation from the
    kit (with or without the request for new tiles), a delivery, a session that opens,
    closes or goes. *)
Inductive sstep : system -> system -> Prop :=
| st_combined b cl tokens sid now :
    sid ∈ dom (b_sessions b) -> b_tileVersion b + 2 < INT_MAX ->
    (forall tc, tc_parse_tokens tokens = Ok tc -> Forall request_tile (tc_tiles tc)) ->
    sstep (b, cl) ((sendCombinedTiles json_viewId false tokens sid now b).1, cl)
| st_tile b cl tokens sid now :
    sid ∈ dom (b_sessions b) -> b_tileVersion b + 2 < INT_MAX ->
    (forall t, parse_tokens tokens = Ok t -> request_tile t) ->
    sstep (b, cl) ((sendTile json_viewId false tokens sid now b).1, cl)
| st_processed b cl tokens sid now :
    sid ∈ dom (b_sessions b) -> b_tileVersion b + 2 < INT_MAX ->
    sstep (b, cl) ((tileprocessed json_viewId false tokens sid now b).1, cl)
| st_rendered b cl desc data now :
    fresh b desc -> tile_wire_ok desc -> data <> [] ->
    sstep (b, cl) ((save_and_notify json_viewId false ov desc data now b).1, cl)
| st_invalidated b cl c msg view :
    b_tileCache b = Some c -> sstep (b, cl) (b_setCache b (Some (invalidateTiles c msg view).1), cl)
| st_requested b cl v message sid now s :
    b_sessions b !! sid = Some s -> b_tileVersion b + 2 < INT_MAX ->
    (forall cached l tc, tiles_to_request v s cached (parseInvalidateMsg message) = Ok l -> create l = Ok tc ->
       Forall request_tile (tc_tiles tc)) ->
    sstep (b, cl) ((handleTileInvalidation json_viewId false v message sid now b).1, cl)
| st_cleared b cl c :
    b_tileCache b = Some c -> sstep (b, cl) (b_setCache b (Some (tcache_clear c)), cl)
| st_limited b cl c n :
    b_tileCache b = Some c -> sstep (b, cl) (b_setCache b (Some (setMaxCacheSize ov c n)), cl)
| st_message b cl sid now m :
    sid ∈ dom (b_sessions b) -> other_message m ->
    sstep (b, cl) ((on_session sid (enqueueSendMessage json_viewId false now m) b).1, cl)
| st_deliver b cl sid s m rest :
    b_sessions b !! sid = Some s -> dequeue false (s_senderQueue s) = (rest, Some m) ->
    sstep (b, cl) (b_setSessions b (<[sid := s_setQueue s rest]> (b_sessions b)),
                   set_client cl sid (client_step (cl sid) m))
| st_open b cl sid s :
    b_sessions b !! sid = None -> s_tracker s = ∅ -> s_senderQueue s = [] -> s_requestedTiles s = [] ->
    0 <= s_canonicalViewId s < INT_MAX ->
    sstep (b, cl) (b_setSessions b (<[sid := s]> (b_sessions b)), set_client cl sid ∅)
| st_close b cl sid s :
    b_sessions b !! sid = Some s ->
    sstep (b, cl) (b_setSessions b (<[sid := close_session s]> (b_sessions b)), cl)
| st_remove b cl sid :
    sstep (b, cl) (b_setSessions b (delete sid (b_sessions b)), cl).

Definition system_init : system :=
  ({| b_tileVersion := 0; b_tileCache := Some (TileCache_new false); b_sessions := ∅; b_childProcess := [] |},
   fun _ => ∅).

Definition sinv (st : system) : Prop := inv (b_tileVersion st.1) (dom (b_sessions st.1)) st.2 st.1.

Lemma sinv_intro V D cl b : inv V D cl b -> sinv (b, cl).
Proof. intros [H1 H2 H3 H4]. constructor; [done|done|simpl; lia|done]. Qed.

Lemma sinv_run {A} V' cl b (m : SE DocumentBroker A) (Q : A -> DocumentBroker -> Prop) E :
  hoare (inv (b_tileVersion b) (dom (b_sessions b)) cl) m Q E ->
  (forall a b', Q a b' -> inv V' (dom (b_sessions b)) cl b') -> (forall b', E b' -> inv V' (dom (b_sessions b)) cl b') ->
  sinv (b, cl) -> sinv ((m b).1, cl).
Proof.
  intros Hm HQ HE Hi. specialize (Hm b Hi). destruct (m b) as [b' [a|e]]; simpl; by eapply sinv_intro; eauto.
Qed.

Lemma sinv_cache b cl c c' :
  sinv (b, cl) -> b_tileCache b = Some c -> (size_ok ov c -> size_ok ov c') -> sub_cache c' c ->
  sinv (b_setCache b (Some c'), cl).
Proof.
  intros Hi Hc Hsz Hsub. eapply sinv_intro, inv_sub_cache; [exact Hi|exact Hc| |exact Hsub]. apply Hsz.
  destruct (in_cache _ _ _ _ Hi) as (c0 & Hc0 & [H1 _ _]). simpl in Hc0. rewrite Hc0 in Hc. by injection Hc as ->.
Qed.

Lemma stores_invalidate t fs : stores t fs -> stores (invalidate t) fs.
Proof. by intros [H1 H2 H3]. Qed.

Lemma invalidate_sub c msg view : sub_cache (invalidateTiles c msg view).1 c.
Proof.
  unfold invalidateTiles, invalidateTilesRect. case_bool_decide; [split; [done|]; intros k e He; by exists e|].
  split; [done|]. intros k e'. cbn. rewrite lookup_fmap. destruct (tcc_cache c !! k) as [e|]; [|done].
  intros [= <-]. exists e. split; [done|]. intros fs Hs. unfold invalidate_entry.
  destruct (intersectsTile _ _ _ _ _ _ _ _); [by apply stores_invalidate|done].
Qed.

Lemma ensure_sub c : size_ok ov c -> sub_cache (ensureCacheSize ov c) c.
Proof.
  intros Hok. destruct (ensureCacheSize_inv ov c Hok) as (_ & _ & _ & _ & Hd & Hc). split; [done|].
  intros k e He. exists e. split; [|done]. destruct Hc as [[_ Hc]|(wids & _ & _ & _ & _ & H)]; [by rewrite Hc in He|].
  by apply H in He as [? _].
Qed.

(** Fewer sessions, or a session about which nothing is claimed. *)
Lemma sinv_sessions b cl cl' m :
  sinv (b, cl) -> map_Forall (fun _ s => session_ok s) m ->
  (forall sid s k fs, m !! sid = Some s -> s_closeFrame s = false ->
     Forall (fun f : frame => 0 < f.1) fs -> all_synced cl b k fs -> synced (cl' sid) s k fs) ->
  sinv (b_setSessions b m, cl').
Proof.
  intros [(c & Hc & [H1 H2 H3]) Hs Hv Hd] Hm Hsync. constructor; [|done|done|done].
  exists c. split; [done|]. constructor; [done|done|]. intros k e He. destruct (H3 k e He) as (fs & F1 & F2 & F3).
  exists fs. split_and!; [done|done|]. intros sid s Hsid Hopen. apply Hsync; [done|done|apply F1|exact F3].
Qed.

Lemma client_set cl sid c i : set_client cl sid c i = if decide (i = sid) then c else cl i.
Proof. done. Qed.

Lemma sstep_deliver b cl sid s m rest :
  sinv (b, cl) -> b_sessions b !! sid = Some s -> s_senderQueue s = m :: rest ->
  sinv (b_setSessions b (<[sid := s_setQueue s rest]> (b_sessions b)), set_client cl sid (client_step (cl sid) m)).
Proof.
  intros Hi Hs Hq. assert (Hok := in_sessions _ _ _ _ Hi sid s Hs). apply (sinv_sessions b cl); [done| |].
  - apply map_Forall_insert_2; [|apply Hi]. destruct Hok as [[G1 G1'] G2 G3]. rewrite Hq in G1, G1'.
    constructor; [split|done|done]; cbn; [by inversion G1|]. simpl in G1'. by destruct (class_of _ m); [inversion G1'|].
  - intros i si k fs. rewrite lookup_insert_Some, client_set.
    intros [[<- <-]|[Hn Hsi]] Hopen _ Hall; [|rewrite decide_False by done; by apply (Hall i si)].
    rewrite decide_True by done. intros w Hw. destruct (Hall sid s Hs Hopen w Hw) as [H|H]; [by left|right].
    unfold drained in *. rewrite Hq in H. exact H.
Qed.

Lemma sstep_open b cl sid s :
  sinv (b, cl) -> s_tracker s = ∅ -> s_senderQueue s = [] -> s_requestedTiles s = [] ->
  0 <= s_canonicalViewId s < INT_MAX ->
  sinv (b_setSessions b (<[sid := s]> (b_sessions b)), set_client cl sid ∅).
Proof.
  intros Hi Ht Hq Hr Hv. apply (sinv_sessions b cl); [done| |].
  - apply map_Forall_insert_2; [|apply Hi]. constructor; [|by rewrite Hr|done]. rewrite Hq. split; [done|constructor].
  - intros i si k fs. rewrite lookup_insert_Some, client_set.
    intros [[<- <-]|[Hn Hsi]] Hopen _ Hall; [intros w; by rewrite Ht|rewrite decide_False by done; by apply (Hall i si)].
Qed.

Lemma request_invalid_hoare V D cl l sid now s :
  V + 2 < INT_MAX -> sid ∈ D -> 0 <= s_canonicalViewId s < INT_MAX ->
  (forall tc, create l = Ok tc -> Forall request_tile (tc_tiles tc)) ->
  hoare (fun b => inv V D cl b /\ b_sessions b !! sid = Some s) (request_invalid json_viewId false l sid now)
    (fun _ => inv (V + 2) D cl) (inv (V + 2) D cl).
Proof.
  intros HV Hsid Hview Hl. assert (Hw : forall b, inv V D cl b -> inv (V + 2) D cl b) by (intros b; apply inv_weaken; lia).
  unfold request_invalid. destruct l as [|t l]; [apply hoare_ret; intros b [H _]; by apply Hw|].
  eapply hoare_bind with (R := fun s' b => s' = s /\ inv V D cl b).
  { intros b [Hi Hs]. unfold on_session, se_get. rewrite Hs, set_same by done. by split. }
  intros s'. apply hoare_pure. intros ->.
  eapply hoare_bind with (R := fun tc b => create (t :: l) = Ok tc /\ inv V D cl b); [by apply hoare_lift|].
  intros tc. apply hoare_pure. intros Htc. apply handleTileCombinedRequest_hoare; [done|done|].
  unfold tc_setCanonicalViewId. cbn [tc_tiles]. apply Forall_map. eapply Forall_impl; [by apply Hl|].
  intros t' H. by apply request_view.
Qed.

Lemma sstep_requested b cl v message sid now s :
  sinv (b, cl) -> b_sessions b !! sid = Some s -> b_tileVersion b + 2 < INT_MAX ->
  (forall cached l tc, tiles_to_request v s cached (parseInvalidateMsg message) = Ok l -> create l = Ok tc ->
     Forall request_tile (tc_tiles tc)) ->
  sinv ((handleTileInvalidation json_viewId false v message sid now b).1, cl).
Proof.
  intros Hi Hs HV Hl. destruct (in_cache _ _ _ _ Hi) as (c & Hc & _). simpl in Hc.
  set (b1 := b_setCache b (Some (invalidateTiles c message (s_canonicalViewId s)).1)).
  assert (Hi1 : sinv (b1, cl)).
  { eapply sinv_cache; [done|done| |apply invalidate_sub]. intros Hsz. by apply (cstep_size_ok ov c), Hsz; apply step_invalidate. }
  unfold handleTileInvalidation. erewrite se_bind_ok by (unfold on_session, se_get; rewrite Hs, set_same; done).
  unfold broker_invalidateTiles. erewrite se_bind_ok by (erewrite se_bind_ok by (unfold get_cache; by rewrite Hc); done).
  fold b1. destruct (_ || _); [done|]. erewrite se_bind_ok by done. unfold se_bind at 1, se_lift.
  destruct (tiles_to_request _ _ _ _) as [l|e] eqn:El; [|done].
  eapply (sinv_intro (b_tileVersion b + 2) (dom (b_sessions b))).
  pose proof (request_invalid_hoare (b_tileVersion b) (dom (b_sessions b)) cl l sid now s HV) as H.
  specialize (H ltac:(by eapply elem_of_dom_2)). specialize (H (so_view _ (in_sessions _ _ _ _ Hi sid s Hs))).
  specialize (H ltac:(intros tc Htc; by eapply Hl) b1 (conj Hi1 Hs)).
  by destruct (request_invalid json_viewId false l sid now b1) as [b2 [u|e]].
Qed.

Lemma sstep_sinv st st' : sstep st st' -> sinv st -> sinv st'.
Proof.
  intros Hstep Hi. destruct Hstep.
  - eapply (sinv_run (b_tileVersion b + 2)); [by apply sendCombinedTiles_hoare| | |done]; by intros.
  - eapply (sinv_run (b_tileVersion b + 1)); [apply sendTile_hoare; [lia|done|done]| | |done]; by intros.
  - eapply (sinv_run (b_tileVersion b + 1)); [apply tileprocessed_hoare; [lia|done]| | |done]; by intros.
  - destruct (in_cache _ _ _ _ Hi) as (c & Hc & _).
    destruct (save_and_notify_spec _ _ _ b c desc data now Hi Hc) as (b' & -> & Hi' & _); [done..|]. by eapply sinv_intro.
  - eapply sinv_cache; [done|done| |apply invalidate_sub]. intros Hsz. by apply (cstep_size_ok ov c), Hsz; apply step_invalidate.
  - by eapply sstep_requested.
  - eapply sinv_cache; [done|done| |]; [intros _; unfold size_ok; cbn; by rewrite total_empty|].
    split; [done|]. intros k e. cbn. by rewrite lookup_empty.
  - assert (Hsz : size_ok ov c).
    { destruct (in_cache _ _ _ _ Hi) as (c0 & Hc0 & [H1 _ _]). simpl in Hc0. rewrite Hc0 in H. by injection H as ->. }
    eapply sinv_cache; [done|done| |]; [intros _; by apply ensureCacheSize_inv|].
    unfold setMaxCacheSize. match goal with |- sub_cache (ensureCacheSize ov ?c2) _ => exact (ensure_sub c2 Hsz) end.
  - eapply (sinv_run (b_tileVersion b)); [by apply enqueue_other_hoare| | |done]; by intros.
  - unfold dequeue in *. destruct (s_senderQueue s) as [|m' rest'] eqn:Hq; [done|]. injection H0 as -> ->. by apply sstep_deliver.
  - by apply sstep_open.
  - assert (Hok := in_sessions _ _ _ _ Hi sid s H). apply (sinv_sessions b cl); [done| |].
    + apply map_Forall_insert_2; [|apply Hi]. by destruct Hok.
    + intros i si k fs. rewrite lookup_insert_Some. intros [[<- <-]|[Hn Hsi]] Hopen _ Hall; [done|by apply (Hall i si)].
  - apply (sinv_sessions b cl); [done| |].
    + apply map_Forall_delete, Hi.
    + intros i si k fs. rewrite lookup_delete_Some. intros [_ Hsi] Hopen _ Hall. by apply (Hall i si).
Qed.

Lemma system_init_ok : sinv system_init.
Proof.
  constructor.
  - eexists. split; [done|]. constructor; [unfold size_ok; cbn; by rewrite total_empty|done|].
    intros k e. cbn. by rewrite lookup_empty.
  - apply map_Forall_empty.
  - simpl. lia.
  - done.
Qed.

Lemma reachable_sinv st : rtc sstep system_init st -> sinv st.
Proof.
  intros Hr. assert (H : forall s1 s2, rtc sstep s1 s2 -> sinv s1 -> sinv s2).
  { induction 1; [done|]. intros. by eapply IHrtc, sstep_sinv. }
  by apply (H _ _ Hr), system_init_ok.
Qed.
End server.

(** ** Theorems *)

(** C11 (safety): no client is ever left with wrong bytes. In every state that client
    messages, rendered tiles, invalidations, evictions, deliveries and sessions
    coming and going can produce, in any order: a session whose tracked wire id is
    the newest one of a cached tile has, once its queue is drained, exactly the
    bytes of that tile, however key frames, deltas, resets and deduplication mixed. *)
Theorem client_converges json_viewId ov b cl sid s k c e w :
  rtc (sstep json_viewId ov) system_init (b, cl) ->
  b_sessions b !! sid = Some s -> s_closeFrame s = false ->
  b_tileCache b = Some c -> tcc_cache c !! k = Some e ->
  s_tracker s !! k = Some w -> last (_wids (e_tile e)) = Some w ->
  drained (cl sid) s !! k = Some (_deltas (e_tile e)).
Proof.
  intros Hr Hs Hopen Hc He Hw Hl. pose proof (reachable_sinv json_viewId ov _ Hr) as Hi. unfold sinv in Hi. cbn [fst snd] in Hi.
  destruct (inv_frames _ _ _ _ _ _ _ _ _ Hi Hc He) as (fs & F1 & F2 & F3).
  destruct (wids_last _ _ _ F1 Hl) as (f & Hf & Hfw).
  rewrite (st_deltas _ _ (tf_stores _ _ F1)). destruct (F3 sid s Hs Hopen w Hw) as [(f0 & Hf0 & Hlt)|Hd].
  - exfalso. destruct F1 as [_ Hne Ha _]. destruct fs as [|g fs]; [done|]. injection Hf0 as ->.
    apply StronglySorted_inv in Ha as [_ Ha]. destruct fs as [|h fs]; [injection Hf as ->; lia|].
    rewrite last_cons_cons in Hf. apply last_Some_elem_of in Hf. rewrite Forall_forall in Ha. specialize (Ha _ Hf). simpl in Ha. lia.
  - rewrite Hd, <- Hfw. f_equal. by rewrite (filter_upto_last fs f (tf_ascending _ _ F1) Hf).
Qed.

(** C12 (liveness): a rendered tile reaches everybody who waits for it: in a reachable
    state, when the kit's answer for a tile arrives and is stored, no exception is
    thrown and every subscriber that is still connected has, once its queue is
    drained, exactly the tile's bytes. *)
Theorem rendered_tile_reaches_subscribers json_viewId ov b cl c desc data now r t :
  rtc (sstep json_viewId ov) system_init (b, cl) ->
  b_tileCache b = Some c -> fresh b desc -> tile_wire_ok desc -> data <> [] ->
  findTileBeingRendered c desc = Some r -> (saveDataToCache ov c desc data).2 = Some t ->
  exists b', save_and_notify json_viewId false ov desc data now b = (b', Ok tt) /\
    forall sid s, sid ∈ r_subscribers r -> b_sessions b' !! sid = Some s -> s_closeFrame s = false ->
      drained (cl sid) s !! cache_key desc = Some (_deltas t).
Proof.
  intros Hr Hc Hfr Hw Hne Hrend Ht. pose proof (reachable_sinv json_viewId ov _ Hr) as Hi. unfold sinv in Hi. cbn [fst snd] in Hi.
  destruct (save_and_notify_spec json_viewId ov _ _ cl b c desc data now Hi Hc Hfr Hw Hne) as (b' & E & _ & H).
  rewrite Hrend, Ht in H. exists b'. split; [done|]. intros sid s Hsid Hs Hopen. by apply (H sid).
Qed.

(** One session asks for a tile, it is rendered, and rendered again as a delta. *)
Definition new_session : ClientSession :=
  {| s_tracker := ∅; s_tilesOnFly := []; s_requestedTiles := []; s_senderQueue := []; s_closeFrame := false;
     s_clientVisibleArea := rect_empty; s_tileWidthTwips := 0; s_tileHeightTwips := 0; s_canonicalViewId := 1000 |}.

Definition tilecombine_msg : bytes :=
  str "tilecombine nviewid=1000 part=0 width=256 height=256 tileposx=0,3840 tileposy=0,0 tilewidth=3840 tileheight=3840".

Definition demo_tile (wid : Z) : TileDesc :=
  {| _canonicalViewId := 1000; _part := 0; _mode := 0; _width := 256; _height := 256; _tilePosX := 0;
     _tilePosY := 0; _tileWidth := 3840; _tileHeight := 3840; _ver := 1; _imgSize := 4; _id := -1;
     _oldWireId := 0; _wireId := wid |}.

Definition demo_open : DocumentBroker :=
  b_setSessions system_init.1 (<[7 := new_session]> (b_sessions system_init.1)).
Definition demo_requested : DocumentBroker :=
  (sendCombinedTiles no_json false (tokenize tilecombine_msg chr_space) 7 0 demo_open).1.
Definition demo_rendered : DocumentBroker :=
  (save_and_notify no_json false 72 (demo_tile 5) (str "Zabc") 10 demo_requested).1.
Definition demo_clients : Z -> client_tiles := set_client (fun _ => ∅) 7 ∅.

Lemma demo_requested_reachable : rtc (sstep no_json 72) system_init (demo_requested, demo_clients).
Proof.
  eapply rtc_l; [apply (st_open no_json 72 system_init.1 (fun _ => ∅) 7 new_session); [reflexivity|reflexivity|reflexivity|reflexivity|]|].
  { vm_compute. split; [discriminate|reflexivity]. }
  eapply rtc_l; [apply (st_combined no_json 72 demo_open demo_clients (tokenize tilecombine_msg chr_space) 7 0)|apply rtc_refl].
  - by_decide.
  - vm_compute. reflexivity.
  - intros tc Htc. destruct (tc_parse_tokens (tokenize tilecombine_msg chr_space)) as [tc'|] eqn:E; [|discriminate].
    injection Htc as <-. vm_compute in E. injection E as <-. cbn [tc_tiles].
    repeat (apply Forall_cons_2; [split; [constructor; by_decide|reflexivity]|]). apply Forall_nil_2.
Defined.

Definition demo_cache (b : DocumentBroker) : TileCache := default (TileCache_new false) (b_tileCache b).

Lemma demo_fresh : fresh demo_requested (demo_tile 5).
Proof.
  split; [vm_compute; reflexivity|]. split.
  - intros c e Hc He. assert (c = demo_cache demo_requested) as -> by (unfold demo_cache; rewrite Hc; reflexivity).
    vm_compute in He. discriminate He.
  - intros sid s w Hs Hw. assert (Hsid : sid ∈ dom (b_sessions demo_requested)) by (eapply elem_of_dom_2; exact Hs).
    assert (Hd : dom (b_sessions demo_requested) = {[7]}) by by_decide. rewrite Hd, elem_of_singleton in Hsid.
    subst sid. vm_compute in Hs. injection Hs as <-. vm_compute in Hw. discriminate Hw.
Defined.

Lemma demo_wire_ok wid : wid ∈ [5; 6] -> tile_wire_ok (demo_tile wid).
Proof.
  intros H. assert (Hw : wid = 5 \/ wid = 6) by set_solver. destruct Hw; subst wid; constructor; by_decide.
Defined.

Definition demo_tile_data : TileData := TileData_new 5 (str "Zabc").
Definition demo_rendering : TileBeingRendered :=
  default {| r_subscribers := []; r_startTime := 0; r_tile := demo_tile 5 |}
    (findTileBeingRendered (demo_cache demo_requested) (demo_tile 5)).

Lemma rendered_tile_reaches_subscribers_witness :
  r_subscribers demo_rendering = [7] /\
  exists b', save_and_notify no_json false 72 (demo_tile 5) (str "Zabc") 10 demo_requested = (b', Ok tt) /\
    forall sid s, sid ∈ r_subscribers demo_rendering -> b_sessions b' !! sid = Some s -> s_closeFrame s = false ->
      drained (demo_clients sid) s !! cache_key (demo_tile 5) = Some (_deltas demo_tile_data).
Proof.
  split; [vm_compute; reflexivity|].
  apply (rendered_tile_reaches_subscribers no_json 72 demo_requested demo_clients (demo_cache demo_requested)
    (demo_tile 5) (str "Zabc") 10 demo_rendering demo_tile_data demo_requested_reachable).
  - vm_compute. reflexivity.
  - apply demo_fresh.
  - apply demo_wire_ok. left.
  - discriminate.
  - vm_compute. reflexivity.
  - vm_compute. reflexivity.
Defined.

Lemma demo_rendered_reachable : rtc (sstep no_json 72) system_init (demo_rendered, demo_clients).
Proof.
  eapply rtc_r; [apply demo_requested_reachable|].
  apply (st_rendered no_json 72 demo_requested demo_clients (demo_tile 5) (str "Zabc") 10 demo_fresh);
    [apply demo_wire_ok; left|discriminate].
Defined.

Lemma client_converges_witness :
  exists s, b_sessions demo_rendered !! 7 = Some s /\ length (s_senderQueue s) = 1%nat /\
    drained (demo_clients 7) s !! cache_key (demo_tile 5) = Some (str "abc").
Proof.
  eexists. split; [vm_compute; reflexivity|]. split; [vm_compute; reflexivity|].
  refine (client_converges no_json 72 demo_rendered demo_clients 7 _ (cache_key (demo_tile 5)) (demo_cache demo_rendered)
    {| e_desc := demo_tile 5; e_tile := demo_tile_data |} 5 demo_rendered_reachable _ _ _ _ _ _);
    vm_compute; reflexivity.
Defined.

(** Fact (error): the legacy [tile] request asks for the wrong rendering: for a tile that
    is not cached the code calls [forceKeyframe], but the message to the kit was
    written before and still carries the client's old wire id, so the kit may answer
    with a delta while the subscription waits for a key frame. *)
Theorem tile_request_keeps_oldwid json_viewId terminating tokens t force sid s c now b :
  parse_tokens tokens = Ok t -> b_sessions b !! sid = Some s -> b_tileCache b = Some c ->
  let t' := setVersion (setCanonicalViewId t (s_canonicalViewId s)) (i32 (u64 (b_tileVersion b + 1))) in
  lookupTile c t' = None -> findTileBeingRendered c t' = None ->
  let b' := (handleTileRequest json_viewId terminating tokens force sid now b).1 in
  b_childProcess b' = b_childProcess b ++ [str "tile " ++ serialize t' [] []] /\
  _oldWireId t' = _oldWireId t /\
  exists c' r, b_tileCache b' = Some c' /\ findTileBeingRendered c' t' = Some r /\ _oldWireId (r_tile r) = 0.
Proof.
  intros Ht Hs Hc t' Hl Hf b'.
  assert (Hb' : b' = b_toKit (b_setCache
    {| b_tileVersion := u64 (b_tileVersion b + 1); b_tileCache := b_tileCache b;
       b_sessions := if force then <[sid := resetTileSeq s t']> (b_sessions b) else b_sessions b;
       b_childProcess := b_childProcess b |}
    (Some (set_rendered c (<[cache_key t' := {| r_subscribers := [sid]; r_startTime := now; r_tile := forceKeyframe t' |}]>
       (tcc_rendered c))))) (str "tile " ++ serialize t' [] [])).
  { unfold b', handleTileRequest. erewrite se_bind_ok by (unfold se_lift; by rewrite Ht).
    erewrite se_bind_ok by (unfold on_session, se_get; rewrite Hs, set_same; done). cbv zeta.
    erewrite se_bind_ok by done. erewrite se_bind_ok by done. cbn beta. cbn [b_bumpVersion b_tileVersion]. fold t'.
    unfold hasTileCache. cbn [b_tileCache]. rewrite Hc, bool_decide_eq_true_2 by (by eexists). cbn [negb].
    erewrite se_bind_ok with (s' := {| b_tileVersion := u64 (b_tileVersion b + 1); b_tileCache := Some c;
       b_sessions := if force then <[sid := resetTileSeq s t']> (b_sessions b) else b_sessions b;
       b_childProcess := b_childProcess b |}) by
      (unfold b_bumpVersion; rewrite <- Hc; destruct force; [unfold on_session; cbn [b_sessions]; by rewrite Hs|done]).
    erewrite se_bind_ok by done. cbn beta. rewrite Hl. erewrite se_bind_ok; [done|].
    unfold subscribe. erewrite se_bind_ok by done. unfold set_cache_, se_modify, subscribeToTileRendering, findTileBeingRendered in *.
    change (cache_key (forceKeyframe t')) with (cache_key t'). by rewrite Hf. }
  rewrite Hb'. split; [done|]. split; [done|]. cbn. eexists _, _. split; [done|].
  split; [unfold findTileBeingRendered; cbn; by rewrite lookup_insert_eq|done].
Qed.

Definition legacy_request : bytes :=
  str "tile nviewid=0 part=0 width=256 height=256 tileposx=0 tileposy=0 tilewidth=3840 tileheight=3840 oldwid=41 ver=-1".

Definition demo_legacy_tile : TileDesc :=
  {| _canonicalViewId := 0; _part := 0; _mode := 0; _width := 256; _height := 256; _tilePosX := 0;
     _tilePosY := 0; _tileWidth := 3840; _tileHeight := 3840; _ver := -1; _imgSize := 0; _id := -1;
     _oldWireId := 41; _wireId := 0 |}.

Lemma tile_request_keeps_oldwid_witness :
  exists msg, b_childProcess (handleTileRequest no_json false (tokenize legacy_request chr_space) true 7 0 demo_open).1
    = [msg] /\ contains msg (str "oldwid=41") = true.
Proof.
  destruct (tile_request_keeps_oldwid no_json false (tokenize legacy_request chr_space) demo_legacy_tile true 7
    new_session (TileCache_new false) 0 demo_open) as [H _];
    [vm_compute; reflexivity|vm_compute; reflexivity|vm_compute; reflexivity|vm_compute; reflexivity|vm_compute; reflexivity|].
  eexists. split; [exact H|]. vm_compute. reflexivity.
Defined.
