(* ===== verification/TileInvalidationSpec.v ===== *)
(** * Invalidated tiles, specified

    Theorems about [TileInvalidation.v]: every point that a client sees and that the
    kit reports as changed lies in a tile that the kit is asked for again, and whose
    rendering the client's session waits for. *)

From S2P Require Import Prelude StateError Util StringVector Protocol Rectangle TileDesc TileCombined TileData TileCache TileCacheSpec Message SenderQueueSpec ClientSession TileServer TileServerSpec TileInvalidation.

Open Scope cool_scope.

(** ** The view *)

(** What the client said of its view, in the range of what it shows. *)
Record view_ok (v : PaneView) (s : ClientSession) : Prop := {
  vk_surface : rect_hasSurface (s_clientVisibleArea s) = true;
  vk_pixel : 0 < pv_tileWidthPixel v /\ 0 < pv_tileHeightPixel v;
  vk_twips : 0 < s_tileWidthTwips s /\ 0 < s_tileHeightTwips s;
  vk_split : 0 <= pv_splitX v /\ 0 <= pv_splitY v;
  vk_right : 0 <= _x2 (s_clientVisibleArea s) /\ 0 <= _y2 (s_clientVisibleArea s);
  vk_x : Z.max (_x2 (s_clientVisibleArea s)) (Z.max (_x1 (s_clientVisibleArea s)) 0 + pv_splitX v)
         + 2 * s_tileWidthTwips s <= INT_MAX;
  vk_y : Z.max (_y2 (s_clientVisibleArea s)) (Z.max (_y1 (s_clientVisibleArea s)) 0 + pv_splitY v)
         + 2 * s_tileHeightTwips s <= INT_MAX }.

(** Where an area may lie so that all its tiles are within [int]s. *)
Definition area_ok (s : ClientSession) (r : Rectangle) : Prop :=
  0 <= _x1 r /\ 0 <= _y1 r /\ _x2 r + 2 * s_tileWidthTwips s <= INT_MAX /\ _y2 r + 2 * s_tileHeightTwips s <= INT_MAX.

Lemma extent lo x1 x2 splitX :
  lo = Z.max x1 0 -> x1 < x2 -> 0 <= x2 -> 0 <= splitX -> Z.max x2 (lo + splitX) <= INT_MAX ->
  i32 (lo + splitX) = lo + splitX /\
  i32 ((if INT_MIN <? x2 - lo then i32 (x2 - lo) else INT_MIN) - splitX) = x2 - lo - splitX /\
  (if lo + splitX + (x2 - lo - splitX) <=? INT_MAX then i32 (lo + splitX + (x2 - lo - splitX)) else lo + splitX) = x2.
Proof.
  intros -> H1 H2 H3 H4. int_unfold. rewrite (proj2 (Z.ltb_lt _ _)) by lia. rewrite (proj2 (Z.leb_le _ _)) by lia.
  rewrite (i32_id (x2 - Z.max x1 0)) by (int_unfold; lia). split_and!; rewrite i32_id by (int_unfold; lia); lia.
Qed.

Lemma pane_ok v s p :
  view_ok v s -> isSplitPane v p = true -> area_ok s (getNormalizedVisiblePaneArea v s p).
Proof.
  intros [Hsf _ [Hw Hh] [Hsx Hsy] [Hx2 Hy2] Hx Hy] Hp. unfold rect_hasSurface in Hsf. bool_hyps.
  unfold getNormalizedVisiblePaneArea, area_ok.
  set (a := s_clientVisibleArea s) in *. unfold getNormalizedVisibleArea. fold a.
  unfold rect_getWidth, rect_getHeight, getLeft, getTop, getRight, getBottom. cbn [_x1 _x2 _y1 _y2].
  destruct (extent _ (_x1 a) (_x2 a) (pv_splitX v) eq_refl) as (E1 & E2 & E3); [lia..|].
  destruct (extent _ (_y1 a) (_y2 a) (pv_splitY v) eq_refl) as (E4 & E5 & E6); [lia..|].
  rewrite E1, E2, E4, E5. revert Hp. unfold isSplitPane.
  destruct (Z.eqb_spec (pv_splitX v) 0), (Z.eqb_spec (pv_splitY v) 0), p; try done; intros _;
    cbn [andb negb rect_make _x1 _x2 _y1 _y2]; rewrite ?E3, ?E6, ?Z.add_0_l, ?i32_id by (int_unfold; lia);
    int_unfold; zcases; lia.
Qed.

(** ** The tiles of an area *)

(** The cells of the grid whose tiles have [int] coordinates. *)
Definition cell_ok (s : ClientSession) (cell : Z * Z) : Prop :=
  0 <= cell.1 /\ 0 <= cell.2 /\
  cell.1 * s_tileHeightTwips s + s_tileHeightTwips s <= INT_MAX /\
  cell.2 * s_tileWidthTwips s + s_tileWidthTwips s <= INT_MAX.

Lemma elem_of_steps start end_ tileTwips i :
  i ∈ tile_steps start end_ tileTwips <-> Z.quot start tileTwips <= i <= ceil_div end_ tileTwips.
Proof. unfold tile_steps. rewrite elem_of_seqZ. lia. Qed.

Lemma step_bounds start end_ tileTwips i :
  0 < tileTwips -> 0 <= start -> end_ + 2 * tileTwips <= INT_MAX -> i ∈ tile_steps start end_ tileTwips ->
  0 <= i /\ i * tileTwips + tileTwips <= INT_MAX.
Proof.
  intros Ht Hs He. rewrite elem_of_steps. unfold ceil_div. intros [H1 H2].
  split; [pose proof (Z.quot_pos start tileTwips); lia|].
  pose proof (Z.mul_div_le (- end_) tileTwips Ht). pose proof (Z.mod_pos_bound (- end_) tileTwips Ht).
  pose proof (Z.div_mod (- end_) tileTwips). nia.
Qed.

Lemma step_of_point start end_ tileTwips x :
  0 < tileTwips -> 0 <= x -> start <= x <= end_ -> x / tileTwips ∈ tile_steps start end_ tileTwips.
Proof.
  intros Ht Hx [H1 H2]. rewrite elem_of_steps. unfold ceil_div. split.
  - destruct (Z.le_gt_cases 0 start).
    + rewrite Z.quot_div_nonneg by lia. by apply Z.div_le_mono.
    + pose proof (Z.div_pos x tileTwips). pose proof (Z.quot_opp_l start tileTwips).
      pose proof (Z.quot_pos (- start) tileTwips). lia.
  - pose proof (Z.mul_div_le x tileTwips Ht). pose proof (Z.mul_div_le (- end_) tileTwips Ht). nia.
Qed.

Lemma elem_of_cells s area i j :
  (i, j) ∈ visible_cells s area <->
  i ∈ tile_steps (getTop area) (getBottom area) (s_tileHeightTwips s) /\
  j ∈ tile_steps (getLeft area) (getRight area) (s_tileWidthTwips s).
Proof.
  unfold visible_cells. rewrite list_elem_of_bind. split.
  - intros (i' & (j' & Hij & Hj)%list_elem_of_bind & Hi). apply list_elem_of_singleton in Hij. by injection Hij as -> ->.
  - intros [Hi Hj]. exists i. split; [|done]. apply list_elem_of_bind. exists j. split; [by apply list_elem_of_singleton|done].
Qed.

Lemma cells_ok v s area :
  view_ok v s -> area_ok s area -> Forall (cell_ok s) (visible_cells s area).
Proof.
  intros Hv (H1 & H2 & H3 & H4). destruct (vk_twips _ _ Hv) as [Hw Hh]. rewrite Forall_forall. intros [i j].
  rewrite elem_of_cells. intros [Hi Hj]. apply step_bounds in Hi, Hj; [|done..]. unfold cell_ok. cbn. lia.
Qed.

(** The cell of a point. *)
Definition cell_of (s : ClientSession) (x y : Z) : Z * Z := (y / s_tileHeightTwips s, x / s_tileWidthTwips s).

Lemma cell_of_point v s area x y :
  view_ok v s -> 0 <= x -> 0 <= y -> in_rect area x y -> cell_of s x y ∈ visible_cells s area.
Proof.
  intros Hv Hx Hy [H1 H2]. destruct (vk_twips _ _ Hv). unfold cell_of. rewrite elem_of_cells.
  split; by apply step_of_point.
Qed.

Lemma cell_coordinates s cell :
  0 < s_tileWidthTwips s -> 0 < s_tileHeightTwips s -> cell_ok s cell ->
  cell_x s cell.2 = cell.2 * s_tileWidthTwips s /\ cell_y s cell.1 = cell.1 * s_tileHeightTwips s.
Proof. intros Hw Hh (H1 & H2 & H3 & H4). unfold cell_x, cell_y. split; apply i32_id; int_unfold; nia. Qed.

Definition cell_rect (s : ClientSession) (cell : Z * Z) : Rectangle :=
  rect_make (cell_x s cell.2) (cell_y s cell.1) (s_tileWidthTwips s) (s_tileHeightTwips s).

Lemma cell_rect_eq s cell :
  0 < s_tileWidthTwips s -> 0 < s_tileHeightTwips s -> cell_ok s cell ->
  cell_rect s cell = {| _x1 := cell.2 * s_tileWidthTwips s; _y1 := cell.1 * s_tileHeightTwips s;
                        _x2 := cell.2 * s_tileWidthTwips s + s_tileWidthTwips s;
                        _y2 := cell.1 * s_tileHeightTwips s + s_tileHeightTwips s |}.
Proof.
  intros Hw Hh Hc. destruct (cell_coordinates s cell Hw Hh Hc) as [Ex Ey]. unfold cell_rect, rect_make. rewrite Ex, Ey.
  destruct Hc as (H1 & H2 & H3 & H4). rewrite !(proj2 (Z.leb_le _ _)) by lia. rewrite !i32_id by (int_unfold; nia). done.
Qed.

Lemma point_in_cell s x y :
  0 < s_tileWidthTwips s -> 0 < s_tileHeightTwips s -> cell_ok s (cell_of s x y) -> in_rect (cell_rect s (cell_of s x y)) x y.
Proof.
  intros Hw Hh Hc. rewrite cell_rect_eq by done. unfold cell_of, in_rect. cbn.
  pose proof (Z.div_mod x (s_tileWidthTwips s)). pose proof (Z.mod_pos_bound x (s_tileWidthTwips s) Hw).
  pose proof (Z.div_mod y (s_tileHeightTwips s)). pose proof (Z.mod_pos_bound y (s_tileHeightTwips s) Hh). lia.
Qed.

(** ** The tiles asked for *)

Section tiles.
Context (v : PaneView) (s : ClientSession) (part mode : Z) (rect : Rectangle) (cached : TileDesc -> bool).

(** The descriptor of a cell. *)
Definition cell_tile (cell : Z * Z) : TileDesc :=
  {| _canonicalViewId := s_canonicalViewId s; _part := part; _mode := mode; _width := pv_tileWidthPixel v;
     _height := pv_tileHeightPixel v; _tilePosX := cell_x s cell.2; _tilePosY := cell_y s cell.1;
     _tileWidth := s_tileWidthTwips s; _tileHeight := s_tileHeightTwips s; _ver := -1; _imgSize := 0; _id := -1;
     _oldWireId := 0; _wireId := 0 |}.

(** A tile for a cell that the area touches; it asks for a delta when the cache has one. *)
Definition tile_for (cell : Z * Z) (t : TileDesc) : Prop :=
  rect_intersects rect (cell_rect s cell) = true /\ t = setOldWireId (cell_tile cell) (if cached (cell_tile cell) then 1 else 0).

Hypothesis (Hpart : 0 <= part) (Hmode : 0 <= mode) (Hview : 0 <= s_canonicalViewId s)
  (Hpixel : 0 < pv_tileWidthPixel v /\ 0 < pv_tileHeightPixel v)
  (Hw : 0 < s_tileWidthTwips s) (Hh : 0 < s_tileHeightTwips s).

Lemma cell_tile_new cell :
  cell_ok s cell ->
  TileDesc_new (s_canonicalViewId s) part mode (pv_tileWidthPixel v) (pv_tileHeightPixel v) (cell_x s cell.2)
    (cell_y s cell.1) (s_tileWidthTwips s) (s_tileHeightTwips s) (-1) 0 (-1) = Ok (cell_tile cell).
Proof.
  intros Hc. destruct (cell_coordinates s cell Hw Hh Hc) as [Ex Ey]. destruct Hc as (H1 & H2 & H3 & H4).
  unfold TileDesc_new. replace (tile_args_invalid _ _ _ _ _ _ _ _ _ _) with false; [done|].
  symmetry. unfold tile_args_invalid, CanonicalViewId_Invalid. rewrite Ex, Ey, !orb_false_iff, !Z.leb_gt, !Z.ltb_ge. nia.
Qed.

Lemma tile_eq_oldwid a b o : tile_eq a (setOldWireId b o) = tile_eq a b.
Proof. done. Qed.
Lemma tile_eq_oldwid_l a b o : tile_eq (setOldWireId a o) b = tile_eq a b.
Proof. done. Qed.

(** Every touched cell is covered, and nothing else is asked for. *)
Lemma invalid_tiles_spec cells acc :
  Forall (cell_ok s) cells ->
  exists l, invalid_tiles v s cached part mode rect cells acc = Ok (acc ++ l) /\
    Forall (fun t => exists cell, cell ∈ cells /\ tile_for cell t) l /\
    forall cell, cell ∈ cells -> rect_intersects rect (cell_rect s cell) = true ->
      exists t, t ∈ acc ++ l /\ tile_eq t (cell_tile cell) = true.
Proof.
  revert acc. induction cells as [|cell cells IH]; intros acc Hok.
  { exists []. rewrite app_nil_r. split_and!; [done|constructor|]. by intros cell ?%elem_of_nil. }
  apply Forall_cons in Hok as [Hc Hok]. destruct cell as [i j]. cbn [invalid_tiles invalid_tile].
  change (rect_make (cell_x s j) (cell_y s i) _ _) with (cell_rect s (i, j)).
  destruct (rect_intersects rect (cell_rect s (i, j))) eqn:Hi; cbn [negb].
  - pose proof (cell_tile_new (i, j) Hc) as En. cbn [fst snd] in En. rewrite En. cbn [rbind].
    destruct (existsb _ acc) eqn:Hd; cbn [rbind].
    + destruct (IH acc Hok) as (l & -> & H1 & H2). exists l. split; [done|]. split.
      { eapply Forall_impl; [exact H1|]. intros t (cell & ? & ?). exists cell. split; [by right|done]. }
      intros cell [->|Hin]%elem_of_cons Hr; [|by apply H2].
      apply existsb_exists in Hd as (t & Ht & He). exists t. split; [|done].
      apply elem_of_app. left. by apply list_elem_of_In.
    + set (t0 := setWireId _ 0). destruct (IH (acc ++ [t0]) Hok) as (l & -> & H1 & H2).
      exists (t0 :: l). rewrite <- app_assoc. split; [done|]. split.
      { constructor; [exists (i, j); split; [left|by split]|].
        eapply Forall_impl; [exact H1|]. intros t (cell & ? & ?). exists cell. split; [by right|done]. }
      rewrite <- app_assoc in H2. intros cell [->|Hin]%elem_of_cons Hr; [|by apply H2].
      exists t0. split; [apply elem_of_app; right; left|]. unfold t0. by apply tile_eq_key.
  - cbn [rbind]. destruct (IH acc Hok) as (l & -> & H1 & H2). exists l. split; [done|]. split.
    { eapply Forall_impl; [exact H1|]. intros t (cell & ? & ?). exists cell. split; [by right|done]. }
    intros cell [->|Hin]%elem_of_cons Hr; [by rewrite Hi in Hr|by apply H2].
Qed.

(** What the server needs of a requested tile. *)
Lemma tile_for_queue cell t : cell_ok s cell -> tile_for cell t -> queue_tile t.
Proof.
  intros Hc [_ ->]. destruct (cell_coordinates s cell Hw Hh Hc) as [Ex Ey]. destruct Hc as (H1 & H2 & H3 & H4).
  constructor; cbn; rewrite ?Ex, ?Ey; try (int_unfold; nia); [|destruct (cached _); by_decide].
  unfold tile_valid, tile_args_invalid, CanonicalViewId_Invalid. cbn. rewrite Ex, Ey, !orb_false_iff, !Z.leb_gt, !Z.ltb_ge. nia.
Qed.

Lemma tile_for_same c1 t1 c2 t2 : tile_for c1 t1 -> tile_for c2 t2 -> sameTileCombineParams t1 t2 = true.
Proof.
  intros [_ ->] [_ ->]. unfold sameTileCombineParams, same_size_params. cbn. by rewrite !Z.eqb_refl.
Qed.
End tiles.

(** ** What the handlers keep *)

(** The session waits for the rendering of the tile with the given key. *)
Definition waits (b : DocumentBroker) (sid : Z) (k : list Z) : Prop :=
  exists c r, b_tileCache b = Some c /\ tcc_rendered c !! k = Some r /\ sid ∈ r_subscribers r.

(** No subscription is lost, and nothing sent to the kit is taken back. *)
Record grows (b b' : DocumentBroker) : Prop := {
  gr_kit : exists l, b_childProcess b' = b_childProcess b ++ l;
  gr_waits sid k : waits b sid k -> waits b' sid k }.

#[global] Instance grows_preorder : PreOrder grows.
Proof.
  split.
  - intros b. split; [exists []; by rewrite app_nil_r|done].
  - intros b1 b2 b3 [[l1 E1] H1] [[l2 E2] H2]. split; [exists (l1 ++ l2); by rewrite E2, E1, app_assoc|auto].
Qed.

Definition grows_by {A} (m : SE DocumentBroker A) : Prop := forall b, grows b (m b).1.

Lemma grows_same b b' : b_childProcess b' = b_childProcess b -> b_tileCache b' = b_tileCache b -> grows b b'.
Proof. intros E1 E2. split; [exists []; by rewrite app_nil_r|]. intros sid k (c & r & H). exists c, r. by rewrite E2. Qed.

Lemma grows_bind {A B} (m : SE DocumentBroker A) (f : A -> SE DocumentBroker B) :
  grows_by m -> (forall a, grows_by (f a)) -> grows_by (se_bind m f).
Proof.
  intros Hm Hf b. unfold se_bind. specialize (Hm b). destruct (m b) as [b' [a|e]]; [|done].
  etrans; [exact Hm|apply Hf].
Qed.
Lemma grows_ret {A} (a : A) : grows_by (se_ret a).
Proof. intros b. simpl. reflexivity. Qed.
Lemma grows_get : grows_by se_get.
Proof. intros b. simpl. reflexivity. Qed.
Lemma grows_lift {A} (r : result A) : grows_by (se_lift r).
Proof. intros b. simpl. reflexivity. Qed.
Lemma grows_iter {A} (f : A -> SE DocumentBroker unit) l : (forall a, grows_by (f a)) -> grows_by (se_iter f l).
Proof. intros Hf. induction l as [|a l IH]; simpl; [apply grows_ret|]. by apply grows_bind. Qed.
Lemma grows_on_session {A} sid (m : SE ClientSession A) : grows_by (on_session sid m).
Proof.
  intros b. unfold on_session. destruct (b_sessions b !! sid) as [s|]; [|simpl; reflexivity].
  destruct (m s) as [s' r]. by apply grows_same.
Qed.
Lemma grows_get_cache : grows_by get_cache.
Proof. intros b. unfold get_cache. destruct (b_tileCache b); simpl; reflexivity. Qed.
Lemma grows_bump : grows_by (se_modify b_bumpVersion).
Proof. intros b. by apply grows_same. Qed.
Lemma grows_send tc : grows_by (sendTileCombine tc).
Proof. intros b. split; [by eexists|]. intros sid k H. exact H. Qed.

(** A subscription is added to the others. *)
Lemma subscribe_waits c tile sid now :
  let c' := (subscribeToTileRendering c tile sid now).1 in
  (exists r, tcc_rendered c' !! cache_key tile = Some r /\ sid ∈ r_subscribers r) /\
  (forall k r, tcc_rendered c !! k = Some r ->
     exists r', tcc_rendered c' !! k = Some r' /\ r_subscribers r ⊆ r_subscribers r').
Proof.
  unfold subscribeToTileRendering, findTileBeingRendered. destruct (tcc_rendered c !! cache_key tile) as [r|] eqn:Hr.
  - destruct (existsb _ _) eqn:Hex; cbn [set_rendered tcc_rendered fst].
    + apply existsb_exists in Hex as (x & Hx & ->%Z.eqb_eq). apply list_elem_of_In in Hx. split.
      * rewrite lookup_insert_eq. by eexists.
      * intros k r' Hk. destruct (decide (cache_key tile = k)) as [<-|Hn].
        -- rewrite lookup_insert_eq. rewrite Hr in Hk. injection Hk as <-. by eexists.
        -- rewrite lookup_insert_ne by done. by eexists.
    + split.
      * rewrite lookup_insert_eq. eexists. split; [done|]. cbn. set_solver.
      * intros k r' Hk. destruct (decide (cache_key tile = k)) as [<-|Hn].
        -- rewrite lookup_insert_eq. rewrite Hr in Hk. injection Hk as <-. eexists. split; [done|]. cbn. set_solver.
        -- rewrite lookup_insert_ne by done. by eexists.
  - cbn [set_rendered tcc_rendered fst]. split.
    + rewrite lookup_insert_eq. eexists. split; [done|]. cbn. set_solver.
    + intros k r' Hk. rewrite lookup_insert_ne by congruence. by eexists.
Qed.

Lemma grows_subscribe tile sid now : grows_by (subscribe tile sid now).
Proof.
  intros b. unfold subscribe, se_bind, get_cache. destruct (b_tileCache b) as [c|] eqn:Hc; [|simpl; reflexivity].
  destruct (subscribe_waits c tile sid now) as [_ H]. split; [exists []; by rewrite app_nil_r|].
  intros i k (c0 & r & E & Hk & Hi). rewrite Hc in E. injection E as <-. destruct (H k r Hk) as (r' & Hr' & Hsub).
  exists (subscribeToTileRendering c tile sid now).1, r'. split; [done|]. split; [done|]. by apply Hsub.
Qed.

Create HintDb grows_db.
#[local] Hint Resolve grows_bind grows_ret grows_get grows_lift grows_iter grows_on_session grows_get_cache grows_bump
  grows_send grows_subscribe : grows_db.

Ltac grows_steps :=
  repeat (first [apply grows_bind; [|intros ?]|progress (cbv beta zeta)|case_match]; eauto with grows_db).

Section server.
Context (json_viewId : bytes -> result bytes) (terminating : bool).

Lemma grows_requestTileRendering tile force version now needs sid :
  grows_by (requestTileRendering tile force version now needs sid).
Proof. unfold requestTileRendering. grows_steps. Qed.
#[local] Hint Resolve grows_requestTileRendering : grows_db.
Lemma grows_render_requested tile force bumped now needs sid :
  grows_by (render_requested tile force bumped now needs sid).
Proof. unfold render_requested. grows_steps. Qed.
Lemma grows_answer sid now tile t : grows_by (answer json_viewId terminating sid now tile t).
Proof. unfold answer, with_wid, last_wid, sendTile_to. grows_steps. Qed.
#[local] Hint Resolve grows_render_requested grows_answer : grows_db.
Lemma grows_send_requested requested sid limit now bumped needs same :
  grows_by (send_requested json_viewId terminating requested sid limit now bumped needs same).
Proof.
  revert bumped needs same. induction requested as [|tile rest IH]; intros bumped needs same;
    cbn [send_requested]; [apply grows_ret|grows_steps; apply IH].
Qed.
Lemma grows_send_combined tiles : grows_by (send_combined tiles).
Proof. unfold send_combined. grows_steps. Qed.
#[local] Hint Resolve grows_send_requested grows_send_combined : grows_db.
Lemma grows_sendRequestedTiles sid now : grows_by (sendRequestedTiles json_viewId terminating sid now).
Proof. unfold sendRequestedTiles. grows_steps. Qed.

(** ** Asking the kit *)

(** A tile the cache cannot serve. *)
Definition unserved (c : TileCache) (t : TileDesc) : Prop :=
  match lookupTile c t with Some d => isValid d = false | None => True end.

(** Every rendering is older than the version, or of a tile that is asked for. *)
Definition known (c : TileCache) (version : Z) (needs : list TileDesc) : Prop :=
  forall k r, tcc_rendered c !! k = Some r -> r_version r < version \/ exists t, t ∈ needs /\ cache_key t = k.

(** The tile as the kit is asked for it: maybe as a key frame. *)
Definition renders (version : Z) (t t' : TileDesc) : Prop :=
  exists o, (o = _oldWireId t \/ o = 0) /\ t' = setOldWireId (setVersion t version) o.

Definition asked (sid version : Z) (tiles : list TileDesc) (c c' : TileCache) (needs needs' : list TileDesc) : Prop :=
  (exists rendered, c' = set_rendered c rendered) /\ known c' version needs' /\
  (exists l, needs' = needs ++ l /\ Forall (fun t' => exists t, t ∈ tiles /\ renders version t t') l) /\
  (forall k r, tcc_rendered c !! k = Some r ->
     exists r', tcc_rendered c' !! k = Some r' /\ r_subscribers r ⊆ r_subscribers r') /\
  Forall (fun t => (exists t', t' ∈ needs' /\ cache_key t' = cache_key t) /\
     exists r, tcc_rendered c' !! cache_key t = Some r /\ sid ∈ r_subscribers r) tiles.

Lemma asked_nil sid version c needs : known c version needs -> asked sid version [] c c needs needs.
Proof.
  intros Hk. split_and!; [exists (tcc_rendered c); by destruct c|done| |intros k r Hr; by exists r|constructor].
  exists []. rewrite app_nil_r. split; [done|constructor].
Qed.

Lemma asked_cons sid version t tiles c c1 c2 needs needs1 needs2 :
  asked sid version [t] c c1 needs needs1 -> asked sid version tiles c1 c2 needs1 needs2 ->
  asked sid version (t :: tiles) c c2 needs needs2.
Proof.
  intros ([r1 ->] & K1 & (l1 & -> & F1) & S1 & W1) ([r2 ->] & K2 & (l2 & -> & F2) & S2 & W2). split_and!.
  - by exists r2.
  - done.
  - exists (l1 ++ l2). rewrite app_assoc. split; [done|]. apply Forall_app_2; (eapply Forall_impl; [eassumption|]).
    + intros t' (t0 & ->%list_elem_of_singleton & Hr). exists t. split; [left|done].
    + intros t' (t0 & Hin & Hr). exists t0. split; [by right|done].
  - intros k r Hr. destruct (S1 k r Hr) as (r' & Hr' & Hs). destruct (S2 k r' Hr') as (r'' & Hr'' & Hs'). exists r''.
    split; [done|]. by etrans.
  - apply Forall_singleton in W1 as ((t' & Hin & Hk) & r & Hr & Hs). constructor; [|done]. split.
    + exists t'. split; [|done]. apply elem_of_app. by left.
    + destruct (S2 _ r Hr) as (r'' & Hr'' & Hs'). exists r''. split; [done|]. by apply Hs'.
Qed.

Lemma requestTileRendering_spec t0 tile force version now needs sid b c :
  b_tileCache b = Some c -> known c version needs -> renders version t0 tile ->
  exists c' tile' needs' same,
    requestTileRendering tile force version now needs sid b = (b_setCache b (Some c'), Ok (tile', needs', same)) /\
    asked sid version [t0] c c' needs needs'.
Proof.
  intros Hc Hk (o & Ho & Htile). assert (Hver : _ver tile = version) by by subst tile.
  assert (Hkey : cache_key tile = cache_key t0) by by subst tile.
  set (tile1 := if force then forceKeyframe (setVersion tile version) else setVersion tile version).
  assert (Hr1 : renders version t0 tile1).
  { subst tile tile1. destruct force; [by exists 0; split; [right|]|]. by exists o. }
  assert (Hkey1 : cache_key tile1 = cache_key t0) by by destruct Hr1 as (o1 & _ & ->).
  unfold requestTileRendering. erewrite se_bind_ok by (unfold get_cache; by rewrite Hc).
  destruct (negb (hasTileBeingRendered c tile (Some now)) || (getTileBeingRenderedVersion c tile <? _ver tile)) eqn:Hneed;
    cbv beta iota zeta; fold tile1; (erewrite se_bind_ok; [|unfold subscribe; erewrite se_bind_ok by (unfold get_cache; by rewrite Hc); done]);
    eexists _, _, _, _; (split; [reflexivity|]).
  - pose proof (subscribe_waits c tile1 sid now) as [Hw Hs]. destruct (subscribe_rendered c tile1 sid now) as [m Em].
    split_and!; [by exists m| | |done|].
    + intros k r Hr. destruct (decide (k = cache_key tile1)) as [->|Hn].
      { right. exists tile1. split; [apply elem_of_app; right; left|done]. }
      revert Hr. unfold subscribeToTileRendering, findTileBeingRendered.
      destruct (tcc_rendered c !! cache_key tile1); [destruct (existsb _ _)|]; cbn [fst set_rendered tcc_rendered];
        rewrite lookup_insert_ne by done; intros Hr; (destruct (Hk k r Hr) as [?|(tk & ? & ?)]; [by left|right; exists tk]);
        (split; [apply elem_of_app; by left|done]).
    + exists [tile1]. split; [done|]. constructor; [|constructor]. exists t0. split; [left|done].
    + constructor; [|constructor]. rewrite <- Hkey1. split; [|done]. exists tile1. split; [apply elem_of_app; right; left|done].
  - pose proof (subscribe_waits c tile sid now) as [Hw Hs]. destruct (subscribe_rendered c tile sid now) as [m Em].
    bool_hyps. destruct Hneed as [Hhas Hlt]. unfold hasTileBeingRendered, getTileBeingRenderedVersion, findTileBeingRendered in *.
    destruct (tcc_rendered c !! cache_key tile) as [r0|] eqn:Hr0; [|done].
    destruct (Hk _ r0 Hr0) as [Hl|(t' & Hin & Ht')]; [rewrite Hver in Hlt; bool_hyps; lia|].
    split_and!; [by exists m| | |done|].
    + intros k r Hr. destruct (decide (k = cache_key tile)) as [->|Hn]; [right; by exists t'|].
      revert Hr. unfold subscribeToTileRendering, findTileBeingRendered. rewrite Hr0.
      destruct (existsb _ _); cbn [fst set_rendered tcc_rendered]; rewrite lookup_insert_ne by done; apply Hk.
    + exists []. rewrite app_nil_r. split; [done|constructor].
    + constructor; [|constructor]. rewrite <- Hkey. split; [|done]. by exists t'.
Qed.

Lemma combined_tiles_spec tiles sid version now needs b c :
  b_tileCache b = Some c -> known c version needs -> Forall (unserved c) tiles ->
  exists c' tiles' needs' forced,
    combined_tiles tiles false sid version now needs b = (b_setCache b (Some c'), Ok (tiles', needs', forced)) /\
    asked sid version tiles c c' needs needs'.
Proof.
  revert needs b c. induction tiles as [|tile tiles IH]; intros needs b c Hc Hk Hu; cbn [combined_tiles].
  { eexists c, _, _, _. split; [|by apply asked_nil]. unfold se_ret. f_equal. destruct b. simpl in *. by rewrite Hc. }
  apply Forall_cons in Hu as [Hu Hus]. cbn [andb]. erewrite se_bind_ok by done.
  erewrite se_bind_ok by (unfold get_cache; by rewrite Hc).
  change (lookupTile c (setVersion tile version)) with (lookupTile c tile). unfold unserved in Hu.
  assert (Hv : match lookupTile c tile with Some t => isValid t | None => false end = false) by by destruct (lookupTile c tile).
  rewrite Hv. cbn [negb orb]. set (force := _ || _).
  destruct (requestTileRendering_spec tile (if force then forceKeyframe (setVersion tile version) else setVersion tile version)
              force version now needs sid b c Hc Hk) as (c1 & tile' & needs1 & same & E & H1).
  { destruct force; [by exists 0; split; [right|]|]. exists (_oldWireId tile). split; [by left|]. by destruct tile. }
  rewrite (se_bind_ok _ _ _ _ _ E). cbn [fst snd].
  pose proof H1 as ([r1 Er] & K1 & _).
  destruct (IH needs1 (b_setCache b (Some c1)) c1) as (c2 & tiles' & needs2 & forced & E2 & H2); [done|done| |].
  { eapply Forall_impl; [exact Hus|]. intros t Ht. by rewrite Er. }
  rewrite (se_bind_ok _ _ _ _ _ E2). eexists c2, _, _, _. split; [done|]. by eapply asked_cons.
Qed.

(** The tiles put together in one message. *)
Lemma send_combined_spec tiles b :
  tiles <> [] -> Forall queue_tile tiles -> (forall t1 t2, t1 ∈ tiles -> t2 ∈ tiles -> sameTileCombineParams t1 t2 = true) ->
  exists tc, send_combined tiles b = (b_toKit b (tc_serialize tc (str "tilecombine") []), Ok tt) /\
    tc_tiles tc = map drop_img_id tiles.
Proof.
  intros Hne Hq Hs. destruct tiles as [|p ts]; [done|].
  destruct (create_keeps_tiles p ts) as (tc & E & Ht & _); [done| |].
  { rewrite Forall_forall. intros t Hin. apply Hs; [left|by right]. }
  exists tc. split; [|done]. unfold send_combined. by erewrite se_bind_ok by (unfold se_lift; by rewrite E).
Qed.

(** The kit is asked for the tile in one of the messages after the first [n]. *)
Definition kit_asked (n : nat) (b : DocumentBroker) (t : TileDesc) : Prop :=
  exists tc t', tc_serialize tc (str "tilecombine") [] ∈ drop n (b_childProcess b) /\
    t' ∈ tc_tiles tc /\ cache_key t' = cache_key t.

Lemma kit_asked_grows n b b' t : grows b b' -> kit_asked n b t -> kit_asked n b' t.
Proof.
  intros [[l E] _] (tc & t' & Hin & H). exists tc, t'. split; [|done]. rewrite E, drop_app.
  apply elem_of_app. by left.
Qed.

Lemma renders_queue version t t' : is_i32 version -> queue_tile t -> renders version t t' -> queue_tile t'.
Proof. intros Hv [] (o & Ho & ->). constructor; try done. destruct Ho as [->| ->]; [done|]. int_unfold. cbn. lia. Qed.

Lemma handleTileCombinedRequest_asks tc sid now b c :
  let version := i32 (u64 (b_tileVersion b + 1)) in
  b_tileCache b = Some c -> known c version [] -> Forall (unserved c) (tc_tiles tc) -> Forall queue_tile (tc_tiles tc) ->
  (forall t1 t2, t1 ∈ tc_tiles tc -> t2 ∈ tc_tiles tc -> sameTileCombineParams t1 t2 = true) ->
  let b' := (handleTileCombinedRequest json_viewId terminating tc false sid now b).1 in
  grows b b' /\
  Forall (fun t => kit_asked (length (b_childProcess b)) b' t /\ waits b' sid (cache_key t)) (tc_tiles tc).
Proof.
  intros version Hc Hk Hu Hq Hs b'. set (b1 := b_bumpVersion b). assert (G1 : grows b b1) by by apply grows_same.
  destruct (combined_tiles_spec (tc_tiles tc) sid version now [] b1 c Hc Hk Hu) as (c' & tiles' & needs & forced & E & Ha).
  set (b2 := b_setCache b1 (Some c')).
  set (rest := exec (if bool_decide (needs = []) then se_ret tt else send_combined needs);
               exec on_session sid (se_modify (fun s =>
                 s_setRequested s (accumulate (s_requestedTiles s) tiles' (s_canonicalViewId s))));
               sendRequestedTiles json_viewId terminating sid now).
  assert (Hb' : b' = (rest b2).1).
  { unfold b', handleTileCombinedRequest. erewrite se_bind_ok by done. unfold hasTileCache at 1.
    rewrite Hc, bool_decide_eq_true_2 by (by eexists). cbn [negb]. erewrite se_bind_ok by done. erewrite se_bind_ok by done.
    fold b1. by rewrite (se_bind_ok _ _ _ _ _ E). }
  assert (Hrest : grows_by rest).
  { subst rest. apply grows_bind; [case_bool_decide; [apply grows_ret|apply grows_send_combined]|]. intros ?.
    apply grows_bind; [apply grows_on_session|]. intros ?. apply grows_sendRequestedTiles. }
  destruct Ha as (_ & _ & (l & El & Hl) & Hsub & Hall). cbn [app] in El. subst l.
  assert (G2 : grows b1 b2).
  { split; [exists []; by rewrite app_nil_r|]. intros i k (c0 & r & E0 & Hr & Hi). replace c0 with c in * by (cbn in E0; congruence).
    destruct (Hsub k r Hr) as (r' & Hr' & Hss). exists c', r'. split; [done|]. split; [done|]. by apply Hss. }
  rewrite Hb'. split; [etrans; [exact G1|]; etrans; [exact G2|apply Hrest]|].
  rewrite Forall_forall. intros t Ht. rewrite Forall_forall in Hall. destruct (Hall t Ht) as [(t' & Hin & Hkey) (r & Hr & Hsid)].
  split; [|apply (gr_waits _ _ (Hrest b2)); by exists c', r].
  subst rest. unfold se_bind at 1. rewrite bool_decide_eq_false_2 by (intros ->; by apply not_elem_of_nil in Hin).
  destruct (send_combined_spec needs b2) as (tc' & E2 & Htc').
  - intros ->. by apply not_elem_of_nil in Hin.
  - eapply Forall_impl; [exact Hl|]. intros x (y & Hy & Hr'). rewrite Forall_forall in Hq.
    eapply renders_queue; [apply i32_range|by apply Hq|done].
  - intros x1 x2 H1 H2. rewrite Forall_forall in Hl. destruct (Hl x1 H1) as (y1 & Hy1 & o1 & _ & ->).
    destruct (Hl x2 H2) as (y2 & Hy2 & o2 & _ & ->). exact (Hs y1 y2 Hy1 Hy2).
  - rewrite E2. eapply kit_asked_grows.
    { apply (grows_bind (on_session sid _) (fun _ => sendRequestedTiles json_viewId terminating sid now));
        [apply grows_on_session|intros ?; apply grows_sendRequestedTiles]. }
    exists tc', (drop_img_id t'). cbn [b_toKit b_childProcess]. split.
    + change (b_childProcess b2) with (b_childProcess b). rewrite drop_app_length. left.
    + rewrite Htc'. split; [|done]. apply list_elem_of_fmap. by exists t'.
Qed.
End server.

(** ** The invalidated cache *)

(** Every item is stored under its own key. *)
Definition keys_ok (c : TileCache) : Prop := forall k e, tcc_cache c !! k = Some e -> cache_key (e_desc e) = k.

Lemma cstep_keys_ok ov c c' : cstep ov c c' -> size_ok ov c -> keys_ok c -> keys_ok c'.
Proof.
  intros Hstep Hsz Hok.
  assert (Hens : forall c0, size_ok ov c0 -> keys_ok c0 -> keys_ok (ensureCacheSize ov c0)).
  { intros c0 H0 Hk0 k e. destruct (ensureCacheSize_inv ov c0 H0) as (_ & _ & _ & _ & _ & [[_ ->]|(w & _ & _ & _ & _ & H)]); [apply Hk0|].
    rewrite H. intros [He _]. by apply Hk0. }
  destruct Hstep as [c tile subscriber now|c alive desc data|c n|c msg view|c type name data|c].
  - unfold subscribeToTileRendering. destruct (findTileBeingRendered c tile); [|done]. by destruct (existsb _ _).
  - assert (Hs : keys_ok (saveDataToCache ov c desc data).1).
    { unfold saveDataToCache. destruct (tcc_dontCache c); [done|]. specialize (Hens c Hsz Hok).
      destruct (tcc_cache (ensureCacheSize ov c) !! cache_key desc) as [e|] eqn:He; [|destruct (negb _); [done|]];
        intros k e'; cbn; rewrite lookup_insert_Some; intros [[<- <-]|[_ Hk]]; [exact (Hens _ _ He)|exact (Hens _ _ Hk)|done|exact (Hens _ _ Hk)]. }
    unfold saveTileAndNotify. destruct (saveDataToCache ov c desc data) as [c1 tile]. cbn in Hs.
    destruct (findTileBeingRendered c desc) as [r|]; [|done]. cbn. unfold forgetTileBeingRendered. by destruct (_ <=? _).
  - unfold setMaxCacheSize. by apply Hens.
  - unfold invalidateTiles, invalidateTilesRect. case_bool_decide; [done|]. intros k e. cbn. rewrite lookup_fmap_Some.
    intros (e0 & <- & He0). unfold invalidate_entry. destruct (intersectsTile _ _ _ _ _ _ _ _); exact (Hok _ _ He0).
  - unfold saveStream, saveDataToStreamCache. by destruct (tcc_dontCache c).
  - intros k e. cbn. by rewrite lookup_empty.
Qed.

Lemma reachable_keys_ok ov dontCache c : rtc (cstep ov) (TileCache_new dontCache) c -> keys_ok c.
Proof.
  intros Hr. assert (H : forall c1 c2, rtc (cstep ov) c1 c2 -> size_ok ov c1 -> keys_ok c1 -> keys_ok c2).
  { induction 1 as [|c1 c2 c3 Hs Hr' IH]; [done|]. intros H1 H2. apply IH; [by eapply cstep_size_ok|by eapply cstep_keys_ok]. }
  apply (H _ _ Hr); [unfold size_ok; cbn; by rewrite total_empty|]. intros k e. cbn. by rewrite lookup_empty.
Qed.

(** The rectangles a message can name. *)
Definition named_rect (r : Rectangle) : Prop :=
  0 <= _x1 r <= _x2 r /\ 0 <= _y1 r <= _y2 r /\ _x2 r <= INT_MAX /\ _y2 r <= INT_MAX.

Lemma rect_make_named x y w h :
  0 <= x <= INT_MAX -> 0 <= y <= INT_MAX -> 0 <= w -> 0 <= h -> named_rect (rect_make x y w h).
Proof.
  intros. unfold named_rect, rect_make. cbn.
  destruct (Z.leb_spec (x + w) INT_MAX), (Z.leb_spec (y + h) INT_MAX); rewrite ?i32_id by (int_unfold; lia); lia.
Qed.

Lemma getNonNeg_range token name x : getNonNegTokenInteger token name = (Some x, true) -> 0 <= x <= INT_MAX.
Proof.
  unfold getNonNegTokenInteger, getTokenInteger. destruct (_ && has_name _ _); [|done].
  intros H. injection H as Hv Hb. apply andb_true_iff in Hb as [_ Hb]. rewrite Hv, Z.leb_le in Hb.
  split; [done|]. rewrite <- Hv. apply i32_range.
Qed.

Lemma im_fields_named tokens i x y w h : im_fields tokens i = Some (x, y, w, h) -> named_rect (rect_make x y w h).
Proof.
  unfold im_fields. intros H. repeat (case_match; simplify_eq).
  repeat match goal with E : getNonNegTokenInteger _ _ = _ |- _ => apply getNonNeg_range in E end.
  apply rect_make_named; lia.
Qed.

Lemma parseInvalidateMsg_named message : named_rect (im_rect (parseInvalidateMsg message)).
Proof.
  assert (H0 : named_rect (rect_make 0 0 0 0)) by by_decide.
  assert (H1 : named_rect im_everything) by by_decide.
  unfold parseInvalidateMsg, im_unexpected.
  repeat (case_match; cbn [im_rect]; try done); simplify_eq; by eapply im_fields_named.
Qed.

(** The test of the cache and the test of the handler agree. *)
Lemma intersectsTile_cell d m view w h :
  named_rect (im_rect m) -> _canonicalViewId d = view -> _mode d = im_mode m -> im_part m = -1 \/ _part d = im_part m ->
  _tileWidth d = w -> _tileHeight d = h -> 0 <= w -> 0 <= h -> 0 <= _tilePosX d -> 0 <= _tilePosY d ->
  _tilePosX d + w <= INT_MAX -> _tilePosY d + h <= INT_MAX ->
  rect_intersects (im_rect m) (rect_make (_tilePosX d) (_tilePosY d) w h) = true ->
  intersectsTile d (im_part m) (im_mode m) (getLeft (im_rect m)) (getTop (im_rect m))
    (rect_getWidth (im_rect m)) (rect_getHeight (im_rect m)) view = true.
Proof.
  intros (H1 & H2 & H3 & H4) Hv Hm Hp Ew Eh Hw Hh Hx Hy Hxw Hyh. unfold rect_intersects, intersectsTile.
  rewrite Hv, Hm, !Z.eqb_refl, Ew, Eh. cbn [negb].
  replace (negb (im_part m =? -1) && negb (_part d =? im_part m)) with false
    by (symmetry; apply andb_false_iff; rewrite !negb_false_iff, !Z.eqb_eq; tauto).
  unfold rect_make, getLeft, getTop, rect_getWidth, rect_getHeight. cbn [_x1 _x2 _y1 _y2].
  int_unfold. rewrite !(proj2 (Z.leb_le _ 2147483647)) by lia. rewrite !(proj2 (Z.ltb_lt (-2147483648) _)) by lia.
  rewrite !(i32_id (_ - _)) by (int_unfold; lia). rewrite !i32_id by (int_unfold; lia).
  rewrite !andb_true_iff, !Z.leb_le. lia.
Qed.

Lemma invalidated_unserved ov dontCache c message t :
  let m := parseInvalidateMsg message in
  rtc (cstep ov) (TileCache_new dontCache) c -> _mode t = im_mode m -> im_part m = -1 \/ _part t = im_part m ->
  0 <= _tileWidth t -> 0 <= _tileHeight t -> 0 <= _tilePosX t -> 0 <= _tilePosY t ->
  _tilePosX t + _tileWidth t <= INT_MAX -> _tilePosY t + _tileHeight t <= INT_MAX ->
  rect_intersects (im_rect m) (rect_make (_tilePosX t) (_tilePosY t) (_tileWidth t) (_tileHeight t)) = true ->
  unserved (invalidateTiles c message (_canonicalViewId t)).1 t.
Proof.
  intros m Hr Hm Hp Hw Hh Hx Hy Hxw Hyh Hi. unfold unserved, lookupTile, findTile.
  destruct (tcc_dontCache _); [done|]. destruct (_ <$> _) as [d|] eqn:Hl; [|done].
  apply fmap_Some in Hl as (e & He & ->). revert He. unfold invalidateTiles, invalidateTilesRect. fold m.
  case_bool_decide as Hemp; cbn [set_cache tcc_cache fst]; [by rewrite Hemp, lookup_empty|].
  rewrite lookup_fmap_Some. intros (e0 & <- & He0). pose proof (reachable_keys_ok _ _ _ Hr _ _ He0) as Hkey.
  unfold cache_key in Hkey. injection Hkey as K1 K2 K3 K4 K5 K6 K7 K8 K9.
  unfold invalidate_entry. rewrite (intersectsTile_cell (e_desc e0) m _ (_tileWidth t) (_tileHeight t)); try congruence; [done|..].
  apply parseInvalidateMsg_named.
Qed.

(** ** The handler *)

(** The tiles the handler asks for: those of the cells of the visible panes that the area touches. *)
Lemma tiles_to_request_spec v s cached m :
  let part := if im_part m =? -1 then pv_clientSelectedPart v else im_part m in
  view_ok v s -> 0 <= s_canonicalViewId s -> 0 <= part -> 0 <= im_mode m ->
  (part = pv_clientSelectedPart v /\ im_mode m = pv_clientSelectedMode v) \/ pv_isTextDocument v = true ->
  exists l, tiles_to_request v s cached m = Ok l /\
    Forall (fun t => exists cell, cell_ok s cell /\ tile_for v s part (im_mode m) (im_rect m) cached cell t) l /\
    forall p x y, isSplitPane v p = true -> 0 <= x -> 0 <= y ->
      in_rect (getNormalizedVisiblePaneArea v s p) x y -> in_rect (im_rect m) x y ->
      exists t, t ∈ l /\ tile_eq t (cell_tile v s part (im_mode m) (cell_of s x y)) = true /\ cell_ok s (cell_of s x y).
Proof.
  intros part Hv Hview Hpart Hmode Hshown. destruct (vk_twips _ _ Hv) as [Hw Hh]. unfold tiles_to_request.
  assert (Hpanes : forall p x y, isSplitPane v p = true -> in_rect (getNormalizedVisiblePaneArea v s p) x y ->
    in_rect (im_rect m) x y -> getNormalizedVisiblePaneArea v s p ∈ pane_rects v s (im_rect m)).
  { intros p x y Hp Hx Hy. unfold pane_rects. apply list_elem_of_In, filter_In. split.
    - apply in_map, filter_In. split; [|done]. destruct p; simpl; tauto.
    - apply intersects_points. by exists x, y. }
  assert (Hok : Forall (cell_ok s) (pane_rects v s (im_rect m) ≫= visible_cells s)).
  { rewrite Forall_forall. intros cell (area & Hcell & Harea)%list_elem_of_bind. unfold pane_rects in Harea.
    apply list_elem_of_In, filter_In in Harea as [(p & <- & Hp)%in_map_iff _]. apply filter_In in Hp as [_ Hp].
    pose proof (cells_ok v s _ Hv (pane_ok v s p Hv Hp)) as H. rewrite Forall_forall in H. by apply H. }
  case_bool_decide as Hnone.
  { exists []. split_and!; [done|constructor|]. intros p x y Hp _ _ H1 H2. specialize (Hpanes p x y Hp H1 H2).
    rewrite Hnone in Hpanes. by apply not_elem_of_nil in Hpanes. }
  fold part. replace ((part =? pv_clientSelectedPart v) && (im_mode m =? pv_clientSelectedMode v) || pv_isTextDocument v) with true.
  2: { symmetry. destruct Hshown as [[-> ->]| ->]; [by rewrite !Z.eqb_refl|by rewrite orb_true_r]. }
  destruct (invalid_tiles_spec v s part (im_mode m) (im_rect m) cached Hpart Hmode Hview (vk_pixel _ _ Hv) Hw Hh _ [] Hok)
    as (l & -> & H1 & H2).
  exists l. split; [done|]. split.
  - eapply Forall_impl; [exact H1|]. intros t (cell & Hcell & Ht). exists cell. split; [|done].
    rewrite Forall_forall in Hok. by apply Hok.
  - intros p x y Hp Hx Hy Hin Hrect. specialize (Hpanes p x y Hp Hin Hrect).
    pose proof (cell_of_point v s _ x y Hv Hx Hy Hin) as Hcell.
    assert (Hin' : cell_of s x y ∈ pane_rects v s (im_rect m) ≫= visible_cells s) by (apply list_elem_of_bind; by eexists).
    assert (Hcok : cell_ok s (cell_of s x y)) by (rewrite Forall_forall in Hok; by apply Hok).
    destruct (H2 _ Hin') as (t & Ht & He); [|by exists t].
    apply intersects_points. exists x, y. split; [done|]. by apply point_in_cell.
Qed.

Lemma handler_ready v s part :
  view_ok v s -> 0 <= part -> (part = pv_clientSelectedPart v \/ pv_isTextDocument v = true) -> no_visible_area v s = false.
Proof.
  intros [H1 [H2 H3] [H4 H5] _ _ _ _] Hp Ht. unfold no_visible_area. rewrite H1, !(proj2 (Z.eqb_neq _ 0)) by lia.
  cbn [negb orb]. destruct Ht as [<-| ->]; [rewrite (proj2 (Z.eqb_neq part (-1))) by lia; done|by rewrite andb_false_r].
Qed.

Lemma request_invalid_asks json_viewId terminating v s part mode rect cached l sid now b c :
  b_sessions b !! sid = Some s -> b_tileCache b = Some c -> known c (i32 (u64 (b_tileVersion b + 1))) [] ->
  0 <= part -> 0 <= mode -> 0 <= s_canonicalViewId s -> view_ok v s -> l <> [] ->
  Forall (fun t => exists cell, cell_ok s cell /\ tile_for v s part mode rect cached cell t) l -> Forall (unserved c) l ->
  let b' := (request_invalid json_viewId terminating l sid now b).1 in
  Forall (fun t => kit_asked (length (b_childProcess b)) b' t /\ waits b' sid (cache_key t)) l.
Proof.
  intros Hs Hc Hk Hpart Hmode Hview Hv Hne Hl Hu b'. destruct (vk_twips _ _ Hv) as [Hw Hh].
  assert (Hq : Forall queue_tile l).
  { eapply Forall_impl; [exact Hl|]. intros t (cell & Hcell & Ht). by eapply tile_for_queue; [..|exact Ht]; try apply Hv. }
  assert (Hsame : forall t1 t2, t1 ∈ l -> t2 ∈ l -> sameTileCombineParams t1 t2 = true).
  { intros t1 t2 H1 H2. rewrite Forall_forall in Hl. destruct (Hl t1 H1) as (c1 & _ & T1), (Hl t2 H2) as (c2 & _ & T2).
    by eapply tile_for_same. }
  assert (Hid : map (fun t => setCanonicalViewId t (s_canonicalViewId s)) (map drop_img_id l) = l).
  { rewrite map_map. rewrite <- (map_id l) at 2. apply map_ext_in. intros t Ht%list_elem_of_In. rewrite Forall_forall in Hl.
    destruct (Hl t Ht) as (cell & _ & _ & ->). done. }
  destruct l as [|t0 ts]; [done|]. destruct (create_keeps_tiles t0 ts Hq) as (tc & E & Htc & _).
  { rewrite Forall_forall. intros t Ht. apply Hsame; [left|by right]. }
  assert (Hb' : b' = (handleTileCombinedRequest json_viewId terminating
                        (tc_setCanonicalViewId tc (s_canonicalViewId s)) false sid now b).1).
  { unfold b', request_invalid. erewrite se_bind_ok by (unfold on_session, se_get; rewrite Hs, set_same; done).
    by erewrite se_bind_ok by (unfold se_lift; by rewrite E). }
  assert (Htiles : tc_tiles (tc_setCanonicalViewId tc (s_canonicalViewId s)) = t0 :: ts) by (cbn; by rewrite Htc).
  rewrite Hb'. pose proof (handleTileCombinedRequest_asks json_viewId terminating
    (tc_setCanonicalViewId tc (s_canonicalViewId s)) sid now b c Hc Hk) as H. rewrite Htiles in H.
  by apply H.
Qed.

(** ** Theorems *)

(** C24 (liveness): what a client sees and the kit reports as changed is asked for again.
    When the kit invalidates an area of the part that the client shows (or of a text
    document), each point of it that lies in one of the client's visible panes is in a
    tile of the client's grid which a message to the kit asks for, and for whose
    rendering the client's session waits. *)
Theorem invalidated_area_requested ov dontCache json_viewId terminating v message sid now b s c p x y :
  let m := parseInvalidateMsg message in
  let part := if im_part m =? -1 then pv_clientSelectedPart v else im_part m in
  b_sessions b !! sid = Some s -> b_tileCache b = Some c -> rtc (cstep ov) (TileCache_new dontCache) c ->
  0 <= b_tileVersion b < INT_MAX -> map_Forall (fun _ r => r_version r <= b_tileVersion b) (tcc_rendered c) ->
  view_ok v s -> s_closeFrame s = false -> 0 <= s_canonicalViewId s -> 0 <= part -> 0 <= im_mode m ->
  (part = pv_clientSelectedPart v /\ im_mode m = pv_clientSelectedMode v) \/ pv_isTextDocument v = true ->
  isSplitPane v p = true -> 0 <= x -> 0 <= y ->
  in_rect (getNormalizedVisiblePaneArea v s p) x y -> in_rect (im_rect m) x y ->
  let b' := (handleTileInvalidation json_viewId terminating v message sid now b).1 in
  exists t, in_rect (toAABBox t) x y /\ _part t = part /\ _mode t = im_mode m /\
    _width t = pv_tileWidthPixel v /\ _height t = pv_tileHeightPixel v /\ _canonicalViewId t = s_canonicalViewId s /\
    kit_asked (length (b_childProcess b)) b' t /\ waits b' sid (cache_key t).
Proof.
  intros m part Hs Hc Hr Hver Hold Hv Hopen Hview Hpart Hmode Hshown Hp Hx Hy Hin Hrect b'.
  set (c1 := (invalidateTiles c message (s_canonicalViewId s)).1). set (b1 := b_setCache b (Some c1)).
  set (cached := fun desc => bool_decide (is_Some (lookupTile c1 desc))).
  destruct (tiles_to_request_spec v s cached m Hv Hview Hpart Hmode Hshown) as (l & El & Hl & Hcover). fold part in Hl, Hcover.
  assert (Hb' : b' = (request_invalid json_viewId terminating l sid now b1).1).
  { unfold b', handleTileInvalidation. erewrite se_bind_ok by (unfold on_session, se_get; rewrite Hs, set_same; done).
    unfold broker_invalidateTiles. erewrite se_bind_ok by (erewrite se_bind_ok by (unfold get_cache; by rewrite Hc); done).
    rewrite (handler_ready v s part Hv Hpart) by tauto. rewrite Hopen. cbn [orb].
    erewrite se_bind_ok by done. fold c1. fold cached. fold m.
    by erewrite se_bind_ok by (unfold se_lift; by rewrite El). }
  destruct (Hcover p x y Hp Hx Hy Hin Hrect) as (t & Ht & Heq & Hcell).
  assert (Hk : known c1 (i32 (u64 (b_tileVersion b1 + 1))) []).
  { intros k r. unfold c1, invalidateTiles, invalidateTilesRect. intros Hkr. left.
    assert (H : tcc_rendered c !! k = Some r) by (revert Hkr; case_bool_decide; done).
    specialize (Hold k r H). cbn beta in Hold. cbn [b1 b_setCache b_tileVersion]. rewrite u64_id, i32_id by (int_unfold; lia). lia. }
  assert (Hu : Forall (unserved c1) l).
  { rewrite Forall_forall in *. intros t' Ht'. destruct (Hl t' Ht') as (cell & Hc' & Hi & ->).
    destruct (vk_twips _ _ Hv) as [Hw Hh]. destruct (cell_coordinates s cell Hw Hh Hc') as [Ex Ey].
    destruct Hc' as (C1 & C2 & C3 & C4). unfold c1.
    apply (invalidated_unserved ov dontCache c message (setOldWireId (cell_tile v s part (im_mode m) cell) _)); cbn;
      rewrite ?Ex, ?Ey; try done; try nia; [|unfold cell_rect in Hi; rewrite Ex, Ey in Hi; exact Hi].
    fold m. subst part. destruct (Z.eqb_spec (im_part m) (-1)); [by left|by right]. }
  assert (Hne : l <> []) by (intros ->; by apply not_elem_of_nil in Ht).
  pose proof (request_invalid_asks json_viewId terminating v s part (im_mode m) (im_rect m) cached l sid now b1 c1
    Hs eq_refl Hk Hpart Hmode Hview Hv Hne Hl Hu) as Hask. cbv zeta in Hask. rewrite <- Hb', Forall_forall in Hask.
  destruct (Hask t Ht) as [Hkit Hwait]. exists t.
  apply tile_eq_key in Heq. unfold order_key in Heq. injection Heq as K1 K2 K3 K4 K5 K6 K7 K8 K9 K10.
  split; [|by split_and!]. destruct (vk_twips _ _ Hv) as [Hw Hh].
  pose proof (point_in_cell s x y Hw Hh Hcell) as Hpt. rewrite cell_rect_eq in Hpt by done.
  destruct (cell_coordinates s _ Hw Hh Hcell) as [Ex Ey]. destruct Hcell as (C1 & C2 & C3 & C4).
  unfold toAABBox. rewrite K9, K10, K7, K8. cbn in Ex, Ey, C3, C4. rewrite Ex, Ey.
  rewrite !(proj2 (Z.leb_le _ INT_MAX)) by lia. exact Hpt.
Qed.

(** A split view of the part of the sample tile, which is cached. *)
Definition split_view : PaneView :=
  {| pv_splitX := 1000; pv_splitY := 2000; pv_clientSelectedPart := 2; pv_clientSelectedMode := 1;
     pv_tileWidthPixel := 256; pv_tileHeightPixel := 256; pv_isTextDocument := false |}.
Definition split_session : ClientSession :=
  {| s_tracker := ∅; s_tilesOnFly := []; s_requestedTiles := []; s_senderQueue := []; s_closeFrame := false;
     s_clientVisibleArea := rect_make 0 0 15359 19199; s_tileWidthTwips := 3840; s_tileHeightTwips := 3840;
     s_canonicalViewId := 1000 |}.
Definition split_broker : DocumentBroker :=
  {| b_tileVersion := 41; b_tileCache := Some sample_cache; b_sessions := {[7 := split_session]}; b_childProcess := [] |}.
Definition invalidation_msg : bytes :=
  str "invalidatetiles: part=2 mode=1 x=4000 y=8000 width=300 height=300 wid=43".

Lemma split_view_ok : view_ok split_view split_session.
Proof. constructor; by_decide. Defined.

Lemma split_older : map_Forall (fun _ r => r_version r <= b_tileVersion split_broker) (tcc_rendered sample_cache).
Proof. intros k r H. assert (E : tcc_rendered sample_cache = ∅) by by_decide. rewrite E, lookup_empty in H. discriminate. Defined.

Lemma invalidated_area_requested_witness :
  let b' := (handleTileInvalidation no_json false split_view invalidation_msg 7 100 split_broker).1 in
  length (b_childProcess b') = 1%nat /\
  exists t, in_rect (toAABBox t) 4100 8200 /\ _part t = 2 /\ _mode t = 1 /\ _width t = 256 /\ _height t = 256 /\
    _canonicalViewId t = 1000 /\ kit_asked 0 b' t /\ waits b' 7 (cache_key t).
Proof.
  split; [vm_compute; reflexivity|].
  refine (invalidated_area_requested 72 false no_json false split_view invalidation_msg 7 100 split_broker split_session
    sample_cache BOTTOMRIGHT_PANE 4100 8200 _ _ sample_reachable _ split_older split_view_ok _ _ _ _ _ _ _ _ _ _);
    try (vm_compute; reflexivity); by_decide.
Defined.
