(* ===== verification/FlowControlSpec.v ===== *)
(** * Flow control: how many tiles are in flight

    Theorems about the tiles on the fly of [ClientSession.v] and [TileServer.v]:
    the limit, and that sending the requested tiles respects it. *)

From S2P Require Import Prelude StateError Util StringVector Protocol Rectangle TileDesc TileCombined TileData TileCache Message SenderQueueSpec ClientSession ClientSessionSpec TileServer.

Open Scope cool_scope.

(** The number of tiles of a session in flight. *)
Definition in_flight (sid : Z) (b : DocumentBroker) : Z :=
  match b_sessions b !! sid with Some s => Z.of_nat (getTilesOnFlyCount s) | None => 0 end.

Section server.
Context (json_viewId : bytes -> result bytes) (terminating : bool).

Lemma enqueue_onfly now m s :
  (length (s_tilesOnFly (enqueueSendMessage json_viewId terminating now m s).1) <= S (length (s_tilesOnFly s)))%nat.
Proof.
  unfold enqueueSendMessage. destruct (s_closeFrame s); [simpl; lia|].
  destruct (if _ || _ then _ else _) as [[[id|] m']|e]; [| |simpl; lia];
    destruct (enqueue _ _ _ _) as [[q n]|e]; simpl; try lia.
  destruct (negb _); simpl; [rewrite length_app; simpl|]; lia.
Qed.

Lemma sendTileNow_onfly now desc t s :
  (length (s_tilesOnFly (sendTileNow json_viewId terminating now desc t s).1) <= S (length (s_tilesOnFly s)))%nat.
Proof.
  unfold sendTileNow, se_bind, se_get, se_modify, se_lift. set (s1 := s_setTracker s _).
  assert (Hs1 : length (s_tilesOnFly s1) = length (s_tilesOnFly s)) by done. rewrite <- Hs1.
  destruct (needsKeyframe _ _) as [kf|]; [|simpl; lia].
  destruct (appendChangesSince _ _ _) as [out hc]. unfold sendBinaryFrame, sendTextFrame, se_bind.
  destruct (negb _); [|simpl; lia]. pose proof (enqueue_onfly now (Message_new out) s1) as H.
  destruct (enqueueSendMessage _ _ _ _ s1) as [s2 [u|e]]; exact H.
Qed.

(** A session's method and the count. *)
Lemma on_session_count {A} sid (m : SE ClientSession A) (M M' : Z) :
  0 <= M' -> (forall s, Z.of_nat (length (s_tilesOnFly s)) <= M -> Z.of_nat (length (s_tilesOnFly (m s).1)) <= M') ->
  hoare (fun b => in_flight sid b <= M) (on_session sid m) (fun _ b => in_flight sid b <= M') (fun b => in_flight sid b <= Z.max M M').
Proof.
  intros H0 Hm b Hb. unfold on_session, in_flight, getTilesOnFlyCount in *.
  destruct (b_sessions b !! sid) as [s|] eqn:Hs; [|rewrite Hs; lia]. specialize (Hm s Hb).
  destruct (m s) as [s' [a|e]]; cbn in *; rewrite lookup_insert_eq; lia.
Qed.

(** What keeps the sessions keeps the count. *)
Definition keeps_sessions {A} (m : SE DocumentBroker A) : Prop := forall b, b_sessions (m b).1 = b_sessions b.

Lemma keeps_count {A} sid (m : SE DocumentBroker A) M :
  keeps_sessions m -> hoare (fun b => in_flight sid b <= M) m (fun _ b => in_flight sid b <= M) (fun b => in_flight sid b <= M).
Proof. intros Hk b Hb. specialize (Hk b). unfold in_flight in *. destruct (m b) as [b' [a|e]]; simpl in *; by rewrite Hk. Qed.

Lemma keeps_bind {A B} (m : SE DocumentBroker A) (f : A -> SE DocumentBroker B) :
  keeps_sessions m -> (forall a, keeps_sessions (f a)) -> keeps_sessions (se_bind m f).
Proof.
  intros Hm Hf b. specialize (Hm b). unfold se_bind. destruct (m b) as [b' [a|e]]; [|done].
  simpl in Hm. by rewrite Hf.
Qed.
Lemma keeps_get_cache : keeps_sessions get_cache.
Proof. intros b. unfold get_cache. by destruct (b_tileCache b). Qed.
Lemma keeps_subscribe tile sid now : keeps_sessions (subscribe tile sid now).
Proof. apply keeps_bind; [apply keeps_get_cache|]. done. Qed.
Lemma keeps_with_wid tile t : keeps_sessions (with_wid tile t).
Proof.
  unfold with_wid. destruct (_wireId tile =? 0); [|done]. apply keeps_bind; [|done]. done.
Qed.
Lemma keeps_requestTileRendering tile force v now needs sid :
  keeps_sessions (requestTileRendering tile force v now needs sid).
Proof.
  apply keeps_bind; [apply keeps_get_cache|]. intros c.
  destruct (_ || _); apply keeps_bind; (apply keeps_subscribe || done).
Qed.
Lemma keeps_render_requested tile force bumped now needs sid :
  keeps_sessions (render_requested tile force bumped now needs sid).
Proof.
  apply keeps_bind; [by destruct bumped|]. intros ?. apply keeps_bind; [done|]. intros b. apply keeps_requestTileRendering.
Qed.
Lemma keeps_send_combined tiles : keeps_sessions (send_combined tiles).
Proof. apply keeps_bind; [|done]. done. Qed.

Lemma answer_count sid now tile t M :
  0 <= M ->
  hoare (fun b => in_flight sid b <= M) (answer json_viewId terminating sid now tile t)
    (fun _ b => in_flight sid b <= M + 1) (fun b => in_flight sid b <= M + 1).
Proof.
  intros HM. eapply hoare_bind with (R := fun _ b => in_flight sid b <= M).
  { eapply hoare_conseq; [apply (keeps_count sid _ M), keeps_with_wid|done|done|]. simpl. lia. }
  intros tile'. eapply hoare_bind with (R := fun _ b => in_flight sid b <= M + 1); [|intros ?; by apply hoare_ret].
  eapply hoare_conseq; [apply (on_session_count sid _ M (M + 1)); [lia|]|done|done|simpl; lia].
  intros s Hs. pose proof (sendTileNow_onfly now tile' t s). lia.
Qed.

Lemma pop_count sid rest M :
  0 <= M ->
  hoare (fun b => in_flight sid b <= M) (on_session sid (se_modify (fun s => s_setRequested s rest)))
    (fun _ b => in_flight sid b <= M) (fun b => in_flight sid b <= M).
Proof.
  intros HM. eapply hoare_conseq; [apply (on_session_count sid _ M M); [done|by intros s]|done|done|simpl; lia].
Qed.

Lemma send_requested_count requested sid limit now bumped needs same M :
  0 <= M -> limit <= M ->
  hoare (fun b => in_flight sid b <= M)
    (send_requested json_viewId terminating requested sid limit now bumped needs same)
    (fun _ b => in_flight sid b <= M) (fun b => in_flight sid b <= M).
Proof.
  intros HM Hl. revert bumped needs same. induction requested as [|tile rest IH]; intros bumped needs same; simpl.
  { by apply hoare_ret. }
  eapply hoare_bind with (R := fun s b => in_flight sid b <= M /\ b_sessions b !! sid = Some s).
  { intros b Hb. unfold on_session. destruct (b_sessions b !! sid) as [s|] eqn:Hs; [|done].
    unfold se_get, in_flight in *. cbn. rewrite lookup_insert_eq. by rewrite Hs in Hb. }
  intros s. destruct (Z.ltb_spec (Z.of_nat (getTilesOnFlyCount s)) limit) as [Hlt|]; [|apply hoare_ret; by intros b [? _]].
  eapply hoare_pre with (P' := fun b => in_flight sid b <= M - 1).
  { intros b [_ Hs]. unfold in_flight. rewrite Hs. lia. }
  assert (Hw : forall b, in_flight sid b <= M - 1 -> in_flight sid b <= M) by (intros; lia).
  eapply hoare_bind; [eapply hoare_conseq; [apply (keeps_count sid _ (M - 1)), keeps_get_cache|done|intros ? ? H; exact H|exact Hw]|].
  intros c. assert (Hrender : forall force, hoare (fun b => in_flight sid b <= M - 1)
    (do r <- render_requested tile force bumped now needs sid;
     exec on_session sid (se_modify (fun s => s_setRequested s rest));
     send_requested json_viewId terminating rest sid limit now true r.1.2 (same && r.2))
    (fun _ b => in_flight sid b <= M) (fun b => in_flight sid b <= M)).
  { intros force. eapply hoare_pre; [exact Hw|]. eapply hoare_bind; [apply keeps_count, keeps_render_requested|].
    intros r. eapply hoare_bind; [by apply pop_count|]. intros ?. apply IH. }
  assert (Hneg : M - 1 < 0 -> hoare (fun b => in_flight sid b <= M - 1) (se_ret tt) (fun _ _ => True) (fun _ => True)) by done.
  destruct (lookupTile c tile) as [t|]; [|by apply Hrender]. destruct (isValid t); [|by apply Hrender].
  eapply hoare_bind.
  { eapply hoare_conseq; [apply (answer_count sid now tile t (M - 1)); lia|done|intros ? b H; exact H|simpl; lia]. }
  intros ?. eapply hoare_pre with (P' := fun b => in_flight sid b <= M); [simpl; lia|].
  eapply hoare_bind; [by apply pop_count|]. intros ?. apply IH.
Qed.

Lemma remove_outdated_length l now dropped : (length (remove_outdated l now dropped) <= length l)%nat.
Proof.
  revert dropped. induction l as [|t l IH]; intros dropped; simpl; [lia|].
  destruct (_ || _); [|simpl; lia]. specialize (IH (S dropped)). lia.
Qed.

Lemma limit_pos s : 10 <= getTilesOnFlyUpperLimit s.
Proof.
  unfold getTilesOnFlyUpperLimit. destruct (_ && _ && _); [|lia].
  apply Z.div_le_lower_bound; [lia|]. unfold TILES_ON_FLY_MIN_UPPER_LIMIT. lia.
Qed.

Lemma sendRequestedTiles_count sid now b s M :
  b_sessions b !! sid = Some s -> getTilesOnFlyUpperLimit s <= M -> in_flight sid b <= M ->
  hoare (fun b' => b' = b) (sendRequestedTiles json_viewId terminating sid now)
    (fun _ b' => in_flight sid b' <= M) (fun b' => in_flight sid b' <= M).
Proof.
  intros Hs Hl HM. pose proof (limit_pos s) as Hpos. unfold sendRequestedTiles.
  eapply hoare_bind with (R := fun s' b' => s' = s /\ in_flight sid b' <= M).
  { intros ? ->. unfold on_session. rewrite Hs. unfold se_get. split; [done|]. unfold in_flight in *. cbn.
    rewrite lookup_insert_eq. by rewrite Hs in HM. }
  intros s'. apply hoare_pure. intros ->.
  eapply hoare_bind with (R := fun _ b' => in_flight sid b' <= M).
  { eapply hoare_conseq; [apply (on_session_count sid _ M M); [lia|]|done|done|simpl; lia].
    intros s' Hs'. simpl. pose proof (remove_outdated_length (s_tilesOnFly s') now 0). lia. }
  intros ?. apply hoare_get_bind. intros b1 Hb1. eapply hoare_pre with (P' := fun b' => in_flight sid b' <= M); [by intros ? ->|].
  destruct (_ && _); [|by apply hoare_ret].
  eapply hoare_bind; [apply send_requested_count; lia|]. intros [needs same].
  case_bool_decide; [by apply hoare_ret|]. destruct same; [apply keeps_count, keeps_send_combined|].
  apply hoare_iter. intros ? _. apply keeps_count, keeps_send_combined.
Qed.
End server.

(** ** Theorems *)

(** C14 (bounds): flow control. Sending the requested tiles never puts more tiles in
    flight than the session's limit (or than there were already), on normal and on
    exceptional exits, whatever is requested. *)
Theorem sendRequestedTiles_respects_limit json_viewId terminating sid now b s :
  b_sessions b !! sid = Some s ->
  in_flight sid (sendRequestedTiles json_viewId terminating sid now b).1
    <= Z.max (getTilesOnFlyUpperLimit s) (in_flight sid b).
Proof.
  intros Hs.
  pose proof (sendRequestedTiles_count json_viewId terminating sid now b s
    (Z.max (getTilesOnFlyUpperLimit s) (in_flight sid b)) Hs) as H.
  specialize (H ltac:(lia) ltac:(lia) b eq_refl).
  by destruct (sendRequestedTiles json_viewId terminating sid now b) as [b' [u|e]].
Qed.

(** A session that sees 20 tiles and has asked for one. *)
Definition viewing_session : ClientSession :=
  {| s_tracker := ∅; s_tilesOnFly := [(41, 0)]; s_requestedTiles := [setWireId sample_tile 0]; s_senderQueue := [];
     s_closeFrame := false; s_clientVisibleArea := rect_make 0 0 15359 19199; s_tileWidthTwips := 3840;
     s_tileHeightTwips := 3840; s_canonicalViewId := 1000 |}.
Definition viewing_broker : DocumentBroker :=
  {| b_tileVersion := 0; b_tileCache := Some (TileCache_new false); b_sessions := {[7 := viewing_session]};
     b_childProcess := [] |}.

Lemma sendRequestedTiles_respects_limit_witness :
  getTilesOnFlyUpperLimit viewing_session = 22 /\
  in_flight 7 (sendRequestedTiles no_json false 7 1000 viewing_broker).1
    <= Z.max (getTilesOnFlyUpperLimit viewing_session) (in_flight 7 viewing_broker).
Proof.
  split; [vm_compute; reflexivity|].
  apply (sendRequestedTiles_respects_limit no_json false 7 1000 viewing_broker viewing_session). reflexivity.
Defined.

(** Fact (bounds): the limit lets at least ten tiles fly, and at least as many as the
    client sees: it is not below the number of tiles of the visible area, the
    rounding of the [float] product included. *)
Theorem limit_covers_visible_area s :
  10 <= getTilesOnFlyUpperLimit s /\
  forall n, n = i32 (i32 (Z.quot (getRight (getNormalizedVisibleArea s)) (s_tileWidthTwips s)
                     - Z.quot (getLeft (getNormalizedVisibleArea s)) (s_tileWidthTwips s) + 1)
                * i32 (Z.quot (getBottom (getNormalizedVisibleArea s)) (s_tileHeightTwips s)
                     - Z.quot (getTop (getNormalizedVisibleArea s)) (s_tileHeightTwips s) + 1)) ->
    rect_hasSurface (getNormalizedVisibleArea s) = true -> s_tileWidthTwips s <> 0 -> s_tileHeightTwips s <> 0 ->
    n <= getTilesOnFlyUpperLimit s.
Proof.
  split; [apply limit_pos|]. intros n Hn Hs Hw Hh. pose proof (limit_pos s) as Hpos. revert Hpos.
  unfold getTilesOnFlyUpperLimit. rewrite Hs, (proj2 (Z.eqb_neq _ _) Hw), (proj2 (Z.eqb_neq _ _) Hh). cbn [andb negb].
  rewrite <- Hn. intros Hpos. destruct (Z.le_gt_cases 0 n) as [H0|Hneg]; [|lia].
  apply Z.div_le_lower_bound; [lia|]. pose proof (times_1_1f_ge n H0). lia.
Qed.

Lemma limit_covers_visible_area_witness :
  10 <= getTilesOnFlyUpperLimit viewing_session /\ 20 <= getTilesOnFlyUpperLimit viewing_session.
Proof.
  destruct (limit_covers_visible_area viewing_session) as [H1 H2]. split; [exact H1|].
  apply (H2 20); [vm_compute; reflexivity|vm_compute; reflexivity|vm_compute; discriminate|vm_compute; discriminate].
Defined.
