(* ===== verification/Delta.v ===== *)
(** * Tile compression: the delta generator of the kit

    Models [kit/Delta.hpp]: a row of pixels run-length encoded as four 64-bit
    masks and the distinct pixels ([DeltaBitmapRow], its [PixIterator]), the
    difference of two rows and of two tiles ([diffRowTo], [makeDelta]), the
    cache of last tiles ([rebalanceDeltasT], [createDelta]) and the bytes sent
    for a tile ([compressOrDelta]). A pixel is the [uint32_t] the code reads; the
    machine is little-endian; rows go the portable way ([initPixRowCpu], which
    the AVX2 code of [kit/DeltaSimd.c] stands in for at width 256). zstd is a
    parameter. The cache is a map from a tile's location, as its hash set
    compares only locations. *)

From stdpp Require Import sorting.
From S2P Require Import Prelude.

Open Scope cool_scope.

(** ** [TileLocation] *)

Record TileLocation := {
  loc_left : Z;
  loc_top : Z;
  loc_size : Z;
  loc_part : Z;
  loc_canonicalViewId : Z;
  loc_viewMode : Z }.

#[global] Instance TileLocation_eq_dec : EqDecision TileLocation.
Proof. solve_decision. Defined.
#[global] Instance TileLocation_countable : Countable TileLocation.
Proof.
  refine (inj_countable'
    (fun l => (loc_left l, loc_top l, loc_size l, loc_part l, loc_canonicalViewId l, loc_viewMode l))
    (fun '(a, b, c, d, e, f) => {| loc_left := a; loc_top := b; loc_size := c; loc_part := d;
                                   loc_canonicalViewId := e; loc_viewMode := f |}) _).
  by intros [].
Defined.

(** [TileLocation::hash], in [size_t]. *)
Definition TileLocation_hash (l : TileLocation) : Z :=
  let sz x := u64 x in
  Z.lxor (Z.lxor (Z.lxor (Z.lxor (Z.lxor
    (u64 (Z.shiftl (sz (loc_left l)) 20)) (sz (loc_top l)))
    (u64 (Z.shiftl (sz (loc_part l)) 15))) (u64 (Z.shiftl (sz (loc_size l)) 7)))
    (u64 (Z.shiftl (sz (loc_canonicalViewId l)) 24))) (u64 (Z.shiftl (sz (loc_viewMode l)) 28)).

(** ** [DeltaBitmapRow] *)

(** [_rleSize] is the length of [_rleData]; [_rleData] is null when it is 0. *)
Record DeltaBitmapRow := {
  _rleMask : list Z;
  _rleData : list Z }.

#[global] Instance DeltaBitmapRow_eq_dec : EqDecision DeltaBitmapRow.
Proof. solve_decision. Defined.

Definition shl1 (b : Z) : Z := u64 (Z.shiftl b 1).

(** The inner loops of [initPixRowCpu]: [full] is the loop over 64 pixels, which
    ends when the bit is shifted out, the other one ends at the width. Returns
    the last pixel, the mask, what remains of [from], and the scratch area. *)
Fixpoint rle_loop (full : bool) (from : list Z) (bitToSet lastPix rleMask : Z) (scratch : list Z)
  : Z * Z * list Z * list Z :=
  if full && (bitToSet =? 0) then (lastPix, rleMask, from, scratch)
  else match from with
  | [] => (lastPix, rleMask, [], scratch)
  | p :: from' =>
      if p =? lastPix then rle_loop full from' (shl1 bitToSet) lastPix (Z.lor rleMask bitToSet) scratch
      else rle_loop full from' (shl1 bitToSet) p rleMask (scratch ++ [p])
  end.

(** The loop over the masks. [width - x] is the length of [from]. *)
Fixpoint rle_masks (n : nat) (from : list Z) (lastPix : Z) (scratch : list Z) : list Z * list Z * list Z :=
  match n with
  | O => ([], from, scratch)
  | S n' =>
      let '(lastPix', rleMask, from', scratch') :=
        rle_loop (64 <? length from)%nat from 1 lastPix 0 scratch in
      let '(masks, rest, out) := rle_masks n' from' lastPix' scratch' in
      (rleMask :: masks, rest, out)
  end.

(** [initPixRowCpu] and [initRow]. *)
Definition initRow (from : list Z) : DeltaBitmapRow :=
  let '(masks, rest, scratch) := rle_masks 4 from 0 [] in
  {| _rleMask := masks; _rleData := scratch ++ rest |}.

(** [identical]. *)
Definition row_identical (a b : DeltaBitmapRow) : bool :=
  (length (_rleData a) =? length (_rleData b))%nat
  && bool_decide (_rleMask a = _rleMask b) && bool_decide (_rleData a = _rleData b).

(** [DeltaBitmapRow::sizeBytes], with the size of the struct a parameter. *)
Definition row_sizeBytes (sizeof_row : Z) (r : DeltaBitmapRow) : Z :=
  sizeof_row + Z.of_nat (length (_rleData r)) * 4.

(** *** [PixIterator] *)

Record PixIterator := {
  pi_mask : nat;
  pi_lastPix : Z;
  pi_lastMask : Z;
  pi_bitToCheck : Z;
  pi_rlePtr : list Z }.

(** [next]; [rleMask] is the mask of the row iterated over. *)
Definition pi_next (rleMask : list Z) (it : PixIterator) : PixIterator :=
  match pi_rlePtr it with
  | [] => it
  | p :: rest =>
      let '(mask, lastMask, bitToCheck) :=
        if pi_bitToCheck it =? 0 then
          if (pi_mask it <? 4)%nat then (S (pi_mask it), nth (pi_mask it) rleMask 0, 1)
          else (pi_mask it, 18446744073709551615, 1)
        else (pi_mask it, pi_lastMask it, pi_bitToCheck it) in
      let read := Z.land lastMask bitToCheck =? 0 in
      {| pi_mask := mask; pi_lastPix := if read then p else pi_lastPix it; pi_lastMask := lastMask;
         pi_bitToCheck := shl1 bitToCheck; pi_rlePtr := if read then rest else p :: rest |}
  end.

Definition PixIterator_new (row : DeltaBitmapRow) : PixIterator :=
  pi_next (_rleMask row)
    {| pi_mask := 0; pi_lastPix := 0; pi_lastMask := 0; pi_bitToCheck := 0; pi_rlePtr := _rleData row |}.

Definition pi_identical (a b : PixIterator) : bool := pi_lastPix a =? pi_lastPix b.

(** *** Bytes *)

Inductive LibreOfficeKitTileMode := LOK_TILEMODE_RGBA | LOK_TILEMODE_BGRA.

(** The [n] low bytes of an integer as they lie in memory. *)
Fixpoint le_bytes (n : nat) (x : Z) : bytes :=
  match n with O => [] | S n' => x mod 256 :: le_bytes n' (x / 256) end.

(** [std::swap(dest[j], dest[j+2])] for every fourth [j]. *)
Fixpoint swap_pixels (dest : bytes) : bytes :=
  match dest with
  | b :: g :: r :: a :: rest => r :: g :: b :: a :: swap_pixels rest
  | _ => dest
  end.

(** [copy_row] of a run of pixels. *)
Definition copy_row (pixels : list Z) (mode : LibreOfficeKitTileMode) : bytes :=
  let src := concat (map (le_bytes 4) pixels) in
  match mode with LOK_TILEMODE_RGBA => src | LOK_TILEMODE_BGRA => swap_pixels src end.

(** [packForNetwork]: size, masks, pixels. *)
Definition packForNetwork (row : DeltaBitmapRow) (mode : LibreOfficeKitTileMode) : bytes :=
  let rleSize := Z.of_nat (length (_rleData row)) in
  [Z.land rleSize 255; u8 (Z.shiftr rleSize 8)] ++ concat (map (le_bytes 8) (_rleMask row))
  ++ copy_row (_rleData row) mode.

(** *** [diffRowTo] *)

Section diff.
Variables oldMask curMask : list Z.

(** The loop over identical pixels; [n] is [width - x - same]. *)
Fixpoint skip_same (n : nat) (old cur : PixIterator) : nat * PixIterator * PixIterator :=
  match n with
  | O => (O, old, cur)
  | S n' =>
      if pi_identical old cur then
        let '(same, old', cur') := skip_same n' (pi_next oldMask old) (pi_next curMask cur) in
        (S same, old', cur')
      else (O, old, cur)
  end.

(** The loop that collects the scratch pixels; [n] is [width - x - diff]. *)
Fixpoint take_diff (n diff : nat) (old cur : PixIterator) : list Z * PixIterator * PixIterator :=
  match n with
  | O => ([], old, cur)
  | S n' =>
      if (negb (pi_identical old cur) || (diff <? 3)%nat) && (diff <? 254)%nat then
        let '(scratch, old', cur') := take_diff n' (S diff) (pi_next oldMask old) (pi_next curMask cur) in
        (pi_lastPix cur :: scratch, old', cur')
      else ([], old, cur)
  end.

(** The outer loop, [x < width]. [None]: out of fuel. *)
Fixpoint diff_loop (fuel : nat) (mode : LibreOfficeKitTileMode) (width x : nat) (curY : Z)
    (old cur : PixIterator) (output : bytes) : option bytes :=
  if (x <? width)%nat then
    match fuel with
    | O => None
    | S fuel' =>
        let '(same, old1, cur1) := skip_same (width - x) old cur in
        let x1 := (x + same)%nat in
        let '(scratch, old2, cur2) := take_diff (width - x1) 0 old1 cur1 in
        let diff := length scratch in
        let output' :=
          if (0 <? diff)%nat then
            output ++ [100 (* 'd' *); u8 curY; u8 (Z.of_nat x1); u8 (Z.of_nat diff)] ++ copy_row scratch mode
          else output in
        diff_loop fuel' mode width (x1 + diff) curY old2 cur2 output'
    end
  else Some output.
End diff.

(** At least one pixel is consumed in each round. *)
Definition diffRowTo (prev curRow : DeltaBitmapRow) (width : nat) (curY : Z) (output : bytes)
    (mode : LibreOfficeKitTileMode) : option bytes :=
  diff_loop (_rleMask prev) (_rleMask curRow) width mode width 0 curY
    (PixIterator_new prev) (PixIterator_new curRow) output.

(** ** [DeltaData] *)

Record DeltaData := {
  dd_loc : TileLocation;
  dd_wid : Z;
  dd_width : nat;
  dd_height : nat;
  dd_rows : list DeltaBitmapRow }.

(** [n] pixels read from memory; past its end the read is undefined. *)
Fixpoint read_pixels (n : nat) (mem : bytes) : option (list Z) :=
  match n with
  | O => Some []
  | S n' =>
      match mem with
      | a :: b :: c :: d :: mem' =>
          (fun ps => (a + 256 * b + 65536 * c + 16777216 * d) :: ps) <$> read_pixels n' mem'
      | _ => None
      end
  end.

(** A row of a sub-rectangle of the rendered buffer. *)
Definition pixmap_row (pixmap : bytes) (startX startY width bufferWidth : nat) (y : nat) : option (list Z) :=
  read_pixels width (drop ((startY + y) * bufferWidth * 4 + startX * 4) pixmap).

(** The constructor. *)
Definition DeltaData_new (wid : Z) (pixmap : bytes) (startX startY width height : nat)
    (loc : TileLocation) (bufferWidth : nat) : result DeltaData :=
  match mapM (pixmap_row pixmap startX startY width bufferWidth) (seq 0 height) with
  | Some rows =>
      Ok {| dd_loc := loc; dd_wid := wid; dd_width := width; dd_height := height;
            dd_rows := map initRow rows |}
  | None => Throw undefined
  end.

(** [replaceAndFree]: the entry takes the new rows and keeps its location. *)
Definition replaceAndFree (entry repl : DeltaData) : DeltaData :=
  {| dd_loc := dd_loc entry; dd_wid := dd_wid repl; dd_width := dd_width repl;
     dd_height := dd_height repl; dd_rows := dd_rows repl |}.

(** ** [makeDelta] *)

Record delta_state := {
  ds_output : bytes;
  ds_lastMatchOffset : Z;   (* size_t *)
  ds_lastCopy : nat }.

(** The loop over [yn] that looks for the new row among the previous rows. *)
Fixpoint find_match (n : nat) (prev : list DeltaBitmapRow) (row : DeltaBitmapRow) (y offset yn : Z) : option nat :=
  match n with
  | O => None
  | S n' =>
      let mtch := Z.to_nat (u64 (y + offset + yn) mod Z.of_nat (length prev)) in
      match prev !! mtch with
      | Some p => if row_identical p row then Some mtch else find_match n' prev row y offset (yn + 1)
      | None => None
      end
  end.

Definition byte_at (l : bytes) (i : nat) : Z := nth i l 0.

(** A row that is found at [mtch]: extend the last copy or start another. *)
Definition copy_command (height : nat) (s : delta_state) (mtch y : nat) : delta_state :=
  let o := ds_output s in
  let k := ds_lastCopy s in
  let cnt := byte_at o k in
  if (0 <? k)%nat && (byte_at o (k + 1) + cnt =? Z.of_nat mtch)
     && (byte_at o (k + 2) + cnt =? Z.of_nat y) && (byte_at o (k + 1) + cnt + 1 <? Z.of_nat height) then
    {| ds_output := <[k := u8 (cnt + 1)]> o; ds_lastMatchOffset := ds_lastMatchOffset s; ds_lastCopy := k |}
  else
    {| ds_output := o ++ [99 (* 'c' *); 1; u8 (Z.of_nat mtch); u8 (Z.of_nat y)];
       ds_lastMatchOffset := u64 (Z.of_nat mtch - Z.of_nat y);
       ds_lastCopy := S (length o) |}.

(** The body of the loop over the rows. *)
Definition delta_row (prev : list DeltaBitmapRow) (width : nat) (mode : LibreOfficeKitTileMode)
    (s : delta_state) (y : nat) (prow crow : DeltaBitmapRow) : option delta_state :=
  if row_identical prow crow then Some s
  else match find_match (length prev) prev crow (Z.of_nat y) (ds_lastMatchOffset s) 0 with
  | Some mtch => Some (copy_command (length prev) s mtch y)
  | None =>
      (fun o => {| ds_output := o; ds_lastMatchOffset := ds_lastMatchOffset s; ds_lastCopy := ds_lastCopy s |})
      <$> diffRowTo prow crow width (Z.of_nat y) (ds_output s) mode
  end.

Fixpoint delta_rows (prev : list DeltaBitmapRow) (width : nat) (mode : LibreOfficeKitTileMode)
    (s : delta_state) (y : nat) (prows crows : list DeltaBitmapRow) : option delta_state :=
  match prows, crows with
  | p :: ps, c :: cs => s' ← delta_row prev width mode s y p c; delta_rows prev width mode s' (S y) ps cs
  | _, _ => Some s
  end.

(** The commands of a delta, before the terminator and the compression. *)
Definition delta_output (prev cur : DeltaData) (mode : LibreOfficeKitTileMode) : option bytes :=
  ds_output <$> delta_rows (dd_rows prev) (dd_width prev) mode
    {| ds_output := []; ds_lastMatchOffset := 0; ds_lastCopy := 0 |} 0 (dd_rows prev) (dd_rows cur).

Section generator.
(** [ZSTD_compress] at the code's level; [None] is an error. *)
Variable compress : bytes -> option bytes.

(** [makeDelta]: what it appends to the stream, or [None] for [false]. *)
Definition makeDelta (prev cur : DeltaData) (mode : LibreOfficeKitTileMode) : option bytes :=
  if negb (dd_width prev =? dd_width cur)%nat || negb (dd_height prev =? dd_height cur)%nat then None
  else match delta_output prev cur mode with
  | Some [] => Some [68 (* 'D' *)]
  | Some output => (fun z => 68 :: z) <$> compress (output ++ [116 (* 't' *)])
  | None => None
  end.

(** ** The cache *)

Record DeltaGenerator := {
  _deltaEntries : gmap TileLocation DeltaData;
  _maxEntries : nat }.

Definition DeltaGenerator_new : DeltaGenerator := {| _deltaEntries := ∅; _maxEntries := 0 |}.

Definition wid_before (a b : TileLocation * DeltaData) : Prop := dd_wid a.2 <= dd_wid b.2.
#[global] Instance wid_before_dec : RelDecision wid_before.
Proof. intros a b. unfold wid_before. apply _. Defined.

Definition rebalanceDeltasT (g : DeltaGenerator) (dropAll : bool) : DeltaGenerator :=
  if (_maxEntries g <? size (_deltaEntries g))%nat || dropAll then
    let toRemove :=
      if dropAll then size (_deltaEntries g) else (size (_deltaEntries g) - _maxEntries g * 3 / 4)%nat in
    let entries := merge_sort wid_before (map_to_list (_deltaEntries g)) in
    {| _deltaEntries := foldr (fun e m => delete e.1 m) (_deltaEntries g) (take toRemove entries);
       _maxEntries := _maxEntries g |}
  else g.

Definition rebalanceDeltas (g : DeltaGenerator) (limit : Z) : DeltaGenerator :=
  rebalanceDeltasT
    {| _deltaEntries := _deltaEntries g;
       _maxEntries := if 0 <? limit then Z.to_nat limit else _maxEntries g |} false.

Definition setSessionCount (g : DeltaGenerator) (count : nat) : DeltaGenerator :=
  rebalanceDeltas g (Z.of_nat (Nat.max count 1 * 96)).

Definition dropCache (g : DeltaGenerator) : DeltaGenerator := rebalanceDeltasT g true.

(** A tile to compress: the arguments the two functions below share. *)
Record tile_args := {
  ta_pixmap : bytes;
  ta_startX : nat;
  ta_startY : nat;
  ta_width : nat;
  ta_height : nat;
  ta_bufferWidth : nat;
  ta_loc : TileLocation;
  ta_wid : Z;
  ta_forceKeyframe : bool;
  ta_mode : LibreOfficeKitTileMode }.

(** [createDelta]: the returned flag with what it appends, and [rleData] (null
    when the size is refused). *)
Definition createDelta (g : DeltaGenerator) (a : tile_args)
  : result (DeltaGenerator * option bytes * option DeltaData) :=
  if negb (Nat.even (ta_width a)) then Ok (g, None, None)
  else if (256 <? ta_width a)%nat || (256 <? ta_height a)%nat then Ok (g, None, None)
  else
    try update <- DeltaData_new (ta_wid a) (ta_pixmap a) (ta_startX a) (ta_startY a) (ta_width a)
                    (ta_height a) (ta_loc a) (ta_bufferWidth a);
    match _deltaEntries g !! ta_loc a with
    | None =>
        Ok ({| _deltaEntries := <[ta_loc a := update]> (_deltaEntries g); _maxEntries := _maxEntries g |},
            None, Some update)
    | Some cacheEntry =>
        let delta := if ta_forceKeyframe a then None else makeDelta cacheEntry update (ta_mode a) in
        let entry := replaceAndFree cacheEntry update in
        Ok ({| _deltaEntries := <[ta_loc a := entry]> (_deltaEntries g); _maxEntries := _maxEntries g |},
            delta, Some entry)
    end.

(** [compressOrDelta]: appends a delta or a key frame to [output]; a compression
    error leaves it as it is. A null [rleData] is dereferenced. *)
Definition compressOrDelta (g : DeltaGenerator) (a : tile_args) (output : bytes)
  : result (DeltaGenerator * bytes * nat) :=
  try r <- createDelta g a;
  match r with
  | (g', Some delta, _) => Ok (g', output ++ delta, length (output ++ delta))
  | (g', None, Some rleData) =>
      match compress (concat (map (fun row => packForNetwork row (ta_mode a)) (dd_rows rleData))) with
      | Some z => Ok (g', output ++ 90 (* 'Z' *) :: z, length (output ++ 90 :: z))
      | None => Ok (g', output, 0%nat)
      end
  | (_, None, None) => Throw undefined
  end.
End generator.
