(* ===== verification/DeltaRle.v ===== *)
(** * Run-length encoding of a row: the encoder and its iterator

    What [initRow] of [kit/Delta.hpp] computes (a bit per pixel that repeats its
    predecessor, and the other pixels), and that [PixIterator] walks through the
    pixels the row was made from. The tile decoder and the delta builder are
    verified against the two functions [rle_bits] and [rle_uniq]. *)

From S2P Require Import Prelude Delta.

(** ** The encoding *)

Fixpoint rle_bits (last : Z) (ps : list Z) : list bool :=
  match ps with [] => [] | p :: ps' => (p =? last) :: rle_bits p ps' end.
Fixpoint rle_uniq (last : Z) (ps : list Z) : list Z :=
  match ps with [] => [] | p :: ps' => if p =? last then rle_uniq p ps' else p :: rle_uniq p ps' end.
Definition last_pix (l0 : Z) (ps : list Z) : Z := default l0 (last ps).

Lemma rle_bits_length l ps : length (rle_bits l ps) = length ps.
Proof. revert l. induction ps as [|p ps IH]; intros l; simpl; [done|]. by rewrite IH. Qed.
Lemma last_pix_cons l0 p ps : last_pix l0 (p :: ps) = last_pix p ps.
Proof. unfold last_pix. destruct ps as [|q ps]; [done|]. simpl. by destruct (last (q :: ps)) eqn:E; [|by apply last_None in E]. Qed.
Lemma rle_bits_app l a b : rle_bits l (a ++ b) = rle_bits l a ++ rle_bits (last_pix l a) b.
Proof.
  revert l. induction a as [|p a IH]; intros l; [done|]. rewrite last_pix_cons. simpl. by rewrite IH.
Qed.
Lemma rle_uniq_app l a b : rle_uniq l (a ++ b) = rle_uniq l a ++ rle_uniq (last_pix l a) b.
Proof.
  revert l. induction a as [|p a IH]; intros l; [done|]. rewrite last_pix_cons. simpl.
  rewrite IH. by destruct (p =? l).
Qed.
Lemma rle_uniq_nil l ps : rle_uniq l ps = [] -> Forall (eq l) ps.
Proof.
  revert l. induction ps as [|p ps IH]; intros l; simpl; [constructor|].
  destruct (Z.eqb_spec p l) as [->|]; [|done]. intros H. constructor; [done|]. by apply IH.
Qed.

(** ** Masks *)

(** [bits] from position [i] on, added to a mask. *)
Fixpoint or_bits (mask i : Z) (bits : list bool) : Z :=
  match bits with
  | [] => mask
  | b :: bs => or_bits (if b then Z.lor mask (2 ^ i) else mask) (i + 1) bs
  end.

Lemma or_bits_testbit mask i bits j :
  0 <= i -> 0 <= j ->
  Z.testbit (or_bits mask i bits) j
  = Z.testbit mask j || ((i <=? j) && nth (Z.to_nat (j - i)) bits false).
Proof.
  revert mask i. induction bits as [|b bs IH]; intros mask i Hi Hj; simpl.
  { destruct (Z.to_nat (j - i)); simpl; by rewrite andb_false_r, orb_false_r. }
  rewrite IH by lia.
  assert (Hb : Z.testbit (if b then Z.lor mask (2 ^ i) else mask) j = Z.testbit mask j || (b && (i =? j))).
  { destruct b; simpl; [|by rewrite orb_false_r]. by rewrite Z.lor_spec, Z.pow2_bits_eqb by lia. }
  rewrite Hb. destruct (Z.eqb_spec i j) as [->|Hne].
  - rewrite Z.sub_diag, Z.leb_refl. simpl. destruct (Z.leb_spec (j + 1) j); [lia|].
    simpl. by rewrite orb_false_r, andb_true_r.
  - rewrite andb_false_r, orb_false_r. f_equal.
    destruct (Z.leb_spec (i + 1) j), (Z.leb_spec i j); try lia. simpl.
    by replace (Z.to_nat (j - i)) with (S (Z.to_nat (j - (i + 1)))) by lia.
Qed.

(** The masks of a row, 64 bits each. *)
Fixpoint masks_of (n : nat) (bits : list bool) : list Z :=
  match n with O => [] | S n' => or_bits 0 0 (take 64 bits) :: masks_of n' (drop 64 bits) end.

Lemma nth_take_bool (bits : list bool) n j : (j < n)%nat -> nth j (take n bits) false = nth j bits false.
Proof.
  intros Hj. rewrite !nth_lookup. by rewrite lookup_take_lt by done.
Qed.

Lemma masks_of_testbit n bits k j :
  (k < n)%nat -> 0 <= j < 64 ->
  Z.testbit (nth k (masks_of n bits) 0) j = nth (64 * k + Z.to_nat j) bits false.
Proof.
  revert bits k. induction n as [|n IH]; intros bits k Hk Hj; [lia|]. destruct k as [|k]; simpl nth.
  - rewrite or_bits_testbit by lia. rewrite Z.testbit_0_l, Z.sub_0_r. destruct (Z.leb_spec 0 j); [|lia].
    simpl. rewrite nth_take_bool by lia. f_equal; lia.
  - rewrite IH by lia. rewrite !nth_lookup, lookup_drop. do 2 f_equal. lia.
Qed.

Lemma masks_of_length n bits : length (masks_of n bits) = n.
Proof. revert bits. induction n as [|n IH]; intros bits; simpl; [done|]. by rewrite IH. Qed.

(** A mask keeps to 64 bits. *)
Lemma high_bits_range x n : 0 <= n -> 0 <= x -> (forall j, n <= j -> Z.testbit x j = false) -> x < 2 ^ n.
Proof.
  intros Hn Hx H. destruct (Z.eq_dec x 0) as [->|Hne]; [by apply Z.pow_pos_nonneg|].
  apply Z.log2_lt_pow2; [lia|]. destruct (Z.lt_ge_cases (Z.log2 x) n) as [?|Hge]; [done|].
  specialize (H _ Hge). rewrite Z.bit_log2 in H by lia. done.
Qed.
Lemma or_bits_nonneg mask i bits : 0 <= mask -> 0 <= or_bits mask i bits.
Proof.
  revert mask i. induction bits as [|b bs IH]; intros mask i Hm; simpl; [done|]. apply IH.
  destruct b; [|done]. apply Z.lor_nonneg. split; [done|]. apply Z.pow_nonneg. lia.
Qed.

(** ** [initPixRowCpu] *)

Definition bit_at (i : Z) : Z := if i <? 64 then 2 ^ i else 0.

Lemma shl1_bit i : 0 <= i < 64 -> shl1 (bit_at i) = bit_at (i + 1).
Proof.
  intros Hi. unfold shl1, bit_at. destruct (Z.ltb_spec i 64); [|lia].
  rewrite Z.shiftl_mul_pow2 by lia. rewrite <- Z.pow_add_r by lia. unfold u64.
  change 18446744073709551616 with (2 ^ 64). destruct (Z.ltb_spec (i + 1) 64).
  - rewrite Z.mod_small; [done|]. split; [apply Z.pow_nonneg; lia|apply Z.pow_lt_mono_r; lia].
  - replace (i + 1) with 64 by lia. by rewrite Z_mod_same_full.
Qed.
Lemma bit_at_zero i : 0 <= i -> (bit_at i =? 0) = (64 <=? i).
Proof.
  intros Hi. unfold bit_at. destruct (Z.ltb_spec i 64), (Z.leb_spec 64 i); try lia.
Qed.

(** How many pixels a run of the inner loop takes. *)
Lemma rle_loop_spec full from i last mask scratch :
  0 <= i <= 64 -> (full = false -> i + Z.of_nat (length from) <= 64) ->
  let n := Nat.min (Z.to_nat (64 - i)) (length from) in
  rle_loop full from (bit_at i) last mask scratch =
    (last_pix last (take n from), or_bits mask i (rle_bits last (take n from)), drop n from,
     scratch ++ rle_uniq last (take n from)).
Proof.
  revert i last mask scratch. induction from as [|p from IH]; intros i last mask scratch Hi Hf; simpl.
  { rewrite Nat.min_0_r. simpl. rewrite app_nil_r. by destruct (full && _). }
  rewrite bit_at_zero by lia. destruct (full && (64 <=? i)) eqn:E.
  { bool_hyps. replace i with 64 by lia. simpl. by rewrite app_nil_r. }
  assert (Hlt : i < 64).
  { destruct full; simpl in E; bool_hyps; [lia|]. specialize (Hf eq_refl). simpl in Hf. lia. }
  replace (Z.to_nat (64 - i)) with (S (Z.to_nat (64 - (i + 1)))) by lia. simpl take. simpl drop.
  rewrite last_pix_cons. simpl rle_bits. simpl rle_uniq. simpl or_bits.
  rewrite shl1_bit by lia. assert (Hf' : full = false -> i + 1 + Z.of_nat (length from) <= 64).
  { intros H. specialize (Hf H). simpl in Hf. lia. }
  destruct (Z.eqb_spec p last) as [->|Hne].
  - rewrite IH by (done || lia). simpl. unfold bit_at. by destruct (Z.ltb_spec i 64); [|lia].
  - rewrite IH by (done || lia). by rewrite <- app_assoc.
Qed.

Lemma rle_masks_spec n from last scratch :
  (length from <= 64 * n)%nat ->
  rle_masks n from last scratch = (masks_of n (rle_bits last from), [], scratch ++ rle_uniq last from).
Proof.
  revert from last scratch. induction n as [|n IH]; intros from last scratch Hn.
  { destruct from; simpl in *; [by rewrite app_nil_r|lia]. }
  simpl rle_masks. change 1 with (bit_at 0) at 1. rewrite rle_loop_spec; [|lia|].
  2:{ intros H. apply Nat.ltb_ge in H. lia. }
  set (k := Nat.min (Z.to_nat (64 - 0)) (length from)).
  assert (Hk : k = Nat.min 64 (length from)) by (unfold k; f_equal; lia).
  assert (Hd : take k from = take 64 from).
  { destruct (Nat.le_ge_cases 64 (length from)); [by replace k with 64%nat by lia|].
    rewrite !take_ge by lia. done. }
  assert (Hd' : drop k from = drop 64 from).
  { destruct (Nat.le_ge_cases 64 (length from)); [by replace k with 64%nat by lia|].
    rewrite !drop_ge by lia. done. }
  rewrite Hd, Hd', IH by (rewrite length_drop; lia).
  assert (Hb : rle_bits last from = rle_bits last (take 64 from) ++ rle_bits (last_pix last (take 64 from)) (drop 64 from)).
  { by rewrite <- rle_bits_app, take_drop. }
  rewrite <- app_assoc, <- rle_uniq_app, take_drop. repeat f_equal. simpl. rewrite Hb. f_equal.
  - f_equal. destruct (Nat.le_ge_cases 64 (length from)).
    + rewrite take_app_length'; [done|]. rewrite rle_bits_length, length_take. lia.
    + rewrite (drop_ge from) by lia. simpl. rewrite app_nil_r, (take_ge (rle_bits _ _)); [done|].
      rewrite rle_bits_length, length_take. lia.
  - f_equal. destruct (Nat.le_ge_cases 64 (length from)).
    + rewrite drop_app_length'; [done|]. rewrite rle_bits_length, length_take. lia.
    + rewrite (drop_ge from) by lia. simpl. rewrite app_nil_r, (drop_ge (rle_bits _ _)); [done|].
      rewrite rle_bits_length, length_take. lia.
Qed.

Lemma initRow_spec from :
  (length from <= 256)%nat ->
  initRow from = {| _rleMask := masks_of 4 (rle_bits 0 from); _rleData := rle_uniq 0 from |}.
Proof. intros H. unfold initRow. rewrite rle_masks_spec by lia. by rewrite app_nil_r. Qed.

(** ** [PixIterator] *)

(** The iterator shows the pixels [l], one per call of [next]. *)
Fixpoint reads (masks : list Z) (it : PixIterator) (l : list Z) : Prop :=
  match l with [] => True | p :: l' => pi_lastPix it = p /\ reads masks (pi_next masks it) l' end.

(** Before its next pixel, at position [x]. *)
Record it_before (masks : list Z) (it : PixIterator) (x : nat) : Prop := {
  ib_mask : pi_mask it = Z.to_nat ((Z.of_nat x + 63) / 64);
  ib_bit : pi_bitToCheck it = if Z.of_nat x mod 64 =? 0 then 0 else 2 ^ (Z.of_nat x mod 64);
  ib_last : Z.of_nat x mod 64 <> 0 -> pi_lastMask it = nth (Z.to_nat (Z.of_nat x / 64)) masks 0 }.

Lemma land_pow2 m i : 0 <= i -> (Z.land m (2 ^ i) =? 0) = negb (Z.testbit m i).
Proof.
  intros Hi. destruct (Z.testbit m i) eqn:E; simpl.
  - apply Z.eqb_neq. intros H. apply (f_equal (fun z => Z.testbit z i)) in H.
    rewrite Z.land_spec, Z.testbit_0_l, E, Z.pow2_bits_true in H by lia. done.
  - apply Z.eqb_eq. apply Z.bits_inj'. intros j Hj. rewrite Z.land_spec, Z.testbit_0_l, Z.pow2_bits_eqb by lia.
    destruct (Z.eqb_spec i j) as [->|]; [by rewrite E|]. apply andb_false_r.
Qed.

Lemma pi_next_spec bits it x rest p u us :
  it_before (masks_of 4 bits) it x -> (x < 256)%nat -> pi_rlePtr it = u :: us ->
  bits !! x = Some (p =? pi_lastPix it) -> rle_uniq (pi_lastPix it) (p :: rest) = u :: us ->
  let it' := pi_next (masks_of 4 bits) it in
  it_before (masks_of 4 bits) it' (S x) /\ pi_lastPix it' = p /\ pi_rlePtr it' = rle_uniq p rest.
Proof.
  intros [Hm Hb Hl] Hx Hp Hbit Hu. unfold pi_next. rewrite Hp. set (i := Z.of_nat x mod 64) in *.
  assert (Hi : 0 <= i < 64) by (apply Z.mod_pos_bound; lia).
  pose proof (Z.div_mod (Z.of_nat x) 64 ltac:(lia)) as Hdm. fold i in Hdm.
  set (q := Z.of_nat x / 64) in *. assert (Hq : 0 <= q < 4) by lia.
  assert (Hdiv : forall a b r, a = 64 * b + r -> 0 <= r < 64 -> a / 64 = b).
  { intros a b r -> Hr. symmetry. by apply (Z.div_unique _ _ _ r); [left|]. }
  assert (Hsel : (if pi_bitToCheck it =? 0 then
            if (pi_mask it <? 4)%nat then (S (pi_mask it), nth (pi_mask it) (masks_of 4 bits) 0, 1)
            else (pi_mask it, 18446744073709551615, 1)
          else (pi_mask it, pi_lastMask it, pi_bitToCheck it)) = (S (Z.to_nat q), nth (Z.to_nat q) (masks_of 4 bits) 0, bit_at i)).
  { rewrite Hb, Hm. destruct (Z.eqb_spec i 0) as [H0|H0].
    - rewrite Z.eqb_refl, H0, (Hdiv _ q 63) by lia.
      by destruct (Nat.ltb_spec (Z.to_nat q) 4); [|lia].
    - pose proof (Z.pow_pos_nonneg 2 i). destruct (Z.eqb_spec (2 ^ i) 0); [lia|]. rewrite Hl by done.
      unfold bit_at. destruct (Z.ltb_spec i 64); [|lia]. rewrite (Hdiv _ (q + 1) (i - 1)) by lia.
      repeat f_equal. lia. }
  rewrite Hsel. clear Hsel. assert (Ht : Z.land (nth (Z.to_nat q) (masks_of 4 bits) 0) (bit_at i) =? 0 = negb (p =? pi_lastPix it)).
  { unfold bit_at. destruct (Z.ltb_spec i 64); [|lia]. rewrite land_pow2, masks_of_testbit by lia. f_equal.
    rewrite nth_lookup. replace (64 * Z.to_nat q + Z.to_nat i)%nat with x by lia. by rewrite Hbit. }
  rewrite Ht, shl1_bit by lia. simpl in Hu. split; [|].
  - constructor; cbn [pi_mask pi_bitToCheck pi_lastMask].
    + rewrite (Hdiv _ (q + 1) i) by lia. lia.
    + unfold bit_at. destruct (Z.ltb_spec (i + 1) 64).
      * replace (Z.of_nat (S x) mod 64) with (i + 1); [by destruct (Z.eqb_spec (i + 1) 0); [lia|]|].
        apply (Z.mod_unique_pos _ _ q); lia.
      * replace (Z.of_nat (S x) mod 64) with 0; [done|]. apply (Z.mod_unique_pos _ _ (q + 1)); lia.
    + intros Hn. f_equal. destruct (Z.eq_dec i 63) as [E|E].
      * destruct Hn. symmetry. apply (Z.mod_unique_pos _ _ (q + 1)); lia.
      * f_equal. rewrite (Hdiv _ q (i + 1)); lia.
  - cbn [pi_lastPix pi_rlePtr]. destruct (Z.eqb_spec p (pi_lastPix it)) as [E|E]; simpl.
    + split; [done|]. by rewrite <- Hu.
    + by injection Hu.
Qed.

(** An iterator at its end repeats its last pixel. *)
Lemma reads_end masks it l : pi_rlePtr it = [] -> Forall (eq (pi_lastPix it)) l -> reads masks it l.
Proof.
  intros Hp. induction 1 as [|p l E _ IH]; simpl; [done|]. split; [done|]. unfold pi_next. by rewrite Hp.
Qed.

Lemma reads_rest bits it x p rest :
  it_before (masks_of 4 bits) it x -> (x + S (length rest) <= 256)%nat ->
  (forall k, (x + k < 256)%nat -> bits !! (x + k)%nat = rle_bits (pi_lastPix it) (p :: rest) !! k) ->
  pi_rlePtr it = rle_uniq (pi_lastPix it) (p :: rest) ->
  reads (masks_of 4 bits) (pi_next (masks_of 4 bits) it) (p :: rest).
Proof.
  revert it x p. induction rest as [|p' rest IH]; intros it x p Hi Hx Hb Hp; simpl length in Hx;
    (destruct (rle_uniq (pi_lastPix it) (p :: _)) as [|u us] eqn:Hu;
     [apply rle_uniq_nil in Hu; unfold pi_next at 1; rewrite Hp; by apply reads_end|]).
  - pose proof (Hb 0%nat ltac:(lia)) as H0. rewrite Nat.add_0_r in H0.
    destruct (pi_next_spec bits it x [] p u us Hi ltac:(lia) Hp H0 Hu) as (_ & E & _). by split.
  - pose proof (Hb 0%nat ltac:(lia)) as H0. rewrite Nat.add_0_r in H0.
    destruct (pi_next_spec bits it x (p' :: rest) p u us Hi ltac:(lia) Hp H0 Hu) as (Hi' & E & Ep). split; [done|].
    apply (IH _ (S x)); [done|lia| |by rewrite E].
    intros k Hk. rewrite E. specialize (Hb (S k) ltac:(lia)). rewrite Nat.add_succ_r in Hb. simpl in Hb |- *.
    exact Hb.
Qed.

(** The iterator of a row shows the pixels it was made from. *)
Lemma reads_initRow from :
  (length from <= 256)%nat -> reads (_rleMask (initRow from)) (PixIterator_new (initRow from)) from.
Proof.
  intros H. unfold PixIterator_new. rewrite initRow_spec by done. cbn [_rleMask _rleData].
  destruct from as [|p rest]; [done|]. apply (reads_rest _ _ 0); [|done|done|done].
  by constructor.
Qed.

Lemma reads_inj masks it a b : reads masks it a -> reads masks it b -> length a = length b -> a = b.
Proof.
  revert it b. induction a as [|p a IH]; intros it [|q b] Ha Hb Hl; try done.
  destruct Ha as [Ep Ha], Hb as [Eq Hb]. f_equal; [congruence|]. eapply IH; eauto.
Qed.

Lemma row_identical_eq a b : row_identical a b = true <-> a = b.
Proof.
  unfold row_identical. destruct a as [ma da], b as [mb db]. simpl. split.
  - intros H. bool_hyps. by destruct H as [[_ ->] ->].
  - intros [= -> ->]. by rewrite Nat.eqb_refl, !bool_decide_eq_true_2.
Qed.

(** Rows of one width are identical when their pixels are. *)
Lemma row_identical_pixels a b :
  length a = length b -> (length a <= 256)%nat -> row_identical (initRow a) (initRow b) = bool_decide (a = b).
Proof.
  intros Hl Ha. apply eq_true_iff_eq. rewrite row_identical_eq, bool_decide_eq_true. split; [|by intros ->].
  intros E. pose proof (reads_initRow a Ha) as H1. rewrite E in H1.
  eapply reads_inj; [exact H1|apply reads_initRow; lia|done].
Qed.
