(* ===== verification/DeltaSpec.v ===== *)
(** * What a delta says: the commands and their effect on the rows

    The output of [makeDelta] ([kit/Delta.hpp]) is a list of commands (copy rows
    of the old tile, overwrite a run of pixels); executed on the rows of the old
    tile they give the rows of the new one. *)

From stdpp Require Import sorting.
From S2P Require Import Prelude Delta DeltaRle.

(** ** Commands *)

Inductive cmd :=
| Copy (count src dest : nat)
| Run (row col : nat) (pixels : list Z).

Definition enc_cmd (mode : LibreOfficeKitTileMode) (c : cmd) : bytes :=
  match c with
  | Copy count src dest => [99; Z.of_nat count; Z.of_nat src; Z.of_nat dest]
  | Run row col px => [100; Z.of_nat row; Z.of_nat col; Z.of_nat (length px)] ++ copy_row px mode
  end.
Definition enc_cmds (mode : LibreOfficeKitTileMode) (cs : list cmd) : bytes := concat (map (enc_cmd mode) cs).

(** [px] written over [l] from [k] on. *)
Definition splice {A} (l : list A) (k : nat) (px : list A) : list A := take k l ++ px ++ drop (k + length px) l.

Definition exec_cmd (old : list (list Z)) (c : cmd) (rows : list (list Z)) : list (list Z) :=
  match c with
  | Copy count src dest => splice rows dest (take count (drop src old))
  | Run row col px => alter (fun r => splice r col px) row rows
  end.
Definition exec_cmds (old : list (list Z)) (cs : list cmd) (rows : list (list Z)) : list (list Z) :=
  fold_left (fun rs c => exec_cmd old c rs) cs rows.

(** A command the decoder can take: in the tile, its fields bytes. *)
Definition wf_cmd (w h : nat) (c : cmd) : Prop :=
  match c with
  | Copy count src dest => (count <= 255 /\ src + count <= h /\ dest + count <= h)%nat
  | Run row col px => (row < h /\ col + length px <= w /\ length px <= 254)%nat
  end.

Lemma enc_cmds_app mode a b : enc_cmds mode (a ++ b) = enc_cmds mode a ++ enc_cmds mode b.
Proof. unfold enc_cmds. by rewrite map_app, concat_app. Qed.
Lemma enc_cmds_one mode c : enc_cmds mode [c] = enc_cmd mode c.
Proof. unfold enc_cmds. simpl. by rewrite app_nil_r. Qed.
Lemma exec_cmds_app old a b rows : exec_cmds old (a ++ b) rows = exec_cmds old b (exec_cmds old a rows).
Proof. apply fold_left_app. Qed.
Lemma splice_length {A} (l : list A) k px : (k + length px <= length l)%nat -> length (splice l k px) = length l.
Proof. intros H. unfold splice. rewrite !length_app, length_take, length_drop. lia. Qed.
(** What is written further right joins what was written before. *)
Lemma splice_splice {A} (l : list A) k a b :
  (k <= length l)%nat -> splice (splice l k a) (k + length a) b = splice l k (a ++ b).
Proof.
  intros Hk. unfold splice. rewrite (length_app a b).
  rewrite (app_assoc (take k l) a). rewrite take_app_length' by (rewrite length_app, length_take; lia).
  rewrite <- !app_assoc. do 3 f_equal.
  rewrite (app_assoc (take k l) a).
  rewrite drop_app_ge by (rewrite length_app, length_take; lia). rewrite length_app, length_take, drop_drop.
  f_equal. lia.
Qed.
Lemma splice_nil {A} (l : list A) k : splice l k [] = l.
Proof. unfold splice. simpl. by rewrite Nat.add_0_r, take_drop. Qed.

Lemma exec_cmds_length old w h cs rows :
  length old = h -> length rows = h -> Forall (wf_cmd w h) cs -> length (exec_cmds old cs rows) = h.
Proof.
  intros Ho Hr Hwf. revert rows Hr. induction Hwf as [|c cs Hc _ IH]; intros rows Hr; [done|].
  simpl. apply IH. destruct c as [count src dest|row col px]; simpl in Hc |- *; [|by rewrite length_alter].
  rewrite splice_length; [done|]. rewrite length_take, length_drop. lia.
Qed.

(** A mix of new and old: the first [k] elements of [new], then those of [old]. *)
Definition upto {A} (k : nat) (new old : list A) : list A := take k new ++ drop k old.

Lemma upto_splice {A} (new old : list A) k n :
  length new = length old -> (k + n <= length new)%nat ->
  splice (upto k new old) k (take n (drop k new)) = upto (k + n) new old.
Proof.
  intros Hl Hn. unfold splice, upto. rewrite take_app_length' by (rewrite length_take; lia).
  rewrite app_assoc, <- take_take_drop. f_equal.
  rewrite length_take, length_drop, drop_app_ge by (rewrite length_take; lia).
  rewrite length_take, drop_drop. f_equal. lia.
Qed.
Lemma upto_length {A} k (new old : list A) : length new = length old -> length (upto k new old) = length old.
Proof. intros H. unfold upto. rewrite length_app, length_take, length_drop. lia. Qed.
Lemma upto_same {A} (new old : list A) k x :
  new !! k = Some x -> old !! k = Some x -> upto (S k) new old = upto k new old.
Proof.
  intros Hn Ho. unfold upto. rewrite (take_S_r _ _ _ Hn), <- app_assoc. simpl.
  by rewrite (drop_S _ _ _ Ho).
Qed.
(** Where old and new agree there is nothing to write. *)
Lemma upto_run {A} (new old : list A) k n :
  take n (drop k old) = take n (drop k new) -> upto (k + n) new old = upto k new old.
Proof.
  intros H. unfold upto. rewrite <- take_take_drop, <- H, <- app_assoc. f_equal.
  rewrite <- (drop_drop old). by rewrite take_drop.
Qed.
Lemma splice_one {A} (l : list A) k x : (k < length l)%nat -> splice l k [x] = <[k := x]> l.
Proof. intros H. unfold splice. rewrite insert_take_drop by done. simpl. do 3 f_equal. lia. Qed.
Lemma upto_insert {A} (new old : list A) k x :
  length new = length old -> new !! k = Some x -> <[k := x]> (upto k new old) = upto (S k) new old.
Proof.
  intros Hl Hk. pose proof (lookup_lt_Some _ _ _ Hk). rewrite <- splice_one by (rewrite upto_length; lia).
  replace (S k) with (k + 1)%nat by lia. rewrite <- (upto_splice new old k 1) by lia. by rewrite (drop_S _ _ _ Hk).
Qed.
Lemma upto_lookup {A} (new old : list A) k : length new = length old -> upto k new old !! k = old !! k.
Proof.
  intros Hl. unfold upto. destruct (Nat.le_gt_cases k (length new)).
  - rewrite lookup_app_r by (rewrite length_take; lia). rewrite lookup_drop, length_take. f_equal. lia.
  - rewrite !lookup_ge_None_2; [done|lia|]. rewrite length_app, length_take, length_drop. lia.
Qed.

Lemma list_insert_alter_same {A} (l : list A) i f x : <[i := x]> (alter f i l) = <[i := x]> l.
Proof. revert i. induction l as [|a l IH]; intros [|i]; simpl; [done..|]. f_equal. apply IH. Qed.

(** ** [diffRowTo] *)

Section diff.
Variables om cm : list Z.

Lemma skip_same_spec n old cur l1 l2 :
  reads om old l1 -> reads cm cur l2 -> length l1 = n -> length l2 = n ->
  exists k old' cur',
    skip_same om cm n old cur = (k, old', cur') /\ (k <= n)%nat /\ take k l1 = take k l2 /\
    reads om old' (drop k l1) /\ reads cm cur' (drop k l2) /\
    ((k < n)%nat -> pi_identical old' cur' = false).
Proof.
  revert old cur l1 l2. induction n as [|n IH]; intros old cur [|p l1] [|q l2] H1 H2 E1 E2; try done.
  - exists 0%nat, old, cur. repeat split; lia.
  - simpl. destruct H1 as [<- H1], H2 as [<- H2]. destruct (pi_identical old cur) eqn:E.
    + destruct (IH _ _ l1 l2 H1 H2) as (k & o' & c' & -> & Hk & Ht & Ho & Hc & Hn); [simpl in E1; lia|simpl in E2; lia|].
      exists (S k), o', c'. simpl. repeat split; [lia| |done|done|intros; apply Hn; lia].
      unfold pi_identical in E. apply Z.eqb_eq in E. by rewrite E, Ht.
    + exists 0%nat, old, cur. by repeat split; try lia.
Qed.

Lemma take_diff_spec n d old cur l1 l2 :
  reads om old l1 -> reads cm cur l2 -> length l1 = n -> length l2 = n -> (d <= 254)%nat ->
  exists scratch old' cur',
    let k := length scratch in
    take_diff om cm n d old cur = (scratch, old', cur') /\ (k <= n)%nat /\ (d + k <= 254)%nat /\
    scratch = take k l2 /\ reads om old' (drop k l1) /\ reads cm cur' (drop k l2) /\
    ((0 < n)%nat -> d = 0%nat -> (0 < k)%nat).
Proof.
  revert d old cur l1 l2. induction n as [|n IH]; intros d old cur [|p l1] [|q l2] H1 H2 E1 E2 Hd; try done.
  - exists [], old, cur. simpl. repeat split; lia.
  - simpl. pose proof H1 as H1'. pose proof H2 as H2'. destruct H1 as [<- H1], H2 as [<- H2].
    destruct ((negb (pi_identical old cur) || (d <? 3)%nat) && (d <? 254)%nat) eqn:E.
    + bool_hyps. destruct (IH (S d) _ _ l1 l2 H1 H2) as (s & o' & c' & -> & Hk & Hd' & Hs & Ho & Hc & _);
        [simpl in E1; lia|simpl in E2; lia|lia|].
      exists (pi_lastPix cur :: s), o', c'. simpl. repeat split; [lia|lia|by rewrite <- Hs|done|done|lia].
    + exists [], old, cur. simpl. repeat split; [lia|lia|done..|intros _ ->].
      simpl in E. by rewrite orb_true_r in E.
Qed.

Lemma diff_loop_spec fuel mode width x y old cur orow crow output :
  (width - x <= fuel)%nat -> (y < 256)%nat -> (width <= 256)%nat -> (x <= width)%nat ->
  length orow = width -> length crow = width ->
  reads om old (drop x orow) -> reads cm cur (drop x crow) ->
  exists cs,
    diff_loop om cm fuel mode width x (Z.of_nat y) old cur output = Some (output ++ enc_cmds mode cs) /\
    Forall (fun c => exists col px, c = Run y col px /\ (col + length px <= width)%nat /\ (length px <= 254)%nat) cs /\
    forall rows, rows !! y = Some (upto x crow orow) ->
      forall o, exec_cmds o cs rows = <[y := crow]> rows.
Proof.
  revert x old cur output. induction fuel as [|fuel IH]; intros x old cur output Hf Hy Hw Hx Lo Lc Ro Rc; simpl.
  { destruct (Nat.ltb_spec x width); [lia|]. exists []. simpl. rewrite app_nil_r. repeat split; [by constructor|].
    intros rows Hr o. rewrite list_insert_id; [done|]. rewrite Hr. f_equal. unfold upto.
    rewrite take_ge, drop_ge by lia. apply app_nil_r. }
  destruct (Nat.ltb_spec x width) as [Hlt|Hge].
  2:{ exists []. simpl. rewrite app_nil_r. repeat split; [by constructor|].
    intros rows Hr o. rewrite list_insert_id; [done|]. rewrite Hr. f_equal. unfold upto.
    rewrite take_ge, drop_ge by lia. apply app_nil_r. }
  destruct (skip_same_spec (width - x) old cur (drop x orow) (drop x crow) Ro Rc) as (k & o1 & c1 & -> & Hk & Ht & Ro1 & Rc1 & Hn);
    [rewrite length_drop; lia..|].
  rewrite drop_drop in Ro1, Rc1.
  destruct (take_diff_spec (width - (x + k)) 0 o1 c1 (drop (x + k) orow) (drop (x + k) crow) Ro1 Rc1)
    as (s & o2 & c2 & -> & Hs & Hs254 & Es & Ro2 & Rc2 & Hpos); [rewrite length_drop; lia|rewrite length_drop; lia|lia|].
  rewrite drop_drop in Ro2, Rc2.
  rewrite <- (upto_run crow orow x k) by done. set (x1 := (x + k)%nat) in *.
  assert (Hx1 : (x1 + length s <= width)%nat) by lia.
  match goal with |- context [diff_loop _ _ fuel _ _ _ _ _ _ ?o] => set (out := o) end.
  destruct (IH (x1 + length s)%nat o2 c2 out) as (cs & -> & Hcs & Hex); try done; [destruct (Nat.eq_dec k 0%nat); lia|].
  subst out.
  destruct (Nat.ltb_spec 0 (length s)) as [Hp|Hp].
  - exists (Run y x1 s :: cs). split; [|split].
    + unfold enc_cmds. simpl. rewrite !u8_id by (unfold is_byte; lia). by rewrite <- !app_assoc.
    + constructor; [by exists x1, s|done].
    + intros rows Hr o. simpl. rewrite (Hex (alter _ y rows)).
      * apply list_insert_alter_same.
      * rewrite list_lookup_alter_eq, Hr. simpl. f_equal. rewrite Es at 1. apply upto_splice; lia.
  - exists cs. split; [done|split; [done|]]. intros rows Hr o. apply Hex.
    by replace (x1 + length s)%nat with x1 by lia.
Qed.

(** Running [diffRowTo] appends runs that turn the old row into the new one. *)
End diff.

Lemma diffRowTo_spec orow crow width y output mode :
  length orow = width -> length crow = width -> (width <= 256)%nat -> (y < 256)%nat ->
  exists cs,
    diffRowTo (initRow orow) (initRow crow) width (Z.of_nat y) output mode = Some (output ++ enc_cmds mode cs) /\
    Forall (fun c => exists col px, c = Run y col px /\ (col + length px <= width)%nat /\ (length px <= 254)%nat) cs /\
    forall rows o, rows !! y = Some orow -> exec_cmds o cs rows = <[y := crow]> rows.
Proof.
  intros Lo Lc Hw Hy. unfold diffRowTo.
  destruct (diff_loop_spec (_rleMask (initRow orow)) (_rleMask (initRow crow)) width mode width 0 y
    (PixIterator_new (initRow orow)) (PixIterator_new (initRow crow)) orow crow output) as (cs & -> & Hcs & Hex);
    try lia; [apply (reads_initRow orow); lia|apply (reads_initRow crow); lia|].
  exists cs. split; [done|split; [done|]]. intros rows o Hr. by apply Hex.
Qed.

(** ** [makeDelta] *)

Section rows.
Variables (mode : LibreOfficeKitTileMode) (w h : nat) (prev cur : list (list Z)).
Hypothesis (Hw : (w <= 256)%nat) (Hh : (h <= 256)%nat).
Hypothesis (Lp : length prev = h) (Lc : length cur = h).
Hypothesis (Wp : Forall (fun r => length r = w) prev) (Wc : Forall (fun r => length r = w) cur).

(** Before row [y]: the commands so far make the first [y] rows new, and the
    last copy command can only be extended if nothing follows it. *)
Definition delta_inv (y : nat) (s : delta_state) : Prop :=
  exists cs,
    ds_output s = enc_cmds mode cs /\ Forall (wf_cmd w h) cs /\
    exec_cmds prev cs prev = upto y cur prev /\
    (ds_lastCopy s = 0%nat \/
     exists cs1 c sr d cs2, cs = cs1 ++ Copy c sr d :: cs2 /\ ds_lastCopy s = S (length (enc_cmds mode cs1)) /\
    ((cs2 = [] /\ (d + c <= y)%nat) \/ (d + c < y)%nat)).

Lemma delta_inv_start : delta_inv 0 {| ds_output := []; ds_lastMatchOffset := 0; ds_lastCopy := 0 |}.
Proof. exists []. repeat split; [constructor|by left]. Qed.

(** A row that is the same needs nothing. *)
Lemma delta_inv_same y s r : prev !! y = Some r -> cur !! y = Some r -> delta_inv y s -> delta_inv (S y) s.
Proof.
  intros Hp Hc (cs & Ho & Hwf & Hex & Hk). exists cs. repeat split; [done|done|by rewrite (upto_same _ _ _ r)|].
  destruct Hk as [|(cs1 & c & sr & d & cs2 & E & Ek & Hd)]; [by left|right]. exists cs1, c, sr, d, cs2.
  repeat split; [done|done|]. destruct Hd as [[-> ?]|?]; [left; split; [done|lia]|right; lia].
Qed.

(** Commands for row [y] only, after the last copy. *)
Lemma delta_inv_runs y s r p o cs' :
  prev !! y = Some p -> cur !! y = Some r -> delta_inv y s ->
  Forall (wf_cmd w h) cs' -> (forall rows o, rows !! y = Some p -> exec_cmds o cs' rows = <[y := r]> rows) ->
  delta_inv (S y) {| ds_output := ds_output s ++ enc_cmds mode cs'; ds_lastMatchOffset := o; ds_lastCopy := ds_lastCopy s |}.
Proof.
  intros Hp Hc (cs & Ho & Hwf & Hex & Hk) Hwf' Hex'. exists (cs ++ cs'). cbn [ds_output ds_lastCopy].
  repeat split; [by rewrite Ho, enc_cmds_app|by apply Forall_app| |].
  - rewrite exec_cmds_app, Hex, Hex' by (rewrite upto_lookup by lia; done). by apply upto_insert; [lia|].
  - destruct Hk as [|(cs1 & c & sr & d & cs2 & -> & Ek & Hd)]; [by left|right].
    exists cs1, c, sr, d, (cs2 ++ cs'). rewrite <- app_assoc. repeat split; [done|]. right. lia.
Qed.

Lemma enc_copy_at cs1 c sr d cs2 :
  let o := enc_cmds mode (cs1 ++ Copy c sr d :: cs2) in
  let k := S (length (enc_cmds mode cs1)) in
  byte_at o k = Z.of_nat c /\ byte_at o (k + 1) = Z.of_nat sr /\ byte_at o (k + 2) = Z.of_nat d /\
  <[k := Z.of_nat (S c)]> o = enc_cmds mode (cs1 ++ Copy (S c) sr d :: cs2).
Proof.
  cbv zeta. rewrite !enc_cmds_app. unfold byte_at. set (a := enc_cmds mode cs1).
  change (enc_cmds mode (Copy ?c sr d :: cs2)) with (99 :: Z.of_nat c :: Z.of_nat sr :: Z.of_nat d :: enc_cmds mode cs2).
  rewrite !app_nth2 by lia. repeat split.
  - by replace (S (length a) - length a)%nat with 1%nat by lia.
  - by replace (S (length a) + 1 - length a)%nat with 2%nat by lia.
  - by replace (S (length a) + 2 - length a)%nat with 3%nat by lia.
  - replace (S (length a)) with (length a + 1)%nat by lia. by rewrite insert_app_r.
Qed.

(** A row found in the old tile. *)
Lemma delta_inv_copy y s m r :
  prev !! m = Some r -> cur !! y = Some r -> delta_inv y s -> delta_inv (S y) (copy_command h s m y).
Proof.
  intros Hm Hc Hinv. pose proof (lookup_lt_Some _ _ _ Hm) as Hmh. pose proof (lookup_lt_Some _ _ _ Hc) as Hyh.
  unfold copy_command. destruct (_ && _ && _ && _) eqn:E.
  - bool_hyps. destruct E as [[[Hk E1] E2] E3].
    destruct Hinv as (cs & Ho & Hwf & Hex & [Hk0|(cs1 & c & sr & d & cs2 & -> & Ek & Hd)]); [lia|].
    destruct (enc_copy_at cs1 c sr d cs2) as (B0 & B1 & B2 & B3).
    rewrite Ho, Ek, B0 in *. rewrite B1, B2 in *. destruct Hd as [[-> Hd]|?]; [|lia].
    replace (u8 (Z.of_nat c + 1)) with (Z.of_nat (S c)) by (rewrite u8_id; unfold is_byte; lia).
    rewrite B3. exists (cs1 ++ [Copy (S c) sr d]). cbn [ds_output ds_lastCopy].
    apply Forall_app in Hwf as [Hwf1 Hwf2]. apply Forall_singleton in Hwf2. simpl in Hwf2.
    repeat split.
    + apply Forall_app. split; [done|]. apply Forall_singleton. simpl. lia.
    + rewrite exec_cmds_app in Hex |- *. simpl in Hex |- *.
      assert (Hr : drop sr prev !! c = Some r) by (rewrite lookup_drop; rewrite <- Hm; f_equal; lia).
      rewrite (take_S_r _ _ _ Hr). rewrite <- splice_splice.
      * rewrite Hex, length_take, length_drop. replace (d + _)%nat with y by lia.
        rewrite splice_one by (rewrite upto_length by lia; lia). apply upto_insert; [lia|done].
      * rewrite (exec_cmds_length _ w h); [lia|done..].
    + right. exists cs1, (S c), sr, d, []. repeat split. left. split; [done|lia].
  - rewrite !u8_id by (unfold is_byte; lia).
    destruct Hinv as (cs & Ho & Hwf & Hex & Hk). exists (cs ++ [Copy 1 m y]). cbn [ds_output ds_lastCopy].
    repeat split.
    + by rewrite Ho, enc_cmds_app.
    + apply Forall_app. split; [done|]. apply Forall_singleton. simpl. lia.
    + rewrite exec_cmds_app, Hex. simpl. rewrite (drop_S _ _ _ Hm). simpl.
      rewrite take_0, splice_one by (rewrite upto_length by lia; lia). apply upto_insert; [lia|done].
    + right. exists cs, 1%nat, m, y, []. rewrite Ho. repeat split. left. split; [done|lia].
Qed.

Lemma find_match_spec rows n row y offset yn m :
  find_match n rows row y offset yn = Some m -> rows !! m = Some row.
Proof.
  revert yn. induction n as [|n IH]; intros yn H; [done|]. cbn [find_match] in H. cbv zeta in H.
  destruct (rows !! Z.to_nat _) as [p|] eqn:E; [|done]. destruct (row_identical p row) eqn:Ei; [|by eapply (IH _ H)].
  apply row_identical_eq in Ei. congruence.
Qed.

Lemma initRow_inj a b : length a = w -> length b = w -> initRow a = initRow b -> a = b.
Proof.
  intros Ha Hb E. pose proof (row_identical_pixels a b ltac:(lia) ltac:(lia)) as H.
  rewrite E in H. rewrite (proj2 (row_identical_eq (initRow b) (initRow b)) eq_refl) in H.
  symmetry in H. by apply bool_decide_eq_true in H.
Qed.

Lemma delta_row_inv y s p r :
  prev !! y = Some p -> cur !! y = Some r -> delta_inv y s ->
  exists s', delta_row (map initRow prev) w mode s y (initRow p) (initRow r) = Some s' /\ delta_inv (S y) s'.
Proof.
  intros Hp Hr Hinv. pose proof (lookup_lt_Some _ _ _ Hp) as Hy.
  pose proof (Forall_lookup_1 _ _ _ _ Wp Hp) as Wpy. pose proof (Forall_lookup_1 _ _ _ _ Wc Hr) as Wcy.
  unfold delta_row. rewrite row_identical_pixels by (simpl in *; lia). case_bool_decide as E.
  { subst r. exists s. split; [done|]. by eapply delta_inv_same. }
  rewrite length_map, Lp. destruct (find_match _ _ _ _ _ _) as [m|] eqn:Em.
  - eexists. split; [done|]. apply find_match_spec in Em. rewrite list_lookup_fmap in Em.
    apply fmap_Some in Em as (q & Hq & Eq). apply (delta_inv_copy y s m r); [|done..]. rewrite Hq. f_equal.
    pose proof (Forall_lookup_1 _ _ _ _ Wp Hq). symmetry. by apply initRow_inj.
  - destruct (diffRowTo_spec p r w y (ds_output s) mode) as (cs & -> & Hcs & Hex); [done|done|done|lia|].
    eexists. split; [done|]. simpl. apply (delta_inv_runs y s r p); [done..| |exact Hex].
    eapply Forall_impl; [exact Hcs|]. intros c (col & px & -> & ? & ?). simpl. lia.
Qed.

Lemma delta_rows_inv y s :
  (y <= h)%nat -> delta_inv y s ->
  exists s', delta_rows (map initRow prev) w mode s y (drop y (map initRow prev)) (drop y (map initRow cur)) = Some s'
             /\ delta_inv h s'.
Proof.
  intros Hy. remember (h - y)%nat as n eqn:En. revert y s Hy En. induction n as [|n IH]; intros y s Hy En Hinv.
  { replace y with h in * by lia. rewrite drop_ge by (rewrite length_map; lia). by exists s. }
  destruct (lookup_lt_is_Some_2 prev y ltac:(lia)) as [p Hp].
  destruct (lookup_lt_is_Some_2 cur y ltac:(lia)) as [r Hr].
  destruct (delta_row_inv y s p r Hp Hr Hinv) as (s' & Es & Hinv').
  rewrite (drop_S (map initRow prev) (initRow p) y) by (by rewrite list_lookup_fmap, Hp).
  rewrite (drop_S (map initRow cur) (initRow r) y) by (by rewrite list_lookup_fmap, Hr).
  simpl. rewrite Es. simpl. apply IH; [lia|lia|done].
Qed.
End rows.

(** A tile's [DeltaData] made from rows of pixels. *)
Definition holds (dd : DeltaData) (w h : nat) (rows : list (list Z)) : Prop :=
  dd_width dd = w /\ dd_height dd = h /\ dd_rows dd = map initRow rows /\
  length rows = h /\ Forall (fun r => length r = w) rows.

(** The commands of a delta, executed on the old rows, give the new rows. *)
Lemma delta_output_spec mode w h pd cd prev cur :
  (w <= 256)%nat -> (h <= 256)%nat -> holds pd w h prev -> holds cd w h cur ->
  exists cs, delta_output pd cd mode = Some (enc_cmds mode cs) /\ Forall (wf_cmd w h) cs /\
    exec_cmds prev cs prev = cur.
Proof.
  intros Hw Hh (Wp & Hp & Rp & Lp & Fp) (Wc & Hc & Rc & Lc & Fc).
  destruct (delta_rows_inv mode w h prev cur Hw Hh Lp Lc Fp Fc 0 {| ds_output := []; ds_lastMatchOffset := 0; ds_lastCopy := 0 |})
    as (s & Es & cs & Ho & Hwf & Hex & _); [lia|apply delta_inv_start|].
  exists cs. unfold delta_output. rewrite Rp, Rc, Wp. rewrite !drop_0 in Es. rewrite Es. simpl.
  repeat split; [by rewrite Ho|done|]. rewrite Hex. unfold upto. rewrite take_ge, drop_ge by lia. apply app_nil_r.
Qed.

(** ** The cache *)

Abbreviation entries := (gmap TileLocation DeltaData).

Lemma foldr_delete_lookup (m : entries) (l : list (TileLocation * DeltaData)) k :
  foldr (fun e m => delete e.1 m) m l !! k = if decide (k ∈ l.*1) then None else m !! k.
Proof.
  induction l as [|e l IH]; [done|]. simpl foldr.
  destruct (decide (k = e.1)) as [->|Hne].
  - rewrite lookup_delete_eq, decide_True; [done|]. by left.
  - rewrite lookup_delete_ne, IH by done. destruct (decide (k ∈ l.*1)) as [H|H], (decide (k ∈ (e :: l).*1)) as [H'|H']; try done.
    + destruct H'. by right.
    + apply elem_of_cons in H' as [?|?]; done.
Qed.

(** Deleting the keys of some of the entries of a map leaves the others. *)
Lemma foldr_delete_entries (m : entries) (l1 l2 : list (TileLocation * DeltaData)) :
  map_to_list m ≡ₚ l1 ++ l2 -> foldr (fun e m => delete e.1 m) m l1 = list_to_map l2.
Proof.
  intros Hp. pose proof (NoDup_fst_map_to_list m) as Hnd. rewrite Hp, fmap_app in Hnd.
  apply NoDup_app in Hnd as (_ & Hdis & Hnd2). apply map_eq. intros k. rewrite foldr_delete_lookup.
  apply option_eq. intros v. rewrite <- elem_of_list_to_map by done.
  destruct (decide (k ∈ l1.*1)) as [Hk|Hk].
  - split; [done|]. intros Hin. destruct (Hdis k Hk). apply list_elem_of_fmap. by exists (k, v).
  - rewrite <- elem_of_map_to_list, Hp, elem_of_app. split; [|by right]. intros [Hin|]; [|done].
    destruct Hk. apply list_elem_of_fmap. by exists (k, v).
Qed.

#[local] Instance wid_before_total : Total wid_before.
Proof. intros a b. unfold wid_before. lia. Qed.

(** Fact (bounds): rebalancing bounds the cache of last tiles: at most [_maxEntries]
    entries stay, they stay as they were, and every entry that goes has a wire id
    no newer than any that stays. *)
Theorem rebalance_bounds g :
  let g' := rebalanceDeltasT g false in
  (size (_deltaEntries g') <= _maxEntries g)%nat /\ _deltaEntries g' ⊆ _deltaEntries g /\
  forall l dd l' dd', _deltaEntries g !! l = Some dd -> _deltaEntries g' !! l = None ->
    _deltaEntries g' !! l' = Some dd' -> dd_wid dd <= dd_wid dd'.
Proof.
  unfold rebalanceDeltasT. rewrite orb_false_r. destruct (Nat.ltb_spec (_maxEntries g) (size (_deltaEntries g))) as [Hlt|Hge].
  2:{ cbv zeta. split; [done|]. split; [done|]. intros l dd l' dd' H1 H2. by rewrite H1 in H2. }
  cbn [_deltaEntries]. cbv zeta. set (n := (size (_deltaEntries g) - _maxEntries g * 3 / 4)%nat).
  set (es := merge_sort wid_before (map_to_list (_deltaEntries g))).
  assert (Hp : map_to_list (_deltaEntries g) ≡ₚ take n es ++ drop n es) by (rewrite take_drop; symmetry; apply merge_sort_Permutation).
  assert (Hs : StronglySorted wid_before (take n es ++ drop n es)).
  { rewrite take_drop. apply StronglySorted_merge_sort; [|apply _].
    intros a b c. unfold wid_before. lia. }
  rewrite (foldr_delete_entries _ _ _ Hp). pose proof (NoDup_fst_map_to_list (_deltaEntries g)) as Hnd.
  rewrite Hp, fmap_app in Hnd. apply NoDup_app in Hnd as (_ & _ & Hnd).
  assert (Hin : forall k v, (list_to_map (drop n es) : entries) !! k = Some v -> (k, v) ∈ drop n es).
  { intros k v H. by apply elem_of_list_to_map_2. }
  split; [|split].
  - rewrite <- length_map_to_list, map_to_list_to_map, length_drop by done. assert (length es = size (_deltaEntries g)) as ->.
    { rewrite <- length_map_to_list. apply Permutation_length, merge_sort_Permutation. }
    pose proof (Nat.div_le_upper_bound (_maxEntries g * 3) 4 (_maxEntries g) ltac:(lia) ltac:(lia)). lia.
  - apply map_subseteq_spec. intros k v H. apply elem_of_map_to_list. rewrite Hp, elem_of_app. right. by apply Hin.
  - intros l dd l' dd' H1 H2 H3. apply Hin in H3. apply elem_of_map_to_list in H1. rewrite Hp, elem_of_app in H1.
    destruct H1 as [H1|H1].
    + by apply (StronglySorted_app_1_elem_of wid_before _ _ (l, dd) (l', dd') Hs H1 H3).
    + apply (elem_of_list_to_map_1 (M:=gmap TileLocation)) in H1; [|done]. by rewrite H1 in H2.
Qed.

Definition sample_tile_loc (left : Z) : TileLocation :=
  {| loc_left := left; loc_top := 0; loc_size := 3840; loc_part := 0; loc_canonicalViewId := 1; loc_viewMode := 0 |}.
Definition sample_entry (left wid : Z) : DeltaData :=
  {| dd_loc := sample_tile_loc left; dd_wid := wid; dd_width := 0; dd_height := 0; dd_rows := [] |}.
Definition sample_generator : DeltaGenerator :=
  {| _deltaEntries := {[ sample_tile_loc 0 := sample_entry 0 8; sample_tile_loc 3840 := sample_entry 3840 9;
                         sample_tile_loc 7680 := sample_entry 7680 10 ]};
     _maxEntries := 2 |}.

Lemma rebalance_bounds_witness :
  (size (_deltaEntries (rebalanceDeltasT sample_generator false)) <= _maxEntries sample_generator)%nat /\
  dd_wid (sample_entry 0 8) <= dd_wid (sample_entry 7680 10).
Proof.
  destruct (rebalance_bounds sample_generator) as (H1 & _ & H3). split; [exact H1|].
  apply (H3 (sample_tile_loc 0) (sample_entry 0 8) (sample_tile_loc 7680) (sample_entry 7680 10));
    vm_compute; reflexivity.
Defined.
