(* ===== verification/TileDecoder.v ===== *)
(** * Tile decompression in the browser

    Models [browser/src/layer/tile/CanvasTileUtils.ts]: the key frame decoder
    [unrle] and the delta decoder [applyDeltaChunk], run over a stream by
    [updateImageFromDeltas]. A [Uint8Array] is its bytes. An element read out of
    range is [undefined]: it is stored as 0, and counts as 0 in a bit operation,
    while arithmetic on it gives [NaN] (an index of [None] below); an element
    written out of range is dropped. *)

From S2P Require Import Prelude.

Open Scope cool_scope.

Definition js_at (data : bytes) (i : option nat) : Z := default 0 (i ≫= fun k => data !! k).

(** [imgData[offset++] = b] for each [b]. *)
Fixpoint blit (img : bytes) (offset : nat) (bs : bytes) : bytes :=
  match bs with [] => img | b :: bs' => blit (<[offset := b]> img) (S offset) bs' end.

(** [data[k + j]] for [j < n]. *)
Definition js_slice (data : bytes) (k : nat) (n : nat) : bytes :=
  map (fun j => js_at data (Some (k + j)%nat)) (seq 0 n).

(** ** [unrle] *)

Definition idx_add (i : option nat) (n : nat) : option nat := (fun k => (k + n)%nat) <$> i.

(** The loop over the pixels of a row. *)
Fixpoint unrle_row (n : nat) (data : bytes) (rleMaskOffset pixSrc : option nat) (lastMask bitToCheck : Z)
    (lastPixel output : bytes) (pixOffset : nat) : result bytes :=
  match n with
  | O => Ok output
  | S n' =>
      let '(bitToCheck, lastMask, rleMaskOffset) :=
        if 128 <? bitToCheck then (1, js_at data rleMaskOffset, idx_add rleMaskOffset 1)
        else (bitToCheck, lastMask, rleMaskOffset) in
      let '(lastPixel, pixSrc) :=
        if Z.land lastMask bitToCheck =? 0 then
          ([js_at data pixSrc; js_at data (idx_add pixSrc 1); js_at data (idx_add pixSrc 2);
            js_at data (idx_add pixSrc 3)], idx_add pixSrc 4)
        else (lastPixel, pixSrc) in
      throw_if (length output <? pixOffset + 4)%nat as RangeError;
      unrle_row n' data rleMaskOffset pixSrc lastMask (Z.shiftl bitToCheck 1) lastPixel
        (blit output pixOffset lastPixel) (pixOffset + 4)
  end.

(** The loop over the rows: the output and the offset it ends at. *)
Fixpoint unrle_rows (n y : nat) (data : bytes) (width : nat) (output : bytes) (outputOffset : nat)
    (offset : option nat) : result (bytes * option nat) :=
  match n with
  | O => Ok (output, offset)
  | S n' =>
      let rleSize := lo ← (offset ≫= fun k => data !! k); hi ← (idx_add offset 1 ≫= fun k => data !! k);
                     Some (Z.to_nat (lo + hi * 256)) in
      let rleMask := idx_add offset 2 in
      let offset' := idx_add rleMask 32 in
      try output' <- unrle_row width data rleMask offset' 0 256 [0; 0; 0; 0] output
                       (y * width * 4 + outputOffset);
      let next := s ← rleSize; idx_add offset' (s * 4) in
      unrle_rows n' (S y) data width output' outputOffset next
  end.

Definition unrle (data : bytes) (width height : nat) (output : bytes) (outputOffset : nat)
  : result (bytes * option nat) :=
  unrle_rows height 0 data width output outputOffset (Some 0%nat).

(** ** [applyDeltaChunk] *)

(** The copy loop of a 'c' command. *)
Fixpoint copy_rows (n : nat) (cnt : nat) (width srcRow destRow : nat) (oldData imgData : bytes) : bytes :=
  match n with
  | O => imgData
  | S n' =>
      let src := ((srcRow + cnt) * width * 4)%nat in
      let dest := ((destRow + cnt) * width * 4)%nat in
      copy_rows n' (S cnt) width srcRow destRow oldData
        (blit imgData dest (js_slice oldData src (width * 4)))
  end.

Definition delta_arg (delta : bytes) (i : nat) : option nat := Z.to_nat <$> delta !! i.

(** The loop: the image and the final [i] ([None] is [NaN], which ends it). The
    outer [None]: out of fuel. *)
Fixpoint delta_chunk (fuel : nat) (width : nat) (delta oldData imgData : bytes) (i : nat)
  : option (bytes * option nat) :=
  match delta !! i with
  | None => Some (imgData, Some i)
  | Some c =>
      match fuel with
      | O => None
      | S fuel' =>
          if c =? 99 then
            let imgData' :=
              match delta_arg delta (i + 1), delta_arg delta (i + 2), delta_arg delta (i + 3) with
              | Some count, Some srcRow, Some destRow => copy_rows count 0 width srcRow destRow oldData imgData
              | _, _, _ => imgData
              end in
            delta_chunk fuel' width delta oldData imgData' (i + 4)
          else if c =? 100 then
            match delta_arg delta (i + 1), delta_arg delta (i + 2), delta_arg delta (i + 3) with
            | Some destRow, Some destCol, Some span =>
                delta_chunk fuel' width delta oldData
                  (blit imgData (destRow * width * 4 + destCol * 4) (js_slice delta (i + 4) (span * 4)))
                  (i + 4 + span * 4)
            | _, _, _ => Some (imgData, None)
            end
          else if c =? 116 then Some (imgData, Some (S i))
          else Some (imgData, Some (length delta))
      end
  end.

(** Each round advances [i]. *)
Definition applyDeltaChunk (imgData delta oldData : bytes) (width : nat) : option (bytes * option nat) :=
  delta_chunk (length delta) width delta oldData imgData 0.

(** [updateImageFromDeltas], from the end of the key frame. *)
Fixpoint delta_stream (fuel : nat) (imgData deltas : bytes) (offset tileSize : nat) : option bytes :=
  if (offset <? length deltas)%nat then
    match fuel with
    | O => None
    | S fuel' =>
        r ← applyDeltaChunk imgData (drop offset deltas) imgData tileSize;
        match r with
        | (imgData', Some len) => delta_stream fuel' imgData' deltas (offset + len) tileSize
        | (imgData', None) => Some imgData'
        end
    end
  else Some imgData.

Definition updateImageFromDeltas (imgData deltas : bytes) (keyframeDeltaSize tileSize : nat) : option bytes :=
  delta_stream (length deltas) imgData deltas keyframeDeltaSize tileSize.

(** ** The worker ([browser/src/layer/tile/CanvasTileWorkerSrc.js]) *)

Section worker.
(** [fzstd.decompress] of a concatenation of frames. *)
Variable decompress : bytes -> bytes.

(** What the worker does with one tile: [cached] is its image in
    [tileImageCache]. [None]: no image to apply a delta to, or an exception. *)
Definition decode_tile (cached : option bytes) (isKeyframe : bool) (rawDelta : bytes) (tileSize : nat) : option bytes :=
  let deltas := decompress rawDelta in
  if isKeyframe then
    match unrle deltas tileSize tileSize (repeat 0 (tileSize * tileSize * 4)) 0 with
    | Ok (imageData, Some keyframeDeltaSize) => updateImageFromDeltas imageData deltas keyframeDeltaSize tileSize
    | Ok (imageData, None) => Some imageData
    | Throw _ => None
    end
  else imageData ← cached; updateImageFromDeltas imageData deltas 0 tileSize.
End worker.
