(* ===== verification/TileDecoderSpec.v ===== *)
(** * Tiles from the kit to the browser

    The decoder of [browser/src/layer/tile] undoes the encoder of
    [kit/Delta.hpp]: a key frame gives the pixels it was made from, and a delta
    turns the image of the old pixels into that of the new ones. Composed with
    [TileData] of [wsd/TileCache.hpp], which strips the type byte and joins the
    compressed frames, a browser that decodes what it is sent shows the last
    pixels the kit rendered. *)

From S2P Require Import Prelude Delta DeltaRle DeltaSpec TileDecoder.

(** ** Pixels as bytes *)

(** The bytes of an image given by rows of pixels. *)
Definition image (mode : LibreOfficeKitTileMode) (rows : list (list Z)) : bytes := copy_row (concat rows) mode.

Definition pix_bytes (mode : LibreOfficeKitTileMode) (p : Z) : bytes := copy_row [p] mode.

Lemma copy_row_cons mode p ps : copy_row (p :: ps) mode = pix_bytes mode p ++ copy_row ps mode.
Proof. by destruct mode. Qed.
Lemma copy_row_app mode a b : copy_row (a ++ b) mode = copy_row a mode ++ copy_row b mode.
Proof.
  induction a as [|p a IH]; simpl app; [by destruct mode|].
  by rewrite !copy_row_cons, IH, app_assoc.
Qed.
Lemma pix_bytes_length mode p : length (pix_bytes mode p) = 4%nat.
Proof. by destruct mode. Qed.
Lemma copy_row_length mode ps : length (copy_row ps mode) = (4 * length ps)%nat.
Proof.
  induction ps as [|p ps IH]; [by destruct mode|].
  rewrite copy_row_cons, length_app, pix_bytes_length, IH. simpl. lia.
Qed.
Lemma copy_row_take mode k ps : take (4 * k) (copy_row ps mode) = copy_row (take k ps) mode.
Proof.
  destruct (Nat.le_ge_cases k (length ps)) as [H|H].
  - rewrite <- (take_drop k ps) at 1. rewrite copy_row_app, take_app_length'; [done|].
    rewrite copy_row_length, length_take. lia.
  - rewrite !take_ge; [done|lia|]. rewrite copy_row_length. lia.
Qed.
Lemma copy_row_drop mode k ps : drop (4 * k) (copy_row ps mode) = copy_row (drop k ps) mode.
Proof.
  destruct (Nat.le_ge_cases k (length ps)) as [H|H].
  - rewrite <- (take_drop k ps) at 1. rewrite copy_row_app, drop_app_length'; [done|].
    rewrite copy_row_length, length_take. lia.
  - rewrite !drop_ge; [by destruct mode|lia|]. rewrite copy_row_length. lia.
Qed.
Lemma copy_row_splice mode l k px : splice (copy_row l mode) (4 * k) (copy_row px mode) = copy_row (splice l k px) mode.
Proof.
  unfold splice. rewrite !copy_row_app, copy_row_take, copy_row_length.
  replace (4 * k + 4 * length px)%nat with (4 * (k + length px))%nat by lia. by rewrite copy_row_drop.
Qed.

(** ** Writes of the decoder *)

Lemma blit_splice img k bs : (k + length bs <= length img)%nat -> blit img k bs = splice img k bs.
Proof.
  revert img k. induction bs as [|b bs IH]; intros img k H; simpl in *; [by rewrite splice_nil|].
  rewrite IH by (rewrite length_insert; lia). rewrite <- (splice_one img k b) by lia.
  replace (S k) with (k + length [b])%nat by (simpl; lia). by rewrite splice_splice by lia.
Qed.
Lemma js_slice_spec data k n : (k + n <= length data)%nat -> js_slice data k n = take n (drop k data).
Proof.
  revert k. induction n as [|n IH]; intros k H; [done|]. unfold js_slice. simpl.
  destruct (lookup_lt_is_Some_2 data k ltac:(lia)) as [b Hb]. rewrite (drop_S _ _ _ Hb). simpl.
  rewrite Nat.add_0_r. unfold js_at at 1. simpl. rewrite Hb. simpl. f_equal.
  rewrite <- IH by lia. unfold js_slice. rewrite <- fmap_S_seq. unfold js_slice. rewrite map_map.
  apply map_ext. intros j. f_equal. f_equal. lia.
Qed.

(** ** Rows and the flat image *)

Section rows.
Variables (mode : LibreOfficeKitTileMode) (w : nat).

Definition uniform (rows : list (list Z)) : Prop := Forall (fun r => length r = w) rows.

Lemma concat_length rows : uniform rows -> length (concat rows) = (length rows * w)%nat.
Proof. induction 1 as [|r rows Hr _ IH]; simpl; [done|]. rewrite length_app. lia. Qed.
Lemma concat_take rows k : uniform rows -> take (k * w) (concat rows) = concat (take k rows).
Proof.
  intros H. revert k. induction H as [|r rows Hr _ IH]; intros [|k]; simpl; [done|by rewrite take_nil|done|].
  rewrite take_app_ge by lia. f_equal. rewrite <- IH. f_equal. lia.
Qed.
Lemma concat_drop rows k : uniform rows -> drop (k * w) (concat rows) = concat (drop k rows).
Proof.
  intros H. revert k. induction H as [|r rows Hr _ IH]; intros [|k]; simpl; [done|by rewrite drop_nil|done|].
  rewrite drop_app_ge by lia. rewrite <- IH. f_equal. lia.
Qed.
Lemma uniform_splice rows k blk : uniform rows -> uniform blk -> uniform (splice rows k blk).
Proof. intros Hr Hb. apply Forall_app. split; [by apply Forall_take|]. apply Forall_app. split; [done|by apply Forall_drop]. Qed.
Lemma concat_splice rows k blk :
  uniform rows -> uniform blk -> concat (splice rows k blk) = splice (concat rows) (k * w) (concat blk).
Proof.
  intros Hr Hb. unfold splice. rewrite !concat_app, concat_take by done. do 2 f_equal.
  rewrite concat_length by done. rewrite <- Nat.mul_add_distr_r. by rewrite concat_drop.
Qed.

(** A run inside a row. *)
Lemma concat_run rows row col px r :
  uniform rows -> rows !! row = Some r -> (col + length px <= w)%nat ->
  concat (alter (fun r => splice r col px) row rows) = splice (concat rows) (row * w + col) px.
Proof.
  intros H. revert row. induction H as [|r' rows Hr' Hu IH]; intros [|row] Hrow Hc; try done.
  - unfold splice. simpl. rewrite take_app_le by lia. rewrite drop_app_le by lia. by rewrite <- !app_assoc.
  - change (alter ?f (S row) (r' :: rows)) with (r' :: alter f row rows). simpl concat.
    rewrite IH by done. unfold splice. rewrite take_app_ge, drop_app_ge by lia. rewrite <- app_assoc.
    do 2 f_equal; [f_equal; lia|]. do 2 f_equal. lia.
Qed.

Lemma image_length rows : uniform rows -> length (image mode rows) = (length rows * w * 4)%nat.
Proof. intros H. unfold image. rewrite copy_row_length, concat_length by done. lia. Qed.

(** ** The commands, decoded *)

Variables (h : nat) (prev : list (list Z)).
Hypothesis (Lp : length prev = h) (Up : uniform prev).

Lemma copy_rows_spec n cnt src dest rows :
  uniform rows -> length rows = h -> (src + cnt + n <= h)%nat -> (dest + cnt + n <= h)%nat ->
  copy_rows n cnt w src dest (image mode prev) (image mode rows)
  = image mode (splice rows (dest + cnt) (take n (drop (src + cnt) prev))).
Proof.
  intros Hu Hl. revert cnt rows Hu Hl. induction n as [|n IH]; intros cnt rows Hu Hl Hs Hd; simpl.
  { by rewrite take_0, splice_nil. }
  destruct (lookup_lt_is_Some_2 prev (src + cnt) ltac:(lia)) as [r Hr]. rewrite (drop_S _ _ _ Hr). simpl.
  assert (Hrw : uniform [r]) by (apply Forall_singleton; by apply (Forall_lookup_1 _ _ _ _ Up Hr)).
  assert (Hsl : js_slice (image mode prev) ((src + cnt) * w * 4) (w * 4) = copy_row (concat [r]) mode).
  { rewrite js_slice_spec by (rewrite image_length by done; nia).
    unfold image. replace ((src + cnt) * w * 4)%nat with (4 * ((src + cnt) * w))%nat by lia.
    replace (w * 4)%nat with (4 * w)%nat by lia. rewrite copy_row_drop, copy_row_take, concat_drop by done.
    rewrite (drop_S _ _ _ Hr). replace w with (1 * w)%nat at 1 by lia.
    rewrite concat_take; [done|]. rewrite <- (drop_S _ _ _ Hr). by apply Forall_drop. }
  rewrite Hsl, blit_splice.
  2:{ rewrite copy_row_length, concat_length, image_length by done. simpl. nia. }
  unfold image at 2. replace ((dest + cnt) * w * 4)%nat with (4 * ((dest + cnt) * w))%nat by lia.
  rewrite copy_row_splice, <- concat_splice by done. fold (image mode (splice rows (dest + cnt) [r])).
  rewrite IH; [|by apply uniform_splice|rewrite splice_length by (simpl; lia); done|lia|lia].
  f_equal. rewrite !Nat.add_succ_r. replace (S (dest + cnt)) with (dest + cnt + length [r])%nat by (simpl; lia).
  by rewrite splice_splice by lia.
Qed.

Lemma exec_cmd_rows c rows :
  wf_cmd w h c -> uniform rows -> length rows = h ->
  uniform (exec_cmd prev c rows) /\ length (exec_cmd prev c rows) = h.
Proof.
  intros Hwf Hu Hl. destruct c as [count src dest|row col px]; simpl in *.
  - split; [apply uniform_splice; [done|]; by apply Forall_take, Forall_drop|].
    rewrite splice_length; [done|]. rewrite length_take, length_drop. lia.
  - split; [|by rewrite length_alter]. apply Forall_alter; [done|]. intros r Hr <-.
    apply splice_length. pose proof (Forall_lookup_1 _ _ _ _ Hu Hr) as E. simpl in E. lia.
Qed.

(** One round of the decoder loop per command; the terminator ends it. *)
Lemma delta_chunk_spec cs fuel delta i rest rows :
  Forall (wf_cmd w h) cs -> uniform rows -> length rows = h -> (length cs < fuel)%nat ->
  drop i delta = enc_cmds mode cs ++ 116 :: rest ->
  delta_chunk fuel w delta (image mode prev) (image mode rows) i
  = Some (image mode (exec_cmds prev cs rows), Some (i + length (enc_cmds mode cs) + 1)%nat).
Proof.
  intros Hwf. revert fuel i rows. induction Hwf as [|c cs Hc Hcs IH]; intros [|fuel] i rows Hu Hl Hf Hd; try (simpl in Hf; lia).
  - assert (H0 : delta !! i = Some 116). { by rewrite <- (Nat.add_0_r i), <- lookup_drop, Hd. }
    simpl. rewrite H0. simpl. repeat f_equal. lia.
  - assert (Hat : forall j, delta !! (i + j)%nat = (enc_cmds mode (c :: cs) ++ 116 :: rest) !! j).
    { intros j. by rewrite <- lookup_drop, Hd. }
    assert (Hlen : (i + length (enc_cmds mode (c :: cs)) < length delta)%nat).
    { apply (f_equal length) in Hd. rewrite length_drop, length_app in Hd. simpl in Hd. lia. }
    destruct (exec_cmd_rows c rows Hc Hu Hl) as [Hu' Hl'].
    change (enc_cmds mode (c :: cs)) with (enc_cmd mode c ++ enc_cmds mode cs) in *.
    assert (Hrest : forall k, k = length (enc_cmd mode c) -> drop (i + k) delta = enc_cmds mode cs ++ 116 :: rest).
    { intros k ->. rewrite <- drop_drop, Hd, <- app_assoc. by rewrite drop_app_length. }
    rewrite length_app in Hlen |- *. simpl exec_cmds.
    assert (H0 := Hat 0%nat). rewrite Nat.add_0_r in H0.
    destruct c as [count src dest|row col px]; cbn [delta_chunk]; rewrite H0; unfold delta_arg; rewrite !Hat.
    + simpl. rewrite !Nat2Z.id. destruct Hc as (? & ? & ?).
      rewrite copy_rows_spec by (try done; lia). rewrite !Nat.add_0_r.
      rewrite (IH fuel (i + 4)%nat) by (try done; try (simpl in Hf; lia); by apply Hrest).
      simpl. do 3 f_equal. lia.
    + simpl. rewrite !Nat2Z.id. destruct Hc as (Hr & Hcol & _).
      destruct (lookup_lt_is_Some_2 rows row ltac:(lia)) as [r Hrow].
      simpl in Hlen. rewrite copy_row_length in Hlen.
      rewrite js_slice_spec by lia. rewrite <- drop_drop, Hd. simpl. rewrite drop_0.
      replace (length px * 4)%nat with (4 * length px)%nat by lia.
      rewrite <- !app_assoc, take_app_length' by (by rewrite copy_row_length).
      rewrite blit_splice by (rewrite copy_row_length, image_length by done; nia).
      replace (row * w * 4 + col * 4)%nat with (4 * (row * w + col))%nat by lia.
      unfold image at 2. rewrite copy_row_splice, <- (concat_run rows row col px r) by done.
      fold (image mode (alter (fun r => splice r col px) row rows)).
      rewrite (IH fuel) by (try done; try (simpl in Hf; lia); rewrite <- Nat.add_assoc; apply Hrest; simpl; rewrite copy_row_length; lia).
      rewrite copy_row_length. do 3 f_equal. lia.
Qed.
End rows.

(** ** Key frames *)

Lemma le_bytes_length n x : length (le_bytes n x) = n.
Proof. revert x. induction n as [|n IH]; intros x; simpl; [done|]. by rewrite IH. Qed.
Lemma le_bytes_testbit n x t j :
  (t < n)%nat -> 0 <= j < 8 ->
  Z.testbit (nth t (le_bytes n x) 0) j = Z.testbit x (8 * Z.of_nat t + j).
Proof.
  revert x t. induction n as [|n IH]; intros x t Ht Hj; [lia|]. destruct t as [|t]; simpl nth.
  - change 256 with (2 ^ 8). by rewrite Z.mod_pow2_bits_low by lia.
  - rewrite IH by lia. change 256 with (2 ^ 8). rewrite Z.div_pow2_bits by lia. f_equal. lia.
Qed.

Definition mask_bytes (masks : list Z) : bytes := concat (map (le_bytes 8) masks).

Lemma mask_bytes_length masks : length (mask_bytes masks) = (8 * length masks)%nat.
Proof.
  unfold mask_bytes. induction masks as [|m ms IH]; [done|].
  cbn [map concat length]. rewrite length_app, le_bytes_length, IH. lia.
Qed.
Lemma mask_bytes_nth masks k t :
  (t < 8)%nat -> nth (8 * k + t) (mask_bytes masks) 0 = nth t (le_bytes 8 (nth k masks 0)) 0.
Proof.
  intros Ht. revert k. unfold mask_bytes. induction masks as [|m ms IH]; intros k.
  { assert (E : nth (8 * k + t) (concat (map (le_bytes 8) [])) 0 = 0) by (by destruct (8 * k + t)%nat).
    rewrite E. replace (nth k [] 0) with 0 by (by destruct k). do 8 (destruct t as [|t]; [done|]). lia. }
  cbn [map concat]. destruct k as [|k].
  - rewrite app_nth1 by (rewrite le_bytes_length; lia). f_equal.
  - rewrite app_nth2 by (rewrite le_bytes_length; lia). rewrite le_bytes_length.
    replace (8 * S k + t - 8)%nat with (8 * k + t)%nat by lia. apply IH.
Qed.

(** Bit [x] of the packed masks: the flag of pixel [x]. *)
Lemma mask_bytes_bit bits x :
  (x < 256)%nat ->
  Z.testbit (nth (x / 8) (mask_bytes (masks_of 4 bits)) 0) (Z.of_nat (x mod 8)) = nth x bits false.
Proof.
  intros Hx. pose proof (Nat.div_mod x 8 ltac:(lia)) as Hd. pose proof (Nat.mod_upper_bound x 8 ltac:(lia)) as Hm.
  set (q := (x / 8)%nat) in *. set (r := (x mod 8)%nat) in *.
  pose proof (Nat.div_mod q 8 ltac:(lia)) as Hd'. pose proof (Nat.mod_upper_bound q 8 ltac:(lia)) as Hm'.
  set (k := (q / 8)%nat) in *. set (t := (q mod 8)%nat) in *.
  rewrite Hd' at 1. rewrite mask_bytes_nth, le_bytes_testbit, masks_of_testbit by lia. f_equal. lia.
Qed.

Lemma js_at_drop data k j l : drop k data = l -> js_at data (Some (k + j)%nat) = nth j l 0.
Proof.
  intros <-. unfold js_at. simpl. rewrite <- lookup_drop. rewrite nth_lookup. by destruct (_ !! _).
Qed.

Section keyframe.
Variables (mode : LibreOfficeKitTileMode) (data : bytes) (bits : list bool) (base : nat).
Hypothesis (Hmask : forall b, (b < 32)%nat -> js_at data (Some (base + b)%nat) = nth b (mask_bytes (masks_of 4 bits)) 0).

(** Before pixel [x] of the row. *)
Record row_before (x : nat) (rleMaskOffset : option nat) (lastMask bitToCheck : Z) : Prop := {
  rb_off : rleMaskOffset = Some (base + (x + 7) / 8)%nat;
  rb_bit : bitToCheck = if (x mod 8 =? 0)%nat then 256 else 2 ^ Z.of_nat (x mod 8);
  rb_mask : (x mod 8 <> 0)%nat -> lastMask = nth (x / 8) (mask_bytes (masks_of 4 bits)) 0 }.

Lemma row_before_next x off m b :
  row_before x off m b -> (x < 256)%nat ->
  let '(b1, m1, off1) := if 128 <? b then (1, js_at data off, idx_add off 1) else (b, m, off) in
  (Z.land m1 b1 =? 0) = negb (nth x bits false) /\ row_before (S x) off1 m1 (Z.shiftl b1 1).
Proof.
  intros [-> -> Hm] Hx. rewrite <- (mask_bytes_bit bits x) by done.
  pose proof (Nat.div_mod x 8 ltac:(lia)) as Hd. pose proof (Nat.mod_upper_bound x 8 ltac:(lia)) as Hr.
  assert (Hdiv : forall a q r, (a = 8 * q + r -> r < 8 -> a / 8 = q /\ a mod 8 = r)%nat).
  { intros a q r -> ?. split; [symmetry; by apply (Nat.div_unique _ _ _ r)|symmetry; by apply (Nat.mod_unique _ _ q)]. }
  set (q := (x / 8)%nat) in *. set (r := (x mod 8)%nat) in *.
  assert (Hsel : (if 128 <? (if (r =? 0)%nat then 256 else 2 ^ Z.of_nat r)
      then (1, js_at data (Some (base + (x + 7) / 8)%nat), idx_add (Some (base + (x + 7) / 8)%nat) 1)
      else ((if (r =? 0)%nat then 256 else 2 ^ Z.of_nat r), m, Some (base + (x + 7) / 8)%nat))
     = (2 ^ Z.of_nat r, nth q (mask_bytes (masks_of 4 bits)) 0, Some (base + S q)%nat)).
  { destruct (Nat.eqb_spec r 0) as [E|E].
    - change (128 <? 256) with true. cbv iota. rewrite E. destruct (Hdiv (x + 7)%nat q 7%nat ltac:(lia) ltac:(lia)) as [-> _]. rewrite Hmask by lia.
      by replace (base + S q)%nat with (base + q + 1)%nat by lia.
    - assert (H2 : 2 ^ Z.of_nat r <= 2 ^ 7) by (apply Z.pow_le_mono_r; lia).
      destruct (Z.ltb_spec 128 (2 ^ Z.of_nat r)); [lia|]. rewrite Hm by done.
      destruct (Hdiv (x + 7)%nat (S q) (r - 1)%nat ltac:(lia) ltac:(lia)) as [-> _]. done. }
  rewrite Hsel. split; [by rewrite land_pow2 by lia|].
  rewrite Z.shiftl_mul_pow2, <- Z.pow_add_r by lia. constructor.
  - destruct (Hdiv (S x + 7)%nat (S q) r ltac:(lia) ltac:(lia)) as [-> _]. done.
  - destruct (Nat.eq_dec r 7%nat) as [E|E].
    + destruct (Hdiv (S x) (S q) 0%nat ltac:(lia) ltac:(lia)) as [_ ->]. by rewrite E.
    + destruct (Hdiv (S x) q (S r) ltac:(lia) ltac:(lia)) as [_ ->]. simpl. f_equal. lia.
  - intros Hn. destruct (Nat.eq_dec r 7%nat) as [E|E].
    + destruct (Hdiv (S x) (S q) 0%nat ltac:(lia) ltac:(lia)) as [_ E']. lia.
    + destruct (Hdiv (S x) q (S r) ltac:(lia) ltac:(lia)) as [-> _]. done.
Qed.

Lemma unrle_row_spec ps x off src m b last output pixOffset tl :
  row_before x off m b -> (x + length ps <= 256)%nat ->
  (forall k, (x + k < 256)%nat -> nth (x + k) bits false = nth k (rle_bits last ps) false) ->
  drop src data = copy_row (rle_uniq last ps) mode ++ tl ->
  (pixOffset + 4 * length ps <= length output)%nat ->
  unrle_row (length ps) data off (Some src) m b (pix_bytes mode last) output pixOffset
  = Ok (splice output pixOffset (copy_row ps mode)).
Proof.
  revert x off src m b last output pixOffset. induction ps as [|p ps IH]; intros x off src m b last output pixOffset Hrb Hx Hbits Hd Ho.
  { simpl. replace (copy_row [] mode) with (@nil Z) by (by destruct mode). by rewrite splice_nil. }
  simpl in Hx, Ho. cbn [length unrle_row].
  pose proof (row_before_next x off m b Hrb ltac:(lia)) as Hn.
  destruct (if 128 <? b then _ else _) as [[b1 m1] off1]. destruct Hn as [-> Hrb'].
  pose proof (Hbits 0%nat ltac:(lia)) as H0. rewrite Nat.add_0_r in H0. rewrite H0. cbn [rle_bits nth].
  destruct (Nat.ltb_spec (length output) (pixOffset + 4)); [lia|].
  assert (Hgo : forall src', drop src' data = copy_row (rle_uniq p ps) mode ++ tl ->
    unrle_row (length ps) data off1 (Some src') m1 (Z.shiftl b1 1) (pix_bytes mode p)
      (blit output pixOffset (pix_bytes mode p)) (pixOffset + 4) = Ok (splice output pixOffset (copy_row (p :: ps) mode))).
  { intros src' Hd'. rewrite blit_splice by (rewrite pix_bytes_length; lia).
    rewrite (IH (S x)); [|done|lia| |done|rewrite splice_length by (rewrite pix_bytes_length; lia); lia].
    - rewrite copy_row_cons. f_equal. rewrite <- (pix_bytes_length mode p) at 1. apply splice_splice. lia.
    - intros k Hk. rewrite Nat.add_succ_comm. by apply Hbits; lia. }
  cbn [rle_uniq] in Hd. destruct (Z.eqb_spec p last) as [->|Hne]; simpl negb; cbv iota.
  - by apply Hgo.
  - rewrite copy_row_cons, <- app_assoc in Hd.
    assert (Hpix : [js_at data (Some src); js_at data (idx_add (Some src) 1); js_at data (idx_add (Some src) 2);
        js_at data (idx_add (Some src) 3)] = pix_bytes mode p).
    { simpl idx_add. rewrite <- (Nat.add_0_r src) at 1. rewrite !(js_at_drop _ _ _ _ Hd).
      by destruct mode. }
    rewrite Hpix. simpl idx_add. apply Hgo. rewrite <- drop_drop, Hd, drop_app_length'; [done|].
    by rewrite pix_bytes_length.
Qed.
End keyframe.

(** The bytes of a key frame before compression. *)
Definition packed (mode : LibreOfficeKitTileMode) (rows : list (list Z)) : bytes :=
  concat (map (fun r => packForNetwork (initRow r) mode) rows).

Lemma rle_uniq_length l ps : (length (rle_uniq l ps) <= length ps)%nat.
Proof.
  revert l. induction ps as [|p ps IH]; intros l; simpl; [done|]. specialize (IH p).
  destruct (p =? l); simpl; lia.
Qed.

Lemma pack_initRow mode r :
  (length r <= 256)%nat ->
  exists lo hi,
    packForNetwork (initRow r) mode
    = lo :: hi :: mask_bytes (masks_of 4 (rle_bits 0 r)) ++ copy_row (rle_uniq 0 r) mode /\
    Z.to_nat (lo + hi * 256) = length (rle_uniq 0 r).
Proof.
  intros Hr. pose proof (rle_uniq_length 0 r) as Hu. rewrite initRow_spec by done. unfold packForNetwork.
  cbn [_rleMask _rleData]. do 2 eexists. split; [done|].
  change 255 with (Z.ones 8). rewrite Z.land_ones, Z.shiftr_div_pow2 by lia. change (2 ^ 8) with 256.
  rewrite u8_id.
  - pose proof (Z.div_mod (Z.of_nat (length (rle_uniq 0 r))) 256). lia.
  - split; [apply Z.div_pos; lia|]. apply Z.div_lt_upper_bound; lia.
Qed.

(** The decoder on one packed row. *)
Lemma unrle_packed_row mode r data offset output pixOffset tl :
  (length r <= 256)%nat -> drop offset data = packForNetwork (initRow r) mode ++ tl ->
  (pixOffset + 4 * length r <= length output)%nat ->
  unrle_row (length r) data (Some (offset + 2)%nat) (Some (offset + 2 + 32)%nat) 0 256 [0; 0; 0; 0] output pixOffset
    = Ok (splice output pixOffset (copy_row r mode)) /\
  exists lo hi, data !! offset = Some lo /\ data !! (offset + 1)%nat = Some hi /\
    (offset + 2 + 32 + Z.to_nat (lo + hi * 256) * 4 = offset + length (packForNetwork (initRow r) mode))%nat.
Proof.
  intros Hr Hd Ho. destruct (pack_initRow mode r Hr) as (lo & hi & Hp & Hlen). rewrite Hp in Hd |- *.
  pose proof (mask_bytes_length (masks_of 4 (rle_bits 0 r))) as Lm. rewrite masks_of_length in Lm.
  set (mb := mask_bytes (masks_of 4 (rle_bits 0 r))) in *. cbn [app] in Hd. rewrite <- app_assoc in Hd. split.
  - replace [0; 0; 0; 0] with (pix_bytes mode 0) by (by destruct mode).
    apply (unrle_row_spec mode data (rle_bits 0 r) (offset + 2)) with (x := 0%nat) (tl := tl); [|by constructor; [rewrite Nat.add_0_r| |]|done|done| |done].
    + intros b Hb. rewrite <- Nat.add_assoc, (js_at_drop _ _ _ _ Hd). cbn [nth Nat.add]. by rewrite app_nth1 by lia.
    + rewrite <- Nat.add_assoc, <- drop_drop, Hd. cbn [drop Nat.add]. by rewrite drop_app_length' by lia.
  - exists lo, hi. rewrite <- (Nat.add_0_r offset) at 1. rewrite <- !lookup_drop, Hd. repeat split.
    rewrite Hlen. cbn [length app]. rewrite length_app, copy_row_length. lia.
Qed.

Lemma unrle_rows_spec mode w rows y data output offset tl :
  (w <= 256)%nat -> uniform w rows ->
  drop offset data = packed mode rows ++ tl ->
  ((y + length rows) * w * 4 <= length output)%nat ->
  unrle_rows (length rows) y data w output 0 (Some offset)
  = Ok (splice output (y * w * 4) (image mode rows), Some (offset + length (packed mode rows))%nat).
Proof.
  intros Hw Hu. revert y output offset. induction Hu as [|r rows Hr Hu IH]; intros y output offset Hd Ho.
  { simpl. unfold image, packed. simpl. replace (copy_row [] mode) with (@nil Z) by (by destruct mode).
    by rewrite splice_nil, Nat.add_0_r. }
  change (packed mode (r :: rows)) with (packForNetwork (initRow r) mode ++ packed mode rows) in *.
  rewrite <- app_assoc in Hd. simpl in Ho.
  destruct (unrle_packed_row mode r data offset output (y * w * 4 + 0) _ ltac:(lia) Hd ltac:(nia))
    as (Erow & lo & hi & Hlo & Hhi & Hnext).
  subst w. cbn [length unrle_rows]. repeat change (idx_add (Some ?k) ?n) with (Some (k + n)%nat).
  cbn [mbind option_bind]. rewrite Hlo, Hhi. cbn [mbind option_bind]. rewrite Erow. cbn [rbind].
  change (idx_add (Some ?k) ?n) with (Some (k + n)%nat). rewrite Hnext, Nat.add_0_r, (IH (S y)).
  - rewrite length_app. do 2 f_equal; [|f_equal; lia]. unfold image. simpl concat. rewrite copy_row_app.
    replace (S y * length r * 4)%nat with (y * length r * 4 + length (copy_row r mode))%nat by (rewrite copy_row_length; lia).
    apply splice_splice. lia.
  - by rewrite <- drop_drop, Hd, drop_app_length.
  - rewrite splice_length; [lia|]. rewrite copy_row_length. nia.
Qed.

(** The key frame decoder gives the image back. *)
Lemma unrle_packed mode ts rows tl :
  (ts <= 256)%nat -> uniform ts rows -> length rows = ts ->
  unrle (packed mode rows ++ tl) ts ts (repeat 0 (ts * ts * 4)) 0
  = Ok (image mode rows, Some (length (packed mode rows))).
Proof.
  intros Hts Hu Hl. unfold unrle. rewrite <- Hl at 1.
  rewrite (unrle_rows_spec mode ts rows 0 _ _ 0 tl); [|done..|rewrite repeat_length; lia].
  do 2 f_equal. unfold splice. rewrite drop_ge; [by rewrite app_nil_r|].
  rewrite repeat_length, (image_length mode ts) by done. lia.
Qed.

(** ** Streams of deltas *)

Section stream.
Variables (mode : LibreOfficeKitTileMode) (ts : nat).

Definition tile_rows (rows : list (list Z)) : Prop := length rows = ts /\ uniform ts rows.

(** [x] is what a frame decompresses to: nothing, or the commands of a delta. *)
Definition raw_step (prev : list (list Z)) (x : bytes) (rows : list (list Z)) : Prop :=
  (x = [] /\ rows = prev) \/
  exists cs, x = enc_cmds mode cs ++ [116] /\ Forall (wf_cmd ts ts) cs /\ rows = exec_cmds prev cs prev.

Inductive raw_steps : list (list Z) -> list bytes -> list (list Z) -> Prop :=
| raw_nil prev : raw_steps prev [] prev
| raw_cons prev x rows xs last :
    raw_step prev x rows -> raw_steps rows xs last -> raw_steps prev (x :: xs) last.

Lemma exec_cmds_rows prev cs rows :
  Forall (wf_cmd ts ts) cs -> tile_rows prev -> tile_rows rows -> tile_rows (exec_cmds prev cs rows).
Proof.
  intros Hwf [Hl Hu]. revert rows. induction Hwf as [|c cs Hc _ IH]; intros rows [Hl' Hu']; [done|].
  simpl. apply IH. destruct (exec_cmd_rows ts ts prev Hl Hu c rows) as [? ?]; done.
Qed.

Lemma raw_step_rows prev x rows : tile_rows prev -> raw_step prev x rows -> tile_rows rows.
Proof. intros Hp [[_ ->]|(cs & _ & Hwf & ->)]; [done|]. by apply exec_cmds_rows. Qed.

Lemma enc_cmds_length cs : (length cs <= length (enc_cmds mode cs))%nat.
Proof.
  induction cs as [|c cs IH]; [done|]. change (enc_cmds mode (c :: cs)) with (enc_cmd mode c ++ enc_cmds mode cs).
  rewrite length_app. destruct c; simpl; lia.
Qed.

Lemma applyDeltaChunk_spec prev cs rest :
  Forall (wf_cmd ts ts) cs -> tile_rows prev ->
  applyDeltaChunk (image mode prev) (enc_cmds mode cs ++ 116 :: rest) (image mode prev) ts
  = Some (image mode (exec_cmds prev cs prev), Some (length (enc_cmds mode cs) + 1)%nat).
Proof.
  intros Hwf [Hl Hu]. unfold applyDeltaChunk.
  rewrite (delta_chunk_spec mode ts ts prev Hl Hu cs _ _ 0 rest prev); [done|done|done|done| |done].
  rewrite length_app. simpl. pose proof (enc_cmds_length cs). lia.
Qed.

Lemma delta_stream_spec prev xs rows data offset fuel :
  raw_steps prev xs rows -> tile_rows prev -> drop offset data = concat xs ->
  (length data - offset <= fuel)%nat ->
  delta_stream fuel (image mode prev) data offset ts = Some (image mode rows).
Proof.
  intros Hs. revert offset fuel. induction Hs as [prev|prev x rows xs last Hx Hs IH]; intros offset fuel Hp Hd Hf.
  { simpl in Hd. assert (length data <= offset)%nat.
    { apply (f_equal length) in Hd. rewrite length_drop in Hd. simpl in Hd. lia. }
    destruct fuel; simpl; by (destruct (Nat.ltb_spec offset (length data)); [lia|]). }
  pose proof (raw_step_rows _ _ _ Hp Hx) as Hr.
  destruct Hx as [[-> ->]|(cs & -> & Hwf & ->)]; [by apply IH|].
  simpl in Hd. assert (Hlen := f_equal length Hd). rewrite length_drop, !length_app in Hlen. simpl in Hlen.
  rewrite <- app_assoc in Hd. simpl in Hd.
  destruct fuel as [|fuel]; [lia|]. cbn [delta_stream]. destruct (Nat.ltb_spec offset (length data)); [|lia].
  rewrite Hd, applyDeltaChunk_spec by done. cbn [mbind option_bind]. apply IH; [done| |lia].
  rewrite <- drop_drop, Hd, drop_app. rewrite drop_ge by lia. simpl.
  by replace (length (enc_cmds mode cs) + 1 - length (enc_cmds mode cs))%nat with 1%nat by lia.
Qed.

Lemma updateImage_spec prev xs rows pre :
  raw_steps prev xs rows -> tile_rows prev ->
  updateImageFromDeltas (image mode prev) (pre ++ concat xs) (length pre) ts = Some (image mode rows).
Proof. intros Hs Hp. eapply delta_stream_spec; [done|done|by rewrite drop_app_length|lia]. Qed.

(** A key frame and the deltas after it, decoded from nothing. *)
Lemma decode_key_spec rows0 xs rows :
  (ts <= 256)%nat -> tile_rows rows0 -> raw_steps rows0 xs rows ->
  decode_tile (fun x => x) None true (packed mode rows0 ++ concat xs) ts = Some (image mode rows).
Proof.
  intros Hts [Hl Hu] Hs. unfold decode_tile. rewrite unrle_packed by done. by apply updateImage_spec.
Qed.

(** ** What the kit appends *)

(** A delta of two tiles of the same size decompresses to commands between them. *)
Lemma makeDelta_step compress pd cd prev rows d :
  (ts <= 256)%nat -> holds pd ts ts prev -> holds cd ts ts rows ->
  makeDelta compress pd cd mode = Some d ->
  exists z, d = 68 :: z /\ ((z = [] /\ rows = prev) \/ exists x, compress x = Some z /\ x <> [] /\ raw_step prev x rows).
Proof.
  intros Hts Hp Hc. unfold makeDelta. destruct (delta_output_spec mode ts ts pd cd prev rows Hts Hts Hp Hc) as (cs & Eo & Hwf & Hex).
  destruct Hp as (-> & -> & _), Hc as (-> & -> & _). rewrite !Nat.eqb_refl. simpl. rewrite Eo.
  destruct (enc_cmds mode cs) as [|b bs] eqn:E.
  - intros [= <-]. exists []. split; [done|left]. split; [done|]. destruct cs as [|c cs]; [by rewrite <- Hex|].
    pose proof (enc_cmds_length (c :: cs)) as H. rewrite E in H. simpl in H. lia.
  - rewrite <- E. destruct (compress _) as [z|] eqn:Ez; [|done]. intros [= <-]. exists z. split; [done|right].
    exists (enc_cmds mode cs ++ [116]). split; [done|]. split; [by destruct (enc_cmds mode cs)|].
    right. by exists cs.
Qed.
End stream.

(** ** Any input is decoded in bounded time *)

Lemma delta_chunk_total fuel w delta old img i :
  (length delta <= i + fuel)%nat ->
  exists img' r, delta_chunk fuel w delta old img i = Some (img', r) /\
    forall n, r = Some n -> (i <= n /\ (i < length delta -> i < n))%nat.
Proof.
  revert i img. induction fuel as [|fuel IH]; intros i img Hi; cbn [delta_chunk];
    (destruct (delta !! i) as [c|] eqn:E;
      [pose proof (lookup_lt_Some _ _ _ E) as Hlt
      |apply lookup_ge_None in E; eexists _, _; split; [done|intros n [= <-]; lia]]); [lia|].
  assert (Hrec : forall k img1, (i < k)%nat -> exists img' r, delta_chunk fuel w delta old img1 k = Some (img', r) /\
    forall n, r = Some n -> (i <= n /\ (i < length delta -> i < n))%nat).
  { intros k img1 Hk. destruct (IH k img1 ltac:(lia)) as (img' & r & -> & Hr). eexists _, _. split; [done|].
    intros n Hn. specialize (Hr n Hn). lia. }
  destruct (c =? 99); [apply Hrec; lia|]. destruct (c =? 100).
  { destruct (delta_arg delta (i + 1)), (delta_arg delta (i + 2)), (delta_arg delta (i + 3));
      try (apply Hrec; lia); by eexists _, _. }
  destruct (c =? 116); eexists _, _; (split; [done|]); intros n [= <-]; lia.
Qed.

Lemma delta_stream_total fuel img deltas offset ts :
  (length deltas <= offset + fuel)%nat -> is_Some (delta_stream fuel img deltas offset ts).
Proof.
  revert img offset. induction fuel as [|fuel IH]; intros img offset Hf; cbn [delta_stream];
    destruct (Nat.ltb_spec offset (length deltas)); try done; [lia|].
  destruct (delta_chunk_total (length (drop offset deltas)) ts (drop offset deltas) img img 0 ltac:(lia)) as (img' & r & E & Hr).
  unfold applyDeltaChunk. rewrite E. cbn [mbind option_bind]. destruct r as [len|]; [|done].
  specialize (Hr len eq_refl). rewrite length_drop in Hr. apply IH. lia.
Qed.

Lemma unrle_row_total n data off src m b last output pixOffset :
  (length last = 4)%nat -> (pixOffset + 4 * n <= length output)%nat ->
  exists output', unrle_row n data off src m b last output pixOffset = Ok output' /\ length output' = length output.
Proof.
  revert off src m b last output pixOffset. induction n as [|n IH]; intros off src m b last output pixOffset Hl Ho.
  { by exists output. }
  cbn [unrle_row]. destruct (if 128 <? b then _ else _) as [[b1 m1] off1].
  assert (Hl' : exists last' src', (if Z.land m1 b1 =? 0 then
      ([js_at data src; js_at data (idx_add src 1); js_at data (idx_add src 2); js_at data (idx_add src 3)], idx_add src 4)
      else (last, src)) = (last', src') /\ (length last' = 4)%nat) by (destruct (_ =? 0); by eexists _, _).
  destruct Hl' as (last' & src' & -> & Hl'). destruct (Nat.ltb_spec (length output) (pixOffset + 4)); [lia|].
  assert (Hb : length (blit output pixOffset last') = length output) by (rewrite blit_splice by lia; apply splice_length; lia).
  destruct (IH off1 src' m1 (Z.shiftl b1 1) last' (blit output pixOffset last') (pixOffset + 4)%nat Hl') as (o & -> & Ho');
    [rewrite Hb; lia|]. exists o. by rewrite Ho'.
Qed.

Lemma unrle_rows_total n y data w output offset :
  ((y + n) * w * 4 <= length output)%nat ->
  exists output' r, unrle_rows n y data w output 0 offset = Ok (output', r) /\ length output' = length output.
Proof.
  revert y output offset. induction n as [|n IH]; intros y output offset Ho; [by eexists _, _|]. cbn [unrle_rows].
  destruct (unrle_row_total w data (idx_add offset 2) (idx_add (idx_add offset 2) 32) 0 256 [0; 0; 0; 0] output
    (y * w * 4 + 0)%nat eq_refl ltac:(nia)) as (o & -> & Hl). cbn [rbind].
  match goal with |- context [unrle_rows n (S y) data w o 0 ?next] => destruct (IH (S y) o next) as (o' & r & -> & Hl') end;
    [rewrite Hl; lia|]. exists o', r. by rewrite Hl'.
Qed.

(** Fact (termination): whatever bytes arrive for a tile, corrupt or not, the decoder's
    loops end: decoding a key frame always gives an image, and decoding a delta does
    when there is an image to apply it to. *)
Theorem decode_tile_terminates decompress cached isKeyframe rawDelta tileSize :
  (isKeyframe = true \/ cached <> None) -> is_Some (decode_tile decompress cached isKeyframe rawDelta tileSize).
Proof.
  intros H. unfold decode_tile. destruct isKeyframe.
  - unfold unrle. destruct (unrle_rows_total tileSize 0 (decompress rawDelta) tileSize
      (repeat 0 (tileSize * tileSize * 4)) (Some 0%nat)) as (img & r & -> & _); [rewrite repeat_length; lia|].
    destruct r as [k|]; [|done]. apply delta_stream_total. lia.
  - destruct cached as [img|]; [|naive_solver]. apply delta_stream_total. lia.
Qed.

Lemma decode_tile_terminates_witness :
  is_Some (decode_tile (fun x => x) (Some [1; 2; 3; 4]) false [99; 200; 7; 100; 0; 0; 255; 1] 1).
Proof. apply (decode_tile_terminates (fun x => x) (Some [1; 2; 3; 4]) false). right. discriminate. Defined.
