(* ===== verification/TilePipeline.v ===== *)
(** * One tile from the kit through the server to a browser

    [compressOrDelta] of [kit/Delta.hpp] renders a tile again and again while its
    cache is rebalanced and dropped; [appendBlob] of [wsd/TileCache.hpp] stores
    what it sends; [appendChangesSince] hands a browser what it lacks, and the
    worker of [browser/src/layer/tile] decodes it. The theorem: the browser shows
    the pixels of the last rendering, whatever it has seen before. *)

From stdpp Require Import sorting.
From S2P Require Import Prelude StringVector TileData Delta DeltaRle DeltaSpec TileDecoder TileDecoderSpec.

Open Scope cool_scope.

(** ** The run *)

Inductive kit_event :=
| Rendered (a : tile_args)         (* a tile is painted and compressed *)
| Rebalanced (limit : Z)           (* [rebalanceDeltas] *)
| Dropped.                         (* [dropCache] *)

(** The generator, the stored tile, and the pixels last rendered for it. *)
Record pipeline := {
  pl_gen : DeltaGenerator;
  pl_tile : TileData;
  pl_pixels : list (list Z) }.

Definition pipeline_new : pipeline :=
  {| pl_gen := DeltaGenerator_new; pl_tile := TileData_empty; pl_pixels := [] |}.

Definition args_rows (a : tile_args) : list (list Z) :=
  default [] (mapM (pixmap_row (ta_pixmap a) (ta_startX a) (ta_startY a) (ta_width a) (ta_bufferWidth a))
    (seq 0 (ta_height a))).

Section pipeline.
Variables (compress : bytes -> option bytes) (decompress : bytes -> bytes) (loc : TileLocation).

(** What a rendering at [loc] sends is stored; other tiles only share the cache. *)
Definition pipeline_step (s : pipeline) (e : kit_event) : result pipeline :=
  match e with
  | Rendered a =>
      try r <- compressOrDelta compress (pl_gen s) a [];
      let '(g, out, _) := r in
      if bool_decide (ta_loc a = loc) then
        Ok {| pl_gen := g; pl_tile := appendBlob (pl_tile s) (ta_wid a) out; pl_pixels := args_rows a |}
      else Ok {| pl_gen := g; pl_tile := pl_tile s; pl_pixels := pl_pixels s |}
  | Rebalanced limit =>
      Ok {| pl_gen := rebalanceDeltas (pl_gen s) limit; pl_tile := pl_tile s; pl_pixels := pl_pixels s |}
  | Dropped => Ok {| pl_gen := dropCache (pl_gen s); pl_tile := pl_tile s; pl_pixels := pl_pixels s |}
  end.

Fixpoint pipeline_run (s : pipeline) (es : list kit_event) : result pipeline :=
  match es with [] => Ok s | e :: es' => try s' <- pipeline_step s e; pipeline_run s' es' end.

(** The browser: its image and the id it has seen, and what it asks for. *)
Definition browser_update (s : pipeline) (seen : option bytes) (since : Z) (tileSize : nat) : option bytes :=
  let '(out, any) := appendChangesSince (pl_tile s) [] since in
  if any then
    key ← needsKeyframe (pl_tile s) since;
    decode_tile decompress seen key out tileSize
  else seen.

(** ** Hypotheses *)

Variables (mode : LibreOfficeKitTileMode) (ts : nat).

(** Renderings of the tile are of its size. *)
Definition event_ok (e : kit_event) : Prop :=
  match e with
  | Rendered a => ta_loc a = loc -> ta_width a = ts /\ ta_height a = ts /\ ta_mode a = mode
  | _ => True
  end.

(** The wire ids of the renderings of the tile. *)
Definition event_wid (e : kit_event) : option Z :=
  match e with Rendered a => if bool_decide (ta_loc a = loc) then Some (ta_wid a) else None | _ => None end.
Definition wids (es : list kit_event) : list Z := omap event_wid es.

(** zstd: a sequence of compressed frames decompresses to the sequence of their
    contents, and a large enough buffer compresses anything. *)
Hypothesis zstd_frames : forall xs zs,
  Forall2 (fun x z => compress x = Some z) xs zs -> decompress (concat zs) = concat xs.
Hypothesis zstd_total : forall x, is_Some (compress x).

Lemma compress_nonempty x : x <> [] -> compress x <> Some [].
Proof using zstd_frames.
  intros Hx H. apply Hx. pose proof (zstd_frames [x] [[]]) as H1. simpl in H1.
  rewrite app_nil_r in H1. rewrite <- H1; [apply (zstd_frames [] []); constructor|].
  by repeat constructor.
Qed.

(** ** Frames that carry a tile *)

(** A frame after the first: an empty one repeats the tile. *)
Definition frame_step (prev : list (list Z)) (f : frame) (rows : list (list Z)) : Prop :=
  exists x, raw_step mode ts prev x rows /\ ((x = [] /\ f.2 = []) \/ (x <> [] /\ compress x = Some f.2)).

Inductive frame_steps : list (list Z) -> list frame -> list (list Z) -> Prop :=
| frames_nil prev : frame_steps prev [] prev
| frames_snoc prev fs rows f last :
    frame_steps prev fs rows -> frame_step rows f last -> frame_steps prev (fs ++ [f]) last.

Lemma frame_steps_nil prev rows : frame_steps prev [] rows -> rows = prev.
Proof.
  intros H. remember [] as l eqn:El. destruct H as [prev|prev fs ? f ? _ _]; [done|]. by destruct fs.
Qed.

Lemma raw_steps_snoc prev xs rows x last :
  raw_steps mode ts prev xs rows -> raw_step mode ts rows x last -> raw_steps mode ts prev (xs ++ [x]) last.
Proof. induction 1; intros Hx; simpl; econstructor; [done|constructor|done|by apply IHraw_steps]. Qed.

(** Decompressed, they are a sequence of deltas. *)
Lemma frame_steps_raw prev fs rows :
  frame_steps prev fs rows ->
  exists xs zs, raw_steps mode ts prev xs rows /\ payloads fs = concat zs /\
    exists ys, Forall2 (fun y z => compress y = Some z) ys zs /\ concat ys = concat xs.
Proof.
  induction 1 as [prev|prev fs rows f last _ (xs & zs & Hr & Hz & ys & Hf & Ec) (x & Hx & Hxf)].
  { exists [], []. repeat split; [constructor|]. exists []. by repeat constructor. }
  exists (xs ++ [x]). destruct Hxf as [[-> E]|[Hne E]].
  - exists zs. split; [by eapply raw_steps_snoc|]. rewrite payloads_snoc, E, app_nil_r. split; [done|].
    exists ys. split; [done|]. rewrite concat_app. simpl. by rewrite app_nil_r.
  - exists (zs ++ [f.2]). split; [by eapply raw_steps_snoc|]. rewrite payloads_snoc, Hz, concat_app. simpl.
    rewrite app_nil_r. split; [done|]. exists (ys ++ [x]). split; [apply Forall2_app; [done|by constructor]|].
    by rewrite !concat_app, Ec.
Qed.

(** [fs] starts with a key frame and shows [rows]. *)
Definition stream (fs : list frame) (rows : list (list Z)) : Prop :=
  exists f0 fs' rows0, fs = f0 :: fs' /\ tile_rows ts rows0 /\ compress (packed mode rows0) = Some f0.2 /\
    frame_steps rows0 fs' rows.

(** A browser that shows [seen] at [since] is brought to [rows] by the newer frames. *)
Definition follows (since : Z) (seen : list (list Z)) (fs : list frame) (rows : list (list Z)) : Prop :=
  (exists f fs', fs = f :: fs' /\ since < f.1) \/
  exists fs1 fs2, fs = fs1 ++ fs2 /\ fs1 <> [] /\ Forall (fun f => f.1 <= since) fs1 /\
    Forall (fun f => since < f.1) fs2 /\ frame_steps seen fs2 rows.

Lemma frame_steps_rows prev fs rows : tile_rows ts prev -> frame_steps prev fs rows -> tile_rows ts rows.
Proof.
  intros Hp. induction 1 as [prev|prev fs rows f last _ IH (x & Hx & _)]; [done|].
  eapply raw_step_rows; [by apply IH|exact Hx].
Qed.
Lemma stream_rows fs rows : stream fs rows -> tile_rows ts rows.
Proof. intros (f0 & fs' & rows0 & -> & Ht & _ & Hs). by eapply frame_steps_rows. Qed.

(** ** Storing a blob *)

(** An empty frame shows the tile it follows. *)
Lemma frame_step_empty prev f rows : frame_step prev f rows -> f.2 = [] -> rows = prev.
Proof using zstd_frames.
  intros (x & Hx & [[-> _]|[Hne E]]) Ef.
  - destruct Hx as [[_ ->]|(cs & Ec & _)]; [done|by destruct (enc_cmds mode cs)].
  - rewrite Ef in E. by apply compress_nonempty in E.
Qed.

(** The id of an empty last frame may be raised. *)
Lemma frame_steps_bump prev fs f id rows :
  frame_steps prev (fs ++ [f]) rows -> f.2 = [] -> frame_steps prev (fs ++ [(id, [])]) rows.
Proof using zstd_frames.
  intros H E. remember (fs ++ [f]) as l eqn:El.
  destruct H as [prev|prev fs' rows f' last Hs (x & Hx & Hxf)]; [by destruct fs|].
  apply app_inj_tail in El as [-> ->]. econstructor; [done|]. exists x. split; [done|]. rewrite E in Hxf.
  destruct Hxf as [[-> _]|[Hne Hc]]; [by left|]. by apply compress_nonempty in Hc.
Qed.

Lemma stream_append fs prev id d rows :
  stream fs prev ->
  ((exists z, d = 90 :: z /\ tile_rows ts rows /\ compress (packed mode rows) = Some z) \/
   (exists z, d = 68 :: z /\ frame_step prev (id, z) rows)) ->
  stream (append_frame fs id d) rows.
Proof using zstd_frames.
  intros (f0 & fs' & rows0 & -> & Ht & Hk & Hs) [(z & -> & Ht' & Hz)|(z & -> & Hf)].
  { exists (id, z), [], rows. split; [unfold append_frame; simpl; by rewrite drop_0|].
    do 2 (split; [done|]). apply frames_nil. }
  destruct (append_frame_cases (f0 :: fs') id (68 :: z)) as [[Hk' _]|[(pre & x & Hne & Hz & E & ->)| ->]]; [done| |].
  - simpl in Hz. rewrite drop_0 in Hz. subst z. destruct pre as [|f0' pre]; [done|]. injection E as <- ->.
    exists f0, (pre ++ [(id, [])]), rows0. do 3 (split; [done|]).
    rewrite (frame_step_empty _ _ _ Hf eq_refl). by eapply frame_steps_bump.
  - exists f0, (fs' ++ [(id, z)]), rows0. split; [simpl; by rewrite drop_0|]. do 2 (split; [done|]). by econstructor.
Qed.

(** What the newer frames are after a blob. *)
Lemma follows_append since seen fs prev id d rows :
  follows since seen fs prev -> since < id ->
  ((exists z, d = 90 :: z) \/ (exists z, d = 68 :: z /\ frame_step prev (id, z) rows)) ->
  follows since seen (append_frame fs id d) rows.
Proof using zstd_frames.
  intros Hfol Hid [(z & ->)|(z & -> & Hf)]; [left; by eexists _, _|].
  destruct (append_frame_cases fs id (68 :: z)) as [[Hk' _]|[(pre & x & Hne & Hz & -> & ->)| ->]]; [done| |].
  - simpl in Hz. rewrite drop_0 in Hz. subst z. pose proof (frame_step_empty _ _ _ Hf eq_refl) as ->.
    destruct Hfol as [(f & fs' & E & Hs)|(fs1 & fs2 & E & Hne1 & H1 & H2 & Hs)].
    { left. destruct pre as [|f' pre]; [done|]. injection E as -> _. by eexists _, _. }
    right. destruct fs2 as [|f fs2 _] using rev_ind.
    + rewrite app_nil_r in E. subst fs1. apply Forall_app in H1 as [H1 _].
      rewrite (frame_steps_nil _ _ Hs) in *.
      exists pre, [(id, [])]. do 3 (split; [done|]). split; [by apply Forall_singleton|].
      apply (frames_snoc _ [] seen); [apply frames_nil|]. exists []. split; [by left|by left].
    + rewrite app_assoc in E. apply app_inj_tail in E as [-> <-]. apply Forall_app in H2 as [H2 _].
      exists fs1, (fs2 ++ [(id, [])]). rewrite <- app_assoc. do 3 (split; [done|]).
      split; [apply Forall_app; split; [done|by apply Forall_singleton]|]. by eapply frame_steps_bump.
  - simpl drop. rewrite drop_0. destruct Hfol as [(f & fs' & -> & Hs)|(fs1 & fs2 & -> & Hne1 & H1 & H2 & Hs)].
    { left. by eexists _, _. }
    right. exists fs1, (fs2 ++ [(id, z)]). rewrite <- app_assoc. do 3 (split; [done|]).
    split; [apply Forall_app; split; [done|by apply Forall_singleton]|]. by econstructor.
Qed.

(** ** The kit *)

(** The cache knows the tile as it was last rendered, if at all. *)
Definition cache_ok (g : DeltaGenerator) (rows : list (list Z)) : Prop :=
  forall dd, _deltaEntries g !! loc = Some dd -> holds dd ts ts rows.

Lemma read_pixels_spec n mem ps : read_pixels n mem = Some ps -> length ps = n.
Proof.
  revert mem ps. induction n as [|n IH]; intros mem ps; simpl; [by intros [= <-]|].
  destruct mem as [|b0 [|b1 [|b2 [|b3 mem]]]]; try done. destruct (read_pixels n mem) as [ps'|] eqn:E; [|done].
  simpl. intros [= <-]. simpl. f_equal. by eapply IH.
Qed.
Lemma read_pixels_some n mem : (4 * n <= length mem)%nat -> is_Some (read_pixels n mem).
Proof.
  revert mem. induction n as [|n IH]; intros mem H; simpl; [done|].
  destruct mem as [|b0 [|b1 [|b2 [|b3 mem]]]]; simpl in H; try lia.
  destruct (IH mem ltac:(lia)) as [ps ->]. done.
Qed.

(** The arguments [doRender] passes: the tile is inside the buffer (the asserts
    of [DeltaData]) and of a size [createDelta] accepts. *)
Definition args_ok (a : tile_args) : Prop :=
  Nat.even (ta_width a) = true /\ (ta_width a <= 256)%nat /\ (ta_height a <= 256)%nat /\
  (ta_startX a + ta_width a <= ta_bufferWidth a)%nat /\
  ((ta_startY a + ta_height a) * ta_bufferWidth a * 4 <= length (ta_pixmap a))%nat.

Lemma args_rows_ok a :
  args_ok a ->
  mapM (pixmap_row (ta_pixmap a) (ta_startX a) (ta_startY a) (ta_width a) (ta_bufferWidth a)) (seq 0 (ta_height a))
    = Some (args_rows a) /\
  length (args_rows a) = ta_height a /\ Forall (fun r => length r = ta_width a) (args_rows a).
Proof.
  intros (_ & _ & _ & Hx & Hy). unfold args_rows.
  assert (Hs : is_Some (mapM (pixmap_row (ta_pixmap a) (ta_startX a) (ta_startY a) (ta_width a) (ta_bufferWidth a)) (seq 0 (ta_height a)))).
  { apply mapM_is_Some_2, Forall_forall. intros y Hin. apply elem_of_seq in Hin. apply read_pixels_some.
    rewrite length_drop. nia. }
  destruct Hs as [rows E]. rewrite E. simpl. split; [done|]. apply mapM_Some in E.
  split; [by rewrite <- (Forall2_length _ _ _ E), length_seq|].
  apply Forall_forall. intros r Hr. apply list_elem_of_lookup in Hr as [i Hi].
  destruct (Forall2_lookup_r _ _ _ _ _ E Hi) as (y & _ & Hp). by apply read_pixels_spec in Hp.
Qed.

Lemma DeltaData_new_ok a :
  args_ok a -> exists dd,
    DeltaData_new (ta_wid a) (ta_pixmap a) (ta_startX a) (ta_startY a) (ta_width a) (ta_height a) (ta_loc a)
      (ta_bufferWidth a) = Ok dd /\ holds dd (ta_width a) (ta_height a) (args_rows a).
Proof.
  intros Ha. destruct (args_rows_ok a Ha) as (E & Hl & Hu). unfold DeltaData_new. rewrite E.
  eexists. split; [done|]. by repeat split.
Qed.

(** A rendering at [loc]. *)
Lemma compressOrDelta_ok g a prev :
  args_ok a -> ta_loc a = loc -> ta_width a = ts -> ta_height a = ts -> ta_mode a = mode -> cache_ok g prev ->
  exists g' out n, compressOrDelta compress g a [] = Ok (g', out, n) /\
    tile_rows ts (args_rows a) /\ cache_ok g' (args_rows a) /\
    ((exists z, out = 90 :: z /\ compress (packed mode (args_rows a)) = Some z) \/
     (is_Some (_deltaEntries g !! loc) /\ exists z, out = 68 :: z /\ frame_step prev (ta_wid a, z) (args_rows a))).
Proof using zstd_total.
  intros Ha El Ew Eh Em Hc. destruct (DeltaData_new_ok a Ha) as (dd & Ed & Hd). rewrite Ew, Eh in Hd.
  assert (Ht : tile_rows ts (args_rows a)) by (destruct Hd as (_ & _ & _ & ? & ?); by split).
  assert (Hkey : forall dd', holds dd' ts ts (args_rows a) ->
    exists z, compress (concat (map (fun row => packForNetwork row (ta_mode a)) (dd_rows dd'))) = Some z /\
      compress (packed mode (args_rows a)) = Some z).
  { intros dd' (_ & _ & -> & _). destruct (zstd_total (packed mode (args_rows a))) as [z Hz]. exists z.
    by rewrite map_map, Em. }
  assert (Hins : forall dd' e, holds dd' ts ts (args_rows a) ->
    cache_ok {| _deltaEntries := <[loc := dd']> (_deltaEntries g); _maxEntries := e |} (args_rows a)).
  { intros dd' e Hh dd'' E. simpl in E. rewrite lookup_insert_eq in E. by injection E as <-. }
  destruct Ha as (Hev & Hw & Hh & _). unfold compressOrDelta, createDelta. rewrite Hev. simpl.
  destruct (Nat.ltb_spec 256 (ta_width a)); [lia|]. destruct (Nat.ltb_spec 256 (ta_height a)); [lia|]. simpl.
  rewrite Ed. simpl. rewrite El. destruct (_deltaEntries g !! loc) as [ce|] eqn:Ece.
  - pose proof (Hc _ Ece) as Hce. assert (Hrep : holds (replaceAndFree ce dd) ts ts (args_rows a)) by exact Hd.
    destruct (if ta_forceKeyframe a then None else makeDelta compress ce dd (ta_mode a)) as [d|] eqn:Emd; simpl.
    + eexists _, _, _. split; [done|]. split; [done|]. split; [by apply Hins|]. right. split; [done|].
      destruct (ta_forceKeyframe a); [done|]. rewrite Em in Emd.
      destruct (makeDelta_step mode ts compress ce dd prev (args_rows a) d) as (z & -> & Hz); [lia|done..|].
      exists z. split; [done|]. destruct Hz as [[-> ->]|(x & Hx & Hne & Hstep)]; [exists []; by split; left|].
      exists x. split; [done|by right].
    + destruct (Hkey _ Hrep) as (z & Hz & Hz'). simpl in Hz. rewrite Hz. eexists _, _, _. split; [done|].
      split; [done|]. split; [by apply Hins|]. left. by exists z.
  - simpl. destruct (Hkey _ Hd) as (z & Hz & Hz'). rewrite Hz. eexists _, _, _. split; [done|].
    split; [done|]. split; [by apply Hins|]. left. by exists z.
Qed.

(** A rendering elsewhere leaves the entry alone. *)
Lemma compressOrDelta_other g a :
  args_ok a -> ta_loc a <> loc ->
  exists g' out n, compressOrDelta compress g a [] = Ok (g', out, n) /\ _deltaEntries g' !! loc = _deltaEntries g !! loc.
Proof using zstd_total.
  intros Ha Hl. destruct (DeltaData_new_ok a Ha) as (dd & Ed & _). destruct Ha as (Hev & Hw & Hh & _).
  unfold compressOrDelta, createDelta. rewrite Hev. simpl.
  destruct (Nat.ltb_spec 256 (ta_width a)); [lia|]. destruct (Nat.ltb_spec 256 (ta_height a)); [lia|]. simpl.
  rewrite Ed. simpl. destruct (_deltaEntries g !! ta_loc a) as [ce|]; simpl;
    [destruct (if ta_forceKeyframe a then _ else _) as [d|]; simpl|];
    try destruct (zstd_total (concat (map (fun row => packForNetwork row (ta_mode a)) (dd_rows dd)))) as [z ->];
    eexists _, _, _; (split; [done|]); simpl; by rewrite lookup_insert_ne.
Qed.

Lemma rebalance_lookup g dropAll dd :
  _deltaEntries (rebalanceDeltasT g dropAll) !! loc = Some dd -> _deltaEntries g !! loc = Some dd.
Proof.
  unfold rebalanceDeltasT. destruct (_ || _); [|done]. simpl. match goal with |- context [take ?n ?es] => generalize (take n es) end.
  intros l.
  induction l as [|e l IH]; simpl; [done|]. rewrite lookup_delete_Some. intros [_ H]. by apply IH.
Qed.

(** ** The invariant of the run *)

(** [hi]: the last wire id of the tile. *)
Record pinv (s : pipeline) (fs : list frame) (hi : Z) : Prop := {
  pv_stores : stores (pl_tile s) fs;
  pv_ascending : ascending fs;
  pv_positive : Forall (fun f : frame => 0 < f.1) fs;
  pv_upto : Forall (fun f : frame => f.1 <= hi) fs;
  pv_cache : cache_ok (pl_gen s) (pl_pixels s);
  pv_stream : (fs = [] /\ _deltaEntries (pl_gen s) !! loc = None) \/ stream fs (pl_pixels s) }.

Definition event_fits (e : kit_event) : Prop :=
  match e with Rendered a => args_ok a /\ event_ok e | _ => True end.

Lemma pinv_gen s fs hi g :
  pinv s fs hi -> (forall dd, _deltaEntries g !! loc = Some dd -> _deltaEntries (pl_gen s) !! loc = Some dd) ->
  pinv {| pl_gen := g; pl_tile := pl_tile s; pl_pixels := pl_pixels s |} fs hi.
Proof.
  intros [H1 H2 H3 H4 H5 H6] Hg. constructor; simpl; try done; [intros dd Hd; by apply H5, Hg|].
  destruct H6 as [[-> H6]|H6]; [left|by right]. split; [done|].
  destruct (_deltaEntries g !! loc) as [dd|] eqn:E; [|done]. rewrite (Hg _ eq_refl) in H6. done.
Qed.

(** One event: the frames after it, and what they are to a browser that was up to
    date at [since]. *)
Lemma pipeline_step_ok s fs hi e :
  event_fits e -> pinv s fs hi -> 0 <= hi -> (forall w, event_wid e = Some w -> hi < w) ->
  exists s' fs', pipeline_step s e = Ok s' /\ pinv s' fs' (default hi (event_wid e)) /\
    (event_wid e <> None -> fs' <> []) /\ (fs <> [] -> fs' <> []) /\
    forall since seen, 0 <= since -> since <= hi -> (fs = [] \/ follows since seen fs (pl_pixels s)) ->
      fs' = [] \/ follows since seen fs' (pl_pixels s').
Proof using zstd_frames zstd_total.
  intros Hfit Hinv Hhi Hlt. destruct e as [a|limit|]; simpl in Hfit |- *.
  2,3: eexists _, fs; split_and!; [done|apply pinv_gen; [done|intros dd Hd; by apply rebalance_lookup in Hd]|done|done|done].
  destruct Hfit as [Ha Hok]. simpl in Hlt. case_bool_decide as El.
  2:{ destruct (compressOrDelta_other (pl_gen s) a Ha El) as (g' & out & n & -> & Hg). simpl.
      eexists _, fs. split_and!; [done|apply pinv_gen; [done|by rewrite Hg]|done|done|done]. }
  destruct (Hok El) as (Ew & Eh & Em). destruct Hinv as [H1 H2 H3 H4 H5 H6].
  destruct (compressOrDelta_ok (pl_gen s) a (pl_pixels s) Ha El Ew Eh Em H5) as (g' & out & n & -> & Ht & Hg' & Hout).
  specialize (Hlt _ eq_refl). simpl rbind. cbn [default]. exists {| pl_gen := g'; pl_tile := appendBlob (pl_tile s) (ta_wid a) out; pl_pixels := args_rows a |},
    (append_frame fs (ta_wid a) out).
  assert (Hup : Forall (fun f : frame => f.1 < ta_wid a) fs) by (eapply Forall_impl; [exact H4|]; simpl; lia).
  destruct (append_frame_ok fs (ta_wid a) out H2 H3 Hup ltac:(lia)) as (A1 & A2 & A3 & _ & A5).
  assert (Hne : out <> []) by (destruct Hout as [(z & -> & _)|(_ & z & -> & _)]; done).
  assert (Hs' : stream (append_frame fs (ta_wid a) out) (args_rows a)).
  { destruct H6 as [[-> Hnone]|Hs].
    - destruct Hout as [(z & -> & Hz)|([dd Hdd] & _)]; [|by rewrite Hdd in Hnone].
      exists (ta_wid a, z), [], (args_rows a). split; [unfold append_frame; simpl; by rewrite drop_0|].
      do 2 (split; [done|]). apply frames_nil.
    - apply (stream_append _ (pl_pixels s)); [done|].
      destruct Hout as [(z & -> & Hz)|(_ & z & -> & Hf)]; [left|right]; by exists z. }
  split_and!; [done| |done|done|].
  - constructor; simpl; try done; [by apply stores_append|by right].
  - intros since seen Hs0 Hs1 [->|Hfol]; right; simpl.
    + destruct (append_frame_cases [] (ta_wid a) out) as [[_ ->]|[(pre & x & Hp & _ & E & _)| ->]]; [|by destruct pre|];
        left; eexists _, []; (split; [done|]); simpl; lia.
    + apply (follows_append _ _ _ (pl_pixels s)); [done|lia|].
      destruct Hout as [(z & -> & Hz)|(_ & z & -> & Hf)]; [left|right]; by exists z.
Qed.

(** The last wire id after [es], counting from [hi]. *)
Definition last_wid (hi : Z) (es : list kit_event) : Z := default hi (last (wids es)).

Lemma pipeline_run_ok s fs hi es :
  Forall event_fits es -> StronglySorted Z.lt (hi :: wids es) -> pinv s fs hi -> 0 <= hi ->
  exists s' fs', pipeline_run s es = Ok s' /\ pinv s' fs' (last_wid hi es) /\ hi <= last_wid hi es /\
    (fs <> [] \/ wids es <> [] -> fs' <> []) /\
    forall since seen, 0 <= since -> since <= hi -> (fs = [] \/ follows since seen fs (pl_pixels s)) ->
      fs' = [] \/ follows since seen fs' (pl_pixels s').
Proof using zstd_frames zstd_total.
  intros Hes. revert s fs hi. induction Hes as [|e es He Hes IH]; intros s fs hi Hso Hinv Hhi.
  { exists s, fs. split_and!; [done|done|done|by intros [?|?]|done]. }
  assert (Hw : wids (e :: es) = from_option (fun w => [w]) [] (event_wid e) ++ wids es).
  { unfold wids. change (omap event_wid (e :: es)) with (match event_wid e with Some w => w :: omap event_wid es | None => omap event_wid es end).
    by destruct (event_wid e). }
  rewrite Hw in Hso. destruct (pipeline_step_ok s fs hi e He Hinv Hhi) as (s1 & fs1 & E1 & Hinv1 & Hn1 & Hn1' & Hf1).
  { intros w Ew. rewrite Ew in Hso. simpl in Hso. apply StronglySorted_inv in Hso as [_ Hso].
    apply Forall_cons in Hso. apply Hso. }
  set (hi1 := default hi (event_wid e)) in *.
  assert (Hhi1 : hi <= hi1 /\ StronglySorted Z.lt (hi1 :: wids es)).
  { subst hi1. destruct (event_wid e) as [w|]; simpl in *; [|by split; [lia|]].
    apply StronglySorted_inv in Hso as [Hso1 Hso2]. split; [|done]. apply Forall_cons in Hso2 as [? _]. lia. }
  destruct Hhi1 as [Hle Hso1].
  destruct (IH s1 fs1 hi1 Hso1 Hinv1 ltac:(lia)) as (s' & fs' & E' & Hinv' & Hle' & Hn' & Hf').
  assert (El : last_wid hi (e :: es) = last_wid hi1 es).
  { unfold last_wid. rewrite Hw. subst hi1. destruct (event_wid e) as [w|]; [|done]. simpl.
    apply last_pix_cons. }
  exists s', fs'. rewrite El. split_and!; [simpl; by rewrite E1|done|lia| |].
  - intros Hor. apply Hn'. destruct (event_wid e) as [w|] eqn:Ew; [left; by apply Hn1|].
    destruct Hor as [?|Hor]; [left; by apply Hn1'|]. right. by rewrite Hw in Hor.
  - intros since seen H0 H1 H2. apply Hf'; [done|lia|]. by apply Hf1.
Qed.

Lemma sorted_from_last hi a b : StronglySorted Z.lt (hi :: a ++ b) -> StronglySorted Z.lt (last_pix hi a :: b).
Proof.
  revert hi. induction a as [|x a IH]; intros hi H; [done|]. rewrite last_pix_cons. apply IH.
  apply StronglySorted_inv in H. apply H.
Qed.

Lemma pinv_new : pinv pipeline_new [] 0.
Proof.
  constructor; simpl; [by constructor|constructor|constructor|constructor| |].
  - intros dd Hd. simpl in Hd. by rewrite lookup_empty in Hd.
  - left. split; [done|]. apply lookup_empty.
Qed.

(** ** The browser *)

Lemma frames_decompress prev fs rows :
  frame_steps prev fs rows ->
  exists xs, raw_steps mode ts prev xs rows /\ decompress (payloads fs) = concat xs /\
    forall x z, compress x = Some z -> decompress (z ++ payloads fs) = x ++ concat xs.
Proof using zstd_frames.
  intros Hs. destruct (frame_steps_raw _ _ _ Hs) as (xs & zs & Hr & Hz & ys & Hf & Ec).
  exists xs. split; [done|]. rewrite Hz, <- Ec. split; [by apply zstd_frames|].
  intros x z Hx. apply (zstd_frames (x :: ys) (z :: zs)). by constructor.
Qed.

Lemma newer_split since fs1 fs2 :
  0 < since -> Forall (fun f : frame => f.1 <= since) fs1 -> Forall (fun f : frame => since < f.1) fs2 ->
  List.filter (newer since) (fs1 ++ fs2) = fs2.
Proof.
  intros Hs H1 H2. rewrite List.filter_app. replace (List.filter (newer since) fs1) with (@nil frame).
  - simpl. induction H2 as [|f fs2 Hf _ IH]; simpl; [done|]. unfold newer at 1.
    destruct (Z.ltb_spec since f.1); [|lia]. rewrite orb_true_r. by rewrite IH.
  - induction H1 as [|f fs1 Hf _ IH]; simpl; [done|]. unfold newer at 1.
    destruct (Z.ltb_spec since f.1); [lia|]. destruct (Z.eqb_spec since 0); [lia|]. done.
Qed.
Lemma newer_all since fs f fs' :
  fs = f :: fs' -> since < f.1 -> ascending fs -> List.filter (newer since) fs = fs.
Proof.
  intros -> Hs Ha. apply StronglySorted_inv in Ha as [_ Ha].
  assert (H : Forall (fun g : frame => since < g.1) (f :: fs')).
  { constructor; [done|]. eapply Forall_impl; [exact Ha|]. simpl. lia. }
  clear -H. induction H as [|g gs Hg _ IH]; simpl; [done|]. unfold newer at 1.
  destruct (Z.ltb_spec since g.1); [|lia]. rewrite orb_true_r. by rewrite IH.
Qed.

Lemma needsKeyframe_head t fs f fs' since :
  stores t fs -> fs = f :: fs' -> needsKeyframe t since = Some (since <? f.1).
Proof. intros H ->. unfold needsKeyframe. by rewrite (st_wids _ _ H). Qed.

Lemma browser_update_ok s fs hi since seen img :
  (ts <= 256)%nat -> pinv s fs hi -> fs <> [] -> follows since seen fs (pl_pixels s) ->
  (Forall (fun f : frame => since < f.1) fs \/ img = Some (image mode seen)) -> 0 <= since -> tile_rows ts seen ->
  browser_update s img since ts = Some (image mode (pl_pixels s)).
Proof using zstd_frames.
  intros Hts [H1 H2 H3 H4 H5 H6] Hne Hfol Himg Hs0 Hseen. unfold browser_update.
  rewrite (appendChangesSince_frames _ fs) by done. destruct H6 as [[-> _]|Hstr]; [done|].
  destruct Hfol as [(f & fs' & E & Hlt)|(fs1 & fs2 & -> & Hne1 & Hf1 & Hf2 & Hst)].
  - rewrite (newer_all since fs f fs' E Hlt H2). rewrite bool_decide_eq_true_2 by done. simpl app.
    rewrite (needsKeyframe_head _ _ _ _ _ H1 E), (proj2 (Z.ltb_lt since f.1) Hlt), E.
    destruct Hstr as (f0 & fs0 & rows0 & E0 & Ht & Hk & Hst). rewrite E in E0. injection E0 as <- <-.
    destruct (frames_decompress _ _ _ Hst) as (xs & Hr & _ & Hd). cbn [mbind option_bind].
    change (payloads (f :: fs')) with (f.2 ++ payloads fs').
    pose proof (decode_key_spec mode ts rows0 xs (pl_pixels s) Hts Ht Hr) as Hdec.
    unfold decode_tile in Hdec |- *. by rewrite (Hd _ _ Hk).
  - destruct fs1 as [|f0 fs1]; [done|]. apply Forall_cons in Hf1 as [Hf0 Hf1].
    assert (Hpos : 0 < since) by (apply Forall_cons in H3 as [? _]; lia).
    destruct Himg as [Hall| ->]; [apply Forall_cons in Hall as [? _]; lia|].
    rewrite newer_split by (try done; by constructor).
    case_bool_decide as Hb.
    + rewrite (needsKeyframe_head _ _ _ _ _ H1 eq_refl), (proj2 (Z.ltb_ge since f0.1) Hf0).
      destruct (frames_decompress _ _ _ Hst) as (xs & Hr & Hd & _). simpl app. cbn [mbind option_bind].
      unfold decode_tile. rewrite Hd. cbn [mbind option_bind]. by apply (updateImage_spec mode ts seen xs _ []).
    + subst fs2. by rewrite (frame_steps_nil _ _ Hst).
Qed.

(** C1 (refinement): the compression of tiles is transparent from the kit's
    renderer to the browser's screen, for tiles as the generator asserts them: of an
    even width, at most 256 pixels wide and high, inside their buffer. Whatever sequence of renderings (key frames,
    deltas, unchanged tiles), cache rebalancings and cache drops happens, for
    this tile and for others: the kit never fails; a browser that shows the tile
    as of any earlier moment (or nothing), and asks the server for the changes
    since the wire id of that moment, decodes what it gets to exactly the pixels
    of the last rendering. *)
Theorem browser_shows_last_pixels es1 es2 :
  (ts <= 256)%nat -> Forall event_fits (es1 ++ es2) ->
  StronglySorted Z.lt (0 :: wids (es1 ++ es2)) -> wids (es1 ++ es2) <> [] ->
  exists s1 s2,
    pipeline_run pipeline_new es1 = Ok s1 /\ pipeline_run s1 es2 = Ok s2 /\
    browser_update s2 (if wids es1 then None else Some (image mode (pl_pixels s1))) (last_wid 0 es1) ts
      = Some (image mode (pl_pixels s2)).
Proof using zstd_frames zstd_total.
  intros Hts Hes Hso Hne. apply Forall_app in Hes as [He1 He2]. unfold wids in Hso, Hne.
  rewrite omap_app in Hso, Hne. fold (wids es1) (wids es2) in Hso, Hne.
  destruct (pipeline_run_ok _ _ 0 es1 He1 (StronglySorted_app_1_l _ (0 :: wids es1) (wids es2) Hso) pinv_new ltac:(lia))
    as (s1 & fs1 & E1 & Hinv1 & Hle1 & Hn1 & _).
  destruct (pipeline_run_ok s1 fs1 (last_wid 0 es1) es2 He2 (sorted_from_last 0 (wids es1) _ Hso) Hinv1 Hle1)
    as (s2 & fs2 & E2 & Hinv2 & Hle2 & Hn2 & Hf2).
  exists s1, s2. do 2 (split; [done|]). assert (Hfs2 : fs2 <> []).
  { apply Hn2. destruct (wids es1) as [|w ws] eqn:Ew; [by right|left]. apply Hn1. by right. }
  destruct (pv_stream _ _ _ Hinv2) as [[-> _]|Hstr2]; [done|].
  destruct (decide (wids es1 = [])) as [Ew|Ew].
  - unfold last_wid. rewrite Ew. simpl. assert (Hall : Forall (fun f : frame => 0 < f.1) fs2) by apply (pv_positive _ _ _ Hinv2).
    apply (browser_update_ok s2 fs2 (last_wid (last_wid 0 es1) es2) 0 (pl_pixels s2)); try done; [|by left|by eapply stream_rows].
    left. destruct fs2 as [|f fs2]; [done|]. exists f, fs2. split; [done|]. apply Forall_cons in Hall. apply Hall.
  - assert (Hfs1 : fs1 <> []) by (apply Hn1; by right).
    destruct (pv_stream _ _ _ Hinv1) as [[-> _]|Hstr1]; [done|].
    apply (browser_update_ok s2 fs2 (last_wid (last_wid 0 es1) es2) _ (pl_pixels s1)); try done;
      [|right; by destruct (wids es1)|by eapply stream_rows].
    destruct (Hf2 (last_wid 0 es1) (pl_pixels s1)) as [->|H]; [done|done| |done|done]. right. right.
    exists fs1, []. rewrite app_nil_r. do 2 (split; [done|]). split; [apply (pv_upto _ _ _ Hinv1)|].
    split; [constructor|apply frames_nil].
Qed.
End pipeline.

(** Two renderings of a 2 by 2 tile, the second with one pixel changed, between
    them a rebalancing and a drop of the cache; zstd stood in for by copying. *)
Definition sample_loc : TileLocation :=
  {| loc_left := 0; loc_top := 0; loc_size := 3840; loc_part := 0; loc_canonicalViewId := 1; loc_viewMode := 0 |}.
Definition sample_args (pixmap : bytes) (wid : Z) (key : bool) : tile_args :=
  {| ta_pixmap := pixmap; ta_startX := 0; ta_startY := 0; ta_width := 2; ta_height := 2; ta_bufferWidth := 2;
     ta_loc := sample_loc; ta_wid := wid; ta_forceKeyframe := key; ta_mode := LOK_TILEMODE_BGRA |}.
Definition sample_pixmap1 : bytes := [1; 2; 3; 255; 1; 2; 3; 255; 0; 0; 0; 0; 9; 9; 9; 255].
Definition sample_pixmap2 : bytes := [1; 2; 3; 255; 1; 2; 3; 255; 7; 0; 0; 0; 9; 9; 9; 255].
Definition sample_before : list kit_event := [Rendered (sample_args sample_pixmap1 4 false); Rebalanced 96].
Definition sample_after : list kit_event :=
  [Rendered (sample_args sample_pixmap2 5 false); Rendered (sample_args sample_pixmap2 6 false)].

Lemma browser_shows_last_pixels_witness :
  exists s1 s2,
    pipeline_run Some sample_loc pipeline_new sample_before = Ok s1 /\
    pipeline_run Some sample_loc s1 sample_after = Ok s2 /\
    browser_update (fun x => x) s2 (Some (image LOK_TILEMODE_BGRA (pl_pixels s1))) 4 2
      = Some [3; 2; 1; 255; 3; 2; 1; 255; 0; 0; 7; 0; 9; 9; 9; 255].
Proof.
  destruct (browser_shows_last_pixels Some (fun x => x) sample_loc LOK_TILEMODE_BGRA 2) with
    (es1 := sample_before) (es2 := sample_after) as (s1 & s2 & E1 & E2 & H).
  - induction 1 as [|x z xs zs [= ->] _ IH]; simpl; [done|]. by rewrite IH.
  - intros x. by eexists.
  - lia.
  - repeat constructor; simpl; lia.
  - vm_compute. repeat constructor.
  - by vm_compute.
  - exists s1, s2. do 2 (split; [done|]). refine (eq_trans H _). clear H. vm_compute in E1. injection E1 as <-.
    vm_compute in E2. injection E2 as <-. vm_compute. reflexivity.
Defined.
