(* ===== verification/ThreadPool.v ===== *)
(** * The pool of threads that compress tiles

    Models [ThreadPool] ([common/ThreadPool.hpp]): the caller pushes jobs, [run] works on
    them together with the threads of the pool, and returns when all are done. A step of
    the model is what a thread does while it holds the mutex, or one atomic action of a
    job; a job is the list of its atomic actions on the state the jobs share, of which one
    may throw. A waiting thread goes on when it was notified, and, where the platform
    allows it, spuriously. *)

From S2P Require Import Prelude.

Open Scope cool_scope.

Section pool.
Context {S : Type}.

(** [ThreadFn]; the result [None] is an exception. *)
Definition ThreadFn : Type := list (S -> option S).

(** A thread of the pool: it waits in [work] (has it been notified?), runs a job outside
    the lock, or has left the loop. *)
Inductive pool_thread := Waiting (notified : bool) | Working (fn : ThreadFn) | Exited.

(** The thread that uses the pool: outside of [run], in [runOne] (with [useThreads]), or
    waiting for [_complete]. *)
Inductive pool_caller := Outside | Running (useThreads : bool) (fn : ThreadFn) | WaitsForAll (notified : bool).

Record ThreadPool := {
  tp_work : list ThreadFn;
  tp_working : nat;
  tp_running : bool;
  tp_shutdown : bool;
  tp_threads : list pool_thread;
  tp_caller : pool_caller;
  tp_shared : S }.

(** The constructor, with [start]. *)
Definition ThreadPool_new (maxConcurrency : Z) (shared : S) : ThreadPool :=
  {| tp_work := []; tp_working := 0; tp_running := false; tp_shutdown := false;
     tp_threads := repeat (Waiting false) (Z.to_nat (maxConcurrency - 1)); tp_caller := Outside; tp_shared := shared |}.

Definition tp_set (p : ThreadPool) (work : list ThreadFn) (working : nat) (threads : list pool_thread) (caller : pool_caller)
    : ThreadPool :=
  {| tp_work := work; tp_working := working; tp_running := tp_running p; tp_shutdown := tp_shutdown p;
     tp_threads := threads; tp_caller := caller; tp_shared := tp_shared p |}.
Definition tp_setRunning (running : bool) (p : ThreadPool) : ThreadPool :=
  {| tp_work := tp_work p; tp_working := tp_working p; tp_running := running; tp_shutdown := tp_shutdown p;
     tp_threads := tp_threads p; tp_caller := tp_caller p; tp_shared := tp_shared p |}.
Definition tp_setShared (p : ThreadPool) (s : S) : ThreadPool :=
  {| tp_work := tp_work p; tp_working := tp_working p; tp_running := tp_running p; tp_shutdown := tp_shutdown p;
     tp_threads := tp_threads p; tp_caller := tp_caller p; tp_shared := s |}.

(** [_cond.notify_all]. *)
Definition notify_thread (t : pool_thread) : pool_thread := match t with Waiting _ => Waiting true | _ => t end.

(** [std::queue::push]. *)
Definition pushWork (fn : ThreadFn) (p : ThreadPool) : ThreadPool :=
  tp_set p (tp_work p ++ [fn]) (tp_working p) (tp_threads p) (tp_caller p).

Definition stop (p : ThreadPool) : ThreadPool :=
  {| tp_work := tp_work p; tp_working := tp_working p; tp_running := tp_running p; tp_shutdown := true;
     tp_threads := map notify_thread (tp_threads p); tp_caller := tp_caller p; tp_shared := tp_shared p |}.

(** The loop of [run], from its condition to the next [lock.unlock()], or to the end. *)
Definition run_loop (useThreads : bool) (p : ThreadPool) : ThreadPool :=
  match tp_work p with
  | fn :: work => tp_set p work (tp_working p + 1) (tp_threads p) (Running useThreads fn)
  | [] =>
      if useThreads && (0 <? tp_working p)%nat then tp_set p [] (tp_working p) (tp_threads p) (WaitsForAll false)
      else tp_setRunning false (tp_set p [] (tp_working p) (tp_threads p) Outside)
  end.

Definition run (p : ThreadPool) : ThreadPool :=
  let useThreads := (1 <? length (tp_threads p))%nat && (1 <? length (tp_work p))%nat in
  let threads := if useThreads then map notify_thread (tp_threads p) else tp_threads p in
  run_loop useThreads (tp_setRunning true (tp_set p (tp_work p) (tp_working p) threads (tp_caller p))).

(** The loops of [work], for thread [i] that has the lock. *)
Definition work_loop (i : nat) (p : ThreadPool) : ThreadPool :=
  if tp_shutdown p then tp_set p (tp_work p) (tp_working p) (<[i := Exited]> (tp_threads p)) (tp_caller p)
  else
    match tp_work p with
    | fn :: work =>
        if tp_running p then tp_set p work (tp_working p + 1) (<[i := Working fn]> (tp_threads p)) (tp_caller p)
        else tp_set p (tp_work p) (tp_working p) (<[i := Waiting false]> (tp_threads p)) (tp_caller p)
    | [] => tp_set p [] (tp_working p) (<[i := Waiting false]> (tp_threads p)) (tp_caller p)
    end.

(** The end of [runOne]: the job is counted off, and [_complete] notified. *)
Definition job_done (p : ThreadPool) : ThreadPool :=
  let working := (tp_working p - 1)%nat in
  tp_set p (tp_work p) working (tp_threads p)
    (match tp_caller p with
     | WaitsForAll n => WaitsForAll (n || ((length (tp_work p) =? 0)%nat && (working =? 0)%nat))
     | c => c
     end).

(** An action, or the [catch] that ends the job. *)
Definition act (a : S -> option S) (rest : ThreadFn) (s : S) : S * ThreadFn :=
  match a s with Some s' => (s', rest) | None => (s, []) end.

(** [spurious]: threads may wake up without having been notified. *)
Inductive pool_step (spurious : bool) : ThreadPool -> ThreadPool -> Prop :=
| step_push p fn : tp_caller p = Outside -> pool_step spurious p (pushWork fn p)
| step_stop p : tp_caller p = Outside -> pool_step spurious p (stop p)
| step_run p : tp_caller p = Outside -> pool_step spurious p (run p)
| step_caller_acts p u a fn s fn' :
    tp_caller p = Running u (a :: fn) -> act a fn (tp_shared p) = (s, fn') ->
    pool_step spurious p (tp_setShared (tp_set p (tp_work p) (tp_working p) (tp_threads p) (Running u fn')) s)
| step_caller_done p u : tp_caller p = Running u [] -> pool_step spurious p (run_loop u (job_done p))
| step_complete p n :
    tp_caller p = WaitsForAll n -> n = true \/ spurious = true -> tp_working p = 0%nat -> tp_work p = [] ->
    pool_step spurious p (tp_setRunning false (tp_set p [] 0 (tp_threads p) Outside))
| step_wake p i n :
    tp_threads p !! i = Some (Waiting n) -> n = true \/ spurious = true -> pool_step spurious p (work_loop i p)
| step_thread_acts p i a fn s fn' :
    tp_threads p !! i = Some (Working (a :: fn)) -> act a fn (tp_shared p) = (s, fn') ->
    pool_step spurious p (tp_setShared (tp_set p (tp_work p) (tp_working p) (<[i := Working fn']> (tp_threads p)) (tp_caller p)) s)
| step_thread_done p i :
    tp_threads p !! i = Some (Working []) -> pool_step spurious p (work_loop i (job_done p)).

(** ** What [run] promises

    The jobs run to their ends, their actions interleaved in some way. *)
Inductive runs_to : list ThreadFn -> S -> S -> Prop :=
| runs_done fns s : Forall (fun fn => fn = []) fns -> runs_to fns s s
| runs_act fns a fn fns' s s1 fn' s2 :
    fns ≡ₚ (a :: fn) :: fns' -> act a fn s = (s1, fn') -> runs_to (fn' :: fns') s1 s2 -> runs_to fns s s2.
End pool.
Arguments ThreadFn : clear implicits.
Arguments pool_thread : clear implicits.
Arguments pool_caller : clear implicits.
Arguments ThreadPool : clear implicits.
