(* ===== verification/ThreadPoolSpec.v ===== *)
(** * The pool of threads runs every job once

    When [run] returns, the jobs that were pushed have run to their ends, each once and
    nothing else, interleaved in some way; and it does return. With one thread besides
    the caller, which is the default, that needs threads which wake up only when they are
    notified ([ThreadPool]). *)

From S2P Require Import Prelude ThreadPool.

Open Scope cool_scope.

Section spec.
Context {S : Type}.
Implicit Types (p q : ThreadPool S) (fn : ThreadFn S) (fns : list (ThreadFn S)) (s : S) (t : pool_thread S).

(** ** Interleavings *)

Lemma runs_to_perm fns fns' s s' : fns ≡ₚ fns' -> runs_to fns s s' -> runs_to fns' s s'.
Proof.
  intros Hp H. destruct H as [fns s Hd|fns a fn rest s s1 fn' s2 Hf Ha H].
  - apply runs_done. by rewrite <- Hp.
  - eapply runs_act; [by rewrite <- Hp, Hf|done|done].
Qed.

Lemma runs_to_ended fns s s' : runs_to fns s s' -> runs_to ([] :: fns) s s'.
Proof.
  induction 1 as [fns s Hd|fns a fn rest s s1 fn' s2 Hf Ha H IH]; [by apply runs_done; constructor|].
  eapply (runs_act _ a fn ([] :: rest)); [by rewrite Hf; apply Permutation_swap|exact Ha|].
  eapply runs_to_perm; [|exact IH]. apply Permutation_swap.
Qed.

(** One job after the other. *)
Fixpoint run_fn fn s : S := match fn with [] => s | a :: fn' => match a s with Some s1 => run_fn fn' s1 | None => s end end.
Definition run_all fns s : S := fold_left (fun s fn => run_fn fn s) fns s.

Lemma runs_to_sequential fns s : runs_to fns s (run_all fns s).
Proof.
  revert s. induction fns as [|fn fns IH]; intros s; [by apply runs_done|]. cbn.
  assert (H : forall fn s, runs_to (fn :: fns) s (run_all fns (run_fn fn s))).
  { clear s fn. induction fn as [|a fn IHfn]; intros s; [by apply runs_to_ended|]. cbn. unfold act. destruct (a s) as [s1|] eqn:E.
    - eapply (runs_act _ a fn fns _ s1 fn); [done|by unfold act; rewrite E|apply IHfn].
    - eapply (runs_act _ a fn fns _ s []); [done|by unfold act; rewrite E|apply runs_to_ended, IH]. }
  apply H.
Qed.

(** ** The jobs that are left *)

Definition thread_job t : option (ThreadFn S) := match t with Working fn => Some fn | _ => None end.
Definition caller_job (c : pool_caller S) : option (ThreadFn S) := match c with Running _ fn => Some fn | _ => None end.
Definition jobs (ts : list (pool_thread S)) : list (ThreadFn S) := omap thread_job ts.
#[local] Arguments jobs : simpl never.
Definition remaining p : list (ThreadFn S) := option_list (caller_job (tp_caller p)) ++ jobs (tp_threads p) ++ tp_work p.

Lemma jobs_lookup ts i t : ts !! i = Some t -> jobs ts ≡ₚ option_list (thread_job t) ++ jobs (delete i ts).
Proof.
  intros Hi. unfold jobs. rewrite <- (take_drop_middle ts i t Hi) at 1. rewrite delete_take_drop, !omap_app. cbn [omap list_omap].
  destruct (thread_job t); cbn; [|done]. by rewrite Permutation_middle.
Qed.
Lemma jobs_insert ts i t t' : ts !! i = Some t -> jobs (<[i := t']> ts) ≡ₚ option_list (thread_job t') ++ jobs (delete i ts).
Proof.
  intros Hi. assert (Hl : (i < length ts)%nat) by by eapply lookup_lt_Some.
  rewrite (jobs_lookup _ i t') by by apply list_lookup_insert_eq.
  rewrite !delete_take_drop, take_insert_ge, drop_insert_lt by lia. done.
Qed.

Lemma jobs_notify ts : jobs (map notify_thread ts) = jobs ts.
Proof. unfold jobs. induction ts as [|t ts IH]; [done|]. cbn. rewrite IH. by destruct t. Qed.

Lemma no_jobs ts : jobs ts = [] -> forall i fn, ts !! i <> Some (Working fn).
Proof.
  intros H i fn Hi. apply jobs_lookup in Hi. rewrite H in Hi. by apply Permutation_nil_cons in Hi.
Qed.

(** ** The invariant *)

Record pool_ok (spurious : bool) p : Prop := {
  po_working : tp_working p = (length (option_list (caller_job (tp_caller p))) + length (jobs (tp_threads p)))%nat;
  po_running : tp_caller p <> Outside -> tp_running p = true;
  po_outside : tp_caller p = Outside -> tp_running p = false /\ jobs (tp_threads p) = [];
  po_unused fn : tp_caller p = Running false fn ->
    jobs (tp_threads p) = [] /\ (tp_work p = [] \/ (length (tp_threads p) <= 1)%nat);
  po_waits n : tp_caller p = WaitsForAll n -> tp_work p = [] /\ (n = false -> (0 < tp_working p)%nat);
  po_single i : (length (tp_threads p) <= 1)%nat -> tp_threads p !! i = Some (Waiting true) -> tp_shutdown p = true;
  po_platform : spurious = true -> length (tp_threads p) <> 1%nat }.

Lemma jobs_park ts i t :
  ts !! i = Some t -> length (jobs ts) = (length (option_list (thread_job t)) + length (jobs (<[i := Waiting false]> ts)))%nat.
Proof. intros Hi. rewrite (jobs_insert _ _ t) by done. rewrite (jobs_lookup _ _ _ Hi), length_app. done. Qed.

(** A thread that has the lock takes no part for the moment. *)
Definition parked (i : nat) p : ThreadPool S :=
  tp_set p (tp_work p) (tp_working p) (<[i := Waiting false]> (tp_threads p)) (tp_caller p).

Lemma work_loop_parked i p : work_loop i (parked i p) = work_loop i p.
Proof. unfold work_loop, parked. cbn. destruct (tp_shutdown p), (tp_work p), (tp_running p); by rewrite ?list_insert_insert_eq. Qed.

Lemma single_insert i t ts b :
  t <> Waiting true -> (forall j, (length ts <= 1)%nat -> ts !! j = Some (Waiting true) -> b = true) ->
  forall j, (length (<[i := t]> ts) <= 1)%nat -> <[i := t]> ts !! j = Some (Waiting true) -> b = true.
Proof.
  intros Ht H j. rewrite length_insert. intros Hl Hj. destruct (decide (i = j)) as [<-|Hne].
  - apply list_lookup_insert_Some in Hj as [(_ & E & _)|[? _]]; [by subst t|done].
  - rewrite list_lookup_insert_ne in Hj by done. by apply (H j).
Qed.

Lemma parked_ok spurious i p n :
  pool_ok spurious p -> tp_threads p !! i = Some (Waiting n) -> pool_ok spurious (parked i p).
Proof.
  intros [Hw Hru Ho Hu Hwa Hs Hpl] Hi. pose proof (jobs_park _ _ _ Hi) as Hj. cbn in Hj.
  split; unfold parked; cbn; try rewrite length_insert.
  - lia.
  - exact Hru.
  - intros Hc. split; [by apply Ho|]. apply Ho in Hc as [_ Hc]. rewrite Hc in Hj. by apply length_zero_iff_nil.
  - intros fn Hc. apply Hu in Hc as [Hc Hr]. rewrite Hc in Hj. split; [by apply length_zero_iff_nil|done].
  - exact Hwa.
  - intros j. rewrite <- (length_insert _ i (Waiting false)). by apply single_insert.
  - exact Hpl.
Qed.

Lemma done_ok spurious i p :
  pool_ok spurious p -> tp_threads p !! i = Some (Working []) -> pool_ok spurious (parked i (job_done p)).
Proof.
  intros [Hw Hru Ho Hu Hwa Hs Hpl] Hi. pose proof (jobs_park _ _ _ Hi) as Hj. cbn in Hj.
  assert (Hne : jobs (tp_threads p) <> []) by (intros E; by apply (no_jobs _ E i [])).
  split; unfold parked, job_done; cbn; try rewrite length_insert.
  - destruct (tp_caller p) as [|u fn|m]; cbn in *; lia.
  - intros Hc. apply Hru. intros E. by rewrite E in Hc.
  - intros Hc. destruct (tp_caller p) eqn:Ec; try discriminate. by destruct (Ho eq_refl).
  - intros fn Hc. destruct (tp_caller p) eqn:Ec; try discriminate. injection Hc as -> ->. by destruct (Hu _ eq_refl).
  - intros n Hc. destruct (tp_caller p) as [|u fn|m] eqn:Ec; try discriminate. destruct (Hwa _ eq_refl) as [Hwk Hm]. split; [done|].
    rewrite Hwk in Hc. cbn in Hc. intros ->. injection Hc as Hc. apply orb_false_iff in Hc as [_ Hc%Nat.eqb_neq]. lia.
  - intros j. rewrite <- (length_insert _ i (Waiting false)). by apply single_insert.
  - exact Hpl.
Qed.

Lemma work_loop_ok spurious i p :
  pool_ok spurious p -> tp_threads p !! i = Some (Waiting false) ->
  (forall fn, tp_caller p = Running false fn -> tp_work p = [] \/ tp_shutdown p = true) -> pool_ok spurious (work_loop i p).
Proof.
  intros Hp Hi Hal. pose proof (parked_ok _ _ _ _ Hp Hi) as Hpark. unfold parked in Hpark. unfold work_loop.
  pose proof Hp as [Hw Hru Ho Hu Hwa Hs Hpl].
  assert (Hj : forall t, length (jobs (<[i := t]> (tp_threads p))) = (length (option_list (thread_job t)) + length (jobs (tp_threads p)))%nat).
  { intros t. rewrite (jobs_insert _ _ _ t Hi), (jobs_lookup _ _ _ Hi), length_app. done. }
  assert (Hnil : forall t, thread_job t = None -> jobs (tp_threads p) = [] -> jobs (<[i := t]> (tp_threads p)) = []).
  { intros t Ht E. apply length_zero_iff_nil. rewrite Hj, E, Ht. done. }
  destruct (tp_shutdown p) eqn:Esh.
  { split; cbn; try rewrite length_insert; [|exact Hru|intros Hc; split; [|apply Hnil; [done|]]; by apply Ho|
      intros fn Hc; apply Hu in Hc as [? ?]; split; [by apply Hnil|done]|exact Hwa|by rewrite Esh|exact Hpl].
    rewrite Hj. exact Hw. }
  destruct (tp_work p) as [|fn work] eqn:Ework; [exact Hpark|]. destruct (tp_running p) eqn:Er; [|exact Hpark].
  split; cbn; try rewrite length_insert.
  - rewrite Hj. cbn. lia.
  - done.
  - intros Hc. apply Ho in Hc as [? _]. congruence.
  - intros fn' Hc. destruct (Hal _ Hc); congruence.
  - intros n Hc. apply Hwa in Hc as [? _]. congruence.
  - intros j. rewrite <- (length_insert _ i (Working fn)). rewrite Esh. by apply single_insert.
  - exact Hpl.
Qed.

Lemma run_loop_ok spurious u p :
  tp_working p = length (jobs (tp_threads p)) -> tp_running p = true ->
  (forall i, (length (tp_threads p) <= 1)%nat -> tp_threads p !! i = Some (Waiting true) -> tp_shutdown p = true) ->
  (spurious = true -> length (tp_threads p) <> 1%nat) ->
  (u = false -> jobs (tp_threads p) = [] /\ ((length (tp_work p) <= 1)%nat \/ (length (tp_threads p) <= 1)%nat)) ->
  pool_ok spurious (run_loop u p).
Proof.
  intros Hw Hr Hs Hpl Hu. unfold run_loop. destruct (tp_work p) as [|fn work] eqn:Ework.
  - destruct (u && (0 <? tp_working p)%nat) eqn:E; split; cbn; try done.
    + intros n [= <-]. split; [done|]. intros _. apply andb_true_iff in E as [_ E%Nat.ltb_lt]. exact E.
    + intros _. split; [done|]. apply length_zero_iff_nil. rewrite <- Hw. apply andb_false_iff in E as [->|E%Nat.ltb_ge]; [|lia].
      destruct Hu as [Hj _]; [done|]. by rewrite Hw, Hj.
  - split; cbn; try done; [lia|]. intros fn' [= -> _]. destruct Hu as [Hj Hl]; [done|]. split; [done|].
    destruct Hl as [Hl|Hl]; [left|by right]. cbn in Hl. apply length_zero_iff_nil. lia.
Qed.

Lemma pool_step_ok spurious p q : pool_step spurious p q -> pool_ok spurious p -> pool_ok spurious q.
Proof.
  intros Hstep Hp. destruct Hstep as [p fn Hc|p Hc|p Hc|p u a fn s fn' Hc Ha|p u Hc|p n Hc Hn Hw0 Hwk|p i n Hi Hn|p i a fn s fn' Hi Ha|p i Hi].
  - destruct Hp as [Hw Hru Ho Hu Hwa Hs Hpl]. split; cbn; try done; by rewrite Hc.
  - destruct Hp as [Hw Hru Ho Hu Hwa Hs Hpl]. split; cbn; rewrite ?jobs_notify, ?length_map; done.
  - destruct Hp as [Hw Hru Ho Hu Hwa Hs Hpl]. unfold run. destruct (Ho Hc) as [_ Hj]. rewrite Hc, Hj in Hw.
    destruct (_ && _) eqn:Eu; apply run_loop_ok; cbn; rewrite ?jobs_notify, ?length_map, ?Hj; try done.
    + intros i Hl. apply andb_true_iff in Eu as [Eu%Nat.ltb_lt _]. lia.
    + intros _. split; [done|]. apply andb_false_iff in Eu as [Eu%Nat.ltb_ge|Eu%Nat.ltb_ge]; [by right|by left].
  - destruct Hp as [Hw Hru Ho Hu Hwa Hs Hpl]. rewrite Hc in Hw. split; cbn; try done.
    + intros _. apply Hru. by rewrite Hc.
    + intros fn2 [= -> _]. by apply (Hu (a :: fn)).
  - destruct Hp as [Hw Hru Ho Hu Hwa Hs Hpl]. rewrite Hc in Hw. cbn in Hw. apply run_loop_ok; cbn; rewrite ?Hw; try done; try lia.
    + apply Hru. by rewrite Hc.
    + intros ->. destruct (Hu _ Hc) as [Hj Hr]. split; [done|]. destruct Hr as [->|Hr]; [by left; simpl; lia|by right].
  - destruct Hp as [Hw Hru Ho Hu Hwa Hs Hpl]. rewrite Hc in Hw. cbn in Hw.
    assert (Hj : jobs (tp_threads p) = []) by (apply length_zero_iff_nil; lia). split; cbn; rewrite ?Hj; done.
  - rewrite <- work_loop_parked. apply work_loop_ok; [by eapply parked_ok|cbn; apply list_lookup_insert_eq; by eapply lookup_lt_Some|].
    intros fn Hc. cbn in *. destruct Hp as [Hw Hru Ho Hu Hwa Hs Hpl]. destruct (Hu _ Hc) as [_ [Hwk|Hl]]; [by left|right].
    destruct Hn as [->|Hsp]; [by apply (Hs i)|]. apply Hpl in Hsp. apply lookup_lt_Some in Hi. lia.
  - destruct Hp as [Hw Hru Ho Hu Hwa Hs Hpl]. assert (Hne : jobs (tp_threads p) <> []) by (intros E; by apply (no_jobs _ E i (a :: fn))).
    assert (Hl : length (jobs (<[i := Working fn']> (tp_threads p))) = length (jobs (tp_threads p))).
    { rewrite (jobs_insert _ _ _ _ Hi), (jobs_lookup _ _ _ Hi). by rewrite !length_app. }
    split; cbn; rewrite ?length_insert, ?Hl; try done.
    + intros Hc. by destruct (Ho Hc).
    + intros fn2 Hc. by destruct (Hu _ Hc).
    + intros j Hj. apply (single_insert i (Working fn') (tp_threads p)); [done|done|]. by rewrite length_insert.
  - rewrite <- work_loop_parked. apply work_loop_ok; [by apply done_ok|cbn; apply list_lookup_insert_eq; by eapply lookup_lt_Some|].
    intros fn Hc. cbn in Hc. destruct Hp as [Hw Hru Ho Hu Hwa Hs Hpl]. destruct (tp_caller p) eqn:Ec; try discriminate. injection Hc as -> ->.
    destruct (Hu _ eq_refl) as [E _]. by destruct (no_jobs _ E i []).
Qed.

(** ** What a step does to the jobs *)

Lemma remaining_run_loop u p : remaining (run_loop u p) ≡ₚ jobs (tp_threads p) ++ tp_work p.
Proof.
  unfold run_loop, remaining. destruct (tp_work p) as [|fn work] eqn:E.
  - by destruct (u && _).
  - cbn. by rewrite Permutation_middle.
Qed.

Lemma remaining_parked i p t :
  tp_threads p !! i = Some t -> remaining p ≡ₚ option_list (thread_job t) ++ remaining (parked i p).
Proof.
  intros Hi. unfold remaining, parked. cbn. rewrite (jobs_lookup _ _ _ Hi), (jobs_insert _ _ _ (Waiting false) Hi). cbn.
  solve_Permutation.
Qed.

Lemma remaining_work_loop i p : tp_threads p !! i = Some (Waiting false) -> remaining (work_loop i p) ≡ₚ remaining p.
Proof.
  intros Hi. unfold work_loop, remaining. destruct (tp_shutdown p); [|destruct (tp_work p) as [|fn work], (tp_running p)]; cbn;
    rewrite (jobs_lookup _ _ _ Hi), (jobs_insert _ _ _ _ Hi); cbn; try done. solve_Permutation.
Qed.

Lemma shared_work_loop i p : tp_shared (work_loop i p) = tp_shared p.
Proof. unfold work_loop. by destruct (tp_shutdown p), (tp_work p), (tp_running p). Qed.
Lemma shared_run_loop u p : tp_shared (run_loop u p) = tp_shared p.
Proof. unfold run_loop. destruct (tp_work p); [by destruct (u && _)|done]. Qed.

(** A step of somebody while the caller is in [run]. *)
Definition in_run (spurious : bool) p q : Prop := tp_caller p <> Outside /\ pool_step spurious p q.

Lemma remaining_done p : remaining (job_done p) = remaining p.
Proof. unfold remaining, job_done. cbn. by destruct (tp_caller p). Qed.

Lemma in_run_refines spurious p q s :
  in_run spurious p q -> runs_to (remaining q) (tp_shared q) s -> runs_to (remaining p) (tp_shared p) s.
Proof.
  intros [Hout Hstep]. destruct Hstep as [p fn Hc|p Hc|p Hc|p u a fn s1 fn' Hc Ha|p u Hc|p n Hc Hn Hw0 Hwk|p i n Hi Hn|p i a fn s1 fn' Hi Ha|p i Hi];
    try done; intros H.
  - eapply runs_act; [|exact Ha|exact H]. unfold remaining. by rewrite Hc.
  - rewrite shared_run_loop in H. eapply runs_to_perm; [|by apply runs_to_ended, H].
    rewrite remaining_run_loop. unfold remaining. by rewrite Hc.
  - unfold remaining in H |- *. rewrite Hc, Hwk. cbn in H |- *. done.
  - rewrite <- work_loop_parked, shared_work_loop in H. eapply runs_to_perm; [|exact H].
    rewrite remaining_work_loop by (cbn; apply list_lookup_insert_eq; by eapply lookup_lt_Some).
    by rewrite (remaining_parked i p _ Hi).
  - eapply (runs_act _ a fn (remaining (parked i p))); [exact (remaining_parked i p _ Hi)|exact Ha|].
    eapply runs_to_perm; [|exact H]. unfold remaining, parked. cbn. rewrite !(jobs_insert _ _ _ _ Hi). cbn. solve_Permutation.
  - rewrite <- work_loop_parked, shared_work_loop in H. eapply runs_to_perm; [|by apply runs_to_ended, H].
    rewrite remaining_work_loop by (cbn; apply list_lookup_insert_eq; by eapply lookup_lt_Some).
    rewrite <- (remaining_done p). by rewrite (remaining_parked i (job_done p) _ Hi).
Qed.

(** ** Progress *)

Definition weight fn : nat := length fn + 1.
Definition thread_weight t : nat := match t with Waiting true => 1 | _ => 0 end.
Definition caller_weight (c : pool_caller S) : nat := match c with Outside => 0 | WaitsForAll _ => 1 | Running _ _ => 2 end.
Definition measure p : nat :=
  sum_list_with weight (remaining p) + sum_list_with thread_weight (tp_threads p) + caller_weight (tp_caller p).

Lemma sum_with_insert {A} (f : A -> nat) l i x y :
  l !! i = Some x -> (sum_list_with f (<[i := y]> l) + f x = sum_list_with f l + f y)%nat.
Proof.
  revert i. induction l as [|z l IH]; intros [|i] Hi; simplify_eq/=; [lia|]. specialize (IH _ Hi). lia.
Qed.

Lemma act_weight a fn s s' fn' : act a fn s = (s', fn') -> (weight fn' < weight (a :: fn))%nat.
Proof. unfold act, weight. destruct (a s); intros [= <- <-]; simpl; lia. Qed.

Lemma run_loop_weights u p :
  tp_threads (run_loop u p) = tp_threads p /\ (caller_weight (tp_caller (run_loop u p)) <= 2)%nat.
Proof. unfold run_loop. destruct (tp_work p); [destruct (u && _)|]; cbn; split; (done || lia). Qed.

Lemma work_loop_weights i p t :
  tp_threads p !! i = Some t -> tp_caller (work_loop i p) = tp_caller p /\
  (sum_list_with thread_weight (tp_threads (work_loop i p)) + thread_weight t = sum_list_with thread_weight (tp_threads p))%nat.
Proof.
  intros Hi. assert (H : forall t', thread_weight t' = 0%nat ->
    (sum_list_with thread_weight (<[i := t']> (tp_threads p)) + thread_weight t = sum_list_with thread_weight (tp_threads p))%nat).
  { intros t' Ht. rewrite (sum_with_insert _ _ _ _ t' Hi). lia. }
  unfold work_loop. destruct (tp_shutdown p), (tp_work p), (tp_running p); cbn; split; try done; by apply H.
Qed.

Lemma done_weight p : caller_weight (tp_caller (job_done p)) = caller_weight (tp_caller p).
Proof. unfold job_done. cbn. by destruct (tp_caller p). Qed.

#[local] Instance weights_proper : Proper ((≡ₚ) ==> eq) (sum_list_with weight).
Proof. intros l l' H. by rewrite H. Qed.

Lemma measure_decreases p q : in_run false p q -> (measure q < measure p)%nat.
Proof.
  intros [Hout Hstep]. destruct Hstep as [p fn Hc|p Hc|p Hc|p u a fn s1 fn' Hc Ha|p u Hc|p n Hc Hn Hw0 Hwk|p i n Hi Hn|p i a fn s1 fn' Hi Ha|p i Hi];
    try done; unfold measure.
  - apply act_weight in Ha. unfold remaining. rewrite Hc. cbn -[weight]. lia.
  - destruct (run_loop_weights u (job_done p)) as [-> Hw]. rewrite remaining_run_loop. unfold remaining. rewrite Hc. cbn. lia.
  - unfold remaining. rewrite Hc, Hwk. cbn. lia.
  - destruct Hn as [->|]; [|done]. destruct (work_loop_weights i p _ Hi) as [-> Hw]. cbn in Hw.
    rewrite <- (work_loop_parked i p) at 1.
    rewrite remaining_work_loop by (cbn; apply list_lookup_insert_eq; by eapply lookup_lt_Some).
    rewrite (remaining_parked i p _ Hi). cbn. lia.
  - apply act_weight in Ha. pose proof (sum_with_insert thread_weight _ i _ (Working fn') Hi) as Hw. cbn in Hw.
    rewrite (remaining_parked i p _ Hi). unfold remaining, parked. cbn -[weight]. rewrite !(jobs_insert _ _ _ _ Hi). cbn -[weight].
    rewrite !sum_list_with_app. cbn -[weight]. rewrite !sum_list_with_app. lia.
  - assert (Hi' : tp_threads (job_done p) !! i = Some (Working [])) by done.
    destruct (work_loop_weights i (job_done p) _ Hi') as [-> Hw]. cbn in Hw.
    rewrite <- (work_loop_parked i (job_done p)) at 1.
    rewrite remaining_work_loop by (cbn; apply list_lookup_insert_eq; by eapply lookup_lt_Some).
    rewrite <- (remaining_done p), (remaining_parked i (job_done p) _ Hi'), done_weight. cbn. lia.
Qed.

Lemma some_working (ts : list (pool_thread S)) : (0 < length (jobs ts))%nat -> exists i fn, ts !! i = Some (Working fn).
Proof.
  induction ts as [|t ts IH]; unfold jobs; cbn; [lia|]. destruct t as [n|fn|]; cbn; intros H;
    [destruct (IH H) as (i & fn & Hi); by exists (Datatypes.S i), fn|by exists 0%nat, fn|destruct (IH H) as (i & fn & Hi); by exists (Datatypes.S i), fn].
Qed.

(** Somebody can go on as long as the caller is in [run]. *)
Lemma run_progress p : pool_ok false p -> tp_caller p <> Outside -> exists q, in_run false p q.
Proof.
  intros [Hw Hru Ho Hu Hwa Hs Hpl] Hc. destruct (tp_caller p) as [|u [|a fn]|n] eqn:Ec; [done| | |].
  - eexists. split; [by rewrite Ec|]. by eapply step_caller_done.
  - destruct (act a fn (tp_shared p)) as [s fn'] eqn:Ea. eexists. split; [by rewrite Ec|]. by eapply step_caller_acts.
  - destruct (Hwa _ eq_refl) as [Hwk Hn]. destruct (decide (0 < tp_working p)%nat) as [H0|H0].
    + cbn in Hw. destruct (some_working (tp_threads p)) as (i & [|a fn] & Hi); [lia| |].
      * eexists. split; [by rewrite Ec|]. by eapply step_thread_done.
      * destruct (act a fn (tp_shared p)) as [s fn'] eqn:Ea. eexists. split; [by rewrite Ec|]. by eapply step_thread_acts.
    + destruct n; [|by destruct H0; apply Hn]. eexists. split; [by rewrite Ec|].
      apply (step_complete _ _ true); [done|by left|lia|done].
Qed.

(** ** The pool in use *)

Lemma new_pool_ok spurious n s : (spurious = true -> n <> 2) -> pool_ok spurious (ThreadPool_new n s).
Proof.
  intros Hn. assert (Hj : forall k, jobs (repeat (Waiting false) k) = []) by (induction k; done).
  split; cbn; rewrite ?Hj, ?repeat_length; try done.
  - intros i _ Hi. apply list_elem_of_lookup_2 in Hi. apply list_elem_of_In, repeat_spec in Hi. done.
  - intros Hsp. specialize (Hn Hsp). lia.
Qed.

Lemma reachable_pool_ok spurious n s p :
  (spurious = true -> n <> 2) -> rtc (pool_step spurious) (ThreadPool_new n s) p -> pool_ok spurious p.
Proof.
  intros Hn Hr. pose proof (new_pool_ok spurious n s Hn) as H0. clear Hn.
  induction Hr as [|p1 p2 p3 H12 _ IH]; [done|]. by apply IH, (pool_step_ok spurious p1).
Qed.

Lemma run_refines spurious p q s :
  rtc (in_run spurious) p q -> runs_to (remaining q) (tp_shared q) s -> runs_to (remaining p) (tp_shared p) s.
Proof. induction 1 as [|p1 p2 p3 H12 _ IH]; [done|]. intros H. apply IH in H. by eapply in_run_refines. Qed.

Lemma in_run_ok spurious p q : rtc (in_run spurious) p q -> pool_ok spurious p -> pool_ok spurious q.
Proof. induction 1 as [|p1 p2 p3 [_ H12] _ IH]; [done|]. intros H. by apply IH, (pool_step_ok spurious p1). Qed.

Lemma run_ok spurious p : tp_caller p = Outside -> pool_ok spurious p -> pool_ok spurious (run p).
Proof. intros Hc. apply pool_step_ok. by apply step_run. Qed.

Lemma remaining_run spurious p :
  tp_caller p = Outside -> pool_ok spurious p -> remaining (run p) ≡ₚ tp_work p /\ tp_shared (run p) = tp_shared p.
Proof.
  intros Hc Hp. destruct (po_outside _ _ Hp Hc) as [_ Hj]. unfold run. rewrite remaining_run_loop, shared_run_loop. cbn.
  split; [|done]. destruct (_ && _); rewrite ?jobs_notify; by rewrite Hj.
Qed.

Lemma run_loop_returns u p : tp_caller (run_loop u p) = Outside -> tp_work (run_loop u p) = [].
Proof. unfold run_loop. destruct (tp_work p); [|done]. by destruct (u && _). Qed.

Lemma returns_empty spurious p q : in_run spurious p q -> tp_caller q = Outside -> tp_work q = [].
Proof.
  intros [Hout Hstep]. destruct Hstep as [p fn Hc|p Hc|p Hc|p u a fn s1 fn' Hc Ha|p u Hc|p n Hc Hn Hw0 Hwk|p i n Hi Hn|p i a fn s1 fn' Hi Ha|p i Hi];
    try done.
  - apply run_loop_returns.
  - destruct (work_loop_weights i p _ Hi) as [-> _]. done.
  - destruct (work_loop_weights i (job_done p) (Working []) Hi) as [-> _]. cbn. by destruct (tp_caller p).
Qed.

(** C4 (refinement): the pool runs the jobs it is given, each once and to its end, and nothing else. However
    the threads are scheduled, when [run] returns no work is left, nobody works, and the state is one
    to which the pushed jobs lead with their actions interleaved; an action that throws ends its
    job only. Where threads wake up spuriously, the pool must not have exactly one thread. *)
Theorem run_executes_all spurious n s p q :
  (spurious = true -> n <> 2) -> rtc (pool_step spurious) (ThreadPool_new n s) p -> tp_caller p = Outside ->
  rtc (in_run spurious) (run p) q -> tp_caller q = Outside ->
  tp_work q = [] /\ tp_working q = 0%nat /\ runs_to (tp_work p) (tp_shared p) (tp_shared q).
Proof.
  intros Hn Hr Hc Hrun Hq. pose proof (reachable_pool_ok spurious n s p Hn Hr) as Hp.
  destruct (remaining_run spurious p Hc Hp) as [Hrem Hsh]. pose proof (in_run_ok _ _ _ Hrun (run_ok _ _ Hc Hp)) as Hqok.
  destruct (po_outside _ _ Hqok Hq) as [_ Hj]. pose proof (po_working _ _ Hqok) as Hw. rewrite Hq, Hj in Hw.
  assert (Hwork : tp_work q = []).
  { apply rtc_inv_r in Hrun as [E|(q' & _ & Hlast)]; [|by eapply returns_empty]. rewrite <- E in Hq |- *. by apply run_loop_returns. }
  split; [done|split; [done|]]. rewrite <- Hsh. eapply runs_to_perm; [exact Hrem|]. eapply run_refines; [exact Hrun|].
  apply runs_done. unfold remaining. rewrite Hq, Hj, Hwork. constructor.
Qed.

(** C5 (termination): [run] returns. While the caller is in [run] somebody can always go on, so that no wake-up
    is lost, and the steps of all threads together are bounded by the actions, the jobs and the
    notified threads there are. *)
Theorem run_terminates n s p :
  rtc (pool_step false) (ThreadPool_new n s) p -> tp_caller p = Outside ->
  (forall k q, nsteps (in_run false) k (run p) q -> (k <= measure (run p))%nat) /\
  (forall q, rtc (in_run false) (run p) q -> tp_caller q = Outside \/ exists q', in_run false q q').
Proof.
  intros Hr Hc. assert (Hp : pool_ok false p) by by apply (reachable_pool_ok false n s). split.
  - intros k q. generalize (run p). induction k as [|k IH]; intros p1 Hk; [lia|]. inversion_clear Hk as [|? ? p2 ? H12 H2q].
    apply measure_decreases in H12. apply IH in H2q. lia.
  - intros q Hq. assert (E : tp_caller q = Outside \/ tp_caller q <> Outside) by (destruct (tp_caller q); [by left|by right|by right]).
    destruct E as [E|E]; [by left|right]. apply run_progress; [|done].
    eapply in_run_ok; [exact Hq|]. by apply run_ok.
Qed.
End spec.

(** ** A run *)

Module SamplePool.
Definition add (k : nat) : nat -> option nat := fun n => Some (n + k)%nat.
Definition throw : nat -> option nat := fun _ => None.
Definition pushed (n : Z) : ThreadPool nat := pushWork [add 1; throw; add 5] (pushWork [add 10; add 100] (ThreadPool_new n 0%nat)).
End SamplePool.

Lemma pushed_reachable spurious n : rtc (pool_step spurious) (ThreadPool_new n 0%nat) (SamplePool.pushed n).
Proof. eapply rtc_l; [by apply step_push|]. eapply rtc_l; [by apply step_push|]. apply rtc_refl. Qed.

(** Step by step, as the caller goes. *)
Ltac caller_steps :=
  repeat (eapply rtc_l; [split; [discriminate|first [eapply step_caller_acts; reflexivity | by eapply step_caller_done]]|cbn]).

Lemma run_executes_all_witness :
  exists q, rtc (in_run true) (run (SamplePool.pushed 1)) q /\ tp_caller q = Outside /\ tp_work q = [] /\
    tp_shared q = 111%nat /\ runs_to [[SamplePool.add 10; SamplePool.add 100]; [SamplePool.add 1; SamplePool.throw; SamplePool.add 5]] 0%nat (tp_shared q).
Proof.
  assert (Hq : exists q, rtc (in_run true) (run (SamplePool.pushed 1)) q /\ tp_caller q = Outside /\ tp_shared q = 111%nat).
  { eexists. split; [caller_steps; apply rtc_refl|]. done. }
  destruct Hq as (q & Hr & Hc & Hs). exists q.
  destruct (run_executes_all true 1 0%nat (SamplePool.pushed 1) q) as (Hw & _ & Ht);
    [done|apply pushed_reachable|done|done|done|done].
Defined.

Lemma run_terminates_witness :
  tp_caller (SamplePool.pushed 4) = Outside /\
  forall q, rtc (in_run false) (run (SamplePool.pushed 4)) q -> tp_caller q = Outside \/ exists q', in_run false q q'.
Proof. split; [done|]. apply (run_terminates 4 0%nat (SamplePool.pushed 4)); [apply pushed_reachable|done]. Defined.

(** Fact (safety): with one thread, which is the default, [run] does not wait for it. If the thread
    wakes up spuriously while the caller runs the first job it takes the second, and [run] can return
    while that job has not begun. *)
Theorem spurious_wakeup_returns_early :
  exists q, rtc (in_run true) (run (SamplePool.pushed 2)) q /\ tp_caller q = Outside /\ tp_working q = 1%nat /\
    tp_shared q = 110%nat /\ remaining q = [[SamplePool.add 1; SamplePool.throw; SamplePool.add 5]].
Proof.
  eexists. split.
  - eapply rtc_l; [split; [discriminate|eapply (step_wake _ _ 0); [reflexivity|by right]]|cbn].
    caller_steps. apply rtc_refl.
  - done.
Qed.
