(* ===== verification/Buffer.v ===== *)
(** * [Buffer]: queued bytes with a lazy erase

    Models [net/Buffer.hpp]: a vector of bytes and the offset of the first live
    one, so that erasing a prefix of a large buffer need not move the rest.
    Capacities (the shrinking of an emptied buffer) are not modelled. The
    theorems state that it is a queue of bytes. *)

From S2P Require Import Prelude.

Open Scope cool_scope.

Record Buffer := {
  buf_offset : nat;
  buf_buffer : bytes }.

#[global] Instance Buffer_eq_dec : EqDecision Buffer.
Proof. solve_decision. Defined.

Definition Buffer_new : Buffer := {| buf_offset := 0; buf_buffer := [] |}.

Definition buf_size (b : Buffer) : nat := (length (buf_buffer b) - buf_offset b)%nat.
Definition buf_empty (b : Buffer) : bool := (buf_offset b =? length (buf_buffer b))%nat.

(** The bytes from [data()] (or [begin()]) on. *)
Definition buf_data (b : Buffer) : bytes := drop (buf_offset b) (buf_buffer b).

(** [getBlock]: null when empty. *)
Definition getBlock (b : Buffer) : option bytes := if buf_empty b then None else Some (buf_data b).
Definition getBlockSize (b : Buffer) : nat := buf_size b.

(** [operator[]]; [None] is an access past the end of the vector. *)
Definition buf_at (b : Buffer) (index : nat) : option Z := buf_buffer b !! (buf_offset b + index)%nat.

(** [eraseFirst], as compiled without the asserts. *)
Definition eraseFirst (b : Buffer) (len : nat) : Buffer :=
  if (len =? 0)%nat then b
  else
    let len := Nat.min len (buf_size b) in
    if (16384 <? length (buf_buffer b))%nat && (len <? buf_size b)%nat
       && (buf_offset b <? 16384 * 64)%nat && (512 <? buf_size b)%nat then
      {| buf_offset := buf_offset b + len; buf_buffer := buf_buffer b |}
    else {| buf_offset := 0; buf_buffer := drop (buf_offset b + len) (buf_buffer b) |}.

(** [append(data, len)]: the length is an [int]; a negative one is undefined. *)
Definition append (b : Buffer) (data : bytes) : result Buffer :=
  let len := i32 (Z.of_nat (length data)) in
  throw_if len <? 0 as undefined;
  Ok {| buf_offset := buf_offset b; buf_buffer := buf_buffer b ++ take (Z.to_nat len) data |}.

Definition buf_clear (b : Buffer) : Buffer := {| buf_offset := 0; buf_buffer := [] |}.

(** [erase(first, last)]; the iterators as distances from [begin()]. *)
Definition buf_erase (b : Buffer) (first last : nat) : Buffer :=
  if (first =? 0)%nat then eraseFirst b last
  else {| buf_offset := buf_offset b;
          buf_buffer := take (buf_offset b + first) (buf_buffer b) ++ drop (buf_offset b + last) (buf_buffer b) |}.

(** ** The queue it implements *)

(** The offset stays inside the vector, and an empty queue is kept as [Buffer_new]
    whenever its last bytes were erased. *)
Definition buf_ok (b : Buffer) : Prop := (buf_offset b <= length (buf_buffer b))%nat.

Lemma buf_size_data b : buf_size b = length (buf_data b).
Proof. unfold buf_size, buf_data. by rewrite length_drop. Qed.

Lemma buf_empty_data b : buf_ok b -> buf_empty b = true <-> buf_data b = [].
Proof.
  unfold buf_ok, buf_empty, buf_data. intros H. rewrite Nat.eqb_eq. split.
  - intros E. apply drop_ge. lia.
  - intros E. apply (f_equal length) in E. rewrite length_drop in E. simpl in E. lia.
Qed.

Lemma eraseFirst_data b len : buf_data (eraseFirst b len) = drop len (buf_data b).
Proof.
  unfold eraseFirst. destruct (Nat.eqb_spec len 0) as [->|Hne]; [by rewrite drop_0|].
  assert (E : drop (buf_offset b + Nat.min len (buf_size b)) (buf_buffer b) = drop len (buf_data b)).
  { rewrite <- drop_drop. fold (buf_data b). destruct (Nat.min_spec len (buf_size b)) as [[_ ->]|[? ->]]; [done|].
    rewrite buf_size_data in *. rewrite !drop_ge by lia. done. }
  destruct (_ && _ && _ && _); unfold buf_data at 1; simpl; [done|]. by rewrite drop_0.
Qed.

Lemma eraseFirst_ok b len : buf_ok b -> buf_ok (eraseFirst b len).
Proof.
  unfold buf_ok, eraseFirst. intros H. destruct (len =? 0)%nat; [done|].
  destruct (_ && _ && _ && _); simpl; unfold buf_size; lia.
Qed.

Lemma append_data b data :
  buf_ok b -> Z.of_nat (length data) <= INT_MAX ->
  exists b', append b data = Ok b' /\ buf_data b' = buf_data b ++ data /\ buf_ok b'.
Proof.
  intros Hb Hl. unfold append. rewrite i32_id by (int_unfold; lia).
  destruct (Z.ltb_spec (Z.of_nat (length data)) 0); [lia|]. eexists. split; [done|].
  unfold buf_data, buf_ok in *. simpl. rewrite Nat2Z.id, take_ge by lia. split; [|rewrite length_app; lia].
  by rewrite drop_app_le by lia.
Qed.

(** Fact (refinement): a [Buffer] is a queue of bytes: whatever the lazy erase does
    with the offset, [eraseFirst] drops that many bytes from the front (all of them
    if there are fewer), [append] adds at the back, [clear] empties, the size and
    the emptiness test are those of the queue, [operator[]] reads it, and the offset
    never leaves the vector. *)
Theorem Buffer_is_queue b :
  buf_ok b ->
  (forall len, buf_data (eraseFirst b len) = drop len (buf_data b) /\ buf_ok (eraseFirst b len)) /\
  (forall data, Z.of_nat (length data) <= INT_MAX ->
     exists b', append b data = Ok b' /\ buf_data b' = buf_data b ++ data /\ buf_ok b') /\
  (forall first last, (first <= last <= buf_size b)%nat ->
     buf_data (buf_erase b first last) = take first (buf_data b) ++ drop last (buf_data b)) /\
  buf_data (buf_clear b) = [] /\ buf_size b = length (buf_data b) /\
  (buf_empty b = true <-> buf_data b = []) /\ (forall i, buf_at b i = buf_data b !! i).
Proof.
  intros Hb. split_and!.
  - intros len. split; [apply eraseFirst_data|by apply eraseFirst_ok].
  - intros data. by apply append_data.
  - intros first last Hl. unfold buf_erase. destruct (Nat.eqb_spec first 0) as [->|Hne].
    + rewrite eraseFirst_data. by rewrite take_0.
    + unfold buf_data, buf_size, buf_ok in *. simpl. rewrite drop_app_le by (rewrite length_take; lia).
      by rewrite skipn_firstn_comm, Nat.add_sub', drop_drop.
  - done.
  - apply buf_size_data.
  - by apply buf_empty_data.
  - intros i. unfold buf_at, buf_data. by rewrite lookup_drop.
Qed.

Lemma Buffer_is_queue_witness :
  buf_data (eraseFirst {| buf_offset := 2; buf_buffer := [1; 2; 3; 4; 5] |} 1) = [4; 5].
Proof.
  destruct (Buffer_is_queue {| buf_offset := 2; buf_buffer := [1; 2; 3; 4; 5] |}) as [H _].
  - unfold buf_ok. simpl. lia.
  - exact (proj1 (H 1%nat)).
Defined.
