(* ===== verification/WebSocket.v ===== *)
(** * WebSocket framing

    Models [net/WebSocketHandler.hpp] (the build with sockets, not the mobile
    one): building frames, splitting the input buffer into frames, reassembling
    fragmented messages, control frames and the closing handshake, with the state
    of [StreamSocket] ([net/Socket.hpp]) the handler uses. The input is the
    [Buffer] of the socket; the output is the sequence of all bytes queued on it,
    so [writeOutgoingData], which moves bytes from the buffer to the network, is
    not visible. [handleMessage] is the client's: the messages passed to it are
    recorded. A clock reading is an argument. *)

From S2P Require Import Prelude StateError Buffer.

Open Scope cool_scope.

(** ** Data *)

Inductive StatusCodes :=
| NORMAL_CLOSE | ENDPOINT_GOING_AWAY | PROTOCOL_ERROR | PAYLOAD_NOT_ACCEPTABLE | RESERVED
| RESERVED_NO_STATUS_CODE | RESERVED_ABNORMAL_CLOSE | MALFORMED_PAYLOAD | POLICY_VIOLATION
| PAYLOAD_TOO_BIG | EXTENSION_REQUIRED | UNEXPECTED_CONDITION | RESERVED_TLS_FAILURE.

Definition status_value (s : StatusCodes) : Z :=
  match s with
  | NORMAL_CLOSE => 1000 | ENDPOINT_GOING_AWAY => 1001 | PROTOCOL_ERROR => 1002
  | PAYLOAD_NOT_ACCEPTABLE => 1003 | RESERVED => 1004 | RESERVED_NO_STATUS_CODE => 1005
  | RESERVED_ABNORMAL_CLOSE => 1006 | MALFORMED_PAYLOAD => 1007 | POLICY_VIOLATION => 1008
  | PAYLOAD_TOO_BIG => 1009 | EXTENSION_REQUIRED => 1010 | UNEXPECTED_CONDITION => 1011
  | RESERVED_TLS_FAILURE => 1015
  end.

(** [WSOpCode], an [unsigned char]. *)
Definition Op_Continuation : Z := 0.
Definition Op_Text : Z := 1.
Definition Op_Binary : Z := 2.
Definition Op_Close : Z := 8.
Definition Op_Ping : Z := 9.
Definition Op_Pong : Z := 10.

Definition Fin : Z := 128.
Definition Mask : Z := 128.

(** The socket, as far as the handler uses it. *)
Record StreamSocket := {
  so_inBuffer : Buffer;
  so_out : bytes;                 (* everything appended to [_outBuffer] so far *)
  so_isOpen : bool;
  so_isWebSocket : bool;
  so_inputProcessingEnabled : bool;
  so_ignoreInput : bool;
  so_shutdownSignalled : bool }.

Record WebSocketHandler := {
  ws_wsPayload : bytes;
  ws_socket : option StreamSocket;   (* [_socket.lock()] *)
  ws_lastPingSentTime : Z;           (* microseconds *)
  ws_pingTimeUs : Z;
  ws_isMasking : bool;
  ws_inFragmentBlock : bool;
  ws_lastFlags : Z;
  ws_shuttingDown : bool;
  ws_isClient : bool;
  ws_messages : list bytes }.        (* passed to [handleMessage] *)

Abbreviation WS := (SE WebSocketHandler).

Definition PingFrequencyMicroS : Z := 18000000.
Definition InitialPingDelayMicroS : Z := 25000.

(** The constructor. *)
Definition WebSocketHandler_new (isClient isMasking : bool) (now : Z) : WebSocketHandler :=
  {| ws_wsPayload := []; ws_socket := None;
     ws_lastPingSentTime := now - PingFrequencyMicroS + InitialPingDelayMicroS; ws_pingTimeUs := 0;
     ws_isMasking := isClient && isMasking; ws_inFragmentBlock := false; ws_lastFlags := 0;
     ws_shuttingDown := false; ws_isClient := isClient; ws_messages := [] |}.

(** ** Field updates *)

Definition set_socket (f : StreamSocket -> StreamSocket) (w : WebSocketHandler) : WebSocketHandler :=
  {| ws_wsPayload := ws_wsPayload w; ws_socket := f <$> ws_socket w; ws_lastPingSentTime := ws_lastPingSentTime w;
     ws_pingTimeUs := ws_pingTimeUs w; ws_isMasking := ws_isMasking w; ws_inFragmentBlock := ws_inFragmentBlock w;
     ws_lastFlags := ws_lastFlags w; ws_shuttingDown := ws_shuttingDown w; ws_isClient := ws_isClient w;
     ws_messages := ws_messages w |}.
Definition set_payload (p : bytes) (frag : bool) (w : WebSocketHandler) : WebSocketHandler :=
  {| ws_wsPayload := p; ws_socket := ws_socket w; ws_lastPingSentTime := ws_lastPingSentTime w;
     ws_pingTimeUs := ws_pingTimeUs w; ws_isMasking := ws_isMasking w; ws_inFragmentBlock := frag;
     ws_lastFlags := ws_lastFlags w; ws_shuttingDown := ws_shuttingDown w; ws_isClient := ws_isClient w;
     ws_messages := ws_messages w |}.
Definition set_lastFlags (f : Z) (w : WebSocketHandler) : WebSocketHandler :=
  {| ws_wsPayload := ws_wsPayload w; ws_socket := ws_socket w; ws_lastPingSentTime := ws_lastPingSentTime w;
     ws_pingTimeUs := ws_pingTimeUs w; ws_isMasking := ws_isMasking w; ws_inFragmentBlock := ws_inFragmentBlock w;
     ws_lastFlags := f; ws_shuttingDown := ws_shuttingDown w; ws_isClient := ws_isClient w;
     ws_messages := ws_messages w |}.
Definition set_shuttingDown (b : bool) (w : WebSocketHandler) : WebSocketHandler :=
  {| ws_wsPayload := ws_wsPayload w; ws_socket := ws_socket w; ws_lastPingSentTime := ws_lastPingSentTime w;
     ws_pingTimeUs := ws_pingTimeUs w; ws_isMasking := ws_isMasking w; ws_inFragmentBlock := ws_inFragmentBlock w;
     ws_lastFlags := ws_lastFlags w; ws_shuttingDown := b; ws_isClient := ws_isClient w;
     ws_messages := ws_messages w |}.
Definition set_ping (sent time : Z) (w : WebSocketHandler) : WebSocketHandler :=
  {| ws_wsPayload := ws_wsPayload w; ws_socket := ws_socket w; ws_lastPingSentTime := sent;
     ws_pingTimeUs := time; ws_isMasking := ws_isMasking w; ws_inFragmentBlock := ws_inFragmentBlock w;
     ws_lastFlags := ws_lastFlags w; ws_shuttingDown := ws_shuttingDown w; ws_isClient := ws_isClient w;
     ws_messages := ws_messages w |}.
(** [handleMessage]: the message is recorded. *)
Definition handleMessage (msg : bytes) (w : WebSocketHandler) : WebSocketHandler :=
  {| ws_wsPayload := ws_wsPayload w; ws_socket := ws_socket w; ws_lastPingSentTime := ws_lastPingSentTime w;
     ws_pingTimeUs := ws_pingTimeUs w; ws_isMasking := ws_isMasking w; ws_inFragmentBlock := ws_inFragmentBlock w;
     ws_lastFlags := ws_lastFlags w; ws_shuttingDown := ws_shuttingDown w; ws_isClient := ws_isClient w;
     ws_messages := ws_messages w ++ [msg] |}.

(** Of the socket. *)
Definition so_set_in (b : Buffer) (s : StreamSocket) : StreamSocket :=
  {| so_inBuffer := b; so_out := so_out s; so_isOpen := so_isOpen s; so_isWebSocket := so_isWebSocket s;
     so_inputProcessingEnabled := so_inputProcessingEnabled s; so_ignoreInput := so_ignoreInput s;
     so_shutdownSignalled := so_shutdownSignalled s |}.
Definition so_set_out (o : bytes) (s : StreamSocket) : StreamSocket :=
  {| so_inBuffer := so_inBuffer s; so_out := o; so_isOpen := so_isOpen s; so_isWebSocket := so_isWebSocket s;
     so_inputProcessingEnabled := so_inputProcessingEnabled s; so_ignoreInput := so_ignoreInput s;
     so_shutdownSignalled := so_shutdownSignalled s |}.
Definition asyncShutdown (s : StreamSocket) : StreamSocket :=
  {| so_inBuffer := so_inBuffer s; so_out := so_out s; so_isOpen := so_isOpen s; so_isWebSocket := so_isWebSocket s;
     so_inputProcessingEnabled := so_inputProcessingEnabled s; so_ignoreInput := so_ignoreInput s;
     so_shutdownSignalled := true |}.
Definition ignoreInput (s : StreamSocket) : StreamSocket :=
  {| so_inBuffer := buf_clear (so_inBuffer s); so_out := so_out s; so_isOpen := so_isOpen s;
     so_isWebSocket := so_isWebSocket s; so_inputProcessingEnabled := so_inputProcessingEnabled s;
     so_ignoreInput := true; so_shutdownSignalled := so_shutdownSignalled s |}.
(** [shutdownConnection]: the real shutdown, after which the socket is not open. *)
Definition shutdownConnection (s : StreamSocket) : StreamSocket :=
  {| so_inBuffer := so_inBuffer s; so_out := so_out s; so_isOpen := false; so_isWebSocket := so_isWebSocket s;
     so_inputProcessingEnabled := so_inputProcessingEnabled s; so_ignoreInput := so_ignoreInput s;
     so_shutdownSignalled := so_shutdownSignalled s |}.
(** [eraseFirstInputBytes]. *)
Definition eraseFirstInputBytes (count : nat) (s : StreamSocket) : StreamSocket :=
  let toErase := Nat.min count (buf_size (so_inBuffer s)) in
  if (0 <? toErase)%nat then so_set_in (eraseFirst (so_inBuffer s) count) s else s.

(** ** Sending *)

Definition be_byte (x : Z) (shift : Z) : Z := Z.land (Z.shiftr x shift) 255.

(** The scratch bytes of [buildFrame]. *)
Definition frame_header (isMasking : bool) (len : Z) (flags : Z) : bytes :=
  let maskFlag := if isMasking then 128 else 0 in
  Z.lor Fin flags ::
  if len <? 126 then [Z.lor len maskFlag]
  else if len <=? 65535 then [Z.lor 126 maskFlag; be_byte len 8; be_byte len 0]
  else [Z.lor 127 maskFlag; be_byte len 56; be_byte len 48; be_byte len 40; be_byte len 32;
        be_byte len 24; be_byte len 16; be_byte len 8; be_byte len 0].

Definition send_mask : bytes := [129; 118; 129; 118].

(** [data[i] ^ mask[i % 4]] from index [i] on. *)
Fixpoint xor_mask (mask : bytes) (i : nat) (data : bytes) : bytes :=
  match data with
  | [] => []
  | b :: data' => Z.lxor b (nth (i mod 4) mask 0) :: xor_mask mask (S i) data'
  end.

(** [out.append(data, len)] with its [int] length. *)
Definition append_out (data : bytes) (out : bytes) : result bytes :=
  let len := i32 (Z.of_nat (length data)) in
  throw_if len <? 0 as undefined; Ok (out ++ take (Z.to_nat len) data).

(** [sizeof(copy)]. *)
Definition copy_size : nat := Z.to_nat 16384.

(** The copy loop: blocks of at most 16384 bytes. *)
Fixpoint append_masked (fuel : nat) (i : nat) (data : bytes) (out : bytes) : result bytes :=
  match data, fuel with
  | [], _ => Ok out
  | _, O => Throw undefined
  | _, S fuel' =>
      let block := take copy_size data in
      try out' <- append_out (xor_mask send_mask i block) out;
      append_masked fuel' (i + length block) (drop copy_size data) out'
  end.

Definition buildFrame (isMasking : bool) (data : bytes) (flags : Z) (out : bytes) : result bytes :=
  try out <- append_out (frame_header isMasking (Z.of_nat (length data)) flags) out;
  if isMasking then
    try out <- append_out send_mask out;
    append_masked (length data) 0 data out
  else append_out data out.

(** [sendFrame]: the bytes queued, 0 for a closed socket, -1 without data. *)
Definition sendFrame (data : bytes) (flags : Z) : WS Z :=
  do w <- se_get;
  match ws_socket w with
  | None => se_ret (-1)
  | Some socket =>
      if (length data =? 0)%nat then se_ret (-1)
      else if negb (so_isOpen socket) then se_ret 0
      else
        do out' <- se_lift (buildFrame (ws_isMasking w) data flags (so_out socket));
        exec se_modify (set_socket (so_set_out out'));
        se_ret (Z.of_nat (length out' - length (so_out socket)))
  end.

Definition sendMessage (data : bytes) (code : Z) : WS Z := sendFrame data (Z.lor Fin code).
Definition sendTextMessage (msg : bytes) : WS Z := sendMessage msg Op_Text.
Definition sendBinaryMessage (msg : bytes) : WS Z := sendMessage msg Op_Binary.

Definition sendPingOrPong (now : Z) (data : bytes) (code : Z) (socket : StreamSocket) : WS unit :=
  exec (if so_isWebSocket socket then exec sendMessage data code; se_ret tt else se_ret tt);
  do w <- se_get;
  se_modify (set_ping now (ws_pingTimeUs w)).

(** [sendPing]: one byte, the terminator of the empty literal. *)
Definition sendPing (now : Z) (socket : StreamSocket) : WS unit := sendPingOrPong now [0] Op_Ping socket.
Definition sendPong (now : Z) (data : bytes) (socket : StreamSocket) : WS unit :=
  sendPingOrPong now data Op_Pong socket.

(** [checkTimeout]. *)
Definition checkTimeout (now : Z) : WS bool :=
  do w <- se_get;
  if ws_isClient w then se_ret false
  else
    exec (if PingFrequencyMicroS <=? now - ws_lastPingSentTime w then
            match ws_socket w with Some socket => sendPing now socket | None => se_ret tt end
          else se_ret tt);
    se_ret false.

(** ** Closing *)

(** A close code received from the peer need not be one of [StatusCodes]: it is
    passed as a number. *)
Definition sendCloseFrame (statusCode : Z) (statusMessage : bytes) : WS unit :=
  do w <- se_get;
  match ws_socket w with
  | None => se_ret tt
  | Some socket =>
      if negb (so_isOpen socket) then se_ret tt
      else if ws_shuttingDown w then se_ret tt
      else
        exec se_modify (set_shuttingDown true);
        exec sendFrame ([be_byte statusCode 8; be_byte statusCode 0] ++ statusMessage) (Z.lor Fin Op_Close);
        se_ret tt
  end.

Definition shutdownImpl (statusCode : Z) (statusMessage : bytes) (hardShutdown silentShutdown : bool) : WS unit :=
  do w <- se_get;
  exec (match ws_socket w with
        | None => se_ret tt
        | Some _ =>
            exec (if ws_shuttingDown w || silentShutdown then se_ret tt else sendCloseFrame statusCode statusMessage);
            se_modify (set_socket (fun s =>
              let s := ignoreInput (asyncShutdown s) in if hardShutdown then shutdownConnection s else s))
        end);
  exec se_modify (set_payload [] false);
  se_modify (set_shuttingDown false).

Definition shutdown (statusCode : Z) (statusMessage : bytes) : WS unit :=
  shutdownImpl statusCode statusMessage false false.
Definition shutdownAfterWriting : WS unit := shutdownImpl (status_value NORMAL_CLOSE) [] true false.

(** ** Receiving *)

(** The header of a frame: its length and the length of the payload, or [None]
    when more bytes are needed. *)
Definition parse_lengths (p : bytes) : option (nat * Z) :=
  let len := length p in
  if (len <? 2)%nat then None
  else
    let payloadLen := Z.land (nth 1 p 0) 127 in
    if payloadLen =? 126 then
      if (len <? 2 + 2)%nat then None
      else Some (4%nat, Z.lor (Z.shiftl (nth 2 p 0) 8) (nth 3 p 0))
    else if payloadLen =? 127 then
      if (len <? 2 + 8)%nat then None
      else Some (10%nat, u64 (Z.shiftl (nth 9 p 0) 0 + Z.shiftl (nth 8 p 0) 8 + Z.shiftl (nth 7 p 0) 16
                  + Z.shiftl (nth 6 p 0) 24 + Z.shiftl (nth 5 p 0) 32 + Z.shiftl (nth 4 p 0) 40
                  + Z.shiftl (nth 3 p 0) 48 + Z.shiftl (nth 2 p 0) 56))
    else Some (2%nat, payloadLen).

Definition isControlFrame (code : Z) : bool := Op_Close <=? code.

(** [readPayload]: the payload that is appended, unmasked. *)
Definition readPayload (data : bytes) (mask : option bytes) : bytes :=
  match mask with Some m => xor_mask m 0 data | None => data end.

(** The Close case: code and message of the peer, unless this is the echo of our
    own close frame. Of a payload of one byte the second is read past the end. *)
Definition close_reason (shuttingDown : bool) (ctrlPayload : bytes) : result (Z * bytes) :=
  if shuttingDown then Ok (status_value NORMAL_CLOSE, [])
  else match ctrlPayload with
  | [] => Ok (status_value NORMAL_CLOSE, [])
  | [_] => Throw undefined
  | c0 :: c1 :: message => Ok (Z.shiftl c0 8 + c1, message)
  end.

Definition handleControl (now : Z) (code : Z) (fin : bool) (payloadLen : Z) (ctrlPayload : bytes) : WS unit :=
  if negb fin then shutdown (status_value PROTOCOL_ERROR) []
  else if 125 <? payloadLen then shutdown (status_value PROTOCOL_ERROR) []
  else
    do w <- se_get;
    if code =? Op_Pong then
      se_modify (set_ping (ws_lastPingSentTime w) (i32 (now - ws_lastPingSentTime w)))
    else if code =? Op_Ping then
      exec se_modify (set_ping (ws_lastPingSentTime w) (i32 (now - ws_lastPingSentTime w)));
      match ws_socket w with Some socket => sendPong now ctrlPayload socket | None => se_ret tt end
    else if code =? Op_Close then
      do r <- se_lift (close_reason (ws_shuttingDown w) ctrlPayload);
      shutdown r.1 r.2
    else shutdown (status_value PROTOCOL_ERROR) [].

Definition handleData (code : Z) (fin : bool) (frameLen : nat) (payload : bytes) : WS unit :=
  do w <- se_get;
  if ws_inFragmentBlock w && negb (code =? Op_Continuation) then shutdown (status_value PROTOCOL_ERROR) []
  else if negb (ws_inFragmentBlock w) && (code =? Op_Continuation) then shutdown (status_value PROTOCOL_ERROR) []
  else
    exec se_modify (set_socket (eraseFirstInputBytes frameLen));
    if fin then
      exec se_modify (handleMessage (ws_wsPayload w ++ payload));
      se_modify (set_payload [] false)
    else se_modify (set_payload (ws_wsPayload w ++ payload) true).

(** [handleTCPStream]: one frame; [false] when there is none, or only a part. *)
Definition handleTCPStream (now : Z) : WS bool :=
  do w <- se_get;
  match ws_socket w with
  | None => se_ret false
  | Some socket =>
      let p := buf_data (so_inBuffer socket) in
      let len := length p in
      if (len <? 2)%nat then se_ret false
      else
        let flags := nth 0 p 0 in
        exec se_modify (set_lastFlags flags);
        let fin := negb (Z.land flags 128 =? 0) in
        let code := Z.land flags 15 in
        let hasMask := negb (Z.land (nth 1 p 0) 128 =? 0) in
        match parse_lengths p with
        | None => se_ret false
        | Some (headerLen0, payloadLen) =>
            let headerLen := if hasMask then (headerLen0 + 4)%nat else headerLen0 in
            let mask := if hasMask then Some (take 4 (drop headerLen0 p)) else None in
            if (len <? headerLen)%nat || (Z.of_nat (len - headerLen) <? payloadLen) then se_ret false
            else if hasMask && ws_isClient w then
              exec shutdown (status_value PROTOCOL_ERROR) []; se_ret true
            else
              let frameLen := (headerLen + Z.to_nat payloadLen)%nat in
              let payload := readPayload (take (Z.to_nat payloadLen) (drop headerLen p)) mask in
              if isControlFrame code then
                exec se_modify (set_socket (fun s => so_set_in (eraseFirst (so_inBuffer s) frameLen) s));
                exec handleControl now code fin payloadLen payload;
                se_ret true
              else
                exec handleData code fin frameLen payload;
                se_ret true
        end
  end.

(** The loop of [handleIncomingMessage] once the connection is upgraded. [None]:
    out of fuel. *)
Fixpoint handle_frames (fuel : nat) (now : Z) (w : WebSocketHandler) : option (WebSocketHandler * result unit) :=
  if from_option so_inputProcessingEnabled false (ws_socket w) then
    match handleTCPStream now w with
    | (w', Ok true) => match fuel with O => None | S fuel' => handle_frames fuel' now w' end
    | (w', Ok false) => Some (w', Ok tt)
    | (w', Throw e) => Some (w', Throw e)
    end
  else Some (w, Ok tt).

(** Each round that goes on takes at least two bytes from the buffer. *)
Definition handleIncomingMessage (now : Z) (w : WebSocketHandler) : option (WebSocketHandler * result unit) :=
  handle_frames (from_option (fun s => buf_size (so_inBuffer s)) 0%nat (ws_socket w)) now w.

(** Bytes read from the network ([readIncomingData]): dropped once the input is
    ignored. *)
Definition readIncomingData (data : bytes) (s : StreamSocket) : StreamSocket :=
  if so_ignoreInput s then s
  else so_set_in {| buf_offset := buf_offset (so_inBuffer s); buf_buffer := buf_buffer (so_inBuffer s) ++ data |} s.
