(* ===== verification/WebSocketSpec.v ===== *)
(** * WebSocket framing: what is received is what was sent

    Frames as RFC 6455 describes them, their encoding, and the theorems about
    [WebSocket.v]: however the network cuts the byte stream, the handler passes
    on exactly the messages of the frames, answers pings, closes on a violation
    of the protocol, and its loop ends. *)

From S2P Require Import Prelude StateError Buffer WebSocket.

Open Scope cool_scope.

(** ** Frames *)

Record wsframe := {
  f_fin : bool;
  f_code : Z;
  f_mask : option bytes;
  f_payload : bytes }.

Definition f_len (f : wsframe) : Z := Z.of_nat (length (f_payload f)).
Definition masked (f : wsframe) : bool := match f_mask f with Some _ => true | None => false end.

(** The second byte and the extended length. *)
Definition len_bytes (m : bool) (len : Z) : bytes := tail (frame_header m len 0).

Definition enc (f : wsframe) : bytes :=
  Z.lor (if f_fin f then 128 else 0) (f_code f) :: len_bytes (masked f) (f_len f)
  ++ default [] (f_mask f)
  ++ match f_mask f with Some m => xor_mask m 0 (f_payload f) | None => f_payload f end.

Definition frame_ok (f : wsframe) : Prop :=
  0 <= f_code f < 16 /\ (forall m, f_mask f = Some m -> length m = 4%nat) /\ f_len f < 18446744073709551616.

Lemma xor_mask_length m i d : length (xor_mask m i d) = length d.
Proof. revert i. induction d as [|b d IH]; intros i; simpl; [done|]. by rewrite IH. Qed.
Lemma xor_mask_twice m i d : xor_mask m i (xor_mask m i d) = d.
Proof.
  revert i. induction d as [|b d IH]; intros i; cbn [xor_mask]; [done|].
  by rewrite IH, Z.lxor_assoc, Z.lxor_nilpotent, Z.lxor_0_r.
Qed.
Lemma xor_mask_app m i a b : xor_mask m i (a ++ b) = xor_mask m i a ++ xor_mask m (i + length a) b.
Proof.
  revert i. induction a as [|x a IH]; intros i; cbn [xor_mask app length]; [by rewrite Nat.add_0_r|].
  rewrite IH. cbn [app]. do 3 f_equal. lia.
Qed.

(** ** Numbers in headers *)

Lemma be_byte_eq x s : 0 <= s -> be_byte x s = (x / 2 ^ s) mod 256.
Proof. intros Hs. unfold be_byte. change 255 with (Z.ones 8). by rewrite Z.land_ones, Z.shiftr_div_pow2 by lia. Qed.
Lemma lor_add a b n : 0 <= n -> 0 <= b < 2 ^ n -> Z.lor (Z.shiftl a n) b = a * 2 ^ n + b.
Proof.
  intros Hn Hb. rewrite <- Z.shiftl_mul_pow2 by done.
  assert (Hl : Z.land (Z.shiftl a n) b = 0).
  { apply Z.bits_inj'. intros k Hk. rewrite Z.land_spec, Z.testbit_0_l.
    destruct (Z.lt_ge_cases k n); [rewrite Z.shiftl_spec_low by done; done|].
    assert (Hbk : Z.testbit b k = false).
    { destruct (Z.eq_dec b 0) as [->|]; [apply Z.testbit_0_l|]. apply Z.bits_above_log2; [lia|].
      apply (Z.lt_le_trans _ n); [apply Z.log2_lt_pow2; lia|lia]. }
    rewrite Hbk. apply andb_false_r. }
  pose proof (Z.add_lor_land (Z.shiftl a n) b). lia.
Qed.
Lemma lor_low a b : 0 <= a < 128 -> b = 0 \/ b = 128 -> Z.lor a b = a + b.
Proof.
  intros Ha [->| ->]; [rewrite Z.lor_0_r; lia|]. rewrite Z.lor_comm. change 128 with (Z.shiftl 1 7) at 1.
  rewrite lor_add by lia. change (1 * 2 ^ 7) with 128. lia.
Qed.
Lemma land_127 a b : 0 <= a < 128 -> b = 0 \/ b = 128 -> Z.land (Z.lor a b) 127 = a.
Proof.
  intros Ha Hb. rewrite lor_low by done. change 127 with (Z.ones 7). rewrite Z.land_ones by lia.
  change (2 ^ 7) with 128. destruct Hb as [->| ->]; [rewrite Z.add_0_r, Z.mod_small by lia; done|].
  rewrite <- (Z.mul_1_l 128) at 1. rewrite Z_mod_plus_full, Z.mod_small by lia. done.
Qed.
Lemma land_128 a b : 0 <= a < 128 -> b = 0 \/ b = 128 -> (Z.land (Z.lor a b) 128 =? 0) = (b =? 0).
Proof.
  intros Ha Hb. rewrite Z.land_lor_distr_l.
  assert (Z.land a 128 = 0) as ->.
  { apply Z.bits_inj'. intros k Hk. rewrite Z.land_spec, Z.testbit_0_l. change 128 with (2 ^ 7).
    rewrite Z.pow2_bits_eqb by lia. destruct (Z.eqb_spec 7 k) as [<-|]; [|apply andb_false_r].
    rewrite Z.bits_above_log2; [done|lia|]. destruct (Z.eq_dec a 0) as [->|]; [simpl; lia|]. apply Z.log2_lt_pow2; lia. }
  by destruct Hb as [->| ->].
Qed.

Lemma be_word x : 0 <= x < 65536 -> Z.lor (Z.shiftl (be_byte x 8) 8) (be_byte x 0) = x.
Proof.
  intros Hx. rewrite !be_byte_eq by lia. change (2 ^ 0) with 1. rewrite Z.div_1_r. change (2 ^ 8) with 256.
  rewrite lor_add; [|lia|apply Z.mod_pos_bound; lia]. change (2 ^ 8) with 256.
  rewrite (Z.mod_small (x / 256)); [pose proof (Z.div_mod x 256); lia|].
  split; [apply Z.div_pos; lia|apply Z.div_lt_upper_bound; lia].
Qed.

Lemma be_quad x :
  0 <= x < 18446744073709551616 ->
  u64 (Z.shiftl (be_byte x 0) 0 + Z.shiftl (be_byte x 8) 8 + Z.shiftl (be_byte x 16) 16
    + Z.shiftl (be_byte x 24) 24 + Z.shiftl (be_byte x 32) 32 + Z.shiftl (be_byte x 40) 40
    + Z.shiftl (be_byte x 48) 48 + Z.shiftl (be_byte x 56) 56) = x.
Proof.
  intros Hx. rewrite !be_byte_eq, !Z.shiftl_mul_pow2 by lia.
  assert (Hd : forall k, 0 <= k -> x / 2 ^ (k + 8) = x / 2 ^ k / 256).
  { intros k Hk. rewrite Z.pow_add_r by lia. change (2 ^ 8) with 256. rewrite Z.div_div; [done| |lia].
    pose proof (Z.pow_pos_nonneg 2 k). lia. }
  assert (Hm : forall k, 0 <= k -> x / 2 ^ k = 256 * (x / 2 ^ (k + 8)) + (x / 2 ^ k) mod 256).
  { intros k Hk. rewrite (Hd k Hk). apply Z.div_mod. lia. }
  pose proof (Hm 0 ltac:(lia)) as H0. pose proof (Hm 8 ltac:(lia)) as H1. pose proof (Hm 16 ltac:(lia)) as H2.
  pose proof (Hm 24 ltac:(lia)) as H3. pose proof (Hm 32 ltac:(lia)) as H4. pose proof (Hm 40 ltac:(lia)) as H5.
  pose proof (Hm 48 ltac:(lia)) as H6. pose proof (Hm 56 ltac:(lia)) as H7.
  assert (H8 : x / 2 ^ (56 + 8) = 0) by (apply Z.div_small; change (2 ^ (56 + 8)) with 18446744073709551616; lia).
  rewrite H8 in H7. change (0 + 8) with 8 in *. change (8 + 8) with 16 in *. change (16 + 8) with 24 in *. change (24 + 8) with 32 in *.
  change (32 + 8) with 40 in *. change (40 + 8) with 48 in *. change (48 + 8) with 56 in *. change (2 ^ 0) with 1 in *. rewrite Z.div_1_r in H0 |- *.
  set (q1 := x / 2 ^ 8) in *. set (q2 := x / 2 ^ 16) in *. set (q3 := x / 2 ^ 24) in *. set (q4 := x / 2 ^ 32) in *.
  set (q5 := x / 2 ^ 40) in *. set (q6 := x / 2 ^ 48) in *. set (q7 := x / 2 ^ 56) in *.
  clearbody q1 q2 q3 q4 q5 q6 q7. clear Hd Hm H8.
  change (2 ^ 8) with 256. change (2 ^ 16) with 65536. change (2 ^ 24) with 16777216. change (2 ^ 32) with 4294967296.
  change (2 ^ 40) with 1099511627776. change (2 ^ 48) with 281474976710656. change (2 ^ 56) with 72057594037927936.
  rewrite u64_id; lia.
Qed.

(** ** Reading a header *)

Definition header_len (f : wsframe) : nat := S (length (len_bytes (masked f) (f_len f))).
Definition mask_len (f : wsframe) : nat := if masked f then 4%nat else 0%nat.

Lemma enc_length f : frame_ok f -> length (enc f) = (header_len f + mask_len f + length (f_payload f))%nat.
Proof.
  intros (_ & Hm & _). unfold enc, header_len, mask_len, masked. cbn [length]. rewrite !length_app.
  destruct (f_mask f) as [m|]; simpl; [rewrite xor_mask_length, (Hm m eq_refl)|]; lia.
Qed.

Lemma nth_prefix (p q r : bytes) i : p ++ q = r -> (i < length p)%nat -> nth i p 0 = nth i r 0.
Proof. intros <- Hi. by rewrite app_nth1. Qed.

(** What the parser sees of the start [p] of a stream that begins with a frame. *)
Lemma parse_prefix f p q rest :
  frame_ok f -> p ++ q = enc f ++ rest -> (2 <= length p)%nat ->
  parse_lengths p = (if (length p <? header_len f)%nat then None else Some (header_len f, f_len f)) /\
  negb (Z.land (nth 1 p 0) 128 =? 0) = masked f.
Proof.
  intros (_ & _ & Hlen) E Hp. unfold parse_lengths, header_len. unfold enc in E.
  destruct (Nat.ltb_spec (length p) 2); [lia|]. rewrite !(nth_prefix _ _ _ 1 E) by lia.
  set (mf := if masked f then 128 else 0). assert (Hmf : mf = 0 \/ mf = 128) by (unfold mf; destruct (masked f); auto).
  assert (Hn : negb (mf =? 0) = masked f) by (unfold mf; by destruct (masked f)).
  assert (Hl0 : 0 <= f_len f) by (unfold f_len; lia).
  unfold len_bytes, frame_header in E |- *. fold mf in E |- *.
  destruct (Z.ltb_spec (f_len f) 126) as [H1|H1]; [|destruct (Z.leb_spec (f_len f) 65535) as [H2|H2]];
    cbn [tail app] in E; cbn [nth tail length app].
  - rewrite land_127, land_128 by (try done; lia). split; [|done].
    destruct (Z.eqb_spec (f_len f) 126); [lia|]. destruct (Z.eqb_spec (f_len f) 127); [lia|].
    by destruct (Nat.ltb_spec (length p) 2); [lia|].
  - rewrite land_127, land_128 by (try done; lia). split; [|done]. simpl Z.eqb. cbv iota.
    destruct (Nat.ltb_spec (length p) (2 + 2)) as [Hs|Hs], (Nat.ltb_spec (length p) 4) as [Hs'|Hs']; try lia; [done|].
    rewrite (nth_prefix _ _ _ 2 E), (nth_prefix _ _ _ 3 E) by lia. cbn [nth]. by rewrite be_word by lia.
  - rewrite land_127, land_128 by (try done; lia). split; [|done]. simpl Z.eqb. cbv iota.
    destruct (Nat.ltb_spec (length p) (2 + 8)) as [Hs|Hs], (Nat.ltb_spec (length p) 10) as [Hs'|Hs']; try lia; [done|].
    rewrite (nth_prefix _ _ _ 2 E), (nth_prefix _ _ _ 3 E), (nth_prefix _ _ _ 4 E), (nth_prefix _ _ _ 5 E),
      (nth_prefix _ _ _ 6 E), (nth_prefix _ _ _ 7 E), (nth_prefix _ _ _ 8 E), (nth_prefix _ _ _ 9 E) by lia.
    cbn [nth]. by rewrite be_quad.
Qed.

Lemma flags_fin (fin : bool) code : 0 <= code < 16 -> negb (Z.land (Z.lor (if fin then 128 else 0) code) 128 =? 0) = fin.
Proof. intros H. rewrite Z.lor_comm, land_128 by (destruct fin; lia). by destruct fin. Qed.
Lemma flags_code (fin : bool) code : 0 <= code < 16 -> Z.land (Z.lor (if fin then 128 else 0) code) 15 = code.
Proof.
  intros H. rewrite Z.lor_comm, lor_low by (destruct fin; lia). change 15 with (Z.ones 4).
  rewrite Z.land_ones by lia. change (2 ^ 4) with 16. destruct fin.
  - change 128 with (8 * 16). rewrite Z_mod_plus_full. by apply Z.mod_small.
  - rewrite Z.add_0_r. by apply Z.mod_small.
Qed.

(** ** The observable state *)

Record ws_state := {
  st_payload : bytes;
  st_frag : bool;
  st_messages : list bytes;
  st_out : bytes }.

(** An upgraded, open connection: the unread input is [p]. *)
Record shows (cl mk : bool) (p : bytes) (a : ws_state) (w : WebSocketHandler) : Prop := {
  sh_socket : exists s, ws_socket w = Some s /\ buf_ok (so_inBuffer s) /\ buf_data (so_inBuffer s) = p /\
    so_out s = st_out a /\ so_isOpen s = true /\ so_isWebSocket s = true /\
    so_inputProcessingEnabled s = true /\ so_ignoreInput s = false;
  sh_payload : ws_wsPayload w = st_payload a;
  sh_frag : ws_inFragmentBlock w = st_frag a;
  sh_messages : ws_messages w = st_messages a;
  sh_client : ws_isClient w = cl;
  sh_masking : ws_isMasking w = mk;
  sh_shutting : ws_shuttingDown w = false }.

Lemma shows_set_lastFlags cl mk p a w f : shows cl mk p a w -> shows cl mk p a (set_lastFlags f w).
Proof. intros []. by constructor. Qed.
Lemma shows_set_ping cl mk p a w t u : shows cl mk p a w -> shows cl mk p a (set_ping t u w).
Proof. intros []. by constructor. Qed.
Lemma shows_set_payload cl mk p a w pl fr :
  shows cl mk p a w ->
  shows cl mk p {| st_payload := pl; st_frag := fr; st_messages := st_messages a; st_out := st_out a |} (set_payload pl fr w).
Proof. intros []. by constructor. Qed.
Lemma shows_handleMessage cl mk p a w m :
  shows cl mk p a w ->
  shows cl mk p {| st_payload := st_payload a; st_frag := st_frag a; st_messages := st_messages a ++ [m]; st_out := st_out a |}
    (handleMessage m w).
Proof. intros [? ? ? H]. constructor; simpl; try done. by rewrite H. Qed.
Lemma shows_erase cl mk p a w n :
  shows cl mk p a w -> shows cl mk (drop n p) a (set_socket (fun s => so_set_in (eraseFirst (so_inBuffer s) n) s) w).
Proof.
  intros [(s & Es & Hok & Hp & Ho & Hs)]. constructor; try done. simpl. rewrite Es. simpl. eexists. split; [done|].
  simpl. split; [by apply eraseFirst_ok|]. rewrite eraseFirst_data, Hp. split; [done|]. by split.
Qed.
Lemma shows_out cl mk p a w o :
  shows cl mk p a w ->
  shows cl mk p {| st_payload := st_payload a; st_frag := st_frag a; st_messages := st_messages a; st_out := o |}
    (set_socket (so_set_out o) w).
Proof.
  intros [(s & Es & Hok & Hp & Ho & Hs)]. constructor; try done. simpl. rewrite Es. simpl. eexists. by split.
Qed.

(** ** Sending *)

(** The frame [sendMessage] makes. *)
Definition sent_frame (mk : bool) (code : Z) (data : bytes) : wsframe :=
  {| f_fin := true; f_code := code; f_mask := if mk then Some send_mask else None; f_payload := data |}.

Lemma append_out_ok data out : Z.of_nat (length data) <= INT_MAX -> append_out data out = Ok (out ++ data).
Proof.
  intros H. unfold append_out. rewrite i32_id by (int_unfold; lia).
  destruct (Z.ltb_spec (Z.of_nat (length data)) 0); [lia|]. by rewrite Nat2Z.id, take_ge by lia.
Qed.

Lemma append_masked_ok fuel i data out :
  (length data <= fuel)%nat -> append_masked fuel i data out = Ok (out ++ xor_mask send_mask i data).
Proof.
  revert i data out. induction fuel as [|fuel IH]; intros i data out Hf.
  { destruct data; [|simpl in Hf; lia]. simpl. by rewrite app_nil_r. }
  destruct data as [|b data]; [simpl; by rewrite app_nil_r|]. cbn [append_masked]. set (d := b :: data) in *.
  rewrite append_out_ok. 2:{ rewrite xor_mask_length, length_take. unfold copy_size. int_unfold. lia. }
  cbn [rbind]. rewrite IH. 2:{ rewrite length_drop. subst d. unfold copy_size. simpl in *. lia. }
  rewrite <- app_assoc, <- xor_mask_app. by rewrite take_drop.
Qed.

Lemma buildFrame_enc mk data code out :
  Z.of_nat (length data) <= INT_MAX ->
  buildFrame mk data (Z.lor Fin code) out = Ok (out ++ enc (sent_frame mk code data)).
Proof.
  intros Hl. unfold buildFrame. rewrite append_out_ok.
  2:{ unfold frame_header. destruct (_ <? 126); [|destruct (_ <=? 65535)]; simpl; int_unfold; lia. }
  cbn [rbind]. assert (Hh : frame_header mk (Z.of_nat (length data)) (Z.lor Fin code)
    = Z.lor 128 code :: len_bytes mk (Z.of_nat (length data))).
  { unfold len_bytes, frame_header, Fin. rewrite Z.lor_assoc. by rewrite Z.lor_diag. }
  rewrite Hh. unfold enc, sent_frame, f_len, masked. cbn [f_fin f_code f_mask f_payload]. destruct mk; cbn [default].
  - rewrite append_out_ok by (simpl; int_unfold; lia). cbn [rbind]. rewrite append_masked_ok by done.
    by rewrite <- !app_assoc.
  - rewrite append_out_ok by done. by rewrite <- !app_assoc.
Qed.

Lemma sendMessage_run cl mk p a w data code :
  shows cl mk p a w -> data <> [] -> Z.of_nat (length data) <= INT_MAX ->
  exists n, sendMessage data code w
    = (set_socket (so_set_out (st_out a ++ enc (sent_frame mk code data))) w, Ok n).
Proof.
  intros Hw Hne Hl. destruct (sh_socket _ _ _ _ _ Hw) as (s & Es & _ & _ & Ho & Hopen & _).
  unfold sendMessage, sendFrame, se_bind, se_get, se_lift, se_modify, se_ret. rewrite Es.
  destruct (Nat.eqb_spec (length data) 0) as [E|_]; [by destruct data|]. rewrite Hopen. simpl negb. cbv iota.
  rewrite (sh_masking _ _ _ _ _ Hw), buildFrame_enc, Ho by done. by eexists.
Qed.

(** ** The reaction to a frame *)

(** A close: its code and message; [None] when the frame does not close. *)
Definition closes (cl frag : bool) (f : wsframe) : option (Z * bytes) :=
  if masked f && cl then Some (1002, [])
  else if 8 <=? f_code f then
    if negb (f_fin f) || (125 <? f_len f) || (10 <? f_code f) then Some (1002, [])
    else if f_code f =? 8 then
      match f_payload f with [] => Some (1000, []) | c0 :: c1 :: m => Some (Z.shiftl c0 8 + c1, m) | [_] => None end
    else None
  else if (if frag then negb (f_code f =? 0) else f_code f =? 0) then Some (1002, [])
  else None.

(** Otherwise: a part of a message, a ping, or a pong. *)
Definition frame_step (mk : bool) (a : ws_state) (f : wsframe) : ws_state :=
  if 8 <=? f_code f then
    {| st_payload := st_payload a; st_frag := st_frag a; st_messages := st_messages a;
       st_out := st_out a ++ if (f_code f =? 9) && (0 <? f_len f) then enc (sent_frame mk 10 (f_payload f)) else [] |}
  else if f_fin f then
    {| st_payload := []; st_frag := false; st_messages := st_messages a ++ [st_payload a ++ f_payload f]; st_out := st_out a |}
  else {| st_payload := st_payload a ++ f_payload f; st_frag := true; st_messages := st_messages a; st_out := st_out a |}.

(** A frame that keeps the connection. *)
Definition keeps (cl frag : bool) (f : wsframe) : Prop :=
  frame_ok f /\ closes cl frag f = None /\ f_code f <> 8.

Lemma sendPong_run cl mk p a w now data s :
  shows cl mk p a w -> ws_socket w = Some s -> Z.of_nat (length data) <= 125 ->
  exists w', sendPong now data s w = (w', Ok tt) /\
    shows cl mk p {| st_payload := st_payload a; st_frag := st_frag a; st_messages := st_messages a;
       st_out := st_out a ++ if 0 <? Z.of_nat (length data) then enc (sent_frame mk 10 data) else [] |} w'.
Proof.
  intros Hw Es Hl. destruct (sh_socket _ _ _ _ _ Hw) as (s' & Es' & _ & _ & Ho & Hopen & Hws & _).
  rewrite Es in Es'. injection Es' as <-. unfold sendPong, sendPingOrPong. rewrite Hws.
  destruct data as [|b data].
  - unfold sendMessage, sendFrame, se_bind, se_get, se_ret, se_modify. rewrite Es. simpl. eexists. split; [done|].
    rewrite app_nil_r. apply shows_set_ping. by destruct a.
  - destruct (sendMessage_run cl mk p a w (b :: data) Op_Pong Hw) as [n E]; [done|int_unfold; lia|].
    unfold se_bind, se_ret, se_get, se_modify. rewrite E. eexists. split; [done|].
    destruct (Z.ltb_spec 0 (Z.of_nat (length (b :: data)))); [|simpl in *; lia].
    apply shows_set_ping. by apply shows_out.
Qed.

(** ** One round of the loop *)

Lemma tcp_incomplete cl mk p q a w now f :
  shows cl mk p a w -> frame_ok f -> p ++ q = enc f -> (length p < length (enc f))%nat ->
  exists w', handleTCPStream now w = (w', Ok false) /\ shows cl mk p a w'.
Proof.
  intros Hw Hf E Hl. destruct (sh_socket _ _ _ _ _ Hw) as (s & Es & _ & Hp & _).
  unfold handleTCPStream, se_bind, se_get, se_ret, se_modify. rewrite Es, Hp.
  destruct (Nat.ltb_spec (length p) 2) as [|H2]; [by exists w|].
  destruct (parse_prefix f p q []) as [Hpl Hm]; [done|by rewrite app_nil_r|done|]. rewrite Hpl, Hm.
  destruct (Nat.ltb_spec (length p) (header_len f)) as [Hh|Hh];
    [eexists; split; [done|by apply shows_set_lastFlags]|].
  rewrite (enc_length f Hf) in Hl. unfold mask_len in Hl. unfold f_len.
  destruct (_ || _) eqn:Eb; [eexists; split; [done|by apply shows_set_lastFlags]|].
  bool_hyps. destruct (masked f); lia.
Qed.

(** The payload of a complete frame. *)
Lemma enc_payload f rest :
  frame_ok f ->
  readPayload (take (length (f_payload f)) (drop (header_len f + mask_len f) (enc f ++ rest)))
    (if masked f then Some (take 4 (drop (header_len f) (enc f ++ rest))) else None) = f_payload f.
Proof.
  intros (_ & Hm & _). set (hd := Z.lor (if f_fin f then 128 else 0) (f_code f) :: len_bytes (masked f) (f_len f)).
  assert (Hh : header_len f = length hd) by done.
  assert (E : enc f ++ rest = hd ++ default [] (f_mask f)
     ++ match f_mask f with Some m => xor_mask m 0 (f_payload f) | None => f_payload f end ++ rest).
  { unfold enc, hd. cbn [app]. by rewrite <- !app_assoc. }
  rewrite E, Hh. unfold mask_len, masked in *. rewrite <- drop_drop, drop_app_length.
  destruct (f_mask f) as [m|]; simpl default; simpl readPayload.
  - rewrite take_app_length', drop_app_length' by (by rewrite (Hm m)).
    rewrite take_app_length' by (by rewrite xor_mask_length). apply xor_mask_twice.
  - rewrite drop_0. by rewrite take_app_length.
Qed.

Lemma tcp_complete cl mk a w now f rest :
  shows cl mk (enc f ++ rest) a w -> frame_ok f ->
  exists w1, shows cl mk (enc f ++ rest) a w1 /\
    handleTCPStream now w =
      (if masked f && cl then exec shutdown (status_value PROTOCOL_ERROR) []; se_ret true
       else if 8 <=? f_code f then
         exec se_modify (set_socket (fun s => so_set_in (eraseFirst (so_inBuffer s) (length (enc f))) s));
         exec handleControl now (f_code f) (f_fin f) (f_len f) (f_payload f);
         se_ret true
       else exec handleData (f_code f) (f_fin f) (length (enc f)) (f_payload f); se_ret true) w1.
Proof.
  intros Hw Hf. destruct (sh_socket _ _ _ _ _ Hw) as (s & Es & _ & Hp & _).
  exists (set_lastFlags (nth 0 (enc f ++ rest) 0) w). split; [by apply shows_set_lastFlags|].
  unfold handleTCPStream, se_bind at 1, se_get at 1. rewrite Es, Hp.
  pose proof (enc_length f Hf) as Hl. assert (H2 : (2 <= header_len f)%nat).
  { unfold header_len, len_bytes, frame_header. destruct (_ <? 126); [|destruct (_ <=? 65535)]; simpl; lia. }
  assert (Htot : length (enc f ++ rest) = (length (enc f) + length rest)%nat) by apply length_app.
  destruct (Nat.ltb_spec (length (enc f ++ rest)) 2); [lia|].
  unfold se_bind at 1, se_modify at 1. destruct (parse_prefix f (enc f ++ rest) [] rest) as [-> ->]; [done|by rewrite app_nil_r|lia|].
  destruct (Nat.ltb_spec (length (enc f ++ rest)) (header_len f)); [lia|].
  replace (if masked f then (header_len f + 4)%nat else header_len f) with (header_len f + mask_len f)%nat
    by (unfold mask_len; destruct (masked f); lia).
  destruct (Nat.ltb_spec (length (enc f ++ rest)) (header_len f + mask_len f)); [lia|]. simpl orb.
  assert (Hlen : Z.to_nat (f_len f) = length (f_payload f)) by (unfold f_len; lia).
  destruct (Z.ltb_spec (Z.of_nat (length (enc f ++ rest) - (header_len f + mask_len f))) (f_len f));
    [unfold f_len in *; lia|].
  rewrite (sh_client _ _ _ _ _ Hw), Hlen, enc_payload, <- Hl by done.
  change (nth 0 (enc f ++ rest) 0) with (Z.lor (if f_fin f then 128 else 0) (f_code f)).
  destruct Hf as (Hc & _). rewrite flags_fin, flags_code by done. unfold isControlFrame, Op_Close.
  by destruct (masked f && cl), (8 <=? f_code f).
Qed.

Lemma tcp_keeps cl mk a w now f rest :
  shows cl mk (enc f ++ rest) a w -> keeps cl (st_frag a) f ->
  exists w', handleTCPStream now w = (w', Ok true) /\ shows cl mk rest (frame_step mk a f) w'.
Proof.
  intros Hw (Hf & Hc & H8). destruct (tcp_complete cl mk a w now f rest Hw Hf) as (w1 & Hw1 & ->).
  unfold closes in Hc. destruct (masked f && cl); [done|]. unfold frame_step.
  destruct (Z.leb_spec 8 (f_code f)) as [Hctl|Hdata].
  - destruct (negb (f_fin f) || (125 <? f_len f) || (10 <? f_code f)) eqn:Ebad; [done|]. bool_hyps.
    destruct Ebad as [[Hfin H125] H10]. unfold se_bind at 1, se_modify at 1.
    pose proof (shows_erase cl mk (enc f ++ rest) a w1 (length (enc f)) Hw1) as Hw2. rewrite drop_app_length in Hw2.
    set (w2 := set_socket _ w1) in *. destruct (sh_socket _ _ _ _ _ Hw2) as (s & Es & _).
    unfold handleControl. rewrite Hfin. simpl negb. cbv iota. destruct (Z.ltb_spec 125 (f_len f)); [lia|].
    unfold se_bind, se_get, se_modify, se_ret, Op_Pong, Op_Ping, Op_Close.
    destruct (Z.eqb_spec (f_code f) 10) as [E10|E10].
    { eexists. split; [done|]. apply shows_set_ping. rewrite E10, app_nil_r. by destruct a. }
    destruct (Z.eqb_spec (f_code f) 9) as [E9|E9]; [|lia].
    set (w3 := set_ping _ _ w2). assert (Hw3 : shows cl mk rest a w3) by (by apply shows_set_ping).
    destruct (sendPong_run cl mk rest a w3 now (f_payload f) s Hw3) as (w4 & E4 & Hw4); [done|unfold f_len in *; lia|].
    change (ws_socket w3) with (ws_socket w2). rewrite Es, E4. by eexists.
  - pose proof Hw1 as [(s & Es & Hok & Hp & Hs) Hpl Hfr _ _ _ _].
    unfold handleData, se_bind, se_get, se_modify, se_ret. rewrite Hfr, Hpl.
    assert (Hcond : st_frag a && negb (f_code f =? Op_Continuation) = false /\
      negb (st_frag a) && (f_code f =? Op_Continuation) = false).
    { unfold Op_Continuation. destruct (st_frag a), (f_code f =? 0); done. }
    destruct Hcond as [-> ->].
    assert (Hw2 : shows cl mk rest a (set_socket (eraseFirstInputBytes (length (enc f))) w1)).
    { pose proof (shows_erase cl mk (enc f ++ rest) a w1 (length (enc f)) Hw1) as H. rewrite drop_app_length in H.
      replace (set_socket (eraseFirstInputBytes (length (enc f))) w1)
        with (set_socket (fun s => so_set_in (eraseFirst (so_inBuffer s) (length (enc f))) s) w1); [done|].
      unfold set_socket. rewrite Es. simpl. unfold eraseFirstInputBytes. rewrite buf_size_data, Hp, length_app.
      destruct (Nat.ltb_spec 0 (length (enc f) `min` (length (enc f) + length rest))); [done|]. unfold enc in *. simpl in *. lia. }
    destruct (f_fin f); (eexists; split; [done|]).
    + apply (shows_set_payload _ _ _ {| st_payload := st_payload a; st_frag := st_frag a;
        st_messages := st_messages a ++ [st_payload a ++ f_payload f]; st_out := st_out a |}). by apply shows_handleMessage.
    + by apply shows_set_payload.
Qed.

(** ** Streams of frames *)

Definition enc_all (fs : list wsframe) : bytes := concat (map enc fs).

Lemma enc_all_cons f fs : enc_all (f :: fs) = enc f ++ enc_all fs.
Proof. done. Qed.

(** Frames that keep the connection, from a state in or out of a fragmented message. *)
Fixpoint keeps_all (cl frag : bool) (fs : list wsframe) : Prop :=
  match fs with
  | [] => True
  | f :: fs' => keeps cl frag f /\ keeps_all cl (if 8 <=? f_code f then frag else negb (f_fin f)) fs'
  end.
Definition run_frames (mk : bool) (a : ws_state) (fs : list wsframe) : ws_state := fold_left (frame_step mk) fs a.

(** The start of a frame. *)
Definition partial (p : bytes) : Prop := exists f q, frame_ok f /\ p ++ q = enc f /\ (length p < length (enc f))%nat.

Lemma frame_step_frag mk a f : st_frag (frame_step mk a f) = if 8 <=? f_code f then st_frag a else negb (f_fin f).
Proof. unfold frame_step. destruct (8 <=? f_code f), (f_fin f); done. Qed.

Lemma enc_min f : frame_ok f -> (2 <= length (enc f))%nat.
Proof.
  intros Hf. rewrite (enc_length f Hf). unfold header_len, len_bytes, frame_header.
  destruct (_ <? 126); [|destruct (_ <=? 65535)]; simpl; lia.
Qed.

(** A start of a stream: whole frames, and the start of the next. *)
Lemma split_stream cl frag fs x y :
  keeps_all cl frag fs -> x ++ y = enc_all fs -> y <> [] ->
  exists fs1 f fs2 p q, fs = fs1 ++ f :: fs2 /\ x = enc_all fs1 ++ p /\ p ++ q = enc f /\ q <> [] /\
    y = q ++ enc_all fs2 /\ frame_ok f.
Proof.
  revert frag x. induction fs as [|f fs IH]; intros frag x Hk E Hy.
  { apply app_eq_nil in E as [_ ->]. done. }
  destruct Hk as [(Hf & _) Hk]. rewrite enc_all_cons in E.
  apply app_eq_inv in E as [(k & Ex & Ek)|(k & Ef & Ey)].
  - destruct (IH _ k Hk) as (fs1 & f' & fs2 & p & q & -> & -> & E2 & Hq & E3 & Hf'); [by symmetry|done|].
    exists (f :: fs1), f', fs2, p, q. split; [done|]. split; [|done]. by rewrite Ex, enc_all_cons, <- app_assoc.
  - destruct k as [|c k].
    + rewrite app_nil_r in Ef. simpl in Ey. destruct (IH _ [] Hk) as (fs1 & f' & fs2 & p & q & -> & E1 & E2 & Hq & E3 & Hf'); [by symmetry|done|].
      symmetry in E1. apply app_eq_nil in E1 as [E1 ->]. exists (f :: fs1), f', fs2, [], q.
      split; [done|]. split; [|done]. by rewrite app_nil_r, <- Ef, enc_all_cons, E1, app_nil_r.
    + by exists [], f, fs, x, (c :: k).
Qed.

Lemma keeps_all_app cl frag mk a fs1 fs2 :
  st_frag a = frag -> keeps_all cl frag (fs1 ++ fs2) ->
  keeps_all cl frag fs1 /\ keeps_all cl (st_frag (run_frames mk a fs1)) fs2.
Proof.
  revert frag a. induction fs1 as [|f fs1 IH]; intros frag a Ha Hk; simpl in *; [by rewrite Ha|].
  destruct Hk as [Hf Hk]. destruct (IH (if 8 <=? f_code f then frag else negb (f_fin f)) (frame_step mk a f)) as [H1 H2]; [|exact Hk|done].
  by rewrite frame_step_frag, Ha.
Qed.

(** Whole frames are consumed, and the loop stops at the start of the next. *)
Lemma handle_frames_run fuel cl mk a w now fs p :
  keeps_all cl (st_frag a) fs -> p = [] \/ partial p -> shows cl mk (enc_all fs ++ p) a w -> (length fs <= fuel)%nat ->
  exists w', handle_frames fuel now w = Some (w', Ok tt) /\ shows cl mk p (run_frames mk a fs) w'.
Proof.
  revert fuel a w. induction fs as [|f fs IH]; intros fuel a w Hk Hp Hw Hf.
  - destruct (sh_socket _ _ _ _ _ Hw) as (s & Es & _ & Hd & _ & _ & _ & Hen & _).
    assert (Hstop : exists w', handleTCPStream now w = (w', Ok false) /\ shows cl mk p a w').
    { destruct Hp as [->|(f & q & Hfo & E & Hl)]; [|by eapply tcp_incomplete].
      exists w. split; [|done]. unfold handleTCPStream, se_bind, se_get. by rewrite Es, Hd. }
    destruct Hstop as (w' & E & Hw'). exists w'. split; [|done]. destruct fuel; cbn [handle_frames]; rewrite Es; simpl;
      by rewrite Hen, E.
  - destruct Hk as [Hkf Hk]. rewrite enc_all_cons, <- app_assoc in Hw.
    destruct (tcp_keeps cl mk a w now f _ Hw Hkf) as (w1 & E1 & Hw1).
    destruct (sh_socket _ _ _ _ _ Hw) as (s & Es & _ & _ & _ & _ & _ & Hen & _).
    destruct fuel as [|fuel]; [simpl in Hf; lia|]. cbn [handle_frames]. rewrite Es. simpl from_option. rewrite Hen, E1.
    apply IH; [by rewrite frame_step_frag|done|done|simpl in Hf; lia].
Qed.

(** ** The network *)

(** A chunk arrives and the handler is called. *)
Definition receive (now : Z) (chunk : bytes) (w : WebSocketHandler) : option (WebSocketHandler * result unit) :=
  handleIncomingMessage now (set_socket (readIncomingData chunk) w).
Fixpoint receive_all (now : Z) (chunks : list bytes) (w : WebSocketHandler) : option (WebSocketHandler * result unit) :=
  match chunks with
  | [] => Some (w, Ok tt)
  | c :: cs =>
      match receive now c w with
      | Some (w', Ok _) => receive_all now cs w'
      | r => r
      end
  end.

Lemma shows_read cl mk p a w chunk :
  shows cl mk p a w -> shows cl mk (p ++ chunk) a (set_socket (readIncomingData chunk) w).
Proof.
  intros [(s & Es & Hok & Hp & Ho & H1 & H2 & H3 & H4)]. constructor; try done. simpl. rewrite Es. simpl.
  unfold readIncomingData. rewrite H4. eexists. split; [done|]. unfold buf_ok, buf_data in *. simpl.
  rewrite length_app, drop_app_le, Hp by lia. repeat split; try done. lia.
Qed.

Lemma enc_all_length cl frag fs : keeps_all cl frag fs -> (2 * length fs <= length (enc_all fs))%nat.
Proof.
  revert frag. induction fs as [|f fs IH]; intros frag; [done|]. intros [(Hf & _) Hk]. rewrite enc_all_cons, length_app.
  pose proof (enc_min f Hf). specialize (IH _ Hk). cbn [length]. lia.
Qed.

Lemma receive_run cl mk a w now fs p chunk r :
  keeps_all cl (st_frag a) fs -> p = [] \/ partial p -> shows cl mk r a w -> r ++ chunk = enc_all fs ++ p ->
  exists w', receive now chunk w = Some (w', Ok tt) /\ shows cl mk p (run_frames mk a fs) w'.
Proof.
  intros Hk Hp Hw E. unfold receive, handleIncomingMessage.
  pose proof (shows_read cl mk r a w chunk Hw) as Hw'. rewrite E in Hw'.
  destruct (sh_socket _ _ _ _ _ Hw') as (s & Es & _ & Hd & _). apply handle_frames_run; [done|done|done|].
  rewrite Es. simpl. rewrite buf_size_data, Hd, length_app. pose proof (enc_all_length _ _ _ Hk). lia.
Qed.

Lemma receive_all_run cl mk a w now fs r chunks :
  keeps_all cl (st_frag a) fs -> shows cl mk r a w -> r ++ concat chunks = enc_all fs -> (chunks = [] -> r = []) ->
  exists w', receive_all now chunks w = Some (w', Ok tt) /\ shows cl mk [] (run_frames mk a fs) w'.
Proof.
  revert a w fs r. induction chunks as [|c cs IH]; intros a w fs r Hk Hw E Hr.
  - simpl in E. rewrite (Hr eq_refl) in *. simpl in E. exists w. split; [done|]. destruct fs as [|f fs]; [done|].
    exfalso. pose proof (enc_all_length _ _ _ Hk) as H. rewrite <- E in H. simpl in H. lia.
  - simpl concat in E. rewrite app_assoc in E. destruct (decide (concat cs = [])) as [Hcs|Hcs].
    + rewrite Hcs, app_nil_r in E.
      destruct (receive_run cl mk a w now fs [] c r Hk ltac:(by left) Hw) as (w1 & E1 & Hw1); [by rewrite app_nil_r|].
      destruct (IH (run_frames mk a fs) w1 [] [] I Hw1) as (w' & E' & Hw'); [done|done|].
      exists w'. simpl. by rewrite E1.
    + destruct (split_stream cl _ fs (r ++ c) (concat cs) Hk E Hcs) as (fs1 & f & fs2 & p & q & -> & Ex & Ep & Hq & Ey & Hf).
      destruct (keeps_all_app cl _ mk a fs1 (f :: fs2) eq_refl Hk) as [Hk1 Hk2].
      assert (Hp : partial p).
      { exists f, q. split; [done|]. split; [done|]. rewrite <- Ep, length_app. destruct q; [done|simpl; lia]. }
      destruct (receive_run cl mk a w now fs1 p c r Hk1 ltac:(by right) Hw Ex) as (w1 & E1 & Hw1).
      destruct (IH (run_frames mk a fs1) w1 (f :: fs2) p Hk2 Hw1) as (w' & E' & Hw').
      * rewrite Ey, app_assoc, Ep. done.
      * by intros ->.
      * exists w'. simpl. rewrite E1. split; [done|]. unfold run_frames in *. by rewrite fold_left_app.
Qed.

(** ** Messages *)

(** The messages of a sequence of frames: data frames up to a final one, joined. *)
Fixpoint messages_of (acc : bytes) (fs : list wsframe) : list bytes :=
  match fs with
  | [] => []
  | f :: fs' =>
      if 8 <=? f_code f then messages_of acc fs'
      else if f_fin f then (acc ++ f_payload f) :: messages_of [] fs' else messages_of (acc ++ f_payload f) fs'
  end.

(** The answers to the pings that carry data. *)
Definition pongs_of (mk : bool) (fs : list wsframe) : list wsframe :=
  map (fun f => sent_frame mk 10 (f_payload f)) (List.filter (fun f => (f_code f =? 9) && (0 <? f_len f)) fs).

Lemma run_frames_messages mk a fs :
  st_messages (run_frames mk a fs) = st_messages a ++ messages_of (st_payload a) fs /\
  st_out (run_frames mk a fs) = st_out a ++ enc_all (pongs_of mk (List.filter (fun f => 8 <=? f_code f) fs)).
Proof.
  revert a. induction fs as [|f fs IH]; intros a; [by rewrite !app_nil_r|]. simpl run_frames.
  destruct (IH (frame_step mk a f)) as [IH1 IH2]. unfold run_frames in *. simpl. rewrite IH1, IH2. unfold frame_step.
  destruct (8 <=? f_code f); simpl.
  - split; [done|]. unfold pongs_of. simpl. destruct (_ && _); simpl; [|by rewrite app_nil_r].
    by rewrite enc_all_cons, app_assoc.
  - destruct (f_fin f); simpl; [by rewrite <- app_assoc|done].
Qed.

(** A server just upgraded to a WebSocket, or a client. *)
Definition ws_idle : ws_state := {| st_payload := []; st_frag := false; st_messages := []; st_out := [] |}.

(** C37 (functional): on a connection in the WebSocket state, however the network cuts
    the bytes of a sequence of well-formed frames without a close frame into chunks, the handler passes on
    exactly the messages of the frames (fragments joined, control frames between
    them skipped), in order, answers each ping that carries data with a pong of the
    same data, and leaves nothing unread. *)
Theorem ws_delivers_messages cl mk w now fs chunks :
  shows cl mk [] ws_idle w -> keeps_all cl false fs -> concat chunks = enc_all fs ->
  exists w' s, receive_all now chunks w = Some (w', Ok tt) /\ ws_messages w' = messages_of [] fs /\
    ws_socket w' = Some s /\ so_out s = enc_all (pongs_of mk (List.filter (fun f => 8 <=? f_code f) fs)) /\
    buf_data (so_inBuffer s) = [].
Proof.
  intros Hw Hk E. destruct (receive_all_run cl mk ws_idle w now fs [] chunks) as (w' & E' & Hw'); [done|done|done|done|].
  destruct (sh_socket _ _ _ _ _ Hw') as (s & Es & _ & Hd & Ho & _). exists w', s.
  destruct (run_frames_messages mk ws_idle fs) as [Hm Hp]. rewrite Ho, Hp, (sh_messages _ _ _ _ _ Hw'), Hm. done.
Qed.

(** An upgraded server socket, and a fragmented masked message with a ping inside. *)
Definition sample_socket (input : bytes) : StreamSocket :=
  {| so_inBuffer := {| buf_offset := 0; buf_buffer := input |}; so_out := []; so_isOpen := true;
     so_isWebSocket := true; so_inputProcessingEnabled := true; so_ignoreInput := false; so_shutdownSignalled := false |}.
Definition sample_handler (cl : bool) (frag : bool) (input : bytes) : WebSocketHandler :=
  {| ws_wsPayload := []; ws_socket := Some (sample_socket input); ws_lastPingSentTime := 0; ws_pingTimeUs := 0;
     ws_isMasking := false; ws_inFragmentBlock := frag; ws_lastFlags := 0; ws_shuttingDown := false;
     ws_isClient := cl; ws_messages := [] |}.
Definition sample_frames : list wsframe :=
  [{| f_fin := false; f_code := 1; f_mask := Some [1; 2; 3; 4]; f_payload := str "load " |};
   {| f_fin := true; f_code := 9; f_mask := None; f_payload := [7] |};
   {| f_fin := true; f_code := 0; f_mask := Some [9; 9; 9; 9]; f_payload := str "url=x" |}].

Lemma sample_shows cl frag input :
  shows cl false input {| st_payload := []; st_frag := frag; st_messages := []; st_out := [] |} (sample_handler cl frag input).
Proof. constructor; try done. eexists. split; [done|]. by repeat split; try (unfold buf_ok; simpl; lia). Defined.

Lemma sample_frames_keep : keeps_all false false sample_frames.
Proof.
  repeat split; try (simpl; lia); try (vm_compute; reflexivity); try discriminate;
    intros m [= <-]; reflexivity.
Defined.

Lemma ws_delivers_messages_witness :
  exists w' s,
    receive_all 5 [take 9 (enc_all sample_frames); drop 9 (enc_all sample_frames)] (sample_handler false false [])
      = Some (w', Ok tt) /\
    ws_messages w' = [str "load url=x"] /\ ws_socket w' = Some s /\ so_out s = [138; 1; 7] /\
    buf_data (so_inBuffer s) = [].
Proof.
  apply (ws_delivers_messages false false (sample_handler false false []) 5 sample_frames
    [take 9 (enc_all sample_frames); drop 9 (enc_all sample_frames)]);
    [apply sample_shows|apply sample_frames_keep|by vm_compute].
Defined.

(** ** Sent, then received *)

(** The frames of messages sent with their opcodes. *)
Definition sent_frames (mk : bool) (msgs : list (Z * bytes)) : list wsframe := map (fun m => sent_frame mk m.1 m.2) msgs.

Fixpoint send_all (msgs : list (Z * bytes)) : WS unit :=
  match msgs with
  | [] => se_ret tt
  | (code, data) :: msgs' => exec sendMessage data code; send_all msgs'
  end.

Definition sendable (m : Z * bytes) : Prop :=
  (m.1 = Op_Text \/ m.1 = Op_Binary) /\ m.2 <> [] /\ Z.of_nat (length m.2) <= INT_MAX.

Lemma send_all_run cl mk p a w msgs :
  shows cl mk p a w -> Forall sendable msgs ->
  exists w', send_all msgs w = (w', Ok tt) /\
    shows cl mk p {| st_payload := st_payload a; st_frag := st_frag a; st_messages := st_messages a;
                     st_out := st_out a ++ enc_all (sent_frames mk msgs) |} w'.
Proof.
  intros Hw Hm. revert a w Hw. induction Hm as [|[code data] msgs (Hc & Hne & Hl) _ IH]; intros a w Hw.
  { exists w. split; [done|]. rewrite app_nil_r. by destruct a. }
  destruct (sendMessage_run cl mk p a w data code Hw Hne Hl) as [n E].
  pose proof (shows_out cl mk p a w (st_out a ++ enc (sent_frame mk code data)) Hw) as Hw1.
  destruct (IH _ _ Hw1) as (w' & E' & Hw'). exists w'. cbn [send_all]. unfold se_bind at 1. rewrite E. split; [done|].
  simpl st_out in Hw'. by rewrite <- app_assoc in Hw'.
Qed.

Lemma sent_frames_keep cl mk msgs : (cl = true -> mk = false) -> Forall sendable msgs -> keeps_all cl false (sent_frames mk msgs).
Proof.
  intros Hmk. induction 1 as [|[code data] msgs (Hc & Hne & Hl) _ IH]; [done|]. unfold sendable, Op_Text, Op_Binary in *.
  simpl in Hc, Hl. assert (H8 : (8 <=? code) = false) by (apply Z.leb_gt; lia).
  simpl. rewrite H8. split; [|exact IH]. unfold keeps, closes, frame_ok, f_len. cbn [f_code f_fin f_mask f_payload masked sent_frame].
  rewrite H8. split; [|split; [|lia]].
  - split; [lia|]. split; [intros m; destruct mk; [by intros [= <-]|done]|int_unfold; lia].
  - destruct cl; [rewrite Hmk by done; simpl|rewrite andb_false_r]; by destruct (Z.eqb_spec code 0); [lia|].
Qed.

Lemma sent_frames_messages mk msgs : Forall sendable msgs ->
  messages_of [] (sent_frames mk msgs) = map snd msgs /\ List.filter (fun f => 8 <=? f_code f) (sent_frames mk msgs) = [].
Proof.
  induction 1 as [|[code data] msgs (Hc & _) _ [IH1 IH2]]; [done|]. unfold Op_Text, Op_Binary in Hc. simpl in Hc |- *.
  assert (H8 : (8 <=? code) = false) by (apply Z.leb_gt; lia). rewrite H8. simpl. by rewrite IH1.
Qed.

(** C38 (roundtrip): what one end sends the other end receives: the bytes that
    [sendMessage] queues for a list of text and binary messages, none of them empty,
    masked or not, cut by the network at any points, make the peer pass on the same
    messages in the same order, and queue nothing in return; towards a client the
    sender must not mask, as a server does not. *)
Theorem ws_send_receive cl mk cl' mk' ws wr now msgs chunks :
  shows cl mk [] ws_idle ws -> shows cl' mk' [] ws_idle wr -> (cl' = true -> mk = false) -> Forall sendable msgs ->
  exists ws' s, send_all msgs ws = (ws', Ok tt) /\ ws_socket ws' = Some s /\
    (concat chunks = so_out s ->
     exists wr' r, receive_all now chunks wr = Some (wr', Ok tt) /\ ws_messages wr' = map snd msgs /\
       ws_socket wr' = Some r /\ so_out r = []).
Proof.
  intros Hs Hr Hmk Hm. destruct (send_all_run _ _ _ _ _ _ Hs Hm) as (ws' & E & Hs').
  destruct (sh_socket _ _ _ _ _ Hs') as (s & Es & _ & _ & Ho & _). exists ws', s. do 2 (split; [done|]). intros Hc.
  rewrite Ho in Hc. destruct (receive_all_run cl' mk' ws_idle wr now (sent_frames mk msgs) [] chunks) as (wr' & E' & Hr');
    [by apply sent_frames_keep|done|done|done|].
  destruct (sh_socket _ _ _ _ _ Hr') as (r & Er & _ & _ & Hor & _). exists wr', r.
  destruct (run_frames_messages mk' ws_idle (sent_frames mk msgs)) as [H1 H2].
  destruct (sent_frames_messages mk msgs Hm) as [H3 H4]. split; [done|].
  rewrite (sh_messages _ _ _ _ _ Hr'), H1, Hor, H2, H4. simpl. by rewrite H3.
Qed.

Lemma ws_send_receive_witness :
  exists ws' s, send_all [(1, str "tile: x"); (2, [0; 255])] (sample_handler true false []) = (ws', Ok tt) /\
    ws_socket ws' = Some s /\
    (concat [take 3 (so_out s); drop 3 (so_out s)] = so_out s ->
     exists wr' r, receive_all 1 [take 3 (so_out s); drop 3 (so_out s)] (sample_handler false false []) = Some (wr', Ok tt) /\
       ws_messages wr' = [str "tile: x"; [0; 255]] /\ ws_socket wr' = Some r /\ so_out r = []).
Proof.
  destruct (ws_send_receive true false false false (sample_handler true false []) (sample_handler false false []) 1
    [(1, str "tile: x"); (2, [0; 255])] [take 3 (enc_all (sent_frames false [(1, str "tile: x"); (2, [0; 255])]));
       drop 3 (enc_all (sent_frames false [(1, str "tile: x"); (2, [0; 255])]))])
    as (ws' & s & E & Es & H); [apply sample_shows|apply sample_shows|done| |].
  - repeat constructor; simpl; try (by left); try (by right); try discriminate; int_unfold; lia.
  - exists ws', s. do 2 (split; [done|]). vm_compute in E. injection E as <-. vm_compute in Es. injection Es as <-.
    exact H.
Defined.

(** ** Closing *)

(** The connection is going down: nothing is read any more, what arrives is
    dropped, and the socket closes once the output is written. *)
Record closing (a : ws_state) (out : bytes) (w : WebSocketHandler) : Prop := {
  cl_socket : exists s, ws_socket w = Some s /\ buf_data (so_inBuffer s) = [] /\ so_out s = out /\
    so_ignoreInput s = true /\ so_shutdownSignalled s = true /\ so_inputProcessingEnabled s = true;
  cl_messages : ws_messages w = st_messages a;
  cl_payload : ws_wsPayload w = [] /\ ws_inFragmentBlock w = false }.

Lemma shutdown_run cl mk p a w code msg :
  shows cl mk p a w -> Z.of_nat (length msg) <= INT_MAX - 2 ->
  exists w', shutdown code msg w = (w', Ok tt) /\
    closing a (st_out a ++ enc (sent_frame mk 8 ([be_byte code 8; be_byte code 0] ++ msg))) w'.
Proof.
  intros Hw Hl. destruct (sh_socket _ _ _ _ _ Hw) as (s & Es & _ & _ & Ho & Hopen & _ & Hen & _).
  unfold shutdown, shutdownImpl. unfold se_bind at 1, se_get at 1. rewrite Es, (sh_shutting _ _ _ _ _ Hw). simpl orb. cbv iota.
  assert (Hc : exists w1, sendCloseFrame code msg w = (w1, Ok tt) /\ w1 = set_socket (so_set_out (st_out a ++
    enc (sent_frame mk 8 ([be_byte code 8; be_byte code 0] ++ msg)))) (set_shuttingDown true w)).
  { eexists. split; [|reflexivity]. unfold sendCloseFrame. unfold se_bind at 1, se_get at 1. rewrite Es, Hopen, (sh_shutting _ _ _ _ _ Hw). simpl negb. cbv iota.
    unfold se_bind at 1, se_modify at 1. unfold sendFrame, se_bind, se_get, se_lift, se_modify, se_ret. change (negb true) with false. cbv beta iota. change (ws_socket (set_shuttingDown true w)) with (ws_socket w).
    rewrite Es, Hopen. change (ws_isMasking (set_shuttingDown true w)) with (ws_isMasking w). simpl.
    by rewrite (sh_masking _ _ _ _ _ Hw), buildFrame_enc, Ho by (simpl; int_unfold; lia). }
  destruct Hc as (w1 & Ec & ->). unfold se_bind, se_modify. rewrite Ec. eexists. split; [done|].
  destruct Hw. constructor; try done. simpl. rewrite Es. simpl. by eexists.
Qed.

(** Fact (error): a frame that violates the protocol (masked by a server, a fragmented,
    oversized or unknown control frame, a continuation outside a fragmented message
    or a new message inside one) makes the handler send one close frame with code
    1002; a close frame of the peer is answered with its own code and reason. In both
    cases nothing more is delivered, the unread input and any partial message are
    dropped, further input is ignored, and the loop ends. *)
Theorem ws_closes cl mk w a now f rest code msg :
  shows cl mk (enc f ++ rest) a w -> frame_ok f -> closes cl (st_frag a) f = Some (code, msg) ->
  exists w', handleIncomingMessage now w = Some (w', Ok tt) /\
    closing a (st_out a ++ enc (sent_frame mk 8 ([be_byte code 8; be_byte code 0] ++ msg))) w'.
Proof.
  intros Hw Hf Hc. assert (Hone : exists w', handleTCPStream now w = (w', Ok true) /\
    closing a (st_out a ++ enc (sent_frame mk 8 ([be_byte code 8; be_byte code 0] ++ msg))) w').
  { destruct (tcp_complete cl mk a w now f rest Hw Hf) as (w1 & Hw1 & ->). unfold closes in Hc.
    assert (H1002 : forall p' w2, shows cl mk p' a w2 -> Some (1002, []) = Some (code, msg) ->
      exists w', (exec shutdown (status_value PROTOCOL_ERROR) []; se_ret true) w2 = (w', Ok true) /\
      closing a (st_out a ++ enc (sent_frame mk 8 ([be_byte code 8; be_byte code 0] ++ msg))) w').
    { intros p' w2 Hw2 [= <- <-]. destruct (shutdown_run cl mk p' a w2 1002 [] Hw2) as (w' & E & H'); [int_unfold; simpl; lia|].
      exists w'. unfold se_bind. simpl status_value. by rewrite E. }
    destruct (masked f && cl); [by eapply H1002|]. destruct (8 <=? f_code f).
    - unfold se_bind at 1, se_modify at 1. pose proof (shows_erase cl mk _ a w1 (length (enc f)) Hw1) as Hw2.
      set (w2 := set_socket _ w1) in *. unfold handleControl.
      destruct (f_fin f); simpl negb in Hc |- *; cbv iota; [|by eapply H1002]. simpl orb in Hc.
      destruct (125 <? f_len f) eqn:E125; [by eapply H1002|]. simpl orb in Hc.
      destruct (10 <? f_code f) eqn:E10; bool_hyps.
      + unfold Op_Pong, Op_Ping, Op_Close. destruct (Z.eqb_spec (f_code f) 10); [lia|]. destruct (Z.eqb_spec (f_code f) 9); [lia|].
        destruct (Z.eqb_spec (f_code f) 8); [lia|]. unfold se_bind at 2, se_get. by eapply H1002.
      + destruct (Z.eqb_spec (f_code f) 8) as [E8|]; [|done]. rewrite E8. unfold se_bind at 2, se_get.
        change (8 =? Op_Pong) with false. change (8 =? Op_Ping) with false. change (8 =? Op_Close) with true. cbv iota.
        assert (Hr : close_reason false (f_payload f) = Ok (code, msg)).
        { unfold close_reason. destruct (f_payload f) as [|c0 [|c1 m]]; [|done|]; by injection Hc as <- <-. }
        unfold se_bind, se_lift. cbv beta iota. rewrite (sh_shutting _ _ _ _ _ Hw2), Hr. cbn [fst snd].
        destruct (shutdown_run cl mk _ a w2 code msg Hw2) as (w' & E & H').
        { destruct (f_payload f) as [|c0 [|c1 m]] eqn:Ep; [injection Hc as <- <-; simpl; int_unfold; lia|done|].
          injection Hc as <- <-. unfold f_len in E125. rewrite Ep in E125. simpl in E125. int_unfold. lia. }
        rewrite E. by eexists.
    - pose proof Hw1 as [_ _ Hfr _ _ _ _]. assert (Hd : handleData (f_code f) (f_fin f) (length (enc f)) (f_payload f) w1 = shutdown (status_value PROTOCOL_ERROR) [] w1
        /\ Some (1002, []) = Some (code, msg)).
      { unfold handleData, se_bind, se_get. cbv beta iota. rewrite Hfr. unfold Op_Continuation.
        by destruct (st_frag a), (f_code f =? 0). }
      destruct Hd as [Hd Hcm]. destruct (H1002 _ w1 Hw1 Hcm) as (w' & E & H). exists w'. unfold se_bind in E |- *. by rewrite Hd. }
  destruct Hone as (w' & E & Hcl). exists w'. split; [|done]. unfold handleIncomingMessage.
  destruct (sh_socket _ _ _ _ _ Hw) as (s & Es & _ & Hd & _ & _ & _ & Hen & _). rewrite Es. simpl from_option.
  rewrite buf_size_data, Hd, length_app. pose proof (enc_min f Hf).
  destruct (length (enc f) + length rest)%nat as [|n] eqn:En; [lia|]. cbn [handle_frames]. rewrite Es. simpl from_option.
  rewrite Hen, E. destruct (cl_socket _ _ _ Hcl) as (s' & Es' & Hd' & _ & _ & _ & Hen').
  destruct n; cbn [handle_frames]; rewrite Es'; simpl from_option; rewrite Hen'; unfold handleTCPStream, se_bind, se_get;
    rewrite Es', Hd'; done.
Qed.

(** A server in a fragmented message gets another text frame, then more data. *)
Lemma ws_closes_witness :
  exists w', handleIncomingMessage 9 (sample_handler false true (enc (sent_frame true 1 (str "x")) ++ [1; 2; 3])) = Some (w', Ok tt) /\
    closing {| st_payload := []; st_frag := true; st_messages := []; st_out := [] |} [136; 2; 3; 234] w'.
Proof.
  apply (ws_closes false false (sample_handler false true (enc (sent_frame true 1 (str "x")) ++ [1; 2; 3]))
    {| st_payload := []; st_frag := true; st_messages := []; st_out := [] |} 9 (sent_frame true 1 (str "x")) [1; 2; 3] 1002 []).
  - apply sample_shows.
  - split; [simpl; lia|]. split; [by intros m [= <-]|vm_compute; reflexivity].
  - reflexivity.
Defined.

(** Fact (error): a close frame whose payload is a single byte makes the handler read
    the second byte of the status code past the end of the payload. *)
Theorem close_one_byte_reads_past_end cl mk w a now f rest c :
  shows cl mk (enc f ++ rest) a w -> frame_ok f ->
  masked f && cl = false -> f_fin f = true -> f_code f = 8 -> f_payload f = [c] ->
  exists w', handleIncomingMessage now w = Some (w', Throw undefined).
Proof.
  intros Hw Hf Hm Hfin Hc Hp. destruct (tcp_complete cl mk a w now f rest Hw Hf) as (w1 & Hw1 & E).
  assert (H : exists w', handleTCPStream now w = (w', Throw undefined)).
  { rewrite E, Hm, Hc, Hfin, Hp. unfold f_len. rewrite Hp. pose proof (shows_erase cl mk _ a w1 (length (enc f)) Hw1) as Hw2.
    change (8 <=? 8) with true. cbv iota. unfold se_bind at 1, se_modify at 1. set (w2 := set_socket _ w1) in *.
    unfold handleControl. simpl. unfold se_bind, se_get, se_lift. rewrite (sh_shutting _ _ _ _ _ Hw2). by eexists. }
  destruct H as (w' & Ht). exists w'. unfold handleIncomingMessage.
  destruct (sh_socket _ _ _ _ _ Hw) as (s & Es & _ & _ & _ & _ & _ & Hen & _). rewrite Es. simpl from_option.
  destruct (buf_size (so_inBuffer s)); cbn [handle_frames]; rewrite Es; simpl from_option; by rewrite Hen, Ht.
Qed.

Lemma close_one_byte_reads_past_end_witness :
  exists w', handleIncomingMessage 0 (sample_handler false false [136; 1; 3]) = Some (w', Throw undefined).
Proof.
  apply (close_one_byte_reads_past_end false false (sample_handler false false [136; 1; 3])
    {| st_payload := []; st_frag := false; st_messages := []; st_out := [] |} 0 (sent_frame false 8 [3]) [] 3);
    [apply sample_shows| |done|done|done|done].
  split; [simpl; lia|]. split; [done|vm_compute; reflexivity].
Defined.

(** ** The loop ends *)

(** The unread input. *)
Definition unread (w : WebSocketHandler) : nat := from_option (fun s => buf_size (so_inBuffer s)) 0%nat (ws_socket w).

(** [m] never adds to the unread input. *)
Definition reads_at_most {A} (n : nat) (m : WS A) : Prop :=
  hoare (fun w => unread w <= n)%nat m (fun _ w => unread w <= n)%nat (fun _ => True).

Lemma ram_bind {A B} n (m : WS A) (f : A -> WS B) :
  reads_at_most n m -> (forall a, reads_at_most n (f a)) -> reads_at_most n (se_bind m f).
Proof. intros Hm Hf. by eapply hoare_bind. Qed.
Lemma ram_ret {A} n (a : A) : reads_at_most n (se_ret a).
Proof. by apply hoare_ret. Qed.
Lemma ram_get n : reads_at_most n se_get.
Proof. by intros w Hw. Qed.
Lemma ram_lift {A} n (r : result A) : reads_at_most n (se_lift r).
Proof. by apply hoare_lift. Qed.
Lemma ram_modify n f : (forall w, (unread (f w) <= unread w)%nat) -> reads_at_most n (se_modify f).
Proof. intros Hf. apply hoare_modify. intros w Hw. specialize (Hf w). lia. Qed.
Lemma unread_set_socket f w : (forall s, (buf_size (so_inBuffer (f s)) <= buf_size (so_inBuffer s))%nat) ->
  (unread (set_socket f w) <= unread w)%nat.
Proof. intros Hf. unfold unread. simpl. by destruct (ws_socket w); simpl. Qed.

Create HintDb ws.
#[local] Hint Resolve ram_bind ram_ret ram_get ram_lift : ws.
#[local] Hint Extern 2 (reads_at_most _ (se_modify _)) => apply ram_modify; intros ?; done : ws.
#[local] Hint Extern 2 (reads_at_most _ (se_modify (set_socket _))) =>
  apply ram_modify; intros ?; apply unread_set_socket; intros ?; done : ws.
#[local] Hint Extern 1 (reads_at_most _ (match ?x with _ => _ end)) => destruct x : ws.

Lemma ram_sendFrame n data flags : reads_at_most n (sendFrame data flags).
Proof. unfold sendFrame. eauto 12 with ws. Qed.
#[local] Hint Resolve ram_sendFrame : ws.
Lemma ram_sendPong n now data s : reads_at_most n (sendPong now data s).
Proof. unfold sendPong, sendPingOrPong, sendMessage. eauto 12 with ws. Qed.
Lemma ram_sendCloseFrame n code msg : reads_at_most n (sendCloseFrame code msg).
Proof. unfold sendCloseFrame. eauto 14 with ws. Qed.
#[local] Hint Resolve ram_sendPong ram_sendCloseFrame : ws.

(** A shutdown leaves nothing unread. *)
Lemma shutdown_unread n code msg : hoare (fun w => unread w <= n)%nat (shutdown code msg) (fun _ w => unread w = 0%nat) (fun _ => True).
Proof.
  unfold shutdown, shutdownImpl. apply hoare_get_bind. intros w Hw.
  eapply (hoare_bind _ _ _ (fun _ w => unread w = 0%nat)).
  - destruct (ws_socket w) as [s|] eqn:Es.
    + eapply (hoare_bind _ _ _ (fun _ w => unread w <= n)%nat).
      * eapply (hoare_pre _ (fun w => unread w <= n)%nat); [by intros ? ->|]. destruct (_ || _); [apply ram_ret|apply ram_sendCloseFrame].
      * intros ?. apply hoare_modify. intros w' _. unfold unread. simpl. by destruct (ws_socket w'); simpl.
    + apply hoare_ret. intros ? ->. unfold unread. by rewrite Es.
  - intros ?. eapply (hoare_bind _ _ _ (fun _ w => unread w = 0%nat)); [by apply hoare_modify|].
    intros ?. by apply hoare_modify.
Qed.
Lemma ram_shutdown n code msg : reads_at_most n (shutdown code msg).
Proof. eapply hoare_conseq; [apply (shutdown_unread n)|done| |done]. simpl. lia. Qed.
#[local] Hint Resolve ram_shutdown : ws.

Lemma ram_handleControl n now code fin len payload : reads_at_most n (handleControl now code fin len payload).
Proof. unfold handleControl. eauto 14 with ws. Qed.

(** A round that goes on takes input. *)
Lemma tcp_progress now w w' : handleTCPStream now w = (w', Ok true) -> (unread w' < unread w)%nat.
Proof.
  intros H. enough (Hh : hoare (fun x => x = w) (handleTCPStream now) (fun b x => b = true -> (unread x < unread w)%nat) (fun _ => True)).
  { specialize (Hh w eq_refl). rewrite H in Hh. by apply Hh. }
  clear H w'. unfold handleTCPStream. apply hoare_get_bind. intros ? ->. destruct (ws_socket w) as [s|] eqn:Es; [|by apply hoare_ret].
  assert (Hu : unread w = length (buf_data (so_inBuffer s))) by (unfold unread; rewrite Es; apply buf_size_data).
  set (p := buf_data (so_inBuffer s)) in *. destruct (Nat.ltb_spec (length p) 2); [by apply hoare_ret|].
  set (w1 := set_lastFlags (nth 0 p 0) w).
  eapply (hoare_bind _ _ _ (fun _ x => x = w1)); [by apply hoare_modify; intros ? ->|].
  intros ?. destruct (parse_lengths p) as [[h len]|] eqn:Ep; [|by apply hoare_ret].
  assert (Hh : (0 < h)%nat).
  { unfold parse_lengths in Ep. repeat case_match; simplify_eq; lia. }
  destruct (_ || _) eqn:Ei; [by apply hoare_ret|]. bool_hyps. destruct Ei as [Ei1 Ei2].
  set (hl := if negb (Z.land (nth 1 p 0) 128 =? 0) then (h + 4)%nat else h) in *.
  assert (Hhl : (0 < hl)%nat) by (unfold hl; destruct (negb _); lia).
  assert (Hs : exists s1, ws_socket w1 = Some s1 /\ so_inBuffer s1 = so_inBuffer s) by (by exists s).
  assert (Hrest : forall (m : WS unit) k, (k < length p)%nat -> hoare (fun x => x = w1) m (fun _ x => unread x <= k)%nat (fun _ => True) ->
    hoare (fun x => x = w1) (exec m; se_ret true) (fun b x => b = true -> (unread x < unread w)%nat) (fun _ => True)).
  { intros m k Hk Hm. eapply hoare_bind; [exact Hm|]. intros ?. apply hoare_ret. intros x Hx _. lia. }
  assert (Hshut : forall code, hoare (fun x => x = w1) (shutdown code []) (fun _ x => unread x <= 0)%nat (fun _ => True)).
  { intros code. eapply hoare_conseq; [apply (shutdown_unread (unread w1))|by intros ? ->| |done]. simpl. lia. }
  destruct (_ && _); [by apply (Hrest _ 0%nat); [lia|]|]. set (fl := (hl + Z.to_nat len)%nat).
  assert (Hk : (length p - fl < length p)%nat) by (unfold fl; lia).
  destruct (isControlFrame _).
  - eapply (hoare_bind _ _ _ (fun _ x => unread x <= length p - fl)%nat).
    + apply hoare_modify. intros ? ->. unfold unread. simpl. rewrite Es. simpl. rewrite buf_size_data, eraseFirst_data, length_drop. done.
    + intros ?. eapply hoare_bind; [apply ram_handleControl|]. intros ?. apply hoare_ret. intros x Hx _. lia.
  - apply (Hrest _ (length p - fl)%nat Hk). unfold handleData. apply hoare_get_bind. intros ? ->.
    assert (Hsh : hoare (fun x => x = w1) (shutdown (status_value PROTOCOL_ERROR) []) (fun _ x => unread x <= length p - fl)%nat (fun _ => True)).
    { eapply hoare_conseq; [apply (Hshut (status_value PROTOCOL_ERROR))|done| |done]. simpl. lia. }
    destruct (_ && _); [done|]. destruct (_ && _); [done|].
    eapply (hoare_bind _ _ _ (fun _ x => unread x <= length p - fl)%nat).
    + apply hoare_modify. intros ? ->. unfold unread. simpl. rewrite Es. simpl. unfold eraseFirstInputBytes.
      rewrite (buf_size_data (so_inBuffer s)). fold p. destruct (Nat.ltb_spec 0 (fl `min` length p)); [|unfold fl in *; lia].
      cbn [so_inBuffer so_set_in]. rewrite (buf_size_data (eraseFirst _ _)), eraseFirst_data, length_drop. done.
    + intros ?. destruct (negb (Z.land (nth 0 p 0) 128 =? 0)); [|by apply hoare_modify].
      eapply (hoare_bind _ _ _ (fun _ x => unread x <= length p - fl)%nat); [by apply hoare_modify|]. intros ?. by apply hoare_modify.
Qed.

Lemma handle_frames_total fuel now w : (unread w <= fuel)%nat -> is_Some (handle_frames fuel now w).
Proof.
  revert w. induction fuel as [|fuel IH]; intros w Hf; cbn [handle_frames];
    (destruct (from_option _ _ _); [|done]); destruct (handleTCPStream now w) as [w' [[|]|e]] eqn:E; try done;
    apply tcp_progress in E; [lia|]. apply IH. lia.
Qed.

(** Fact (termination): whatever bytes have arrived and whatever the state of the
    connection, the loop of [handleIncomingMessage] ends: each round that reports a
    frame has taken bytes from the input buffer, or emptied it. *)
Theorem handleIncomingMessage_terminates now w : is_Some (handleIncomingMessage now w).
Proof. by apply handle_frames_total. Qed.
