(* ===== verification/RecordSet.v ===== *)
(** * [RecordSet]: updating one field of a record

    [r <| f := v |>] is [r] with the field [f] set to [v], and [r <| f ::= g |>]
    with [g] applied to the field. A record type takes part once it has an
    [Instance] of [Settable] that rebuilds a record from its projections; the
    setter of each field is found from it. *)

From S2P Require Import Prelude.

Class Settable (R : Type) := eta : R -> R.

Class Setter {R T : Type} (proj : R -> T) := rset : (T -> T) -> R -> R.

Ltac find_setter :=
  lazymatch goal with
  | |- @Setter ?R ?T ?proj =>
      let e := constr:((_ : Settable R) : R -> R) in
      let e := eval cbv beta delta [eta] in e in
      let e := eval hnf in e in
      lazymatch eval pattern proj in e with
      | (fun _ => ?c) _ => fail 1000 "not a field"
      | ?s _ => let body := eval cbv beta in (fun (g : T -> T) (r : R) => s (fun r' => g (proj r')) r) in
                exact body
      end
  end.

#[export] Hint Extern 0 (Setter _) => find_setter : typeclass_instances.

Declare Scope record_scope.
Notation "r <| f := v |>" := (rset (proj := f) (fun _ => v) r)
  (at level 12, f at next level, left associativity, format "r  <|  f  :=  v  |>") : record_scope.
Notation "r <| f ::= g |>" := (rset (proj := f) g r)
  (at level 12, f at next level, left associativity, format "r  <|  f  ::=  g  |>") : record_scope.

Arguments rset {R T} proj {_} _ _ /.

(** Computes the fields of updated records. *)
Ltac rec_simpl := cbn [rset] in *.
