(* ===== verification/RenderTiles.v ===== *)
(** * Rendering a batch of tiles in the kit

    Models [RenderTiles::doRender] ([common/RenderTiles.hpp]): the area that covers the
    tiles is painted into one pixmap, the jobs of the pool cut the tiles out of it and
    compress them ([Delta]), each appends its bytes to the common output when it is done,
    and the answer to the server is written ([TileCombined]). LibreOfficeKit's painting,
    the watermark, PNG and zstd are parameters. *)

From S2P Require Import Prelude RecordSet Rectangle TileDesc TileCombined Delta ThreadPool.

Open Scope cool_scope.
Open Scope record_scope.

(** A tile of the batch, with its place in the pixmap and the id it is given. *)
Record batch_tile := {
  bt_index : nat;
  bt_tile : TileDesc;
  bt_rect : Rectangle;
  bt_offsetX : Z;
  bt_offsetY : Z;
  bt_wireId : Z }.

(** What the jobs share: the generator, each job's own [data], [output] and [renderedTiles]. *)
Record render_state := {
  rn_gen : DeltaGenerator;
  rn_data : gmap nat bytes;
  rn_output : bytes;
  rn_rendered : TileCombined }.

#[export] Instance render_state_settable : Settable render_state := fun r =>
  {| rn_gen := rn_gen r; rn_data := rn_data r; rn_output := rn_output r; rn_rendered := rn_rendered r |}.

Definition render_start (g : DeltaGenerator) : render_state :=
  {| rn_gen := g; rn_data := ∅; rn_output := []; rn_rendered := TileCombined_default |}.

(** ** The area *)

Definition tile_rects (tc : TileCombined) : list Rectangle :=
  map (fun t => rect_make (_tilePosX t) (_tilePosY t) (tc_tileWidth tc) (tc_tileHeight tc)) (tc_tiles tc).

Definition render_area (rects : list Rectangle) : Rectangle :=
  match rects with [] => rect_empty | r :: rs => fold_left extend rs r end.

(** Of [int]s, and then a [size_t]. *)
Definition tilesByX (tc : TileCombined) : Z := u64 (Z.quot (rect_getWidth (render_area (tile_rects tc))) (tc_tileWidth tc)).
Definition tilesByY (tc : TileCombined) : Z := u64 (Z.quot (rect_getHeight (render_area (tile_rects tc))) (tc_tileHeight tc)).
Definition pixmapWidth (tc : TileCombined) : Z := u64 (tilesByX tc * tc_width tc).
Definition pixmapHeight (tc : TileCombined) : Z := u64 (tilesByY tc * tc_height tc).

Definition positionX (tc : TileCombined) (r : Rectangle) : Z :=
  u64 (Z.quot (i32 (getLeft r - getLeft (render_area (tile_rects tc)))) (tc_tileWidth tc)).
Definition positionY (tc : TileCombined) (r : Rectangle) : Z :=
  u64 (Z.quot (i32 (getTop r - getTop (render_area (tile_rects tc)))) (tc_tileHeight tc)).

(** The loop over [tileRecs]; [nextId] is the static of [getCurrentWireId]. *)
Fixpoint batch_from (tc : TileCombined) (index : nat) (nextId : Z) (tiles : list TileDesc) (rects : list Rectangle)
    : list batch_tile :=
  match tiles, rects with
  | t :: tiles', r :: rects' =>
      {| bt_index := index; bt_tile := t; bt_rect := r;
         bt_offsetX := i32 (positionX tc r * tc_width tc); bt_offsetY := i32 (positionY tc r * tc_height tc);
         bt_wireId := u32 (nextId + 1) |} :: batch_from tc (S index) (u32 (nextId + 1)) tiles' rects'
  | _, _ => []
  end.
Definition batch (tc : TileCombined) (nextId : Z) : list batch_tile := batch_from tc 0 nextId (tc_tiles tc) (tile_rects tc).

Section render.
Variable compress : bytes -> option bytes.
(** Pixmap, offsets, sizes of the tile and of the pixmap. *)
Variable encodeSubBufferToPNG : bytes -> Z -> Z -> Z -> Z -> Z -> Z -> LibreOfficeKitTileMode -> option bytes.
(** Part, edit mode, size in pixels, position and size of the area. *)
Variable paintPartTile : Z -> Z -> Z -> Z -> Z -> Z -> Z -> Z -> bytes.
(** The same order as [Watermark::blending]; the identity without a watermark. *)
Variable blendWatermark : bytes -> Z -> Z -> Z -> Z -> Z -> Z -> LibreOfficeKitTileMode -> bytes.
Variables (mode : LibreOfficeKitTileMode) (canonicalViewId : Z).

Definition painted (tc : TileCombined) : bytes :=
  let area := render_area (tile_rects tc) in
  paintPartTile (tc_part tc) (tc_mode tc) (pixmapWidth tc) (pixmapHeight tc)
    (getLeft area) (getTop area) (rect_getWidth area) (rect_getHeight area).

(** All watermarks are there before the first job runs. *)
Definition pixmap (tc : TileCombined) (tiles : list batch_tile) : bytes :=
  fold_left (fun p b => blendWatermark p (bt_offsetX b) (bt_offsetY b) (pixmapWidth tc) (pixmapHeight tc) (tc_width tc) (tc_height tc) mode)
    tiles (painted tc).

Definition tile_location (tc : TileCombined) (r : Rectangle) : TileLocation :=
  {| loc_left := getLeft r; loc_top := getTop r; loc_size := rect_getWidth r; loc_part := tc_part tc;
     loc_canonicalViewId := canonicalViewId; loc_viewMode := tc_mode tc |}.

Definition batch_args (tc : TileCombined) (pixels : bytes) (b : batch_tile) : tile_args :=
  {| ta_pixmap := pixels; ta_startX := Z.to_nat (bt_offsetX b); ta_startY := Z.to_nat (bt_offsetY b);
     ta_width := Z.to_nat (tc_width tc); ta_height := Z.to_nat (tc_height tc); ta_bufferWidth := Z.to_nat (pixmapWidth tc);
     ta_loc := tile_location tc (bt_rect b); ta_wid := bt_wireId b;
     ta_forceKeyframe := isForcedKeyFrame (bt_tile b); ta_mode := mode |}.

(** ** The jobs *)

(** The bytes of a tile; [None]: PNG failed, or something undefined happened. *)
Definition encode_tile (tc : TileCombined) (pixels : bytes) (b : batch_tile) (g : DeltaGenerator) : option (DeltaGenerator * bytes) :=
  if negb (isPreview (bt_tile b)) then
    match compressOrDelta compress g (batch_args tc pixels b) [] with
    | Ok (g', data, _) => Some (g', data)
    | Throw _ => None
    end
  else
    (fun data => (g, data)) <$>
      encodeSubBufferToPNG pixels (bt_offsetX b) (bt_offsetY b) (tc_width tc) (tc_height tc) (pixmapWidth tc) (pixmapHeight tc) mode.

Definition encode_action (tc : TileCombined) (pixels : bytes) (b : batch_tile) (r : render_state) : option render_state :=
  '(g, data) ← encode_tile tc pixels b (rn_gen r);
  Some (r <| rn_gen := g |> <| rn_data ::= <[bt_index b := data]> |>).

(** Under [pngLock]. *)
Definition append_action (b : batch_tile) (r : render_state) : option render_state :=
  let data := default [] (rn_data r !! bt_index b) in
  Some (r <| rn_output ::= fun o => o ++ data |>
          <| rn_rendered ::= fun tc => pushRendered tc (bt_tile b) (bt_wireId b) (Z.of_nat (length data)) |>).

Definition tile_job (tc : TileCombined) (pixels : bytes) (b : batch_tile) : ThreadFn render_state :=
  [encode_action tc pixels b; append_action b].

Definition render_jobs (tc : TileCombined) (nextId : Z) : list (ThreadFn render_state) :=
  map (tile_job tc (pixmap tc (batch tc nextId))) (batch tc nextId).

(** ** The answer *)

Definition combined_message (r : render_state) : bytes :=
  tc_serialize (rn_rendered r) (str "tilecombine:") [chr_newline] ++ rn_output r.

Fixpoint single_messages (tiles : list TileDesc) (output : bytes) : list bytes :=
  match tiles with
  | [] => []
  | t :: tiles' =>
      (serialize t (str "tile:") [chr_newline] ++ take (Z.to_nat (_imgSize t)) output)
      :: single_messages tiles' (drop (Z.to_nat (_imgSize t)) output)
  end.

(** What follows the pool's [run]: the messages that are sent, and the generator. *)
Definition render_finish (tc : TileCombined) (r : render_state) : bool * list bytes * DeltaGenerator :=
  match tc_tiles tc with
  | [] => (false, [], rn_gen r)
  | _ => (true,
          if tc_isCombined tc then [combined_message r] else single_messages (tc_tiles (rn_rendered r)) (rn_output r),
          rebalanceDeltas (rn_gen r) (-1))
  end.

(** The pool leads from the jobs to [r] ([ThreadPool.runs_to]). *)
Definition doRender (tc : TileCombined) (g : DeltaGenerator) (nextId : Z) (result : bool * list bytes * DeltaGenerator) : Prop :=
  exists r, runs_to (render_jobs tc nextId) (render_start g) r /\ result = render_finish tc r.
End render.
