(* ===== verification/RenderTilesSpec.v ===== *)
(** * A batch of tiles arrives as it was rendered

    Whatever the threads of the pool do, every tile of a batch is compressed once, from
    its own place in the pixmap, and the server finds the bytes of every tile under its
    name in the answer ([RenderTiles], [ThreadPool], [TileServer]). *)

From S2P Require Import Prelude RecordSet StateError Util StringVector Protocol Rectangle TileDesc TileCombined Message ClientSessionSpec TileServer Delta DeltaRle DeltaSpec TileDecoder TileDecoderSpec TileData TilePipeline ThreadPool ThreadPoolSpec RenderTiles.

Open Scope cool_scope.
Open Scope record_scope.

(** ** A tile depends on its own entry of the cache *)

Definition same_at (l : TileLocation) (g g' : DeltaGenerator) : Prop := _deltaEntries g !! l = _deltaEntries g' !! l.

Lemma createDelta_local compress g g' a g1 delta rle :
  same_at (ta_loc a) g g' -> createDelta compress g a = Ok (g1, delta, rle) ->
  exists g1', createDelta compress g' a = Ok (g1', delta, rle) /\ same_at (ta_loc a) g1 g1' /\
    (forall l, l <> ta_loc a -> same_at l g' g1') .
Proof.
  unfold same_at. intros Hs. unfold createDelta. destruct (negb _); [intros [= <- <- <-]; by exists g'|].
  destruct (_ || _); [intros [= <- <- <-]; by exists g'|]. destruct (DeltaData_new _ _ _ _ _ _ _ _) as [u|e]; cbn; [|done].
  rewrite Hs. destruct (_deltaEntries g' !! ta_loc a) as [e|]; intros [= <- <- <-]; eexists; (split; [done|]); cbn;
    rewrite !lookup_insert_eq; (split; [done|]); intros l Hl; by rewrite lookup_insert_ne.
Qed.

Lemma compress_local compress g g' a out g1 o n :
  same_at (ta_loc a) g g' -> compressOrDelta compress g a out = Ok (g1, o, n) ->
  exists g1', compressOrDelta compress g' a out = Ok (g1', o, n) /\ same_at (ta_loc a) g1 g1' /\
    (forall l, l <> ta_loc a -> same_at l g' g1').
Proof.
  intros Hs. unfold compressOrDelta. destruct (createDelta compress g a) as [[[g2 delta] rle]|e] eqn:E; [|done].
  destruct (createDelta_local _ _ _ _ _ _ _ Hs E) as (g2' & -> & H1 & H2). cbn.
  destruct delta as [d|]; [intros [= <- <- <-]; by exists g2'|]. destruct rle as [rle|]; [|done].
  destruct (compress _); intros [= <- <- <-]; by exists g2'.
Qed.

(** ** The jobs of a batch *)

Section batch.
Variable compress : bytes -> option bytes.
Variable encodeSubBufferToPNG : bytes -> Z -> Z -> Z -> Z -> Z -> Z -> LibreOfficeKitTileMode -> option bytes.
Variables (mode : LibreOfficeKitTileMode) (canonicalViewId : Z) (tc : TileCombined) (pixels : bytes).

Let enc := encode_tile compress encodeSubBufferToPNG mode canonicalViewId tc pixels.
Let job := tile_job compress encodeSubBufferToPNG mode canonicalViewId tc pixels.
Let loc (b : batch_tile) : TileLocation := tile_location canonicalViewId tc (bt_rect b).

Lemma encode_local g g' b g1 o :
  same_at (loc b) g g' -> enc b g = Some (g1, o) ->
  exists g1', enc b g' = Some (g1', o) /\ same_at (loc b) g1 g1' /\ (forall l, l <> loc b -> same_at l g' g1').
Proof.
  intros Hs. unfold enc, encode_tile. destruct (negb _).
  - destruct (compressOrDelta compress g _ []) as [[[g2 o2] n]|e] eqn:E; [|done]. intros [= <- <-].
    destruct (compress_local compress g g' (batch_args mode canonicalViewId tc pixels b) _ _ _ _ Hs E) as (g1' & -> & H). by exists g1'.
  - destruct (encodeSubBufferToPNG _ _ _ _ _ _ _ _); [|done]. intros [= <- <-]. by exists g'.
Qed.

(** The generator before, and what each tile makes of it alone. *)
Variables (g0 : DeltaGenerator) (out : batch_tile -> bytes) (after : batch_tile -> DeltaGenerator).

Definition push (r : TileCombined) (b : batch_tile) : TileCombined :=
  pushRendered r (bt_tile b) (bt_wireId b) (Z.of_nat (length (out b))).

(** Tiles to begin, encoded tiles, tiles that are done. *)
Record batch_ok (todo encoded done_ : list batch_tile) (r : render_state) : Prop := {
  bo_todo b : b ∈ todo -> same_at (loc b) g0 (rn_gen r) /\ enc b g0 = Some (after b, out b);
  bo_encoded b : b ∈ encoded ++ done_ -> same_at (loc b) (after b) (rn_gen r) /\ rn_data r !! bt_index b = Some (out b);
  bo_output : rn_output r = concat (map out done_);
  bo_rendered : rn_rendered r = fold_left push done_ TileCombined_default;
  bo_others l : (forall b, b ∈ todo ++ encoded ++ done_ -> l <> loc b) -> same_at l g0 (rn_gen r);
  bo_locs : NoDup (map loc (todo ++ encoded ++ done_));
  bo_index : NoDup (map bt_index (todo ++ encoded ++ done_)) }.

Lemma loc_ne (b c : batch_tile) l : NoDup (map loc (b :: l)) -> c ∈ l -> loc c <> loc b.
Proof. intros [Hb _]%NoDup_cons Hc E. apply Hb. rewrite <- E. by apply list_elem_of_fmap_2. Qed.
Lemma index_ne (b c : batch_tile) l : NoDup (map bt_index (b :: l)) -> c ∈ l -> bt_index c <> bt_index b.
Proof. intros [Hb _]%NoDup_cons Hc E. apply Hb. rewrite <- E. by apply list_elem_of_fmap_2. Qed.

Lemma batch_ok_perm todo todo' encoded encoded' done_ r :
  todo ≡ₚ todo' -> encoded ≡ₚ encoded' -> batch_ok todo encoded done_ r -> batch_ok todo' encoded' done_ r.
Proof.
  intros Ht He [Hto Hen Hou Hre Hot Hlo Hin]. split; try done; setoid_rewrite <- Ht || idtac; setoid_rewrite <- He || idtac; try done.
Qed.

Lemma encode_step todo encoded done_ b r :
  batch_ok (b :: todo) encoded done_ r ->
  exists r', encode_action compress encodeSubBufferToPNG mode canonicalViewId tc pixels b r = Some r' /\
    batch_ok todo (b :: encoded) done_ r'.
Proof.
  intros [Hto Hen Hou Hre Hot Hlo Hin]. destruct (Hto b) as [Hs He]; [by left|].
  destruct (encode_local _ _ _ _ _ Hs He) as (g1 & E & H1 & H2). unfold encode_action. fold enc. rewrite E. cbn.
  eexists. split; [done|]. split; cbn; try done.
  - intros c Hc. destruct (Hto c) as [Hsc Hc2]; [by right|]. split; [|done]. unfold same_at in *. rewrite <- H2; [done|].
    eapply loc_ne; [exact Hlo|]. set_solver.
  - intros c [->|Hc]%elem_of_cons; [by rewrite lookup_insert_eq|]. destruct (Hen c Hc) as [Hsc Hd]. split.
    + unfold same_at in *. rewrite <- H2; [done|]. eapply loc_ne; [exact Hlo|]. set_solver.
    + rewrite lookup_insert_ne; [done|]. apply not_eq_sym. eapply index_ne; [exact Hin|]. set_solver.
  - intros l Hl. unfold same_at in *. rewrite <- H2; [apply Hot; set_solver|]. apply Hl. set_solver.
  - cbn in Hlo. by rewrite <- Permutation_middle.
  - cbn in Hin. by rewrite <- Permutation_middle.
Qed.

Lemma append_step todo encoded done_ b r :
  batch_ok todo (b :: encoded) done_ r ->
  exists r', append_action b r = Some r' /\ batch_ok todo encoded (done_ ++ [b]) r'.
Proof.
  intros [Hto Hen Hou Hre Hot Hlo Hin]. destruct (Hen b) as [Hs Hd]; [by left|]. unfold append_action. rewrite Hd.
  change (default [] (Some (out b))) with (out b). eexists. split; [done|].
  assert (Hp : encoded ++ done_ ++ [b] ≡ₚ (b :: encoded) ++ done_) by solve_Permutation.
  split; cbn -[pushRendered]; try done.
  - intros c. rewrite Hp. apply Hen.
  - by rewrite Hou, map_app, concat_app; simpl; rewrite app_nil_r.
  - by rewrite Hre, fold_left_app.
  - intros l Hl. apply Hot. intros c Hc. apply Hl. rewrite Hp. exact Hc.
  - by rewrite Hp.
  - by rewrite Hp.
Qed.

Lemma jobs_run fns r r2 :
  runs_to fns r r2 -> forall todo encoded done_ k,
  fns ≡ₚ map job todo ++ map (fun b => [append_action b]) encoded ++ repeat [] k -> batch_ok todo encoded done_ r ->
  exists order, order ≡ₚ todo ++ encoded ++ done_ /\ batch_ok [] [] order r2.
Proof.
  induction 1 as [fns r Hd|fns a fn fns' r r1 fn' r2 Hf Ha Hrun IH]; intros todo encoded done_ k Hp Hok.
  - rewrite Hp in Hd. apply Forall_app in Hd as [Ht Hd]. apply Forall_app in Hd as [He _].
    destruct todo; [|by inversion Ht]. destruct encoded; [|by inversion He]. by exists done_.
  - assert (Hin : (a :: fn) ∈ map job todo ++ map (fun b => [append_action b]) encoded ++ repeat [] k) by (rewrite <- Hp, Hf; by left).
    apply elem_of_app in Hin as [Hin|Hin]; [|apply elem_of_app in Hin as [Hin|Hin]].
    + apply list_elem_of_fmap in Hin as (b & Eb & Hb). apply list_elem_of_split in Hb as (t1 & t2 & ->).
      assert (Hok' : batch_ok (b :: t1 ++ t2) encoded done_ r) by (eapply batch_ok_perm; [| |exact Hok]; [by rewrite Permutation_middle|done]).
      destruct (encode_step _ _ _ _ _ Hok') as (r' & Er & Hok2). unfold job, tile_job in Eb. injection Eb as -> ->.
      unfold act in Ha. rewrite Er in Ha. injection Ha as <- <-.
      destruct (IH (t1 ++ t2) (b :: encoded) done_ k) as (order & Ho & Hk); [|done|].
      * rewrite Hf, map_app in Hp. cbn in Hp. rewrite <- app_assoc in Hp. cbn in Hp. rewrite <- Permutation_middle in Hp.
        apply Permutation_cons_inv in Hp. rewrite Hp, map_app. cbn. solve_Permutation.
      * exists order. split; [|done]. rewrite Ho. solve_Permutation.
    + apply list_elem_of_fmap in Hin as (b & Eb & Hb). apply list_elem_of_split in Hb as (t1 & t2 & ->).
      assert (Hok' : batch_ok todo (b :: t1 ++ t2) done_ r) by (eapply batch_ok_perm; [| |exact Hok]; [done|by rewrite Permutation_middle]).
      destruct (append_step _ _ _ _ _ Hok') as (r' & Er & Hok2). injection Eb as -> ->.
      unfold act in Ha. rewrite Er in Ha. injection Ha as <- <-.
      destruct (IH todo (t1 ++ t2) (done_ ++ [b]) (S k)) as (order & Ho & Hk); [|done|].
      * rewrite Hf, map_app in Hp. cbn in Hp. rewrite <- app_assoc in Hp. cbn in Hp.
        rewrite app_assoc, <- Permutation_middle in Hp. apply Permutation_cons_inv in Hp. rewrite Hp, map_app. cbn. solve_Permutation.
      * exists order. split; [|done]. rewrite Ho. solve_Permutation.
    + apply list_elem_of_In, repeat_spec in Hin. done.
Qed.
End batch.

(** ** The tiles' places in the pixmap *)

(** A batch whose extents fit their types. *)
Record batch_fits (tc : TileCombined) : Prop := {
  bf_tiles t : t ∈ tc_tiles tc ->
    0 <= _tilePosX t /\ _tilePosX t + tc_tileWidth tc <= INT_MAX /\ 0 <= _tilePosY t /\ _tilePosY t + tc_tileHeight tc <= INT_MAX;
  bf_size : 0 < tc_tileWidth tc /\ 0 < tc_tileHeight tc;
  bf_pixels : 0 < tc_width tc <= 256 /\ Nat.even (Z.to_nat (tc_width tc)) = true /\ 0 < tc_height tc <= 256;
  bf_area : tilesByX tc * tc_width tc <= INT_MAX /\ tilesByY tc * tc_height tc <= INT_MAX }.

Definition area (tc : TileCombined) : Rectangle := render_area (tile_rects tc).
Definition rect_of (tc : TileCombined) (t : TileDesc) : Rectangle :=
  rect_make (_tilePosX t) (_tilePosY t) (tc_tileWidth tc) (tc_tileHeight tc).

Lemma rect_make_fits x y w h :
  x + w <= INT_MAX -> y + h <= INT_MAX -> 0 <= x -> 0 <= y -> 0 < w -> 0 < h ->
  rect_make x y w h = {| _x1 := x; _y1 := y; _x2 := x + w; _y2 := y + h |}.
Proof.
  intros. unfold rect_make. rewrite !(proj2 (Z.leb_le _ _)) by done. by rewrite !i32_id by (int_unfold; lia).
Qed.

(** The corners of the area are corners of tiles. *)
Lemma area_attained l r :
  let a := fold_left extend l r in
  (exists t, t ∈ r :: l /\ _x1 a = _x1 t) /\ (exists t, t ∈ r :: l /\ _x2 a = _x2 t) /\
  (exists t, t ∈ r :: l /\ _y1 a = _y1 t) /\ (exists t, t ∈ r :: l /\ _y2 a = _y2 t).
Proof.
  revert r. induction l as [|u l IH]; intros r; cbn; [split_and!; exists r; (split; [by left|done])|].
  assert (He : forall (f : Rectangle -> Z), (f (extend r u) = f r \/ f (extend r u) = f u) ->
    forall v, (exists t, t ∈ extend r u :: l /\ v = f t) -> exists t, t ∈ r :: u :: l /\ v = f t).
  { intros f Hf v (t & [->|Ht]%elem_of_cons & ->).
    - destruct Hf as [-> | ->]; [exists r|exists u]; (split; [|done]); [by left|right; by left].
    - exists t. split; [|done]. right. by right. }
  destruct (IH (extend r u)) as (H1 & H2 & H3 & H4).
  split_and!; (apply He; [|done]); unfold extend; cbn; case_match; first [by left|by right].
Qed.

Lemma area_bounds tc t :
  batch_fits tc -> t ∈ tc_tiles tc ->
  0 <= _x1 (area tc) <= _tilePosX t /\ _tilePosX t + tc_tileWidth tc <= _x2 (area tc) <= INT_MAX /\
  0 <= _y1 (area tc) <= _tilePosY t /\ _tilePosY t + tc_tileHeight tc <= _y2 (area tc) <= INT_MAX.
Proof.
  intros [Ht [Hw Hh] _ _] Hin.
  assert (Hrect : forall u, u ∈ tc_tiles tc -> rect_of tc u =
    {| _x1 := _tilePosX u; _y1 := _tilePosY u; _x2 := _tilePosX u + tc_tileWidth tc; _y2 := _tilePosY u + tc_tileHeight tc |}).
  { intros u Hu. destruct (Ht u Hu) as (? & ? & ? & ?). by apply rect_make_fits. }
  assert (Hc : rect_contains (area tc) (rect_of tc t) = true /\ exists r l, tile_rects tc = r :: l /\ area tc = fold_left extend l r).
  { unfold area, tile_rects. destruct (tc_tiles tc) as [|u us] eqn:Eu; [by apply elem_of_nil in Hin|]. cbn. split; [|by eexists _, _].
    destruct (fold_extend_contains (map (rect_of tc) us) (rect_of tc u)) as [H1 H2]. rewrite Forall_map, Forall_forall in H2.
    apply elem_of_cons in Hin as [->|Hin]; [exact H1|by apply H2]. }
  destruct Hc as [Hc (r & l & El & Ea)]. unfold rect_contains in Hc. rewrite !andb_true_iff, !Z.leb_le, (Hrect t Hin) in Hc. cbn in Hc.
  pose proof (area_attained l r) as (H1 & H2 & H3 & H4). rewrite <- Ea in H1, H2, H3, H4.
  assert (Hall : forall x, x ∈ r :: l -> 0 <= _x1 x /\ _x2 x <= INT_MAX /\ 0 <= _y1 x /\ _y2 x <= INT_MAX).
  { intros x Hx. rewrite <- El in Hx. apply list_elem_of_fmap in Hx as (u & -> & Hu). fold (rect_of tc u). rewrite (Hrect u Hu). cbn.
    destruct (Ht u Hu). lia. }
  destruct H1 as (r1 & Hr1 & E1), H2 as (r2 & Hr2 & E2), H3 as (r3 & Hr3 & E3), H4 as (r4 & Hr4 & E4).
  apply Hall in Hr1, Hr2, Hr3, Hr4. lia.
Qed.

(** On the grid of the tiles. *)
Lemma area_corners tc t :
  batch_fits tc -> t ∈ tc_tiles tc ->
  (forall t, t ∈ tc_tiles tc -> _tilePosX t mod tc_tileWidth tc = 0 /\ _tilePosY t mod tc_tileHeight tc = 0) ->
  _x1 (area tc) mod tc_tileWidth tc = 0 /\ _x2 (area tc) mod tc_tileWidth tc = 0 /\
  _y1 (area tc) mod tc_tileHeight tc = 0 /\ _y2 (area tc) mod tc_tileHeight tc = 0.
Proof.
  intros [Ht [Hw Hh] _ _] Hin Hgrid.
  assert (Hc : exists r l, tile_rects tc = r :: l /\ area tc = fold_left extend l r).
  { unfold area, tile_rects. destruct (tc_tiles tc) as [|u us] eqn:Eu; [by apply elem_of_nil in Hin|]. by eexists _, _. }
  destruct Hc as (r & l & El & Ea). pose proof (area_attained l r) as (H1 & H2 & H3 & H4). rewrite <- Ea in H1, H2, H3, H4.
  assert (Hall : forall x, x ∈ r :: l -> _x1 x mod tc_tileWidth tc = 0 /\ _x2 x mod tc_tileWidth tc = 0 /\
    _y1 x mod tc_tileHeight tc = 0 /\ _y2 x mod tc_tileHeight tc = 0).
  { intros x Hx. rewrite <- El in Hx. apply list_elem_of_fmap in Hx as (u & -> & Hu). destruct (Ht u Hu) as (? & ? & ? & ?).
    rewrite rect_make_fits by done. cbn. destruct (Hgrid u Hu) as [Gx Gy].
    split_and!; [done| |done|]; rewrite <- Zplus_mod_idemp_r, Z_mod_same_full, Z.add_0_r; done. }
  destruct H1 as (r1 & Hr1 & ->), H2 as (r2 & Hr2 & ->), H3 as (r3 & Hr3 & ->), H4 as (r4 & Hr4 & ->).
  apply Hall in Hr1, Hr2, Hr3, Hr4. tauto.
Qed.

(** One dimension: a tile at [pos] in an area from [lo] to [hi]. *)
Lemma place_fits lo hi pos size px :
  0 <= lo <= pos -> pos + size <= hi <= INT_MAX -> 0 < size -> 0 < px ->
  let n := u64 (Z.quot (if INT_MIN <? hi - lo then i32 (hi - lo) else INT_MIN) size) in
  let q := u64 (Z.quot (i32 (pos - lo)) size) in
  n * px <= INT_MAX ->
  n = (hi - lo) / size /\ q = (pos - lo) / size /\ u64 (n * px) = n * px /\ i32 (q * px) = q * px /\ 0 <= q * px /\ q * px + px <= n * px.
Proof.
  intros Hlo Hhi Hs Hp. assert (Hpos : INT_MIN < hi - lo) by (int_unfold; lia). apply Z.ltb_lt in Hpos. rewrite Hpos.
  rewrite !i32_id by (int_unfold; lia). rewrite !Z.quot_div_nonneg by lia.
  assert (0 <= (pos - lo) / size <= pos - lo) by (split; [apply Z.div_pos; lia|apply Z.div_le_upper_bound; nia]).
  assert (0 <= (hi - lo) / size <= hi - lo) by (split; [apply Z.div_pos; lia|apply Z.div_le_upper_bound; nia]).
  rewrite !u64_id by (int_unfold; lia). cbn zeta. intros Hn.
  assert (Hq : (pos - lo) / size + 1 <= (hi - lo) / size).
  { replace ((pos - lo) / size + 1) with ((pos - lo + 1 * size) / size) by (rewrite Z.div_add by lia; done). apply Z.div_le_mono; lia. }
  rewrite u64_id, i32_id by (int_unfold; nia). split_and!; try done; nia.
Qed.

Lemma batch_from_elem tc k id tiles b :
  b ∈ batch_from tc k id tiles (map (rect_of tc) tiles) ->
  bt_tile b ∈ tiles /\ bt_rect b = rect_of tc (bt_tile b) /\
  bt_offsetX b = i32 (positionX tc (bt_rect b) * tc_width tc) /\ bt_offsetY b = i32 (positionY tc (bt_rect b) * tc_height tc).
Proof.
  revert k id. induction tiles as [|t tiles IH]; intros k id; cbn -[positionX positionY]; [by intros ?%elem_of_nil|].
  intros [->|Hb]%elem_of_cons; [split; [by left|done]|]. apply IH in Hb as [Hb H]. split; [by right|done].
Qed.
Lemma batch_elem tc id b :
  b ∈ batch tc id ->
  bt_tile b ∈ tc_tiles tc /\ bt_rect b = rect_of tc (bt_tile b) /\
  bt_offsetX b = i32 (positionX tc (bt_rect b) * tc_width tc) /\ bt_offsetY b = i32 (positionY tc (bt_rect b) * tc_height tc).
Proof. apply batch_from_elem. Qed.

Lemma batch_tiles tc id : map bt_tile (batch tc id) = tc_tiles tc.
Proof.
  unfold batch, tile_rects. generalize 0%nat. revert id. induction (tc_tiles tc) as [|t l IH]; intros id k; cbn -[rect_make]; [done|]. by rewrite IH.
Qed.
Lemma batch_indices tc id : map bt_index (batch tc id) = seq 0 (length (tc_tiles tc)).
Proof.
  unfold batch, tile_rects. generalize 0%nat. revert id. induction (tc_tiles tc) as [|t l IH]; intros id k; cbn -[rect_make]; [done|]. by rewrite IH.
Qed.

Lemma no_dup_pos l : has_dup_pos l = false -> NoDup (map (fun t => (_tilePosX t, _tilePosY t)) l).
Proof.
  induction l as [|t l IH]; cbn; [constructor|]. rewrite orb_false_iff. intros [Hd Hl]. constructor; [|by apply IH].
  intros Hin. apply list_elem_of_fmap in Hin as (u & Eu & Hu). injection Eu as Ex Ey.
  assert (existsb (same_pos t) l = true) by (apply existsb_exists; exists u; split; [by apply list_elem_of_In|unfold same_pos; by rewrite Ex, Ey, !Z.eqb_refl]).
  congruence.
Qed.

Lemma batch_locs vid tc id :
  hasDuplicates tc = false -> NoDup (map (fun b => tile_location vid tc (bt_rect b)) (batch tc id)).
Proof.
  intros Hd. assert (Hn : NoDup (map (fun t => (_tilePosX t, _tilePosY t)) (tc_tiles tc))).
  { unfold hasDuplicates in Hd. destruct (Nat.ltb_spec (length (tc_tiles tc)) 2) as [Hl|_]; [|by apply no_dup_pos].
    destruct (tc_tiles tc) as [|t [|u l]]; cbn in *; [apply NoDup_nil_2|apply NoDup_singleton|lia]. }
  rewrite <- (batch_tiles tc id), map_map in Hn.
  apply (NoDup_fmap_1 (fun l => (loc_left l, loc_top l))). rewrite <- list_fmap_compose.
  erewrite list_fmap_ext; [exact Hn|]. intros i b Hb. apply list_elem_of_lookup_2, batch_elem in Hb as (_ & Hr & _). cbn. by rewrite Hr.
Qed.

(** The four numbers that say where a tile is. *)
Lemma tile_place tc id b :
  batch_fits tc -> b ∈ batch tc id ->
  bt_offsetX b = (_tilePosX (bt_tile b) - _x1 (area tc)) / tc_tileWidth tc * tc_width tc /\
  bt_offsetY b = (_tilePosY (bt_tile b) - _y1 (area tc)) / tc_tileHeight tc * tc_height tc /\
  0 <= bt_offsetX b /\ bt_offsetX b + tc_width tc <= pixmapWidth tc /\
  0 <= bt_offsetY b /\ bt_offsetY b + tc_height tc <= pixmapHeight tc /\
  pixmapWidth tc = (_x2 (area tc) - _x1 (area tc)) / tc_tileWidth tc * tc_width tc /\
  pixmapHeight tc = (_y2 (area tc) - _y1 (area tc)) / tc_tileHeight tc * tc_height tc.
Proof.
  intros Hf Hb. destruct (batch_elem _ _ _ Hb) as (Hin & Hr & Ex & Ey). destruct (area_bounds tc _ Hf Hin) as (Hx1 & Hx2 & Hy1 & Hy2).
  pose proof Hf as [_ [Hw Hh] [Hpw [_ Hph]] [Hax Hay]].
  rewrite Ex, Ey, Hr. unfold positionX, positionY, pixmapWidth, pixmapHeight. cbn [getLeft getTop rect_of rect_make _x1 _y1].
  destruct (place_fits _ _ _ _ (tc_width tc) Hx1 Hx2 Hw ltac:(lia) Hax) as (A1 & A2 & A3 & A4 & A5 & A6).
  destruct (place_fits _ _ _ _ (tc_height tc) Hy1 Hy2 Hh ltac:(lia) Hay) as (B1 & B2 & B3 & B4 & B5 & B6).
  unfold tilesByX, tilesByY, rect_getWidth, rect_getHeight, getLeft, getTop. fold (area tc). unfold rect_of, rect_make. cbn [_x1 _y1].
  rewrite A3, A4, B3, B4. split_and!; try lia; congruence.
Qed.

Lemma args_fit mode vid tc id b pixels :
  batch_fits tc -> b ∈ batch tc id -> length pixels = Z.to_nat (4 * pixmapWidth tc * pixmapHeight tc) ->
  args_ok (batch_args mode vid tc pixels b).
Proof.
  intros Hf Hb Hl. destruct (tile_place tc id b Hf Hb) as (_ & _ & X0 & X1 & Y0 & Y1 & _).
  pose proof Hf as [_ _ [Hpw [Hev Hph]] _]. unfold args_ok. cbn. split_and!; [done|lia|lia|lia|]. rewrite Hl. nia.
Qed.

Lemma compress_defined compress g a :
  args_ok a -> exists g' o n, compressOrDelta compress g a [] = Ok (g', o, n).
Proof.
  intros Ha. destruct (DeltaData_new_ok a Ha) as (dd & Ed & _). destruct Ha as (Hev & Hw & Hh & _).
  unfold compressOrDelta, createDelta. rewrite Hev. simpl.
  destruct (Nat.ltb_spec 256 (ta_width a)); [lia|]. destruct (Nat.ltb_spec 256 (ta_height a)); [lia|]. simpl. rewrite Ed. simpl.
  destruct (_deltaEntries g !! ta_loc a); simpl; [destruct (if ta_forceKeyframe a then _ else _); simpl|];
    try destruct (compress _); by eexists _, _, _.
Qed.

(** ** The answer *)

Section answer.
Variables (tc : TileCombined) (out : batch_tile -> bytes).

(** A tile as the answer names it. *)
Definition sent_tile (b : batch_tile) : TileDesc :=
  setImgSize (setWireId (bt_tile b) (bt_wireId b)) (Z.of_nat (length (out b))).

Definition sizes_ok (b : batch_tile) : Prop :=
  message_tile tc (bt_tile b) /\ is_u32 (bt_wireId b) /\ Z.of_nat (length (out b)) <= INT_MAX.

Definition rendered_as (old : bool) (order : list batch_tile) : TileCombined :=
  {| tc_tiles := map sent_tile order; tc_aabbox := rect_empty; tc_canonicalViewId := tc_canonicalViewId tc; tc_part := tc_part tc;
     tc_mode := tc_mode tc; tc_width := tc_width tc; tc_height := tc_height tc; tc_tileWidth := tc_tileWidth tc;
     tc_tileHeight := tc_tileHeight tc; tc_hasWids := true; tc_hasOldWids := old; tc_isCombined := (1 <? length order)%nat;
     tc_hasImgSizes := true |}.

Lemma update_back_snoc {A} (f : A -> A) l x : update_back f (l ++ [x]) = l ++ [f x].
Proof.
  unfold update_back. rewrite last_snoc, length_app. simpl. replace (length l + 1 - 1)%nat with (length l) by lia. by rewrite take_app_length.
Qed.

Lemma push_next old l c :
  0 <= tc_part tc -> i32 (Z.of_nat (length (out c))) = Z.of_nat (length (out c)) ->
  push out (rendered_as old l) c = rendered_as old (l ++ [c]).
Proof.
  intros Hpart Hi. unfold push, pushRendered. change (tc_part (rendered_as old l)) with (tc_part tc).
  rewrite (proj2 (Z.ltb_ge (tc_part tc) 0)) by done. cbn [andb]. rewrite Hi. unfold tc_setTiles, rendered_as.
  cbn [tc_tiles tc_aabbox tc_canonicalViewId tc_part tc_mode tc_width tc_height tc_tileWidth tc_tileHeight tc_hasOldWids].
  rewrite update_back_snoc, map_app. cbn [map]. f_equal. by rewrite !length_app, length_map.
Qed.

Lemma pushed_all b order :
  Forall sizes_ok (b :: order) ->
  fold_left (push out) (b :: order) TileCombined_default = rendered_as (negb (_oldWireId (bt_tile b) =? 0)) (b :: order).
Proof.
  intros Hall. apply Forall_cons in Hall as [Hb Hall]. cbn [fold_left].
  assert (Hi : forall c, sizes_ok c -> i32 (Z.of_nat (length (out c))) = Z.of_nat (length (out c))).
  { intros c (_ & _ & Hc). apply i32_id. int_unfold. lia. }
  assert (E0 : push out TileCombined_default b = rendered_as (negb (_oldWireId (bt_tile b) =? 0)) [b]).
  { destruct Hb as ((Hq & Hid & Hv & Hp & Hmo & Hw & Hh & Htw & Hth) & Hwid & Hlen).
    unfold push, pushRendered. cbn [TileCombined_default tc_part tc_mode tc_width Z.ltb Z.leb Z.compare andb].
    unfold initFrom. cbn [tc_tiles TileCombined_default tc_aabbox]. rewrite (update_back_snoc _ [] (bt_tile b)), Hv, Hp, Hmo, Hw, Hh, Htw, Hth, Hi by done.
    done. }
  rewrite E0. clear E0. revert Hall. generalize (negb (_oldWireId (bt_tile b) =? 0)). intros old Hall.
  assert (Hpart : 0 <= tc_part tc).
  { destruct Hb as ((Hq & _ & _ & <- & _) & _). apply (tile_valid_params _ (qt_valid _ Hq)). }
  change (b :: order) with ([b] ++ order). generalize [b]. clear Hb b. intros l. revert l.
  induction Hall as [|c order Hc Hall IH]; intros l; [by rewrite app_nil_r|]. cbn [fold_left].
  rewrite push_next, IH by (done || by apply Hi). by rewrite <- app_assoc.
Qed.

(** The tile the server reads: the old id is lost where the first tile has none. *)
Definition read_tile (old : bool) (b : batch_tile) : TileDesc := if old then sent_tile b else setOldWireId (sent_tile b) 0.

Lemma read_combined old p b :
  message_tile tc p -> sizes_ok b -> combined_tile p (read_tile old b).
Proof.
  intros (Hq & Hid & Hv & Hp & Hmo & Hw & Hh & Htw & Hth) ((Hq' & Hid' & Hv' & Hp' & Hmo' & Hw' & Hh' & Htw' & Hth') & Hwid & Hlen).
  assert (Hz : is_u32 0) by by_decide. assert (Hlen2 : is_i32 (Z.of_nat (length (out b)))) by (int_unfold; lia).
  destruct Hq' as [Hval Hx Hy Hver Hold Hw2]. unfold read_tile.
  assert (Hval' : tile_valid (sent_tile b)).
  { unfold tile_valid, tile_args_invalid in *. cbn. rewrite !orb_false_iff in *. destruct_and! Hval. split_and!; try done. apply Z.ltb_ge. lia. }
  destruct old; (split; cbn; try done;
    unfold sameTileCombineParams, same_size_params; cbn; rewrite Hp, Hp', Hmo, Hmo', Hw, Hw', Hh, Hh', Htw, Htw', Hth, Hth', Hv, Hv', !Z.eqb_refl; done).
Qed.

Definition params_fit : Prop :=
  Forall is_i32 [tc_canonicalViewId tc; tc_part tc; tc_mode tc; tc_width tc; tc_height tc; tc_tileWidth tc; tc_tileHeight tc].

Lemma read_fields old order {A} (f : TileDesc -> A) :
  (forall b, f (read_tile old b) = f (sent_tile b)) -> map f (map (read_tile old) order) = map f (map sent_tile order).
Proof. intros Hf. rewrite !map_map. by apply map_ext. Qed.

Lemma answer_prefix : wire_prefix (str "tilecombine:").
Proof. split; [split; [done|by_decide]|]. split; [unfold no_eq; by_decide|done]. Qed.

Lemma read_answer old p order :
  params_fit -> message_tile tc p -> Forall sizes_ok order ->
  tc_parse (tc_serialize (rendered_as old order) (str "tilecombine:") []) = Ok (combined_of p (map (read_tile old) order)).
Proof.
  intros Hpar Hp Hall. destruct answer_prefix as (Hpl & Heq & Hn). unfold tc_parse, tc_parse_tokens.
  rewrite tc_serialize_tokens, tokenize_data_strings by done.
  rewrite tokens_spec_join by (done || apply combined_tokens_plain). cbn [fold_left].
  rewrite combined_token_prefix, combined_fold by done.
  cbn [rendered_as tc_tiles tc_canonicalViewId tc_part tc_mode tc_width tc_height tc_tileWidth tc_tileHeight tc_hasImgSizes tc_hasOldWids tc_hasWids].
  destruct Hp as (Hq & Hid & Hv & Hpa & Hmo & Hw & Hh & Htw & Hth).
  pose proof (TileCombined_new_spec p (map (read_tile old) order) (comma_list (map _tilePosX (map sent_tile order)))
    (comma_list (map _tilePosY (map sent_tile order))) (comma_list (map _ver (map sent_tile order)))
    (comma_list (map _imgSize (map sent_tile order))) (if old then comma_list (map _oldWireId (map sent_tile order)) else [])
    (comma_list (map _wireId (map sent_tile order)))) as H.
  rewrite <- Hv, <- Hpa, <- Hmo, <- Hw, <- Hh, <- Htw, <- Hth. apply H; clear H.
  - by apply tile_valid_params, qt_valid.
  - rewrite Forall_map. eapply Forall_impl; [exact Hall|]. intros b Hb. by apply read_combined.
  - rewrite (read_fields old) by (by destruct old). apply comma_list_column.
  - rewrite (read_fields old) by (by destruct old). apply comma_list_column.
  - rewrite (read_fields old) by (by destruct old). apply comma_list_column.
  - left. rewrite (read_fields old) by (by destruct old). apply comma_list_column.
  - destruct old; [left; apply comma_list_column|right]. split; [done|]. rewrite !Forall_map. by apply Forall_true.
  - left. rewrite (read_fields old) by (by destruct old). apply comma_list_column.
Qed.

Lemma answer_no_newline old order :
  Forall (fun c => c <> chr_newline) (tc_serialize (rendered_as old order) (str "tilecombine:") []).
Proof.
  rewrite tc_serialize_tokens. apply Forall_app_2; [by_decide|]. unfold join_with. apply Forall_concat. rewrite Forall_map.
  eapply Forall_impl; [apply combined_tokens_plain|]. intros t [_ Ht]. constructor; [done|]. eapply Forall_impl; [exact Ht|]. simpl. tauto.
Qed.

Lemma tc_serialize_suffix t prefix suffix : tc_serialize t prefix suffix = tc_serialize t prefix [] ++ suffix.
Proof. unfold tc_serialize. by rewrite <- !app_assoc. Qed.

(** The message as the server gets it. *)
Lemma answer_message old order data :
  let header := tc_serialize (rendered_as old order) (str "tilecombine:") [] in
  let m := Message_new (tc_serialize (rendered_as old order) (str "tilecombine:") [chr_newline] ++ data) in
  m_data m = header ++ chr_newline :: data /\ msg_firstLine m = header.
Proof.
  intros header m. assert (Hd : m_data m = header ++ chr_newline :: data).
  { unfold m. rewrite tc_serialize_suffix, <- app_assoc. change ([chr_newline] ++ data) with (chr_newline :: data). unfold Message_new. cbn [m_data].
    assert (Hh : exists rest, header = str "tilecombine:" ++ chr_space :: rest) by (unfold header, tc_serialize; eexists; done).
    destruct Hh as [rest Hr]. unfold header in Hr |- *. rewrite Hr, <- app_assoc, <- app_comm_cons. unfold getForwardToken, getFirstToken, getDelimitedInitialSubstring.
    rewrite getDelimiterPosition_app by by_decide. rewrite take_app_length.
    rewrite bool_decide_eq_false_2 by by_decide. done. }
  split; [done|]. unfold msg_firstLine. change (m_firstLine m) with (@nil Z). cbn iota. rewrite Hd.
  unfold getFirstLine, getDelimitedInitialSubstring. rewrite getDelimiterPosition_app by apply answer_no_newline. apply take_app_length.
Qed.

(** ** What the server does with it *)

Context (json_viewId : bytes -> result bytes) (terminating : bool) (item_overhead : Z).
Let save := save_and_notify json_viewId terminating item_overhead.

(** Every tile is saved with its bytes, in the order of the answer. *)
Definition save_all (now : Z) (tiles : list (TileDesc * bytes)) : SE TileServer.DocumentBroker unit :=
  se_iter (fun p => save p.1 p.2 now) tiles.

Lemma save_blobs_split old order before now b :
  save_blobs json_viewId terminating item_overhead (map (read_tile old) order) (before ++ concat (map out order)) (length before) now b
  = save_all now (map (fun c => (read_tile old c, out c)) order) b.
Proof.
  revert before b. induction order as [|c order IH]; intros before b; [done|]. cbn [map save_blobs concat].
  assert (Hn : Z.to_nat (_imgSize (read_tile old c)) = length (out c)) by (destruct old; cbn; lia).
  rewrite Hn, !length_app. destruct (Nat.ltb_spec (length before + (length (out c) + length (concat (map out order)))) (length before + length (out c))); [lia|].
  rewrite drop_app_length, take_app_length. unfold save_all. cbn [se_iter]. unfold se_bind, save. cbn [fst snd].
  destruct (save_and_notify _ _ _ _ _ _ b) as [b' [u|e]]; [|done].
  specialize (IH (before ++ out c) b'). rewrite <- app_assoc, length_app in IH. exact IH.
Qed.

Lemma answer_saved old p order now b :
  params_fit -> message_tile tc p -> Forall sizes_ok order ->
  let message := tc_serialize (rendered_as old order) (str "tilecombine:") [chr_newline] ++ concat (map out order) in
  Z.of_nat (length message) <= LONG_MAX ->
  handleTileCombinedResponse json_viewId terminating item_overhead (Message_new message) now b
  = catching (save_all now (map (fun c => (read_tile old c, out c)) order)) (se_ret tt) b.
Proof.
  intros Hpar Hp Hall message Hlen. destruct (answer_message old order (concat (map out order))) as [Hd Hf]. fold message in Hd, Hf.
  unfold handleTileCombinedResponse, catching. unfold msg_size. rewrite Hd, Hf. unfold message in Hlen.
  rewrite tc_serialize_suffix, !length_app in Hlen. rewrite !length_app. cbn [length] in *.
  rewrite u64_id by (unfold LONG_MAX in Hlen; lia). rewrite (proj2 (Z.leb_le _ _)) by lia.
  unfold se_bind, se_lift. rewrite (read_answer old p order Hpar Hp Hall). cbn [tc_tiles combined_of].
  replace (tc_serialize (rendered_as old order) (str "tilecombine:") [] ++ chr_newline :: concat (map out order))
    with ((tc_serialize (rendered_as old order) (str "tilecombine:") [] ++ [chr_newline]) ++ concat (map out order)) by by rewrite <- app_assoc.
  pose proof (save_blobs_split old order (tc_serialize (rendered_as old order) (str "tilecombine:") [] ++ [chr_newline]) now b) as H.
  rewrite length_app in H. cbn [length] in H. by rewrite H.
Qed.
End answer.

(** ** The whole way *)

Definition tile_bytes (compress : bytes -> option bytes) (mode : LibreOfficeKitTileMode) (vid : Z) (tc : TileCombined) (pixels : bytes)
    (g : DeltaGenerator) (b : batch_tile) : bytes :=
  match compressOrDelta compress g (batch_args mode vid tc pixels b) [] with Ok (_, o, _) => o | Throw _ => [] end.

Lemma pixmap_length (blend : bytes -> Z -> Z -> Z -> Z -> Z -> Z -> LibreOfficeKitTileMode -> bytes) mode tc tiles p :
  (forall q x y a b c d m, length (blend q x y a b c d m) = length q) ->
  length (fold_left (fun p b => blend p (bt_offsetX b) (bt_offsetY b) (pixmapWidth tc) (pixmapHeight tc) (tc_width tc) (tc_height tc) mode) tiles p)
  = length p.
Proof. intros Hb. revert p. induction tiles as [|t l IH]; intros p; [done|]. cbn [fold_left]. by rewrite IH, Hb. Qed.

Lemma batch_wids tc id b : b ∈ batch tc id -> is_u32 (bt_wireId b).
Proof.
  unfold batch. generalize 0%nat. generalize (tc_tiles tc) at 1. generalize (tile_rects tc). intros rects tiles k. revert id k rects.
  induction tiles as [|t l IH]; intros id k [|r rects]; cbn -[positionX positionY]; try by intros ?%elem_of_nil.
  intros [->|Hb]%elem_of_cons; [apply u32_range|by eapply IH].
Qed.

Section rendering.
Context (compress : bytes -> option bytes)
  (png : bytes -> Z -> Z -> Z -> Z -> Z -> Z -> LibreOfficeKitTileMode -> option bytes)
  (paint : Z -> Z -> Z -> Z -> Z -> Z -> Z -> Z -> bytes)
  (blend : bytes -> Z -> Z -> Z -> Z -> Z -> Z -> LibreOfficeKitTileMode -> bytes)
  (mode : LibreOfficeKitTileMode) (vid : Z).

(** C2 (refinement): a batch of tiles arrives in the server as it was rendered. However the threads of the pool
    interleave, the kit sends one message, and the server, given that message, saves every tile of the
    batch once, under its own name and wire id, with exactly the bytes [compressOrDelta] makes of
    its part of the pixmap and of what the cache of deltas held for it. *)
Theorem rendered_batch_saved tc g nextId r json_viewId terminating item_overhead :
  let tiles := batch tc nextId in
  let pixels := pixmap paint blend mode tc tiles in
  let out := tile_bytes compress mode vid tc pixels g in
  batch_fits tc -> params_fit tc -> tc_tiles tc <> [] -> tc_isCombined tc = true -> hasDuplicates tc = false ->
  Forall (message_tile tc) (tc_tiles tc) ->
  length (painted paint tc) = Z.to_nat (4 * pixmapWidth tc * pixmapHeight tc) ->
  (forall q x y a b c d m, length (blend q x y a b c d m) = length q) ->
  (forall b, b ∈ tiles -> Z.of_nat (length (out b)) <= INT_MAX) ->
  Z.of_nat (length (combined_message r)) <= LONG_MAX ->
  runs_to (render_jobs compress png paint blend mode vid tc nextId) (render_start g) r ->
  exists order old, order ≡ₚ tiles /\
    render_finish tc r = (true, [combined_message r], rebalanceDeltas (rn_gen r) (-1)) /\
    (forall b, b ∈ order -> exists g' n, compressOrDelta compress g (batch_args mode vid tc pixels b) [] = Ok (g', out b, n)) /\
    forall now b, handleTileCombinedResponse json_viewId terminating item_overhead (Message_new (combined_message r)) now b
      = catching (save_all json_viewId terminating item_overhead now (map (fun c => (read_tile out old c, out c)) order)) (se_ret tt) b.
Proof.
  intros tiles pixels out Hf Hpar Hne Hcomb Hdup Hmsg Hlen Hblend Hout Htotal Hrun.
  assert (Hpix : length pixels = Z.to_nat (4 * pixmapWidth tc * pixmapHeight tc)) by (unfold pixels, pixmap; by rewrite pixmap_length).
  assert (Hargs : forall b, b ∈ tiles -> exists g' n, compressOrDelta compress g (batch_args mode vid tc pixels b) [] = Ok (g', out b, n)).
  { intros b Hb. destruct (compress_defined compress g (batch_args mode vid tc pixels b)) as (g' & o & n & E); [by apply (args_fit mode vid tc nextId)|].
    unfold out, tile_bytes. rewrite E. by exists g', n. }
  rewrite Forall_forall in Hmsg.
  set (after := fun b => match compressOrDelta compress g (batch_args mode vid tc pixels b) [] with Ok (g', _, _) => g' | Throw _ => g end).
  assert (Hok : batch_ok compress png mode vid tc pixels g out after tiles [] [] (render_start g)).
  { split; try done.
    - intros b Hb. split; [done|]. destruct (batch_elem _ _ _ Hb) as (Hin & _). destruct (Hmsg _ Hin) as (_ & Hid & _).
      unfold encode_tile, isPreview, after, out, tile_bytes. rewrite Hid. cbn [Z.leb Z.compare negb].
      destruct (Hargs b Hb) as (g' & n & E). by rewrite E.
    - intros b ?%elem_of_nil. done.
    - rewrite !app_nil_r. by apply batch_locs.
    - rewrite !app_nil_r. unfold tiles. rewrite batch_indices. apply NoDup_seq. }
  destruct (jobs_run compress png mode vid tc pixels g out after _ _ _ Hrun tiles [] [] 0) as (order & Hperm & Hend);
    [by rewrite !app_nil_r|done|]. rewrite !app_nil_r in Hperm.
  assert (Hin : forall b, b ∈ order -> b ∈ tiles) by (intros b; by rewrite Hperm).
  assert (Hsizes : Forall (sizes_ok tc out) order).
  { apply Forall_forall. intros b Hb%Hin. split_and!; [apply Hmsg, (batch_elem tc nextId), Hb|by eapply batch_wids|by apply Hout]. }
  destruct order as [|b0 order0] eqn:Eo.
  { apply Permutation_nil_l in Hperm. unfold tiles in Hperm. apply (f_equal (map bt_tile)) in Hperm. rewrite batch_tiles in Hperm. by destruct Hne. }
  rewrite <- Eo in *. exists order, (negb (_oldWireId (bt_tile b0) =? 0)). split; [done|].
  assert (Hrendered : rn_rendered r = rendered_as tc out (negb (_oldWireId (bt_tile b0) =? 0)) order).
  { rewrite (bo_rendered _ _ _ _ _ _ _ _ _ _ _ _ _ Hend). rewrite Eo. apply pushed_all. by rewrite <- Eo. }
  unfold combined_message in *. rewrite Hrendered, (bo_output _ _ _ _ _ _ _ _ _ _ _ _ _ Hend) in *.
  split; [|split; [by intros b Hb%Hin; apply Hargs|]].
  - unfold render_finish. rewrite Hcomb. unfold combined_message. rewrite Hrendered, (bo_output _ _ _ _ _ _ _ _ _ _ _ _ _ Hend).
    by destruct (tc_tiles tc).
  - intros now b. apply (answer_saved tc out json_viewId terminating item_overhead _ (bt_tile b0)); try done.
    apply Hmsg, (batch_elem tc nextId), Hin. rewrite Eo. by left.
Qed.

(** ** The pixels *)

(** The document in pixels, at the scale of the batch. *)
Variable document : Z -> Z -> Z -> Z -> Z.

(** LibreOfficeKit paints what the document shows in the area it is given. *)
Definition paints (tc : TileCombined) : Prop :=
  forall cols rows x y sx yy n, 0 <= x -> 0 <= y -> (sx + n <= Z.to_nat (cols * tc_width tc))%nat -> (yy < Z.to_nat (rows * tc_height tc))%nat ->
  pixmap_row (paint (tc_part tc) (tc_mode tc) (cols * tc_width tc) (rows * tc_height tc)
      (x * tc_tileWidth tc) (y * tc_tileHeight tc) (cols * tc_tileWidth tc) (rows * tc_tileHeight tc))
    sx 0 n (Z.to_nat (cols * tc_width tc)) yy
  = Some (map (fun k => document (tc_part tc) (tc_mode tc) (x * tc_width tc + Z.of_nat (sx + k)) (y * tc_height tc + Z.of_nat yy)) (seq 0 n)).

Lemma mapM_total {A B} (f : A -> option B) (h : A -> B) l :
  (forall a, a ∈ l -> f a = Some (h a)) -> mapM f l = Some (map h l).
Proof.
  induction l as [|a l IH]; intros H; [done|]. cbn. rewrite H by by left. cbn. rewrite IH; [done|]. intros b Hb. apply H. by right.
Qed.
(** The rows of a tile that is at place [(x, y)] of the grid. *)
Definition document_rows (tc : TileCombined) (t : TileDesc) : list (list Z) :=
  map (fun yy => map (fun k => document (tc_part tc) (tc_mode tc) (_tilePosX t / tc_tileWidth tc * tc_width tc + Z.of_nat k)
                                 (_tilePosY t / tc_tileHeight tc * tc_height tc + Z.of_nat yy))
                   (seq 0 (Z.to_nat (tc_width tc))))
    (seq 0 (Z.to_nat (tc_height tc))).

(** One dimension of the grid. *)
Lemma grid_place lo pos size px :
  0 < size -> lo mod size = 0 -> pos mod size = 0 -> lo <= pos -> 0 <= lo ->
  lo = lo / size * size /\ lo / size * px + (pos - lo) / size * px = pos / size * px.
Proof.
  intros Hs Hl Hp Hle H0. pose proof (Z.div_mod lo size ltac:(lia)) as El. pose proof (Z.div_mod pos size ltac:(lia)) as Ep.
  rewrite Hl in El. rewrite Hp in Ep. split; [lia|].
  replace (pos - lo) with ((pos / size - lo / size) * size) by lia. rewrite Z.div_mul by lia. lia.
Qed.

(** C3 (functional): every tile of a batch is compressed from its own part of the document. Where the tiles of
    the batch lie on the grid of their size, the pixels that are cut out of the common pixmap for a tile are
    those the document shows at the tile's position, wherever the other tiles of the batch are. *)
Theorem batch_shows_document tc nextId b :
  batch_fits tc -> paints tc ->
  (forall t, t ∈ tc_tiles tc -> _tilePosX t mod tc_tileWidth tc = 0 /\ _tilePosY t mod tc_tileHeight tc = 0) ->
  b ∈ batch tc nextId ->
  args_rows (batch_args mode vid tc (painted paint tc) b) = document_rows tc (bt_tile b).
Proof.
  intros Hf Hpaint Hgrid Hb. destruct (tile_place tc nextId b Hf Hb) as (EX & EY & X0 & X1 & Y0 & Y1 & EW & EH).
  destruct (batch_elem _ _ _ Hb) as (Hin & _). destruct (area_bounds tc _ Hf Hin) as (Hx1 & Hx2 & Hy1 & Hy2).
  pose proof Hf as [_ [Hw Hh] [Hpw [_ Hph]] _]. destruct (area_corners tc _ Hf Hin Hgrid) as (A1 & A2 & A3 & A4).
  destruct (grid_place _ _ _ (tc_width tc) Hw A1 (proj1 (Hgrid _ Hin)) ltac:(lia) ltac:(lia)) as [L1 P1].
  destruct (grid_place _ _ _ (tc_height tc) Hh A3 (proj2 (Hgrid _ Hin)) ltac:(lia) ltac:(lia)) as [L2 P2].
  destruct (grid_place _ _ _ 0 Hw A1 A2 ltac:(lia) ltac:(lia)) as [_ _].
  assert (Hcols : _x2 (area tc) - _x1 (area tc) = (_x2 (area tc) - _x1 (area tc)) / tc_tileWidth tc * tc_tileWidth tc).
  { rewrite Z.mul_comm. apply Z_div_exact_full_2; [lia|]. rewrite Zminus_mod, A1, A2. done. }
  assert (Hrows : _y2 (area tc) - _y1 (area tc) = (_y2 (area tc) - _y1 (area tc)) / tc_tileHeight tc * tc_tileHeight tc).
  { rewrite Z.mul_comm. apply Z_div_exact_full_2; [lia|]. rewrite Zminus_mod, A3, A4. done. }
  set (cols := (_x2 (area tc) - _x1 (area tc)) / tc_tileWidth tc) in *. set (rows := (_y2 (area tc) - _y1 (area tc)) / tc_tileHeight tc) in *.
  set (x := _x1 (area tc) / tc_tileWidth tc) in *. set (y := _y1 (area tc) / tc_tileHeight tc) in *.
  assert (Hp : painted paint tc = paint (tc_part tc) (tc_mode tc) (cols * tc_width tc) (rows * tc_height tc)
      (x * tc_tileWidth tc) (y * tc_tileHeight tc) (cols * tc_tileWidth tc) (rows * tc_tileHeight tc)).
  { unfold painted, getLeft, getTop, rect_getWidth, rect_getHeight. fold (area tc). rewrite EW, EH, <- L1, <- L2, <- Hcols, <- Hrows.
    rewrite !(proj2 (Z.ltb_lt _ _)) by (int_unfold; lia). by rewrite !i32_id by (int_unfold; lia). }
  assert (Hx0 : 0 <= x) by (apply Z.div_pos; lia). assert (Hy0 : 0 <= y) by (apply Z.div_pos; lia).
  unfold args_rows, document_rows. cbn [batch_args ta_pixmap ta_startX ta_startY ta_width ta_height ta_bufferWidth].
  erewrite mapM_total; [reflexivity|]. intros yy Hyy%elem_of_seq.
  transitivity (pixmap_row (painted paint tc) (Z.to_nat (bt_offsetX b)) 0 (Z.to_nat (tc_width tc)) (Z.to_nat (pixmapWidth tc)) (Z.to_nat (bt_offsetY b) + yy)); [done|].
  rewrite Hp, EW, Hpaint by lia. f_equal. apply map_ext_in. intros k Hk%in_seq. f_equal; lia.
Qed.
End rendering.

(** ** A batch *)

Module SampleBatch.
Definition tile (x : Z) : TileDesc :=
  {| _canonicalViewId := 1000; _part := 0; _mode := 0; _width := 2; _height := 2; _tilePosX := x; _tilePosY := 3840;
     _tileWidth := 3840; _tileHeight := 3840; _ver := 1; _imgSize := 0; _id := -1; _oldWireId := 0; _wireId := 0 |}.
Definition request : TileCombined := combined_of (tile 0) [tile 0; tile 7680].
Definition compress (b : bytes) : option bytes := Some b.
(** A document whose parts have a colour each. *)
Definition document (part mode x y : Z) : Z := let c := part mod 256 in c + 256 * c + 65536 * c + 16777216 * c.
Definition paint (part mode w h left top width height : Z) : bytes := repeat (part mod 256) (Z.to_nat (4 * w * h)).
Definition blend (p : bytes) (_ _ _ _ _ _ : Z) (_ : LibreOfficeKitTileMode) : bytes := p.
Definition png (_ : bytes) (_ _ _ _ _ _ : Z) (_ : LibreOfficeKitTileMode) : option bytes := None.
Definition rendered : render_state :=
  run_all (render_jobs compress png paint blend LOK_TILEMODE_RGBA 1000 request 41) (render_start DeltaGenerator_new).
End SampleBatch.

Lemma sample_fits : batch_fits SampleBatch.request.
Proof.
  split; [|by vm_compute|by split_and!|by vm_compute].
  intros t Ht. repeat (apply elem_of_cons in Ht as [->|Ht]; [by vm_compute|]). by apply elem_of_nil in Ht.
Defined.

Lemma rendered_batch_saved_witness :
  exists order old, order ≡ₚ batch SampleBatch.request 41 /\
    forall now b, handleTileCombinedResponse (fun _ => Throw json_error) false 72 (Message_new (combined_message SampleBatch.rendered)) now b
      = catching (save_all (fun _ => Throw json_error) false 72 now
          (map (fun c => (read_tile (tile_bytes SampleBatch.compress LOK_TILEMODE_RGBA 1000 SampleBatch.request
             (pixmap SampleBatch.paint SampleBatch.blend LOK_TILEMODE_RGBA SampleBatch.request (batch SampleBatch.request 41)) DeltaGenerator_new) old c,
             tile_bytes SampleBatch.compress LOK_TILEMODE_RGBA 1000 SampleBatch.request
             (pixmap SampleBatch.paint SampleBatch.blend LOK_TILEMODE_RGBA SampleBatch.request (batch SampleBatch.request 41)) DeltaGenerator_new c)) order))
          (se_ret tt) b.
Proof.
  destruct (rendered_batch_saved SampleBatch.compress SampleBatch.png SampleBatch.paint SampleBatch.blend LOK_TILEMODE_RGBA 1000
    SampleBatch.request DeltaGenerator_new 41 SampleBatch.rendered (fun _ => Throw json_error) false 72)
    as (order & old & Hp & _ & _ & H).
  - apply sample_fits.
  - unfold params_fit. by_decide.
  - discriminate.
  - reflexivity.
  - vm_compute. reflexivity.
  - repeat (apply Forall_cons; split; [split; [by_decide|split_and!; reflexivity]|]). apply Forall_nil_2.
  - vm_compute. reflexivity.
  - reflexivity.
  - intros b Hb. vm_compute in Hb.
    repeat (apply elem_of_cons in Hb as [->|Hb]; [vm_compute; discriminate|]). by apply elem_of_nil in Hb.
  - vm_compute. discriminate.
  - apply runs_to_sequential.
  - exists order, old. split; [exact Hp|]. intros now b. apply H.
Defined.

Lemma read_pixels_repeat c n m :
  (4 * n <= m)%nat -> read_pixels n (repeat c m) = Some (repeat (c + 256 * c + 65536 * c + 16777216 * c) n).
Proof.
  revert m. induction n as [|n IH]; intros m Hm; [done|]. do 4 (destruct m as [|m]; [lia|]). cbn [repeat read_pixels]. rewrite IH by lia. done.
Qed.

Lemma drop_repeat_z (c : Z) n m : drop n (repeat c m) = repeat c (m - n).
Proof. revert m. induction n as [|n IH]; intros [|m]; cbn; done. Qed.

Lemma sample_paints : paints SampleBatch.paint SampleBatch.document SampleBatch.request.
Proof.
  intros cols rows x y sx yy n Hx Hy Hn Hyy. unfold pixmap_row, SampleBatch.paint. rewrite drop_repeat_z, read_pixels_repeat.
  - f_equal. unfold SampleBatch.document. clear. generalize 0%nat. induction n as [|n IH]; intros k; [done|]. cbn [repeat seq map]. by f_equal.
  - cbn in *. assert ((yy + 1) * Z.to_nat (cols * 2) <= Z.to_nat (rows * 2) * Z.to_nat (cols * 2))%nat by nia.
    replace (Z.to_nat (4 * (cols * 2) * (rows * 2))) with (4 * (Z.to_nat (rows * 2) * Z.to_nat (cols * 2)))%nat by nia. lia.
Defined.

Lemma batch_shows_document_witness :
  args_rows (batch_args LOK_TILEMODE_RGBA 1000 SampleBatch.request (painted SampleBatch.paint SampleBatch.request)
    {| bt_index := 1; bt_tile := SampleBatch.tile 7680; bt_rect := rect_make 7680 3840 3840 3840; bt_offsetX := 4; bt_offsetY := 0; bt_wireId := 43 |})
  = document_rows SampleBatch.document SampleBatch.request (SampleBatch.tile 7680).
Proof.
  apply (batch_shows_document SampleBatch.paint LOK_TILEMODE_RGBA 1000 SampleBatch.document SampleBatch.request 41).
  - apply sample_fits.
  - apply sample_paints.
  - intros t Ht. repeat (apply elem_of_cons in Ht as [->|Ht]; [by vm_compute|]). by apply elem_of_nil in Ht.
  - vm_compute. right. by left.
Defined.

(** ** Tiles at the end of the world *)

(** Fact (bounds): a tile whose end is beyond the [int]s is read outside of the pixmap. The rectangle of such a tile
    has no width, so that the pixmap is empty; nothing between the browser and [compressOrDelta] looks at
    the position, and the pixels are read from where no pixmap is. *)
Theorem tile_beyond_int_reads_outside compress mode vid g t pixels b nextId :
  let tc := combined_of t [t] in
  tile_valid t -> is_i32 (_tilePosX t) -> INT_MAX < _tilePosX t + _tileWidth t -> Nat.even (Z.to_nat (_width t)) = true ->
  _width t <= 256 -> _height t <= 256 -> length pixels = Z.to_nat (4 * pixmapWidth tc * pixmapHeight tc) -> b ∈ batch tc nextId ->
  pixmapWidth tc = 0 /\ compressOrDelta compress g (batch_args mode vid tc pixels b) [] = Throw undefined.
Proof.
  intros tc Hv Hx Hmax Hev Hw Hh Hl Hb. pose proof (tile_valid_params _ Hv) as (_ & _ & W & H & TW & TH).
  assert (Hpw : pixmapWidth tc = 0).
  { unfold pixmapWidth, tilesByX, tile_rects, render_area. cbn [tc combined_of tc_tiles map fold_left tc_tileWidth tc_width].
    unfold rect_getWidth, rect_make. cbn [_x1 _x2]. rewrite (proj2 (Z.leb_gt _ _)) by done. rewrite Z.sub_diag. cbn.
    rewrite Z.quot_0_l by lia. done. }
  split; [done|]. rewrite Hpw, Z.mul_0_r, Z.mul_0_l in Hl. destruct pixels; [|done]. unfold compressOrDelta, createDelta.
  cbn [batch_args ta_width ta_height ta_pixmap ta_startX ta_startY ta_bufferWidth ta_wid ta_loc tc combined_of tc_width tc_height].
  rewrite Hev. cbn [negb]. rewrite !(proj2 (Nat.ltb_ge _ _)) by lia. cbn [orb]. unfold DeltaData_new.
  destruct (Z.to_nat (_height t)) as [|h] eqn:Eh; [lia|]. destruct (Z.to_nat (_width t)) as [|w] eqn:Ew; [lia|].
  assert (E : forall sx sy bw y, pixmap_row [] sx sy (S w) bw y = None) by (intros; unfold pixmap_row; by rewrite drop_nil).
  cbn [seq mapM]. cbn -[pixmap_row]. rewrite E. done.
Qed.
