(* ===== verification/Storage.v ===== *)
(** * Storage: uploading a document to its WOPI host

    Models the part of [wsd/Storage.hpp] and [wsd/wopi/WopiStorage.cpp] the save
    logic of the broker depends on: the attributes of an upload, its result, the
    state of an asynchronous upload, the PutFile / PutRelativeFile / RenameFile
    request and the reading of the host's answer. The files of the jail are a
    finite map from paths to their modification time and size. Opening the
    connection, the JSON parser (with the values read from the object) and the
    conversion to UTF-7 are parameters; anonymized names, which are only logged,
    are left out. *)

From S2P Require Import Prelude RecordSet Util.

Open Scope cool_scope.
Open Scope record_scope.

(** ** Attributes of an upload *)

Record Attributes := {
  at_extendedData : bytes;
  at_forced : bool;
  at_isUserModified : bool;
  at_isAutosave : bool;
  at_isExitSave : bool }.

#[export] Instance Attributes_settable : Settable Attributes := fun a =>
  {| at_extendedData := at_extendedData a; at_forced := at_forced a; at_isUserModified := at_isUserModified a;
     at_isAutosave := at_isAutosave a; at_isExitSave := at_isExitSave a |}.

(** The constructor, and [reset]. *)
Definition Attributes_reset : Attributes :=
  {| at_extendedData := []; at_forced := false; at_isUserModified := false;
     at_isAutosave := false; at_isExitSave := false |}.

(** [a.merge(lhs)]. *)
Definition attr_merge (a lhs : Attributes) : Attributes :=
  {| at_forced := if at_forced lhs then true else at_forced a;
     at_isUserModified := if at_isUserModified lhs then true else at_isUserModified a;
     at_isAutosave := if at_isAutosave lhs then true else at_isAutosave a;
     at_isExitSave := if at_isExitSave lhs then true else at_isExitSave a;
     at_extendedData := if (length (at_extendedData lhs) =? 0)%nat then at_extendedData a else at_extendedData lhs |}.

(** ** Results *)

(** [UploadResult::Result]. *)
Inductive Result := OK | DISKFULL | TOO_LARGE | UNAUTHORIZED | DOC_CHANGED | CONFLICT | FAILED.

#[export] Instance Result_eq_dec : EqDecision Result.
Proof. solve_decision. Defined.

Record UploadResult := {
  ur_saveAsName : bytes;
  ur_saveAsUrl : bytes;
  ur_reason : bytes;
  ur_result : Result }.

Definition UploadResult_new (r : Result) (reason : bytes) : UploadResult :=
  {| ur_saveAsName := []; ur_saveAsUrl := []; ur_reason := reason; ur_result := r |}.

#[export] Instance UploadResult_settable : Settable UploadResult := fun r =>
  {| ur_saveAsName := ur_saveAsName r; ur_saveAsUrl := ur_saveAsUrl r; ur_reason := ur_reason r;
     ur_result := ur_result r |}.

(** [AsyncRequest::State] and [AsyncUpload]. *)
Inductive AsyncState := State_None | State_Running | State_Error | State_Complete.

#[export] Instance AsyncState_eq_dec : EqDecision AsyncState.
Proof. solve_decision. Defined.

Record AsyncUpload := { au_result : UploadResult; au_state : AsyncState }.

(** ** The storage *)

(** Files: modification time (microseconds) and size. *)
Abbreviation Files := (gmap bytes (Z * Z)).

(** [FileUtil::Stat(path).modifiedTimepoint()]: a missing file has a zeroed
    structure, whose time is the epoch. *)
Definition modifiedTimepoint (fs : Files) (path : bytes) : Z := from_option fst 0 (fs !! path).
Definition stat_exists (fs : Files) (path : bytes) : bool := bool_decide (is_Some (fs !! path)).
(** [::rename]: fails when there is no such file. *)
Definition rename_file (fs : Files) (old new : bytes) : Files :=
  match fs !! old with Some f => <[new := f]> (delete old fs) | None => fs end.

Record WopiStorage := {
  st_path : bytes;                  (* the path of [getUri()] *)
  st_jailedFilePath : bytes;
  st_modifiedTime : bytes;          (* of [_fileInfo]; empty when unsafe *)
  st_isLegacyServer : bool;
  st_uploadHttpSession : bool }.    (* an upload is in progress *)

#[export] Instance WopiStorage_settable : Settable WopiStorage := fun s =>
  {| st_path := st_path s; st_jailedFilePath := st_jailedFilePath s; st_modifiedTime := st_modifiedTime s;
     st_isLegacyServer := st_isLegacyServer s; st_uploadHttpSession := st_uploadHttpSession s |}.

Definition TO_UPLOAD_SUFFIX : bytes := str ".upload".
Definition UPLOADING_SUFFIX : bytes := str "ing".

Definition getRootFilePathToUpload (s : WopiStorage) : bytes := st_jailedFilePath s ++ TO_UPLOAD_SUFFIX.
Definition getRootFilePathUploading (s : WopiStorage) : bytes :=
  st_jailedFilePath s ++ TO_UPLOAD_SUFFIX ++ UPLOADING_SUFFIX.

Definition setLastModifiedTime (t : bytes) (s : WopiStorage) : WopiStorage := s <| st_modifiedTime := t |>.
Definition setLastModifiedTimeUnSafe (s : WopiStorage) : WopiStorage := s <| st_modifiedTime := [] |>.
Definition isLastModifiedTimeSafe (s : WopiStorage) : bool := negb (length (st_modifiedTime s) =? 0)%nat.

(** [queryLocalFileToStorageAsyncUploadState().state()]. *)
Definition uploadState (s : WopiStorage) : AsyncState :=
  if st_uploadHttpSession s then State_Running else State_None.

(** ** The request *)

Inductive LockState := LOCK | UNLOCK.

#[export] Instance LockState_eq_dec : EqDecision LockState.
Proof. solve_decision. Defined.

(** [LockUpdateResult::Status]. *)
Inductive LockStatus := Lock_UNSUPPORTED | Lock_OK | Lock_UNAUTHORIZED | Lock_FAILED.

Record LockUpdateResult := { lr_reason : bytes; lr_status : LockStatus; lr_requestedLockState : LockState }.

Record LockContext := {
  lc_supportsLocks : bool;
  lc_lockState : LockState;
  lc_lockToken : bytes;
  lc_lastLockTime : Z }.

#[export] Instance LockContext_settable : Settable LockContext := fun l =>
  {| lc_supportsLocks := lc_supportsLocks l; lc_lockState := lc_lockState l; lc_lockToken := lc_lockToken l;
     lc_lastLockTime := lc_lastLockTime l |}.

Definition isLocked (l : LockContext) : bool := bool_decide (lc_lockState l = LOCK).
(** [LockContext::setState], which bumps the timer. *)
Definition setLockState (now : Z) (state : LockState) (l : LockContext) : LockContext :=
  l <| lc_lockState := state |> <| lc_lastLockTime := now |>.

Record HttpRequest := {
  rq_path : bytes;
  rq_headers : list (bytes * bytes);   (* the calls of [set], in order *)
  rq_length : Z;
  rq_bodyFile : bytes }.

Definition bool_text (b : bool) : bytes := if b then str "true" else str "false".

(** A header under its current name, and for an old host under the old one too. *)
Definition legacy_pair (legacy : bool) (name value : bytes) : list (bytes * bytes) :=
  (str "X-COOL-WOPI-" ++ name, value) ::
  (if legacy then [(str "X-LOOL-WOPI-" ++ name, value)] else []).

Definition put_headers (s : WopiStorage) (a : Attributes) : list (bytes * bytes) :=
  let legacy := st_isLegacyServer s in
  [(str "X-WOPI-Override", str "PUT")]
  ++ [(str "X-COOL-WOPI-IsModifiedByUser", bool_text (at_isUserModified a));
      (str "X-COOL-WOPI-IsAutosave", bool_text (at_isAutosave a));
      (str "X-COOL-WOPI-IsExitSave", bool_text (at_isExitSave a))]
  ++ (if legacy then
        [(str "X-LOOL-WOPI-IsModifiedByUser", bool_text (at_isUserModified a));
         (str "X-LOOL-WOPI-IsAutosave", bool_text (at_isAutosave a));
         (str "X-LOOL-WOPI-IsExitSave", bool_text (at_isExitSave a))]
      else [])
  ++ (if at_isExitSave a then [(str "Connection", str "close")] else [])
  ++ (if (length (at_extendedData a) =? 0)%nat then []
      else legacy_pair legacy (str "ExtendedData") (at_extendedData a))
  ++ (if negb (at_forced a) && isLastModifiedTimeSafe s then
        legacy_pair legacy (str "Timestamp") (st_modifiedTime s)
      else []).

Section request.
Variable utf7 : bytes -> bytes.   (* [_utf7Converter.convert] *)

Definition target_headers (isRename : bool) (size : Z) (saveAsFilename : bytes) : list (bytes * bytes) :=
  if isRename then
    [(str "X-WOPI-Override", str "RENAME_FILE"); (str "X-WOPI-RequestedName", utf7 saveAsFilename)]
  else
    [(str "X-WOPI-Override", str "PUT_RELATIVE"); (str "X-WOPI-Size", to_string size);
     (str "X-WOPI-SuggestedTarget", utf7 saveAsFilename)].

Definition makeRequest (s : WopiStorage) (lockCtx : LockContext) (isSaveAs isRename : bool)
    (size : Z) (filePath saveAsFilename : bytes) (a : Attributes) : HttpRequest :=
  {| rq_path := if isSaveAs || isRename then st_path s else st_path s ++ str "/contents";
     rq_headers :=
       (if negb isSaveAs && lc_supportsLocks lockCtx then [(str "X-WOPI-Lock", lc_lockToken lockCtx)] else [])
       ++ (if negb isSaveAs && negb isRename then put_headers s a
           else target_headers isRename size saveAsFilename);
     rq_length := size;
     rq_bodyFile := filePath |}.

(** What the call does: the storage, the size returned, the states passed to the
    callback before it returns, and the request put on the wire. *)
Record UploadStart := {
  us_storage : WopiStorage;
  us_size : Z;
  us_callback : AsyncUpload;
  us_request : option HttpRequest }.

Definition upload_error (s : WopiStorage) (reason : bytes) : UploadStart :=
  {| us_storage := s; us_size := 0;
     us_callback := {| au_result := UploadResult_new FAILED reason; au_state := State_Error |};
     us_request := None |}.

(** [uploadLocalFileToStorageAsync]; [connects]: creating the HTTP session did not
    throw. *)
Definition uploadLocalFileToStorageAsync (s : WopiStorage) (fs : Files) (lockCtx : LockContext)
    (saveAsPath saveAsFilename : bytes) (isRename : bool) (a : Attributes) (connects : bool) : UploadStart :=
  if st_uploadHttpSession s then upload_error s (str "Already in progress.")
  else
    let isSaveAs := negb (length saveAsPath =? 0)%nat && negb (length saveAsFilename =? 0)%nat in
    let filePath := if isSaveAs then saveAsPath else getRootFilePathUploading s in
    match fs !! filePath with
    | None => upload_error s (str "File not found.")
    | Some (_, size) =>
        if negb connects then upload_error s (str "Internal error.")
        else
          {| us_storage := s <| st_uploadHttpSession := true |>;
             us_size := size;
             us_callback := {| au_result := UploadResult_new OK []; au_state := State_Running |};
             us_request := Some (makeRequest s lockCtx isSaveAs isRename size filePath saveAsFilename a) |}
    end.
End request.

(** ** The answer *)

(** What is read from the JSON object of an answer. *)
Record WopiObject := {
  wo_LastModifiedTime : bytes;
  wo_Name : bytes;
  wo_Url : bytes;
  wo_COOLStatusCode : Z;
  wo_LOOLStatusCode : Z }.

Record WopiUploadDetails := {
  wd_httpResponseCode : Z;
  wd_httpResponseReason : bytes;
  wd_isSaveAs : bool;
  wd_isRename : bool }.

Definition DOC_CHANGED_code : Z := 1010.

(** [statusCategory() == StatusCodeClass::Invalid]. *)
Definition status_invalid (code : Z) : bool := code <? 100.

Definition failure_reason (d : WopiUploadDetails) (body : bytes) : bytes :=
  let status := to_string (wd_httpResponseCode d) ++ str " " ++ wd_httpResponseReason d in
  if (length body =? 0)%nat then
    if status_invalid (wd_httpResponseCode d) then str "No response received. Connection terminated or timed-out."
    else status
  else status ++ str " - " ++ body.

Section response.
Variable parseJSON : bytes -> option WopiObject.

(** [handleUploadToStorageResponse]. *)
Definition storage_response (s : WopiStorage) (d : WopiUploadDetails) (body : bytes) : WopiStorage * UploadResult :=
  let result := UploadResult_new FAILED body in
  let code := wd_httpResponseCode d in
  if code =? 200 then
    let result := result <| ur_result := OK |> in
    match parseJSON body with
    | Some object =>
        let s := setLastModifiedTime (wo_LastModifiedTime object) s in
        if wd_isSaveAs d || wd_isRename d then
          (s, result <| ur_saveAsName := wo_Name object |> <| ur_saveAsUrl := wo_Url object |>)
        else (s, result)
    | None => (s, result)
    end
  else if code =? 413 then (s, result <| ur_result := TOO_LARGE |>)
  else if (code =? 401) || (code =? 403) || (code =? 404) then (s, result <| ur_result := UNAUTHORIZED |>)
  else if code =? 409 then
    match parseJSON body with
    | Some object =>
        if (wo_COOLStatusCode object =? DOC_CHANGED_code) || (wo_LOOLStatusCode object =? DOC_CHANGED_code)
        then (s, result <| ur_result := DOC_CHANGED |>)
        else (s, result <| ur_result := CONFLICT |>)
    | None => (s, result <| ur_result := CONFLICT |>)
    end
  else (s, result <| ur_result := FAILED |> <| ur_reason := failure_reason d body |>).

(** The finished callback of the HTTP session: the session is retired, then the
    answer handled. *)
Definition upload_finished (s : WopiStorage) (d : WopiUploadDetails) (body : bytes) : WopiStorage * AsyncUpload :=
  let '(s, res) := storage_response (s <| st_uploadHttpSession := false |>) d body in
  (s, {| au_result := res; au_state := State_Complete |}).

(** The connect-fail handler. *)
Definition upload_connect_failed (s : WopiStorage) : WopiStorage * AsyncUpload :=
  (s <| st_uploadHttpSession := false |>,
   {| au_result := UploadResult_new FAILED (str "Connection failed."); au_state := State_Error |}).
End response.
