(* ===== verification/SaveManager.v ===== *)
(** * Managers of saving and uploading

    Models the classes nested in [DocumentBroker] ([wsd/DocumentBroker.hpp]):
    [RequestManager], [SaveManager], [StorageManager], [UploadRequest] and
    [DocumentState], with the theorems on throttling, failure counts and the life
    of a request. A steady clock reading is a number of nanoseconds and an
    argument; durations are in the unit of the code (milliseconds, or seconds
    where named so). The wall-clock times of files are in microseconds. *)

From S2P Require Import Prelude RecordSet.

Open Scope cool_scope.
Open Scope record_scope.

Definition ns_per_ms : Z := 1000000.
Definition ns_per_s : Z := 1000000000.

(** [duration_cast] truncates towards zero. *)
Definition to_ms (ns : Z) : Z := Z.quot ns ns_per_ms.
Definition to_s (ns : Z) : Z := Z.quot ns ns_per_s.

(** ** [RequestManager] *)

Record RequestManager := {
  rm_minTimeBetweenRequests : Z;   (* milliseconds *)
  rm_lastRequestTime : Z;
  rm_lastResponseTime : Z;
  rm_lastRequestDuration : Z;      (* milliseconds *)
  rm_lastRequestFailureCount : nat }.

#[export] Instance RequestManager_settable : Settable RequestManager := fun r =>
  {| rm_minTimeBetweenRequests := rm_minTimeBetweenRequests r; rm_lastRequestTime := rm_lastRequestTime r;
     rm_lastResponseTime := rm_lastResponseTime r; rm_lastRequestDuration := rm_lastRequestDuration r;
     rm_lastRequestFailureCount := rm_lastRequestFailureCount r |}.

(** The constructor reads the clock twice; [t1] is the first reading. *)
Definition RequestManager_new (minTime t1 t2 : Z) : RequestManager :=
  {| rm_minTimeBetweenRequests := minTime; rm_lastRequestTime := t1; rm_lastResponseTime := t2;
     rm_lastRequestDuration := 0; rm_lastRequestFailureCount := 0 |}.

Definition markLastRequestTime (now : Z) (r : RequestManager) : RequestManager := r <| rm_lastRequestTime := now |>.
Definition timeSinceLastRequest (now : Z) (r : RequestManager) : Z := to_ms (now - rm_lastRequestTime r).
Definition timeSinceLastResponse (now : Z) (r : RequestManager) : Z := to_ms (now - rm_lastResponseTime r).
Definition isActive (r : RequestManager) : bool := rm_lastResponseTime r <? rm_lastRequestTime r.
Definition hasLastRequestTimedOut (now timeoutMs : Z) (r : RequestManager) : bool :=
  isActive r && (timeoutMs <=? timeSinceLastRequest now r).

Definition markLastResponseTime (now : Z) (r : RequestManager) : RequestManager :=
  r <| rm_lastResponseTime := now |> <| rm_lastRequestDuration := to_ms (now - rm_lastRequestTime r) |>.

Definition timeToNextRequest (now : Z) (unloading : bool) (r : RequestManager) : Z :=
  let minTimeBetweenRequests := Z.max (rm_minTimeBetweenRequests r) (rm_lastRequestDuration r) in
  let minTimeBetweenRequests :=
    if unloading then Z.quot minTimeBetweenRequests 10 else minTimeBetweenRequests in
  let timeSinceLastCommunication := Z.min (timeSinceLastRequest now r) (timeSinceLastResponse now r) in
  if minTimeBetweenRequests <=? timeSinceLastCommunication then 0
  else minTimeBetweenRequests - timeSinceLastCommunication.

Definition canRequestNow (now : Z) (unloading : bool) (r : RequestManager) : bool :=
  negb (isActive r) && (timeToNextRequest now unloading r =? 0).

Definition setLastRequestResult (now : Z) (success : bool) (r : RequestManager) : RequestManager :=
  let r := markLastResponseTime now r in
  if success then r <| rm_lastRequestFailureCount := 0%nat |> else r <| rm_lastRequestFailureCount ::= S |>.

Definition lastRequestSuccessful (r : RequestManager) : bool := (rm_lastRequestFailureCount r =? 0)%nat.

(** ** [SaveManager] *)

Record SaveManager := {
  sm_request : RequestManager;
  sm_lastModifiedLocalTime : Z;
  sm_idleSaveInterval : Z;
  sm_autoSaveInterval : Z;
  sm_checkInterval : Z;
  sm_savingTimeout : Z;            (* seconds *)
  sm_lastAutosaveCheckTime : Z;
  sm_version : nat }.

#[export] Instance SaveManager_settable : Settable SaveManager := fun s =>
  {| sm_request := sm_request s; sm_lastModifiedLocalTime := sm_lastModifiedLocalTime s;
     sm_idleSaveInterval := sm_idleSaveInterval s; sm_autoSaveInterval := sm_autoSaveInterval s;
     sm_checkInterval := sm_checkInterval s; sm_savingTimeout := sm_savingTimeout s;
     sm_lastAutosaveCheckTime := sm_lastAutosaveCheckTime s; sm_version := sm_version s |}.

Definition getCheckInterval (idleSaveInterval autoSaveInterval : Z) : Z :=
  if 0 <? idleSaveInterval then
    if 0 <? autoSaveInterval then Z.min idleSaveInterval autoSaveInterval else idleSaveInterval
  else autoSaveInterval.

Definition SaveManager_new (idleSaveInterval autoSaveInterval minTimeBetweenSaves now : Z) : SaveManager :=
  {| sm_request := RequestManager_new minTimeBetweenSaves now now; sm_lastModifiedLocalTime := 0;
     sm_idleSaveInterval := idleSaveInterval; sm_autoSaveInterval := autoSaveInterval;
     sm_checkInterval := getCheckInterval idleSaveInterval autoSaveInterval; sm_savingTimeout := 0;
     sm_lastAutosaveCheckTime := now; sm_version := 0 |}.

Definition isIdleSaveEnabled (s : SaveManager) : bool := 0 <? sm_idleSaveInterval s.
Definition isAutoSaveEnabled (s : SaveManager) : bool := 0 <? sm_autoSaveInterval s.

(** The seconds are compared with the interval in milliseconds. *)
Definition needAutoSaveCheck (now : Z) (s : SaveManager) : bool :=
  (0 <? sm_checkInterval s) && (sm_checkInterval s <=? 1000 * to_s (now - sm_lastAutosaveCheckTime s)).

Definition autoSaveChecked (now : Z) (s : SaveManager) : SaveManager := s <| sm_lastAutosaveCheckTime := now |>.

Definition postponeAutosave (now seconds : Z) (s : SaveManager) : SaveManager :=
  let nextAutosaveCheck := sm_lastAutosaveCheckTime s + sm_autoSaveInterval s * ns_per_ms in
  let postponeTime := now + seconds * ns_per_s in
  if nextAutosaveCheck <? postponeTime then
    s <| sm_lastAutosaveCheckTime ::= Z.add (postponeTime - nextAutosaveCheck) |>
  else s.

Definition markLastSaveRequestTime (now : Z) (s : SaveManager) : SaveManager :=
  s <| sm_request ::= markLastRequestTime now |>.
Definition lastSaveSuccessful (s : SaveManager) : bool := lastRequestSuccessful (sm_request s).
Definition saveFailureCount (s : SaveManager) : nat := rm_lastRequestFailureCount (sm_request s).
Definition setLastSaveResult (now : Z) (success newVersion : bool) (s : SaveManager) : SaveManager :=
  let s := if newVersion then s <| sm_version ::= S |> else s in
  s <| sm_request ::= setLastRequestResult now success |>.
Definition lastSaveRequestTime (s : SaveManager) : Z := rm_lastRequestTime (sm_request s).
Definition setLastModifiedLocalTime (time : Z) (s : SaveManager) : SaveManager := s <| sm_lastModifiedLocalTime := time |>.
Definition isSaving (s : SaveManager) : bool := isActive (sm_request s).
Definition setSavingTimeout (seconds : Z) (s : SaveManager) : SaveManager := s <| sm_savingTimeout := seconds |>.
Definition hasSavingTimedOut (now : Z) (s : SaveManager) : bool :=
  hasLastRequestTimedOut now (1000 * sm_savingTimeout s) (sm_request s).
Definition timeSinceLastSaveRequest (now : Z) (s : SaveManager) : Z := timeSinceLastRequest now (sm_request s).
Definition timeSinceLastSaveResponse (now : Z) (s : SaveManager) : Z := timeSinceLastResponse now (sm_request s).
Definition canSaveNow (now : Z) (unloading : bool) (s : SaveManager) : bool := canRequestNow now unloading (sm_request s).

(** ** [UploadRequest] *)

Record UploadRequest := {
  up_uri : bytes;
  up_newFileModifiedLocalTime : Z;
  up_session : bytes;              (* the id: a weak reference *)
  up_isSaveAs : bool;
  up_isExport : bool;
  up_isRename : bool;
  up_completed : bool }.

#[export] Instance UploadRequest_settable : Settable UploadRequest := fun u =>
  {| up_uri := up_uri u; up_newFileModifiedLocalTime := up_newFileModifiedLocalTime u; up_session := up_session u;
     up_isSaveAs := up_isSaveAs u; up_isExport := up_isExport u; up_isRename := up_isRename u;
     up_completed := up_completed u |}.

Definition UploadRequest_new (uri : bytes) (time : Z) (session : bytes) (isSaveAs isExport isRename : bool) : UploadRequest :=
  {| up_uri := uri; up_newFileModifiedLocalTime := time; up_session := session; up_isSaveAs := isSaveAs;
     up_isExport := isExport; up_isRename := isRename; up_completed := false |}.

(** ** [StorageManager] *)

Record StorageManager := {
  sg_request : RequestManager;
  sg_lastUploadedFileModifiedLocalTime : Z;
  sg_lastModifiedServerTimeString : bytes;
  sg_sizeOnServer : Z;
  sg_sizeAsUploaded : Z }.

#[export] Instance StorageManager_settable : Settable StorageManager := fun s =>
  {| sg_request := sg_request s; sg_lastUploadedFileModifiedLocalTime := sg_lastUploadedFileModifiedLocalTime s;
     sg_lastModifiedServerTimeString := sg_lastModifiedServerTimeString s; sg_sizeOnServer := sg_sizeOnServer s;
     sg_sizeAsUploaded := sg_sizeAsUploaded s |}.

Definition StorageManager_new (minTimeBetweenUploads now : Z) : StorageManager :=
  {| sg_request := RequestManager_new minTimeBetweenUploads now now; sg_lastUploadedFileModifiedLocalTime := 0;
     sg_lastModifiedServerTimeString := []; sg_sizeOnServer := 0; sg_sizeAsUploaded := 0 |}.

Definition lastUploadSuccessful (s : StorageManager) : bool := lastRequestSuccessful (sg_request s).
Definition setLastUploadResult (now : Z) (success : bool) (s : StorageManager) : StorageManager :=
  s <| sg_request ::= setLastRequestResult now success |>.
Definition markLastUploadRequestTime (now : Z) (s : StorageManager) : StorageManager :=
  s <| sg_request ::= markLastRequestTime now |>.
Definition uploadFailureCount (s : StorageManager) : nat := rm_lastRequestFailureCount (sg_request s).
Definition timeSinceLastUploadResponse (now : Z) (s : StorageManager) : Z := timeSinceLastResponse now (sg_request s).
Definition canUploadNow (now : Z) (unloading : bool) (s : StorageManager) : bool := canRequestNow now unloading (sg_request s).

(** ** [DocumentState] *)

Inductive Status := Status_None | Downloading | Loading | Live | Destroying | Destroyed.
Inductive Activity := Activity_None | Rename | SaveAs | Conflict | Save | Upload | SyncFileTimestamp
  | SwitchingToOffline | SwitchingToOnline.
Inductive KitDisconnected := KD_No | Normal | Unexpected.

#[export] Instance Status_eq_dec : EqDecision Status.
Proof. solve_decision. Defined.
#[export] Instance Activity_eq_dec : EqDecision Activity.
Proof. solve_decision. Defined.
#[export] Instance KitDisconnected_eq_dec : EqDecision KitDisconnected.
Proof. solve_decision. Defined.

(** The order of the enumeration. *)
Definition status_index (s : Status) : Z :=
  match s with
  | Status_None => 0 | Downloading => 1 | Loading => 2 | Live => 3 | Destroying => 4 | Destroyed => 5
  end.

Record DocumentState := {
  ds_status : Status;
  ds_activity : Activity;
  ds_loaded : bool;
  ds_closeRequested : bool;
  ds_unloadRequested : bool;
  ds_kitDisconnected : KitDisconnected;
  ds_interactive : bool }.

#[export] Instance DocumentState_settable : Settable DocumentState := fun d =>
  {| ds_status := ds_status d; ds_activity := ds_activity d; ds_loaded := ds_loaded d;
     ds_closeRequested := ds_closeRequested d; ds_unloadRequested := ds_unloadRequested d;
     ds_kitDisconnected := ds_kitDisconnected d; ds_interactive := ds_interactive d |}.

Definition DocumentState_new : DocumentState :=
  {| ds_status := Status_None; ds_activity := Activity_None; ds_loaded := false; ds_closeRequested := false;
     ds_unloadRequested := false; ds_kitDisconnected := KD_No; ds_interactive := false |}.

Definition setStatus (newStatus : Status) (d : DocumentState) : DocumentState := d <| ds_status := newStatus |>.
Definition setActivity (a : Activity) (d : DocumentState) : DocumentState := d <| ds_activity := a |>.
Definition isLive (d : DocumentState) : bool := bool_decide (ds_status d = Live).
Definition setLive (d : DocumentState) : DocumentState := setStatus Live (d <| ds_loaded := true |>).
Definition markToDestroy (d : DocumentState) : DocumentState := d <| ds_status := Destroying |>.
Definition isMarkedToDestroy (d : DocumentState) : bool := status_index Destroying <=? status_index (ds_status d).
Definition setCloseRequested (d : DocumentState) : DocumentState := d <| ds_closeRequested := true |>.
Definition setUnloadRequested (d : DocumentState) : DocumentState := d <| ds_unloadRequested := true |>.
Definition resetUnloadRequested (d : DocumentState) : DocumentState := d <| ds_unloadRequested := false |>.
Definition setKitDisconnected (k : KitDisconnected) (d : DocumentState) : DocumentState := d <| ds_kitDisconnected := k |>.
Definition isKitDisconnected (d : DocumentState) : bool := negb (bool_decide (ds_kitDisconnected d = KD_No)).

(** [startActivity], as compiled without the asserts: false if an activity exists. *)
Definition startActivity (a : Activity) (d : DocumentState) : DocumentState * bool :=
  if bool_decide (a = Activity_None) then (d, false)
  else if negb (bool_decide (ds_activity d = Activity_None)) then (d, false)
  else (setActivity a d, true).

Definition endActivity (d : DocumentState) : DocumentState := setActivity Activity_None d.

(** ** Throttling *)

Lemma to_ms_later now t d : t <= now -> 0 <= d -> to_ms (now + d * ns_per_ms - t) = to_ms (now - t) + d.
Proof.
  intros Ht Hd. unfold to_ms, ns_per_ms. replace (now + d * 1000000 - t) with (now - t + d * 1000000) by lia.
  rewrite !Z.quot_div_nonneg by lia. by rewrite Z.div_add by lia.
Qed.

(** Fact (bounds): throttling is exact. When no request is under way,
    [timeToNextRequest] is between zero and the longer of the configured interval
    and the duration of the last request (a tenth of it when unloading), and a new
    request is allowed from exactly that many milliseconds later on. *)
Theorem throttle_exact now unloading r d :
  isActive r = false -> rm_lastResponseTime r <= now -> rm_lastRequestTime r <= now ->
  0 <= rm_minTimeBetweenRequests r -> 0 <= d ->
  let wait := timeToNextRequest now unloading r in
  let longest := Z.max (rm_minTimeBetweenRequests r) (rm_lastRequestDuration r) in
  0 <= wait <= (if unloading then longest / 10 else longest) /\
  (canRequestNow (now + d * ns_per_ms) unloading r = true <-> wait <= d).
Proof.
  intros Ha Hr Hq Hm Hd wait longest. unfold canRequestNow. rewrite Ha. cbn [negb andb].
  unfold wait, timeToNextRequest, timeSinceLastRequest, timeSinceLastResponse. fold longest.
  rewrite !to_ms_later by lia.
  assert (Hl : 0 <= longest) by (unfold longest; lia).
  rewrite Z.quot_div_nonneg by lia.
  set (minTime := if unloading then longest / 10 else longest).
  assert (0 <= minTime) by (unfold minTime; destruct unloading; [apply Z.div_pos|]; lia).
  assert (0 <= to_ms (now - rm_lastRequestTime r) /\ 0 <= to_ms (now - rm_lastResponseTime r)) as [H1 H2].
  { unfold to_ms, ns_per_ms. split; apply Z.quot_pos; lia. }
  rewrite Z.eqb_eq. zcases; lia.
Qed.

Lemma throttle_exact_witness :
  let r := RequestManager_new 500 0 0 in
  timeToNextRequest 100000000 false r = 400 /\ canRequestNow (100000000 + 400 * ns_per_ms) false r = true.
Proof.
  intros r. split; [reflexivity|].
  apply (throttle_exact 100000000 false r 400); vm_compute; (reflexivity || discriminate).
Defined.
