(* ===== verification/DocumentSave.v ===== *)
(** * The document broker: saving and uploading

    Models the part of [DocumentBroker] ([wsd/DocumentBroker.cpp]) that decides
    when a document is saved, uploaded, renamed, locked and unloaded: its state,
    its handlers, and the activity switch of its poll loop, with the state of the
    sessions they use. Messages to the clients, to the kit and to the storage
    host are recorded in order; what the outside world answers during a handler
    is in [Env]. The unit-test hooks, the admin console, the quarantine and the
    presets are left out, and user data is not anonymized. *)

From S2P Require Import Prelude RecordSet Util Protocol Storage SaveManager.

Open Scope cool_scope.
Open Scope record_scope.

(** ** Sessions *)

Inductive SessionState := DETACHED | LOADING | LIVE | WAIT_DISCONNECT.

#[export] Instance SessionState_eq_dec : EqDecision SessionState.
Proof. solve_decision. Defined.

Record Session := {
  se_id : bytes;
  se_uri : bytes;                 (* the public URI *)
  se_userName : bytes;
  se_state : SessionState;
  se_isWritable : bool;
  se_isReadOnly : bool;
  se_isAllowChangeComments : bool;
  se_isAllowManageRedlines : bool;
  se_isCloseFrame : bool;
  se_isDocumentOwner : bool;
  se_isLockFailed : bool;
  se_authExpired : bool }.

#[export] Instance Session_settable : Settable Session := fun s =>
  {| se_id := se_id s; se_uri := se_uri s; se_userName := se_userName s; se_state := se_state s;
     se_isWritable := se_isWritable s; se_isReadOnly := se_isReadOnly s;
     se_isAllowChangeComments := se_isAllowChangeComments s; se_isAllowManageRedlines := se_isAllowManageRedlines s;
     se_isCloseFrame := se_isCloseFrame s; se_isDocumentOwner := se_isDocumentOwner s;
     se_isLockFailed := se_isLockFailed s; se_authExpired := se_authExpired s |}.

Definition isEditable (s : Session) : bool :=
  negb (se_isReadOnly s) || se_isAllowChangeComments s || se_isAllowManageRedlines s.
Definition isViewLoaded (s : Session) : bool := bool_decide (se_state s = LIVE).
Definition inWaitDisconnected (s : Session) : bool := bool_decide (se_state s = WAIT_DISCONNECT).
Definition isSessionLive (s : Session) : bool := isViewLoaded s && negb (se_isCloseFrame s).

(** [setWritable], as far as the session's own fields go; the client is told that it is
    read-only where it is called. *)
Definition setWritable (writable : bool) (s : Session) : Session :=
  let s := s <| se_isWritable := writable |> in
  if writable then s
  else s <| se_isReadOnly := true |> <| se_isAllowChangeComments := false |> <| se_isAllowManageRedlines := false |>.
(** [setState], as compiled without the asserts. *)
Definition setState (newState : SessionState) (s : Session) : Session :=
  if inWaitDisconnected s then s else s <| se_state := newState |>.
Definition invalidateAuthorizationToken (s : Session) : Session := s <| se_authExpired := true |>.

(** ** The broker *)

Inductive Output :=
| ToClient (session message : bytes)
| ToKit (message : bytes)
| ToStorage (request : HttpRequest)
| LockRequest (session : bytes) (lock : LockState)
| CheckFileInfoRequest (session : bytes)
| TerminateKit.

(** Settings, and the functions on URIs of the Poco library. *)
Record Config := {
  cf_alwaysSaveOnExit : bool;
  cf_backgroundAutoSave : bool;
  cf_backgroundManualSave : bool;
  cf_forceBackgroundEnv : bool;
  cf_limStoreFailures : Z;
  cf_idleDocTimeoutSecs : Z;
  cf_indirectionServerEnabled : bool;
  cf_migrationMsgTimeout : Z;        (* microseconds *)
  cf_docKey : bytes;
  cf_filename : bytes;
  cf_utf7 : bytes -> bytes;          (* [_utf7Converter.convert] *)
  cf_encode : bytes -> bytes;        (* [Poco::URI::encode], [Uri::encode] *)
  cf_normalizedUri : bytes -> bytes; (* [Poco::URI(url).toString()] *)
  cf_uriWithoutToken : bytes -> bytes }.  (* the same, less the access_token parameters *)

Record DocumentBroker := {
  db_config : Config;
  db_sessions : list Session;        (* [_sessions], in the order of the map *)
  db_docState : DocumentState;
  db_saveManager : SaveManager;
  db_storageManager : StorageManager;
  db_storage : option WopiStorage;
  db_files : Files;
  db_lockCtx : LockContext;
  db_nextStorageAttrs : Attributes;
  db_currentStorageAttrs : Attributes;
  db_lastStorageAttrs : Attributes;
  db_uploadRequest : option UploadRequest;
  db_checkFileInfo : option bytes;   (* the session of the request *)
  db_closeReason : bytes;
  db_renameFilename : bytes;
  db_renameSessionId : bytes;
  db_lastEditingSessionId : bytes;
  db_pid : Z;                        (* [getPid()] *)
  db_kitSocket : bool;               (* [_childProcess->_ws] *)
  db_lastActivityTime : Z;
  db_lastModifyActivityTime : Z;
  db_createTime : Z;
  db_isModified : bool;
  db_stop : bool;
  db_documentChangedInStorage : bool;
  db_isViewFileExtension : bool;
  db_migrateMsgReceived : bool;
  db_waitingForMigrationMsg : bool;  (* locals of the poll loop *)
  db_migrationMsgStartTime : Z;
  db_out : list Output }.

#[export] Instance DocumentBroker_settable : Settable DocumentBroker := fun b =>
  {| db_config := db_config b; db_sessions := db_sessions b; db_docState := db_docState b;
     db_saveManager := db_saveManager b; db_storageManager := db_storageManager b; db_storage := db_storage b;
     db_files := db_files b; db_lockCtx := db_lockCtx b; db_nextStorageAttrs := db_nextStorageAttrs b;
     db_currentStorageAttrs := db_currentStorageAttrs b; db_lastStorageAttrs := db_lastStorageAttrs b;
     db_uploadRequest := db_uploadRequest b; db_checkFileInfo := db_checkFileInfo b;
     db_closeReason := db_closeReason b; db_renameFilename := db_renameFilename b;
     db_renameSessionId := db_renameSessionId b; db_lastEditingSessionId := db_lastEditingSessionId b;
     db_pid := db_pid b; db_kitSocket := db_kitSocket b; db_lastActivityTime := db_lastActivityTime b;
     db_lastModifyActivityTime := db_lastModifyActivityTime b; db_createTime := db_createTime b;
     db_isModified := db_isModified b; db_stop := db_stop b;
     db_documentChangedInStorage := db_documentChangedInStorage b;
     db_isViewFileExtension := db_isViewFileExtension b; db_migrateMsgReceived := db_migrateMsgReceived b;
     db_waitingForMigrationMsg := db_waitingForMigrationMsg b;
     db_migrationMsgStartTime := db_migrationMsgStartTime b; db_out := db_out b |}.

(** The world during a handler. *)
Record Env := {
  ev_now : Z;                        (* the steady clock *)
  ev_shutdownRequestFlag : bool;     (* [SigUtil::getShutdownRequestFlag()] *)
  ev_connects : bool;                (* making the HTTP session of an upload does not throw *)
  ev_lockStatus : LockStatus;        (* the host's answer to a lock request *)
  ev_lockReason : bytes;
  ev_cfiStarts : bool }.             (* [CheckFileInfo::checkFileInfo] started the request *)

Abbreviation DB := DocumentBroker.

(** ** State queries *)

Definition isLoaded (b : DB) : bool := ds_loaded (db_docState b).
Definition activity (b : DB) : Activity := ds_activity (db_docState b).
Definition isMarkedToDestroyB (b : DB) : bool := isMarkedToDestroy (db_docState b) || db_stop b.
Definition isUnloadingUnrecoverably (ev : Env) (b : DB) : bool :=
  isMarkedToDestroyB b || ds_closeRequested (db_docState b) || db_stop b || ev_shutdownRequestFlag ev.
Definition isUnloading (ev : Env) (b : DB) : bool :=
  isUnloadingUnrecoverably ev b || ds_unloadRequested (db_docState b).
Definition isAsyncUploading (b : DB) : bool :=
  match db_storage b with
  | None => false
  | Some s => bool_decide (uploadState s = State_Running)
  end.
Definition haveModifyActivityAfterSaveRequest (b : DB) : bool :=
  lastSaveRequestTime (db_saveManager b) <? db_lastModifyActivityTime b.
Definition isPossiblyModified (b : DB) : bool :=
  if haveModifyActivityAfterSaveRequest b then true
  else if db_isViewFileExtension b then negb (lastSaveSuccessful (db_saveManager b))
  else db_isModified b.

Definition find_session (id : bytes) (b : DB) : option Session :=
  List.find (fun s => beq (se_id s) id) (db_sessions b).
Definition update_session (id : bytes) (f : Session -> Session) (b : DB) : DB :=
  b <| db_sessions ::= map (fun s => if beq (se_id s) id then f s else s) |>.
Definition erase_session (id : bytes) (b : DB) : DB :=
  b <| db_sessions ::= List.filter (fun s => negb (beq (se_id s) id)) |>.

Definition haveAnotherEditableSession (id : bytes) (b : DB) : bool :=
  existsb (fun s => negb (beq (se_id s) id) && isViewLoaded s && isEditable s) (db_sessions b).
Definition countActiveSessions (b : DB) : nat := length (List.filter isSessionLive (db_sessions b)).
Definition isSessionLoading (s : Session) : bool := negb (isSessionLive s) && negb (inWaitDisconnected s).
Definition countLoadingSessions (b : DB) : nat := length (List.filter isSessionLoading (db_sessions b)).

(** [getWriteableSession]. *)
Fixpoint writeable_from (savingSession : option Session) (sessions : list Session) : option Session :=
  match sessions with
  | [] => savingSession
  | s :: sessions' =>
      let savingSession :=
        match savingSession with
        | None => Some s
        | Some _ => if isViewLoaded s && isEditable s && negb (se_authExpired s) then Some s else savingSession
        end in
      if se_isDocumentOwner s then Some s else writeable_from savingSession sessions'
  end.
Definition getWriteableSession (b : DB) : option Session := writeable_from None (db_sessions b).
Definition getFirstAuthorizedSession (b : DB) : option Session :=
  List.find (fun s => negb (se_authExpired s)) (db_sessions b).

Inductive CanSave := CanSave_Yes | NoKit | NotLoaded | NoWriteSession.
#[export] Instance CanSave_eq_dec : EqDecision CanSave.
Proof. solve_decision. Defined.

Definition canSaveToDisk (b : DB) : CanSave :=
  if isKitDisconnected (db_docState b) || (db_pid b <=? 0) then NoKit
  else if negb (isLoaded b) then NotLoaded
  else if (length (db_sessions b) =? 0)%nat || negb (bool_decide (is_Some (getWriteableSession b))) then NoWriteSession
  else CanSave_Yes.

Inductive NeedToSave := NeedToSave_No | Maybe | Yes_Modified | Yes_LastSaveFailed.
#[export] Instance NeedToSave_eq_dec : EqDecision NeedToSave.
Proof. solve_decision. Defined.

Definition needToSaveToDisk (b : DB) : NeedToSave :=
  if negb (lastSaveSuccessful (db_saveManager b)) then Yes_LastSaveFailed
  else if db_isModified b && negb (db_isViewFileExtension b) then Yes_Modified
  else if haveModifyActivityAfterSaveRequest b then Maybe
  else NeedToSave_No.

Definition isStorageOutdated (b : DB) : bool :=
  match db_storage b with
  | None => false
  | Some s =>
      let path := getRootFilePathUploading s in
      if negb (stat_exists (db_files b) path) then false
      else negb (modifiedTimepoint (db_files b) path =? sg_lastUploadedFileModifiedLocalTime (db_storageManager b))
  end.

(** [needToUploadToStorage() == NeedToUpload::Yes]; a storage is all that
    [canUploadToStorage] asks for. *)
Definition needToUploadToStorage (ev : Env) (b : DB) : bool :=
  match db_storage b with
  | None => false
  | Some _ =>
      if isUnloading ev b && cf_alwaysSaveOnExit (db_config b) && (0 <? sm_version (db_saveManager b))%nat then true
      else if negb (lastUploadSuccessful (db_storageManager b)) && negb (db_documentChangedInStorage b) then true
      else isStorageOutdated b
  end.

(** ** Messages *)

Definition output (o : Output) (b : DB) : DB := b <| db_out ::= fun l => l ++ [o] |>.

(** [session->sendTextFrame(msg)]. *)
Definition sendTextFrame (id msg : bytes) (b : DB) : DB :=
  match find_session id b with
  | Some s => if se_isCloseFrame s then b else output (ToClient id msg) b
  | None => b
  end.

(** [broadcastMessage], and the number of clients it reached. *)
Definition open_sessions (b : DB) : list Session := List.filter (fun s => negb (se_isCloseFrame s)) (db_sessions b).
Definition broadcastMessage (msg : bytes) (b : DB) : DB :=
  b <| db_out ::= fun l => l ++ map (fun s => ToClient (se_id s) msg) (open_sessions b) |>.
Definition broadcastMessageToOthers (msg id : bytes) (b : DB) : DB :=
  b <| db_out ::= fun l => l ++ map (fun s => ToClient (se_id s) msg)
         (List.filter (fun s => negb (beq (se_id s) id)) (open_sessions b)) |>.

Definition quote (s : bytes) : bytes := [34] ++ s ++ [34].

Definition broadcastSaveResult (success : bool) (result errorMsg : bytes) (b : DB) : DB :=
  broadcastMessage
    (str "commandresult: { " ++ quote (str "command") ++ str ": " ++ quote (str "save") ++ str ", "
     ++ quote (str "success") ++ str ": " ++ bool_text success ++ str ", " ++ quote (str "result") ++ str ": "
     ++ quote result ++ str ", " ++ quote (str "errorMsg") ++ str ": "
     ++ quote (replaceInPlace (getAbbreviatedMessage errorMsg) 34 39) ++ str "}") b.

Definition blockUI (msg : bytes) (b : DB) : DB := broadcastMessage (str "blockui: " ++ msg) b.
Definition unblockUI (b : DB) : DB := broadcastMessage (str "unblockui: ") b.

Definition broadcastLastModificationTime (b : DB) : DB :=
  if (length (sg_lastModifiedServerTimeString (db_storageManager b)) =? 0)%nat then b
  else broadcastMessage (str "lastmodtime: " ++ sg_lastModifiedServerTimeString (db_storageManager b)) b.

(** [forwardToChild], for the messages sent here (none starts with [load]). *)
Definition forwardToChild (ev : Env) (id message : bytes) (b : DB) : DB * bool :=
  match find_session id b with
  | None => (b, false)
  | Some _ =>
      if negb (isLoaded b) && (beq message (str "userinactive") || beq message (str "useractive")) then (b, true)
      else if isUnloading ev b && (starts_with (str "textinput ") message || starts_with (str "mouse ") message
                                   || starts_with (str "key ") message) then (b, true)
      else if db_kitSocket b then (output (ToKit (str "child-" ++ id ++ str " " ++ message)) b, true)
      else (b, false)
  end.

Definition stop (reason : bytes) (b : DB) : DB :=
  let b := if (length (db_closeReason b) =? 0)%nat || beq (db_closeReason b) reason
           then b <| db_closeReason := reason |> else b in
  b <| db_stop := true |>.

(** ** Activities *)

Definition startActivityB (a : Activity) (b : DB) : DB * bool :=
  let '(d, started) := startActivity a (db_docState b) in (b <| db_docState := d |>, started).
Definition endActivityB (b : DB) : DB := b <| db_docState ::= endActivity |>.

Definition endRenameFileCommand (b : DB) : DB :=
  endActivityB (unblockUI (b <| db_renameSessionId := [] |> <| db_renameFilename := [] |>)).
Definition endSwitchingToOffline (b : DB) : DB := endActivityB (unblockUI b).

(** [switchToOffline]; the table of WASM modes and the first session's URI are not
    modelled. *)
Definition switchToOffline (b : DB) : DB :=
  let b := endActivityB b in
  let b := b <| db_docState ::= markToDestroy |> in
  match db_sessions b with [] => b | s :: _ => sendTextFrame (se_id s) (str "reload") b end.

(** ** Requesting a save *)

Definition setModified (value : bool) (b : DB) : DB := b <| db_isModified := value |>.

(** Is the save done in the background? *)
Definition MaxFailureCountForBackgroundSaving : nat := 2.
Definition save_background (isAutosave finalWrite : bool) (b : DB) : bool :=
  let backgroundConfigured :=
    (isAutosave && cf_backgroundAutoSave (db_config b)) || cf_backgroundManualSave (db_config b) in
  let canBackground := cf_forceBackgroundEnv (db_config b) || (negb finalWrite && backgroundConfigured) in
  canBackground && lastSaveSuccessful (db_saveManager b)
  && (saveFailureCount (db_saveManager b) <? MaxFailureCountForBackgroundSaving)%nat.

Definition save_command (dontTerminateEdit dontSaveIfUnmodified background : bool) : bytes :=
  let arg name value := quote name ++ str " : { " ++ quote (str "type") ++ str ":" ++ quote (str "boolean")
                        ++ str ", " ++ quote (str "value") ++ str ":" ++ value ++ str " }" in
  str "save background=" ++ (if background then str "true " else str " ")
  ++ str "{" ++ arg (str "DontTerminateEdit") (bool_text dontTerminateEdit)
  ++ (if dontSaveIfUnmodified then str "," ++ arg (str "DontSaveIfUnmodified") (str "true") else [])
  ++ str "}".

Definition sendUnoSave (ev : Env) (id : bytes) (dontTerminateEdit dontSaveIfUnmodified isAutosave finalWrite : bool)
    (extendedData : bytes) (b : DB) : DB * bool :=
  let b := b <| db_saveManager ::= setLastModifiedLocalTime 0 |> in
  let background := save_background isAutosave finalWrite b in
  let dontTerminateEdit := dontTerminateEdit && negb background in
  let b := b <| db_nextStorageAttrs ::= fun a =>
                  a <| at_isUserModified := db_isModified b || haveModifyActivityAfterSaveRequest b |>
                    <| at_isAutosave := isAutosave |> <| at_extendedData := extendedData |> |> in
  let '(b, sent) := forwardToChild ev id (save_command dontTerminateEdit dontSaveIfUnmodified background) b in
  if sent then
    let b := b <| db_saveManager ::= markLastSaveRequestTime (ev_now ev) |> in
    (if bool_decide (activity b = Activity_None) then (startActivityB Save b).1 else b, true)
  else (b, false).

Definition manualSave (ev : Env) (id : bytes) (dontTerminateEdit dontSaveIfUnmodified : bool)
    (extendedData : bytes) (b : DB) : DB * bool :=
  if bool_decide (activity b = Save) then (b, false)
  else sendUnoSave ev id dontTerminateEdit dontSaveIfUnmodified false false extendedData b.

(** The session an automatic save uses. *)
Definition autosave_session (b : DB) : option Session :=
  match find_session (db_lastEditingSessionId b) b with
  | Some s => if isEditable s && isViewLoaded s then Some s else getWriteableSession b
  | None => getWriteableSession b
  end.

(** Is a timed save of a modified document due? *)
Definition autosave_due (now : Z) (b : DB) : bool :=
  let sm := db_saveManager b in
  let inactivityTime := to_ms (now - db_lastActivityTime b) in
  let timeSinceLastSave :=
    Z.min (timeSinceLastSaveRequest now sm) (timeSinceLastUploadResponse now (db_storageManager b)) in
  let save := isIdleSaveEnabled sm && (sm_idleSaveInterval sm <=? inactivityTime)
              && (sm_idleSaveInterval sm <=? timeSinceLastSave) in
  save || (isAutoSaveEnabled sm && (sm_autoSaveInterval sm <=? timeSinceLastSave)).

Definition autoSave (ev : Env) (force dontSaveIfUnmodified finalWrite : bool) (b : DB) : DB * bool :=
  if bool_decide (activity b = Save) then (b, true)
  else
    let b := b <| db_saveManager ::= autoSaveChecked (ev_now ev) |> in
    if negb (bool_decide (canSaveToDisk b = CanSave_Yes)) then (b, false)
    else if negb (db_isModified b) && negb force then (b, false)
    else match autosave_session b with
    | None => (b, false)
    | Some s =>
        if force then sendUnoSave ev (se_id s) true dontSaveIfUnmodified false finalWrite [] b
        else if db_isModified b && autosave_due (ev_now ev) b
             then sendUnoSave ev (se_id s) true true true finalWrite [] b
             else (b, false)
    end.

(** ** Uploading *)

Definition reportUploadToStorageFailed (b : DB) : DB :=
  match db_uploadRequest b with
  | None => b
  | Some u => sendTextFrame (up_session u)
      (str "error: cmd=storage kind=" ++ if up_isRename u then str "renamefailed" else str "savefailed") b
  end.

Definition setUploadComplete (b : DB) : DB :=
  b <| db_uploadRequest ::= fmap (fun u => u <| up_completed := true |>) |>.

(** The callback of an upload, for the states without a result: running, and
    failed to start or to connect. *)
Definition uploadCallback_incomplete (ev : Env) (a : AsyncUpload) (b : DB) : DB :=
  match db_uploadRequest b with
  | None => b
  | Some _ =>
      if bool_decide (au_state a = State_Running) then b
      else
        let b := setUploadComplete b in
        let b := broadcastSaveResult false (str "Could not upload document to storage") (ur_reason (au_result a)) b in
        let b := b <| db_storageManager ::= setLastUploadResult (ev_now ev) false |> in
        match activity b with
        | Rename =>
            let renameSessionId := db_renameSessionId b in
            sendTextFrame renameSessionId (str "error: cmd=renamefile kind=failed") (endRenameFileCommand b)
        | SwitchingToOffline => endSwitchingToOffline b
        | _ => reportUploadToStorageFailed b
        end
  end.

(** The attributes an upload is made with. *)
Definition upload_attributes (ev : Env) (force : bool) (b : DB) : Attributes :=
  let attrs := db_currentStorageAttrs b <| at_isExitSave := isUnloading ev b |> in
  if force then attrs <| at_forced := true |> else attrs.

(** Recording the request. *)
Definition prepare_upload (ev : Env) (request : UploadRequest) (attrs : Attributes) (b : DB) : DB :=
  b <| db_uploadRequest := Some request |>
    <| db_lastStorageAttrs := attrs |> <| db_currentStorageAttrs := Attributes_reset |>
    <| db_nextStorageAttrs := Attributes_reset |>
    <| db_storageManager ::= markLastUploadRequestTime (ev_now ev) |>.

(** Handing it to the storage, which calls back before it returns. *)
Definition start_upload (ev : Env) (up : UploadStart) (b : DB) : DB :=
  let b := uploadCallback_incomplete ev (us_callback up) (b <| db_storage := Some (us_storage up) |>) in
  let b := match us_request up with Some r => output (ToStorage r) b | None => b end in
  b <| db_storageManager ::= fun m => m <| sg_sizeAsUploaded := us_size up |> |>.

Definition uploadToStorageInternal (ev : Env) (id saveAsPath saveAsFilename : bytes)
    (isRename isExport force : bool) (b : DB) : DB :=
  match find_session id b with
  | None => b
  | Some session =>
      if negb (isEditable session) then b
      else match db_storage b with
      | None => b
      | Some storage =>
          let isSaveAs := negb (length saveAsPath =? 0)%nat in
          let uri := if isSaveAs then saveAsPath else se_uri session in
          let newFileModifiedTime := modifiedTimepoint (db_files b) (getRootFilePathUploading storage) in
          let request := UploadRequest_new uri newFileModifiedTime id isSaveAs isExport isRename in
          let attrs := upload_attributes ev force b in
          start_upload ev
            (uploadLocalFileToStorageAsync (cf_utf7 (db_config b)) storage (db_files b) (db_lockCtx b)
               saveAsPath saveAsFilename isRename attrs (ev_connects ev))
            (prepare_upload ev request attrs b)
      end
  end.

Definition uploadToStorage (ev : Env) (id : bytes) (force : bool) (b : DB) : DB :=
  if force || lastUploadSuccessful (db_storageManager b)
     || canUploadNow (ev_now ev) (isUnloading ev b) (db_storageManager b)
  then uploadToStorageInternal ev id [] [] false false force b
  else b.

Definition uploadAsToStorage (ev : Env) (id uploadAsPath uploadAsFilename : bytes) (isRename isExport : bool) (b : DB) : DB :=
  uploadToStorageInternal ev id uploadAsPath uploadAsFilename isRename isExport false b.

Definition rename_to_uploading (b : DB) : DB :=
  match db_storage b with
  | None => b
  | Some s => b <| db_files ::= fun fs => rename_file fs (getRootFilePathToUpload s) (getRootFilePathUploading s) |>
  end.

Definition uploadAfterLoadingTemplate (ev : Env) (id : bytes) (b : DB) : DB :=
  uploadToStorage ev id false (rename_to_uploading b).

(** In [handleSaveResponse] and after an upload: do the rename, if its session is
    still there. *)
Definition upload_rename (ev : Env) (b : DB) : DB :=
  match find_session (db_renameSessionId b) b with
  | None => endRenameFileCommand (broadcastSaveResult false (str "Renaming session not found") [] b)
  | Some s => uploadToStorageInternal ev (se_id s) [] (db_renameFilename b) true false false b
  end.

(** ** Locks *)

(** [ClientSession::setReadOnly] tells the client. *)
Definition perm_message (readOnly : bool) : bytes := str "perm: " ++ if readOnly then str "readonly" else str "edit".
Definition setReadOnly (id : bytes) (value : bool) (b : DB) : DB :=
  sendTextFrame id (perm_message value) (update_session id (fun s => s <| se_isReadOnly := value |>) b).

(** [Session::setWritable] of a session in the document: the virtual [setReadOnly] is
    the client session's, which tells the client. *)
Definition setWritableB (id : bytes) (writable : bool) (b : DB) : DB :=
  let b := update_session id (setWritable writable) b in
  if writable then b else sendTextFrame id (perm_message true) b.

Definition setLockFailed (id reason : bytes) (b : DB) : DB :=
  let b := update_session id (fun s => s <| se_isLockFailed := true |>) b in
  sendTextFrame id (str "lockfailed:" ++ reason) (setReadOnly id true b).

Definition handleLockResult (ev : Env) (id : bytes) (result : LockUpdateResult) (b : DB) : DB * bool :=
  let requestedLock := lr_requestedLockState result in
  let failed b := if bool_decide (requestedLock = LOCK) then setLockFailed id (lr_reason result) b else b in
  match lr_status result with
  | Lock_UNSUPPORTED => (b, true)
  | Lock_OK => (b <| db_lockCtx ::= setLockState (ev_now ev) requestedLock |>, true)
  | Lock_UNAUTHORIZED => (failed (update_session id invalidateAuthorizationToken b), false)
  | Lock_FAILED => (failed b, false)
  end.

Definition updateStorageLockState (ev : Env) (id : bytes) (lock : LockState) (b : DB) : DB * bool :=
  match find_session id b with
  | None => (b, false)
  | Some s =>
      if se_authExpired s then (b, false)
      else if bool_decide (lock = LOCK) && se_isReadOnly s then (b, false)
      else if negb (bool_decide (is_Some (db_storage b))) then (b, false)
      else handleLockResult ev id
             {| lr_reason := ev_lockReason ev; lr_status := ev_lockStatus ev; lr_requestedLockState := lock |}
             (output (LockRequest id lock) b)
  end.

Definition lockIfEditing (ev : Env) (id : bytes) (b : DB) : DB :=
  if negb (lc_supportsLocks (db_lockCtx b)) || isLocked (db_lockCtx b) then b
  else match find_session id b with
  | None => b
  | Some s =>
      if se_isReadOnly s then b
      else
        let '(b, locked) := updateStorageLockState ev id LOCK b in
        if locked then b else setWritableB id false b
  end.

(** ** Removing sessions *)

Definition failLoadingSessions (remove : bool) (b : DB) : DB :=
  let rejected s := isSessionLoading s && negb (se_isCloseFrame s) in
  let b := b <| db_out ::= fun l => l ++
             map (fun s => ToClient (se_id s) (str "error: cmd=load kind=docunloading"))
                 (rev (List.filter rejected (db_sessions b))) |> in
  if remove then b <| db_sessions ::= List.filter (fun s => negb (rejected s)) |> else b.

(** [ClientSession::disconnectFromKit]. *)
Definition disconnectFromKit (ev : Env) (id : bytes) (b : DB) : DB * bool :=
  match find_session id b with
  | None => (b, true)
  | Some s =>
      if bool_decide (se_state s = LIVE) || bool_decide (se_state s = LOADING) then
        ((forwardToChild ev id (str "disconnect") (update_session id (setState WAIT_DISCONNECT) b)).1, false)
      else (b, true)
  end.

(** [finalRemoveSession], without the disposal of the session object. *)
Definition finalRemoveSession (id : bytes) (b : DB) : DB := erase_session id b.

Definition disconnectSessionInternal (ev : Env) (id : bytes) (b : DB) : DB :=
  let b := if ds_unloadRequested (db_docState b) then b <| db_docState ::= markToDestroy |> else b in
  match find_session id b with
  | None => b
  | Some session =>
      let lastEditableSession := isEditable session && negb (haveAnotherEditableSession id b) in
      let b := if lastEditableSession && isLocked (db_lockCtx b) && bool_decide (is_Some (db_storage b))
               then (updateStorageLockState ev id UNLOCK b).1 else b in
      if inWaitDisconnected session then finalRemoveSession id b
      else
        let '(b, hardDisconnect) := disconnectFromKit ev id b in
        let b := if (length (db_sessions b) =? countLoadingSessions b + 1)%nat
                 then failLoadingSessions true b else b in
        let b := if negb (isLoaded b) && (length (db_sessions b) <=? 1)%nat
                 then stop (str "Disconnected before loading") (if 0 <? db_pid b then output TerminateKit b else b)
                 else b in
        if hardDisconnect then finalRemoveSession id b else b
  end.

(** The loop over the sessions that closed their socket: a session erased on the
    way is not visited. *)
Fixpoint disconnect_closed (ev : Env) (ids : list bytes) (b : DB) : DB :=
  match ids with
  | [] => b
  | id :: ids' =>
      let b := match find_session id b with
               | Some s => if se_isCloseFrame s && negb (inWaitDisconnected s)
                           then disconnectSessionInternal ev id b else b
               | None => b
               end in
      disconnect_closed ev ids' b
  end.
Definition disconnectClosedSessions (ev : Env) (b : DB) : DB := disconnect_closed ev (map se_id (db_sessions b)) b.

(** ** The result of an upload *)

Definition handleDocumentConflict (b : DB) : DB :=
  let b := b <| db_documentChangedInStorage := true |> in
  let message :=
    if at_isUserModified (db_lastStorageAttrs b) || at_isUserModified (db_currentStorageAttrs b) || isPossiblyModified b
    then str "error: cmd=storage kind=documentconflict" else str "close: documentconflict" in
  let activeClients := length (open_sessions b) in
  let b := broadcastMessage message b in
  if (activeClients =? 0)%nat then stop (str "conflict") b else b.

(** Everyone becomes read-only and is told why. *)
Definition make_readonly (error : bytes) (b : DB) : DB :=
  b <| db_out ::= fun l => l ++ concat (map (fun s => [ToClient (se_id s) (perm_message true); ToClient (se_id s) error])
                                            (open_sessions b)) |>
    <| db_sessions ::= map (setWritable false) |>.

(** The reaction to each result. *)
Definition react_to_failure (r : UploadResult) (b : DB) : DB :=
  match ur_result r with
  | TOO_LARGE =>
      broadcastSaveResult false (str "Too large") (ur_reason r)
        (make_readonly (str "error: cmd=storage kind=savetoolarge") b)
  | DISKFULL =>
      broadcastSaveResult false (str "Disk full") (ur_reason r)
        (make_readonly (str "error: cmd=storage kind=savediskfull") b)
  | UNAUTHORIZED =>
      let id := from_option up_session [] (db_uploadRequest b) in
      broadcastSaveResult false (str "Invalid or expired access token") []
        (update_session id invalidateAuthorizationToken
           (sendTextFrame id (str "error: cmd=storage kind=saveunauthorized") b))
  | FAILED =>
      let b := (startActivityB SyncFileTimestamp (endActivityB b)).1 in
      broadcastSaveResult false (str "Save failed") (ur_reason r) (reportUploadToStorageFailed b)
  | DOC_CHANGED | CONFLICT =>
      handleDocumentConflict (broadcastSaveResult false (str "Conflict: Document changed in storage") (ur_reason r) b)
  | OK => b
  end.

Definition handleUploadToStorageFailed (r : UploadResult) (b : DB) : DB :=
  let b :=
    if bool_decide (activity b = Rename) then
      let id := db_renameSessionId b in
      sendTextFrame id (str "error: cmd=renamefile kind=failed") (endRenameFileCommand b)
    else b in
  let b := react_to_failure r b in
  b <| db_currentStorageAttrs ::= fun a => attr_merge a (db_lastStorageAttrs b) |>
    <| db_lastStorageAttrs := Attributes_reset |>.

(** From the last dot on; [None]: [substr] of [npos] throws. *)
Fixpoint from_last_dot (s : bytes) : option bytes :=
  match s with
  | [] => None
  | c :: s' => match from_last_dot s' with
               | Some e => Some e
               | None => if c =? 46 then Some s else None
               end
  end.
Definition strcasecmp_eq (a b : bytes) : bool := beq (toLower a) (toLower b).

(** After PutFile. *)
Definition upload_stored (ev : Env) (u : UploadRequest) (b : DB) : DB :=
  let b := b <| db_saveManager ::= setLastModifiedLocalTime (up_newFileModifiedLocalTime u) |> in
  let b := b <| db_storageManager ::= fun m =>
                 m <| sg_lastModifiedServerTimeString := from_option st_modifiedTime [] (db_storage b) |>
                   <| sg_lastUploadedFileModifiedLocalTime := up_newFileModifiedLocalTime u |> |> in
  let b := b <| db_documentChangedInStorage := false |> <| db_lastStorageAttrs := Attributes_reset |> in
  match activity b with
  | Rename => upload_rename ev b
  | SwitchingToOffline => switchToOffline b
  | _ => b
  end.

(** After RenameFile. *)
Definition upload_renamed (r : UploadResult) (b : DB) : DB :=
  let cfg := db_config b in
  let b := endRenameFileCommand b in
  broadcastMessage (str "close: reloadafterrename")
    (broadcastMessage (str "renamefile: filename=" ++ cf_encode cfg (ur_saveAsName r) ++ str " url="
                       ++ cf_uriWithoutToken cfg (ur_saveAsUrl r)) b).

(** After PutRelativeFile. *)
Definition upload_savedAs (u : UploadRequest) (r : UploadResult) (b : DB) : DB * result unit :=
  let cfg := db_config b in
  match find_session (up_session u) b with
  | None => (b, Ok tt)
  | Some session =>
      let msg := (if up_isExport u then str "exportas:" else str "saveas:") ++ str " url="
                 ++ cf_normalizedUri cfg (ur_saveAsUrl r) ++ str " filename=" ++ cf_encode cfg (ur_saveAsName r)
                 ++ str " xfilename=" ++ ur_saveAsName r in
      let b := sendTextFrame (up_session u) msg b in
      match from_last_dot (cf_filename cfg) with
      | None => (b, Throw out_of_range)
      | Some ext =>
          if strcasecmp_eq ext (str ".csv") || strcasecmp_eq ext (str ".txt") then
            (broadcastMessageToOthers (str "warn: " ++ msg ++ str " username=" ++ se_userName session) (up_session u) b, Ok tt)
          else (b, Ok tt)
      end
  end.

(** What follows a successful upload of any kind. *)
Definition after_upload (ev : Env) (b : DB) : DB :=
  let b := broadcastLastModificationTime b in
  let b := if ds_unloadRequested (db_docState b) then b <| db_docState ::= markToDestroy |> else b in
  let b := if (isMarkedToDestroy (db_docState b) || (length (db_sessions b) =? 0)%nat) && negb (isPossiblyModified b)
           then stop (str "unloading") b else b in
  disconnectClosedSessions ev b.

Definition handleUploadToStorageSuccessful (ev : Env) (r : UploadResult) (b : DB) : DB * result unit :=
  match db_uploadRequest b with
  | None => (b, Ok tt)
  | Some u =>
      let '(b, res) :=
        if negb (up_isSaveAs u) && negb (up_isRename u) then (upload_stored ev u b, Ok tt)
        else if up_isRename u then (upload_renamed r b, Ok tt)
        else upload_savedAs u r b in
      match res with
      | Throw e => (b, Throw e)
      | Ok _ => (after_upload ev b, Ok tt)
      end
  end.

Definition handleUploadToStorageResponse (ev : Env) (r : UploadResult) (b : DB) : DB * result unit :=
  let ok := bool_decide (ur_result r = OK) in
  let b := b <| db_storageManager ::= setLastUploadResult (ev_now ev) ok |> in
  if ok then handleUploadToStorageSuccessful ev r b else (handleUploadToStorageFailed r b, Ok tt).

(** The whole callback. *)
Definition asyncUploadCallback (ev : Env) (a : AsyncUpload) (b : DB) : DB * result unit :=
  match db_uploadRequest b with
  | None => (b, Ok tt)
  | Some _ =>
      if bool_decide (au_state a = State_Complete)
      then handleUploadToStorageResponse ev (au_result a) (setUploadComplete b)
      else (uploadCallback_incomplete ev a b, Ok tt)
  end.
