(* ===== verification/DocumentPoll.v ===== *)
(** * The document broker: requests and the poll loop

    Models the handlers of [wsd/DocumentBroker.cpp] that start the work of
    [DocumentSave]: the answer of a save, renaming, switching to offline, the
    re-synchronization of the timestamp, removing a session, closing, the
    activity switch of [pollThread] and the detection of data loss at its end. *)

From S2P Require Import Prelude RecordSet Util Protocol Storage SaveManager DocumentSave.

Open Scope cool_scope.
Open Scope record_scope.

(** ** After a save *)

(** The end of [checkAndUploadToStorage], once the activity is dealt with;
    [needToUpload] was read at its start. *)
Definition upload_if_needed (ev : Env) (id : bytes) (justSaved needToUpload : bool) (b : DB) : DB :=
  let modified :=
    if justSaved then haveModifyActivityAfterSaveRequest b
    else negb (bool_decide (needToSaveToDisk b = NeedToSave_No)) in
  if modified && isUnloading ev b then b
  else if needToUpload then uploadToStorage ev id false b
  else if negb (isAsyncUploading b) then disconnectClosedSessions ev b
  else b.

Definition checkAndUploadToStorage (ev : Env) (id : bytes) (justSaved : bool) (b : DB) : DB :=
  let needToUpload := needToUploadToStorage ev b in
  match activity b with
  | Rename => if negb needToUpload then upload_rename ev b else upload_if_needed ev id justSaved needToUpload b
  | Save => upload_if_needed ev id justSaved needToUpload (endActivityB b)
  | SwitchingToOffline =>
      if negb needToUpload then switchToOffline b else upload_if_needed ev id justSaved needToUpload b
  | _ => upload_if_needed ev id justSaved needToUpload b
  end.

(** What is read from the JSON of the answer. *)
Record SaveResponse := {
  sr_success : bool;
  sr_result : bytes;               (* empty when missing or not a string *)
  sr_wasModified : option bool }.

Definition handleSaveResponse (ev : Env) (id : bytes) (json : SaveResponse) (b : DB) : DB :=
  let success := sr_success json in
  let unmodified := beq (sr_result json) (str "unmodified") in
  let b := match sr_wasModified json with
           | Some m => b <| db_nextStorageAttrs ::= fun a => a <| at_isUserModified := m |> |>
           | None => b
           end in
  let b := b <| db_currentStorageAttrs ::= fun a => attr_merge a (db_nextStorageAttrs b) |>
             <| db_nextStorageAttrs := Attributes_reset |> in
  let b := b <| db_saveManager ::= setLastSaveResult (ev_now ev) (success || unmodified) success |> in
  let b := rename_to_uploading b in
  let b := if negb success && negb unmodified
           then broadcastSaveResult false (str "Could not save the document") []
                  (sendTextFrame id (str "error: cmd=storage kind=savefailed") b)
           else b in
  checkAndUploadToStorage ev id (success || unmodified) b.

(** ** Rename and offline *)

Definition startRenameFileCommand (ev : Env) (b : DB) : DB :=
  if (length (db_renameSessionId b) =? 0)%nat || (length (db_renameFilename b) =? 0)%nat then b
  else
    let '(b, started) := startActivityB Rename b in
    if negb started then b
    else
      let b := blockUI (str "rename") b in
      match find_session (db_renameSessionId b) b with
      | None => endRenameFileCommand (broadcastSaveResult false (str "Renaming session not found") [] b)
      | Some s => (sendUnoSave ev (se_id s) false true false true [] b).1
      end.

(** [handleRenameFileCommand], with the error for the client. *)
Definition handleRenameFileCommand (ev : Env) (sessionId newFilename : bytes) (b : DB) : DB * bytes :=
  if (length newFilename =? 0)%nat then (b, str "error: cmd=renamefile kind=invalid")
  else if bool_decide (activity b = Rename) && negb (beq (db_renameFilename b) newFilename)
  then (b, str "error: cmd=renamefile kind=conflict")
  else
    let b := b <| db_renameFilename := newFilename |> <| db_renameSessionId := sessionId |> in
    (if bool_decide (activity b = Activity_None) then startRenameFileCommand ev b else b, []).

Definition startSwitchingToOffline (ev : Env) (id : bytes) (b : DB) : DB :=
  if negb (bool_decide (activity b = Activity_None)) then b
  else
    let '(b, started) := startActivityB SwitchingToOffline b in
    if negb started then b
    else (sendUnoSave ev id false true false true [] (blockUI (str "switchingtooffline") b)).1.

Definition startSwitchingToOnline (b : DB) : DB :=
  if negb (bool_decide (activity b = Activity_None)) then b
  else
    let '(b, started) := startActivityB SwitchingToOnline b in
    if negb started then b else blockUI (str "switchingtoonline") b.

Definition switchMode (ev : Env) (id mode : bytes) (b : DB) : DB :=
  if beq mode (str "online") then startSwitchingToOnline b
  else if beq mode (str "offline") then
    if (1 <? length (db_sessions b))%nat then sendTextFrame id (str "error: cmd=switch kind=multiviews") b
    else startSwitchingToOffline ev id b
  else b.

(** ** Synchronizing the timestamp after a failed upload *)

Definition checkFileInfo (ev : Env) (id : bytes) (b : DB) : DB :=
  match db_checkFileInfo b with
  | Some _ => b
  | None => if ev_cfiStarts ev then output (CheckFileInfoRequest id) (b <| db_checkFileInfo := Some id |>) else b
  end.

(** The state of [CheckFileInfo] when it completes; with [Pass], the
    [LastModifiedTime] and [Size] of the host's answer, if it parsed. *)
Inductive CheckFileInfoState :=
| Pass (info : option (bytes * Z))
| CFI_Unauthorized
| CFI_Timedout
| CFI_Fail.

Definition storage_unsafe (b : DB) : DB := b <| db_storage ::= fmap setLastModifiedTimeUnSafe |>.

(** The continuation of [checkFileInfo]. *)
Definition checkFileInfo_done (state : CheckFileInfoState) (b : DB) : DB :=
  match db_checkFileInfo b with
  | None => b
  | Some id =>
      let b := endActivityB b in
      match state with
      | Pass (Some (lastModifiedTime, size)) =>
          if (sg_sizeAsUploaded (db_storageManager b) =? size) || negb (sg_sizeOnServer (db_storageManager b) =? 0) then
            b <| db_storage ::= fmap (setLastModifiedTime lastModifiedTime) |>
              <| db_storageManager ::= fun m => m <| sg_lastModifiedServerTimeString := lastModifiedTime |> |>
          else handleDocumentConflict b
      | CFI_Unauthorized => update_session id invalidateAuthorizationToken (storage_unsafe b)
      | _ => storage_unsafe b
      end
  end.

(** ** Unloading *)

Definition removeSession (ev : Env) (id : bytes) (b : DB) : DB :=
  match find_session id b with
  | None => b
  | Some session =>
      let activeSessionCount := countActiveSessions b in
      let lastEditableSession := isEditable session && negb (haveAnotherEditableSession id b) in
      let b := if (activeSessionCount <=? 1)%nat
               then (forwardToChild ev id (str "getclipboard name=shutdown") b).1 else b in
      let b :=
        if negb lastEditableSession then disconnectSessionInternal ev id b
        else if negb (isSaving (db_saveManager b)) then
          let '(b, saving) := autoSave ev (cf_alwaysSaveOnExit (db_config b) || isPossiblyModified b) true true b in
          if saving then b else disconnectSessionInternal ev id b
        else b in
      if (activeSessionCount <=? 1)%nat then
        if isSaving (db_saveManager b) || isAsyncUploading b then b <| db_docState ::= setUnloadRequested |>
        else if (length (db_sessions b) =? 0)%nat then b <| db_docState ::= markToDestroy |>
        else b
      else b
  end.

Definition closeDocument (reason : bytes) (b : DB) : DB :=
  let b := b <| db_docState ::= setCloseRequested |> <| db_closeReason := reason |> in
  if db_documentChangedInStorage b then stop reason b else b.

Definition disconnectedFromKit (unexpected : bool) (b : DB) : DB :=
  let b := b <| db_docState ::= setKitDisconnected (if unexpected then Unexpected else Normal) |> in
  let b := if (length (db_closeReason b) =? 0)%nat then closeDocument (str "docdisconnected") b else b in
  failLoadingSessions false b.

Definition setLoaded (now : Z) (b : DB) : DB :=
  if isLoaded b then b
  else
    let loadDuration := to_ms (now - db_createTime b) in
    let minTimeoutSecs := Z.quot (loadDuration * 4 + 500) 1000 in
    b <| db_docState ::= setLive |> <| db_saveManager ::= setSavingTimeout (Z.max minTimeoutSecs 5) |>.

(** The stop conditions of [autoSaveAndStop], read before it saves: [None] when it
    returns to wait for the modified flag. *)
Definition can_stop (ev : Env) (b : DB) : option bool :=
  let needToSave := negb (bool_decide (needToSaveToDisk b = NeedToSave_No)) in
  let needToUpload := needToUploadToStorage ev b in
  let canStop := negb needToSave && negb needToUpload in
  let canStop :=
    if negb canStop && negb needToSave && negb (isStorageOutdated b) then
      if cf_alwaysSaveOnExit (db_config b) && negb (lastUploadSuccessful (db_storageManager b)) then
        (0 <? cf_limStoreFailures (db_config b))
        && (cf_limStoreFailures (db_config b) <=? Z.of_nat (uploadFailureCount (db_storageManager b)))
      else true
    else canStop in
  let canStop :=
    if negb canStop && needToSave && negb (bool_decide (canSaveToDisk b = CanSave_Yes)) then true else canStop in
  if negb canStop && negb needToUpload then
    if negb (haveModifyActivityAfterSaveRequest b) && lastSaveSuccessful (db_saveManager b) then
      if db_isModified b && (timeSinceLastSaveResponse (ev_now ev) (db_saveManager b) <? 2000) then None
      else Some true
    else if negb needToSave then Some true
    else Some canStop
  else Some canStop.

Definition autoSaveAndStop (ev : Env) (reason : bytes) (b : DB) : DB :=
  if isSaving (db_saveManager b) || isAsyncUploading b then b
  else match can_stop ev b with
  | None => b
  | Some true => stop reason b
  | Some false =>
      if canSaveNow (ev_now ev) (isUnloading ev b) (db_saveManager b) then
        let '(b, saving) := autoSave ev (isPossiblyModified b || negb (lastSaveSuccessful (db_saveManager b))) true true b in
        if saving then b
        else match getWriteableSession b with
        | Some session =>
            if negb (se_authExpired session) then checkAndUploadToStorage ev (se_id session) false b
            else stop reason b
        | None => stop reason b
        end
      else b
  end.

(** ** The poll loop *)

(** Too many failures to go on. *)
Definition store_failed (b : DB) : bool :=
  (0 <? cf_limStoreFailures (db_config b))
  && ((cf_limStoreFailures (db_config b) <=? Z.of_nat (saveFailureCount (db_saveManager b)))
      || (cf_limStoreFailures (db_config b) <=? Z.of_nat (uploadFailureCount (db_storageManager b)))).

(** [Activity::None], after the completed requests are reset. *)
Definition poll_idle (ev : Env) (b : DB) : DB :=
  let now := ev_now ev in
  if negb (length (db_renameFilename b) =? 0)%nat && negb (length (db_renameSessionId b) =? 0)%nat
  then startRenameFileCommand ev b
  else if isLoaded b && (1000 * cf_idleDocTimeoutSecs (db_config b) <=? to_ms (now - db_lastActivityTime b))
  then autoSaveAndStop ev (str "idle") b
  else if (length (db_sessions b) =? 0)%nat && (isLoaded b || isMarkedToDestroy (db_docState b)) then
    if negb (isLoaded b) then autoSaveAndStop ev (str "dead") (stop (str "dead") b)
    else if isSaving (db_saveManager b) || isAsyncUploading b then b
    else autoSaveAndStop ev (str "dead") b
  else if cf_indirectionServerEnabled (db_config b) && ev_shutdownRequestFlag ev && negb (db_migrateMsgReceived b) then
    if negb (db_waitingForMigrationMsg b) then
      b <| db_migrationMsgStartTime := now |> <| db_waitingForMigrationMsg := true |>
    else if cf_migrationMsgTimeout (db_config b) <? Z.quot (now - db_migrationMsgStartTime b) 1000 then
      b <| db_migrateMsgReceived := true |>
    else b
  else if ds_unloadRequested (db_docState b) || ev_shutdownRequestFlag ev || ds_closeRequested (db_docState b) then
    if store_failed b then stop (str "storefailed") b
    else autoSaveAndStop ev
           (if ev_shutdownRequestFlag ev then str "recycling"
            else if negb (length (db_closeReason b) =? 0)%nat then db_closeReason b else str "unloading") b
  else if negb (db_stop b) && needAutoSaveCheck now (db_saveManager b) then (autoSave ev false true false b).1
  else if negb (isAsyncUploading b) && negb (lastUploadSuccessful (db_storageManager b)) && needToUploadToStorage ev b then
    match getWriteableSession b with
    | Some session => if negb (se_authExpired session) then checkAndUploadToStorage ev (se_id session) false b else b
    | None => b
    end
  else b.

Definition poll_activity (ev : Env) (b : DB) : DB :=
  match activity b with
  | Activity_None =>
      let b := b <| db_checkFileInfo := None |> in
      let b := if from_option up_completed false (db_uploadRequest b) then b <| db_uploadRequest := None |> else b in
      poll_idle ev b
  | Save | SaveAs =>
      if isKitDisconnected (db_docState b) || hasSavingTimedOut (ev_now ev) (db_saveManager b) then
        endActivityB (b <| db_saveManager ::= setLastSaveResult (ev_now ev) false false |>)
      else b
  | SyncFileTimestamp =>
      match db_checkFileInfo b with
      | Some _ => b
      | None =>
          match getFirstAuthorizedSession b with
          | None => endActivityB (storage_unsafe b)
          | Some session => checkFileInfo ev (se_id session) b
          end
      end
  | _ => b <| db_saveManager ::= postponeAutosave (ev_now ev) 30 |>
  end.

(** A round of the poll loop, after the sockets were served: while the kit has a dialog
    open before the document is loaded, the loop goes on without looking at anything
    else, and stops only if the document is being unloaded. *)
Definition poll_round (ev : Env) (b : DB) : DB :=
  if db_stop b then b
  else if ds_interactive (db_docState b) then
    if isUnloading ev b then stop (str "abortedinteractive") b else b
  else poll_activity ev b.

(** The data-loss check after the loop: the reason, if there is one. *)
Definition dataLoss (b : DB) : option bytes :=
  if haveModifyActivityAfterSaveRequest b || negb (lastSaveSuccessful (db_saveManager b))
     || negb (lastUploadSuccessful (db_storageManager b)) || isStorageOutdated b then
    if ds_closeRequested (db_docState b) && db_documentChangedInStorage b then None
    else if haveModifyActivityAfterSaveRequest b then Some (str "have unsaved modifications")
    else if negb (lastSaveSuccessful (db_saveManager b)) then Some (str "flagged as modified")
    else Some (str "not uploaded to storage")
  else None.

(** ** Events *)

Definition updateLastActivityTime (now : Z) (b : DB) : DB := b <| db_lastActivityTime := now |>.
Definition updateLastModifyingActivityTime (now : Z) (b : DB) : DB := b <| db_lastModifyActivityTime := now |>.
Definition updateEditingSessionId (viewId : bytes) (b : DB) : DB := b <| db_lastEditingSessionId := viewId |>.

Definition setInteractive (value : bool) (b : DB) : DB :=
  b <| db_docState ::= fun d => d <| ds_interactive := value |> |>.

(** [ClientSession] on a [jsdialog:] message of the kit: a dialog for a view that is
    still loading. *)
Definition handleDialog (id : bytes) (b : DB) : DB :=
  match find_session id b with
  | Some s => if bool_decide (se_state s = LOADING) then setInteractive true b else b
  | None => b
  end.

(** [ClientSession] on the [loaded:] message of the kit. *)
Definition handleLoaded (ev : Env) (id : bytes) (isFirst template : bool) (b : DB) : DB :=
  match find_session id b with
  | None => b
  | Some s =>
      if bool_decide (se_state s = LOADING) then
        let b := update_session id (setState LIVE) b in
        let b :=
          if isFirst then
            let b := setLoaded (ev_now ev) (setInteractive false b) in
            if template then uploadAfterLoadingTemplate ev id b else b
          else b in
        lockIfEditing ev id b
      else b
  end.

(** What happens to a broker: input of the clients, answers of the kit and of the
    storage host, sockets closed, and the rounds of the poll loop. *)
Inductive event :=
| Modify                                        (* input that may modify the document *)
| Activity_ (viewId : bytes)                    (* any input of a view *)
| ModifiedStatus (value : bool)
| ManualSave (id : bytes) (dontTerminateEdit dontSaveIfUnmodified : bool) (extendedData : bytes)
| SaveToStorage (id : bytes) (force : bool)
| SavedAs (id path filename : bytes) (isExport : bool)
| RenameFile (id filename : bytes)
| SwitchMode (id mode : bytes)
| KitWrites (time size : Z)                     (* the kit stores the file to upload *)
| SaveAnswer (id : bytes) (json : SaveResponse)
| Loaded (id : bytes) (isFirst template : bool)
| Dialog (id : bytes)                           (* the kit's [jsdialog:] *)
| UploadAnswer (details : WopiUploadDetails) (body : bytes)
| UploadConnectFailed
| CheckFileInfoAnswer (state : CheckFileInfoState)
| CloseFrame (id : bytes)
| RemoveSession (id : bytes)
| DisconnectedSession (id : bytes)              (* the kit's [disconnected:] *)
| CloseDocument (reason : bytes)
| KitGone (unexpected : bool)
| Poll.

Section handle.
Variable parseJSON : bytes -> option WopiObject.

Definition handle (ev : Env) (e : event) (b : DB) : DB :=
  match e with
  | Modify => updateLastModifyingActivityTime (ev_now ev) b
  | Activity_ viewId => updateEditingSessionId viewId (updateLastActivityTime (ev_now ev) b)
  | ModifiedStatus value => setModified value b
  | ManualSave id dontTerminateEdit dontSaveIfUnmodified extendedData =>
      (manualSave ev id dontTerminateEdit dontSaveIfUnmodified extendedData b).1
  | SaveToStorage id force => uploadToStorage ev id force b
  | SavedAs id path filename isExport => uploadAsToStorage ev id path filename false isExport b
  | RenameFile id filename => (handleRenameFileCommand ev id filename b).1
  | SwitchMode id mode => switchMode ev id mode b
  | KitWrites time size =>
      match db_storage b with
      | Some s => b <| db_files ::= <[getRootFilePathToUpload s := (time, size)]> |>
      | None => b
      end
  | SaveAnswer id json => handleSaveResponse ev id json b
  | Loaded id isFirst template => handleLoaded ev id isFirst template b
  | Dialog id => handleDialog id b
  | UploadAnswer details body =>
      match db_storage b with
      | Some s =>
          if st_uploadHttpSession s then
            let '(s, a) := upload_finished parseJSON s details body in
            (asyncUploadCallback ev a (b <| db_storage := Some s |>)).1
          else b
      | None => b
      end
  | UploadConnectFailed =>
      match db_storage b with
      | Some s =>
          if st_uploadHttpSession s then
            let '(s, a) := upload_connect_failed s in
            (asyncUploadCallback ev a (b <| db_storage := Some s |>)).1
          else b
      | None => b
      end
  | CheckFileInfoAnswer state =>
      if bool_decide (activity b = SyncFileTimestamp) then checkFileInfo_done state b else b
  | CloseFrame id => update_session id (fun s => s <| se_isCloseFrame := true |>) b
  | RemoveSession id => removeSession ev id b
  | DisconnectedSession id => finalRemoveSession id b
  | CloseDocument reason => closeDocument reason b
  | KitGone unexpected => disconnectedFromKit unexpected b
  | Poll => poll_round ev b
  end.

Fixpoint run (evs : list (Env * event)) (b : DB) : DB :=
  match evs with
  | [] => b
  | (ev, e) :: evs' => run evs' (handle ev e b)
  end.
End handle.
