(* ===== verification/DocumentSaveSpec.v ===== *)
(** * What the handlers of the broker keep

    Every handler of [DocumentSave] and [DocumentPoll] is framed by [kept]: the
    time of the last modification, the flags that are never reset, the order of
    the phases of a document, and the request manager of saving, which only
    sending a save and its answer change. *)

From S2P Require Import Prelude RecordSet Util Protocol Storage SaveManager DocumentSave DocumentPoll.

Open Scope cool_scope.
Open Scope record_scope.

(** The request tracking of saves. *)
Definition save_request (b : DB) : RequestManager := sm_request (db_saveManager b).

(** The phases in their order; there is nothing after [Destroying]. *)
Definition phase (b : DB) : Z := Z.min (status_index (ds_status (db_docState b))) (status_index Destroying).

Record kept (b b' : DB) : Prop := {
  k_save : save_request b' = save_request b;
  k_modify : db_lastModifyActivityTime b' = db_lastModifyActivityTime b;
  k_size : sg_sizeOnServer (db_storageManager b') = sg_sizeOnServer (db_storageManager b);
  k_out : exists l, db_out b' = db_out b ++ l;
  k_stop : db_stop b = true -> db_stop b' = true;
  k_close : ds_closeRequested (db_docState b) = true -> ds_closeRequested (db_docState b') = true;
  k_loaded : ds_loaded (db_docState b') = ds_loaded (db_docState b);
  k_phase : phase b <= phase b';
  k_activity : activity b' = Save -> activity b = Save;
  k_config : db_config b' = db_config b }.

#[export] Instance kept_preorder : PreOrder kept.
Proof.
  split.
  - intros b. split; try done; try lia. by exists []; rewrite app_nil_r.
  - intros b1 b2 b3 [] []. split; try congruence; [|naive_solver..|lia|naive_solver].
    destruct k_out0 as [l1 E1], k_out1 as [l2 E2]. exists (l1 ++ l2). by rewrite E2, E1, app_assoc.
Qed.

(** Peel updates, calls and case distinctions off a goal [R b (f (g b))] for a
    preorder [R]: [field] proves the step of a field update, [call] that of a call. *)
Ltac peel field call :=
  lazymatch goal with
  | |- ?R ?b ?b => reflexivity
  | |- ?R ?b0 (rset _ _ ?r) => transitivity r; [|field]
  | |- ?R _ (match ?x with _ => _ end) => destruct x eqn:?
  | |- ?R _ ((match ?x with _ => _ end).1) => destruct x eqn:?
  | |- ?R _ ((_, _).1) => cbn [fst]
  | H : ?e = (?x, _) |- ?R _ ?x => replace x with (e.1) by (by rewrite H); clear H
  | |- _ => etransitivity; cycle 1; [solve [call]|]
  end.

Create HintDb kept.

(** An update of one field, by evaluation. *)
Ltac kept_field :=
  split; unfold save_request, phase, activity; cbn;
  first [done | by exists []; rewrite app_nil_r | by eexists | lia | congruence | auto].
Ltac kept_call := solve [auto 1 with kept].
Ltac kept := intros; cbn zeta; repeat (peel kept_field kept_call; cbn zeta).

Lemma kept_output o b : kept b (output o b).
Proof. unfold output. kept. Qed.
#[export] Hint Resolve kept_output : kept.

Lemma kept_update_session id f b : kept b (update_session id f b).
Proof. unfold update_session. kept. Qed.
#[export] Hint Resolve kept_update_session : kept.

Lemma kept_erase_session id b : kept b (erase_session id b).
Proof. unfold erase_session. kept. Qed.
#[export] Hint Resolve kept_erase_session : kept.

Lemma kept_sendTextFrame id msg b : kept b (sendTextFrame id msg b).
Proof. unfold sendTextFrame. kept. Qed.
#[export] Hint Resolve kept_sendTextFrame : kept.

Lemma kept_broadcastMessage msg b : kept b (broadcastMessage msg b).
Proof. unfold broadcastMessage. kept. Qed.
#[export] Hint Resolve kept_broadcastMessage : kept.

Lemma kept_broadcastMessageToOthers msg id b : kept b (broadcastMessageToOthers msg id b).
Proof. unfold broadcastMessageToOthers. kept. Qed.
#[export] Hint Resolve kept_broadcastMessageToOthers : kept.

Lemma kept_broadcastSaveResult success result errorMsg b : kept b (broadcastSaveResult success result errorMsg b).
Proof. unfold broadcastSaveResult. kept. Qed.
#[export] Hint Resolve kept_broadcastSaveResult : kept.

Lemma kept_blockUI msg b : kept b (blockUI msg b).
Proof. unfold blockUI. kept. Qed.
#[export] Hint Resolve kept_blockUI : kept.

Lemma kept_unblockUI  b : kept b (unblockUI b).
Proof. unfold unblockUI. kept. Qed.
#[export] Hint Resolve kept_unblockUI : kept.

Lemma kept_broadcastLastModificationTime  b : kept b (broadcastLastModificationTime b).
Proof. unfold broadcastLastModificationTime. kept. Qed.
#[export] Hint Resolve kept_broadcastLastModificationTime : kept.

Lemma kept_forwardToChild ev id message b : kept b ((forwardToChild ev id message b).1).
Proof. unfold forwardToChild. kept. Qed.
#[export] Hint Resolve kept_forwardToChild : kept.

Lemma kept_stop reason b : kept b (stop reason b).
Proof. unfold stop. kept. Qed.
#[export] Hint Resolve kept_stop : kept.

Lemma kept_endActivityB  b : kept b (endActivityB b).
Proof. unfold endActivityB. kept. Qed.
#[export] Hint Resolve kept_endActivityB : kept.

Lemma kept_endRenameFileCommand  b : kept b (endRenameFileCommand b).
Proof. unfold endRenameFileCommand. kept. Qed.
#[export] Hint Resolve kept_endRenameFileCommand : kept.

Lemma kept_endSwitchingToOffline  b : kept b (endSwitchingToOffline b).
Proof. unfold endSwitchingToOffline. kept. Qed.
#[export] Hint Resolve kept_endSwitchingToOffline : kept.

Lemma kept_switchToOffline  b : kept b (switchToOffline b).
Proof. unfold switchToOffline. kept. Qed.
#[export] Hint Resolve kept_switchToOffline : kept.

Lemma kept_startActivityB a b : a <> Save -> kept b (startActivityB a b).1.
Proof.
  intros Ha. unfold startActivityB, startActivity.
  destruct (bool_decide (a = Activity_None)); [kept|].
  destruct (negb _); [kept|]. split; unfold save_request, phase, activity; cbn; try done; try lia.
  by exists []; rewrite app_nil_r.
Qed.
#[export] Hint Extern 1 (kept _ ((startActivityB _ _).1)) => apply kept_startActivityB; discriminate : kept.

Lemma kept_setModified value b : kept b (setModified value b).
Proof. unfold setModified. kept. Qed.
#[export] Hint Resolve kept_setModified : kept.

Lemma kept_reportUploadToStorageFailed  b : kept b (reportUploadToStorageFailed b).
Proof. unfold reportUploadToStorageFailed. kept. Qed.
#[export] Hint Resolve kept_reportUploadToStorageFailed : kept.

Lemma kept_setUploadComplete  b : kept b (setUploadComplete b).
Proof. unfold setUploadComplete. kept. Qed.
#[export] Hint Resolve kept_setUploadComplete : kept.

Lemma kept_uploadCallback_incomplete ev a b : kept b (uploadCallback_incomplete ev a b).
Proof. unfold uploadCallback_incomplete. kept. Qed.
#[export] Hint Resolve kept_uploadCallback_incomplete : kept.

Lemma kept_prepare_upload ev request attrs b : kept b (prepare_upload ev request attrs b).
Proof. unfold prepare_upload. kept. Qed.
#[export] Hint Resolve kept_prepare_upload : kept.

Lemma kept_start_upload ev up b : kept b (start_upload ev up b).
Proof. unfold start_upload. kept. Qed.
#[export] Hint Resolve kept_start_upload : kept.

Lemma kept_uploadToStorageInternal ev id saveAsPath saveAsFilename isRename isExport force b : kept b (uploadToStorageInternal ev id saveAsPath saveAsFilename isRename isExport force b).
Proof. unfold uploadToStorageInternal. kept. Qed.
#[export] Hint Resolve kept_uploadToStorageInternal : kept.

Lemma kept_uploadToStorage ev id force b : kept b (uploadToStorage ev id force b).
Proof. unfold uploadToStorage. kept. Qed.
#[export] Hint Resolve kept_uploadToStorage : kept.

Lemma kept_uploadAsToStorage ev id path filename isRename isExport b : kept b (uploadAsToStorage ev id path filename isRename isExport b).
Proof. unfold uploadAsToStorage. kept. Qed.
#[export] Hint Resolve kept_uploadAsToStorage : kept.

Lemma kept_rename_to_uploading  b : kept b (rename_to_uploading b).
Proof. unfold rename_to_uploading. kept. Qed.
#[export] Hint Resolve kept_rename_to_uploading : kept.

Lemma kept_uploadAfterLoadingTemplate ev id b : kept b (uploadAfterLoadingTemplate ev id b).
Proof. unfold uploadAfterLoadingTemplate. kept. Qed.
#[export] Hint Resolve kept_uploadAfterLoadingTemplate : kept.

Lemma kept_upload_rename ev b : kept b (upload_rename ev b).
Proof. unfold upload_rename. kept. Qed.
#[export] Hint Resolve kept_upload_rename : kept.

Lemma kept_setReadOnly id value b : kept b (setReadOnly id value b).
Proof. unfold setReadOnly. kept. Qed.
#[export] Hint Resolve kept_setReadOnly : kept.

Lemma kept_setWritableB id writable b : kept b (setWritableB id writable b).
Proof. unfold setWritableB. kept. Qed.
#[export] Hint Resolve kept_setWritableB : kept.

Lemma kept_setLockFailed id reason b : kept b (setLockFailed id reason b).
Proof. unfold setLockFailed. kept. Qed.
#[export] Hint Resolve kept_setLockFailed : kept.

Lemma kept_handleLockResult ev id result b : kept b ((handleLockResult ev id result b).1).
Proof. unfold handleLockResult. kept. Qed.
#[export] Hint Resolve kept_handleLockResult : kept.

Lemma kept_updateStorageLockState ev id lock b : kept b ((updateStorageLockState ev id lock b).1).
Proof. unfold updateStorageLockState. kept. Qed.
#[export] Hint Resolve kept_updateStorageLockState : kept.

Lemma kept_lockIfEditing ev id b : kept b (lockIfEditing ev id b).
Proof. unfold lockIfEditing. kept. Qed.
#[export] Hint Resolve kept_lockIfEditing : kept.

Lemma kept_failLoadingSessions remove b : kept b (failLoadingSessions remove b).
Proof. unfold failLoadingSessions. kept. Qed.
#[export] Hint Resolve kept_failLoadingSessions : kept.

Lemma kept_disconnectFromKit ev id b : kept b ((disconnectFromKit ev id b).1).
Proof. unfold disconnectFromKit. kept. Qed.
#[export] Hint Resolve kept_disconnectFromKit : kept.

Lemma kept_finalRemoveSession id b : kept b (finalRemoveSession id b).
Proof. unfold finalRemoveSession. kept. Qed.
#[export] Hint Resolve kept_finalRemoveSession : kept.

Lemma kept_disconnectSessionInternal ev id b : kept b (disconnectSessionInternal ev id b).
Proof. unfold disconnectSessionInternal. kept. Qed.
#[export] Hint Resolve kept_disconnectSessionInternal : kept.

Lemma kept_disconnect_closed ev ids b : kept b (disconnect_closed ev ids b).
Proof.
  revert b. induction ids as [|id ids IH]; intros b; simpl; [reflexivity|].
  etransitivity; [|apply IH]. kept.
Qed.
#[export] Hint Resolve kept_disconnect_closed : kept.

Lemma kept_disconnectClosedSessions ev b : kept b (disconnectClosedSessions ev b).
Proof. unfold disconnectClosedSessions. kept. Qed.
#[export] Hint Resolve kept_disconnectClosedSessions : kept.

Lemma kept_handleDocumentConflict  b : kept b (handleDocumentConflict b).
Proof. unfold handleDocumentConflict. kept. Qed.
#[export] Hint Resolve kept_handleDocumentConflict : kept.

Lemma kept_make_readonly error b : kept b (make_readonly error b).
Proof. unfold make_readonly. kept. Qed.
#[export] Hint Resolve kept_make_readonly : kept.

Lemma kept_react_to_failure r b : kept b (react_to_failure r b).
Proof. unfold react_to_failure. kept. Qed.
#[export] Hint Resolve kept_react_to_failure : kept.

Lemma kept_handleUploadToStorageFailed r b : kept b (handleUploadToStorageFailed r b).
Proof. unfold handleUploadToStorageFailed. kept. Qed.
#[export] Hint Resolve kept_handleUploadToStorageFailed : kept.

Lemma kept_upload_stored ev u b : kept b (upload_stored ev u b).
Proof. unfold upload_stored. kept. Qed.
#[export] Hint Resolve kept_upload_stored : kept.

Lemma kept_upload_renamed r b : kept b (upload_renamed r b).
Proof. unfold upload_renamed. kept. Qed.
#[export] Hint Resolve kept_upload_renamed : kept.

Lemma kept_upload_savedAs u r b : kept b ((upload_savedAs u r b).1).
Proof. unfold upload_savedAs. kept. Qed.
#[export] Hint Resolve kept_upload_savedAs : kept.

Lemma kept_after_upload ev b : kept b (after_upload ev b).
Proof. unfold after_upload. kept. Qed.
#[export] Hint Resolve kept_after_upload : kept.

Lemma kept_handleUploadToStorageSuccessful ev r b : kept b ((handleUploadToStorageSuccessful ev r b).1).
Proof. unfold handleUploadToStorageSuccessful. kept. Qed.
#[export] Hint Resolve kept_handleUploadToStorageSuccessful : kept.

Lemma kept_handleUploadToStorageResponse ev r b : kept b ((handleUploadToStorageResponse ev r b).1).
Proof. unfold handleUploadToStorageResponse. kept. Qed.
#[export] Hint Resolve kept_handleUploadToStorageResponse : kept.

Lemma kept_asyncUploadCallback ev a b : kept b ((asyncUploadCallback ev a b).1).
Proof. unfold asyncUploadCallback. kept. Qed.
#[export] Hint Resolve kept_asyncUploadCallback : kept.

Lemma kept_upload_if_needed ev id justSaved needToUpload b : kept b (upload_if_needed ev id justSaved needToUpload b).
Proof. unfold upload_if_needed. kept. Qed.
#[export] Hint Resolve kept_upload_if_needed : kept.

Lemma kept_checkAndUploadToStorage ev id justSaved b : kept b (checkAndUploadToStorage ev id justSaved b).
Proof. unfold checkAndUploadToStorage. kept. Qed.
#[export] Hint Resolve kept_checkAndUploadToStorage : kept.

Lemma kept_startSwitchingToOnline  b : kept b (startSwitchingToOnline b).
Proof. unfold startSwitchingToOnline. kept. Qed.
#[export] Hint Resolve kept_startSwitchingToOnline : kept.

Lemma kept_checkFileInfo ev id b : kept b (checkFileInfo ev id b).
Proof. unfold checkFileInfo. kept. Qed.
#[export] Hint Resolve kept_checkFileInfo : kept.

Lemma kept_storage_unsafe  b : kept b (storage_unsafe b).
Proof. unfold storage_unsafe. kept. Qed.
#[export] Hint Resolve kept_storage_unsafe : kept.

Lemma kept_checkFileInfo_done state b : kept b (checkFileInfo_done state b).
Proof. unfold checkFileInfo_done. kept. Qed.
#[export] Hint Resolve kept_checkFileInfo_done : kept.

Lemma kept_closeDocument reason b : kept b (closeDocument reason b).
Proof. unfold closeDocument. kept. Qed.
#[export] Hint Resolve kept_closeDocument : kept.

Lemma kept_disconnectedFromKit unexpected b : kept b (disconnectedFromKit unexpected b).
Proof. unfold disconnectedFromKit. kept. Qed.
#[export] Hint Resolve kept_disconnectedFromKit : kept.

(** ** Handlers that may request a save *)

(** A save command for the kit. *)
Definition is_save (o : Output) : Prop :=
  exists id args, o = ToKit (str "child-" ++ id ++ str " " ++ str "save background=" ++ args).

Record saved (ev : Env) (b b' : DB) : Prop := {
  s_modify : db_lastModifyActivityTime b' = db_lastModifyActivityTime b;
  s_size : sg_sizeOnServer (db_storageManager b') = sg_sizeOnServer (db_storageManager b);
  s_stop : db_stop b = true -> db_stop b' = true;
  s_close : ds_closeRequested (db_docState b) = true -> ds_closeRequested (db_docState b') = true;
  s_loaded : ds_loaded (db_docState b') = ds_loaded (db_docState b);
  s_phase : phase b <= phase b';
  s_config : db_config b' = db_config b;
  s_save : exists l, db_out b' = db_out b ++ l /\
    (save_request b' = save_request b /\ (activity b' = Save -> activity b = Save) \/
     save_request b' = markLastRequestTime (ev_now ev) (save_request b) /\ Exists is_save l) }.

#[export] Instance saved_preorder ev : PreOrder (saved ev).
Proof.
  split.
  - intros b. split; try done; try lia. exists []. rewrite app_nil_r. auto.
  - intros b1 b2 b3 [] []. split; try congruence; [naive_solver..|lia|].
    destruct s_save0 as (l1 & E1 & H1), s_save1 as (l2 & E2 & H2). exists (l1 ++ l2).
    split; [by rewrite E2, E1, app_assoc|]. rewrite Exists_app.
    destruct H1 as [[H1 ?]|[H1 ?]], H2 as [[H2 ?]|[H2 ?]]; rewrite H2, H1; naive_solver.
Qed.

Lemma kept_saved ev b b' : kept b b' -> saved ev b b'.
Proof. intros []. destruct k_out0 as [l E]. split; try done. exists l. auto. Qed.

Create HintDb saved.

Ltac saved_field := apply kept_saved; kept_field.
Ltac saved_call := first [apply kept_saved; kept_call | solve [auto 1 with saved]].
Ltac saved := intros; cbn zeta; repeat (peel saved_field saved_call; cbn zeta).

(** A save command is none of the messages that are swallowed. *)
Lemma forward_save ev id x y z b b' :
  forwardToChild ev id (save_command x y z) b = (b', true) ->
  b' = output (ToKit (str "child-" ++ id ++ str " " ++ save_command x y z)) b.
Proof.
  assert (E : beq (save_command x y z) (str "userinactive") = false /\ beq (save_command x y z) (str "useractive") = false
    /\ starts_with (str "textinput ") (save_command x y z) = false /\ starts_with (str "mouse ") (save_command x y z) = false
    /\ starts_with (str "key ") (save_command x y z) = false) by (destruct x, y, z; vm_compute; done).
  destruct E as (E1 & E2 & E3 & E4 & E5).
  unfold forwardToChild. rewrite E1, E2, E3, E4, E5, !andb_false_r. destruct (find_session id b); [|done].
  destruct (db_kitSocket b); congruence.
Qed.

Lemma save_is_save id x y z : is_save (ToKit (str "child-" ++ id ++ str " " ++ save_command x y z)).
Proof. eexists id, _. unfold save_command. reflexivity. Qed.

Lemma startActivityB_none a b :
  activity b = Activity_None -> a <> Activity_None ->
  startActivityB a b = (b <| db_docState ::= setActivity a |>, true).
Proof.
  unfold activity, startActivityB, startActivity. intros -> Ha.
  by rewrite bool_decide_eq_false_2, bool_decide_eq_true_2.
Qed.

(** Sending it, marking the time, and starting the activity. *)
Lemma saved_mark ev o b :
  is_save o ->
  let b' := output o b <| db_saveManager ::= markLastSaveRequestTime (ev_now ev) |> in
  saved ev b (if bool_decide (activity b' = Activity_None) then (startActivityB Save b').1 else b').
Proof.
  intros Ho. cbv zeta. destruct (bool_decide _) eqn:Ea.
  - apply bool_decide_eq_true in Ea. rewrite startActivityB_none by done.
    split; unfold save_request, phase; cbn; try done; try lia.
    exists [o]. split; [done|]. right. by rewrite Exists_cons; auto.
  - split; unfold save_request, phase; cbn; try done; try lia.
    exists [o]. split; [done|]. right. by rewrite Exists_cons; auto.
Qed.

Lemma saved_sendUnoSave ev id x y z u data b : saved ev b (sendUnoSave ev id x y z u data b).1.
Proof.
  unfold sendUnoSave. cbv zeta.
  match goal with |- context [forwardToChild _ _ _ ?r] => set (b1 := r) end.
  assert (K : kept b b1) by (unfold b1; kept). clearbody b1.
  destruct (forwardToChild _ _ _ b1) as [b2 sent] eqn:E. transitivity b1; [by apply kept_saved|].
  destruct sent; cbn [fst].
  - apply forward_save in E as ->. apply saved_mark, save_is_save.
  - saved.
Qed.
#[export] Hint Resolve saved_sendUnoSave : saved.

Lemma saved_manualSave ev id x y data b : saved ev b (manualSave ev id x y data b).1.
Proof. unfold manualSave. saved. Qed.
#[export] Hint Resolve saved_manualSave : saved.

Lemma saved_autoSave ev force dont final b : saved ev b (autoSave ev force dont final b).1.
Proof. unfold autoSave. saved. Qed.
#[export] Hint Resolve saved_autoSave : saved.

Lemma saved_startRenameFileCommand ev b : saved ev b (startRenameFileCommand ev b).
Proof. unfold startRenameFileCommand. saved. Qed.
#[export] Hint Resolve saved_startRenameFileCommand : saved.

Lemma saved_handleRenameFileCommand ev id filename b : saved ev b (handleRenameFileCommand ev id filename b).1.
Proof. unfold handleRenameFileCommand. saved. Qed.
#[export] Hint Resolve saved_handleRenameFileCommand : saved.

Lemma saved_startSwitchingToOffline ev id b : saved ev b (startSwitchingToOffline ev id b).
Proof. unfold startSwitchingToOffline. saved. Qed.
#[export] Hint Resolve saved_startSwitchingToOffline : saved.

Lemma saved_switchMode ev id mode b : saved ev b (switchMode ev id mode b).
Proof. unfold switchMode. saved. Qed.
#[export] Hint Resolve saved_switchMode : saved.

Lemma saved_removeSession ev id b : saved ev b (removeSession ev id b).
Proof. unfold removeSession. saved. Qed.
#[export] Hint Resolve saved_removeSession : saved.

Lemma saved_autoSaveAndStop ev reason b : saved ev b (autoSaveAndStop ev reason b).
Proof. unfold autoSaveAndStop. saved. Qed.
#[export] Hint Resolve saved_autoSaveAndStop : saved.

Lemma saved_poll_idle ev b : saved ev b (poll_idle ev b).
Proof. unfold poll_idle. saved. Qed.
#[export] Hint Resolve saved_poll_idle : saved.

(** A save in the background is only asked for after no failure at all: the extra
    chance that [MaxFailureCountForBackgroundSaving] is meant to give is never
    taken. *)
Lemma background_needs_no_failure isAutosave finalWrite b :
  save_background isAutosave finalWrite b = true -> saveFailureCount (db_saveManager b) = 0%nat.
Proof.
  unfold save_background, lastSaveSuccessful, lastRequestSuccessful, saveFailureCount. bool_hyps. naive_solver.
Qed.

(** ** Any event *)

Record stepped (b b' : DB) : Prop := {
  t_modify : db_lastModifyActivityTime b' = db_lastModifyActivityTime b;
  t_size : sg_sizeOnServer (db_storageManager b') = sg_sizeOnServer (db_storageManager b);
  t_stop : db_stop b = true -> db_stop b' = true;
  t_close : ds_closeRequested (db_docState b) = true -> ds_closeRequested (db_docState b') = true;
  t_config : db_config b' = db_config b;
  t_save : exists l, db_out b' = db_out b ++ l /\
    (lastSaveRequestTime (db_saveManager b') = lastSaveRequestTime (db_saveManager b) \/ Exists is_save l) }.

#[export] Instance stepped_preorder : PreOrder stepped.
Proof.
  split.
  - intros b. split; try done. exists []. rewrite app_nil_r. auto.
  - intros b1 b2 b3 [] []. split; try congruence; [naive_solver..|].
    destruct t_save0 as (l1 & E1 & H1), t_save1 as (l2 & E2 & H2). exists (l1 ++ l2).
    split; [by rewrite E2, E1, app_assoc|]. rewrite Exists_app.
    destruct H1 as [H1|?], H2 as [H2|?]; [left; congruence|auto..].
Qed.

Lemma saved_stepped ev b b' : saved ev b b' -> stepped b b'.
Proof.
  intros []. split; try done. destruct s_save0 as (l & E & H). exists l. split; [done|].
  destruct H as [[H _]|[_ H]]; [left|by right]. unfold lastSaveRequestTime. unfold save_request in H. by rewrite H.
Qed.
Lemma kept_stepped b b' : kept b b' -> stepped b b'.
Proof.
  intros K. apply (saved_stepped {| ev_now := 0; ev_shutdownRequestFlag := false; ev_connects := false;
    ev_lockStatus := Lock_OK; ev_lockReason := []; ev_cfiStarts := false |}), kept_saved, K.
Qed.

Create HintDb stepped.

Lemma stepped_setLastSaveResult now x y b :
  stepped b (b <| db_saveManager ::= setLastSaveResult now x y |>).
Proof. split; cbn; try done. exists []. rewrite app_nil_r. split; [done|left]. by destruct x, y. Qed.

Ltac stepped_field :=
  first [apply stepped_setLastSaveResult
        |split; unfold lastSaveRequestTime; cbn;
         first [done | exists []; rewrite app_nil_r; split; [done|left; try done] | auto]].
Ltac stepped_call := first [apply kept_stepped; kept_call | eapply saved_stepped; solve [auto 1 with saved] | solve [auto 1 with stepped]].
Ltac stepped := intros; cbn zeta; repeat (peel stepped_field stepped_call; cbn zeta).


Lemma stepped_handleSaveResponse ev id json b : stepped b (handleSaveResponse ev id json b).
Proof. unfold handleSaveResponse. stepped. Qed.
#[export] Hint Resolve stepped_handleSaveResponse : stepped.

Lemma stepped_postpone now n b : stepped b (b <| db_saveManager ::= postponeAutosave now n |>).
Proof.
  split; cbn; try done. exists []. rewrite app_nil_r. split; [done|left].
  unfold postponeAutosave, lastSaveRequestTime. by destruct (_ <? _).
Qed.

Lemma stepped_poll_activity ev b : stepped b (poll_activity ev b).
Proof.
  unfold poll_activity. destruct (activity b); try apply stepped_postpone; stepped.
Qed.
#[export] Hint Resolve stepped_poll_activity : stepped.

Lemma stepped_poll_round ev b : stepped b (poll_round ev b).
Proof. unfold poll_round. stepped. Qed.
#[export] Hint Resolve stepped_poll_round : stepped.

Lemma stepped_handleDialog id b : stepped b (handleDialog id b).
Proof. unfold handleDialog, setInteractive. stepped. Qed.
#[export] Hint Resolve stepped_handleDialog : stepped.

Lemma stepped_setLoaded now b : stepped b (setLoaded now b).
Proof. unfold setLoaded. stepped. Qed.
#[export] Hint Resolve stepped_setLoaded : stepped.

Lemma stepped_handleLoaded ev id x y b : stepped b (handleLoaded ev id x y b).
Proof. unfold handleLoaded, setInteractive. stepped. Qed.
#[export] Hint Resolve stepped_handleLoaded : stepped.

Section events.
Context (parseJSON : bytes -> option WopiObject).

Lemma stepped_handle ev e b : e <> Modify -> stepped b (handle parseJSON ev e b).
Proof.
  intros He. destruct e; try done; cbn [handle]; unfold updateEditingSessionId, updateLastActivityTime; stepped.
Qed.

(** The clock readings of a run do not go back. *)
Fixpoint ascending (t : Z) (evs : list (Env * event)) : Prop :=
  match evs with
  | [] => True
  | (ev, _) :: evs' => t <= ev_now ev /\ ascending (ev_now ev) evs'
  end.

Lemma is_modify e : {e = Modify} + {e <> Modify}.
Proof. destruct e; [by left|by right..]. Qed.

Lemma run_out evs : forall b, exists l, db_out (run parseJSON evs b) = db_out b ++ l.
Proof.
  induction evs as [|[ev e] evs IH]; intros b; cbn [run]; [by exists []; rewrite app_nil_r|].
  destruct (IH (handle parseJSON ev e b)) as [l2 E2].
  assert (exists l1, db_out (handle parseJSON ev e b) = db_out b ++ l1) as [l1 E1].
  { destruct (is_modify e) as [->|He]; [by exists []; rewrite app_nil_r|].
    destruct (stepped_handle ev e b He) as [_ _ _ _ _ (l & El & _)]. by exists l. }
  exists (l1 ++ l2). by rewrite E2, E1, app_assoc.
Qed.

Lemma handle_unsaved ev e b :
  haveModifyActivityAfterSaveRequest b = true -> db_lastModifyActivityTime b <= ev_now ev ->
  db_lastModifyActivityTime (handle parseJSON ev e b) <= ev_now ev /\
  exists l, db_out (handle parseJSON ev e b) = db_out b ++ l /\
    (Exists is_save l \/ haveModifyActivityAfterSaveRequest (handle parseJSON ev e b) = true).
Proof.
  unfold haveModifyActivityAfterSaveRequest. rewrite Z.ltb_lt. intros Hu Ht.
  destruct (is_modify e) as [->|He].
  - cbn. split; [lia|]. exists []. rewrite app_nil_r, Z.ltb_lt. split; [done|right]. lia.
  - destruct (stepped_handle ev e b He) as [Hm _ _ _ _ (l & El & Hl)].
    split; [lia|]. exists l. split; [done|]. rewrite Z.ltb_lt. destruct Hl; [right; lia|by left].
Qed.

Lemma run_unsaved evs : forall b t,
  haveModifyActivityAfterSaveRequest b = true -> db_lastModifyActivityTime b <= t -> ascending t evs ->
  exists l, db_out (run parseJSON evs b) = db_out b ++ l /\
    (Exists is_save l \/ haveModifyActivityAfterSaveRequest (run parseJSON evs b) = true).
Proof.
  induction evs as [|[ev e] evs IH]; intros b t Hu Ht Ha; cbn [run].
  { exists []. rewrite app_nil_r. auto. }
  destruct Ha as [Ha1 Ha2]. destruct (handle_unsaved ev e b Hu) as (Ht' & l & El & Hl); [lia|].
  destruct Hl as [Hl|Hl].
  - destruct (run_out evs (handle parseJSON ev e b)) as [l' El']. exists (l ++ l').
    rewrite El', El, app_assoc, Exists_app. auto.
  - destruct (IH _ _ Hl Ht' Ha2) as (l' & El' & Hl'). exists (l ++ l').
    rewrite El', El, app_assoc, Exists_app. naive_solver.
Qed.

(** C15 (safety): a modification of the document is not forgotten. Whatever the
    clients, the kit and the host do from a state with a modification later than
    the last save request, either a save command goes to the kit, or the document
    still counts as possibly modified and needing a save, and if the poll loop ends
    there, the loss is reported - except when a close was requested, for whatever
    reason (the owner discarding the changes, a closed or crashed kit, memory
    pressure, the restore of a version), while the document is in conflict with the
    storage: then nothing is reported ([conflict_loss_unreported]). *)
Theorem modification_saved_or_reported evs b t :
  haveModifyActivityAfterSaveRequest b = true -> db_lastModifyActivityTime b <= t -> ascending t evs ->
  let b' := run parseJSON evs b in
  Exists is_save (drop (length (db_out b)) (db_out b')) \/
  isPossiblyModified b' = true /\ needToSaveToDisk b' <> NeedToSave_No /\
  (is_Some (dataLoss b') \/ ds_closeRequested (db_docState b') = true /\ db_documentChangedInStorage b' = true).
Proof.
  intros Hu Ht Ha b'. destruct (run_unsaved evs b t Hu Ht Ha) as (l & El & [Hl|Hl]); fold b' in El, Hl.
  - left. by rewrite El, drop_app_length.
  - right. unfold isPossiblyModified, needToSaveToDisk, dataLoss. rewrite Hl. split_and!; [done| |].
    + by destruct (lastSaveSuccessful _), (db_isModified b'), (db_isViewFileExtension b').
    + destruct (ds_closeRequested _), (db_documentChangedInStorage b'); cbn; eauto.
Qed.

(** Fact (error): the data-loss check of the poll loop means to leave out the owner
    who discards the changes of a document in conflict, but it leaves out every
    close of such a document. When the kit of a document in conflict goes away
    unexpectedly, the broker stops with the unsaved changes still unsaved, the storage
    still outdated if it was, and reports no loss. *)
Theorem conflict_loss_unreported ev b :
  db_documentChangedInStorage b = true -> haveModifyActivityAfterSaveRequest b = true -> db_closeReason b = [] ->
  let b' := handle parseJSON ev (KitGone true) b in
  db_stop b' = true /\ haveModifyActivityAfterSaveRequest b' = true /\
  isStorageOutdated b' = isStorageOutdated b /\ dataLoss b' = None.
Proof.
  intros Hc Hm Hr b'.
  destruct b. cbn in Hc, Hr. subst. split_and!; [reflexivity|exact Hm|reflexivity|].
  unfold dataLoss. change (DocumentSave.db_documentChangedInStorage b') with true.
  change (ds_closeRequested (DocumentSave.db_docState b')) with true. by case_match.
Qed.
End events.

(** ** The save activity *)

(** Only a save request or an answer changes the request tracking of saves; only a
    request starts the save activity. *)
Definition asked (ev : Env) (b b' : DB) : Prop :=
  save_request b' = save_request b /\ (activity b' = Save -> activity b = Save) \/
  save_request b' = markLastRequestTime (ev_now ev) (save_request b).

#[export] Instance asked_preorder ev : PreOrder (asked ev).
Proof.
  split; [by left|]. unfold asked.
  intros b1 b2 b3 [[H1 ?]|H1] [[H2 ?]|H2]; rewrite H2, H1; naive_solver.
Qed.

Lemma saved_asked ev b b' : saved ev b b' -> asked ev b b'.
Proof. intros [_ _ _ _ _ _ _ (l & _ & [H|[H _]])]; [by left|by right]. Qed.

Create HintDb asked.
Ltac asked_field := left; split; [done|auto].
Ltac asked_call :=
  first [apply saved_asked, kept_saved; kept_call | apply saved_asked; solve [auto 1 with saved] | solve [auto 1 with asked]].
Ltac asked := intros; cbn zeta; repeat (peel asked_field asked_call; cbn zeta).

Lemma asked_handleLoaded ev id x y b : asked ev b (handleLoaded ev id x y b).
Proof. unfold handleLoaded, setLoaded, setInteractive. asked. Qed.
#[export] Hint Resolve asked_handleLoaded : asked.

Lemma asked_handleDialog ev id b : asked ev b (handleDialog id b).
Proof. unfold handleDialog, setInteractive. asked. Qed.
#[export] Hint Resolve asked_handleDialog : asked.

Lemma checkAndUpload_ends_save ev id justSaved b : activity (checkAndUploadToStorage ev id justSaved b) <> Save.
Proof.
  destruct (decide (activity b = Save)) as [E|E].
  - unfold checkAndUploadToStorage. rewrite E. intros H.
    apply (k_activity _ _ (kept_upload_if_needed ev id justSaved (needToUploadToStorage ev b) (endActivityB b))) in H. done.
  - intros H. by apply E, (k_activity _ _ (kept_checkAndUploadToStorage ev id justSaved b)).
Qed.

Lemma handleSaveResponse_request ev id json b :
  save_request (handleSaveResponse ev id json b)
  = setLastRequestResult (ev_now ev) (sr_success json || beq (sr_result json) (str "unmodified")) (save_request b)
  /\ activity (handleSaveResponse ev id json b) <> Save.
Proof.
  unfold handleSaveResponse. cbv zeta. split; [|apply checkAndUpload_ends_save].
  rewrite (k_save _ _ (kept_checkAndUploadToStorage _ _ _ _)).
  match goal with |- save_request (if ?c then broadcastSaveResult ?x ?y ?z (sendTextFrame ?i ?m ?r) else _) = _ =>
    transitivity (save_request r); [destruct c; [|done]; rewrite (k_save _ _ (kept_broadcastSaveResult x y z _));
      by rewrite (k_save _ _ (kept_sendTextFrame i m _))|] end.
  rewrite (k_save _ _ (kept_rename_to_uploading _)). by destruct (sr_success json), (sr_wasModified json).
Qed.

(** While a document is in the save activity a save is under way. *)
Record save_inv (t : Z) (b : DB) : Prop := {
  si_activity : activity b = Save -> isSaving (db_saveManager b) = true;
  si_request : rm_lastRequestTime (save_request b) <= t;
  si_response : rm_lastResponseTime (save_request b) <= t }.

Lemma asked_inv ev t b b' : t < ev_now ev -> asked ev b b' -> save_inv t b -> save_inv (ev_now ev) b'.
Proof.
  intros Ht Hs [Ha Hq Hr]. unfold isSaving in *. fold (save_request b) (save_request b') in *.
  destruct Hs as [[E Hact]|E]; split; unfold isSaving; fold (save_request b'); rewrite E in *; cbn; try lia.
  - naive_solver.
  - intros _. unfold isActive. cbn. apply Z.ltb_lt. lia.
Qed.

Lemma answered_inv now t ok b b' :
  t < now -> save_request b' = setLastRequestResult now ok (save_request b) -> activity b' <> Save ->
  save_inv t b -> save_inv now b'.
Proof.
  intros Ht E Ha [_ Hq Hr]. split; [done|..]; rewrite E; destruct ok; cbn; lia.
Qed.

Section dialog.
Context (parseJSON : bytes -> option WopiObject).

(** Fact (liveness): an open dialog suspends the poll loop. Once a [jsdialog:] message
    came for a view that was still loading, the rounds of the loop do nothing - no
    automatic save, no upload, no time limit on a save - as long as the document is
    not unloaded. Only the [loaded:] message of the first view ends this, so the
    dialog of a second view goes on suspending the loop after that view is loaded
    (the state of [dialog_suspends_saving_witness]). *)
Theorem dialog_suspends_saving evs b :
  ds_interactive (db_docState b) = true ->
  Forall (fun p => p.2 = Poll /\ isUnloading p.1 b = false) evs -> run parseJSON evs b = b.
Proof.
  intros Hd H. induction H as [|[ev e] evs [He Hu] H IH]; [done|]. cbn in He, Hu. subst e. cbn [run].
  assert (E : handle parseJSON ev Poll b = b).
  { cbn [handle]. unfold poll_round. rewrite Hd, Hu. by destruct (db_stop b). }
  by rewrite E.
Qed.

End dialog.

Section activity.
Context (parseJSON : bytes -> option WopiObject).

Lemma handle_save_inv ev e t b : t < ev_now ev -> save_inv t b -> save_inv (ev_now ev) (handle parseJSON ev e b).
Proof.
  intros Ht Hi. destruct e; cbn [handle];
    try (apply (asked_inv ev t b); [done| |done];
         unfold updateEditingSessionId, updateLastActivityTime, updateLastModifyingActivityTime; solve [asked]).
  - apply (answered_inv (ev_now ev) t _ b _ Ht (proj1 (handleSaveResponse_request ev id json b))); [|done].
    apply handleSaveResponse_request.
  - unfold poll_round. destruct (db_stop b); [by apply (asked_inv ev t b)|].
    destruct (ds_interactive _); [apply (asked_inv ev t b); [done|asked|done]|].
    unfold poll_activity. destruct (activity b) eqn:Ea;
      try (apply (asked_inv ev t b); [done| |done]; solve [asked | left; split; [|done]; unfold postponeAutosave, save_request; cbn; by destruct (_ <? _)]).
    all: destruct (_ || _); [|by apply (asked_inv ev t b)].
    all: apply (answered_inv (ev_now ev) t false b); [done..|done].
Qed.

(** The clock readings of a run go forward. *)
Fixpoint increasing (t : Z) (evs : list (Env * event)) : Prop :=
  match evs with
  | [] => True
  | (ev, _) :: evs' => t < ev_now ev /\ increasing (ev_now ev) evs'
  end.

Fixpoint last_time (t : Z) (evs : list (Env * event)) : Z :=
  match evs with [] => t | (ev, _) :: evs' => last_time (ev_now ev) evs' end.

Lemma run_save_inv evs : forall t b, save_inv t b -> increasing t evs -> save_inv (last_time t evs) (run parseJSON evs b).
Proof.
  induction evs as [|[ev e] evs IH]; intros t b Hi Hv; [done|]. destruct Hv as [Ht Hv].
  cbn [run last_time]. apply IH; [|done]. by apply (handle_save_inv ev e t).
Qed.

(** C18 (liveness): the save activity ends. In any state the broker gets into from
    one without a save, whatever happens, the document is in the save activity only
    while a save is under way; so a round of the poll loop [_savingTimeout] seconds
    after the request ends the activity, counts a failure and leaves the document
    needing a save. The round is one that gets to the activities: while the kit has a
    dialog open for a view that is still loading, the loop looks at nothing
    ([dialog_suspends_saving]). *)
Theorem save_activity_ends evs t b ev :
  save_inv t b -> increasing t evs ->
  let b' := run parseJSON evs b in
  activity b' = Save -> db_stop b' = false -> ds_interactive (db_docState b') = false ->
  rm_lastRequestTime (save_request b') + sm_savingTimeout (db_saveManager b') * ns_per_s <= ev_now ev ->
  0 <= sm_savingTimeout (db_saveManager b') ->
  let b'' := handle parseJSON ev Poll b' in
  isSaving (db_saveManager b') = true /\ activity b'' = Activity_None /\
  saveFailureCount (db_saveManager b'') = S (saveFailureCount (db_saveManager b')) /\
  needToSaveToDisk b'' = Yes_LastSaveFailed.
Proof.
  intros Hi Hv b' Ha Hs Hd Ht H0 b''. pose proof (run_save_inv evs t b Hi Hv) as [Hb _ _]. fold b' in Hb.
  specialize (Hb Ha).
  assert (Hto : hasSavingTimedOut (ev_now ev) (db_saveManager b') = true).
  { unfold hasSavingTimedOut, hasLastRequestTimedOut, isSaving in *. rewrite Hb. cbn [andb].
    apply Z.leb_le. unfold timeSinceLastRequest, to_ms, save_request, ns_per_s, ns_per_ms in *.
    apply Z.quot_le_lower_bound; lia. }
  unfold b'', handle, poll_round. rewrite Hs, Hd. unfold poll_activity. rewrite Ha, Hto, orb_true_r. by split_and!.
Qed.
End activity.

(** ** A sample *)

Definition sample_env (now : Z) : Env :=
  {| ev_now := now; ev_shutdownRequestFlag := false; ev_connects := true; ev_lockStatus := Lock_OK;
     ev_lockReason := []; ev_cfiStarts := true |}.

Definition sample_config : Config :=
  {| cf_alwaysSaveOnExit := false; cf_backgroundAutoSave := true; cf_backgroundManualSave := true;
     cf_forceBackgroundEnv := false; cf_limStoreFailures := 5; cf_idleDocTimeoutSecs := 3600;
     cf_indirectionServerEnabled := false; cf_migrationMsgTimeout := 180000000; cf_docKey := str "key";
     cf_filename := str "a.odt"; cf_utf7 := id; cf_encode := id; cf_normalizedUri := id; cf_uriWithoutToken := id |}.

Definition sample_session : Session :=
  {| se_id := str "1"; se_uri := str "https://host/a"; se_userName := str "u"; se_state := LIVE;
     se_isWritable := true; se_isReadOnly := false; se_isAllowChangeComments := false;
     se_isAllowManageRedlines := false; se_isCloseFrame := false; se_isDocumentOwner := false;
     se_isLockFailed := false; se_authExpired := false |}.

Definition sample_storage : WopiStorage :=
  {| st_path := str "/wopi/files/1"; st_jailedFilePath := str "/jail/a.odt"; st_modifiedTime := str "T0";
     st_isLegacyServer := false; st_uploadHttpSession := false |}.

(** A loaded document with one editor. *)
Definition sample_broker : DB :=
  {| db_config := sample_config; db_sessions := [sample_session]; db_docState := setLive DocumentState_new;
     db_saveManager := setSavingTimeout 5 (SaveManager_new 30000 300000 500 0);
     db_storageManager := StorageManager_new 5000 0; db_storage := Some sample_storage; db_files := ∅;
     db_lockCtx := {| lc_supportsLocks := false; lc_lockState := UNLOCK; lc_lockToken := []; lc_lastLockTime := 0 |};
     db_nextStorageAttrs := Attributes_reset; db_currentStorageAttrs := Attributes_reset;
     db_lastStorageAttrs := Attributes_reset; db_uploadRequest := None; db_checkFileInfo := None;
     db_closeReason := []; db_renameFilename := []; db_renameSessionId := []; db_lastEditingSessionId := str "1";
     db_pid := 42; db_kitSocket := true; db_lastActivityTime := 0; db_lastModifyActivityTime := 0;
     db_createTime := 0; db_isModified := false; db_stop := false; db_documentChangedInStorage := false;
     db_isViewFileExtension := false; db_migrateMsgReceived := false; db_waitingForMigrationMsg := false;
     db_migrationMsgStartTime := 0; db_out := [] |}.

Lemma modification_saved_or_reported_witness :
  let b' := run (fun _ => None) [(sample_env 7, ModifiedStatus true); (sample_env 9, Poll)]
              (sample_broker <| db_lastModifyActivityTime := 5 |>) in
  isPossiblyModified b' = true /\ needToSaveToDisk b' <> NeedToSave_No.
Proof.
  intros b'.
  destruct (modification_saved_or_reported (fun _ => None) [(sample_env 7, ModifiedStatus true); (sample_env 9, Poll)]
    (sample_broker <| db_lastModifyActivityTime := 5 |>) 5) as [H|(H1 & H2 & _)].
  - reflexivity.
  - reflexivity.
  - vm_compute. intuition discriminate.
  - vm_compute in H. inversion H.
  - by split.
Defined.

Lemma conflict_loss_unreported_witness :
  let b := sample_broker <| db_lastModifyActivityTime := 5 |> <| db_documentChangedInStorage := true |> in
  let b' := handle (fun _ => None) (sample_env 7) (KitGone true) b in
  db_stop b' = true /\ isPossiblyModified b' = true /\ dataLoss b' = None.
Proof.
  intros b b'.
  destruct (conflict_loss_unreported (fun _ => None) (sample_env 7) b) as (H1 & H2 & _ & H3); try reflexivity.
  split_and!; [done| |done]. unfold isPossiblyModified. fold b' in H2. by rewrite H2.
Defined.

(** A save is under way when a second view, with a dialog, loads. *)
Definition sample_dialog : DB :=
  run (fun _ => None)
    [(sample_env 1000, ManualSave (str "1") true true []); (sample_env 1001, Dialog (str "2"));
     (sample_env 1002, Loaded (str "2") false false)]
    (sample_broker <| db_sessions ::= fun l => l ++ [sample_session <| se_id := str "2" |> <| se_state := LOADING |>] |>).

Lemma dialog_suspends_saving_witness :
  let b := run (fun _ => None) [(sample_env 5000001000, Poll); (sample_env 9000000000, Poll)] sample_dialog in
  activity b = Save /\ isSaving (db_saveManager b) = true /\ countLoadingSessions b = 0%nat.
Proof.
  intros b. unfold b. rewrite dialog_suspends_saving; [by vm_compute|reflexivity|].
  by repeat constructor.
Defined.

Lemma save_activity_ends_witness :
  let b' := run (fun _ => None) [(sample_env 1000, ManualSave (str "1") true true [])] sample_broker in
  let b'' := handle (fun _ => None) (sample_env 5000001000) Poll b' in
  isSaving (db_saveManager b') = true /\ activity b'' = Activity_None /\
  saveFailureCount (db_saveManager b'') = 1%nat /\ needToSaveToDisk b'' = Yes_LastSaveFailed.
Proof.
  intros b' b''.
  apply (save_activity_ends (fun _ => None) [(sample_env 1000, ManualSave (str "1") true true [])] 0 sample_broker
           (sample_env 5000001000)).
  - split; vm_compute; [discriminate|discriminate..].
  - vm_compute. by split.
  - vm_compute. reflexivity.
  - vm_compute. reflexivity.
  - vm_compute. reflexivity.
  - vm_compute. discriminate.
  - vm_compute. discriminate.
Defined.
