(* ===== verification/DocumentUploadSpec.v ===== *)
(** * Uploading: the outcomes, and the stop conditions

    Theorems on the answers of the storage host, on failed and overlapping uploads,
    on re-synchronizing with the host, on when a document may be unloaded, and on
    renaming. *)

From S2P Require Import Prelude RecordSet Util Protocol Storage SaveManager DocumentSave DocumentPoll DocumentSaveSpec.

Open Scope cool_scope.
Open Scope record_scope.

(** ** What talking to the sessions leaves alone *)

(** The requests put on the wire. *)
Definition requests (l : list Output) : list HttpRequest :=
  omap (fun o => match o with ToStorage r => Some r | _ => None end) l.

Lemma requests_app l1 l2 : requests (l1 ++ l2) = requests l1 ++ requests l2.
Proof. apply omap_app. Qed.
Lemma requests_clients {A} (f : A -> bytes) msg (l : list A) : requests (map (fun s => ToClient (f s) msg) l) = [].
Proof. by induction l. Qed.

(** The storage side of the broker. *)
Record settled (b b' : DB) : Prop := {
  u_storage : db_storage b' = db_storage b;
  u_files : db_files b' = db_files b;
  u_manager : db_storageManager b' = db_storageManager b;
  u_save : db_saveManager b' = db_saveManager b;
  u_changed : db_documentChangedInStorage b' = db_documentChangedInStorage b;
  u_current : db_currentStorageAttrs b' = db_currentStorageAttrs b;
  u_last : db_lastStorageAttrs b' = db_lastStorageAttrs b;
  u_request : db_uploadRequest b' = db_uploadRequest b;
  u_config : db_config b' = db_config b;
  u_requests : requests (db_out b') = requests (db_out b) }.

#[export] Instance settled_preorder : PreOrder settled.
Proof. split; [by split|]. intros b1 b2 b3 [] []. split; congruence. Qed.

Create HintDb settled.
Ltac settled_field := split; try done; cbn; by rewrite requests_app, requests_clients, app_nil_r.
Ltac settled_call := solve [auto 1 with settled].
Ltac settled := intros; cbn zeta; repeat (peel settled_field settled_call; cbn zeta).

Lemma settled_output o b : requests [o] = [] -> settled b (output o b).
Proof. intros Ho. split; try done. cbn. by rewrite requests_app, Ho, app_nil_r. Qed.
#[export] Hint Extern 1 (settled _ (output _ _)) => apply settled_output; reflexivity : settled.
Lemma settled_update_session id f b : settled b (update_session id f b).
Proof. unfold update_session. settled. Qed.
#[export] Hint Resolve settled_update_session : settled.
Lemma settled_erase_session id b : settled b (erase_session id b).
Proof. unfold erase_session. settled. Qed.
#[export] Hint Resolve settled_erase_session : settled.
Lemma settled_sendTextFrame id msg b : settled b (sendTextFrame id msg b).
Proof. unfold sendTextFrame. settled. Qed.
#[export] Hint Resolve settled_sendTextFrame : settled.
Lemma settled_broadcastMessage msg b : settled b (broadcastMessage msg b).
Proof. unfold broadcastMessage. settled. Qed.
#[export] Hint Resolve settled_broadcastMessage : settled.
Lemma settled_broadcastMessageToOthers msg id b : settled b (broadcastMessageToOthers msg id b).
Proof. unfold broadcastMessageToOthers. settled. Qed.
#[export] Hint Resolve settled_broadcastMessageToOthers : settled.
Lemma settled_broadcastSaveResult x y z b : settled b (broadcastSaveResult x y z b).
Proof. unfold broadcastSaveResult. settled. Qed.
#[export] Hint Resolve settled_broadcastSaveResult : settled.
Lemma settled_unblockUI b : settled b (unblockUI b).
Proof. unfold unblockUI. settled. Qed.
#[export] Hint Resolve settled_unblockUI : settled.
Lemma settled_broadcastLastModificationTime b : settled b (broadcastLastModificationTime b).
Proof. unfold broadcastLastModificationTime. settled. Qed.
#[export] Hint Resolve settled_broadcastLastModificationTime : settled.
Lemma settled_forwardToChild ev id msg b : settled b (forwardToChild ev id msg b).1.
Proof. unfold forwardToChild. settled. Qed.
#[export] Hint Resolve settled_forwardToChild : settled.
Lemma settled_stop reason b : settled b (stop reason b).
Proof. unfold stop. settled. Qed.
#[export] Hint Resolve settled_stop : settled.
Lemma settled_endActivityB b : settled b (endActivityB b).
Proof. unfold endActivityB. settled. Qed.
#[export] Hint Resolve settled_endActivityB : settled.
Lemma settled_startActivityB a b : settled b (startActivityB a b).1.
Proof. unfold startActivityB. settled. Qed.
#[export] Hint Resolve settled_startActivityB : settled.
Lemma settled_endRenameFileCommand b : settled b (endRenameFileCommand b).
Proof. unfold endRenameFileCommand. settled. Qed.
#[export] Hint Resolve settled_endRenameFileCommand : settled.
Lemma settled_endSwitchingToOffline b : settled b (endSwitchingToOffline b).
Proof. unfold endSwitchingToOffline. settled. Qed.
#[export] Hint Resolve settled_endSwitchingToOffline : settled.
Lemma settled_reportUploadToStorageFailed b : settled b (reportUploadToStorageFailed b).
Proof. unfold reportUploadToStorageFailed. settled. Qed.
#[export] Hint Resolve settled_reportUploadToStorageFailed : settled.
Lemma settled_setReadOnly id value b : settled b (setReadOnly id value b).
Proof. unfold setReadOnly. settled. Qed.
#[export] Hint Resolve settled_setReadOnly : settled.

Lemma settled_setLockFailed id reason b : settled b (setLockFailed id reason b).
Proof. unfold setLockFailed. settled. Qed.
#[export] Hint Resolve settled_setLockFailed : settled.
Lemma settled_handleLockResult ev id r b : settled b (handleLockResult ev id r b).1.
Proof. unfold handleLockResult. settled. Qed.
#[export] Hint Resolve settled_handleLockResult : settled.
Lemma settled_updateStorageLockState ev id lock b : settled b (updateStorageLockState ev id lock b).1.
Proof. unfold updateStorageLockState. settled. Qed.
#[export] Hint Resolve settled_updateStorageLockState : settled.
Lemma settled_failLoadingSessions remove b : settled b (failLoadingSessions remove b).
Proof. unfold failLoadingSessions. settled. Qed.
#[export] Hint Resolve settled_failLoadingSessions : settled.
Lemma settled_disconnectFromKit ev id b : settled b (disconnectFromKit ev id b).1.
Proof. unfold disconnectFromKit. settled. Qed.
#[export] Hint Resolve settled_disconnectFromKit : settled.
Lemma settled_finalRemoveSession id b : settled b (finalRemoveSession id b).
Proof. unfold finalRemoveSession. settled. Qed.
#[export] Hint Resolve settled_finalRemoveSession : settled.
Lemma settled_disconnectSessionInternal ev id b : settled b (disconnectSessionInternal ev id b).
Proof. unfold disconnectSessionInternal. settled. Qed.
#[export] Hint Resolve settled_disconnectSessionInternal : settled.

Lemma settled_disconnect_closed ev ids b : settled b (disconnect_closed ev ids b).
Proof.
  revert b. induction ids as [|id ids IH]; intros b; simpl; [reflexivity|].
  etransitivity; [|apply IH]. settled.
Qed.
#[export] Hint Resolve settled_disconnect_closed : settled.
Lemma settled_after_upload ev b : settled b (after_upload ev b).
Proof. unfold after_upload, disconnectClosedSessions. settled. Qed.
#[export] Hint Resolve settled_after_upload : settled.

(** ** An upload the host accepted *)

(** The answer of a running upload goes through the callback. *)
Lemma handle_answer parseJSON ev d body s b :
  db_storage b = Some s -> st_uploadHttpSession s = true ->
  handle parseJSON ev (UploadAnswer d body) b =
  (asyncUploadCallback ev (upload_finished parseJSON s d body).2
     (b <| db_storage := Some (upload_finished parseJSON s d body).1 |>)).1.
Proof. intros Hs Hu. cbn [handle]. rewrite Hs, Hu. by destruct (upload_finished _ _ _ _). Qed.

Lemma storage_response_session parseJSON s d body :
  st_uploadHttpSession (storage_response parseJSON s d body).1 = st_uploadHttpSession s /\
  st_jailedFilePath (storage_response parseJSON s d body).1 = st_jailedFilePath s.
Proof. unfold storage_response. repeat case_match; done. Qed.

Lemma upload_finished_state parseJSON s d body :
  st_uploadHttpSession (upload_finished parseJSON s d body).1 = false /\
  st_jailedFilePath (upload_finished parseJSON s d body).1 = st_jailedFilePath s /\
  au_state (upload_finished parseJSON s d body).2 = State_Complete /\
  au_result (upload_finished parseJSON s d body).2
  = (storage_response parseJSON (s <| st_uploadHttpSession := false |>) d body).2.
Proof.
  unfold upload_finished. pose proof (storage_response_session parseJSON (s <| st_uploadHttpSession := false |>) d body) as [H1 H2].
  destruct (storage_response _ _ _ _) as [s' r]. by split_and!.
Qed.

Lemma response_ok parseJSON s d body :
  ur_result (storage_response parseJSON s d body).2 = OK <-> wd_httpResponseCode d = 200.
Proof.
  unfold storage_response. destruct (Z.eqb_spec (wd_httpResponseCode d) 200) as [E|E]; [|split; [|done]; repeat case_match; done].
  split; [done|]. intros _. repeat case_match; done.
Qed.

Lemma successful_stored ev r u b :
  db_uploadRequest b = Some u -> up_isSaveAs u = false -> up_isRename u = false ->
  handleUploadToStorageSuccessful ev r b = (after_upload ev (upload_stored ev u b), Ok tt).
Proof. intros Hu H1 H2. unfold handleUploadToStorageSuccessful. by rewrite Hu, H1, H2. Qed.

Lemma upload_stored_default ev u b :
  activity b <> Rename -> activity b <> SwitchingToOffline ->
  upload_stored ev u b =
    b <| db_saveManager ::= setLastModifiedLocalTime (up_newFileModifiedLocalTime u) |>
      <| db_storageManager ::= fun m => m <| sg_lastModifiedServerTimeString := from_option st_modifiedTime [] (db_storage b) |>
                  <| sg_lastUploadedFileModifiedLocalTime := up_newFileModifiedLocalTime u |> |>
      <| db_documentChangedInStorage := false |> <| db_lastStorageAttrs := Attributes_reset |>.
Proof.
  intros H1 H2. unfold upload_stored. cbv zeta.
  match goal with |- match ?x with _ => _ end = _ => change x with (activity b) end.
  by destruct (activity b).
Qed.

(** The callback of a complete upload. *)
Lemma callback_complete ev a u b :
  db_uploadRequest b = Some u -> au_state a = State_Complete ->
  asyncUploadCallback ev a b = handleUploadToStorageResponse ev (au_result a) (setUploadComplete b).
Proof. intros Hu Ha. unfold asyncUploadCallback. by rewrite Hu, Ha. Qed.

Lemma setUploadComplete_request u b :
  db_uploadRequest b = Some u -> db_uploadRequest (setUploadComplete b) = Some (u <| up_completed := true |>).
Proof. intros Hu. unfold setUploadComplete. cbn. by rewrite Hu. Qed.

(** The successful callback, for a PutFile outside a rename or a switch. *)
Lemma callback_stored ev a u b :
  db_uploadRequest b = Some u -> up_isSaveAs u = false -> up_isRename u = false ->
  au_state a = State_Complete -> ur_result (au_result a) = OK ->
  activity b <> Rename -> activity b <> SwitchingToOffline ->
  let b' := (asyncUploadCallback ev a b).1 in
  db_storage b' = db_storage b /\ db_files b' = db_files b /\ db_documentChangedInStorage b' = false /\
  db_lastStorageAttrs b' = Attributes_reset /\ requests (db_out b') = requests (db_out b) /\
  db_storageManager b' = setLastUploadResult (ev_now ev) true (db_storageManager b)
    <| sg_lastModifiedServerTimeString := from_option st_modifiedTime [] (db_storage b) |>
    <| sg_lastUploadedFileModifiedLocalTime := up_newFileModifiedLocalTime u |>.
Proof.
  intros Hu H1 H2 Hst Hr Ha1 Ha2. cbv zeta. rewrite (callback_complete _ _ u) by done.
  unfold handleUploadToStorageResponse. rewrite Hr, bool_decide_eq_true_2 by done. cbv zeta.
  rewrite (successful_stored _ _ (u <| up_completed := true |>)); [|by apply setUploadComplete_request|done..].
  rewrite upload_stored_default by done. cbn [fst].
  match goal with |- context [after_upload ev ?x] => destruct (settled_after_upload ev x) as [S1 S2 S3 S4 S5 S6 S7 S8 S9 S10]; rewrite S1, S2, S3, S5, S7, S10 end.
  done.
Qed.

(** Fact (functional): a PutFile the host accepted settles the document. When its
    answer is 200 the upload is over and counts as successful, a conflict is
    resolved, the attributes are spent, the timestamp of the host is the one of its
    answer, and if the uploaded file is still the file on disk there is nothing more
    to upload - unless the document is being unloaded with [always_save_on_exit]. *)
Theorem upload_success_settles parseJSON ev d body s u b :
  db_storage b = Some s -> st_uploadHttpSession s = true -> db_uploadRequest b = Some u ->
  up_isSaveAs u = false -> up_isRename u = false -> wd_isSaveAs d = false -> wd_isRename d = false ->
  activity b <> Rename -> activity b <> SwitchingToOffline -> wd_httpResponseCode d = 200 ->
  up_newFileModifiedLocalTime u = modifiedTimepoint (db_files b) (getRootFilePathUploading s) ->
  let b' := handle parseJSON ev (UploadAnswer d body) b in
  isAsyncUploading b' = false /\ lastUploadSuccessful (db_storageManager b') = true /\
  db_documentChangedInStorage b' = false /\ db_lastStorageAttrs b' = Attributes_reset /\
  sg_lastModifiedServerTimeString (db_storageManager b')
  = from_option wo_LastModifiedTime (st_modifiedTime s) (parseJSON body) /\
  isStorageOutdated b' = false /\
  (needToUploadToStorage ev b' = true ->
   isUnloading ev b' = true /\ cf_alwaysSaveOnExit (db_config b') = true).
Proof.
  intros Hs Hup Hu H1 H2 H3 H4 Ha1 Ha2 Hc Ht b'. unfold b'. rewrite (handle_answer _ _ _ _ s) by done.
  destruct (upload_finished_state parseJSON s d body) as (F1 & F2 & F3 & F4).
  set (s' := (upload_finished parseJSON s d body).1) in *.
  assert (Em : st_modifiedTime s' = from_option wo_LastModifiedTime (st_modifiedTime s) (parseJSON body)).
  { unfold s', upload_finished, storage_response. rewrite Hc, H3, H4. cbn. by destruct (parseJSON body). }
  destruct (callback_stored ev (upload_finished parseJSON s d body).2 u (b <| db_storage := Some s' |>)) as (E1 & E2 & E3 & E4 & _ & E5);
    [done..| |done|done|]. { rewrite F4. by apply response_ok. }
  set (b1 := (asyncUploadCallback ev (upload_finished parseJSON s d body).2 (b <| db_storage := Some s' |>)).1) in *.
  cbn [rset db_storage db_files db_storageManager from_option] in E1, E2, E5.
  assert (Ho : isStorageOutdated b1 = false).
  { unfold isStorageOutdated. rewrite E1, E2, E5. unfold getRootFilePathUploading in *. rewrite F2.
    destruct (negb (stat_exists _ _)); [done|]. cbn [rset sg_lastUploadedFileModifiedLocalTime]. by rewrite Ht, Z.eqb_refl. }
  split_and!; try done.
  - unfold isAsyncUploading, uploadState. by rewrite E1, F1.
  - by rewrite E5.
  - rewrite E5. cbn. by rewrite Em.
  - unfold needToUploadToStorage. rewrite E1, Ho, E3.
    assert (Hl : lastUploadSuccessful (db_storageManager b1) = true) by by rewrite E5.
    rewrite Hl. cbn. destruct (isUnloading ev b1), (cf_alwaysSaveOnExit _); by cbn.
Qed.

(** ** An upload the host refused *)

(** A reaction to a failure leaves the files and the attributes alone. *)
Record reacted (b b' : DB) : Prop := {
  r_storage : db_storage b' = db_storage b;
  r_files : db_files b' = db_files b;
  r_manager : db_storageManager b' = db_storageManager b;
  r_current : db_currentStorageAttrs b' = db_currentStorageAttrs b;
  r_last : db_lastStorageAttrs b' = db_lastStorageAttrs b }.

#[export] Instance reacted_preorder : PreOrder reacted.
Proof. split; [by split|]. intros b1 b2 b3 [] []. split; congruence. Qed.

Lemma settled_reacted b b' : settled b b' -> reacted b b'.
Proof. intros []. by split. Qed.

Ltac reacted_field := by split.
Ltac reacted_call := apply settled_reacted; settled_call.
Ltac reacted := intros; cbn zeta; repeat (peel reacted_field reacted_call; cbn zeta).

Lemma reacted_failure r b : reacted b (react_to_failure r b).
Proof. unfold react_to_failure, handleDocumentConflict, make_readonly. reacted. Qed.

(** What a reaction is for. *)
Definition failure_effect (r : Result) (u : UploadRequest) (b' : DB) : Prop :=
  match r with
  | TOO_LARGE | DISKFULL => Forall (fun s => isEditable s = false) (db_sessions b')
  | UNAUTHORIZED => Forall (fun s => se_id s = up_session u -> se_authExpired s = true) (db_sessions b')
  | FAILED => activity b' = SyncFileTimestamp
  | DOC_CHANGED | CONFLICT => db_documentChangedInStorage b' = true
  | OK => True
  end.

Lemma setWritable_readonly l : Forall (fun s => isEditable s = false) (map (setWritable false) l).
Proof. by induction l; constructor. Qed.

Lemma invalidated id l :
  Forall (fun s => se_id s = id -> se_authExpired s = true)
         (map (fun s => if beq (se_id s) id then invalidateAuthorizationToken s else s) l).
Proof.
  induction l as [|s l IH]; constructor; [|done]. destruct (beq _ _) eqn:E; [done|].
  intros Hs. by rewrite Hs, beq_refl in E.
Qed.

Lemma broadcastSaveResult_state x y z b :
  db_sessions (broadcastSaveResult x y z b) = db_sessions b /\ activity (broadcastSaveResult x y z b) = activity b.
Proof. done. Qed.

Lemma reportUpload_activity b : activity (reportUploadToStorageFailed b) = activity b.
Proof. unfold reportUploadToStorageFailed, sendTextFrame. by repeat case_match. Qed.

Lemma handleDocumentConflict_changed b : db_documentChangedInStorage (handleDocumentConflict b) = true.
Proof. unfold handleDocumentConflict, stop. by repeat case_match. Qed.

Lemma react_effect r u b : db_uploadRequest b = Some u -> failure_effect (ur_result r) u (react_to_failure r b).
Proof.
  intros Hu. unfold react_to_failure. destruct (ur_result r); cbn [failure_effect]; try done;
    rewrite ?(proj1 (broadcastSaveResult_state _ _ _ _)), ?(proj2 (broadcastSaveResult_state _ _ _ _)).
  - apply setWritable_readonly.
  - apply setWritable_readonly.
  - rewrite Hu. apply invalidated.
  - apply handleDocumentConflict_changed.
  - apply handleDocumentConflict_changed.
  - cbv zeta. by rewrite reportUpload_activity, startActivityB_none.
Qed.

Lemma handleUploadToStorageFailed_spec r u b :
  db_uploadRequest b = Some u ->
  let b' := handleUploadToStorageFailed r b in
  db_currentStorageAttrs b' = attr_merge (db_currentStorageAttrs b) (db_lastStorageAttrs b) /\
  db_storageManager b' = db_storageManager b /\ db_storage b' = db_storage b /\ db_files b' = db_files b /\
  failure_effect (ur_result r) u b'.
Proof.
  intros Hu. cbv zeta. unfold handleUploadToStorageFailed. cbv zeta.
  match goal with |- context [react_to_failure r ?x] => set (b1 := x) end.
  assert (S1 : settled b b1) by (unfold b1; settled). destruct S1 as [S1 S2 S3 _ _ S6 S7 S8 _ _]. clearbody b1.
  rewrite <- S8 in Hu. pose proof (react_effect r u b1 Hu) as He. destruct (reacted_failure r b1) as [T1 T2 T3 T4 T5].
  set (b2 := react_to_failure r b1) in *. clearbody b2. rewrite <- S1, <- S2, <- S3, <- S6, <- S7, <- T1, <- T2, <- T3, <- T4, <- T5.
  by split_and!; [..|destruct (ur_result r)].
Qed.

Definition status_result (code : Z) : Result -> Prop :=
  fun r => if code =? 413 then r = TOO_LARGE
           else if (code =? 401) || (code =? 403) || (code =? 404) then r = UNAUTHORIZED
           else if code =? 409 then r = CONFLICT \/ r = DOC_CHANGED
           else r = FAILED.

Lemma response_status parseJSON s d body :
  wd_httpResponseCode d <> 200 -> status_result (wd_httpResponseCode d) (ur_result (storage_response parseJSON s d body).2).
Proof.
  intros Hc. unfold status_result, storage_response. rewrite (proj2 (Z.eqb_neq _ _) Hc).
  repeat case_match; auto.
Qed.

Lemma attr_merge_fields next tried :
  let m := attr_merge next tried in
  at_forced m = at_forced next || at_forced tried /\
  at_isUserModified m = at_isUserModified next || at_isUserModified tried /\
  at_isAutosave m = at_isAutosave next || at_isAutosave tried /\
  at_isExitSave m = at_isExitSave next || at_isExitSave tried /\
  at_extendedData m = if decide (at_extendedData tried = []) then at_extendedData next else at_extendedData tried.
Proof.
  destruct next as [[|? ?] [] [] [] []], tried as [[|? ?] [] [] [] []]; by repeat split.
Qed.


(** ** An upload that could not be made *)

(** The callback without a result: what it leaves to the next attempt. *)
Record attempted (b b' : DB) : Prop := {
  a_sessions : db_sessions b' = db_sessions b;
  a_storage : db_storage b' = db_storage b;
  a_files : db_files b' = db_files b;
  a_current : db_currentStorageAttrs b' = db_currentStorageAttrs b;
  a_last : db_lastStorageAttrs b' = db_lastStorageAttrs b;
  a_config : db_config b' = db_config b;
  a_requests : requests (db_out b') = requests (db_out b) }.

#[export] Instance attempted_preorder : PreOrder attempted.
Proof. split; [by split|]. intros b1 b2 b3 [] []. split; congruence. Qed.

Lemma settled_attempted b b' : settled b b' -> db_sessions b' = db_sessions b -> attempted b b'.
Proof. intros [] ?. by split. Qed.

Lemma attempted_sendTextFrame id msg b : attempted b (sendTextFrame id msg b).
Proof. apply settled_attempted; [apply settled_sendTextFrame|]. unfold sendTextFrame. by repeat case_match. Qed.
Lemma attempted_report b : attempted b (reportUploadToStorageFailed b).
Proof. unfold reportUploadToStorageFailed. case_match; [apply attempted_sendTextFrame|done]. Qed.
Lemma attempted_broadcastSaveResult x y z b : attempted b (broadcastSaveResult x y z b).
Proof. by apply settled_attempted; [apply settled_broadcastSaveResult|]. Qed.
Lemma attempted_endRename b : attempted b (endRenameFileCommand b).
Proof. by apply settled_attempted; [apply settled_endRenameFileCommand|]. Qed.
Lemma attempted_endSwitching b : attempted b (endSwitchingToOffline b).
Proof. by apply settled_attempted; [apply settled_endSwitchingToOffline|]. Qed.

Create HintDb attempted.
#[export] Hint Resolve attempted_sendTextFrame attempted_report attempted_broadcastSaveResult
  attempted_endRename attempted_endSwitching : attempted.

Ltac attempted_field := by split.
Ltac attempted_call := solve [auto 1 with attempted].

Lemma attempted_incomplete ev a b : attempted b (uploadCallback_incomplete ev a b).
Proof.
  unfold uploadCallback_incomplete, setUploadComplete. cbn zeta. repeat (peel attempted_field attempted_call; cbn zeta).
Qed.

(** A running callback changes nothing. *)
Lemma incomplete_running ev a b : au_state a = State_Running -> uploadCallback_incomplete ev a b = b.
Proof. intros Ha. unfold uploadCallback_incomplete. rewrite Ha. by case_match. Qed.

(** A session that may upload starts an upload of the file on disk. *)
Lemma uploadToStorageInternal_starts ev id session s force b :
  find_session id b = Some session -> isEditable session = true -> db_storage b = Some s ->
  let request := UploadRequest_new (se_uri session) (modifiedTimepoint (db_files b) (getRootFilePathUploading s))
                   id false false false in
  let attrs := upload_attributes ev force b in
  uploadToStorageInternal ev id [] [] false false force b =
  start_upload ev
    (uploadLocalFileToStorageAsync (cf_utf7 (db_config b)) s (db_files b) (db_lockCtx b) [] [] false attrs (ev_connects ev))
    (prepare_upload ev request attrs b).
Proof. intros Hf He Hs. unfold uploadToStorageInternal. by rewrite Hf, He, Hs. Qed.

(** When nothing is in the way, the request is put on the wire. *)
Lemma uploadLocalFileToStorageAsync_starts utf7 s fs lockCtx attrs t size :
  st_uploadHttpSession s = false -> fs !! getRootFilePathUploading s = Some (t, size) ->
  uploadLocalFileToStorageAsync utf7 s fs lockCtx [] [] false attrs true =
  {| us_storage := s <| st_uploadHttpSession := true |>; us_size := size;
     us_callback := {| au_result := UploadResult_new OK []; au_state := State_Running |};
     us_request := Some (makeRequest utf7 s lockCtx false false size (getRootFilePathUploading s) [] attrs) |}.
Proof. intros Hu Hf. unfold uploadLocalFileToStorageAsync. rewrite Hu. cbn [length Nat.eqb negb andb]. by rewrite Hf. Qed.

Lemma uploadToStorageInternal_puts ev id session s f b :
  find_session id b = Some session -> isEditable session = true -> db_storage b = Some s ->
  st_uploadHttpSession s = false -> db_files b !! getRootFilePathUploading s = Some f -> ev_connects ev = true ->
  exists r, db_out (uploadToStorageInternal ev id [] [] false false false b) = db_out b ++ [ToStorage r] /\
    rq_headers r = (if lc_supportsLocks (db_lockCtx b) then [(str "X-WOPI-Lock", lc_lockToken (db_lockCtx b))] else [])
                   ++ put_headers s (upload_attributes ev false b).
Proof.
  intros Hf He Hs Hu Hfile Hc. destruct f as [t size]. rewrite (uploadToStorageInternal_starts _ _ session s) by done.
  rewrite Hc, (uploadLocalFileToStorageAsync_starts _ _ _ _ _ t size) by done.
  unfold start_upload. cbn [us_callback us_storage us_request us_size].
  rewrite incomplete_running by done. by eexists.
Qed.

(** Fact (error): when the connection to the host fails, the attributes of the upload
    are dropped instead of being merged back as on a refusal: a document the user
    modified is uploaded by the next attempt as not modified by the user. *)
Theorem connect_failure_drops_attributes parseJSON ev ev' s f id session b :
  db_storage b = Some s -> st_uploadHttpSession s = true -> is_Some (db_uploadRequest b) ->
  find_session id b = Some session -> isEditable session = true ->
  db_files b !! getRootFilePathUploading s = Some f -> ev_connects ev' = true ->
  at_isUserModified (db_lastStorageAttrs b) = true -> at_isUserModified (db_currentStorageAttrs b) = false ->
  let b1 := handle parseJSON ev UploadConnectFailed b in
  let b2 := uploadToStorageInternal ev' id [] [] false false false b1 in
  exists r, db_out b2 = db_out b1 ++ [ToStorage r] /\
    In (str "X-WOPI-Override", str "PUT") (rq_headers r) /\
    In (str "X-COOL-WOPI-IsModifiedByUser", str "false") (rq_headers r) /\
    ~ In (str "X-COOL-WOPI-IsModifiedByUser", str "true") (rq_headers r).
Proof.
  intros Hs Hu Hr Hf He Hfile Hc Hl Hcur b1 b2.
  assert (A : attempted (b <| db_storage := Some (s <| st_uploadHttpSession := false |>) |>) b1).
  { unfold b1. cbn [handle]. rewrite Hs, Hu. cbn [upload_connect_failed].
    unfold asyncUploadCallback. destruct Hr as [u Hr]. cbn [rset db_uploadRequest]. rewrite Hr. cbn [au_state].
    rewrite bool_decide_eq_false_2 by done. apply attempted_incomplete. }
  destruct A as [A1 A2 A3 A4 A5 A6 A7]. cbn [rset db_sessions db_storage db_files db_currentStorageAttrs] in A1, A2, A3, A4.
  destruct (uploadToStorageInternal_puts ev' id session (s <| st_uploadHttpSession := false |>) f b1)
    as (r & Eo & Eh); [by unfold find_session; rewrite A1|done|done|done| |done|].
  { by rewrite A3. }
  exists r. split; [done|]. rewrite Eh.
  assert (Em : at_isUserModified (upload_attributes ev' false b1) = false).
  { unfold upload_attributes. cbn [rset at_isUserModified]. by rewrite A4. }
  split_and!.
  - apply in_or_app. right. by left.
  - apply in_or_app. right. right. left. by rewrite Em.
  - unfold put_headers, legacy_pair. rewrite Em. intros Hin.
    repeat (apply in_app_or in Hin as [Hin|Hin] || destruct Hin as [Hin|Hin] || case_match || done).
Qed.

(** ** An upload while another one runs *)

(** The storage refuses it; the callback records the failure. *)
Lemma uploadToStorageInternal_busy ev id session s force b :
  find_session id b = Some session -> isEditable session = true -> db_storage b = Some s ->
  st_uploadHttpSession s = true ->
  let request := UploadRequest_new (se_uri session) (modifiedTimepoint (db_files b) (getRootFilePathUploading s))
                   id false false false in
  uploadToStorageInternal ev id [] [] false false force b =
  start_upload ev (upload_error s (str "Already in progress.")) (prepare_upload ev request (upload_attributes ev force b) b).
Proof.
  intros Hf He Hs Hu request. rewrite (uploadToStorageInternal_starts _ _ session s) by done.
  unfold uploadLocalFileToStorageAsync. by rewrite Hu.
Qed.

(** The callback that ends an attempt, outside a rename or a switch. *)
Lemma incomplete_failed ev r u b :
  db_uploadRequest b = Some u -> activity b <> Rename -> activity b <> SwitchingToOffline ->
  uploadCallback_incomplete ev {| au_result := r; au_state := State_Error |} b =
  reportUploadToStorageFailed
    (broadcastSaveResult false (str "Could not upload document to storage") (ur_reason r) (setUploadComplete b)
     <| db_storageManager ::= setLastUploadResult (ev_now ev) false |>).
Proof.
  intros Hu H1 H2. unfold uploadCallback_incomplete. rewrite Hu. cbn [au_state au_result].
  rewrite bool_decide_eq_false_2 by done. cbv zeta.
  match goal with |- match ?x with _ => _ end = _ => change x with (activity b) end. by destruct (activity b).
Qed.

Lemma start_upload_busy ev reason s u b :
  db_uploadRequest b = Some u -> activity b <> Rename -> activity b <> SwitchingToOffline ->
  let b' := start_upload ev (upload_error s reason) b in
  db_uploadRequest b' = Some (u <| up_completed := true |>) /\ activity b' = activity b /\
  db_storage b' = Some s /\ db_files b' = db_files b /\ requests (db_out b') = requests (db_out b).
Proof.
  intros Hu H1 H2. cbv zeta. unfold start_upload. cbn [upload_error us_callback us_storage us_request us_size].
  rewrite (incomplete_failed _ _ u) by done.
  match goal with |- context [reportUploadToStorageFailed ?x] =>
    pose proof (settled_reportUploadToStorageFailed x) as [S1 S2 _ _ _ _ _ S8 _ S10];
    pose proof (reportUpload_activity x) as Ha; set (b1 := x) in * end.
  cbn [rset db_uploadRequest db_storage db_files db_out].
  assert (E8 : db_uploadRequest b1 = Some (u <| up_completed := true |>)) by (unfold b1; cbn; by rewrite Hu).
  assert (E10 : requests (db_out b1) = requests (db_out b)).
  { unfold b1. cbn [rset db_out broadcastSaveResult broadcastMessage setUploadComplete].
    by rewrite requests_app, requests_clients, app_nil_r. }
  rewrite S1, S2, S8, S10. split_and!; done.
Qed.

(** Fact (error): a version of the document that was never sent can be taken for
    uploaded. When a second version is on disk while the first is still being
    uploaded, the attempt to upload it replaces the record of the running upload
    before the storage refuses it; if the answer for the first version comes before
    an idle round of the poll loop has dropped that record, it is booked on the
    second one: no request was made for it, but the storage no longer counts as
    outdated and the last upload as successful. Once the record is dropped, the
    answer is booked on nothing ([answer_without_record]). *)
Theorem overlapping_upload_loses_version parseJSON ev ev' d body s id session b :
  db_storage b = Some s -> st_uploadHttpSession s = true -> activity b <> Rename -> activity b <> SwitchingToOffline ->
  find_session id b = Some session -> isEditable session = true -> lastUploadSuccessful (db_storageManager b) = true ->
  wd_httpResponseCode d = 200 -> isStorageOutdated b = true ->
  let b1 := uploadToStorage ev id false b in
  let b2 := handle parseJSON ev' (UploadAnswer d body) b1 in
  requests (db_out b2) = requests (db_out b) /\
  isStorageOutdated b2 = false /\ lastUploadSuccessful (db_storageManager b2) = true.
Proof.
  intros Hs Hu Ha1 Ha2 Hf He Hl Hc _ b1 b2.
  assert (E1 : b1 = uploadToStorageInternal ev id [] [] false false false b).
  { unfold b1, uploadToStorage. by rewrite Hl. }
  rewrite (uploadToStorageInternal_busy _ _ session s) in E1 by done.
  set (u := UploadRequest_new _ _ _ _ _ _) in E1.
  destruct (start_upload_busy ev (str "Already in progress.") s u (prepare_upload ev u (upload_attributes ev false b) b))
    as (R1 & R2 & R3 & R4 & R5); [done..|]. rewrite <- E1 in R1, R2, R3, R4, R5. clearbody b1.
  cbn [prepare_upload rset db_files db_out] in R4, R5.
  unfold b2. rewrite (handle_answer _ _ _ _ s) by done. destruct (upload_finished_state parseJSON s d body) as (F1 & F2 & F3 & F4).
  set (s' := (upload_finished parseJSON s d body).1) in *. set (a := (upload_finished parseJSON s d body).2) in *.
  assert (Hok : ur_result (au_result a) = OK) by (rewrite F4; by apply response_ok). clearbody s' a.
  change (activity b1 = activity b) in R2. rewrite <- R2 in Ha1, Ha2.
  set (b1' := b1 <| db_storage := Some s' |>).
  destruct (callback_stored ev' a _ b1' R1) as (C1 & C2 & C3 & C4 & C6 & C5); [done..|].
  split_and!.
  - by rewrite C6, <- R5.
  - unfold isStorageOutdated. rewrite C1, C2, C5. cbn [rset db_storage db_files sg_lastUploadedFileModifiedLocalTime].
    change (db_files b1') with (db_files b1). change (db_storage b1') with (Some s'). cbv beta iota.
    rewrite R4. unfold getRootFilePathUploading. rewrite F2. destruct (negb (stat_exists _ _)); [done|].
    unfold u. cbn [UploadRequest_new rset up_newFileModifiedLocalTime]. unfold getRootFilePathUploading. by rewrite Z.eqb_refl.
  - by rewrite C5.
Qed.

(** Fact (functional): the answer of an upload whose record is gone is booked on
    nothing: the storage is as outdated as before, the last upload as successful, and
    another upload can start. *)
Theorem answer_without_record parseJSON ev d body s b :
  db_storage b = Some s -> st_uploadHttpSession s = true -> db_uploadRequest b = None ->
  let b' := handle parseJSON ev (UploadAnswer d body) b in
  isStorageOutdated b' = isStorageOutdated b /\ db_storageManager b' = db_storageManager b /\
  isAsyncUploading b' = false /\ db_out b' = db_out b.
Proof.
  intros Hs Hu Hr b'. unfold b'. rewrite (handle_answer _ _ _ _ s) by done. unfold asyncUploadCallback.
  change (db_uploadRequest (b <| db_storage := Some (upload_finished parseJSON s d body).1 |>)) with (db_uploadRequest b).
  rewrite Hr. cbn [fst]. destruct (upload_finished_state parseJSON s d body) as (F1 & F2 & _ & _).
  split_and!; try done.
  - unfold isStorageOutdated, getRootFilePathUploading. cbn [rset db_storage]. rewrite Hs, F2. done.
  - unfold isAsyncUploading, uploadState. cbn [rset db_storage]. by rewrite F1.
Qed.

(** ** Synchronizing with the host *)

Lemma run_size parseJSON evs : forall b,
  sg_sizeOnServer (db_storageManager (run parseJSON evs b)) = sg_sizeOnServer (db_storageManager b).
Proof.
  induction evs as [|[ev e] evs IH]; intros b; [done|]. cbn [run]. rewrite IH.
  destruct (is_modify e) as [->|He]; [done|]. apply (t_size _ _ (stepped_handle parseJSON ev e b He)).
Qed.

(** Fact (error): the size of the document on the host is never recorded, so after a
    failed upload the broker cannot tell that the host still has the old version.
    Whatever happened before, when the host is asked again and the document there
    has any size but that of the failed upload - the old one included - the document
    is declared in conflict, although nobody else changed it. *)
Theorem resync_takes_old_version_for_conflict parseJSON ev evs b lastModifiedTime size :
  sg_sizeOnServer (db_storageManager b) = 0 ->
  let b1 := run parseJSON evs b in
  activity b1 = SyncFileTimestamp -> is_Some (db_checkFileInfo b1) ->
  size <> sg_sizeAsUploaded (db_storageManager b1) ->
  let b2 := handle parseJSON ev (CheckFileInfoAnswer (Pass (Some (lastModifiedTime, size)))) b1 in
  db_documentChangedInStorage b2 = true /\ activity b2 = Activity_None.
Proof.
  intros H0 b1 Ha [id Hc] Hs b2. unfold b2. cbn [handle]. rewrite Ha, bool_decide_eq_true_2 by done.
  unfold checkFileInfo_done. rewrite Hc. cbn [endActivityB rset db_storageManager].
  assert (E : sg_sizeOnServer (db_storageManager b1) = 0) by (unfold b1; by rewrite run_size).
  rewrite E. rewrite (proj2 (Z.eqb_neq _ _)) by auto. cbn [negb Z.eqb orb].
  split; [apply handleDocumentConflict_changed|].
  unfold handleDocumentConflict, stop. by repeat case_match.
Qed.

(** ** Unloading *)

(** Saving and uploading do not stop the broker. *)
Definition same_stop (b b' : DB) : Prop := db_stop b' = db_stop b.

#[export] Instance same_stop_preorder : PreOrder same_stop.
Proof. split; [done|]. unfold same_stop. intros b1 b2 b3 H1 H2. congruence. Qed.

Create HintDb same_stop.
Ltac same_stop_field := reflexivity.
Ltac same_stop_call := solve [auto 1 with same_stop].
Ltac same_stop := intros; cbn zeta; repeat (peel same_stop_field same_stop_call; cbn zeta).

Lemma same_stop_output o b : same_stop b (output o b).
Proof. done. Qed.
Lemma same_stop_sendTextFrame id msg b : same_stop b (sendTextFrame id msg b).
Proof. unfold sendTextFrame, output. same_stop. Qed.
Lemma same_stop_forwardToChild ev id msg b : same_stop b (forwardToChild ev id msg b).1.
Proof. unfold forwardToChild, output. same_stop. Qed.
Lemma same_stop_startActivityB a b : same_stop b (startActivityB a b).1.
Proof. unfold startActivityB. same_stop. Qed.
#[export] Hint Resolve same_stop_output same_stop_sendTextFrame same_stop_forwardToChild same_stop_startActivityB : same_stop.

Lemma same_stop_incomplete ev a b : same_stop b (uploadCallback_incomplete ev a b).
Proof.
  unfold uploadCallback_incomplete, reportUploadToStorageFailed, endRenameFileCommand, endSwitchingToOffline, endActivityB,
    unblockUI, broadcastSaveResult, broadcastMessage, setUploadComplete. same_stop.
Qed.
#[export] Hint Resolve same_stop_incomplete : same_stop.
Lemma same_stop_uploadToStorage ev id force b : same_stop b (uploadToStorage ev id force b).
Proof. unfold uploadToStorage, uploadToStorageInternal, start_upload, prepare_upload. same_stop. Qed.
Lemma same_stop_sendUnoSave ev id x y z u data b : same_stop b (sendUnoSave ev id x y z u data b).1.
Proof. unfold sendUnoSave. same_stop. Qed.
#[export] Hint Resolve same_stop_uploadToStorage same_stop_sendUnoSave : same_stop.
Lemma same_stop_autoSave ev x y z b : same_stop b (autoSave ev x y z b).1.
Proof. unfold autoSave. same_stop. Qed.
#[export] Hint Resolve same_stop_autoSave : same_stop.

(** Writing is possible, and the kit is connected. *)
Definition can_write (b : DB) : Prop := canSaveToDisk b = CanSave_Yes /\ db_kitSocket b = true.

(** There are changes that no save has captured. *)
Definition unsaved (b : DB) : Prop :=
  haveModifyActivityAfterSaveRequest b = true \/ lastSaveSuccessful (db_saveManager b) = false.

Lemma unsaved_need b : unsaved b -> needToSaveToDisk b <> NeedToSave_No.
Proof.
  unfold unsaved, needToSaveToDisk. destruct (lastSaveSuccessful _); cbn [negb]; [|done].
  intros [->|]; [|done]. by destruct (db_isModified b && _).
Qed.

Lemma can_stop_unsaved ev b : unsaved b -> canSaveToDisk b = CanSave_Yes -> can_stop ev b = Some false.
Proof.
  intros Hu Hc. unfold can_stop. rewrite (bool_decide_eq_false_2 _ (unsaved_need b Hu)), Hc, (bool_decide_eq_true_2 (CanSave_Yes = _)) by done.
  cbn [negb andb]. destruct (needToUploadToStorage ev b); [done|]. cbn [negb andb].
  assert (E : negb (haveModifyActivityAfterSaveRequest b) && lastSaveSuccessful (db_saveManager b) = false).
  { destruct Hu as [->| ->]; [done|]. apply andb_false_r. }
  by rewrite E.
Qed.

Lemma find_session_In s b : In s (db_sessions b) -> is_Some (find_session (se_id s) b).
Proof.
  unfold find_session. induction (db_sessions b) as [|s' l IH]; [done|]. cbn.
  destruct (beq (se_id s') (se_id s)) eqn:E; [done|]. intros [->|H]; [by rewrite beq_refl in E|auto].
Qed.

Lemma writeable_from_In acc l s : writeable_from acc l = Some s -> acc = Some s \/ In s l.
Proof.
  revert acc. induction l as [|s' l IH]; intros acc; cbn; [auto|].
  destruct (se_isDocumentOwner s'); [naive_solver|]. intros H. apply IH in H.
  destruct acc, H as [H|H]; try destruct (_ && _ && _); naive_solver.
Qed.

Lemma autosave_session_some b : canSaveToDisk b = CanSave_Yes -> exists s, autosave_session b = Some s /\ In s (db_sessions b).
Proof.
  unfold canSaveToDisk. destruct (_ || _); [done|]. destruct (negb (isLoaded b)); [done|].
  destruct (_ =? 0)%nat; [done|]. destruct (bool_decide (is_Some (getWriteableSession b))) eqn:E; [|done]. intros _.
  apply bool_decide_eq_true in E as [s Hs].
  assert (Hw : In s (db_sessions b)) by (destruct (writeable_from_In _ _ _ Hs); [done|auto]).
  unfold autosave_session. destruct (find_session _ b) as [s'|] eqn:Ef; [|eauto].
  destruct (isEditable s' && isViewLoaded s'); [|eauto]. exists s'. split; [done|]. by eapply find_some.
Qed.

Lemma sendUnoSave_sent ev id x y z u data b :
  is_Some (find_session id b) -> db_kitSocket b = true ->
  (sendUnoSave ev id x y z u data b).2 = true /\
  exists l, db_out (sendUnoSave ev id x y z u data b).1 = db_out b ++ l /\ Exists is_save l.
Proof.
  intros [s Hs] Hk. unfold sendUnoSave. cbv zeta.
  match goal with |- context [forwardToChild _ _ _ ?r] => set (b1 := r) end.
  assert (E1 : find_session id b1 = Some s) by done. assert (E2 : db_kitSocket b1 = true) by done.
  assert (E3 : db_out b1 = db_out b) by done. clearbody b1.
  destruct (forwardToChild _ _ _ b1) as [b2 sent] eqn:E.
  assert (sent = true) as ->.
  { unfold forwardToChild in E. rewrite E1, E2 in E. by repeat case_match; simplify_eq. }
  apply forward_save in E. split; [done|]. cbn [fst].
  match type of E with _ = output ?o _ => exists [o] end.
  split; [|rewrite Exists_cons; left; apply save_is_save].
  assert (Eo : forall a b', db_out (startActivityB a b').1 = db_out b').
  { intros a b'. unfold startActivityB. by destruct (startActivity _ _). }
  destruct (bool_decide _); rewrite ?Eo; cbn [rset db_out]; by rewrite E, <- E3.
Qed.

(** With the kit connected and a session to write, a forced automatic save is sent. *)
Lemma autoSave_forced ev dontSaveIfUnmodified finalWrite b :
  can_write b -> activity b <> Save ->
  (autoSave ev true dontSaveIfUnmodified finalWrite b).2 = true /\
  exists l, db_out (autoSave ev true dontSaveIfUnmodified finalWrite b).1 = db_out b ++ l /\ Exists is_save l.
Proof.
  intros [Hc Hk] Ha. unfold autoSave. rewrite bool_decide_eq_false_2 by done. cbv zeta.
  set (b1 := b <| db_saveManager ::= autoSaveChecked (ev_now ev) |>).
  assert (E : canSaveToDisk b1 = CanSave_Yes) by done. rewrite E, bool_decide_eq_true_2 by done. cbn [negb andb].
  rewrite andb_false_r. destruct (autosave_session_some b1 E) as (s & Hs & Hin). rewrite Hs.
  by destruct (sendUnoSave_sent ev (se_id s) true dontSaveIfUnmodified false finalWrite [] b1 (find_session_In _ _ Hin) Hk).
Qed.

(** When an automatic save is not sent, nothing but the time of the check changes. *)
Lemma autoSave_not_sent ev force dontSaveIfUnmodified finalWrite b :
  can_write b -> (autoSave ev force dontSaveIfUnmodified finalWrite b).2 = false ->
  (autoSave ev force dontSaveIfUnmodified finalWrite b).1 = b <| db_saveManager ::= autoSaveChecked (ev_now ev) |>.
Proof.
  intros [Hc Hk]. unfold autoSave. destruct (bool_decide (activity b = Save)); [done|]. cbv zeta.
  set (b1 := b <| db_saveManager ::= autoSaveChecked (ev_now ev) |>).
  assert (E : canSaveToDisk b1 = CanSave_Yes) by done. rewrite E, bool_decide_eq_true_2 by done. cbn [negb].
  destruct (_ && negb force); [done|]. destruct (autosave_session_some b1 E) as (s & Hs & Hin). rewrite Hs.
  pose proof (fun a c d e f => proj1 (sendUnoSave_sent ev (se_id s) a c d e f b1 (find_session_In _ _ Hin) Hk)) as Hsent.
  destruct force; [by rewrite Hsent|]. destruct (_ && _); [by rewrite Hsent|done].
Qed.

Lemma outdated_need ev b : isStorageOutdated b = true -> needToUploadToStorage ev b = true.
Proof.
  intros H. unfold needToUploadToStorage. rewrite H. unfold isStorageOutdated in H. destruct (db_storage b); [|done].
  by repeat case_match.
Qed.

Lemma can_stop_outdated ev b :
  isStorageOutdated b = true -> canSaveToDisk b = CanSave_Yes -> can_stop ev b = Some false.
Proof.
  intros Ho Hc. unfold can_stop. rewrite (outdated_need ev b Ho), Ho, Hc, (bool_decide_eq_true_2 (CanSave_Yes = _)) by done.
  cbn [negb andb]. by rewrite !andb_false_r.
Qed.

Lemma checkAndUpload_outdated ev id justSaved b :
  isStorageOutdated b = true -> db_stop (checkAndUploadToStorage ev id justSaved b) = db_stop b.
Proof.
  intros Ho. change (same_stop b (checkAndUploadToStorage ev id justSaved b)).
  unfold checkAndUploadToStorage. rewrite (outdated_need ev b Ho). unfold upload_if_needed, endActivityB. cbn [negb]. same_stop.
Qed.


(** Fact (error): the owner of the document is picked to upload even if its token is
    expired. With a saved version that is not in the storage, nothing left to save
    and the owner's token expired, [autoSaveAndStop] stops the broker with the
    storage outdated, although a session that can write with a valid token may be
    there. *)
Theorem expired_owner_stops_outdated ev reason b owner :
  getWriteableSession b = Some owner -> se_authExpired owner = true -> canSaveToDisk b = CanSave_Yes ->
  isSaving (db_saveManager b) = false -> isAsyncUploading b = false -> activity b <> Save ->
  canSaveNow (ev_now ev) (isUnloading ev b) (db_saveManager b) = true ->
  haveModifyActivityAfterSaveRequest b = false -> db_isModified b = false -> lastSaveSuccessful (db_saveManager b) = true ->
  isStorageOutdated b = true ->
  let b' := autoSaveAndStop ev reason b in
  db_stop b' = true /\ isStorageOutdated b' = true /\ requests (db_out b') = requests (db_out b).
Proof.
  intros Hw He Hc Hsv Hup Ha Hcan Hh Hmod Hl Ho b'. unfold b', autoSaveAndStop.
  assert (Hm : isPossiblyModified b = false) by (unfold isPossiblyModified; rewrite Hh, Hl, Hmod; by case_match).
  rewrite Hsv, Hup, Hcan, Hm, Hl, (can_stop_outdated ev b Ho Hc). cbn [orb negb].
  set (b1 := b <| db_saveManager ::= autoSaveChecked (ev_now ev) |>).
  assert (E : autoSave ev false true true b = (b1, false)).
  { unfold autoSave. rewrite bool_decide_eq_false_2 by done. cbv zeta. fold b1.
    change (canSaveToDisk b1) with (canSaveToDisk b). change (db_isModified b1) with (db_isModified b).
    by rewrite Hc, Hmod. }
  rewrite E. change (getWriteableSession b1) with (getWriteableSession b). rewrite Hw, He. cbn [negb].
  unfold stop. by repeat case_match.
Qed.

(** ** Activities without an end *)

(** Fact (error): a rename, or a switch to offline or online, has no time limit. If
    the answer it waits for does not come - the save fails to return, its kit is
    gone, or the upload was put off - the rounds of the poll loop leave the document
    in that activity for good: nothing is sent, saved, uploaded or stopped, even if
    the document is being closed. *)
Theorem rename_never_times_out parseJSON evs b :
  activity b = Rename \/ activity b = SwitchingToOffline \/ activity b = SwitchingToOnline ->
  ds_interactive (db_docState b) = false -> Forall (fun p => p.2 = Poll) evs ->
  let b' := run parseJSON evs b in
  activity b' = activity b /\ db_out b' = db_out b /\ db_stop b' = db_stop b /\
  db_uploadRequest b' = db_uploadRequest b /\ save_request b' = save_request b.
Proof.
  intros Ha Hd H. cbv zeta. revert b Ha Hd. induction H as [|[ev e] evs He H IH]; intros b Ha Hd; [done|].
  cbn [run]. cbn in He. subst e.
  assert (exists now, handle parseJSON ev Poll b = b \/
      handle parseJSON ev Poll b = b <| db_saveManager ::= postponeAutosave now 30 |>) as [now E].
  { exists (ev_now ev). cbn [handle]. unfold poll_round. rewrite Hd. destruct (db_stop b); [by left|right]. unfold poll_activity.
    by destruct Ha as [->|[->| ->]]. }
  assert (Es : forall sm, sm_request (postponeAutosave now 30 sm) = sm_request sm).
  { intros sm. unfold postponeAutosave. by destruct (_ <? _). }
  destruct (IH (handle parseJSON ev Poll b)) as (I1 & I2 & I3 & I4 & I5).
  { by destruct E as [->| ->]. }
  { by destruct E as [->| ->]. }
  rewrite I1, I2, I3, I4, I5. destruct E as [->| ->]; [done|]. unfold save_request. cbn [rset db_saveManager]. by rewrite Es.
Qed.

(** ** Samples *)

(** The file of time [t] is on disk while that of time 77 is being uploaded. *)
Definition sample_uploading (t : Z) : DB :=
  sample_broker
    <| db_storage := Some (sample_storage <| st_uploadHttpSession := true |>) |>
    <| db_files := {[ getRootFilePathUploading sample_storage := (t, 100) ]} |>
    <| db_uploadRequest := Some (UploadRequest_new (str "https://host/a") 77 (str "1") false false false) |>
    <| db_lastStorageAttrs := Attributes_reset <| at_isUserModified := true |> |>.

Definition sample_json (_ : bytes) : option WopiObject :=
  Some {| wo_LastModifiedTime := str "T1"; wo_Name := []; wo_Url := []; wo_COOLStatusCode := 0; wo_LOOLStatusCode := 0 |}.

Definition sample_answer (code : Z) : WopiUploadDetails :=
  {| wd_httpResponseCode := code; wd_httpResponseReason := []; wd_isSaveAs := false; wd_isRename := false |}.

Lemma upload_success_settles_witness :
  let b' := handle sample_json (sample_env 9) (UploadAnswer (sample_answer 200) []) (sample_uploading 77) in
  sg_lastModifiedServerTimeString (db_storageManager b') = str "T1" /\ isStorageOutdated b' = false.
Proof.
  intros b'.
  destruct (upload_success_settles sample_json (sample_env 9) (sample_answer 200) []
              (sample_storage <| st_uploadHttpSession := true |>)
              (UploadRequest_new (str "https://host/a") 77 (str "1") false false false) (sample_uploading 77))
    as (_ & _ & _ & _ & H1 & H2 & _); try reflexivity; try discriminate.
  by split.
Defined.


Lemma connect_failure_drops_attributes_witness :
  let b1 := handle sample_json (sample_env 9) UploadConnectFailed (sample_uploading 77) in
  let b2 := uploadToStorageInternal (sample_env 10) (str "1") [] [] false false false b1 in
  exists r, db_out b2 = db_out b1 ++ [ToStorage r] /\
    In (str "X-COOL-WOPI-IsModifiedByUser", str "false") (rq_headers r).
Proof.
  intros b1 b2.
  destruct (connect_failure_drops_attributes sample_json (sample_env 9) (sample_env 10)
              (sample_storage <| st_uploadHttpSession := true |>) (77, 100) (str "1") sample_session (sample_uploading 77))
    as (r & H1 & _ & H2 & _); try reflexivity; [by eexists|].
  by exists r.
Defined.

Lemma overlapping_upload_loses_version_witness :
  let b1 := uploadToStorage (sample_env 9) (str "1") false (sample_uploading 88) in
  let b2 := handle sample_json (sample_env 10) (UploadAnswer (sample_answer 200) []) b1 in
  requests (db_out b2) = [] /\ isStorageOutdated b2 = false.
Proof.
  intros b1 b2.
  destruct (overlapping_upload_loses_version sample_json (sample_env 9) (sample_env 10) (sample_answer 200) []
              (sample_storage <| st_uploadHttpSession := true |>) (str "1") sample_session (sample_uploading 88))
    as (H1 & H2 & _); try reflexivity; try discriminate.
  by split.
Defined.

Lemma answer_without_record_witness :
  let b := sample_uploading 88 <| db_uploadRequest := None |> in
  let b' := handle sample_json (sample_env 10) (UploadAnswer (sample_answer 200) []) b in
  isStorageOutdated b' = true /\ isAsyncUploading b' = false.
Proof.
  intros b b'.
  destruct (answer_without_record sample_json (sample_env 10) (sample_answer 200) []
              (sample_storage <| st_uploadHttpSession := true |>) b) as (H1 & _ & H2 & _); try reflexivity.
  unfold b'. by rewrite H1.
Defined.

(** A document in the middle of a synchronization, after an upload of 100 bytes. *)
Definition sample_syncing : DB :=
  sample_broker <| db_docState ::= setActivity SyncFileTimestamp |>
    <| db_storageManager ::= fun m => m <| sg_sizeAsUploaded := 100 |> |>.

Lemma resync_takes_old_version_for_conflict_witness :
  let b1 := run sample_json [(sample_env 9, Poll)] sample_syncing in
  let b2 := handle sample_json (sample_env 10) (CheckFileInfoAnswer (Pass (Some (str "T0", 90)))) b1 in
  db_documentChangedInStorage b2 = true.
Proof.
  intros b1 b2.
  apply (resync_takes_old_version_for_conflict sample_json (sample_env 10) [(sample_env 9, Poll)] sample_syncing
           (str "T0") 90); try reflexivity; [by eexists|discriminate].
Defined.


(** The owner's token is expired; the other session's is not. *)
Definition sample_expired_owner : DB :=
  sample_uploading 88 <| db_storage := Some sample_storage |>
    <| db_sessions := [sample_session <| se_isDocumentOwner := true |> <| se_authExpired := true |>;
                       sample_session <| se_id := str "2" |>] |>.

Lemma expired_owner_stops_outdated_witness :
  let b' := autoSaveAndStop (sample_env 5000000000) (str "idle") sample_expired_owner in
  db_stop b' = true /\ isStorageOutdated b' = true.
Proof.
  intros b'.
  destruct (expired_owner_stops_outdated (sample_env 5000000000) (str "idle") sample_expired_owner
              (sample_session <| se_isDocumentOwner := true |> <| se_authExpired := true |>))
    as (H1 & H2 & _); try reflexivity; [discriminate|by split].
Defined.

Lemma rename_never_times_out_witness :
  let b := sample_broker <| db_docState ::= setActivity Rename |> <| db_docState ::= setCloseRequested |> in
  activity (run sample_json [(sample_env 9, Poll); (sample_env 10, Poll)] b) = Rename.
Proof.
  intros b. apply (rename_never_times_out sample_json [(sample_env 9, Poll); (sample_env 10, Poll)] b).
  - by left.
  - reflexivity.
  - by repeat constructor.
Defined.
