(* ===== verification/HttpHeader.v ===== *)
(** * HTTP: scanning, header fields and the status line

    Models the first half of [net/HttpRequest.hpp] and [net/HttpRequest.cpp]: the
    scanners of the unnamed namespace, [Header] and [StatusLine]. A pointer and a
    length are the bytes they delimit; an offset is a number. The parser of header
    fields is Poco's ([Poco::Net::MessageHeader::read]), a parameter. A block of
    data is shorter than 2 GB, so the [int] length [safe_atoi] takes is exact. *)

From S2P Require Import Prelude Util StringVector.

Open Scope cool_scope.

(** ** Scanners *)

Definition isWhitespace (ch : Z) : bool := (ch =? chr_space) || (ch =? chr_tab) || (ch =? chr_cr).

(** How many bytes at the start of [s] satisfy [f]. *)
Fixpoint run_length (f : Z -> bool) (s : bytes) : nat :=
  match s with
  | c :: s' => if f c then S (run_length f s') else 0%nat
  | [] => 0%nat
  end.

(** [for (; off < len; ++off) if (!f(p[off])) return off; return len;] *)
Definition scan (f : Z -> bool) (p : bytes) (off : nat) : nat :=
  if (off <? length p)%nat then (off + run_length f (drop off p))%nat else length p.

Definition skipSpaceAndTab : bytes -> nat -> nat := scan isWhitespace.
Definition skipCRLF : bytes -> nat -> nat := scan (fun c => (c =? chr_cr) || (c =? chr_newline)).
Definition findLineBreak : bytes -> nat -> nat := scan (fun c => negb (c =? chr_newline)).
Definition findEndOfToken : bytes -> nat -> nat :=
  scan (fun c => negb (isWhitespace c || (c =? chr_newline))).

(** [p[off]]; the callers check that [off] is in range. *)
Definition char_at (p : bytes) (off : nat) : Z := nth off p 0.

Fixpoint findBlankLine_loop (fuel : nat) (p : bytes) (off : nat) : nat :=
  match fuel with
  | O => length p
  | S fuel' =>
      if (off <? length p)%nat then
        let off := findLineBreak p off in
        if (length p <=? off + 2)%nat then length p
        else if (char_at p (off + 1) =? chr_cr) && (char_at p (off + 2) =? chr_newline) then (off + 2)%nat
        else findBlankLine_loop fuel' p (off + 3)
      else length p
  end.

(** Each round moves the offset, so one round per byte is enough. *)
Definition findBlankLine (p : bytes) (off : nat) : nat := findBlankLine_loop (S (length p)) p off.

(** ** [Header] *)

Definition CONTENT_TYPE := str "Content-Type".
Definition CONTENT_LENGTH := str "Content-Length".
Definition TRANSFER_ENCODING := str "Transfer-Encoding".
Definition Authorization := str "Authorization".
Definition COOKIE := str "Cookie".
Definition HOST := str "Host".
Definition CONNECTION := str "Connection".
Definition CRLF : bytes := [chr_cr; chr_newline].

Inductive ConnectionToken := Token_None | Token_Close | Token_KeepAlive | Token_Upgrade.

Abbreviation Container := (list (bytes * bytes)).

Record Header := {
  hd_headers : Container;
  hd_chunked : bool }.

Definition Header_new : Header := {| hd_headers := []; hd_chunked := false |}.

Definition header_add (key value : bytes) (h : Header) : Header :=
  {| hd_headers := hd_headers h ++ [(key, value)]; hd_chunked := hd_chunked h |}.

Fixpoint set_field (key value : bytes) (l : Container) : Container :=
  match l with
  | [] => [(key, value)]
  | f :: l' => if iequal f.1 key then (f.1, value) :: l' else f :: set_field key value l'
  end.

Definition header_set (key value : bytes) (h : Header) : Header :=
  {| hd_headers := set_field key value (hd_headers h); hd_chunked := hd_chunked h |}.

Fixpoint find_field (key : bytes) (l : Container) : option bytes :=
  match l with
  | [] => None
  | f :: l' => if iequal f.1 key then Some f.2 else find_field key l'
  end.

Definition header_has (key : bytes) (h : Header) : bool := bool_decide (is_Some (find_field key (hd_headers h))).

Fixpoint remove_field (key : bytes) (l : Container) : Container * bool :=
  match l with
  | [] => ([], false)
  | f :: l' => if iequal f.1 key then (l', true) else let '(r, b) := remove_field key l' in (f :: r, b)
  end.

Definition header_remove (key : bytes) (h : Header) : Header * bool :=
  let '(l, b) := remove_field key (hd_headers h) in
  ({| hd_headers := l; hd_chunked := hd_chunked h |}, b).

Definition header_get (key def : bytes) (h : Header) : bytes := default def (find_field key (hd_headers h)).

Definition getHost : Header -> bytes := header_get HOST [].
Definition setContentType : bytes -> Header -> Header := header_set CONTENT_TYPE.
Definition getContentType : Header -> bytes := header_get CONTENT_TYPE [].
Definition hasContentType : Header -> bool := header_has CONTENT_TYPE.
Definition setContentLength (length : Z) : Header -> Header := header_set CONTENT_LENGTH (to_string length).
Definition hasContentLength : Header -> bool := header_has CONTENT_LENGTH.
Definition getTransferEncoding : Header -> bytes := header_get TRANSFER_ENCODING [].
Definition getChunkedTransferEncoding (h : Header) : bool := hd_chunked h.
Definition hasConnectionToken : Header -> bool := header_has CONNECTION.

(** [std::stoll] of a string that starts with a digit; out of range is caught. *)
Definition getContentLength (h : Header) : Z :=
  match header_get CONTENT_LENGTH [] h with
  | [] => -1
  | (c :: _) as contentLength =>
      if (c <? chr_0) || (chr_9 <? c) then -1
      else
        let v := strtol contentLength in
        if cv_erange v then -1 else cv_value v
  end.

Definition getConnectionToken (h : Header) : ConnectionToken :=
  let token := header_get CONNECTION [] h in
  if iequal (str "close") token then Token_Close
  else if iequal (str "keep-alive") token then Token_KeepAlive
  else if iequal (str "upgrade") token then Token_Upgrade
  else Token_None.

Definition setConnectionToken (token : ConnectionToken) (h : Header) : Header :=
  match token with
  | Token_Close => header_set CONNECTION (str "close") h
  | Token_KeepAlive => header_set CONNECTION (str "Keep-Alive") h
  | Token_Upgrade => header_set CONNECTION (str "Upgrade") h
  | Token_None => (header_remove CONNECTION h).1
  end.

Definition addCookie : bytes -> Header -> Header := header_add COOKIE.

Definition cookie_text (pairs : Container) : bytes :=
  fold_left (fun s pair =>
    (if (length s =? 0)%nat then s else s ++ str "; ") ++ pair.1 ++ [chr_eq] ++ pair.2) pairs [].

Definition addCookies (pairs : Container) : Header -> Header := header_add COOKIE (cookie_text pairs).

(** The tokens of each [Cookie] field; [split(s, '=')] is of [common/Util.hpp]. *)
Definition getCookies (h : Header) : Container :=
  concat (map (fun pair : bytes * bytes =>
    if iequal pair.1 COOKIE then
      let tokens := tokenize pair.2 59 in
      map (fun t => split (getParam tokens t) chr_eq true) (sv_tokens tokens)
    else []) (hd_headers h)).

Definition field_line (pair : bytes * bytes) : bytes := pair.1 ++ str ": " ++ pair.2 ++ CRLF.

(** [writeData] and [serialize] append the same bytes. *)
Definition header_lines (l : Container) : bytes := concat (map field_line l).
Definition header_writeData (h : Header) (out : bytes) : bytes := out ++ header_lines (hd_headers h).

(** What Poco made of the data: an exception, a read past its end ([tellg] is
    negative), or the fields in order. *)
Inductive poco_result := Poco_throws | Poco_fails | Poco_fields (fields : Container).

Section parse.
Variable poco_read : bytes -> poco_result.

(** [Header::parse]: the number of bytes consumed, 0 for incomplete, -1 for
    invalid. *)
Definition header_parse (p : bytes) (h : Header) : Z * Header :=
  if (length p <? 4)%nat then (0, h)
  else
    let endPos := findBlankLine p 0 in
    if (endPos =? length p)%nat then (0, h)
    else match poco_read p with
    | Poco_throws => (0, h)
    | Poco_fails => (-1, h)
    | Poco_fields fields =>
        let h := fold_left (fun h pair => header_set (trimmed pair.1) (trimmed pair.2) h) fields h in
        (Z.of_nat endPos + 1,
         {| hd_headers := hd_headers h; hd_chunked := beq (getTransferEncoding h) (str "chunked") |})
    end.
End parse.

(** ** [StatusLine] *)

Inductive FieldParseState := Field_Unknown | Field_Incomplete | Field_Invalid | Field_Valid.

Definition VersionLen : nat := 8.
Definition StatusCodeLen : nat := 3.
Definition MaxReasonPhraseLen : nat := 512.
Definition MinStatusLineLen : nat := 14.
Definition MaxStatusLineLen : nat := VersionLen + StatusCodeLen + MaxReasonPhraseLen.
Definition MinValidStatusCode : Z := 100.
Definition MaxValidStatusCode : Z := 599.

Record StatusLine := {
  sl_httpVersion : bytes;
  sl_versionMajor : Z;
  sl_versionMinor : Z;
  sl_statusCode : Z;
  sl_reasonPhrase : bytes }.

Definition StatusLine_empty : StatusLine :=
  {| sl_httpVersion := []; sl_versionMajor := 1; sl_versionMinor := 1; sl_statusCode := 0; sl_reasonPhrase := [] |}.

Definition getReasonPhraseForCode (code : Z) : bytes :=
  match code with
  | 100 => str "Continue" | 101 => str "Switching Protocols" | 102 => str "Processing"
  | 103 => str "Early Hints"
  | 200 => str "OK" | 201 => str "Created" | 202 => str "Accepted"
  | 203 => str "Non Authoritative Information" | 204 => str "No Content" | 205 => str "Reset Content"
  | 206 => str "Partial Content" | 207 => str "Multi Status" | 208 => str "Already Reported"
  | 226 => str "IM Used"
  | 300 => str "Multiple Choices" | 301 => str "Moved Permanently" | 302 => str "Found"
  | 303 => str "See Other" | 304 => str "Not Modified" | 305 => str "Use Proxy"
  | 307 => str "Temporary Redirect"
  | 400 => str "Bad Request" | 401 => str "Unauthorized" | 402 => str "Payment Required"
  | 403 => str "Forbidden" | 404 => str "Not Found" | 405 => str "Method Not Allowed"
  | 406 => str "Not Acceptable" | 407 => str "Proxy Authentication Required"
  | 408 => str "Request Timeout" | 409 => str "Conflict" | 410 => str "Gone"
  | 411 => str "Length Required" | 412 => str "Precondition Failed" | 413 => str "Payload Too Large"
  | 414 => str "URI Too Long" | 415 => str "Unsupported Media Type" | 416 => str "Range Not Satisfiable"
  | 417 => str "Expectation Failed" | 418 => str "I'm A Teapot" | 421 => str "Misdirected Request"
  | 422 => str "Unprocessable Entity" | 423 => str "Locked" | 424 => str "Failed Dependency"
  | 425 => str "Too Early" | 426 => str "Upgrade Required" | 428 => str "Precondition Required"
  | 429 => str "Too Many Requests" | 431 => str "Request Header Fields Too Large"
  | 440 => str "Login Time-out" | 449 => str "Retry With" | 451 => str "Unavailable For Legal Reasons"
  | 500 => str "Internal Server Error" | 501 => str "Not Implemented" | 502 => str "Bad Gateway"
  | 503 => str "Service Unavailable" | 504 => str "Gateway Timeout"
  | 505 => str "HTTP Version Not Supported" | 507 => str "Insufficient Storage"
  | 508 => str "Loop Detected" | 510 => str "Not Extended"
  | 511 => str "Network Authentication Required"
  | _ => str "Unknown"
  end.

(** [StatusLine(unsigned statusCodeNumber)]. *)
Definition StatusLine_new (code : Z) : StatusLine :=
  {| sl_httpVersion := str "HTTP/1.1"; sl_versionMajor := 1; sl_versionMinor := 1; sl_statusCode := code;
     sl_reasonPhrase := getReasonPhraseForCode code |}.

Inductive StatusCodeClass := Invalid | Informational | Successful | Redirection | Client_Error | Server_Error.

#[global] Instance StatusCodeClass_eq_dec : EqDecision StatusCodeClass.
Proof. solve_decision. Defined.

Definition statusCategory (s : StatusLine) : StatusCodeClass :=
  let c := sl_statusCode s in
  if (500 <=? c) && (c <? 600) then Server_Error
  else if 400 <=? c then Client_Error
  else if 300 <=? c then Redirection
  else if 200 <=? c then Successful
  else if 100 <=? c then Informational
  else Invalid.

Definition status_writeData (s : StatusLine) (out : bytes) : bytes :=
  out ++ sl_httpVersion s ++ str " " ++ to_string (sl_statusCode s) ++ str " " ++ sl_reasonPhrase s ++ CRLF.

(** The digits and separators of [HTTP/x.y] and the blank after it, at [off]. *)
Definition version_valid (p : bytes) (off : nat) : bool :=
  let versionMaj := char_at p (off + 5) - chr_0 in
  let versionMin := char_at p (off + 7) - chr_0 in
  negb (negb (starts_with (str "HTTP/") (take VersionLen (drop off p)))
        || ((versionMaj <? 0) || (9 <? versionMaj)) || negb (char_at p (off + 6) =? 46)
        || ((versionMin <? 0) || (9 <? versionMin)) || negb (isWhitespace (char_at p (off + 8)))).

(** The loop that looks for the end of the reason phrase, from [off] on. *)
Fixpoint reason_end (s : bytes) (off : nat) : option nat :=
  match s with
  | [] => Some off
  | c :: s' =>
      if (c =? chr_cr) || (c =? chr_newline) then Some off
      else if (MaxStatusLineLen <=? off)%nat then None
      else reason_end s' (S off)
  end.

Definition set_reason (r : bytes) (s : StatusLine) : StatusLine :=
  {| sl_httpVersion := sl_httpVersion s; sl_versionMajor := sl_versionMajor s;
     sl_versionMinor := sl_versionMinor s; sl_statusCode := sl_statusCode s; sl_reasonPhrase := r |}.
Definition set_code (c : Z) (s : StatusLine) : StatusLine :=
  {| sl_httpVersion := sl_httpVersion s; sl_versionMajor := sl_versionMajor s;
     sl_versionMinor := sl_versionMinor s; sl_statusCode := c; sl_reasonPhrase := sl_reasonPhrase s |}.

(** The part of [StatusLine::parse] from the reason phrase on. *)
Definition parse_reason (p : bytes) (off : nat) (s : StatusLine) : FieldParseState * StatusLine * nat :=
  let reasonOff := off in
  let off := findLineBreak p off in
  if (length p <=? off)%nat then (Field_Incomplete, s, length p)
  else match reason_end (drop off p) off with
  | None => (Field_Invalid, s, length p)
  | Some off =>
      let stringSize := Z.of_nat off - Z.of_nat reasonOff - 1 in
      let s := if 0 <? stringSize then set_reason (take (Z.to_nat stringSize) (drop reasonOff p)) s else s in
      (Field_Valid, s, scan (fun c => (c =? chr_cr) || (c =? chr_newline)) p off)
  end.

(** The part of [StatusLine::parse] from the status code on. *)
Definition parse_code (p : bytes) (off : nat) (s : StatusLine) : FieldParseState * StatusLine * nat :=
  if (char_at p off <? chr_0) || (chr_9 <? char_at p off) then (Field_Invalid, s, length p)
  else
    let s := set_code (safe_atoi (drop off p)) s in
    if (sl_statusCode s <? MinValidStatusCode) || (MaxValidStatusCode <? sl_statusCode s) then
      (Field_Invalid, s, length p)
    else
      let off := skipSpaceAndTab p (off + StatusCodeLen) in
      if (MaxStatusLineLen <=? off)%nat then (Field_Invalid, s, length p)
      else parse_reason p off s.

(** [StatusLine::parse]: the state, the line, and [len] as it leaves it. *)
Definition status_parse (p : bytes) (s : StatusLine) : FieldParseState * StatusLine * nat :=
  let len := length p in
  if (len <? MinStatusLineLen)%nat then (Field_Incomplete, s, len)
  else
    let off := skipSpaceAndTab p 0 in
    if (MaxStatusLineLen <=? off)%nat then (Field_Invalid, s, len)
    else if (len - off <? MinStatusLineLen)%nat then (Field_Incomplete, s, len)
    else if negb (version_valid p off) then (Field_Invalid, s, len)
    else
      let s := {| sl_httpVersion := take VersionLen (drop off p);
                  sl_versionMajor := char_at p (off + 5) - chr_0;
                  sl_versionMinor := char_at p (off + 7) - chr_0;
                  sl_statusCode := sl_statusCode s; sl_reasonPhrase := sl_reasonPhrase s |} in
      let off := skipSpaceAndTab p (off + VersionLen) in
      if (MaxStatusLineLen <=? off)%nat then (Field_Invalid, s, len)
      else if (len - off <? MinStatusLineLen - VersionLen)%nat then (Field_Incomplete, s, len)
      else parse_code p off s.
