(* ===== verification/Http.v ===== *)
(** * HTTP: requests, responses and the client's session

    Models the second half of [net/HttpRequest.hpp] and [net/HttpRequest.cpp]:
    [Request] and how it is written, [RequestParser], [Response] with its parser,
    and the state of the client's [Session]. Data arrives in pieces: a parser is
    given the bytes buffered so far and says how many it consumed. The body goes to
    memory or to a callback ([io_write], a file or the client's handler), which is
    a parameter, as Poco's header parser is. Functions that only log are left out. *)

From S2P Require Import Prelude Util StringVector Buffer HttpHeader RecordSet.

Open Scope cool_scope.
Open Scope record_scope.

(** ** [Request] *)

Inductive Stage := RequestLine | StageHeader | StageBody | Finished.

#[global] Instance Stage_eq_dec : EqDecision Stage.
Proof. solve_decision. Defined.

Definition VERB_GET := str "GET".
Definition VERB_POST := str "POST".
Definition VERS_1_1 := str "HTTP/1.1".
Definition MinRequestHeaderLen : nat := 16.

(** The fields of [RequestCommon]. *)
Record RequestCommon := {
  rc_header : Header;
  rc_url : bytes;
  rc_verb : bytes;
  rc_version : bytes;
  rc_stage : Stage }.

#[global] Instance RequestCommon_settable : Settable RequestCommon := fun r =>
  {| rc_header := rc_header r; rc_url := rc_url r; rc_verb := rc_verb r; rc_version := rc_version r;
     rc_stage := rc_stage r |}.

Definition isKeepAlive (r : RequestCommon) : bool :=
  let token := header_get CONNECTION [] (rc_header r) in
  if negb (length token =? 0)%nat then negb (iequal (str "close") token)
  else negb (beq (rc_version r) (str "HTTP/1.0")).

(** [IoReadFunc]: the body a string or file stream has left, or the answers another
    callback will give ([None] is an error, -1; after the last one it returns 0). *)
Inductive BodyReader :=
| StreamBody (rest : bytes)
| CallbackBody (answers : list (option bytes)).

(** One call with a buffer of [size] bytes: what it returns, and the data. *)
Definition read_body (size : nat) (r : BodyReader) : Z * bytes * BodyReader :=
  match r with
  | StreamBody rest => (Z.of_nat (length (take size rest)), take size rest, StreamBody (drop size rest))
  | CallbackBody [] => (0, [], r)
  | CallbackBody (None :: l) => (-1, [], CallbackBody l)
  | CallbackBody (Some d :: l) => (Z.of_nat (length d), d, CallbackBody l)
  end.

Record Request := {
  rq_common : RequestCommon;
  rq_bodyReader : BodyReader }.

#[global] Instance Request_settable : Settable Request := fun r =>
  {| rq_common := rq_common r; rq_bodyReader := rq_bodyReader r |}.

Definition Request_new (url verb : bytes) (h : Header) (version : bytes) : Request :=
  {| rq_common := {| rc_header := h; rc_url := url; rc_verb := verb; rc_version := version;
                     rc_stage := RequestLine |};
     rq_bodyReader := StreamBody [] |}.

Definition editHeader (f : Header -> Header) (r : Request) : Request :=
  r <| rq_common ::= fun c => c <| rc_header ::= f |> |>.

Definition setBodySource (reader : BodyReader) (size : Z) (r : Request) : Request :=
  editHeader (setContentLength size) r <| rq_bodyReader := reader |>.

(** The contents of the file, [None] when it cannot be opened. *)
Definition setBodyFile (file : option bytes) (r : Request) : Request :=
  match file with
  | Some contents => setBodySource (StreamBody contents) (Z.of_nat (length contents)) r
  | None => setBodySource (StreamBody []) (-1) r
  end.

Definition setBody (body contentType : bytes) (r : Request) : Request :=
  let r := if negb (length body =? 0)%nat then editHeader (setContentType contentType) r else r in
  let r := editHeader (setContentLength (Z.of_nat (length body))) r in
  setBodySource (StreamBody body) (Z.of_nat (length body)) r.

(** [std::hex]: the lower-case digits of a number. *)
Definition hex_digit (d : Z) : Z := if d <? 10 then d + 48 else d + 87.

Fixpoint hex_digits (fuel : nat) (n : Z) : bytes :=
  match fuel with
  | O => []
  | S fuel' => if n <? 16 then [hex_digit n] else hex_digits fuel' (n / 16) ++ [hex_digit (n mod 16)]
  end.

Definition hex_string (n : Z) : bytes := hex_digits (S (Z.to_nat (Z.log2 n))) n.

(** One chunk as [writeData] and [Response::appendChunk] write it. *)
Definition chunk_bytes (data : bytes) : bytes :=
  hex_string (Z.of_nat (length data)) ++ CRLF ++ data ++ CRLF.

Definition last_chunk : bytes := str "0" ++ CRLF ++ CRLF.

(** [s.find(needle) != npos]. *)
Fixpoint contains (needle s : bytes) : bool :=
  starts_with needle s || match s with [] => false | _ :: s' => contains needle s' end.

Definition chunked_body (r : RequestCommon) : bool :=
  contains (str "chunked") (toLower (header_get (str "transfer-encoding") [] (rc_header r))).

Definition request_line (r : RequestCommon) : bytes :=
  rc_verb r ++ str " " ++ rc_url r ++ str " " ++ rc_version r ++ CRLF.

Definition body_buffer_size : nat := 65536.

(** How many calls a reader can answer with data. *)
Definition reader_size (r : BodyReader) : nat :=
  match r with StreamBody rest => length rest | CallbackBody l => length l end.

(** The [do ... while (wrote < capacity)] loop: the request, the buffer, whether
    the reading succeeded. *)
Fixpoint write_body (fuel : nat) (chunked : bool) (capacity wrote : nat) (r : Request) (out : bytes)
    : Request * bytes * bool :=
  match fuel with
  | O => (r, out, true)
  | S fuel' =>
      let '(n, data, reader) := read_body body_buffer_size (rq_bodyReader r) in
      let r := r <| rq_bodyReader := reader |> in
      if n <? 0 then (r, out, false)
      else if n =? 0 then
        (r <| rq_common ::= fun c => c <| rc_stage := Finished |> |>,
         if chunked then out ++ last_chunk else out, true)
      else
        let piece := if chunked then chunk_bytes data else data in
        let wrote := (wrote + length piece)%nat in
        if (wrote <? capacity)%nat then write_body fuel' chunked capacity wrote r (out ++ piece)
        else (r, out ++ piece, true)
  end.

(** [Request::writeData]. *)
Definition request_writeData (capacity : nat) (r : Request) (out : bytes) : Request * bytes * bool :=
  let '(r, out) :=
    if bool_decide (rc_stage (rq_common r) = RequestLine) then
      (r <| rq_common ::= fun c => c <| rc_stage := StageBody |> |>,
       header_writeData (rc_header (rq_common r)) (out ++ request_line (rq_common r)) ++ CRLF)
    else (r, out) in
  if bool_decide (rc_stage (rq_common r) = StageBody) then
    write_body (S (reader_size (rq_bodyReader r))) (chunked_body (rq_common r)) capacity 0 r out
  else (r, out, true).

(** ** Receiving a body *)

(** [_onBodyWriteCb]: to [_body], or to a callback of which the calls are kept. *)
Inductive SinkKind := SinkMemory | SinkCallback.

Record Sink := {
  sk_kind : SinkKind;
  sk_body : bytes;
  sk_sent : list bytes }.

Definition Sink_new : Sink := {| sk_kind := SinkMemory; sk_body := []; sk_sent := [] |}.

Definition saveBodyToMemory (s : Sink) : Sink :=
  {| sk_kind := SinkMemory; sk_body := sk_body s; sk_sent := sk_sent s |}.
Definition saveBodyToHandler (s : Sink) : Sink :=
  {| sk_kind := SinkCallback; sk_body := sk_body s; sk_sent := sk_sent s |}.

Definition hexDigitFromChar (c : Z) : Z :=
  if (48 <=? c) && (c <=? 57) then c - 48
  else if (97 <=? c) && (c <=? 102) then c - 97 + 10
  else if (65 <=? c) && (c <=? 70) then c - 65 + 10
  else -1.

(** The chunk length at the start of a line; [None] when it does not fit. *)
Fixpoint chunk_length (p : bytes) (chunkLen : Z) : option Z :=
  match p with
  | [] => Some chunkLen
  | c :: p' =>
      let digit := hexDigitFromChar c in
      if digit <? 0 then Some chunkLen
      else if LONG_MAX / 16 <=? chunkLen then None
      else chunk_length p' (chunkLen * 16 + digit)
  end.

(** How the loop over the chunks ends: more data is needed, an error, or the last
    chunk was read. *)
Inductive ChunkEnd := Chunks_more | Chunks_error | Chunks_last.

Section io.
Variable io_write : list bytes -> bytes -> Z.
Variable poco_read : bytes -> poco_result.

(** A call of the body callback: what it returns. *)
Definition on_body_write (data : bytes) (s : Sink) : Z * Sink :=
  match sk_kind s with
  | SinkMemory => (Z.of_nat (length data), {| sk_kind := SinkMemory; sk_body := sk_body s ++ data; sk_sent := sk_sent s |})
  | SinkCallback =>
      (io_write (sk_sent s) data, {| sk_kind := SinkCallback; sk_body := sk_body s; sk_sent := sk_sent s ++ [data] |})
  end.

(** The [while (available)] loop of both parsers: the sink, [_recvBodySize], what
    is left of the data, and how it ended. *)
Fixpoint read_chunks (fuel : nat) (s : Sink) (recv : Z) (p : bytes) : Sink * Z * bytes * ChunkEnd :=
  match fuel with
  | O => (s, recv, p, Chunks_more)
  | S fuel' =>
      if (length p =? 0)%nat then (s, recv, p, Chunks_more)
      else
        let off := findLineBreak p 0 in
        if (off =? length p)%nat then (s, recv, p, Chunks_more)
        else
          let off := S off in
          match chunk_length p 0 with
          | None => (s, recv, p, Chunks_error)
          | Some chunkLen =>
              if 0 <? chunkLen then
                if Z.of_nat (length p) - Z.of_nat off <? chunkLen + 2 then (s, recv, p, Chunks_more)
                else
                  let p := drop off p in
                  let '(wrote, s) := on_body_write (take (Z.to_nat chunkLen) p) s in
                  if negb (wrote =? chunkLen) then (s, recv, p, Chunks_error)
                  else
                    let p := drop (Z.to_nat chunkLen) p in
                    read_chunks fuel' s (recv + chunkLen) (drop (skipCRLF p 0) p)
              else (s, recv, [], Chunks_last)
          end
  end.

(** ** [RequestParser] *)

Record RequestParser := {
  rp_common : RequestCommon;
  rp_sink : Sink;
  rp_recvBodySize : Z }.

#[local] Instance RequestParser_settable : Settable RequestParser := fun r =>
  {| rp_common := rp_common r; rp_sink := rp_sink r; rp_recvBodySize := rp_recvBodySize r |}.

Definition RequestParser_new : RequestParser :=
  {| rp_common := {| rc_header := Header_new; rc_url := []; rc_verb := []; rc_version := []; rc_stage := RequestLine |};
     rp_sink := Sink_new; rp_recvBodySize := 0 |}.

Definition setStage (st : Stage) (r : RequestParser) : RequestParser :=
  r <| rp_common ::= fun c => c <| rc_stage := st |> |>.

(** How the request line is parsed: incomplete, invalid, or where it ends. *)
Inductive LineEnd := Line_incomplete | Line_invalid | Line_end (off : nat).

Definition parse_request_line (p : bytes) (r : RequestParser) : LineEnd * RequestParser :=
  let available := length p in
  if (available <? MinRequestHeaderLen)%nat then (Line_incomplete, r)
  else
    let off := skipSpaceAndTab p 0 in
    let e := findEndOfToken p off in
    if (e =? available)%nat then (Line_incomplete, r)
    else
      let r := r <| rp_common ::= fun c => c <| rc_verb := take (e - off) (drop off p) |> |> in
      let off := skipSpaceAndTab p e in
      let e := findEndOfToken p off in
      if (e =? available)%nat then (Line_incomplete, r)
      else
        let r := r <| rp_common ::= fun c => c <| rc_url := take (e - off) (drop off p) |> |> in
        let off := skipSpaceAndTab p e in
        if (available <=? off + VersionLen)%nat then (Line_incomplete, r)
        else if negb (version_valid p off) then (Line_invalid, r)
        else
          let r := r <| rp_common ::= fun c => c <| rc_version := take VersionLen (drop off p) |> |> in
          let e := findLineBreak p (off + VersionLen) in
          if (available <=? e)%nat then (Line_incomplete, r)
          else (Line_end (S e), setStage StageHeader r).

(** The body of a request: what is left of the data, or [None] for a return of -1
    (or of the negative result of the callback). *)
Definition parse_request_body (p : bytes) (r : RequestParser) : RequestParser * (Z + nat) :=
  let h := rc_header (rp_common r) in
  if beq (rc_verb (rp_common r)) VERB_GET then (setStage Finished r, inr (length p))
  else if beq (rc_verb (rp_common r)) VERB_POST then
    if negb (hasContentLength h) && negb (getChunkedTransferEncoding h) then (r, inl (-1))
    else if getChunkedTransferEncoding h then
      let '(s, recv, rest, e) := read_chunks (S (length p)) (rp_sink r) (rp_recvBodySize r) p in
      let r := r <| rp_sink := s |> <| rp_recvBodySize := recv |> in
      match e with
      | Chunks_more => (r, inr (length rest))
      | Chunks_error => (r, inl (-1))
      | Chunks_last => (setStage Finished r, inr (length rest))
      end
    else
      let '(wrote, s) := on_body_write p (rp_sink r) in
      let r := r <| rp_sink := s |> in
      if wrote <? 0 then (r, inl wrote)
      else if 0 <? wrote then
        let r := r <| rp_recvBodySize := rp_recvBodySize r + wrote |> in
        let r := if hasContentLength h && (getContentLength h <=? rp_recvBodySize r) then setStage Finished r else r in
        (r, inr (length p - Z.to_nat wrote)%nat)
      else (r, inr (length p))
  else (r, inl (-1)).

(** The stages after the request line, on the data that follows it. *)
Definition parse_header_body (len : nat) (p : bytes) (r : RequestParser) : RequestParser * Z :=
  let '(read, p, r) :=
    if bool_decide (rc_stage (rp_common r) = StageHeader) then
      let '(read, h) := header_parse poco_read p (rc_header (rp_common r)) in
      let r := r <| rp_common ::= fun c => c <| rc_header := h |> |> in
      if 0 <? read then (read, drop (Z.to_nat read) p, setStage StageBody r) else (read, p, r)
    else (0, p, r) in
  if read <? 0 then (r, read)
  else if bool_decide (rc_stage (rp_common r) = StageBody) then
    match parse_request_body p r with
    | (r, inl e) => (r, e)
    | (r, inr available) => (r, Z.of_nat len - Z.of_nat available)
    end
  else (r, Z.of_nat len - Z.of_nat (length p)).

(** [RequestParser::readData]: the number of bytes consumed, -1 for an error. *)
Definition parser_readData (p : bytes) (r : RequestParser) : RequestParser * Z :=
  let len := length p in
  if bool_decide (rc_stage (rp_common r) = RequestLine) then
    match parse_request_line p r with
    | (Line_incomplete, r) => (r, 0)
    | (Line_invalid, r) => (r, -1)
    | (Line_end e, r) => parse_header_body len (drop e p) r
    end
  else parse_header_body len p r.

(** ** [Response] *)

Inductive ResponseState := RS_New | RS_Incomplete | RS_Error | RS_Timeout | RS_Complete.
Inductive ParserStage := PS_StatusLine | PS_Header | PS_Body | PS_Finished.

#[local] Instance ResponseState_eq_dec : EqDecision ResponseState.
Proof. solve_decision. Defined.
#[local] Instance ParserStage_eq_dec : EqDecision ParserStage.
Proof. solve_decision. Defined.

(** [rs_finishedCalls] counts the calls of [_finishedCallback]. *)
Record Response := {
  rs_statusLine : StatusLine;
  rs_header : Header;
  rs_state : ResponseState;
  rs_parserStage : ParserStage;
  rs_recvBodySize : Z;
  rs_sink : Sink;
  rs_finishedCalls : nat }.

#[local] Instance Response_settable : Settable Response := fun r =>
  {| rs_statusLine := rs_statusLine r; rs_header := rs_header r; rs_state := rs_state r;
     rs_parserStage := rs_parserStage r; rs_recvBodySize := rs_recvBodySize r; rs_sink := rs_sink r;
     rs_finishedCalls := rs_finishedCalls r |}.

(** The constructor for a response to be received. *)
Definition Response_new : Response :=
  {| rs_statusLine := StatusLine_empty; rs_header := Header_new; rs_state := RS_New;
     rs_parserStage := PS_StatusLine; rs_recvBodySize := 0; rs_sink := Sink_new; rs_finishedCalls := 0 |}.

(** The constructor for a response to be sent. *)
Definition Response_of (status : StatusLine) (date server : bytes) : Response :=
  Response_new <| rs_statusLine := status |>
    <| rs_header := header_add (str "Server") server (header_add (str "Date") date Header_new) |>.

Definition done (r : Response) : bool :=
  match rs_state r with RS_Error | RS_Timeout | RS_Complete => true | _ => false end.

Definition finish (newState : ResponseState) (r : Response) : Response :=
  if negb (done r) then r <| rs_state := newState |> <| rs_finishedCalls ::= S |> else r.

Definition complete : Response -> Response := finish RS_Complete.
Definition timeout : Response -> Response := finish RS_Timeout.
Definition error : Response -> Response := finish RS_Error.

Definition response_setBody (body contentType : bytes) (r : Response) : Response :=
  let r := r <| rs_sink ::= fun s => {| sk_kind := sk_kind s; sk_body := body; sk_sent := sk_sent s |} |> in
  let r := r <| rs_header ::= setContentLength (Z.of_nat (length body)) |> in
  if negb (length body =? 0)%nat then r <| rs_header ::= setContentType contentType |> else r.

Definition appendChunk (chunk : bytes) (r : Response) : Response :=
  r <| rs_sink ::= fun s => {| sk_kind := sk_kind s; sk_body := sk_body s ++ chunk_bytes chunk; sk_sent := sk_sent s |} |>.

Definition response_writeData (r : Response) (out : bytes) : bytes :=
  header_writeData (rs_header r) (status_writeData (rs_statusLine r) out) ++ CRLF ++ sk_body (rs_sink r).

(** After the header: whether a body is to be expected; [None] for a return of -1. *)
Definition expect_body (r : Response) : Response * bool :=
  let code := sl_statusCode (rs_statusLine r) in
  let r := r <| rs_parserStage := PS_Body |> in
  if bool_decide (statusCategory (rs_statusLine r) = Informational) || (code =? 204) || (code =? 304) then
    (r <| rs_parserStage := PS_Finished |>, true)
  else
    let r := if negb (bool_decide (statusCategory (rs_statusLine r) = Successful))
             then r <| rs_sink ::= saveBodyToMemory |> else r in
    if hasContentLength (rs_header r) then
      if (getContentLength (rs_header r) <? 0) || negb (length (getTransferEncoding (rs_header r)) =? 0)%nat then
        (r, false)
      else if getContentLength (rs_header r) =? 0 then (r <| rs_parserStage := PS_Finished |>, true)
      else (r, true)
    else (r, true).

(** The body of a response: what is left of the data, or the negative number
    returned. *)
Definition parse_response_body (p : bytes) (r : Response) : Response * (Z + nat) :=
  if getChunkedTransferEncoding (rs_header r) then
    let '(s, recv, rest, e) := read_chunks (S (length p)) (rs_sink r) (rs_recvBodySize r) p in
    let r := r <| rs_sink := s |> <| rs_recvBodySize := recv |> in
    match e with
    | Chunks_more => (r, inr (length rest))
    | Chunks_error => (r, inl (-1))
    | Chunks_last => (r <| rs_parserStage := PS_Finished |>, inr (length rest))
    end
  else
    let '(wrote, s) := on_body_write p (rs_sink r) in
    let r := r <| rs_sink := s |> in
    if wrote <? 0 then (r, inl wrote)
    else if 0 <? wrote then
      let r := r <| rs_recvBodySize := rs_recvBodySize r + wrote |> in
      let r := if hasContentLength (rs_header r) && (getContentLength (rs_header r) <=? rs_recvBodySize r)
               then r <| rs_parserStage := PS_Finished |> else r in
      (r, inr (length p - Z.to_nat wrote)%nat)
    else (r, inr (length p)).

(** The last two parts of [readData]: the body, and the end of the response. *)
Definition response_body_end (len : nat) (p : bytes) (r : Response) : Response * Z :=
  let '(r, res) :=
    if bool_decide (rs_parserStage r = PS_Body) && negb (length p =? 0)%nat
    then parse_response_body p r else (r, inr (length p)) in
  match res with
  | inl e => (r, e)
  | inr available =>
      (if bool_decide (rs_parserStage r = PS_Finished) then complete r else r,
       Z.of_nat len - Z.of_nat available)
  end.

(** The header, then the rest. *)
Definition response_header (len : nat) (p : bytes) (r : Response) : Response * Z :=
  if bool_decide (rs_parserStage r = PS_Header) && negb (length p =? 0)%nat then
    let '(read, h) := header_parse poco_read p (rs_header r) in
    let r := r <| rs_header := h |> in
    if read <? 0 then (r, read)
    else if 0 <? read then
      let '(r, ok) := expect_body r in
      if ok then response_body_end len (drop (Z.to_nat read) p) r else (r, -1)
    else response_body_end len p r
  else response_body_end len p r.

(** [Response::readData]: the number of bytes consumed, -1 for an error. *)
Definition response_readData (p : bytes) (r : Response) : Response * Z :=
  let r := r <| rs_state := RS_Incomplete |> in
  let len := length p in
  if bool_decide (rs_parserStage r = PS_StatusLine) then
    match status_parse p (rs_statusLine r) with
    | ((Field_Unknown | Field_Incomplete), s, _) => (r <| rs_statusLine := s |>, 0)
    | (Field_Invalid, s, _) => (r <| rs_statusLine := s |>, -1)
    | (Field_Valid, s, read) =>
        let r := r <| rs_statusLine := s |> in
        if (read =? 0)%nat then (r, 0)
        else response_header len p (r <| rs_parserStage := PS_Header |>)
    end
  else response_header len p r.

End io.

#[global] Existing Instance RequestParser_settable.
#[global] Existing Instance ResponseState_eq_dec.
#[global] Existing Instance ParserStage_eq_dec.
#[global] Existing Instance Response_settable.
