(* ===== verification/HttpSpec.v ===== *)
(** * HTTP: what is written is what is read

    Theorems about [HttpHeader.v] and [Http.v]: a request that is written in
    any number of calls and cut anywhere by the network is read back; so are the
    chunks of a body and a status line; and the places where the parser reads more
    than belongs to a message. *)

From S2P Require Import Prelude Util Buffer HttpHeader Http RecordSet.

Open Scope cool_scope.
Open Scope record_scope.

(** ** Scanning a prefix *)

Lemma run_length_le f s : (run_length f s <= length s)%nat.
Proof. induction s as [|c s IH]; simpl; [lia|]. destruct (f c); simpl; lia. Qed.

Lemma run_length_take f s n : run_length f (take n s) = Nat.min n (run_length f s).
Proof.
  revert n. induction s as [|c s IH]; intros [|n]; simpl; [lia..|]. destruct (f c); simpl; [rewrite IH|]; lia.
Qed.

Lemma run_length_stop f a c b : Forall (fun x => f x = true) a -> f c = false -> run_length f (a ++ c :: b) = length a.
Proof. intros Ha Hc. induction Ha as [|x a Hx Ha IH]; simpl; [by rewrite Hc|]. by rewrite Hx, IH. Qed.

Lemma run_length_all f a : Forall (fun x => f x = true) a -> run_length f a = length a.
Proof. intros Ha. induction Ha as [|x a Hx Ha IH]; simpl; [done|]. by rewrite Hx, IH. Qed.

Lemma scan_take f s off n :
  (n <= length s)%nat -> scan f (take n s) off = Nat.min n (scan f s off).
Proof.
  intros Hn. unfold scan. rewrite length_take, (Nat.min_l n) by lia.
  pose proof (run_length_le f (drop off s)) as Hle. rewrite length_drop in Hle.
  destruct (Nat.ltb_spec off n); destruct (Nat.ltb_spec off (length s)); try lia.
  replace (drop off (take n s)) with (take (n - off) (drop off s)) by (by rewrite take_drop_commute, Nat.add_comm, Nat.sub_add by lia).
  rewrite run_length_take. lia.
Qed.

(** The scanner stops at the first byte that does not satisfy [f]. *)
Lemma scan_drop f p off a c b :
  drop off p = a ++ c :: b -> Forall (fun x => f x = true) a -> f c = false -> scan f p off = (off + length a)%nat.
Proof.
  intros Hd Ha Hc. assert (Hl := f_equal length Hd). rewrite length_drop, length_app in Hl. simpl in Hl.
  unfold scan. destruct (Nat.ltb_spec off (length p)); [|lia]. by rewrite Hd, run_length_stop.
Qed.

Lemma char_at_take s n off : (off < n)%nat -> char_at (take n s) off = char_at s off.
Proof. unfold char_at. revert n off. induction s as [|c s IH]; intros [|n] [|off] H; simpl; try lia; try done. apply IH. lia. Qed.

Lemma char_at_drop p off c b : drop off p = c :: b -> char_at p off = c.
Proof. unfold char_at. revert p. induction off as [|off IH]; intros [|x p]; simpl; intros H; try done; [congruence|by apply IH]. Qed.

(** ** The blank line after a header *)

Definition no_lf (l : bytes) : Prop := Forall (fun c => negb (c =? chr_newline) = true) l.

(** A line that is not blank. *)
Definition line_ok (l : bytes) : Prop := no_lf l /\ match l with [] => False | c :: _ => c <> chr_cr end.

Definition crlf_lines (ls : list bytes) : bytes := concat (map (fun l => l ++ CRLF) ls).

Lemma drop_next {A} off (p : list A) c b : drop off p = c :: b -> drop (S off) p = b.
Proof. intros H. replace (S off) with (off + 1)%nat by lia. rewrite <- drop_drop, H. done. Qed.

Lemma drop_more {A} off (p a b : list A) : drop off p = a ++ b -> drop (off + length a) p = b.
Proof. intros H. rewrite <- drop_drop, H. by rewrite drop_app_length. Qed.

Lemma findBlankLine_lines p rest ls :
  Forall line_ok ls -> forall fuel off a, (length ls < fuel)%nat -> no_lf a ->
  drop off p = a ++ chr_newline :: crlf_lines ls ++ CRLF ++ rest ->
  findBlankLine_loop fuel p off = (off + length a + length (crlf_lines ls) + 2)%nat.
Proof.
  induction ls as [|l ls IH]; intros Hls [|fuel] off a Hf Ha Hd; try (simpl in Hf; lia).
  all: cbn [findBlankLine_loop]; assert (Hlen := f_equal length Hd); rewrite length_drop, length_app in Hlen.
  all: cbn [length] in Hlen; destruct (Nat.ltb_spec off (length p)); [|lia].
  all: assert (Hb : findLineBreak p off = (off + length a)%nat) by (apply (scan_drop _ p off a chr_newline _ Hd Ha); done); rewrite Hb.
  all: assert (He := drop_next _ _ _ _ (drop_more _ _ _ _ Hd)).
  - unfold crlf_lines in *. cbn [map concat app] in *. unfold CRLF in *. cbn [app] in *.
    rewrite !length_cons in Hlen.
    destruct (Nat.leb_spec (length p) (off + length a + 2)); [lia|].
    replace (off + length a + 1)%nat with (S (off + length a)) by lia.
    rewrite (char_at_drop _ _ _ _ He). replace (off + length a + 2)%nat with (S (S (off + length a))) by lia.
    rewrite (char_at_drop _ _ _ _ (drop_next _ _ _ _ He)). simpl. lia.
  - apply Forall_cons in Hls as [[Hlf Hc] Hls]. destruct l as [|c l]; [done|].
    unfold crlf_lines in *. cbn [map concat] in *. unfold CRLF in *. rewrite <- !(assoc_L (++)) in *. cbn [app] in *.
    assert (Hlen' := f_equal length He). rewrite length_drop, length_cons, length_app in Hlen'. cbn [length] in Hlen'.
    destruct (Nat.leb_spec (length p) (off + length a + 2)); [lia|].
    replace (off + length a + 1)%nat with (S (off + length a)) by lia.
    rewrite (char_at_drop _ _ _ _ He). destruct (Z.eqb_spec c chr_cr); [done|]. cbn [andb].
    assert (He2 := drop_next _ _ _ _ He). apply Forall_cons in Hlf as [_ Hlf].
    replace (off + length a + 3)%nat with (S (S (S (off + length a)))) by lia.
    destruct l as [|d l].
    + cbn [app] in He2. assert (He3 := drop_next _ _ _ _ He2).
      rewrite (IH Hls fuel _ []); [|simpl in Hf; lia|by constructor|exact He3].
      unfold crlf_lines, CRLF. repeat (rewrite ?length_app; cbn [length app]). lia.
    + cbn [app] in He2. assert (He3 := drop_next _ _ _ _ He2). apply Forall_cons in Hlf as [_ Hlf].
      rewrite (IH Hls fuel _ (l ++ [chr_cr])); [|simpl in Hf; lia| |].
      * unfold crlf_lines, CRLF. repeat (rewrite ?length_app; cbn [length]). lia.
      * apply Forall_app. split; [done|]. by repeat constructor.
      * rewrite He3, <- (assoc_L (++)). done.
Qed.

Lemma crlf_lines_length ls : Forall line_ok ls -> (3 * length ls <= length (crlf_lines ls))%nat.
Proof.
  induction ls as [|l ls IH]; intros H; [done|]. apply Forall_cons in H as [[_ Hc] H]. specialize (IH H).
  unfold crlf_lines, CRLF in *. destruct l; [done|]. repeat (rewrite ?length_app; cbn [map concat length app]). lia.
Qed.

(** [findBlankLine] finds the end of a block of at least one line. *)
Lemma findBlankLine_block l ls rest :
  Forall line_ok (l :: ls) ->
  S (findBlankLine (crlf_lines (l :: ls) ++ CRLF ++ rest) 0) = length (crlf_lines (l :: ls) ++ CRLF).
Proof.
  intros H. assert (Hlen := crlf_lines_length _ H). apply Forall_cons in H as [[Hlf Hc] H].
  unfold findBlankLine, crlf_lines in *. cbn [map concat] in *.
  rewrite (findBlankLine_lines _ rest ls H _ 0 (l ++ [chr_cr])).
  - unfold CRLF. rewrite !length_app. cbn [length]. unfold crlf_lines, CRLF. lia.
  - rewrite !length_app in *. cbn [length] in *. lia.
  - apply Forall_app. split; [done|]. by repeat constructor.
  - cbn [drop]. unfold crlf_lines, CRLF. rewrite <- !(assoc_L (++)). done.
Qed.

Lemma findBlankLine_ge fuel p off :
  findBlankLine_loop fuel p off = length p \/ (off + 2 <= findBlankLine_loop fuel p off)%nat.
Proof.
  revert off. induction fuel as [|fuel IH]; intros off; cbn [findBlankLine_loop]; [by left|].
  destruct (Nat.ltb_spec off (length p)); [|by left].
  unfold findLineBreak, scan. destruct (Nat.ltb_spec off (length p)); [|lia].
  set (e := (off + _)%nat). destruct (Nat.leb_spec (length p) (e + 2)); [by left|].
  destruct (_ && _); [lia|]. destruct (IH (e + 3)%nat); lia.
Qed.

(** On a prefix of the data the scan for the blank line gives the same place, or
    finds nothing. *)
Lemma findBlankLine_take fuel fuel' s n off :
  (n <= length s)%nat -> (n < fuel + off)%nat -> (length s < fuel' + off)%nat ->
  findBlankLine_loop fuel' s off <> length s ->
  findBlankLine_loop fuel (take n s) off =
  if (findBlankLine_loop fuel' s off <? n)%nat then findBlankLine_loop fuel' s off else n.
Proof.
  intros Hn. revert fuel' off. induction fuel as [|fuel IH]; intros fuel' off Hf Hf' Hne.
  - cbn [findBlankLine_loop]. rewrite length_take, Nat.min_l by lia.
    destruct (findBlankLine_ge fuel' s off); [done|].
    destruct (Nat.ltb_spec (findBlankLine_loop fuel' s off) n); lia.
  - revert Hne. destruct fuel' as [|fuel']; cbn [findBlankLine_loop]; [done|].
    rewrite !length_take, !(Nat.min_l n) by lia. destruct (Nat.ltb_spec off (length s)) as [Hs|Hs]; [|done].
    unfold findLineBreak. set (e := scan _ s off).
    assert (He : (off <= e)%nat) by (unfold e, scan; destruct (Nat.ltb_spec off (length s)); lia).
    rewrite scan_take by done. fold e.
    destruct (Nat.leb_spec (length s) (e + 2)) as [Hle|Hle]; [done|].
    destruct (Nat.ltb_spec off n) as [Hon|Hon].
    + destruct (Nat.leb_spec n (Nat.min n e + 2)) as [Hm|Hm].
      * destruct ((char_at s (e + 1) =? chr_cr) && (char_at s (e + 2) =? chr_newline)); intros Hne.
        -- destruct (Nat.ltb_spec (e + 2) n); lia.
        -- destruct (findBlankLine_ge fuel' s (e + 3)); [done|].
           destruct (Nat.ltb_spec (findBlankLine_loop fuel' s (e + 3)) n); lia.
      * replace (Nat.min n e) with e by lia. rewrite !char_at_take by lia.
        destruct ((char_at s (e + 1) =? chr_cr) && (char_at s (e + 2) =? chr_newline)).
        -- intros _. destruct (Nat.ltb_spec (e + 2) n); lia.
        -- intros Hne. apply IH; [lia..|done].
    + destruct (_ && _); [intros _; destruct (Nat.ltb_spec (e + 2) n); lia|]. intros Hne.
      destruct (findBlankLine_ge fuel' s (e + 3)); [done|].
      destruct (Nat.ltb_spec (findBlankLine_loop fuel' s (e + 3)) n); lia.
Qed.

(** A prefix of [a ++ b] at least as long as [a]. *)
Lemma prefix_split {A} (p q a b : list A) :
  p ++ q = a ++ b -> (length a <= length p)%nat -> exists p', p = a ++ p' /\ p' ++ q = b.
Proof.
  intros E Hl. apply app_eq_inv in E as [(k & -> & ->)|(k & -> & ->)]; [by exists k|].
  rewrite length_app in Hl. assert (k = []) as -> by (destruct k; [done|simpl in Hl; lia]). exists []. by rewrite !app_nil_r.
Qed.

Lemma prefix_take {A} (p q s : list A) : p ++ q = s -> p = take (length p) s.
Proof. intros <-. by rewrite take_app_length. Qed.

(** ** Hexadecimal chunk lengths *)

Lemma hexDigit_digit d : 0 <= d < 16 -> hexDigitFromChar (hex_digit d) = d.
Proof.
  intros H. unfold hexDigitFromChar, hex_digit. destruct (Z.ltb_spec d 10); zcases; simpl; try lia.
Qed.

Lemma hex_digit_plain d : 0 <= d < 16 -> hex_digit d <> chr_cr /\ hex_digit d <> chr_newline.
Proof. unfold hex_digit, chr_cr, chr_newline. intros H. destruct (Z.ltb_spec d 10); lia. Qed.

Definition plain (c : Z) : Prop := c <> chr_cr /\ c <> chr_newline.

Lemma hex_digits_spec fuel n rest :
  0 <= n < 2 ^ Z.of_nat fuel -> (0 < fuel)%nat -> n / 16 < LONG_MAX / 16 ->
  chunk_length (hex_digits fuel n ++ rest) 0 = chunk_length rest n /\
  Forall plain (hex_digits fuel n) /\ hex_digits fuel n <> [].
Proof.
  revert n rest. induction fuel as [|fuel IH]; intros n rest Hn Hf Hm; [lia|]. cbn [hex_digits].
  assert (Hstep : forall d k, 0 <= d < 16 -> 0 <= k -> k < LONG_MAX / 16 ->
    chunk_length (hex_digit d :: rest) k = chunk_length rest (k * 16 + d)).
  { intros d k Hd Hk Hkm. cbn [chunk_length]. rewrite hexDigit_digit by done. zcases; [lia..|done]. }
  destruct (Z.ltb_spec n 16).
  - cbn [app]. split; [rewrite Hstep by (done || lia); f_equal; lia|].
    split; [|done]. constructor; [|done]. apply hex_digit_plain. lia.
  - assert (0 <= n mod 16 < 16) by (apply Z.mod_pos_bound; lia).
    assert (Hp : 2 ^ Z.of_nat (S fuel) = 2 * 2 ^ Z.of_nat fuel) by (rewrite Nat2Z.inj_succ, Z.pow_succ_r; lia).
    destruct fuel as [|fuel]; [simpl in Hp; lia|].
    assert (0 <= n / 16) by (apply Z.div_pos; lia). assert (n / 16 <= n) by (apply Z.div_le_upper_bound; lia).
    destruct (IH (n / 16) (hex_digit (n mod 16) :: rest)) as (E & Hpl & Hne).
    + split; [apply Z.div_pos; lia|]. apply Z.div_lt_upper_bound; lia.
    + lia.
    + assert (n / 16 / 16 <= n / 16) by (apply Z.div_le_upper_bound; lia). lia.
    + rewrite <- (assoc_L (++)). cbn [app]. rewrite E, Hstep by (done || (split; lia) || (apply Z.div_pos; lia)).
      split; [f_equal; rewrite (Z.div_mod n 16) at 3; lia|].
      split; [|by destruct (hex_digits _ _)]. apply Forall_app. split; [done|]. constructor; [|done].
      by apply hex_digit_plain.
Qed.

(** Chunks whose length the parser accepts. *)
Definition chunk_ok (d : bytes) : Prop := d <> [] /\ Z.of_nat (length d) / 16 < LONG_MAX / 16.

Lemma hex_string_spec d rest :
  chunk_ok d -> let h := hex_string (Z.of_nat (length d)) in
  chunk_length (h ++ chr_cr :: rest) 0 = Some (Z.of_nat (length d)) /\ Forall plain h /\ h <> [].
Proof.
  intros [Hne Hl]. unfold hex_string. set (n := Z.of_nat (length d)) in *.
  assert (0 < n) by (unfold n; destruct d; simpl in *; [done|lia]).
  destruct (hex_digits_spec (S (Z.to_nat (Z.log2 n))) n (chr_cr :: rest)) as (E & Hp & Hn); [|lia|done|].
  - pose proof (Z.log2_spec n ltac:(lia)). pose proof (Z.log2_nonneg n).
    rewrite Nat2Z.inj_succ, Z2Nat.id by done. lia.
  - rewrite E. done.
Qed.

Definition encode_chunks (ds : list bytes) : bytes := concat (map chunk_bytes ds).

(** The stream of chunks, up to its end, starts with a digit. *)
Lemma stream_head ds : Forall chunk_ok ds -> exists c t, encode_chunks ds ++ last_chunk = c :: t /\ plain c.
Proof.
  destruct ds as [|d ds]; intros H.
  - exists chr_0, (CRLF ++ CRLF). by split; [|split].
  - apply Forall_cons in H as [Hd _]. destruct (hex_string_spec d [] Hd) as (_ & Hp & Hn).
    unfold encode_chunks, chunk_bytes. cbn [map concat]. destruct (hex_string _) as [|c t]; [done|].
    apply Forall_cons in Hp as [Hc _]. eexists c, _. split; [|done]. cbn [app]. done.
Qed.

Lemma plain_no_lf h : Forall plain h -> no_lf h.
Proof. intros H. apply (Forall_impl _ _ _ H). intros c [_ Hc]. by apply negb_true_iff, Z.eqb_neq. Qed.

Section body.
Variable io_write : list bytes -> bytes -> Z.
Variable poco_read : bytes -> poco_result.
Hypothesis io_writes_all : forall sent d, io_write sent d = Z.of_nat (length d).

(** What the sink was given, wherever it went. *)
Definition received (s : Sink) : bytes :=
  match sk_kind s with SinkMemory => sk_body s | SinkCallback => concat (sk_sent s) end.

Lemma on_body_write_all d s :
  exists s', on_body_write io_write d s = (Z.of_nat (length d), s') /\ received s' = received s ++ d.
Proof.
  unfold on_body_write, received. destruct (sk_kind s).
  - eexists. split; [done|]. done.
  - rewrite io_writes_all. eexists. split; [done|]. cbn [sk_kind sk_sent]. rewrite concat_app. cbn [concat].
    by rewrite app_nil_r.
Qed.

Lemma read_chunks_stream ds :
  Forall chunk_ok ds -> forall fuel s recv p q,
  (length p < fuel)%nat -> p ++ q = encode_chunks ds ++ last_chunk ->
  let '(s', _, rest, e) := read_chunks io_write fuel s recv p in
  (e = Chunks_last /\ rest = [] /\ received s' = received s ++ concat ds) \/
  (e = Chunks_more /\ q <> [] /\ (length rest <= length p)%nat /\ exists ds1 ds2, ds = ds1 ++ ds2 /\
     rest ++ q = encode_chunks ds2 ++ last_chunk /\ received s' = received s ++ concat ds1).
Proof.
  induction ds as [|d ds IH]; intros Hds [|fuel] s recv p q Hf E; try lia.
  all: cbn [read_chunks]; destruct (Nat.eqb_spec (length p) 0) as [Hp|Hp].
  1, 3: right; destruct p; [|done]; split_and!; [done| |done|];
    [destruct (stream_head _ Hds) as (? & ? & Hst & _); rewrite Hst in E; intros ->; discriminate|].
  1: exists [], []. 2: exists [], (d :: ds).
  1, 2: split_and!; [done|done|by rewrite app_nil_r].
  - (* the last chunk *)
    cbn [encode_chunks map concat app] in *.
    assert (Hlf : findLineBreak p 0 = Nat.min (length p) 2).
    { rewrite (prefix_take _ _ _ E) at 1. unfold findLineBreak. by rewrite scan_take by (rewrite <- E, length_app; lia). }
    rewrite Hlf. destruct (Nat.eqb_spec (Nat.min (length p) 2) (length p)).
    + right. split_and!; [done| |done|exists [], []; split_and!; [done|done|by rewrite app_nil_r]].
      intros ->. rewrite app_nil_r in E. subst p. simpl in *. lia.
    + assert (Hc : chunk_length p 0 = Some 0).
      { rewrite (prefix_take _ _ _ E). unfold last_chunk. by destruct (length p) as [|[|[|n']]]; [lia..|]. }
      rewrite Hc. left. by rewrite app_nil_r.
  - assert (Hd := Hds). apply Forall_cons in Hd as [Hd Hds'].
    set (h := hex_string (Z.of_nat (length d))) in *.
    assert (Hs : encode_chunks (d :: ds) ++ last_chunk =
                 (h ++ [chr_cr]) ++ chr_newline :: d ++ CRLF ++ encode_chunks ds ++ last_chunk).
    { unfold encode_chunks, chunk_bytes. cbn [map concat]. fold h. unfold CRLF. by rewrite <- !(assoc_L (++)). }
    assert (Hlf : findLineBreak p 0 = Nat.min (length p) (S (length h))).
    { rewrite (prefix_take _ _ _ E) at 1. unfold findLineBreak. rewrite scan_take by (rewrite <- E, length_app; lia).
      rewrite Hs, (scan_drop _ _ 0 (h ++ [chr_cr]) chr_newline (d ++ CRLF ++ encode_chunks ds ++ last_chunk)); [|done| |done].
      - rewrite length_app. cbn [length]. lia.
      - apply Forall_app. split; [|by repeat constructor]. apply plain_no_lf, (hex_string_spec d [] Hd). }
    rewrite Hlf. assert (Hq : forall n, (n < length (h ++ CRLF ++ d ++ CRLF))%nat -> length p = n -> q <> []).
    { intros n Hn <- ->. rewrite app_nil_r in E. rewrite E, Hs in Hn. unfold CRLF in Hn.
      rewrite !length_app in Hn. cbn [length] in Hn. rewrite !length_app in Hn. cbn [length] in Hn. lia. }
    assert (Hmore : (length p < length (h ++ CRLF ++ d ++ CRLF))%nat ->
      q <> [] /\ (length p <= length p)%nat /\ exists ds1 ds2, d :: ds = ds1 ++ ds2 /\
      p ++ q = encode_chunks ds2 ++ last_chunk /\ received s = received s ++ concat ds1).
    { intros Hn. split_and!; [by apply (Hq _ Hn)|done|]. exists [], (d :: ds). by rewrite app_nil_r. }
    rewrite !length_app in Hmore. unfold CRLF in Hmore. cbn [length] in Hmore.
    destruct (Nat.eqb_spec (Nat.min (length p) (S (length h))) (length p)) as [Hm|Hm].
    { right. split; [done|]. apply Hmore. lia. }
    assert (Hh : (S (length h) < length p)%nat) by lia. rewrite Nat.min_r in * by lia.
    rewrite Hs in E. destruct (prefix_split p q ((h ++ [chr_cr]) ++ [chr_newline]) (d ++ CRLF ++ encode_chunks ds ++ last_chunk)) as (p1 & Hp1 & E1).
    { rewrite E. by rewrite <- !(assoc_L (++)). } { rewrite !length_app. cbn [length]. lia. }
    assert (Hc : chunk_length p 0 = Some (Z.of_nat (length d))).
    { rewrite Hp1, <- !(assoc_L (++)). apply (hex_string_spec d _ Hd). }
    rewrite Hc. assert (Hlp : length p = (length h + 2 + length p1)%nat).
    { rewrite Hp1, !length_app. cbn [length]. lia. }
    assert (Hd0 : (0 < length d)%nat) by (destruct d; [by destruct Hd|simpl; lia]).
    destruct (Z.ltb_spec 0 (Z.of_nat (length d))); [|lia].
    destruct (Z.ltb_spec (Z.of_nat (length p) - Z.of_nat (S (S (length h)))) (Z.of_nat (length d) + 2)) as [Hs2|Hs2].
    { right. split; [done|]. apply Hmore. lia. }
    replace (drop (S (S (length h))) p) with p1.
    2: { rewrite Hp1. rewrite drop_app_length'; [done|]. rewrite !length_app. cbn [length]. lia. }
    rewrite (assoc_L (++)) in E1.
    destruct (prefix_split p1 q (d ++ CRLF) (encode_chunks ds ++ last_chunk)) as (p2 & -> & E2); [done| |].
    { rewrite length_app. unfold CRLF. cbn [length]. lia. }
    rewrite Nat2Z.id, <- (assoc_L (++)), take_app_length, drop_app_length.
    destruct (on_body_write_all d s) as (s1 & -> & Hr1). rewrite Z.eqb_refl. cbn [negb].
    assert (Hskip : skipCRLF (CRLF ++ p2) 0 = 2%nat).
    { unfold skipCRLF, scan, CRLF. cbn [length app Nat.ltb Nat.leb drop run_length]. cbn.
      destruct p2 as [|c p2]; [done|]. destruct (stream_head ds Hds') as (c' & t & Hst & Hpl). rewrite Hst in E2.
      injection E2 as -> _. destruct Hpl as [H1 H2]. cbn [run_length].
      destruct (Z.eqb_spec c' chr_cr); [done|]. destruct (Z.eqb_spec c' chr_newline); [done|]. done. }
    rewrite Hskip. unfold CRLF. cbn [drop app].
    assert (Hl2 : (length p2 < length p)%nat) by (rewrite Hlp, !length_app; unfold CRLF; cbn [length]; lia).
    specialize (IH Hds' fuel s1 (recv + Z.of_nat (length d)) p2 q ltac:(lia) E2).
    destruct (read_chunks _ _ _ _ _) as [[[s' recv'] rest] e]. rewrite Hr1 in IH.
    destruct IH as [(-> & -> & Hr)|(-> & Hq' & Hle & ds1 & ds2 & -> & Er & Hr)].
    + left. split_and!; [done|done|]. rewrite Hr. cbn [concat]. by rewrite (assoc_L (++)).
    + right. split_and!; [done|done|lia|]. exists (d :: ds1), ds2. split_and!; [done|done|].
      rewrite Hr. cbn [concat]. by rewrite (assoc_L (++)).
Qed.
End body.

(** ** Header fields *)

(** A field the parser of Poco returns as it is: a name of printable characters
    without colon, a value without line breaks, blanks around it or encoded words,
    both within Poco's limits. *)
Definition name_char (c : Z) : bool := (33 <=? c) && (c <? 127) && negb (c =? 58).
Definition value_ok (v : bytes) : bool :=
  forallb (fun c => (32 <=? c) && (c <? 127)) v && beq (trimmed v) v && negb (contains (str "=?") v)
  && (length v <? 8192)%nat.
Definition field_ok (f : bytes * bytes) : bool :=
  negb (length f.1 =? 0)%nat && forallb name_char f.1 && (length f.1 <? 256)%nat && value_ok f.2.

(** A first line Poco skips, as it has no colon: the status line of a response. *)
Definition first_line_ok (l : bytes) : bool :=
  negb (length l =? 0)%nat && forallb (fun c => (32 <=? c) && (c <? 127) && negb (c =? 58)) l
  && (length l <? 256)%nat.

Definition first_lines (first : option bytes) : list bytes := match first with Some l => [l] | None => [] end.

(** What [Poco::Net::MessageHeader::read] is documented to do. *)
Definition poco_law (poco_read : bytes -> poco_result) : Prop :=
  forall first fields rest,
  Forall (fun l => first_line_ok l = true) (first_lines first) -> Forall (fun f => field_ok f = true) fields ->
  poco_read (crlf_lines (first_lines first) ++ header_lines fields ++ CRLF ++ rest) = Poco_fields fields.

Definition fields_ok (fields : Container) : Prop :=
  Forall (fun f => field_ok f = true) fields /\ NoDup (map (fun f => toLower f.1) fields).

Definition header_of (fields : Container) : Header :=
  {| hd_headers := fields;
     hd_chunked := beq (default [] (find_field TRANSFER_ENCODING fields)) (str "chunked") |}.

Lemma header_lines_crlf fields : header_lines fields = crlf_lines (map (fun f => f.1 ++ str ": " ++ f.2) fields).
Proof.
  unfold header_lines, crlf_lines. rewrite map_map. f_equal. apply map_ext. intros f. unfold field_line.
  by rewrite <- !(assoc_L (++)).
Qed.

Lemma forallb_Forall {A} (f : A -> bool) l : forallb f l = true <-> Forall (fun x => f x = true) l.
Proof. rewrite forallb_forall, List.Forall_forall. done. Qed.

Lemma field_line_ok f : field_ok f = true -> line_ok (f.1 ++ str ": " ++ f.2).
Proof.
  unfold field_ok, value_ok. rewrite !andb_true_iff, !forallb_Forall.
  intros [[[Hn Hc] _] [[[Hv _] _] _]]. split.
  - apply Forall_app. split; [|apply Forall_app; split; [by repeat constructor|]].
    + apply (Forall_impl _ _ _ Hc). intros c. unfold name_char, chr_newline. intros H.
      destruct (Z.eqb_spec c 10); [subst; done|done].
    + apply (Forall_impl _ _ _ Hv). intros c H. unfold chr_newline. destruct (Z.eqb_spec c 10); [subst; done|done].
  - destruct f as [[|c n] v]; [done|]. cbn. cbn in Hc. apply Forall_cons in Hc as [H _]. intros ->. done.
Qed.

Lemma first_line_line_ok l : first_line_ok l = true -> line_ok l.
Proof.
  unfold first_line_ok. rewrite !andb_true_iff, forallb_Forall. intros [[Hn Hc] _]. split.
  - apply (Forall_impl _ _ _ Hc). intros c H. unfold chr_newline. destruct (Z.eqb_spec c 10); [subst; done|done].
  - destruct l as [|c l]; [done|]. apply Forall_cons in Hc as [H _]. intros ->. done.
Qed.

Lemma set_field_new k v l : toLower k ∉ map (fun f : bytes * bytes => toLower f.1) l -> set_field k v l = l ++ [(k, v)].
Proof.
  induction l as [|f l IH]; intros H; [done|]. cbn [map set_field app] in *. apply not_elem_of_cons in H as [Hn H].
  destruct (iequal f.1 k) eqn:E; [apply iequal_spec in E; done|]. by rewrite IH.
Qed.

Lemma trimmed_name n : forallb name_char n = true -> trimmed n = n.
Proof.
  rewrite forallb_Forall. intros H. unfold trimmed, rtrim.
  assert (Hl : forall s, Forall (fun x => name_char x = true) s -> ltrim_char chr_space s = s).
  { intros [|c s] Hs; [done|]. apply Forall_cons in Hs as [Hc _]. cbn [ltrim_char].
    destruct (Z.eqb_spec c chr_space); [by subst|done]. }
  rewrite (Hl n H), Hl; [apply reverse_involutive|]. apply Forall_forall. intros c Hc. apply (proj1 (Forall_forall _ _) H). by apply elem_of_reverse.
Qed.

Lemma set_fields_acc fields acc :
  Forall (fun f => field_ok f = true) fields -> NoDup (map (fun f => toLower f.1) (acc ++ fields)) ->
  forall c, fold_left (fun h pair => header_set (trimmed pair.1) (trimmed pair.2) h) fields
              {| hd_headers := acc; hd_chunked := c |} = {| hd_headers := acc ++ fields; hd_chunked := c |}.
Proof.
  revert acc. induction fields as [|f fields IH]; intros acc Hf Hn c; cbn [fold_left]; [by rewrite app_nil_r|].
  apply Forall_cons in Hf as [Hok Hf]. unfold header_set at 2. cbn [hd_headers hd_chunked].
  unfold field_ok, value_ok in Hok. rewrite !andb_true_iff in Hok. destruct Hok as [[[_ Hc] _] [[[_ Ht] _] _]].
  rewrite trimmed_name by done. apply beq_eq in Ht. rewrite Ht.
  rewrite set_field_new.
  - rewrite IH; [|done|by rewrite <- (assoc_L (++)); destruct f].
    rewrite <- (assoc_L (++)). by destruct f.
  - rewrite map_app in Hn. apply NoDup_app in Hn as (_ & Hd & _). cbn [map] in Hd. intros Hin. apply (Hd _ Hin). by left.
Qed.

Section header.
Variable poco_read : bytes -> poco_result.
Hypothesis poco_ok : poco_law poco_read.

(** A block of header fields is consumed as a whole, once it is complete. *)
Lemma header_parse_block first fields p q rest :
  Forall (fun l => first_line_ok l = true) (first_lines first) -> fields_ok fields ->
  first_lines first ++ map fst fields <> [] ->
  p ++ q = (crlf_lines (first_lines first) ++ header_lines fields ++ CRLF) ++ rest ->
  let B := crlf_lines (first_lines first) ++ header_lines fields ++ CRLF in
  header_parse poco_read p Header_new =
  if (length B <=? length p)%nat then (Z.of_nat (length B), header_of fields) else (0, Header_new).
Proof.
  intros Hfirst [Hf Hnd] Hne E B. set (ls := first_lines first ++ map (fun f => f.1 ++ str ": " ++ f.2) fields).
  assert (HB : B = crlf_lines ls ++ CRLF).
  { unfold B, ls. rewrite header_lines_crlf, (assoc_L (++)). f_equal. unfold crlf_lines. by rewrite map_app, concat_app. }
  assert (Hls : Forall line_ok ls).
  { unfold ls. apply Forall_app. split.
    - apply (Forall_impl _ _ _ Hfirst), first_line_line_ok.
    - apply Forall_map, (Forall_impl _ _ _ Hf). apply field_line_ok. }
  fold B in E. assert (Hfull : exists l ls', ls = l :: ls').
  { destruct ls eqn:El; [|by eexists _, _]. unfold ls in El. apply app_nil in El as [E1 E2].
    rewrite E1 in Hne. by destruct fields. }
  destruct Hfull as (l & ls' & Els). rewrite Els in *.
  assert (Hblank := findBlankLine_block l ls' rest Hls). rewrite (assoc_L (++)), <- HB, <- E in Hblank.
  assert (HlB : (4 <= length B)%nat).
  { rewrite HB, length_app. pose proof (crlf_lines_length _ Hls) as Hc. cbn [length] in Hc. unfold CRLF. cbn [length]. lia. }
  assert (Hlp : (length B <= length p + length q)%nat) by (rewrite <- length_app, E, length_app; lia).
  assert (Hp : findBlankLine p 0 = if (length B - 1 <? length p)%nat then (length B - 1)%nat else length p).
  { unfold findBlankLine. rewrite (prefix_take p q _ eq_refl) at 2.
    rewrite (findBlankLine_take _ (S (length (p ++ q)))); rewrite ?length_app; try lia.
    - rewrite <- length_app. fold (findBlankLine (p ++ q) 0).
      replace (findBlankLine (p ++ q) 0) with (length B - 1)%nat by lia. done.
    - rewrite <- length_app. fold (findBlankLine (p ++ q) 0). rewrite length_app. lia. }
  unfold header_parse. rewrite Hp.
  destruct (Nat.ltb_spec (length p) 4); destruct (Nat.leb_spec (length B) (length p)); try lia; [done| |].
  - destruct (Nat.ltb_spec (length B - 1) (length p)); [|lia].
    destruct (Nat.eqb_spec (length B - 1) (length p)); [lia|].
    destruct (prefix_split p q B rest) as (p' & -> & _); [done|lia|].
    unfold B. rewrite <- !(assoc_L (++)), poco_ok by done.
    unfold Header_new. rewrite set_fields_acc by done. cbn [app hd_headers]. f_equal. fold B. lia.
  - destruct (Nat.ltb_spec (length B - 1) (length p)); [lia|].
    by destruct (Nat.eqb_spec (length p) (length p)).
Qed.
End header.
