(* ===== verification/Clipboard.v ===== *)
(** * Clipboards

    Models what becomes of the contents of a clipboard: the origin the server writes
    into it and takes away again (two methods of [ClientSession],
    [wsd/ClientSession.cpp]); the format in which the kit writes and reads it
    ([ClipboardData], [common/Clipboard.hpp], with [getClipboard] and [setClipboard] of
    [kit/ChildSession.cpp]); and the cache that keeps it for a while after its document
    is closed ([ClipboardCache], [common/Clipboard.hpp]) over a file system. The methods
    of a session and of the broker that use them are in [KitMessages] and
    [ClipboardServer]. *)

From S2P Require Import Prelude RecordSet Util Protocol StreamSearch Http.

Open Scope cool_scope.
Open Scope record_scope.

(** ** The clipboard's origin *)

(** The stream functions of [ClientSession::postProcessCopyPayload] on the whole data:
    [copyToMatch] copies up to the first match ([StreamSearch]). *)
Definition copy_origin (json : bool) (meta : bytes) : bytes :=
  let q := if json then [92; 34] else [34] in
  str "<div id=" ++ q ++ str "meta-origin" ++ q ++ str " data-coolorigin=" ++ q ++ meta ++ q ++ str ">"
  ++ if json then str "\n" else [chr_newline].

Definition postProcessCopyPayload (meta data : bytes) : option bytes :=
  if starts_with (str "text/plain") data then None
  else
    match find_sub (str "<body") data with
    | None => None
    | Some body =>
        match find_sub (str ">") (drop body data) with
        | None => None
        | Some n =>
            let rest := drop (body + n + 1) data in
            let tail :=
              match find_sub (str "</body>") rest with
              | Some close => take close rest ++ str "</div>" ++ drop close rest
              | None => rest
              end in
            Some (take (body + n) data ++ str ">" ++ copy_origin (starts_with (str "{") data) meta ++ tail)
        end
    end.

(** The same on a message: its first line is not searched. *)
Definition postProcessCopyBody (meta data : bytes) : option bytes :=
  let prefix := str "textselectioncontent:" ++ [chr_newline] in
  if starts_with prefix data
  then (fun body => prefix ++ body) <$> postProcessCopyPayload meta (drop (length prefix) data)
  else postProcessCopyPayload meta data.

(** The inverse for a clipboard that is set: [preProcessSetClipboardPayload]; what was
    written before an unbalanced tag stays written. *)
Definition preProcessSetClipboardPayload (data : bytes) : bytes * bool :=
  match find_sub (str "<div id=" ++ [34] ++ str "meta-origin" ++ [34] ++ str " data-coolorigin=" ++ [34]) data with
  | None => (data, false)
  | Some start =>
      let out := take start data in
      let endtag := [34] ++ str ">" ++ [chr_newline] in
      match find_sub endtag (drop start data) with
      | None => (out, false)
      | Some n =>
          let rest := drop (start + n + length endtag) data in
          match find_sub (str "</div></body>") rest with
          | None => (out ++ rest, false)
          | Some close => (out ++ take close rest ++ drop (close + length (str "</div>")) rest, true)
          end
      end
  end.

(** ** The format *)

(** A text stream: what is left of it, its end and its failure bit. *)
Record tstream := { ts_rest : bytes; ts_eof : bool; ts_fail : bool }.
Definition ts_open (content : bytes) : tstream := {| ts_rest := content; ts_eof := false; ts_fail := false |}.
Definition ts_good (s : tstream) : bool := negb (ts_eof s) && negb (ts_fail s).
Definition ts_failed (s : tstream) : tstream := {| ts_rest := ts_rest s; ts_eof := ts_eof s; ts_fail := true |}.

(** [std::getline(in, line, '\n')] for an empty [line]. *)
Definition getline (s : tstream) : bytes * tstream :=
  if ts_good s then
    match find_sub [chr_newline] (ts_rest s) with
    | Some n => (take n (ts_rest s), {| ts_rest := drop (n + 1) (ts_rest s); ts_eof := false; ts_fail := false |})
    | None => (ts_rest s, {| ts_rest := []; ts_eof := true; ts_fail := (length (ts_rest s) =? 0)%nat |})
    end
  else ([], ts_failed s).

(** [in.read(data, n)]. *)
Definition ts_read (n : Z) (s : tstream) : bytes * tstream :=
  if ts_good s then
    if Z.of_nat (length (ts_rest s)) <? n
    then (ts_rest s, {| ts_rest := []; ts_eof := true; ts_fail := true |})
    else (take (Z.to_nat n) (ts_rest s), {| ts_rest := drop (Z.to_nat n) (ts_rest s); ts_eof := false; ts_fail := false |})
  else ([], ts_failed s).

(** [in.seekg(0, in.beg)] in a stream of that content: the end bit goes, and nothing
    else when it has failed. *)
Definition ts_rewind (content : bytes) (s : tstream) : tstream :=
  if ts_fail s then {| ts_rest := ts_rest s; ts_eof := false; ts_fail := true |} else ts_open content.

(** [strtoll(s, nullptr, 16)]. *)
Fixpoint hex_run (s : bytes) : bytes :=
  match s with
  | c :: s' => if hexDigitFromChar c <? 0 then [] else c :: hex_run s'
  | [] => []
  end.
Definition hex_value (ds : bytes) : Z := fold_left (fun acc c => acc * 16 + hexDigitFromChar c) ds 0.
Definition skip_0x (s : bytes) : bytes :=
  match s with
  | z :: x :: d :: _ => if (z =? 48) && ((x =? 120) || (x =? 88)) && (0 <=? hexDigitFromChar d) then drop 2 s else s
  | _ => s
  end.
Definition strtoll16 (s : bytes) : Z :=
  let '(neg, s') := split_sign (drop_spaces s) in
  let v := hex_value (hex_run (skip_0x s')) in
  Z.min LONG_MAX (Z.max LONG_MIN (if neg then - v else v)).

(** Mime types and contents, in order. *)
Definition ClipboardData : Type := list (bytes * bytes).

Definition isOwnFormat (inStream : tstream) : bool :=
  if ts_eof inStream then false
  else
    let '(mime, s) := getline inStream in
    let '(hexLen, s) := getline s in
    negb (beq mime []) && negb (beq hexLen []) && negb (u64 (strtoll16 hexLen) =? 0).

(** The loop of [ClipboardData::read]; [None]: it goes on for more than [fuel] rounds. A
    string that is too long cannot be allocated, which throws as well. *)
Fixpoint clipboard_read (fuel : nat) (s : tstream) (data : ClipboardData) : option (result ClipboardData) :=
  if ts_eof s then Some (Ok data)
  else
    match fuel with
    | O => None
    | S fuel' =>
        let '(mime, s) := getline s in
        let '(hexLen, s) := getline s in
        if negb (beq mime []) && negb (beq hexLen []) && negb (ts_fail s) then
          let '(content, s) := ts_read (u64 (strtoll16 hexLen)) s in
          if ts_fail s then Some (Throw ParseError)
          else
            let '(_, s) := getline s in
            clipboard_read fuel' s (data ++ [(mime, content)])
        else clipboard_read fuel' s data
    end.

Definition findType (mime : bytes) (data : ClipboardData) : option bytes :=
  snd <$> List.find (fun e => beq e.1 mime) data.

(** What [ChildSession::getClipboard] writes into its file when no types are asked for. *)
Definition clipboard_entry (e : bytes * bytes) : bytes :=
  e.1 ++ [chr_newline] ++ hex_string (Z.of_nat (length e.2)) ++ [chr_newline] ++ e.2 ++ [chr_newline].
Definition clipboard_write (data : ClipboardData) : bytes := concat (map clipboard_entry data).

(** What [ChildSession::setClipboard] gives to the document for a file of that content. *)
Definition clipboard_contents (fuel : nat) (content : bytes) : option (result ClipboardData) :=
  let '(firstLine, s) := getline (ts_open content) in
  let s := ts_rewind content s in
  if starts_with (str "<!DOCTYPE html>") firstLine
  then Some (Ok [(str "text/html", ts_rest s)])
  else clipboard_read fuel s [].

(** ** The cache *)

Definition CLIPBOARD_EXPIRY_MINUTES : Z := 10.
(** In nanoseconds of the steady clock. *)
Definition clip_expiry : Z := CLIPBOARD_EXPIRY_MINUTES * 60 * 1000000000.
Definition ExpiryCheckPeriod : Z := CLIPBOARD_EXPIRY_MINUTES * 60 / 10 * 1000000000.

(** A file that is removed when the last of those who share it goes. *)
Record OwnedFile := { of_object : Z; of_file : bytes }.

#[global] Instance OwnedFile_eq_dec : EqDecision OwnedFile.
Proof. solve_decision. Defined.

Record Entry := { en_inserted : Z; en_cacheFile : OwnedFile }.

Definition hasExpired (now : Z) (e : Entry) : bool := clip_expiry <=? now - en_inserted e.

(** The cache and the files. [cs_owners] are the references to owned files from outside
    the cache, [cs_objects] counts those that were made. *)
Record ClipboardCache := {
  cs_cache : gmap bytes Entry;
  cs_cacheDir : bytes;
  cs_nextExpiryTime : Z;
  cs_cacheFileId : Z;
  cs_objects : Z;
  cs_owners : list OwnedFile;
  cs_files : gmap bytes bytes }.

#[export] Instance ClipboardCache_settable : Settable ClipboardCache := fun c =>
  {| cs_cache := cs_cache c; cs_cacheDir := cs_cacheDir c; cs_nextExpiryTime := cs_nextExpiryTime c;
     cs_cacheFileId := cs_cacheFileId c; cs_objects := cs_objects c; cs_owners := cs_owners c; cs_files := cs_files c |}.

Definition ClipboardCache_new (cacheDir : bytes) (now : Z) (files : gmap bytes bytes) : ClipboardCache :=
  {| cs_cache := ∅; cs_cacheDir := cacheDir; cs_nextExpiryTime := now + ExpiryCheckPeriod; cs_cacheFileId := 0;
     cs_objects := 0; cs_owners := []; cs_files := files |}.

(** Somebody shares the file. *)
Definition shared (o : OwnedFile) (c : ClipboardCache) : bool :=
  bool_decide (o ∈ map (fun e => en_cacheFile e.2) (map_to_list (cs_cache c)) ++ cs_owners c).
(** A reference goes. *)
Definition release (c : ClipboardCache) (o : OwnedFile) : ClipboardCache :=
  if shared o c then c else c <| cs_files ::= delete (of_file o) |>.
Definition make_owned (file : bytes) (c : ClipboardCache) : OwnedFile * ClipboardCache :=
  ({| of_object := cs_objects c; of_file := file |}, c <| cs_objects ::= fun n => n + 1 |>).

Definition clip_file (dir : bytes) (id : Z) : bytes := dir ++ str "/" ++ to_string id.
(** Models sequential calls: in the code [_cacheFileId] is a plain [int] that the
    threads of all brokers increment without the lock. Two calls that race may get one
    name; nothing here speaks of that. The counter is not bounded here. *)
Definition nextClipFileName (c : ClipboardCache) : bytes * ClipboardCache :=
  (clip_file (cs_cacheDir c) (cs_cacheFileId c), c <| cs_cacheFileId ::= fun id => id + 1 |>).

Definition file_of (key : bytes) (c : ClipboardCache) : list OwnedFile := map en_cacheFile (option_list (cs_cache c !! key)).

(** [renames]: the system moves the file, if it is there. The result is the path the
    content has now. *)
Definition insertClipboard (renames : bool) (key : bytes * bytes) (clipFile : bytes) (now : Z) (c : ClipboardCache)
    : bytes * ClipboardCache :=
  let '(cacheFile, c) := nextClipFileName c in
  match (if renames then cs_files c !! clipFile else None) with
  | None => (clipFile, c)
  | Some data =>
      let '(o, c) := make_owned cacheFile c in
      let ent := {| en_inserted := now; en_cacheFile := o |} in
      let old := file_of key.2 c ++ file_of key.1 c in
      let c := c <| cs_files ::= fun fs => <[cacheFile := data]> (delete clipFile fs) |>
                 <| cs_cache ::= fun m => <[key.1 := ent]> (<[key.2 := ent]> m) |> in
      (cacheFile, fold_left release old c)
  end.

(** The result is a reference, that is kept until [release_owner]. *)
Definition cached_clipboard (key : bytes) (now : Z) (c : ClipboardCache) : option OwnedFile * ClipboardCache :=
  match cs_cache c !! key with
  | None => (None, c)
  | Some e => if hasExpired now e then (None, c)
              else (Some (en_cacheFile e), c <| cs_owners ::= fun l => l ++ [en_cacheFile e] |>)
  end.
Fixpoint remove_first (o : OwnedFile) (l : list OwnedFile) : list OwnedFile :=
  match l with
  | [] => []
  | o' :: l' => if bool_decide (o' = o) then l' else o' :: remove_first o l'
  end.
Definition release_owner (o : OwnedFile) (c : ClipboardCache) : ClipboardCache :=
  release (c <| cs_owners ::= remove_first o |>) o.

(** [lockFree]: [try_lock] succeeds. *)
Definition checkexpiry (lockFree : bool) (now : Z) (c : ClipboardCache) : ClipboardCache :=
  if now <? cs_nextExpiryTime c then c
  else if negb lockFree then c
  else
    let old := map (fun e => en_cacheFile e.2)
                 (map_to_list (filter (fun e : bytes * Entry => hasExpired now e.2 = true) (cs_cache c))) in
    let c := c <| cs_cache ::= filter (fun e : bytes * Entry => hasExpired now e.2 = false) |> in
    fold_left release old c <| cs_nextExpiryTime := now + ExpiryCheckPeriod |>.

(** ** The kit's clipboard arrives *)

Definition file_size (path : bytes) (c : ClipboardCache) : nat := length (default [] (cs_files c !! path)).

(** The content with the origin, if it has a body, in a file of the cache's directory. *)
Definition add_origin (meta jailClipFile : bytes) (c : ClipboardCache) : bytes * ClipboardCache :=
  let '(post, c) := nextClipFileName c in
  match postProcessCopyPayload meta (default [] (cs_files c !! jailClipFile)) with
  | Some data => (post, c <| cs_files ::= fun fs => delete jailClipFile (<[post := data]> fs) |>)
  | None => (jailClipFile, c <| cs_files ::= delete post |>)
  end.

(** Into the cache, or into the care of the sockets that wait for the content: the file
    goes with the last of them. *)
Definition cache_or_own (renames inserts : bool) (key : bytes * bytes) (sockets : nat) (now : Z) (clipFile : bytes)
    (c : ClipboardCache) : bytes * ClipboardCache :=
  let '(cacheFile, c) := if inserts then insertClipboard renames key clipFile now c else (clipFile, c) in
  if beq cacheFile clipFile then
    let '(o, c) := make_owned clipFile c in
    match sockets with
    | O => (clipFile, release c o)
    | _ => (clipFile, c <| cs_owners ::= fun l => l ++ repeat o sockets |>)
    end
  else (cacheFile, c).

(** The branch [clipboardcontent:] of the session's messages, for the path as the server
    sees it. The result is the path whose content is sent to the sockets that wait. *)
Definition keep_clipboard (renames : bool) (meta : bytes) (disableCopy : bool) (key : bytes * bytes) (sockets : nat) (now : Z)
    (jailClipFile : bytes) (c : ClipboardCache) : bytes * ClipboardCache :=
  let empty := beq jailClipFile [] || (file_size jailClipFile c =? 0)%nat in
  let '(clipFile, c) := if empty then (jailClipFile, c) else add_origin meta jailClipFile c in
  cache_or_own renames (negb empty && negb disableCopy) key sockets now clipFile c.
