(* ===== verification/ClipboardSpec.v ===== *)
(** * Clipboards keep their contents

    The origin that is added to a clipboard can be taken away again; the kit reads a
    clipboard as it wrote it; the cache removes exactly the files nobody needs
    ([Clipboard]). *)

From S2P Require Import Prelude RecordSet Util Protocol StreamSearch Http HttpSpec Clipboard.

Open Scope cool_scope.
Open Scope record_scope.

(** ** The clipboard's origin *)

Definition meta_tag : bytes := str "<div id=" ++ [34] ++ str "meta-origin" ++ [34] ++ str " data-coolorigin=" ++ [34].
Definition origin_end : bytes := [34] ++ str ">" ++ [chr_newline].

Lemma drop_plus {A} (l1 l2 : list A) n : drop (length l1 + n) (l1 ++ l2) = drop n l2.
Proof. by rewrite <- drop_drop, drop_app_length. Qed.

(** An element of a text that is known. *)
Ltac not_in_text := let H := fresh in intros H; apply list_elem_of_In in H; vm_compute in H; lia.

Lemma post_process_html meta before attrs content after :
  let data := before ++ str "<body" ++ attrs ++ str ">" ++ content ++ str "</body>" ++ after in
  starts_with (str "text/plain") data = false -> starts_with (str "{") data = false ->
  find_sub (str "<body") before = None -> 62 ∉ attrs -> find_sub (str "</body>") content = None ->
  postProcessCopyPayload meta data =
    Some ((before ++ str "<body" ++ attrs ++ str ">") ++ meta_tag ++ (meta ++ origin_end)
          ++ content ++ str "</div></body>" ++ after).
Proof.
  intros data Htext Hjson Hbefore Hattrs Hcontent. unfold postProcessCopyPayload. rewrite Htext, Hjson.
  assert (Hb : find_sub (str "<body") data = Some (length before)) by (apply find_sub_app; [not_in_text|done]).
  assert (Hg : find_sub (str ">") (drop (length before) data) = Some (length (str "<body" ++ attrs))).
  { unfold data. rewrite drop_app_length, app_assoc. apply find_sub_app; [not_in_text|].
    apply (find_sub_absent_char _ _ 62); [by apply list_elem_of_singleton|].
    rewrite elem_of_app. intros [H|H]; [revert H; not_in_text|done]. }
  assert (Hsplit : data = (before ++ str "<body" ++ attrs) ++ str ">" ++ content ++ str "</body>" ++ after)
    by (unfold data; by rewrite <- !app_assoc).
  assert (Hlen : (length before + length (str "<body" ++ attrs))%nat = length (before ++ str "<body" ++ attrs))
    by (by rewrite !length_app).
  assert (Hc : find_sub (str "</body>") (content ++ str "</body>" ++ after) = Some (length content))
    by (apply find_sub_app; [not_in_text|done]).
  rewrite Hb, Hg, Hlen. cbn zeta. rewrite Hsplit, take_app_length, drop_plus.
  change (drop 1 (str ">" ++ content ++ str "</body>" ++ after)) with (content ++ str "</body>" ++ after).
  rewrite Hc, take_app_length, drop_app_length. unfold meta_tag, origin_end, copy_origin. by rewrite <- !app_assoc.
Qed.

Lemma pre_process_html meta head content after :
  find_sub meta_tag head = None -> 62 ∉ meta -> find_sub (str "</body>") content = None ->
  preProcessSetClipboardPayload (head ++ meta_tag ++ (meta ++ origin_end) ++ content ++ str "</div></body>" ++ after)
  = (head ++ content ++ str "</body>" ++ after, true).
Proof.
  intros Hhead Hmeta Hcontent. unfold preProcessSetClipboardPayload. fold meta_tag origin_end.
  rewrite (find_sub_app 60 (tail meta_tag)); [|not_in_text|done]. rewrite take_app_length, drop_app_length.
  replace (meta_tag ++ (meta ++ origin_end) ++ content ++ str "</div></body>" ++ after)
    with ((meta_tag ++ meta) ++ origin_end ++ content ++ str "</div></body>" ++ after) by (by rewrite <- !app_assoc).
  rewrite (find_sub_app 34 (tail origin_end)); [|not_in_text|].
  2:{ apply (find_sub_absent_char _ _ 62); [apply list_elem_of_In; simpl; tauto|].
      rewrite elem_of_app. intros [H|H]; [revert H; not_in_text|done]. }
  cbn zeta. rewrite <- Nat.add_assoc, drop_plus, drop_plus, drop_app_length.
  assert (Hd : find_sub (str "</body>") (content ++ str "</div></body>" ++ after) = Some (length content + 6)%nat).
  { change (str "</div></body>" ++ after) with (str "</div>" ++ str "</body>" ++ after). rewrite app_assoc.
    rewrite (find_sub_app 60 (tail (str "</body>"))); [by rewrite length_app|not_in_text|].
    by apply find_sub_none_app; [not_in_text|..]. }
  change (str "</div></body>") with (str "</div>" ++ str "</body>") at 1.
  rewrite (find_sub_half (str "</div>") (str "</body>") _ (length content)); [|rewrite drop_app_length|exact Hd].
  2:{ change (str "</div></body>") with (str "</div>" ++ str "</body>"). apply starts_with_app. }
  rewrite take_app_length, drop_plus.
  change (drop (length (str "</div>")) (str "</div></body>" ++ after)) with (str "</body>" ++ after).
  done.
Qed.

(** Fact (roundtrip): the clipboard's origin is taken away as it was added. For an HTML text with a body,
    which names no origin yet, [postProcessCopyPayload] writes the origin into the body, and
    [preProcessSetClipboardPayload] gives the text back as it was. *)
Theorem clipboard_origin_roundtrip meta before attrs content after :
  let data := before ++ str "<body" ++ attrs ++ str ">" ++ content ++ str "</body>" ++ after in
  starts_with (str "text/plain") data = false -> starts_with (str "{") data = false ->
  find_sub (str "<body") before = None -> 62 ∉ attrs -> find_sub (str "</body>") content = None ->
  find_sub meta_tag (before ++ str "<body" ++ attrs ++ str ">") = None -> 62 ∉ meta ->
  exists out, postProcessCopyPayload meta data = Some out /\ out <> data /\
    preProcessSetClipboardPayload out = (data, true).
Proof.
  intros data Htext Hjson Hbefore Hattrs Hcontent Htag Hmeta.
  eexists. split; [by apply post_process_html|]. split.
  - intros E%(f_equal length). unfold data in E. rewrite !length_app in E. simpl in E. lia.
  - rewrite pre_process_html by done. unfold data. by rewrite <- !app_assoc.
Qed.

Lemma clipboard_origin_roundtrip_witness :
  exists out, postProcessCopyPayload (str "http://h/c") (str "<html><body lang=en>A<b>c</b></body></html>") = Some out /\
    out <> str "<html><body lang=en>A<b>c</b></body></html>" /\
    preProcessSetClipboardPayload out = (str "<html><body lang=en>A<b>c</b></body></html>", true).
Proof.
  apply (clipboard_origin_roundtrip (str "http://h/c") (str "<html>") (str " lang=en") (str "A<b>c</b>") (str "</html>"));
    first [reflexivity | not_in_text].
Defined.

(** ** Hexadecimal numbers *)

Definition is_hex (c : Z) : Prop := 0 <= hexDigitFromChar c.

Lemma is_hex_range c : is_hex c -> 48 <= c <= 102 /\ c <> 58 /\ c <> 88.
Proof. unfold is_hex, hexDigitFromChar. zcases; cbn [andb]; intros ?; lia. Qed.

Lemma hex_value_app a b : hex_value (a ++ b) = fold_left (fun acc c => acc * 16 + hexDigitFromChar c) b (hex_value a).
Proof. apply fold_left_app. Qed.

Lemma hex_digits_value fuel n :
  (0 < fuel)%nat -> 0 <= n < 2 ^ Z.of_nat fuel ->
  hex_value (hex_digits fuel n) = n /\ Forall is_hex (hex_digits fuel n) /\ hex_digits fuel n <> [].
Proof.
  revert n. induction fuel as [|fuel IH]; intros n Hf Hn; [lia|]. cbn [hex_digits].
  assert (Hd : forall d, 0 <= d < 16 -> is_hex (hex_digit d)) by (intros d Hd; unfold is_hex; rewrite hexDigit_digit by done; lia).
  destruct (Z.ltb_spec n 16).
  - split_and!; [|by constructor; [apply Hd; lia|]|done]. unfold hex_value. cbn [fold_left]. rewrite hexDigit_digit; lia.
  - assert (Hp : 2 ^ Z.of_nat (S fuel) = 2 * 2 ^ Z.of_nat fuel) by (rewrite Nat2Z.inj_succ, Z.pow_succ_r; lia).
    assert (0 <= n mod 16 < 16) by (apply Z.mod_pos_bound; lia). pose proof (Z.div_mod n 16).
    destruct fuel as [|fuel]; [simpl in Hp; lia|]. destruct (IH (n / 16)) as (E & Hh & Hne); [lia| |].
    { split; [apply Z.div_pos; lia|]. apply Z.div_lt_upper_bound; lia. }
    split_and!; [|by apply Forall_app; split; [|constructor; [apply Hd|]]|by destruct (hex_digits _ _)].
    rewrite hex_value_app, E. cbn [fold_left]. rewrite hexDigit_digit; lia.
Qed.

Lemma strtoll16_digits ds : Forall is_hex ds -> 0 <= hex_value ds <= LONG_MAX -> strtoll16 ds = hex_value ds.
Proof.
  intros Hds Hv. assert (Hrun : hex_run ds = ds).
  { clear Hv. induction Hds as [|c ds Hc Hds IH]; [done|]. cbn [hex_run]. unfold is_hex in Hc.
    destruct (Z.ltb_spec (hexDigitFromChar c) 0); [lia|]. by rewrite IH. }
  assert (Hskip : skip_0x ds = ds).
  { destruct ds as [|z [|x [|d ds]]]; try done. cbn [skip_0x]. inversion_clear Hds as [|? ? _ Hx].
    inversion_clear Hx as [|? ? Hxx _]. apply is_hex_range in Hxx.
    assert (((x =? 120) || (x =? 88)) = false) as -> by (apply orb_false_iff; split; apply Z.eqb_neq; lia).
    by rewrite andb_false_r. }
  assert (Hstart : split_sign (drop_spaces ds) = (false, ds)).
  { destruct ds as [|c ds]; [done|]. apply Forall_cons in Hds as [Hc _]. apply is_hex_range in Hc.
    assert (isspace c = false) as Hsp by (unfold isspace; zcases; first [lia|done]).
    cbn [drop_spaces]. rewrite Hsp. unfold split_sign, chr_minus, chr_plus. zcases; first [lia|done]. }
  unfold strtoll16. rewrite Hstart, Hskip, Hrun. unfold LONG_MAX, LONG_MIN in *. lia.
Qed.

Lemma strtoll16_hex n : 0 <= n <= LONG_MAX -> strtoll16 (hex_string n) = n /\ Forall is_hex (hex_string n) /\ hex_string n <> [].
Proof.
  intros Hn. destruct (hex_digits_value (S (Z.to_nat (Z.log2 n))) n) as (E & Hh & Hne); [lia| |].
  - split; [lia|]. pose proof (Z.log2_nonneg n). rewrite Nat2Z.inj_succ, Z2Nat.id by done.
    destruct (Z.eq_dec n 0) as [->|]; [vm_compute; by split|]. apply Z.log2_spec. lia.
  - unfold hex_string. split_and!; [|done|done]. rewrite strtoll16_digits; [done|done|lia].
Qed.

(** ** Reading what was written *)

(** The document's clipboard has types of one line, and contents that fit in memory. *)
Definition entry_ok (e : bytes * bytes) : Prop :=
  e.1 <> [] /\ (chr_newline ∉ e.1) /\ Z.of_nat (length e.2) <= LONG_MAX.

Lemma getline_line l r :
  chr_newline ∉ l -> getline (ts_open (l ++ [chr_newline] ++ r)) = (l, ts_open r).
Proof.
  intros Hl. unfold getline, ts_open. cbn [ts_good ts_eof ts_fail negb andb ts_rest].
  rewrite (find_sub_app chr_newline []); [|set_solver|].
  - by rewrite take_app_length, <- drop_drop, drop_app_length.
  - apply (find_sub_absent_char _ _ chr_newline); [set_solver|done].
Qed.

Lemma ts_read_content content r :
  ts_read (Z.of_nat (length content)) (ts_open (content ++ r)) = (content, ts_open r).
Proof.
  unfold ts_read, ts_good, ts_open. cbn [ts_eof ts_fail negb andb ts_rest].
  assert ((Z.of_nat (length (content ++ r)) <? Z.of_nat (length content)) = false) as -> by (apply Z.ltb_ge; rewrite length_app; lia).
  by rewrite Nat2Z.id, take_app_length, drop_app_length.
Qed.

Lemma hex_no_newline s : Forall is_hex s -> chr_newline ∉ s.
Proof. intros H Hin. rewrite Forall_forall in H. apply H, is_hex_range in Hin. unfold chr_newline in Hin. lia. Qed.

Lemma clipboard_read_entry fuel e rest data :
  entry_ok e ->
  clipboard_read (S fuel) (ts_open (clipboard_entry e ++ rest)) data = clipboard_read fuel (ts_open rest) (data ++ [e]).
Proof.
  destruct e as [mime content]. intros (Hm & Hnl & Hlen). cbn [fst snd] in *.
  destruct (strtoll16_hex (Z.of_nat (length content))) as (Hhex & Hdig & Hne); [lia|].
  unfold clipboard_entry. cbn [fst snd]. rewrite <- !(assoc_L (++)). cbn [clipboard_read].
  change (ts_eof (ts_open ?x)) with false. cbv iota. rewrite getline_line by done.
  rewrite getline_line by by apply hex_no_newline. apply beq_neq in Hm, Hne. rewrite Hm, Hne. cbn [negb andb ts_open ts_fail].
  rewrite Hhex. assert (Hu : u64 (Z.of_nat (length content)) = Z.of_nat (length content)).
  { apply u64_id. unfold LONG_MAX in Hlen. lia. }
  rewrite Hu, ts_read_content. cbn [ts_open ts_fail].
  pose proof (getline_line [] rest ltac:(set_solver)) as E. cbn [app] in E |- *. by rewrite E.
Qed.

Lemma clipboard_read_write data acc fuel :
  Forall entry_ok data -> (length data < fuel)%nat ->
  clipboard_read fuel (ts_open (clipboard_write data)) acc = Some (Ok (acc ++ data)).
Proof.
  intros Hd. revert acc fuel. induction Hd as [|e data He Hd IH]; intros acc fuel Hf; (destruct fuel as [|fuel]; [simpl in Hf; lia|]).
  - rewrite app_nil_r. simpl. by destruct fuel.
  - unfold clipboard_write. cbn [map concat]. rewrite clipboard_read_entry by done.
    fold (clipboard_write data). rewrite IH by (simpl in Hf; lia). by rewrite <- (assoc_L (++)).
Qed.

Lemma contents_write e data fuel :
  Forall entry_ok (e :: data) -> starts_with (str "<!DOCTYPE html>") e.1 = false -> (length data + 1 < fuel)%nat ->
  clipboard_contents fuel (clipboard_write (e :: data)) = Some (Ok (e :: data)).
Proof.
  intros Hd Hh Hf. unfold clipboard_contents.
  assert (El : getline (ts_open (clipboard_write (e :: data)))
    = (e.1, ts_open (hex_string (Z.of_nat (length e.2)) ++ [chr_newline] ++ e.2 ++ [chr_newline] ++ clipboard_write data))).
  { unfold clipboard_write. cbn [map concat]. unfold clipboard_entry. rewrite <- !(assoc_L (++)). apply getline_line.
    apply Forall_cons in Hd as [(_ & Hnl & _) _]. exact Hnl. }
  rewrite El, Hh. cbn [ts_rewind ts_open ts_fail]. fold (ts_open (clipboard_write (e :: data))).
  by rewrite clipboard_read_write by (done || (simpl; lia)).
Qed.

(** Fact (roundtrip): the kit reads a clipboard as it wrote it. A file of some types and contents that
    [getClipboard] writes is taken for the same types and contents by [setClipboard], contents
    with line breaks and empty ones included. *)
Theorem clipboard_roundtrip e data fuel :
  Forall entry_ok (e :: data) -> starts_with (str "<!DOCTYPE html>") e.1 = false -> (length data + 1 < fuel)%nat ->
  clipboard_contents fuel (clipboard_write (e :: data)) = Some (Ok (e :: data)).
Proof. apply contents_write. Qed.

Lemma clipboard_roundtrip_witness :
  clipboard_contents 10 (clipboard_write [(str "text/html", str "<b>"); (str "text/plain", [10; 10])])
  = Some (Ok [(str "text/html", str "<b>"); (str "text/plain", [10; 10])]).
Proof.
  apply clipboard_roundtrip; [|reflexivity|simpl; lia].
  repeat (apply Forall_cons; split; [split_and!; [discriminate|not_in_text|vm_compute; discriminate]|]). constructor.
Defined.

(** ** Reading ends *)

(** A stream fails at its end only. *)
Definition ends_ok (s : tstream) : Prop := ts_fail s = true -> ts_eof s = true.
(** What is left to do. *)
Definition left_of (s : tstream) : nat := if ts_eof s then 0%nat else S (length (ts_rest s)).

Lemma getline_left s :
  ends_ok s -> ends_ok (getline s).2 /\ (left_of (getline s).2 <= left_of s)%nat /\
  (ts_eof s = false -> (left_of (getline s).2 < left_of s)%nat).
Proof.
  intros Hs. unfold getline, ts_good. destruct (ts_eof s) eqn:Ee; [|destruct (ts_fail s) eqn:Ef; [by rewrite Hs in Ee|]]; cbn [negb andb].
  - unfold ends_ok, left_of, ts_failed. cbn. by rewrite Ee.
  - destruct (find_sub [chr_newline] (ts_rest s)) as [n|] eqn:En; unfold ends_ok, left_of; cbn; rewrite Ee.
    + apply find_sub_some, starts_with_length in En. simpl in En. rewrite length_drop in *. split; [done|]. lia.
    + split; [done|]. lia.
Qed.

Lemma ts_read_left n s :
  ends_ok s -> ts_fail (ts_read n s).2 = false -> ends_ok (ts_read n s).2 /\ (left_of (ts_read n s).2 <= left_of s)%nat.
Proof.
  intros Hs. unfold ts_read, ts_good. destruct (ts_eof s) eqn:Ee; [done|]. destruct (ts_fail s) eqn:Ef; [done|].
  cbn [negb andb]. destruct (_ <? _); [done|]. intros _. unfold ends_ok, left_of. cbn. rewrite Ee, length_drop. split; [done|lia].
Qed.

Lemma clipboard_read_ends fuel s data : ends_ok s -> (left_of s <= fuel)%nat -> clipboard_read fuel s data <> None.
Proof.
  revert s data. induction fuel as [|fuel IH]; intros s data Hs Hf; cbn [clipboard_read].
  - unfold left_of in Hf. by destruct (ts_eof s); [|lia].
  - destruct (ts_eof s) eqn:Ee; [done|].
    destruct (getline_left s Hs) as (H1 & _ & Hlt). specialize (Hlt Ee). destruct (getline s) as [mime s1].
    destruct (getline_left s1 H1) as (H2 & Hle & _). destruct (getline s1) as [hexLen s2]. cbn [snd] in *.
    destruct (_ && _); [|apply IH; [done|lia]].
    pose proof (ts_read_left (u64 (strtoll16 hexLen)) s2 H2) as Hr. destruct (ts_read _ s2) as [content s3]. cbn [snd] in *.
    destruct (ts_fail s3); [done|]. destruct (Hr eq_refl) as [H3 Hle3].
    destruct (getline_left s3 H3) as (H4 & Hle4 & _). destruct (getline s3) as [line s4]. cbn [snd] in *. apply IH; [done|lia].
Qed.

(** Fact (termination): [setClipboard] ends for every file but the empty one. As many rounds as the file
    has bytes are enough, whatever it holds; for an empty file the failure bit of the stream
    outlives the rewinding that clears the end bit, so that the loop of [read] never ends. *)
Theorem clipboard_read_terminates content :
  (forall fuel, content <> [] /\ (length content < fuel)%nat -> clipboard_contents fuel content <> None) /\
  (forall fuel, clipboard_contents fuel [] = None).
Proof.
  split.
  - intros fuel [Hc Hf]. unfold clipboard_contents. destruct (getline (ts_open content)) as [firstLine s] eqn:Eg.
    assert (Hfail : ts_fail s = false).
    { unfold getline in Eg. cbn [ts_open ts_good ts_eof ts_fail negb andb ts_rest] in Eg.
      destruct (find_sub _ _); injection Eg as <- <-; [done|]. by destruct content. }
    unfold ts_rewind. rewrite Hfail. destruct (starts_with _ _); [done|]. apply clipboard_read_ends; [done|].
    unfold left_of. cbn. lia.
  - intros fuel. unfold clipboard_contents. cbn. induction fuel as [|fuel IH]; [done|exact IH].
Qed.

(** ** The files of the cache *)

Lemma clip_file_inj dir i j : 0 <= i -> 0 <= j -> clip_file dir i = clip_file dir j -> i = j.
Proof.
  intros Hi Hj H. unfold clip_file in H. apply app_inv_head, app_inv_head in H.
  destruct (to_string_shape i) as (di & _ & _ & Hdi & Ei & _), (to_string_shape j) as (dj & _ & _ & Hdj & Ej & _).
  destruct (Z.ltb_spec i 0), (Z.ltb_spec j 0); try lia. rewrite Ei, Ej in H. subst dj. lia.
Qed.

Lemma shared_spec o c :
  shared o c = true <-> (exists k e, cs_cache c !! k = Some e /\ en_cacheFile e = o) \/ o ∈ cs_owners c.
Proof.
  unfold shared. rewrite bool_decide_eq_true, elem_of_app, list_elem_of_fmap. split.
  - intros [([k e] & -> & Hin)|H]; [left|by right]. exists k, e. by apply elem_of_map_to_list in Hin.
  - intros [(k & e & Hk & <-)|H]; [left|by right]. exists (k, e). by rewrite elem_of_map_to_list.
Qed.

(** The references to files, with those that are about to go. *)
Definition refers (X : list OwnedFile) (c : ClipboardCache) (o : OwnedFile) : Prop := shared o c = true \/ o ∈ X.

(** The files of the cache's directory are those somebody shares, and [X]. *)
Record clips_ok (X : list OwnedFile) (c : ClipboardCache) : Prop := {
  co_id : 0 <= cs_cacheFileId c /\ 0 <= cs_objects c;
  co_objects o : shared o c = true -> 0 <= of_object o < cs_objects c;
  co_fresh i : cs_cacheFileId c <= i -> cs_files c !! clip_file (cs_cacheDir c) i = None;
  co_old o i : refers X c o -> 0 <= i -> of_file o = clip_file (cs_cacheDir c) i -> i < cs_cacheFileId c;
  co_entries k e : cs_cache c !! k = Some e -> exists i, 0 <= i /\ of_file (en_cacheFile e) = clip_file (cs_cacheDir c) i;
  co_exist o i : shared o c = true -> 0 <= i -> of_file o = clip_file (cs_cacheDir c) i -> is_Some (cs_files c !! of_file o);
  co_shared i : 0 <= i -> is_Some (cs_files c !! clip_file (cs_cacheDir c) i) ->
    exists o, refers X c o /\ of_file o = clip_file (cs_cacheDir c) i;
  co_unique o o' i : refers X c o -> refers X c o' -> 0 <= i ->
    of_file o = clip_file (cs_cacheDir c) i -> of_file o' = clip_file (cs_cacheDir c) i -> o = o' }.

Lemma release_ok X o c : clips_ok (o :: X) c -> clips_ok X (release c o).
Proof.
  intros [Hid Hob Hfr Hold Hen Hex Hsh Hun]. unfold release.
  assert (Hr : forall o', refers X c o' -> refers (o :: X) c o') by (intros o' [H|H]; [by left|right; by right]).
  destruct (shared o c) eqn:Es.
  - split; [done|done|done|intros o' i H; by apply Hold, Hr|done|done| |intros o1 o2 i H1 H2; apply Hun; by apply Hr].
    intros i Hi Hf. destruct (Hsh i Hi Hf) as (o' & [H|[Ho|H]%elem_of_cons] & E); exists o'; (split; [|done]); [by left|subst; by left|by right].
  - assert (Hsame : forall o', refers X (c <| cs_files ::= delete (of_file o) |>) o' -> refers X c o') by done.
    split; cbn.
    + done.
    + exact Hob.
    + intros i Hi. rewrite lookup_delete_None. right. by apply Hfr.
    + intros o' i H. apply Hold. by apply Hr, Hsame.
    + exact Hen.
    + intros o' i H Hi E. change (shared o' c = true) in H. rewrite lookup_delete_ne; [by eapply Hex|].
      intros Eo. assert (Eoo : o = o') by (apply (Hun o o' i); [right; left|by left|done|by rewrite Eo|done]).
      rewrite Eoo, H in Es. discriminate.
    + intros i Hi [d [Hne Hd]%lookup_delete_Some]. destruct (Hsh i Hi ltac:(by eexists)) as (o' & H & E).
      exists o'. split; [|done]. destruct H as [H|[Ho|H]%elem_of_cons]; [by left|exfalso; apply Hne; rewrite <- Ho; exact E|by right].
    + intros o1 o2 i H1 H2. apply Hun; by apply Hr, Hsame.
Qed.

Lemma release_all_ok X old c : clips_ok (old ++ X) c -> clips_ok X (fold_left release old c).
Proof. revert c. induction old as [|o old IH]; intros c H; [done|]. apply IH. by apply release_ok. Qed.

(** References go or are doubled, and nothing else changes. *)
Record forgets (Y : list OwnedFile) (c c' : ClipboardCache) : Prop := {
  fg_dir : cs_cacheDir c' = cs_cacheDir c;
  fg_id : cs_cacheFileId c' = cs_cacheFileId c;
  fg_objects : cs_objects c' = cs_objects c;
  fg_files : cs_files c' = cs_files c;
  fg_cache k e : cs_cache c' !! k = Some e -> cs_cache c !! k = Some e;
  fg_less o : shared o c' = true -> shared o c = true;
  fg_more o : shared o c = true -> refers Y c' o;
  fg_pending o : o ∈ Y -> shared o c = true }.

Lemma forgets_ok Y c c' : clips_ok [] c -> forgets Y c c' -> clips_ok Y c'.
Proof.
  intros [Hid Hob Hfr Hold Hen Hex Hsh Hun] [Ed Ei Eo Ef Hc Hl Hm Hp].
  assert (Hr : forall o, refers Y c' o -> refers [] c o) by (intros o [H|H]; left; auto).
  split; rewrite ?Ed, ?Ei, ?Eo, ?Ef; [done|auto|done| | | | |].
  - intros o i H. apply Hold. by apply Hr.
  - intros k e H. by apply (Hen k), Hc.
  - intros o i H. by apply Hex, Hl.
  - intros i Hi H. destruct (Hsh i Hi H) as (o & [Hs|Hs%elem_of_nil] & E); [|done]. exists o. split; [by apply Hm|done].
  - intros o o' i H H'. apply Hun; by apply Hr.
Qed.

Lemma cached_clipboard_ok key now c : clips_ok [] c -> clips_ok [] (cached_clipboard key now c).2.
Proof.
  intros H. unfold cached_clipboard. destruct (cs_cache c !! key) as [e|] eqn:Ek; [|done].
  destruct (hasExpired now e); [done|]. apply (forgets_ok [] c); [done|].
  assert (Hs : forall o, shared o (c <| cs_owners ::= fun l => l ++ [en_cacheFile e] |>) = true <-> shared o c = true).
  { intros o. rewrite !shared_spec. cbn. rewrite elem_of_app, list_elem_of_singleton. split; [|tauto].
    intros [H'|[H'| ->]]; [by left|by right|]. left. by exists key, e. }
  split; try done; [apply Hs|intros o Ho; left; by apply Hs|intros o Ho; by apply elem_of_nil in Ho].
Qed.

Lemma remove_first_sub o o' l : o' ∈ remove_first o l -> o' ∈ l.
Proof. induction l as [|x l IH]; simpl; [done|]. case_bool_decide; rewrite ?elem_of_cons; tauto. Qed.
Lemma remove_first_other o o' l : o' ∈ l -> o' = o \/ o' ∈ remove_first o l.
Proof.
  induction l as [|x l IH]; simpl; [by intros ?%elem_of_nil|].
  case_bool_decide; rewrite ?elem_of_cons; [intros [ -> |H1]; [by left|by right]|tauto].
Qed.

Lemma release_owner_ok o c : clips_ok [] c -> o ∈ cs_owners c -> clips_ok [] (release_owner o c).
Proof.
  intros H Ho. unfold release_owner. apply release_ok, (forgets_ok [o] c); [done|]. split; try done.
  - intros o'. rewrite !shared_spec. cbn. intros [H'|H'%remove_first_sub]; [by left|by right].
  - intros o'. unfold refers. rewrite !shared_spec. cbn. intros [H'|H']; [tauto|].
    destruct (remove_first_other o o' _ H') as [ -> |]; [right; by left|tauto].
  - intros o' ->%list_elem_of_singleton. apply shared_spec. by right.
Qed.

Lemma checkexpiry_ok lockFree now c : clips_ok [] c -> clips_ok [] (checkexpiry lockFree now c).
Proof.
  intros H. unfold checkexpiry. destruct (now <? _); [done|]. destruct (negb lockFree); [done|].
  set (old := map _ _). set (c' := c <| cs_cache ::= _ |>).
  assert (Hf : forgets old c c').
  { split; try done.
    - intros k e Hk. unfold c' in Hk. cbn in Hk. by apply map_lookup_filter_Some in Hk as [Hk _].
    - intros o. rewrite !shared_spec. intros [(k & e & Hk & E)|Ho]; [left|by right]. exists k, e. split; [|done].
      unfold c' in Hk. cbn in Hk. by apply map_lookup_filter_Some in Hk as [Hk _].
    - intros o. unfold refers. rewrite !shared_spec. intros [(k & e & Hk & <-)|Ho]; [|left; by right].
      destruct (hasExpired now e) eqn:Ee.
      + right. unfold old. apply list_elem_of_fmap. exists (k, e). split; [done|].
        by apply elem_of_map_to_list, map_lookup_filter_Some.
      + left. left. exists k, e. split; [|done]. unfold c'. cbn. by apply map_lookup_filter_Some.
    - intros o Ho. apply list_elem_of_fmap in Ho as ([k e] & -> & Hk%elem_of_map_to_list).
      apply map_lookup_filter_Some in Hk as [Hk _]. apply shared_spec. left. by exists k, e. }
  assert (Hr : clips_ok [] (fold_left release old c')).
  { apply release_all_ok. rewrite app_nil_r. by apply (forgets_ok old c). }
  by destruct Hr.
Qed.

(** A file that no reference is made for yet. *)
Definition loose (f : bytes) : OwnedFile := {| of_object := -1; of_file := f |}.
Definition outside (c : ClipboardCache) (f : bytes) : Prop := forall i, 0 <= i -> f <> clip_file (cs_cacheDir c) i.

Lemma loose_not_shared X c f o i :
  clips_ok X c -> loose f ∈ X -> shared o c = true -> 0 <= i -> f = clip_file (cs_cacheDir c) i -> of_file o <> f.
Proof.
  intros H Hf Ho Hi Hin E. pose proof (co_objects _ _ H o Ho).
  assert (o = loose f) as -> by (apply (co_unique _ _ H _ _ i); [by left|by right|done|congruence|done]). simpl in *. lia.
Qed.

Lemma outside_ok c f : clips_ok [] c -> outside c f -> clips_ok [loose f] c.
Proof.
  intros [Hid Hob Hfr Hold Hen Hex Hsh Hun] Ho.
  assert (Hr : forall o i, refers [loose f] c o -> 0 <= i -> of_file o = clip_file (cs_cacheDir c) i -> refers [] c o).
  { intros o i [H|H%list_elem_of_singleton] Hi E; [by left|]. subst o. by destruct (Ho i). }
  split; try done.
  - intros o i H Hi E. by apply (Hold o); [apply (Hr o i)|..].
  - intros i Hi H. destruct (Hsh i Hi H) as (o & [Hs|Hs%elem_of_nil] & E); [|done]. exists o. split; [by left|done].
  - intros o o' i H H' Hi E E'. apply (Hun o o' i); [by apply (Hr o i)|by apply (Hr o' i)|done..].
Qed.

Lemma next_name_ok X c : clips_ok X c -> clips_ok X (nextClipFileName c).2.
Proof.
  intros [Hid Hob Hfr Hold Hen Hex Hsh Hun]. split; cbn; try done; [lia|intros i Hi; apply Hfr; lia|].
  intros o i H Hi E. pose proof (Hold o i H Hi E). lia.
Qed.

Lemma release_all_dir old c : cs_cacheDir (fold_left release old c) = cs_cacheDir c.
Proof. revert c. induction old as [|o old IH]; intros c; simpl; [done|]. rewrite IH. unfold release. by destruct (shared o c). Qed.

(** The new entry, before the old ones are released. *)
Definition with_entry (key : bytes * bytes) (clipFile data : bytes) (now : Z) (c : ClipboardCache) : ClipboardCache :=
  let f := clip_file (cs_cacheDir c) (cs_cacheFileId c) in
  let ent := {| en_inserted := now; en_cacheFile := {| of_object := cs_objects c; of_file := f |} |} in
  c <| cs_cacheFileId ::= fun id => id + 1 |> <| cs_objects ::= fun n => n + 1 |>
    <| cs_files ::= fun fs => <[f := data]> (delete clipFile fs) |>
    <| cs_cache ::= fun m => <[key.1 := ent]> (<[key.2 := ent]> m) |>.

Lemma file_of_elem key c o : o ∈ file_of key c -> exists k e, cs_cache c !! k = Some e /\ en_cacheFile e = o.
Proof.
  unfold file_of. destruct (cs_cache c !! key) as [e|] eqn:Ek; simpl; [|by intros ?%elem_of_nil].
  intros ->%list_elem_of_singleton. by exists key, e.
Qed.

Lemma with_entry_refers key clipFile data now c o :
  let new := {| of_object := cs_objects c; of_file := clip_file (cs_cacheDir c) (cs_cacheFileId c) |} in
  let old := file_of key.2 c ++ file_of key.1 c in
  refers old (with_entry key clipFile data now c) o <-> o = new \/ shared o c = true.
Proof.
  intros new old. unfold refers. rewrite !shared_spec. unfold with_entry. cbn. split.
  - intros [[(k & e & Hk & <-)|Ho]|Ho]; [|right; by right|].
    + apply lookup_insert_Some in Hk as [[_ <-]|[_ Hk]]; [by left|]. apply lookup_insert_Some in Hk as [[_ <-]|[_ Hk]]; [by left|].
      right. left. by exists k, e.
    + right. left. apply elem_of_app in Ho. by destruct Ho as [Ho%file_of_elem|Ho%file_of_elem].
  - intros [->|[(k & e & Hk & <-)|Ho]]; [left; left| |left; by right].
    + exists key.1. eexists. by rewrite lookup_insert_eq.
    + destruct (decide (k = key.1)) as [->|H1]; [|destruct (decide (k = key.2)) as [->|H2]].
      * right. apply elem_of_app. right. unfold file_of. rewrite Hk. by left.
      * right. apply elem_of_app. left. unfold file_of. rewrite Hk. by left.
      * left. left. exists k, e. by rewrite !lookup_insert_ne by congruence.
Qed.

Lemma with_entry_ok key clipFile data now c :
  clips_ok [loose clipFile] c -> clips_ok (file_of key.2 c ++ file_of key.1 c) (with_entry key clipFile data now c).
Proof.
  intros H. pose proof H as [[Hid Hid'] Hob Hfr Hold Hen Hex Hsh Hun].
  pose proof (with_entry_refers key clipFile data now c) as Hr. cbn zeta in Hr.
  set (old := file_of key.2 c ++ file_of key.1 c) in *. set (new := {| of_object := _; of_file := _ |}) in Hr.
  assert (Hnew : forall i, 0 <= i -> of_file new = clip_file (cs_cacheDir c) i -> i = cs_cacheFileId c).
  { intros i Hi E. symmetry. apply (clip_file_inj (cs_cacheDir c)); [lia|done|exact E]. }
  assert (Hs : forall o, shared o (with_entry key clipFile data now c) = true -> o = new \/ shared o c = true)
    by (intros o Ho; apply Hr; by left).
  split; cbn -[with_entry].
  - cbn. lia.
  - intros o Ho. destruct (Hs o Ho) as [->|Ho']; cbn; [lia|]. specialize (Hob o Ho'). lia.
  - intros i Hi. cbn in *. rewrite lookup_insert_ne; [rewrite lookup_delete_None; right; apply Hfr; lia|].
    intros E. apply clip_file_inj in E; lia.
  - intros o i Ho Hi E. cbn in *. apply Hr in Ho as [->|Ho]; [rewrite (Hnew i) by done; lia|].
    specialize (Hold o i (or_introl Ho) Hi E). lia.
  - intros k e Hk. cbn in *. apply lookup_insert_Some in Hk as [[_ <-]|[_ Hk]]; [by exists (cs_cacheFileId c)|].
    apply lookup_insert_Some in Hk as [[_ <-]|[_ Hk]]; [by exists (cs_cacheFileId c)|by apply (Hen k)].
  - intros o i Ho Hi E. cbn in *. destruct (Hs o Ho) as [->|Ho']; [rewrite lookup_insert_eq; by eexists|].
    pose proof (Hold o i (or_introl Ho') Hi E). rewrite lookup_insert_ne.
    + rewrite lookup_delete_ne; [by apply (Hex o i)|]. intros Ec. symmetry in Ec. revert Ec.
      destruct (decide (clipFile = of_file o)) as [->|]; [|congruence].
      intros _. by apply (loose_not_shared [loose (of_file o)] c (of_file o) o i); [|left|..].
    + rewrite E. intros E'. apply clip_file_inj in E'; lia.
  - intros i Hi Hx. cbn in *. apply lookup_insert_is_Some in Hx as [Hx|[Hx [d [Hc Hd]%lookup_delete_Some]]].
    + exists new. split; [apply Hr; by left|exact Hx].
    + destruct (Hsh i Hi ltac:(by eexists)) as (o & [Ho|Ho%list_elem_of_singleton] & E); [|subst o; by destruct (Hc E)].
      exists o. split; [apply Hr; by right|done].
  - intros o o' i Ho Ho' Hi E E'. cbn in *. apply Hr in Ho, Ho'.
    destruct Ho as [->|Ho], Ho' as [->|Ho']; [done| | |by apply (Hun o o' i); [left|left|..]].
    + apply Hnew in E; [|done]. pose proof (Hold o' i (or_introl Ho') Hi E'). lia.
    + apply Hnew in E'; [|done]. pose proof (Hold o i (or_introl Ho) Hi E). lia.
Qed.

(** The content of [clipFile] moves into the cache. *)
Lemma insertClipboard_ok renames key clipFile now c :
  clips_ok [loose clipFile] c ->
  let '(f, c') := insertClipboard renames key clipFile now c in
  cs_cacheDir c' = cs_cacheDir c /\
  if renames && bool_decide (is_Some (cs_files c !! clipFile)) then f <> clipFile /\ clips_ok [] c'
  else f = clipFile /\ clips_ok [loose clipFile] c' /\ cs_files c' = cs_files c.
Proof.
  intros H. unfold insertClipboard. cbn [nextClipFileName]. destruct renames; cbn [andb].
  2:{ split; [done|]. split; [done|]. split; [by apply next_name_ok|done]. }
  change (cs_files (c <| cs_cacheFileId ::= _ |>)) with (cs_files c).
  destruct (cs_files c !! clipFile) as [data|] eqn:Ed; cbn [make_owned].
  - rewrite bool_decide_true by by eexists. split; [by rewrite release_all_dir|]. split.
    + intros <-. by rewrite (co_fresh _ _ H) in Ed.
    + apply release_all_ok. rewrite app_nil_r. by apply (with_entry_ok key clipFile data now c).
  - rewrite bool_decide_false by (by intros [? ?]). split; [done|]. split; [done|]. split; [by apply next_name_ok|done].
Qed.

(** The text with the origin is a loose file; the kit's own file goes. *)
Lemma post_file_ok jail data c :
  clips_ok [] c -> outside c jail ->
  let '(post, c1) := nextClipFileName c in
  clips_ok [loose post] (c1 <| cs_files ::= fun fs => delete jail (<[post := data]> fs) |>).
Proof.
  intros [[Hid Hid'] Hob Hfr Hold Hen Hex Hsh Hun] Hj. cbn [nextClipFileName].
  set (post := clip_file _ _). set (c' := _ <| cs_files ::= _ |>).
  assert (Hpost : forall i, 0 <= i -> post = clip_file (cs_cacheDir c) i -> i = cs_cacheFileId c).
  { intros i Hi E. symmetry. by apply (clip_file_inj (cs_cacheDir c)). }
  assert (Hs : forall o, refers [loose post] c' o -> o = loose post \/ refers [] c o).
  { intros o [H|H%list_elem_of_singleton]; [right; by left|by left]. }
  assert (Hlook : forall i, 0 <= i -> i <> cs_cacheFileId c ->
    cs_files c' !! clip_file (cs_cacheDir c) i = cs_files c !! clip_file (cs_cacheDir c) i).
  { intros i Hi Hne. cbn. rewrite lookup_delete_ne by (by apply Hj). rewrite lookup_insert_ne; [done|].
    intros E. apply Hne. by apply Hpost. }
  split; cbn -[c'].
  - cbn. lia.
  - exact Hob.
  - intros i Hi. cbn in Hi. rewrite Hlook by lia. apply Hfr. lia.
  - intros o i Ho Hi E. cbn. destruct (Hs o Ho) as [->|Ho']; [rewrite (Hpost i) by done; lia|].
    specialize (Hold o i Ho' Hi E). lia.
  - exact Hen.
  - intros o i Ho Hi E. change (of_file o = clip_file (cs_cacheDir c) i) in E. pose proof (Hold o i (or_introl Ho) Hi E).
    rewrite E, Hlook by lia. rewrite <- E. by apply (Hex o i).
  - intros i Hi Hx. destruct (decide (i = cs_cacheFileId c)) as [->|Hne].
    + exists (loose post). split; [right; by left|done].
    + rewrite Hlook in Hx by done. destruct (Hsh i Hi Hx) as (o & [Ho|Ho%elem_of_nil] & E); [|done]. exists o. split; [by left|done].
  - intros o o' i Ho Ho' Hi E E'. destruct (Hs o Ho) as [->|H1], (Hs o' Ho') as [->|H2]; [done| | |by apply (Hun o o' i)].
    + apply Hpost in E; [|done]. pose proof (Hold o' i H2 Hi E'). lia.
    + apply Hpost in E'; [|done]. pose proof (Hold o i H1 Hi E). lia.
Qed.

Lemma delete_next_ok c :
  clips_ok [] c -> let '(post, c1) := nextClipFileName c in clips_ok [] (c1 <| cs_files ::= delete post |>).
Proof.
  intros H. pose proof (next_name_ok _ _ H) as Hn. pose proof (co_fresh _ _ H (cs_cacheFileId c) ltac:(lia)) as Hf.
  cbn [nextClipFileName snd] in *. assert (E : delete (clip_file (cs_cacheDir c) (cs_cacheFileId c)) (cs_files c) = cs_files c)
    by (by apply delete_id).
  destruct Hn. split; cbn in *; rewrite ?E; done.
Qed.

(** A loose file gets its reference. *)
Lemma make_owned_ok f c :
  clips_ok [loose f] c -> let '(o, c') := make_owned f c in clips_ok [o] c' /\ of_file o = f /\ 0 <= of_object o < cs_objects c'.
Proof.
  intros H. pose proof H as [[Hid Hid'] Hob Hfr Hold Hen Hex Hsh Hun]. cbn [make_owned]. set (o := {| of_object := _; of_file := f |}).
  split; [|cbn; split; [done|lia]].
  assert (Hs : forall o', refers [o] (c <| cs_objects ::= fun n => n + 1 |>) o' -> o' = o \/ shared o' c = true).
  { intros o' [Ho|Ho%list_elem_of_singleton]; [by right|by left]. }
  split; cbn.
  - lia.
  - intros o' Ho. specialize (Hob o' Ho). lia.
  - exact Hfr.
  - intros o' i Ho Hi E. destruct (Hs o' Ho) as [->|Ho']; [apply (Hold (loose f) i); [right; by left|done..]|by apply (Hold o'); [left|..]].
  - exact Hen.
  - exact Hex.
  - intros i Hi Hx. destruct (Hsh i Hi Hx) as (o' & [Ho|Ho%list_elem_of_singleton] & E).
    + exists o'. split; [by left|done].
    + exists o. split; [right; by left|by subst o'].
  - intros o1 o2 i H1 H2 Hi E1 E2. destruct (Hs o1 H1) as [->|H1'], (Hs o2 H2) as [->|H2']; [done| | |by apply (Hun o1 o2 i); [left|left|..]].
    + by destruct (loose_not_shared [loose f] c f o2 i H ltac:(by left) H2' Hi E1); rewrite E2.
    + by destruct (loose_not_shared [loose f] c f o1 i H ltac:(by left) H1' Hi E2); rewrite E1.
Qed.

Lemma own_ok o n c :
  clips_ok [o] c -> 0 <= of_object o < cs_objects c ->
  (forall i, 0 <= i -> of_file o = clip_file (cs_cacheDir c) i -> is_Some (cs_files c !! of_file o)) ->
  clips_ok [] (c <| cs_owners ::= fun l => l ++ repeat o (S n) |>).
Proof.
  intros [Hid Hob Hfr Hold Hen Hex Hsh Hun] Ho He.
  assert (Hs : forall o', shared o' (c <| cs_owners ::= fun l => l ++ repeat o (S n) |>) = true <-> refers [o] c o').
  { intros o'. unfold refers. rewrite !shared_spec, list_elem_of_singleton. cbn -[repeat].
    assert (o' ∈ repeat o (S n) <-> o' = o).
    { split; [|intros ->; by left]. intros Hin. apply list_elem_of_In in Hin. by apply repeat_spec in Hin. }
    rewrite elem_of_app. tauto. }
  assert (Hr : forall o', refers [] (c <| cs_owners ::= fun l => l ++ repeat o (S n) |>) o' -> refers [o] c o').
  { intros o' [H|H%elem_of_nil]; [by apply Hs|done]. }
  split; cbn -[repeat].
  - exact Hid.
  - intros o' H. apply Hs in H as [H| ->%list_elem_of_singleton]; [by apply Hob|done].
  - exact Hfr.
  - intros o' i H. apply Hold. by apply Hr.
  - exact Hen.
  - intros o' i H Hi E. apply Hs in H as [H| ->%list_elem_of_singleton]; [by apply (Hex o' i)|by apply (He i)].
  - intros i Hi Hx. destruct (Hsh i Hi Hx) as (o' & H & E). exists o'. split; [left; by apply Hs|done].
  - intros o1 o2 i H1 H2. apply Hun; by apply Hr.
Qed.

Lemma add_origin_ok meta jail c :
  clips_ok [] c -> outside c jail ->
  let '(path, c1) := add_origin meta jail c in
  clips_ok [loose path] c1 /\ (outside c1 path \/ is_Some (cs_files c1 !! path)).
Proof.
  intros H Hj. pose proof (post_file_ok jail) as Hp. pose proof (delete_next_ok c H) as Hd. unfold add_origin. cbn [nextClipFileName] in *.
  destruct (postProcessCopyPayload _ _) as [data|].
  - split; [by apply (Hp data c)|right]. cbn -[clip_file]. rewrite lookup_delete_ne by (by apply Hj, (co_id _ _ H)).
    rewrite lookup_insert_eq. by eexists.
  - split; [by apply outside_ok|by left].
Qed.

Lemma cache_or_own_ok renames inserts key sockets now path c :
  clips_ok [loose path] c -> outside c path \/ is_Some (cs_files c !! path) ->
  clips_ok [] (cache_or_own renames inserts key sockets now path c).2.
Proof.
  intros H Hfile. unfold cache_or_own. pose proof (insertClipboard_ok renames key path now c H) as Hi.
  assert (Hins : exists f c2, (if inserts then insertClipboard renames key path now c else (path, c)) = (f, c2) /\
    (f <> path /\ clips_ok [] c2 \/ f = path /\ clips_ok [loose path] c2 /\ (outside c2 path \/ is_Some (cs_files c2 !! path)))).
  { destruct inserts; [|by exists path, c; split; [|right]].
    destruct (insertClipboard _ _ _ _ _) as [f c2]. exists f, c2. split; [done|]. destruct Hi as [Hd Hi].
    destruct (renames && _); [by left|right]. destruct Hi as (Hf & Hc & Hfs). split; [done|split; [done|]].
    destruct Hfile as [Ho|He]; [left; intros i Hpos; rewrite Hd; by apply Ho|right; by rewrite Hfs]. }
  destruct Hins as (f & c2 & -> & [[Hne Hc]|(-> & Hc & Hf2)]).
  - assert (beq f path = false) as -> by by apply beq_neq. exact Hc.
  - rewrite beq_refl. pose proof (make_owned_ok path c2 Hc) as Ho. cbn [make_owned] in *. destruct Ho as (Ho & _ & Hb).
    destruct sockets as [|n]; [by apply release_ok|]. cbn [snd]. apply own_ok; [done|done|].
    intros i Hpos E. destruct Hf2 as [Hout|Hx]; [exfalso; by apply (Hout i Hpos)|exact Hx].
Qed.

Lemma keep_clipboard_ok renames meta disableCopy key sockets now jail c :
  clips_ok [] c -> outside c jail -> clips_ok [] (keep_clipboard renames meta disableCopy key sockets now jail c).2.
Proof.
  intros H Hj. unfold keep_clipboard. pose proof (add_origin_ok meta jail c H Hj) as Ha.
  destruct (_ || _); [apply cache_or_own_ok; [by apply outside_ok|by left]|].
  destruct (add_origin meta jail c) as [path c1]. destruct Ha. by apply cache_or_own_ok.
Qed.

(** ** What happens to the cache *)

(** Clipboards of the kit arrive, clipboards are asked for and sent, and expire; other
    files come and go outside the cache's directory. *)
Inductive clip_step : ClipboardCache -> ClipboardCache -> Prop :=
| cl_keep renames meta disableCopy key sockets now jail c :
    outside c jail -> clip_step c (keep_clipboard renames meta disableCopy key sockets now jail c).2
| cl_get key now c : clip_step c (cached_clipboard key now c).2
| cl_sent o c : o ∈ cs_owners c -> clip_step c (release_owner o c)
| cl_expire lockFree now c : clip_step c (checkexpiry lockFree now c)
| cl_files fs c :
    (forall i, 0 <= i -> fs !! clip_file (cs_cacheDir c) i = cs_files c !! clip_file (cs_cacheDir c) i) ->
    clip_step c (c <| cs_files := fs |>).

Lemma clip_step_ok c c' : clip_step c c' -> clips_ok [] c -> clips_ok [] c'.
Proof.
  intros Hs H. destruct Hs as [| |o c Ho| |fs c Hfs].
  - by apply keep_clipboard_ok.
  - by apply cached_clipboard_ok.
  - by apply release_owner_ok.
  - by apply checkexpiry_ok.
  - destruct H as [Hid Hob Hfr Hold Hen Hex Hsh Hun].
    split; [exact Hid|exact Hob| |exact Hold|exact Hen| | |exact Hun]; cbn -[clip_file].
    + intros i Hi. rewrite Hfs by lia. by apply Hfr.
    + intros o i Ho Hi E. rewrite E, Hfs by done. rewrite <- E. by apply (Hex o i).
    + intros i Hi. rewrite Hfs by done. by apply Hsh.
Qed.

Lemma new_cache_ok dir now files :
  (forall i, 0 <= i -> files !! clip_file dir i = None) -> clips_ok [] (ClipboardCache_new dir now files).
Proof.
  intros Hf. assert (Hs : forall o, ~ shared o (ClipboardCache_new dir now files) = true).
  { intros o. rewrite shared_spec. cbn. intros [(k & e & Hk & _)|Ho%elem_of_nil]; [by rewrite lookup_empty in Hk|done]. }
  assert (Hr : forall o, ~ refers [] (ClipboardCache_new dir now files) o) by (intros o [H|H%elem_of_nil]; [by apply (Hs o)|done]).
  split.
  - by split.
  - intros o H. by destruct (Hs o).
  - intros i Hi. by apply Hf.
  - intros o i H. by destruct (Hr o).
  - intros k e Hk. cbn in Hk. by rewrite lookup_empty in Hk.
  - intros o i H. by destruct (Hs o).
  - intros i Hi [d Hd]. cbn -[clip_file] in Hd. by rewrite Hf in Hd.
  - intros o o' i H. by destruct (Hr o).
Qed.

(** C28 (invariant): the cache of clipboards keeps the files that are needed and no others. Whatever
    clipboards come, are asked for, are sent and expire: a file of the cache's directory is there
    exactly if an entry of the cache or somebody who sends it holds it, and every entry has its
    file. *)
Theorem clipboard_files_exact dir now files c :
  (forall i, 0 <= i -> files !! clip_file dir i = None) -> rtc clip_step (ClipboardCache_new dir now files) c ->
  (forall key e, cs_cache c !! key = Some e -> is_Some (cs_files c !! of_file (en_cacheFile e))) /\
  (forall i, 0 <= i -> is_Some (cs_files c !! clip_file (cs_cacheDir c) i) <->
     exists o, shared o c = true /\ of_file o = clip_file (cs_cacheDir c) i).
Proof.
  intros Hf Hc. assert (H : clips_ok [] c).
  { pose proof (new_cache_ok dir now files Hf) as H0. clear Hf. induction Hc as [|c1 c2 c3 H12 _ IH]; [done|].
    by apply IH, (clip_step_ok c1). }
  destruct H as [Hid Hob Hfr Hold Hen Hex Hsh Hun]. split.
  - intros key e He. destruct (Hen key e He) as (i & Hi & E). apply (Hex _ i); [|done|done]. apply shared_spec. left. by exists key, e.
  - intros i Hi. split.
    + intros Hx. destruct (Hsh i Hi Hx) as (o & [Ho|Ho%elem_of_nil] & E); [by exists o|done].
    + intros (o & Ho & E). rewrite <- E. by apply (Hex o i).
Qed.

Lemma clipboard_files_exact_witness :
  let c := (keep_clipboard true (str "http://h") false (str "k0", str "k1") 1 0 (str "/jail/clip")
              (ClipboardCache_new (str "/tmp/c") 0 {[str "/jail/clip" := str "<body>x</body>"]})).2 in
  is_Some (cs_files c !! clip_file (cs_cacheDir c) 1).
Proof.
  intros c. assert (Hj : forall i, 0 <= i -> (clip_file (str "/tmp/c") i <> str "/jail/clip")) by done.
  destruct (clipboard_files_exact (str "/tmp/c") 0 {[str "/jail/clip" := str "<body>x</body>"]} c) as [H _].
  - intros i Hi. apply lookup_singleton_None. intros E. by destruct (Hj i Hi).
  - apply rtc_once. apply cl_keep. intros i Hi E. by destruct (Hj i Hi).
  - destruct (cs_cache c !! str "k0") as [e|] eqn:E; [|vm_compute in E; discriminate].
    specialize (H (str "k0") e E). vm_compute in E. injection E as <-. exact H.
Defined.

Lemma reachable_clips_ok dir now files c :
  (forall i, 0 <= i -> files !! clip_file dir i = None) -> rtc clip_step (ClipboardCache_new dir now files) c -> clips_ok [] c.
Proof.
  intros Hf Hc. pose proof (new_cache_ok dir now files Hf) as H0. clear Hf.
  induction Hc as [|c1 c2 c3 H12 _ IH]; [done|]. by apply IH, (clip_step_ok c1).
Qed.

Lemma release_files f old c :
  cs_files (fold_left release old c) !! f = None \/ cs_files (fold_left release old c) !! f = cs_files c !! f.
Proof.
  revert c. induction old as [|o old IH]; intros c; [by right|]. cbn [fold_left]. destruct (IH (release c o)) as [H|H]; [by left|].
  rewrite H. unfold release. destruct (shared o c); [by right|]. cbn. destruct (decide (of_file o = f)) as [<-|Hne].
  - left. apply lookup_delete_eq.
  - right. by rewrite lookup_delete_ne.
Qed.
Lemma release_cache old c : cs_cache (fold_left release old c) = cs_cache c.
Proof. revert c. induction old as [|o old IH]; intros c; simpl; [done|]. rewrite IH. unfold release. by destruct (shared o c). Qed.

(** The cache has the content under both keys. *)
Definition kept_under (key : bytes * bytes) (now : Z) (f content : bytes) (c : ClipboardCache) : Prop :=
  cs_files c !! f = Some content /\
  exists o, of_file o = f /\ forall k now', k = key.1 \/ k = key.2 ->
    (cached_clipboard k now' c).1 = if clip_expiry <=? now' - now then None else Some o.

Lemma insertClipboard_keeps key path content now c :
  clips_ok [loose path] c -> cs_files c !! path = Some content ->
  let '(f, c') := insertClipboard true key path now c in kept_under key now f content c'.
Proof.
  intros H Hp. pose proof (insertClipboard_ok true key path now c H) as Hi. unfold insertClipboard in *.
  cbn [nextClipFileName] in *. change (cs_files (c <| cs_cacheFileId ::= _ |>)) with (cs_files c) in *.
  rewrite Hp in *. cbn [make_owned andb] in *. rewrite bool_decide_true in Hi by by eexists. destruct Hi as (_ & _ & Hok).
  set (c' := fold_left release _ _) in *. set (f := clip_file _ _) in *.
  set (o := {| of_object := _; of_file := f |}) in *. set (ent := {| en_inserted := now; en_cacheFile := o |}) in *.
  assert (Hk : forall k, k = key.1 \/ k = key.2 -> cs_cache c' !! k = Some ent).
  { intros k Hk. unfold c'. rewrite release_cache. cbn. destruct (decide (k = key.1)) as [->|Hne].
    - by rewrite lookup_insert_eq.
    - destruct Hk as [->| -> ]; [done|]. by rewrite lookup_insert_ne, lookup_insert_eq by congruence. }
  split.
  - destruct (co_entries _ _ Hok key.1 ent (Hk _ (or_introl eq_refl))) as (i & Hi & E).
    assert (Hx : is_Some (cs_files c' !! f)).
    { apply (co_exist _ _ Hok o i); [|done|done]. apply shared_spec. left. exists key.1, ent. split; [by apply Hk; left|done]. }
    pose proof (release_files f (file_of key.2 (c <| cs_cacheFileId ::= fun id => id + 1 |>) ++ file_of key.1 c)) as Hr.
    destruct (release_files f (file_of key.2 c ++ file_of key.1 c) (with_entry key path content now c)) as [E'|E'].
    + change (cs_files c' !! f = None) in E'. rewrite E' in Hx. by destruct Hx.
    + change (cs_files c' !! f = cs_files (with_entry key path content now c) !! f) in E'. rewrite E'. cbn. apply lookup_insert_eq.
  - exists o. split; [done|]. intros k now' Hkk. unfold cached_clipboard. rewrite (Hk k Hkk). unfold hasExpired. cbn [en_inserted ent].
    by destruct (_ <=? _).
Qed.

Lemma add_origin_content meta jail content c :
  clips_ok [] c -> outside c jail -> cs_files c !! jail = Some content ->
  let '(path, c1) := add_origin meta jail c in
  cs_files c1 !! path = Some (default content (postProcessCopyPayload meta content)).
Proof.
  intros H Hj Hc. unfold add_origin. cbn -[clip_file postProcessCopyPayload]. rewrite Hc. change (default [] (Some content)) with content.
  destruct (postProcessCopyPayload meta content) as [text|]; cbn -[clip_file].
  - rewrite lookup_delete_ne by (by apply Hj, (co_id _ _ H)). apply lookup_insert_eq.
  - rewrite lookup_delete_ne; [done|]. intros E. symmetry in E. by apply Hj in E; [|apply (co_id _ _ H)].
Qed.

Lemma keep_clipboard_keeps c meta key sockets now jail content :
  clips_ok [] c -> outside c jail -> jail <> [] -> content <> [] -> cs_files c !! jail = Some content ->
  let '(f, c') := keep_clipboard true meta false key sockets now jail c in
  kept_under key now f (default content (postProcessCopyPayload meta content)) c'.
Proof.
  intros Hok Hout Hj Hne Hcontent. unfold keep_clipboard, file_size. apply beq_neq in Hj. rewrite Hj, Hcontent. change (default [] (Some content)) with content.
  destruct (Nat.eqb_spec (length content) 0) as [E|_]; [by apply length_zero_iff_nil in E|]. cbn [orb negb andb].
  pose proof (add_origin_ok meta jail c Hok Hout) as Ha. pose proof (add_origin_content meta jail content c Hok Hout Hcontent) as Ht.
  destruct (add_origin meta jail c) as [path c1]. destruct Ha as [H1 _]. unfold cache_or_own.
  pose proof (insertClipboard_keeps key path _ now c1 H1 Ht) as Hk. pose proof (insertClipboard_ok true key path now c1 H1) as Hi.
  destruct (insertClipboard _ _ _ _ _) as [f c2]. rewrite bool_decide_true in Hi by by rewrite Ht.
  destruct Hi as (_ & Hfp & _). apply beq_neq in Hfp. cbv beta iota. rewrite Hfp. exact Hk.
Qed.

(** Fact (functional): the clipboard of the kit is kept for ten minutes. When a clipboard that is not empty
    arrives and the host lets it be copied, its text, with the origin if it has a body, is sent
    to those who wait, and is found under both keys of the session until it expires, and not
    after. *)
Theorem clipboard_kept dir start files c meta key sockets now jail content :
  (forall i, 0 <= i -> files !! clip_file dir i = None) -> rtc clip_step (ClipboardCache_new dir start files) c ->
  outside c jail -> jail <> [] -> content <> [] -> cs_files c !! jail = Some content ->
  let '(f, c') := keep_clipboard true meta false key sockets now jail c in
  kept_under key now f (default content (postProcessCopyPayload meta content)) c'.
Proof. intros Hf Hc. apply keep_clipboard_keeps. by apply (reachable_clips_ok dir start files). Qed.

Lemma clipboard_kept_witness :
  let '(f, c') := keep_clipboard true (str "http://h") false (str "k0", str "k1") 0 5 (str "/jail/clip")
              (ClipboardCache_new (str "/tmp/c") 0 {[str "/jail/clip" := str "<body>x</body>"]}) in
  kept_under (str "k0", str "k1") 5 f (default (str "<body>x</body>") (postProcessCopyPayload (str "http://h") (str "<body>x</body>"))) c'.
Proof.
  apply (clipboard_kept (str "/tmp/c") 0 {[str "/jail/clip" := str "<body>x</body>"]}); try done.
  intros i Hi. by apply lookup_singleton_None.
Defined.
