(* ===== verification/HttpRequestSpec.v ===== *)
(** * HTTP requests: written, cut by the network, and read

    A request of [Http.v] written by [writeData] in any number of calls and handed
    to [RequestParser] in any pieces is read back as it was; with the cases in
    which the parser takes more than the request, or waits for ever. *)

From S2P Require Import Prelude Util Buffer HttpHeader Http RecordSet HttpSpec.

Open Scope cool_scope.
Open Scope record_scope.

(** ** The request line *)

Definition token_ok (t : bytes) : Prop :=
  match t with [] => False | _ => Forall (fun c => negb (isWhitespace c || (c =? chr_newline)) = true) t end.

(** [HTTP/x.y] *)
Definition version_ok (v : bytes) : Prop :=
  exists a b, 0 <= a <= 9 /\ 0 <= b <= 9 /\ v = str "HTTP/" ++ [a + chr_0; 46; b + chr_0].

Lemma token_ok_app t rest : token_ok t -> exists c b, t ++ rest = c :: b /\ isWhitespace c = false.
Proof.
  destruct t as [|c t]; intros H; [done|]. apply Forall_cons in H as [H _]. exists c, (t ++ rest).
  split; [done|]. by destruct (isWhitespace c).
Qed.

Lemma version_valid_ok p off v c rest :
  version_ok v -> drop off p = v ++ c :: rest -> isWhitespace c = true -> version_valid p off = true.
Proof.
  intros (a & b & Ha & Hb & ->) Hd Hc. cbn [str map String.list_ascii_of_string app] in Hd.
  assert (Hnth : forall i, char_at p (off + i) = char_at (drop off p) i).
  { intros i. unfold char_at. by rewrite !nth_lookup, lookup_drop. }
  unfold version_valid. rewrite !Hnth, Hd. unfold char_at. cbn [nth].
  unfold VersionLen, starts_with. cbn [take length str map String.list_ascii_of_string].
  assert (E : forall x, 0 <= x <= 9 -> ((x + chr_0 - chr_0 <? 0) || (9 <? x + chr_0 - chr_0)) = false).
  { intros x Hx. unfold chr_0. zcases; [lia..|done]. }
  rewrite !E by done. by rewrite Hc.
Qed.

Lemma version_valid_take p n off :
  (off + VersionLen < n)%nat -> version_valid (take n p) off = version_valid p off.
Proof.
  unfold VersionLen. intros H. unfold version_valid. rewrite !char_at_take by lia.
  unfold VersionLen. by rewrite skipn_firstn_comm, take_take, Nat.min_l by lia.
Qed.

Section line.
Variables verb url version : bytes.
Hypothesis verb_ok : token_ok verb.
Hypothesis url_ok : token_ok url.
Hypothesis vers_ok : version_ok version.

Definition the_line : bytes := verb ++ str " " ++ url ++ str " " ++ version ++ CRLF.

Lemma version_length : length version = 8%nat.
Proof. by destruct vers_ok as (a & b & _ & _ & ->). Qed.

Lemma the_line_length : length the_line = (length verb + length url + 12)%nat.
Proof. unfold the_line. rewrite !length_app, version_length. cbn. lia. Qed.

(** Where the scanners stop on the whole line. *)
Lemma line_scans rest :
  let s := the_line ++ rest in let v := length verb in let u := length url in
  skipSpaceAndTab s 0 = 0%nat /\ findEndOfToken s 0 = v /\ skipSpaceAndTab s v = S v /\
  findEndOfToken s (S v) = (S v + u)%nat /\ skipSpaceAndTab s (S v + u) = (v + u + 2)%nat /\
  findLineBreak s (v + u + 10) = (v + u + 11)%nat /\
  drop (S v) s = url ++ str " " ++ version ++ CRLF ++ rest /\
  drop (v + u + 2) s = version ++ chr_cr :: chr_newline :: rest.
Proof.
  intros s v u.
  assert (Hs : s = verb ++ chr_space :: url ++ chr_space :: version ++ chr_cr :: chr_newline :: rest).
  { unfold s, the_line, CRLF. cbn [str map String.list_ascii_of_string]. by rewrite <- !(assoc_L (++)). }
  assert (H1 : drop v s = chr_space :: url ++ chr_space :: version ++ chr_cr :: chr_newline :: rest)
    by (rewrite Hs; apply drop_app_length).
  assert (H2 := drop_next _ _ _ _ H1). assert (H3 := drop_more _ _ _ _ H2). fold u in H3.
  assert (H4 := drop_next _ _ _ _ H3). replace (S (S v + u)) with (v + u + 2)%nat in H4 by lia.
  assert (H5 := drop_more _ _ _ _ H4). rewrite version_length in H5. replace (v + u + 2 + 8)%nat with (v + u + 10)%nat in H5 by lia.
  assert (Hver : exists c b, version ++ chr_cr :: chr_newline :: rest = c :: b /\ isWhitespace c = false).
  { destruct vers_ok as (a & b & _ & _ & ->). eexists _, _. split; [done|]. done. }
  assert (Htok : forall t, token_ok t -> Forall (fun c => negb (isWhitespace c || (c =? chr_newline)) = true) t)
    by (intros [|c t] Ht; [done|exact Ht]).
  destruct (token_ok_app verb (chr_space :: url ++ chr_space :: version ++ chr_cr :: chr_newline :: rest) verb_ok) as (c1 & b1 & E1 & W1).
  destruct (token_ok_app url (chr_space :: version ++ chr_cr :: chr_newline :: rest) url_ok) as (c2 & b2 & E2 & W2).
  destruct Hver as (c3 & b3 & E3 & W3).
  split_and!.
  - unfold skipSpaceAndTab. rewrite (scan_drop _ s 0 [] c1 b1); [done|cbn [drop app]; by rewrite Hs|done|done].
  - unfold findEndOfToken. erewrite (scan_drop _ s 0 verb chr_space); [done|cbn [drop]; exact Hs|by apply Htok|done].
  - unfold skipSpaceAndTab. rewrite (scan_drop _ s v [chr_space] c2 b2); [cbn; lia|rewrite H1, E2; done|by repeat constructor|done].
  - unfold findEndOfToken. erewrite (scan_drop _ s (S v) url chr_space); [done|exact H2|by apply Htok|done].
  - unfold skipSpaceAndTab. rewrite (scan_drop _ s (S v + u) [chr_space] c3 b3); [cbn; lia|rewrite H3, E3; done|by repeat constructor|done].
  - unfold findLineBreak. rewrite (scan_drop _ s _ [chr_cr] chr_newline rest); [cbn; lia|done|by repeat constructor|done].
  - rewrite H2. cbn [str map String.list_ascii_of_string]. unfold CRLF. done.
  - exact H4.
Qed.

Definition line_read (r : RequestParser) : RequestParser :=
  setStage StageHeader (r <| rp_common ::= fun c => c <| rc_verb := verb |> <| rc_url := url |> <| rc_version := version |> |>).

Hypothesis verb_3 : (3 <= length verb)%nat.

(** A parser that still waits for the end of the request line. *)
Definition line_pending (r : RequestParser) : Prop :=
  rc_stage (rp_common r) = RequestLine /\ rc_header (rp_common r) = Header_new /\ received (rp_sink r) = [] /\
  rp_recvBodySize r = 0.

(** The request line is read once all of it is there; before, at most the verb, the
    url and the version are set. *)
Lemma parse_request_line_prefix p q rest r :
  line_pending r -> p ++ q = the_line ++ rest ->
  if (length the_line <=? length p)%nat then
    parse_request_line p r = (Line_end (length the_line), line_read r)
  else exists r', parse_request_line p r = (Line_incomplete, r') /\ line_pending r'.
Proof.
  intros Hr E. set (n := length p). destruct (line_scans rest) as (S1 & S2 & S3 & S4 & S5 & S6 & D1 & D2).
  set (s := the_line ++ rest) in *. set (v := length verb) in *. set (u := length url) in *.
  assert (Hn : (n <= length s)%nat) by (rewrite <- E, length_app; lia).
  assert (Hp : p = take n s) by (apply (prefix_take _ q); done).
  assert (Hu : (1 <= u)%nat) by (unfold u; destruct url; [done|cbn; lia]).
  rewrite the_line_length. fold v u. unfold parse_request_line. fold n. unfold MinRequestHeaderLen.
  destruct (Nat.leb_spec (v + u + 12) n) as [Hlong|Hshort].
  - destruct (Nat.ltb_spec n 16); [unfold v in *; lia|].
    rewrite Hp. unfold skipSpaceAndTab, findEndOfToken, findLineBreak in *. rewrite !scan_take by done.
    rewrite S1, Nat.min_0_r, S2, (Nat.min_r n v) by lia. destruct (Nat.eqb_spec v n); [lia|].
    rewrite S3, (Nat.min_r n (S v)) by lia. rewrite S4, (Nat.min_r n (S v + u)) by lia.
    destruct (Nat.eqb_spec (S v + u) n); [lia|]. rewrite S5, (Nat.min_r n (v + u + 2)) by lia.
    unfold VersionLen. destruct (Nat.leb_spec n (v + u + 2 + 8)); [lia|].
    rewrite version_valid_take by (unfold VersionLen; lia). rewrite (version_valid_ok _ _ version _ _ vers_ok D2 eq_refl). cbn [negb].
    replace (v + u + 2 + 8)%nat with (v + u + 10)%nat by lia. rewrite S6, (Nat.min_r n (v + u + 11)) by lia.
    destruct (Nat.leb_spec n (v + u + 11)); [lia|].
    replace (S (v + u + 11)) with (v + u + 12)%nat by lia. f_equal. unfold line_read.
    rewrite Nat.sub_0_r, drop_0, !skipn_firstn_comm, !take_take, D1, D2, !Nat.min_l by lia.
    replace (S v + u - S v)%nat with u by lia. rewrite <- version_length.
    unfold s, the_line, v, u. rewrite <- !(assoc_L (++)), !take_app_length. by destruct r as [[] ? ?].
  - assert (Hkeep : forall f : RequestCommon -> RequestCommon,
      (forall c, rc_stage (f c) = rc_stage c /\ rc_header (f c) = rc_header c) -> line_pending (r <| rp_common ::= f |>)).
    { intros f Hf. destruct (Hf (rp_common r)) as [F1 F2]. unfold line_pending in *. cbn. by rewrite F1, F2. }
    assert (Hdone : exists r', (Line_incomplete, r) = (Line_incomplete, r') /\ line_pending r') by (by exists r).
    destruct (Nat.ltb_spec n 16); [done|].
    rewrite Hp. unfold skipSpaceAndTab, findEndOfToken, findLineBreak in *. rewrite !scan_take by done.
    rewrite S1, Nat.min_0_r, S2. destruct (Nat.eqb_spec (Nat.min n v) n); [done|].
    rewrite (Nat.min_r n v), S3, (Nat.min_r n (S v)), S4 by lia.
    destruct (Nat.eqb_spec (Nat.min n (S v + u)) n); [eexists; split; [reflexivity|]; by apply Hkeep|].
    rewrite (Nat.min_r n (S v + u)), S5 by lia. unfold VersionLen.
    assert (Hkeep2 : forall f g : RequestCommon -> RequestCommon,
      (forall c, rc_stage (f c) = rc_stage c /\ rc_header (f c) = rc_header c) ->
      (forall c, rc_stage (g c) = rc_stage c /\ rc_header (g c) = rc_header c) ->
      line_pending (r <| rp_common ::= f |> <| rp_common ::= g |>)).
    { intros f g Hf Hg. destruct (Hf (rp_common r)) as [F1 F2], (Hg (f (rp_common r))) as [G1 G2].
      unfold line_pending in *. cbn. by rewrite G1, G2, F1, F2. }
    destruct (Nat.leb_spec n (Nat.min n (v + u + 2) + 8)); [eexists; split; [reflexivity|]; by apply Hkeep2|].
    rewrite (Nat.min_r n (v + u + 2)) by lia.
    rewrite version_valid_take by (unfold VersionLen; lia). rewrite (version_valid_ok _ _ version _ _ vers_ok D2 eq_refl). cbn [negb].
    replace (v + u + 2 + 8)%nat with (v + u + 10)%nat by lia. rewrite S6, (Nat.min_l n (v + u + 11)) by lia.
    rewrite Nat.leb_refl. eexists; split; [reflexivity|]. destruct r as [[] ? ?]. exact Hr.
Qed.
End line.

(** ** A request on the wire *)

(** The body of a request: none, one of a given length, or in chunks. *)
Inductive body_kind := NoBody | PlainBody (b : bytes) | ChunkedBody (ds : list bytes).

Definition body_wire (k : body_kind) : bytes :=
  match k with NoBody => [] | PlainBody b => b | ChunkedBody ds => encode_chunks ds ++ last_chunk end.

Definition body_payload (k : body_kind) : bytes :=
  match k with NoBody => [] | PlainBody b => b | ChunkedBody ds => concat ds end.

(** The verb and the header announce the body. *)
Definition body_ok (verb : bytes) (h : Header) (k : body_kind) : Prop :=
  match k with
  | NoBody => verb = VERB_GET
  | PlainBody b => verb = VERB_POST /\ b <> [] /\ getChunkedTransferEncoding h = false /\
                   hasContentLength h = true /\ getContentLength h = Z.of_nat (length b)
  | ChunkedBody ds => verb = VERB_POST /\ getChunkedTransferEncoding h = true /\ Forall chunk_ok ds
  end.

Lemma body_kind_cases k : k = NoBody \/ (exists b, k = PlainBody b) \/ exists ds, k = ChunkedBody ds.
Proof. destruct k; eauto. Qed.

Section request.
Variable io_write : list bytes -> bytes -> Z.
Variable poco_read : bytes -> poco_result.
Hypothesis io_writes_all : forall sent d, io_write sent d = Z.of_nat (length d).
Hypothesis poco_ok : poco_law poco_read.
Variables verb url version : bytes.
Variable fields : Container.
Variable kind : body_kind.
Hypothesis verb_ok : token_ok verb.
Hypothesis url_ok : token_ok url.
Hypothesis vers_ok : version_ok version.
Hypothesis some_field : fields <> [].
Hypothesis all_fields_ok : fields_ok fields.
Hypothesis kind_ok : body_ok verb (header_of fields) kind.

Definition block : bytes := header_lines fields ++ CRLF.
Definition request_wire : bytes := the_line verb url version ++ block ++ body_wire kind.

Definition line_known (r : RequestParser) : Prop :=
  rc_verb (rp_common r) = verb /\ rc_url (rp_common r) = url /\ rc_version (rp_common r) = version.

(** The request as the server gets it. *)
Definition request_read (r : RequestParser) : Prop :=
  rc_stage (rp_common r) = Finished /\ line_known r /\ rc_header (rp_common r) = header_of fields /\
  received (rp_sink r) = body_payload kind.

(** What a parser still expects to be given, in each of its stages. *)
Inductive expects (r : RequestParser) : bytes -> Prop :=
| expects_line : line_pending r -> expects r request_wire
| expects_header : rc_stage (rp_common r) = StageHeader -> rc_header (rp_common r) = Header_new -> line_known r ->
    received (rp_sink r) = [] -> rp_recvBodySize r = 0 -> expects r (block ++ body_wire kind)
| expects_body w : rc_stage (rp_common r) = StageBody -> rc_header (rp_common r) = header_of fields -> line_known r ->
    match kind with
    | NoBody => False
    | PlainBody b => w <> [] /\ received (rp_sink r) ++ w = b /\ rp_recvBodySize r = Z.of_nat (length (received (rp_sink r)))
    | ChunkedBody ds => exists ds1 ds2, ds = ds1 ++ ds2 /\ w = encode_chunks ds2 ++ last_chunk /\
        received (rp_sink r) = concat ds1
    end -> expects r w
| expects_nothing w : request_read r -> expects r w.

(** The parser at the start of the body, or inside it, with [p] at hand and [q] to come. *)
Definition body_pending (r : RequestParser) (p q : bytes) : Prop :=
  match kind with
  | NoBody => received (rp_sink r) = []
  | PlainBody b => p ++ q <> [] /\ received (rp_sink r) ++ p ++ q = b /\
                   rp_recvBodySize r = Z.of_nat (length (received (rp_sink r)))
  | ChunkedBody ds => exists ds1 ds2, ds = ds1 ++ ds2 /\ p ++ q = encode_chunks ds2 ++ last_chunk /\
      received (rp_sink r) = concat ds1
  end.

Definition body_result (p q : bytes) (res : RequestParser * (Z + nat)) : Prop :=
  match res with
  | (r, inr available) => (available <= length p)%nat /\ expects r (drop (length p - available) p ++ q) /\
                          (q = [] -> request_read r)
  | (_, inl _) => False
  end.

Lemma finished_result r p q available :
  (available <= length p)%nat -> request_read r -> body_result p q (r, inr available).
Proof. intros Ha Hr. split; [done|]. split; [by apply expects_nothing|done]. Qed.

Lemma plain_advances r p q b :
  kind = PlainBody b -> rc_stage (rp_common r) = StageBody -> rc_header (rp_common r) = header_of fields ->
  line_known r -> body_pending r p q -> body_result p q (parse_request_body io_write p r).
Proof.
  intros Ek Hst Hh Hl Hk. unfold body_pending in Hk. unfold body_ok in kind_ok. rewrite Ek in Hk, kind_ok.
  destruct kind_ok as (Hpost & Hb & Hc & Hcl & Hlb), Hk as (Hne & Hrec & Hsz).
  unfold parse_request_body. rewrite Hh. assert (Hl' := Hl). destruct Hl' as (Hv & _). rewrite Hv, Hpost, Hc, Hcl.
  replace (beq VERB_POST VERB_GET) with false by done. rewrite beq_refl. cbn [negb andb].
  destruct (on_body_write_all io_write io_writes_all p (rp_sink r)) as (s' & -> & Hs').
  destruct (Z.ltb_spec (Z.of_nat (length p)) 0); [lia|].
  destruct (Z.ltb_spec 0 (Z.of_nat (length p))) as [Hp|Hp].
  - rewrite Hlb, Nat2Z.id, Nat.sub_diag. cbn [rset rp_common rp_sink rp_recvBodySize].
    assert (Hlen := f_equal length Hrec). rewrite !length_app in Hlen.
    destruct (Z.leb_spec (Z.of_nat (length b)) (rp_recvBodySize r + Z.of_nat (length p))) as [Hfull|Hpart].
    + assert (q = []) as -> by (destruct q; [done|cbn in Hlen; lia]). rewrite app_nil_r in Hrec.
      apply finished_result; [lia|]. split; [done|]. split; [exact Hl|]. split; [exact Hh|].
      cbn. by rewrite Hs', Ek, Hrec.
    + assert (q <> []) by (intros ->; cbn in Hlen; lia).
      split; [lia|]. rewrite Nat.sub_0_r, drop_ge by lia. split; [|done].
      apply expects_body; [exact Hst|exact Hh|exact Hl|]. rewrite Ek. cbn. rewrite Hs', length_app, <- (assoc_L (++)).
      split_and!; [done|done|lia].
  - assert (p = []) as -> by (destruct p; [done|cbn in Hp; lia]). rewrite app_nil_r in Hs'.
    cbn [app] in *. split; [lia|]. split; [|done].
    apply expects_body; [exact Hst|exact Hh|exact Hl|]. rewrite Ek. cbn. rewrite Hs'. done.
Qed.

Lemma chunked_advances r p q ds :
  kind = ChunkedBody ds -> rc_stage (rp_common r) = StageBody -> rc_header (rp_common r) = header_of fields ->
  line_known r -> body_pending r p q -> body_result p q (parse_request_body io_write p r).
Proof.
  intros Ek Hst Hh Hl Hk. unfold body_pending in Hk. unfold body_ok in kind_ok. rewrite Ek in Hk, kind_ok.
  destruct kind_ok as (Hpost & Hc & Hds), Hk as (ds1 & ds2 & -> & Hpq & Hrec).
  unfold parse_request_body. rewrite Hh. assert (Hl' := Hl). destruct Hl' as (Hv & _). rewrite Hv, Hpost, Hc.
  replace (beq VERB_POST VERB_GET) with false by done. rewrite beq_refl, andb_false_r.
  apply Forall_app in Hds as [_ Hds2].
  assert (H := read_chunks_stream io_write io_writes_all ds2 Hds2 (S (length p)) (rp_sink r) (rp_recvBodySize r) p q ltac:(lia) Hpq).
  destruct (read_chunks _ _ _ _ _) as [[[s' recv'] rest] e].
  destruct H as [(-> & -> & Hr)|(-> & Hq & Hle & da & db & -> & Erest & Hr)].
  - apply finished_result; [cbn; lia|]. split; [done|]. split; [exact Hl|]. split; [exact Hh|].
    cbn. by rewrite Hr, Hrec, Ek, <- concat_app.
  - split; [done|]. split; [|done].
    assert (Hp : p = encode_chunks da ++ rest).
    { apply (app_inv_tail q). rewrite Hpq. unfold encode_chunks in *. rewrite map_app, concat_app.
      by rewrite <- !(assoc_L (++)), Erest. }
    replace (drop (length p - length rest) p) with rest.
    2: { rewrite Hp at 2. rewrite drop_app_length'; [done|]. rewrite Hp, length_app. lia. }
    apply expects_body; [exact Hst|exact Hh|exact Hl|]. rewrite Ek. exists (ds1 ++ da), db. cbn.
    split_and!; [by rewrite <- (assoc_L (++))|done|]. by rewrite Hr, Hrec, concat_app.
Qed.

Lemma body_advances r p q :
  rc_stage (rp_common r) = StageBody -> rc_header (rp_common r) = header_of fields ->
  line_known r -> body_pending r p q -> body_result p q (parse_request_body io_write p r).
Proof.
  intros Hst Hh Hl Hk.
  destruct (body_kind_cases kind) as [Ek|[[b Ek]|[ds Ek]]]; [|by apply (plain_advances r p q b)|by apply (chunked_advances r p q ds)].
  unfold body_pending in Hk. unfold body_ok in kind_ok. rewrite Ek in Hk, kind_ok.
  unfold parse_request_body. assert (Hl' := Hl). destruct Hl' as (-> & _). rewrite kind_ok, beq_refl.
  apply finished_result; [done|]. split; [done|]. split; [exact Hl|]. split; [exact Hh|]. cbn. by rewrite Ek.
Qed.

(** The result of one call on [len] bytes of which [p] are left after the request
    line: the bytes not consumed are still expected. *)
Definition advances (len : nat) (p q : bytes) (res : RequestParser * Z) : Prop :=
  let '(r, n) := res in
  exists k, n = Z.of_nat len - Z.of_nat (length p) + Z.of_nat k /\ (k <= length p)%nat /\
  expects r (drop k p ++ q) /\ (q = [] -> request_read r).

Lemma block_nonempty : (0 < length block)%nat.
Proof. unfold block. rewrite length_app. unfold CRLF. cbn [length]. lia. Qed.

Lemma body_stage_advances len r p q :
  rc_stage (rp_common r) = StageBody -> body_result p q (parse_request_body io_write p r) ->
  advances len p q (match parse_request_body io_write p r with
                    | (r, inl e) => (r, e)
                    | (r, inr available) => (r, Z.of_nat len - Z.of_nat available)
                    end).
Proof.
  intros Hst H. destruct (parse_request_body io_write p r) as [r' [e|available]]; [done|].
  destruct H as (Ha & He & Hq). exists (length p - available)%nat. split_and!; [lia|lia|done|done].
Qed.

Lemma body_starts r p q :
  received (rp_sink r) = [] -> rp_recvBodySize r = 0 -> p ++ q = body_wire kind -> body_pending r p q.
Proof.
  intros Hr Hz E. unfold body_pending. assert (Hok := kind_ok). unfold body_ok in Hok.
  destruct (body_kind_cases kind) as [Ek|[[b Ek]|[ds Ek]]]; rewrite Ek in E, Hok |- *.
  - exact Hr.
  - destruct Hok as (_ & Hb & _). cbn in E. rewrite E, Hr, Hz. done.
  - exists [], ds. rewrite Hr. done.
Qed.

Lemma header_advances len r p q :
  rc_stage (rp_common r) = StageHeader -> rc_header (rp_common r) = Header_new -> line_known r ->
  received (rp_sink r) = [] -> rp_recvBodySize r = 0 -> p ++ q = block ++ body_wire kind ->
  advances len p q (parse_header_body io_write poco_read len p r).
Proof.
  intros Hst Hh Hl Hs Hz E. unfold parse_header_body. rewrite Hst, Hh.
  rewrite bool_decide_eq_true_2 by done.
  assert (HB := header_parse_block poco_read poco_ok None fields p q (body_wire kind)).
  cbn [first_lines crlf_lines map concat app] in HB. fold block in HB.
  rewrite HB; [|by constructor|done|by destruct fields|done].
  destruct (Nat.leb_spec (length block) (length p)) as [Hle|Hlt].
  - pose proof block_nonempty. destruct (Z.ltb_spec 0 (Z.of_nat (length block))); [|lia].
    destruct (Z.ltb_spec (Z.of_nat (length block)) 0); [lia|].
    destruct (prefix_split p q _ _ E Hle) as (p' & -> & E'). rewrite Nat2Z.id, drop_app_length.
    set (r' := setStage StageBody _). assert (Hst' : rc_stage (rp_common r') = StageBody) by done.
    rewrite bool_decide_eq_true_2 by done.
    assert (Hadv : advances len p' q (match parse_request_body io_write p' r' with
      | (r, inl e) => (r, e) | (r, inr available) => (r, Z.of_nat len - Z.of_nat available) end)).
    { apply body_stage_advances, body_advances; [done|done|done|exact Hl|]. apply body_starts; [exact Hs|exact Hz|done]. }
    destruct (parse_request_body io_write p' r') as [r2 [e|available]].
    all: destruct Hadv as (k & Hk & Hkp & Hex & Hq); exists (length block + k)%nat.
    all: rewrite length_app, <- drop_drop, drop_app_length; split_and!; [lia|lia|done|done].
  - cbn [Z.ltb Z.compare]. rec_simpl. cbn [rp_common rc_stage]. rewrite Hst.
    rewrite bool_decide_eq_false_2 by done. exists 0%nat. split_and!; [lia|lia| |].
    + rewrite drop_0, E. apply expects_header; [done|done|exact Hl|exact Hs|exact Hz].
    + intros ->. rewrite app_nil_r in E. rewrite E, length_app in Hlt. lia.
Qed.

Lemma verb_length : (3 <= length verb)%nat.
Proof.
  assert (Hok := kind_ok). unfold body_ok in Hok.
  destruct (body_kind_cases kind) as [Ek|[[b Ek]|[ds Ek]]]; rewrite Ek in Hok; [|destruct Hok as [Hok _]..]; rewrite Hok; cbn; lia.
Qed.

(** One call of [readData]. *)
Lemma readData_advances r p q :
  expects r (p ++ q) -> advances (length p) p q (parser_readData io_write poco_read p r).
Proof.
  intros He. inversion He as [Hp Ew|Hst Hh Hl Hs Hz Ew|w Hst Hh Hl Hk Ew|w Hr Ew]; unfold parser_readData.
  - assert (Hp' := Hp). destruct Hp' as (Hst & Hh & Hs & Hz). rewrite Hst, bool_decide_eq_true_2 by done.
    assert (H := parse_request_line_prefix verb url version verb_ok url_ok vers_ok verb_length p q
      (block ++ body_wire kind) r Hp (eq_sym Ew)).
    destruct (Nat.leb_spec (length (the_line verb url version)) (length p)) as [Hle|Hlt].
    + rewrite H. destruct (prefix_split p q _ _ (eq_sym Ew) Hle) as (p' & -> & E'). rewrite drop_app_length.
      assert (Hadv := header_advances (length (the_line verb url version ++ p')) (line_read verb url version r) p' q
        eq_refl Hh ltac:(done) Hs Hz E').
      destruct (parse_header_body _ _ _ _ _) as [r2 n]. destruct Hadv as (k & Hk & Hkp & Hex & Hq).
      exists (length (the_line verb url version) + k)%nat. rewrite length_app in *.
      rewrite <- drop_drop, drop_app_length. split_and!; [lia|lia|done|done].
    + destruct H as (r' & -> & Hp'). exists 0%nat. split_and!; [lia|lia| |].
      * rewrite drop_0, <- Ew. by apply expects_line.
      * intros ->. rewrite app_nil_r in Ew. rewrite <- Ew in Hlt. unfold request_wire in Hlt. rewrite length_app in Hlt. lia.
  - rewrite Hst, bool_decide_eq_false_2 by done. by apply header_advances.
  - rewrite Hst, bool_decide_eq_false_2 by done. unfold parse_header_body.
    rewrite Hst. rewrite bool_decide_eq_false_2 by done. cbn [Z.ltb Z.compare].
    rewrite bool_decide_eq_true_2 by done. apply body_stage_advances, body_advances; try done.
    unfold body_pending. destruct (body_kind_cases kind) as [Ek|[[b Ek]|[ds Ek]]]; rewrite Ek in Hk |- *; [done| |].
    + exact Hk.
    + exact Hk.
  - assert (Hst := proj1 Hr). rewrite Hst, bool_decide_eq_false_2 by done. unfold parse_header_body.
    rewrite Hst. rewrite bool_decide_eq_false_2 by done. cbn [Z.ltb Z.compare]. rewrite Hst, bool_decide_eq_false_2 by done. exists 0%nat.
    split_and!; [lia|lia| |]; [by apply expects_nothing|done].
Qed.

(** The server's side: each piece of the network is appended to the buffered bytes,
    [readData] is called, and what it consumed is erased. *)
Fixpoint feed_request (pieces : list bytes) (buf : bytes) (r : RequestParser) : option (bytes * RequestParser) :=
  match pieces with
  | [] => Some (buf, r)
  | p :: pieces =>
      let '(r, n) := parser_readData io_write poco_read (buf ++ p) r in
      if n <? 0 then None else feed_request pieces (drop (Z.to_nat n) (buf ++ p)) r
  end.

Lemma feed_request_reads pieces buf r :
  pieces <> [] -> expects r (buf ++ concat pieces) ->
  exists buf' r', feed_request pieces buf r = Some (buf', r') /\ request_read r'.
Proof.
  revert buf r. induction pieces as [|p pieces IH]; intros buf r Hne He; [done|]. cbn [feed_request concat] in *.
  rewrite (assoc_L (++)) in He. assert (H := readData_advances _ _ _ He).
  destruct (parser_readData io_write poco_read (buf ++ p) r) as [r' n]. destruct H as (k & -> & Hk & Hex & Hq).
  replace (Z.of_nat (length (buf ++ p)) - Z.of_nat (length (buf ++ p)) + Z.of_nat k) with (Z.of_nat k) by lia.
  destruct (Z.ltb_spec (Z.of_nat k) 0); [lia|]. rewrite Nat2Z.id.
  destruct pieces as [|p' pieces].
  - cbn [feed_request]. eexists _, _. split; [done|]. by apply Hq.
  - by apply IH.
Qed.

End request.

(** ** Writing *)

(** The data a body reader gives, call by call, until it reports the end. *)
Inductive reads : BodyReader -> list bytes -> Prop :=
| reads_end reader d reader' : read_body body_buffer_size reader = (0, d, reader') -> reads reader []
| reads_more reader d reader' ds : read_body body_buffer_size reader = (Z.of_nat (length d), d, reader') ->
    d <> [] -> reads reader' ds -> reads reader (d :: ds).

Lemma reads_size reader ds : reads reader ds -> (length ds <= reader_size reader)%nat.
Proof.
  intros H. induction H as [|reader d reader' ds Hr Hd _ IH]; cbn [length]; [lia|].
  assert (Hd' : (0 < length d)%nat) by (destruct d; [done|cbn; lia]).
  destruct reader as [rest|[|[a|] l]]; cbn [read_body] in Hr; simplify_eq; cbn [reader_size] in *.
  - rewrite length_drop in IH. rewrite length_take in Hd'. lia.
  - cbn [length]. lia.
Qed.

Lemma body_buffer_pos : (0 < body_buffer_size)%nat.
Proof. by apply Nat.ltb_lt. Qed.

Lemma stream_reads body : exists ds, reads (StreamBody body) ds /\ concat ds = body.
Proof.
  remember (length body) as n eqn:Hn. revert body Hn. induction n as [n IH] using lt_wf_ind. intros body ->.
  destruct body as [|c body]; [exists []; split; [by eapply (reads_end _ _ _)|done]|].
  destruct (IH (length (drop body_buffer_size (c :: body)))) with (body := drop body_buffer_size (c :: body)) as (ds & Hr & Hc).
  - rewrite length_drop. pose proof body_buffer_pos. cbn [length]. lia.
  - done.
  - exists (take body_buffer_size (c :: body) :: ds). split.
    + eapply reads_more; [done| |exact Hr]. pose proof body_buffer_pos. by destruct body_buffer_size; [lia|].
    + cbn [concat]. by rewrite Hc, take_drop.
Qed.

(** What the pieces of a body look like on the wire. *)
Definition stream (chunked : bool) (ds : list bytes) : bytes := if chunked then encode_chunks ds else concat ds.
Definition stream_end (chunked : bool) : bytes := if chunked then last_chunk else [].

Lemma stream_app c a b : stream c (a ++ b) = stream c a ++ stream c b.
Proof. unfold stream, encode_chunks. destruct c; [by rewrite map_app, concat_app|apply concat_app]. Qed.

(** After a call of [writeData] the body is finished, or some of it is written. *)
Definition written (chunked : bool) (r : Request) (ds : list bytes) (out : bytes) (res : Request * bytes * bool) : Prop :=
  let '(r', out', ok) := res in
  ok = true /\ rq_common r' = rq_common r <| rc_stage := rc_stage (rq_common r') |> /\
  ((rc_stage (rq_common r') = Finished /\ out' = out ++ stream chunked ds ++ stream_end chunked) \/
   (rc_stage (rq_common r') = rc_stage (rq_common r) /\
    exists da db, ds = da ++ db /\ da <> [] /\ out' = out ++ stream chunked da /\ reads (rq_bodyReader r') db)).

Lemma write_body_written chunked cap ds : forall fuel wrote r out,
  (length ds < fuel)%nat -> reads (rq_bodyReader r) ds ->
  written chunked r ds out (write_body fuel chunked cap wrote r out).
Proof.
  induction ds as [|d ds IH]; intros [|fuel] wrote r out Hf Hr; try (cbn in Hf; lia); cbn [write_body].
  - inversion Hr as [? d reader' E|]; subst. rewrite E. cbn [Z.ltb Z.eqb Z.compare]. split; [done|].
    split; [by destruct r as [[] ?]|]. left. split; [done|]. unfold stream, stream_end. destruct chunked; [done|].
    by rewrite !app_nil_r.
  - inversion Hr as [|? ? reader' ? E Hd Hr']; subst. rewrite E.
    assert (Hd' : (0 < length d)%nat) by (destruct d; [done|cbn; lia]).
    destruct (Z.ltb_spec (Z.of_nat (length d)) 0); [lia|]. destruct (Z.eqb_spec (Z.of_nat (length d)) 0); [lia|].
    assert (Hone : stream chunked [d] = if chunked then chunk_bytes d else d).
    { unfold stream, encode_chunks. destruct chunked; cbn [map concat]; by rewrite app_nil_r. }
    destruct (Nat.ltb_spec (wrote + length (if chunked then chunk_bytes d else d)) cap) as [Hc|Hc].
    + specialize (IH fuel (wrote + length (if chunked then chunk_bytes d else d))%nat (r <| rq_bodyReader := reader' |>)
        (out ++ (if chunked then chunk_bytes d else d)) ltac:(cbn in Hf; lia) Hr').
      destruct (write_body _ _ _ _ _ _) as [[r' out'] ok]. destruct IH as (-> & Hc' & IH).
      split; [done|]. split; [exact Hc'|].
      change (d :: ds) with ([d] ++ ds). rewrite stream_app, Hone.
      destruct IH as [[Hs ->]|(Hs & da & db & -> & Hda & -> & Hdb)].
      * left. split; [done|]. by rewrite <- !(assoc_L (++)).
      * right. split; [exact Hs|]. exists (d :: da), db. split_and!; [done|done| |done].
        change (d :: da) with ([d] ++ da). by rewrite stream_app, Hone, <- (assoc_L (++)).
    + split; [done|]. split; [by destruct r as [[] ?]|]. right. split; [done|]. exists [d], ds.
      split_and!; [done|done|by rewrite Hone|exact Hr'].
Qed.

(** The client's side: [writeData] is called with the room left in the socket's
    buffer until the request is finished. *)
Fixpoint write_request (caps : list nat) (r : Request) (out : bytes) : Request * bytes * bool :=
  match caps with
  | [] => (r, out, true)
  | c :: caps =>
      let '(r, out, ok) := request_writeData c r out in
      if ok then write_request caps r out else (r, out, false)
  end.

Lemma write_request_body caps ds : forall r out,
  rc_stage (rq_common r) = StageBody -> reads (rq_bodyReader r) ds -> (length ds < length caps)%nat ->
  exists r', write_request caps r out =
    (r', out ++ stream (chunked_body (rq_common r)) ds ++ stream_end (chunked_body (rq_common r)), true) /\
  rc_stage (rq_common r') = Finished.
Proof.
  revert ds. induction caps as [|c caps IH]; intros ds r out Hst Hr Hl; [cbn in Hl; lia|].
  cbn [write_request]. unfold request_writeData. rewrite Hst.
  rewrite bool_decide_eq_false_2 by done. rewrite Hst, bool_decide_eq_true_2 by done.
  assert (Hw := write_body_written (chunked_body (rq_common r)) c ds _ 0 r out
    (proj2 (Nat.lt_succ_r _ _) (reads_size _ _ Hr)) Hr).
  destruct (write_body _ _ _ _ _ _) as [[r' out'] ok]. destruct Hw as (-> & Hc & [[Hs ->]|(Hs & da & db & -> & Hda & -> & Hdb)]).
  - exists r'. split; [|done]. clear IH Hl. induction caps as [|c' caps IH]; [done|]. cbn [write_request].
    unfold request_writeData. rewrite Hs, !bool_decide_eq_false_2; [done|by rewrite Hs|done].
  - rewrite Hst in Hs. rewrite length_app in Hl. assert ((0 < length da)%nat) by (destruct da; [done|cbn; lia]).
    destruct (IH db r' (out ++ stream (chunked_body (rq_common r)) da) Hs Hdb ltac:(cbn in Hl; lia)) as (r2 & E & Hf).
    assert (Hch : chunked_body (rq_common r') = chunked_body (rq_common r)) by (by rewrite Hc).
    exists r2. rewrite E, Hch, stream_app, <- !(assoc_L (++)). done.
Qed.

Lemma write_request_all r caps ds :
  rc_stage (rq_common r) = RequestLine -> reads (rq_bodyReader r) ds -> (length ds < length caps)%nat ->
  exists r', write_request caps r [] =
    (r', request_line (rq_common r) ++ header_lines (hd_headers (rc_header (rq_common r))) ++ CRLF ++
         stream (chunked_body (rq_common r)) ds ++ stream_end (chunked_body (rq_common r)), true) /\
  rc_stage (rq_common r') = Finished.
Proof.
  intros Hst Hr Hl. set (r1 := r <| rq_common ::= fun c => c <| rc_stage := StageBody |> |>).
  set (out1 := header_writeData (rc_header (rq_common r)) ([] ++ request_line (rq_common r)) ++ CRLF).
  assert (E : write_request caps r [] = write_request caps r1 out1).
  { destruct caps as [|c caps]; [cbn in Hl; lia|]. cbn [write_request]. unfold request_writeData at 1. rewrite Hst.
    rewrite bool_decide_eq_true_2 by done. reflexivity. }
  destruct (write_request_body caps ds r1 out1 eq_refl Hr Hl) as (r' & E' & Hf). exists r'. split; [|done].
  rewrite E, E'. unfold out1, header_writeData. cbn [app]. rewrite <- !(assoc_L (++)). done.
Qed.

(** ** Round trip *)

Lemma version_1_1_ok : version_ok VERS_1_1.
Proof. exists 1, 1. by split_and!. Qed.

(** How the body of a request and the kind of body its header announces agree. *)
Definition body_agrees (k : body_kind) (chunked : bool) (ds : list bytes) : Prop :=
  match k with
  | NoBody => chunked = false /\ ds = []
  | PlainBody b => chunked = false /\ b = concat ds
  | ChunkedBody ds' => chunked = true /\ ds' = ds
  end.

Lemma body_agrees_wire k chunked ds :
  body_agrees k chunked ds -> stream chunked ds ++ stream_end chunked = body_wire k.
Proof. destruct k; intros [-> ->]; unfold stream, stream_end, body_wire; [done|by rewrite app_nil_r|done]. Qed.

(** C39 (roundtrip): a request is read as it was written, if it is one of those the
    parser knows: a [GET] without a body, or a [POST] with a non-empty body of the
    announced length or with a chunked body; with at least one header field, and
    fields of different names and of printable characters, such as one line can hold.
    Whatever room the socket's buffer has at each call of [writeData], enough calls
    write the whole request; and however the network cuts these bytes, the server's
    parser ends in [Finished] with the verb, the url, the version, the header fields
    and the body. Other verbs are refused, and so is a [POST] that announces no body,
    while one that announces an empty body is never finished
    ([unsupported_requests]). *)
Theorem request_roundtrip io_write poco_read (r : Request) kind ds caps pieces :
  (forall sent d, io_write sent d = Z.of_nat (length d)) -> poco_law poco_read ->
  let c := rq_common r in let fields := hd_headers (rc_header c) in
  rc_stage c = RequestLine -> token_ok (rc_verb c) -> token_ok (rc_url c) -> version_ok (rc_version c) ->
  fields <> [] -> fields_ok fields -> body_ok (rc_verb c) (header_of fields) kind ->
  body_agrees kind (chunked_body c) ds -> reads (rq_bodyReader r) ds -> (length ds < length caps)%nat ->
  exists r' out, write_request caps r [] = (r', out, true) /\ rc_stage (rq_common r') = Finished /\
  (concat pieces = out -> exists buf p,
     feed_request io_write poco_read pieces [] RequestParser_new = Some (buf, p) /\
     request_read (rc_verb c) (rc_url c) (rc_version c) fields kind p).
Proof.
  intros Hio Hpoco c fields Hst Hverb Hurl Hvers Hne Hf Hk Hag Hr Hl.
  destruct (write_request_all r caps ds Hst Hr Hl) as (r' & E & Hfin). fold c fields in E.
  rewrite (body_agrees_wire kind) in E by done. eexists r', _. split; [exact E|]. split; [done|]. intros Hp.
  assert (Hw : concat pieces = request_wire (rc_verb c) (rc_url c) (rc_version c) fields kind).
  { rewrite Hp. unfold request_wire, request_line, the_line, block. by rewrite <- !(assoc_L (++)). }
  apply feed_request_reads; try done.
  - intros ->. apply (f_equal length) in Hw. unfold request_wire in Hw. rewrite length_app, the_line_length in Hw by done. cbn in Hw. lia.
  - cbn [app]. rewrite Hw. apply expects_line. by split_and!.
Qed.

(** Fact (error): what the server's parser does not read. Once the header of a request is
    complete, a verb other than [GET] and [POST] is an error, and so is a [POST] with
    neither a length nor chunks - also one that is meant to have no body; and a
    [POST] with [Content-Length: 0] that is complete stays unfinished, waiting for the
    body, at every further call. *)
Theorem unsupported_requests io_write poco_read (r : RequestParser) p :
  rc_stage (rp_common r) = StageBody ->
  let h := rc_header (rp_common r) in
  (rc_verb (rp_common r) <> VERB_GET -> rc_verb (rp_common r) <> VERB_POST ->
   (parser_readData io_write poco_read p r).2 = -1) /\
  (rc_verb (rp_common r) = VERB_POST -> hasContentLength h = false -> getChunkedTransferEncoding h = false ->
   (parser_readData io_write poco_read p r).2 = -1) /\
  (rc_verb (rp_common r) = VERB_POST -> hasContentLength h = true -> getContentLength h = 0 ->
   getChunkedTransferEncoding h = false -> sk_kind (rp_sink r) = SinkMemory ->
   let '(r', n) := parser_readData io_write poco_read [] r in n = 0 /\ rc_stage (rp_common r') = StageBody /\
     rp_recvBodySize r' = rp_recvBodySize r).
Proof.
  intros Hst h. unfold parser_readData. rewrite bool_decide_eq_false_2 by (by rewrite Hst).
  unfold parse_header_body. rewrite (bool_decide_eq_false_2 (_ = StageHeader)), bool_decide_eq_true_2 by (by rewrite Hst).
  cbn [Z.ltb Z.compare]. unfold parse_request_body. fold h. split_and!.
  - intros H1 H2. by rewrite (proj2 (beq_neq _ _) H1), (proj2 (beq_neq _ _) H2).
  - intros -> H1 H2. by rewrite H1, H2.
  - intros -> H1 _ H2 Hk. rewrite H1, H2. unfold on_body_write. rewrite Hk. cbn. done.
Qed.

(** A parser of header fields that satisfies [poco_law]. *)
Definition sample_line (l : bytes) : Container :=
  let n := run_length (fun c => negb (c =? 58)) l in
  if (n =? length l)%nat then [] else [(take n l, drop (n + 2) l)].

Fixpoint sample_fields (fuel : nat) (p : bytes) : Container :=
  match fuel with
  | O => []
  | S fuel' =>
      let n := run_length (fun c => negb (c =? chr_newline)) p in
      if (n <=? 1)%nat then [] else sample_line (take (n - 1) p) ++ sample_fields fuel' (drop (S n) p)
  end.

Definition sample_poco (p : bytes) : poco_result := Poco_fields (sample_fields (length p) p).

Lemma sample_fields_lines ls rest fuel :
  Forall line_ok ls -> (length ls < fuel)%nat ->
  sample_fields fuel (crlf_lines ls ++ CRLF ++ rest) = concat (map sample_line ls).
Proof.
  revert fuel. induction ls as [|l ls IH]; intros [|fuel] Hls Hf; try (cbn in Hf; lia).
  - unfold CRLF. done.
  - apply Forall_cons in Hls as [[Hlf Hc] Hls]. cbn [sample_fields map concat].
    assert (E : crlf_lines (l :: ls) ++ CRLF ++ rest = (l ++ [chr_cr]) ++ chr_newline :: crlf_lines ls ++ CRLF ++ rest).
    { unfold crlf_lines, CRLF. cbn [map concat]. by rewrite <- !(assoc_L (++)). }
    rewrite E, run_length_stop; [| |done].
    2: { apply Forall_app. split; [exact Hlf|by repeat constructor]. }
    rewrite length_app. cbn [length]. destruct l as [|c l]; [done|].
    destruct (Nat.leb_spec (length (c :: l) + 1) 1); [cbn in *; lia|].
    rewrite Nat.add_sub. rewrite <- (assoc_L (++)) at 1. rewrite take_app_length.
    replace (drop (S (length (c :: l) + 1)) (((c :: l) ++ [chr_cr]) ++ chr_newline :: crlf_lines ls ++ CRLF ++ rest))
      with (crlf_lines ls ++ CRLF ++ rest).
    + rewrite IH; [done|done|cbn in Hf; lia].
    + symmetry. rewrite <- (assoc_L (++)), <- Nat.add_succ_r, <- drop_drop, drop_app_length. done.
Qed.

Lemma sample_line_field f : field_ok f = true -> sample_line (f.1 ++ str ": " ++ f.2) = [f].
Proof.
  unfold field_ok. rewrite !andb_true_iff, forallb_Forall. intros [[[_ Hc] _] _]. unfold sample_line.
  change (str ": " ++ f.2) with (58 :: chr_space :: f.2). rewrite run_length_stop; [| |done].
  2: { apply (Forall_impl _ _ _ Hc). intros c. unfold name_char. rewrite andb_true_iff. by intros [_ ?]. }
  rewrite length_app. cbn [length]. destruct (Nat.eqb_spec (length f.1) (length f.1 + S (S (length f.2)))); [lia|].
  rewrite take_app_length, <- drop_drop, drop_app_length. cbn [drop]. by destruct f.
Qed.

Lemma sample_line_first l : first_line_ok l = true -> sample_line l = [].
Proof.
  unfold first_line_ok. rewrite !andb_true_iff, forallb_Forall. intros [[_ Hc] _]. unfold sample_line.
  rewrite run_length_all; [by rewrite Nat.eqb_refl|]. apply (Forall_impl _ _ _ Hc). intros c.
  rewrite andb_true_iff. by intros [_ ?].
Qed.

Lemma sample_poco_ok : poco_law sample_poco.
Proof.
  intros first fields rest Hfirst Hf. unfold sample_poco. rewrite header_lines_crlf.
  set (ls := first_lines first ++ map (fun f => f.1 ++ str ": " ++ f.2) fields).
  assert (Hls : Forall line_ok ls).
  { unfold ls. apply Forall_app. split; [apply (Forall_impl _ _ _ Hfirst), first_line_line_ok|].
    apply Forall_map, (Forall_impl _ _ _ Hf), field_line_ok. }
  assert (E : crlf_lines (first_lines first) ++ crlf_lines (map (fun f => f.1 ++ str ": " ++ f.2) fields) ++ CRLF ++ rest
              = crlf_lines ls ++ CRLF ++ rest).
  { unfold ls, crlf_lines. by rewrite map_app, concat_app, <- !(assoc_L (++)). }
  rewrite E, sample_fields_lines; [|done|].
  - f_equal. unfold ls. rewrite map_app, concat_app, map_map. clear E Hls ls.
    replace (concat (map sample_line (first_lines first))) with (@nil (bytes * bytes)).
    + cbn [app]. induction Hf as [|f fields Hok _ IH]; [done|]. cbn [map concat]. by rewrite sample_line_field, IH.
    + destruct first; cbn in *; [|done]. apply Forall_cons in Hfirst as [H _]. by rewrite sample_line_first.
  - pose proof (crlf_lines_length _ Hls). rewrite length_app. rewrite length_app. cbn [length]. unfold CRLF. cbn [length]. lia.
Qed.

(** A chunked upload in two pieces, written in three calls and cut inside the
    request line, the header and a chunk. *)
Definition sample_post : Request :=
  let h := header_set (str "Transfer-Encoding") (str "chunked") (header_set HOST (str "example.org:9980") Header_new) in
  Request_new (str "/wopi/files/1/contents") VERB_POST h VERS_1_1
    <| rq_bodyReader := CallbackBody [Some (str "hello, "); Some (str "world")] |>.

Definition sample_pieces : list bytes :=
  let '(_, out, _) := write_request [1; 1; 1]%nat sample_post [] in
  [take 20 out; take 50 (drop 20 out); take 40 (drop 70 out); drop 110 out].

(** A [POST] with an empty body, whose header is read. *)
Definition sample_empty_post : RequestParser :=
  RequestParser_new <| rp_common ::= fun c => c <| rc_verb := VERB_POST |> <| rc_stage := StageBody |>
    <| rc_header := header_set (str "Content-Length") (str "0") Header_new |> |>.

Lemma unsupported_requests_witness :
  rc_stage (rp_common (parser_readData (fun _ d => Z.of_nat (length d)) sample_poco [] sample_empty_post).1) = StageBody.
Proof.
  destruct (unsupported_requests (fun _ d => Z.of_nat (length d)) sample_poco sample_empty_post []) as (_ & _ & H).
  { reflexivity. }
  specialize (H eq_refl eq_refl eq_refl eq_refl eq_refl).
  destruct (parser_readData _ _ [] sample_empty_post) as [r n]. apply H.
Defined.

Lemma request_roundtrip_witness :
  exists buf p, feed_request (fun _ d => Z.of_nat (length d)) sample_poco sample_pieces [] RequestParser_new = Some (buf, p) /\
  sk_body (rp_sink p) = str "hello, world" /\ rc_url (rp_common p) = str "/wopi/files/1/contents".
Proof.
  destruct (request_roundtrip (fun _ d => Z.of_nat (length d)) sample_poco sample_post
    (ChunkedBody [str "hello, "; str "world"]) [str "hello, "; str "world"] [1; 1; 1]%nat sample_pieces)
    as (r' & out & E & _ & H).
  - done.
  - apply sample_poco_ok.
  - reflexivity.
  - repeat constructor.
  - repeat constructor.
  - exists 1, 1. by split_and!.
  - discriminate.
  - split; [by repeat constructor|]. by_decide.
  - split; [done|]. split; [reflexivity|]. repeat constructor; try discriminate; by_decide.
  - by split.
  - eapply reads_more; [reflexivity|discriminate|]. eapply reads_more; [reflexivity|discriminate|].
    eapply (reads_end _ []). reflexivity.
  - cbn. lia.
  - destruct H as (buf & p & Hf & Hr).
    + vm_compute in E. injection E as <- <-. reflexivity.
    + exists buf, p. split; [exact Hf|]. destruct Hr as (_ & (_ & Hu & _) & _ & Hb). split; [|by rewrite Hu].
      vm_compute in Hf. injection Hf as <- <-. reflexivity.
Defined.
