(* ===== verification/HttpResponseSpec.v ===== *)
(** * HTTP responses: written, cut by the network, and read

    A response of [Http.v] handed to the client's parser in any pieces is read back
    as it was written and finishes; with the cases in which data after the end of a
    message is taken for part of it. *)

From S2P Require Import Prelude Util Buffer HttpHeader Http RecordSet HttpSpec HttpRequestSpec.

Open Scope cool_scope.
Open Scope record_scope.

(** ** The status line *)

Definition reason_ok (r : bytes) : Prop :=
  no_lf r /\ match r with [] => False | c :: _ => isWhitespace c = false end.

(** The lines [StatusLine::parse] can return: the version and its digits agree. *)
Definition status_ok (s : StatusLine) : Prop :=
  0 <= sl_versionMajor s <= 9 /\ 0 <= sl_versionMinor s <= 9 /\
  sl_httpVersion s = str "HTTP/" ++ [sl_versionMajor s + chr_0; 46; sl_versionMinor s + chr_0] /\
  100 <= sl_statusCode s <= 599 /\ reason_ok (sl_reasonPhrase s).

Definition status_text (s : StatusLine) : bytes :=
  sl_httpVersion s ++ str " " ++ to_string (sl_statusCode s) ++ str " " ++ sl_reasonPhrase s.

Lemma status_version s : status_ok s -> version_ok (sl_httpVersion s).
Proof. intros (H1 & H2 & H3 & _). eexists _, _. split; [exact H1|]. split; [exact H2|exact H3]. Qed.

(** Three digits. *)
Lemma code_digits c : 100 <= c <= 599 -> exists a b d, to_string c = [a; b; d] /\
  isdigit a = true /\ isdigit b = true /\ isdigit d = true /\ c = (digit_val a * 10 + digit_val b) * 10 + digit_val d.
Proof.
  intros H. unfold to_string. destruct (Z.ltb_spec c 0); [lia|]. unfold dec_fuel.
  assert (Hl : 6 <= Z.log2 c <= 9).
  { split; [change 6 with (Z.log2 100)|change 9 with (Z.log2 599)]; apply Z.log2_le_mono; lia. }
  destruct (Z.to_nat (Z.log2 c)) as [|[|n]] eqn:E; [lia..|]. cbn [dec_digits].
  assert (c / 10 / 10 = c / 100) as Hd by (rewrite Z.div_div by lia; done).
  assert (10 <= c / 10 < 60) by (split; [apply Z.div_le_lower_bound|apply Z.div_lt_upper_bound]; lia).
  assert (1 <= c / 100 < 6) by (split; [apply Z.div_le_lower_bound|apply Z.div_lt_upper_bound]; lia).
  destruct (Z.ltb_spec c 10); [lia|]. destruct (Z.ltb_spec (c / 10) 10); [lia|].
  destruct n as [|n]; [lia|]. cbn [dec_digits]. destruct (Z.ltb_spec (c / 10 / 10) 10); [|lia].
  exists (c / 10 / 10 + 48), (c / 10 mod 10 + 48), (c mod 10 + 48). split; [done|].
  pose proof (Z.mod_pos_bound (c / 10) 10). pose proof (Z.mod_pos_bound c 10).
  unfold isdigit, digit_val. rewrite !andb_true_iff, !Z.leb_le.
  split_and!; try lia. pose proof (Z.div_mod c 10). pose proof (Z.div_mod (c / 10) 10). lia.
Qed.

Lemma safe_atoi_code c rest : 100 <= c <= 599 -> safe_atoi (to_string c ++ chr_space :: rest) = c.
Proof.
  intros H. destruct (code_digits c H) as (a & b & d & -> & Ha & Hb & Hd & Hc). cbn [app]. unfold safe_atoi.
  cbn [drop_spaces]. rewrite digit_not_space by done. rewrite split_sign_digit by done.
  cbn [safe_atoi_digits]. rewrite Ha, Hb, Hd. replace (isdigit chr_space) with false by done.
  assert (Hr : forall x, isdigit x = true -> 0 <= digit_val x <= 9).
  { intros x. unfold isdigit, digit_val. rewrite andb_true_iff, !Z.leb_le. lia. }
  apply Hr in Ha, Hb, Hd. unfold INT_MAX. zcases; lia.
Qed.

Section status.
Variable s : StatusLine.
Hypothesis s_ok : status_ok s.
Variable rest : bytes.

Definition status_full : bytes := status_text s ++ CRLF ++ rest.

Lemma status_shape : exists a b d r0 rs,
  to_string (sl_statusCode s) = [a; b; d] /\ isdigit a = true /\ sl_reasonPhrase s = r0 :: rs /\
  isWhitespace r0 = false /\ no_lf (r0 :: rs) /\
  drop 8 status_full = chr_space :: a :: b :: d :: chr_space :: r0 :: rs ++ chr_cr :: chr_newline :: rest /\
  length status_full = (15 + length rs + S (length rest))%nat.
Proof.
  destruct s_ok as (H1 & H2 & H3 & H4 & Hlf & Hr). destruct (code_digits _ H4) as (a & b & d & E & Ha & _).
  destruct (sl_reasonPhrase s) as [|r0 rs] eqn:Er; [done|].
  exists a, b, d, r0, rs. unfold status_full, status_text. rewrite H3, E, Er. cbn. unfold CRLF.
  split_and!; try done; rewrite <- ?(assoc_L (++)); try done. rewrite !length_app. cbn. lia.
Qed.

Lemma status_scans : exists a b d r0 rs,
  to_string (sl_statusCode s) = [a; b; d] /\ isdigit a = true /\ sl_reasonPhrase s = r0 :: rs /\
  skipSpaceAndTab status_full 0 = 0%nat /\ skipSpaceAndTab status_full 8 = 9%nat /\
  skipSpaceAndTab status_full 12 = 13%nat /\ findLineBreak status_full 13 = (15 + length rs)%nat /\
  drop 9 status_full = a :: b :: d :: chr_space :: r0 :: rs ++ chr_cr :: chr_newline :: rest /\
  drop 13 status_full = r0 :: rs ++ chr_cr :: chr_newline :: rest /\
  drop (15 + length rs) status_full = chr_newline :: rest /\
  length (status_text s ++ CRLF) = (16 + length rs)%nat.
Proof.
  destruct status_shape as (a & b & d & r0 & rs & E & Ha & Er & Hr0 & Hlf & D & Hlen).
  assert (D9 := drop_next _ _ _ _ D). assert (D10 := drop_next _ _ _ _ D9). assert (D11 := drop_next _ _ _ _ D10).
  assert (D12 := drop_next _ _ _ _ D11). assert (D13 := drop_next _ _ _ _ D12).
  exists a, b, d, r0, rs. split_and!; try done.
  - unfold skipSpaceAndTab. destruct s_ok as (_ & _ & H3 & _). unfold status_full, status_text. rewrite H3.
    eapply (scan_drop _ _ 0 []); [cbn; reflexivity|done|done].
  - unfold skipSpaceAndTab. eapply (scan_drop _ _ 8 [chr_space]); [exact D|by repeat constructor|].
    revert Ha. unfold isdigit, isWhitespace, chr_space, chr_tab, chr_cr. rewrite andb_true_iff, !Z.leb_le. intros Ha. zcases; (lia || done).
  - unfold skipSpaceAndTab. by eapply (scan_drop _ _ 12 [chr_space]); [exact D12|repeat constructor|].
  - unfold findLineBreak. rewrite (scan_drop _ _ 13 ((r0 :: rs) ++ [chr_cr]) chr_newline rest); [|rewrite D13; by rewrite <- (assoc_L (++))| |done].
    + rewrite length_app. cbn. lia.
    + apply Forall_app. split; [exact Hlf|by repeat constructor].
  - change (r0 :: rs ++ chr_cr :: chr_newline :: rest) with ((r0 :: rs) ++ [chr_cr] ++ chr_newline :: rest) in D13.
    rewrite (assoc_L (++)) in D13. assert (H := drop_more _ _ _ _ D13). rewrite <- H. f_equal. rewrite length_app. cbn. lia.
  - assert (H : length status_full = (length (status_text s ++ CRLF) + length rest)%nat)
      by (unfold status_full; rewrite !length_app; lia). lia.
Qed.

Lemma status_parse_prefix p q s0 :
  p ++ q = status_full ->
  if (length (status_text s ++ CRLF) <=? length p)%nat then exists n, status_parse p s0 = (Field_Valid, s, S n)
  else exists s1, status_parse p s0 = (Field_Incomplete, s1, length p).
Proof.
  intros E. destruct status_scans as (a & b & d & r0 & rs & Ec & Ha & Er & S0 & S8 & S12 & LB & D9 & D13 & DL & HL).
  set (n := length p). assert (Hn : (n <= length status_full)%nat) by (rewrite <- E, length_app; lia).
  assert (Hp : p = take n status_full) by (apply (prefix_take _ q); done).
  assert (Hcode : 100 <= sl_statusCode s <= 599) by (by destruct s_ok as (_ & _ & _ & ? & _)).
  rewrite HL. unfold status_parse. fold n. unfold MinStatusLineLen, VersionLen.
  destruct (Nat.ltb_spec n 14); [destruct (Nat.leb_spec (16 + length rs) n); [lia|by eexists]|].
  rewrite Hp. unfold skipSpaceAndTab in *. rewrite !scan_take, S0, Nat.min_0_r by done.
  replace (MaxStatusLineLen <=? 0)%nat with false by done. rewrite Nat.sub_0_r.
  destruct (Nat.ltb_spec n 14); [lia|].
  assert (Hv : version_valid (take n status_full) 0 = true).
  { rewrite version_valid_take by (unfold VersionLen; lia).
    apply (version_valid_ok _ 0 (sl_httpVersion s) chr_space (to_string (sl_statusCode s) ++ str " " ++ sl_reasonPhrase s ++ CRLF ++ rest));
      [by apply status_version| |done].
    unfold status_full, status_text. cbn [drop]. by rewrite <- !(assoc_L (++)). }
  rewrite Hv. cbn [negb]. change (0 + 8)%nat with 8%nat. rewrite S8, (Nat.min_r n 9) by lia.
  replace (MaxStatusLineLen <=? 9)%nat with false by done. change (14 - 8)%nat with 6%nat.
  destruct (Nat.ltb_spec (n - 9) 6); [destruct (Nat.leb_spec (16 + length rs) n); [lia|by eexists]|].
  set (s1 := {| sl_httpVersion := _ |}).
  assert (Hd : drop 9 (take n status_full) = to_string (sl_statusCode s) ++ chr_space :: take (n - 13) (r0 :: rs ++ chr_cr :: chr_newline :: rest)).
  { rewrite skipn_firstn_comm, D9, Ec. replace (n - 9)%nat with (4 + (n - 13))%nat by lia. done. }
  unfold parse_code. rewrite (char_at_drop _ 9 a _ ltac:(rewrite Hd, Ec; reflexivity)), Hd, safe_atoi_code by done.
  assert (Ha' : (a <? chr_0) || (chr_9 <? a) = false).
  { revert Ha. unfold isdigit, chr_0, chr_9. rewrite andb_true_iff, !Z.leb_le. intros Ha. zcases; (lia || done). }
  rewrite Ha'. cbn [sl_statusCode set_code]. unfold MinValidStatusCode, MaxValidStatusCode.
  destruct (Z.ltb_spec (sl_statusCode s) 100); [lia|]. destruct (Z.ltb_spec 599 (sl_statusCode s)); [lia|]. cbn [orb].
  unfold skipSpaceAndTab. rewrite scan_take by done. change (9 + StatusCodeLen)%nat with 12%nat.
  rewrite S12, (Nat.min_r n 13) by lia. replace (MaxStatusLineLen <=? 13)%nat with false by done.
  unfold parse_reason, findLineBreak in *. rewrite scan_take, LB, length_take, (Nat.min_l n) by done.
  destruct (Nat.leb_spec (16 + length rs) n) as [Hfull|Hpart].
  - rewrite (Nat.min_r n (15 + length rs)) by lia. destruct (Nat.leb_spec n (15 + length rs)); [lia|].
    rewrite skipn_firstn_comm, DL. destruct (n - (15 + length rs))%nat as [|m] eqn:Em; [lia|]. cbn [take reason_end].
    rewrite orb_true_r. replace (Z.of_nat (15 + length rs) - Z.of_nat 13 - 1) with (Z.of_nat (S (length rs))) by lia.
    destruct (Z.ltb_spec 0 (Z.of_nat (S (length rs)))); [|lia].
    rewrite scan_take by done.
    assert (Hend : exists k, Nat.min n (scan (fun c => (c =? chr_cr) || (c =? chr_newline)) status_full (15 + length rs)) = S k).
    { unfold scan. destruct (Nat.ltb_spec (15 + length rs) (length status_full)); [|lia]. rewrite DL. cbn [run_length].
      rewrite orb_true_r. eexists (Nat.pred _). rewrite Nat.succ_pred; [reflexivity|lia]. }
    destruct Hend as [k ->]. exists k. do 2 f_equal. clear Hv Hd. unfold s1. clear s1.
    rewrite skipn_firstn_comm, D13, take_take, Nat2Z.id.
    unfold set_reason, set_code. cbn [sl_httpVersion sl_versionMajor sl_versionMinor sl_statusCode].
    rewrite Nat.min_l by lia. cbn [take]. rewrite take_app_length, <- Er. rewrite drop_0, take_take, Nat.min_l by lia.
    rewrite !char_at_take by lia. unfold status_full, status_text. destruct s_ok as (_ & _ & Hver & _). rewrite Hver.
    cbn. destruct s; cbn in *. rewrite Hver. cbn. unfold chr_0. f_equal; lia.
  - rewrite (Nat.min_l n (15 + length rs)) by lia. rewrite Nat.leb_refl. by eexists.
Qed.
End status.

(** ** A response on the wire *)

(** Responses that have no body whatever their header says. *)
Definition bodiless (s : StatusLine) : bool :=
  bool_decide (statusCategory s = Informational) || (sl_statusCode s =? 204) || (sl_statusCode s =? 304).

(** The status and the header announce the body. *)
Definition response_body_ok (s : StatusLine) (h : Header) (k : body_kind) : Prop :=
  match k with
  | NoBody => bodiless s = true \/
              (hasContentLength h = true /\ getContentLength h = 0 /\ getTransferEncoding h = [])
  | PlainBody b => bodiless s = false /\ b <> [] /\ getChunkedTransferEncoding h = false /\
                   hasContentLength h = true /\ getContentLength h = Z.of_nat (length b) /\ getTransferEncoding h = []
  | ChunkedBody ds => bodiless s = false /\ getChunkedTransferEncoding h = true /\ hasContentLength h = false /\
                      Forall chunk_ok ds
  end.

Definition is_chunked (k : body_kind) : Prop := match k with ChunkedBody _ => True | _ => False end.

Section response.
Variable io_write : list bytes -> bytes -> Z.
Variable poco_read : bytes -> poco_result.
Hypothesis io_writes_all : forall sent d, io_write sent d = Z.of_nat (length d).
Hypothesis poco_ok : poco_law poco_read.
Variable s : StatusLine.
Variable fields : Container.
Variable kind : body_kind.
Hypothesis s_ok : status_ok s.
Hypothesis s_line_ok : first_line_ok (status_text s) = true.
Hypothesis all_fields_ok : fields_ok fields.
Hypothesis kind_ok : response_body_ok s (header_of fields) kind.

Definition head : bytes := status_text s ++ CRLF ++ header_lines fields ++ CRLF.
Definition response_wire : bytes := head ++ body_wire kind.

Definition untouched (r : Response) : Prop :=
  rs_header r = Header_new /\ sk_body (rs_sink r) = [] /\ sk_sent (rs_sink r) = [] /\ rs_recvBodySize r = 0 /\
  rs_finishedCalls r = 0%nat.

(** The response as the client gets it. *)
Definition response_read (r : Response) : Prop :=
  rs_parserStage r = PS_Finished /\ rs_state r = RS_Complete /\ rs_statusLine r = s /\
  rs_header r = header_of fields /\ received (rs_sink r) = body_payload kind /\ (1 <= rs_finishedCalls r)%nat.

Definition head_read (r : Response) : Prop :=
  rs_statusLine r = s /\ rs_header r = header_of fields /\ rs_finishedCalls r = 0%nat.

(** What a parser still expects to be given, in each of its stages. *)
Inductive awaits (r : Response) : bytes -> Prop :=
| awaits_status : rs_parserStage r = PS_StatusLine -> untouched r -> awaits r response_wire
| awaits_header : rs_parserStage r = PS_Header -> rs_statusLine r = s -> untouched r -> awaits r response_wire
| awaits_body w : rs_parserStage r = PS_Body -> head_read r -> w <> [] ->
    match kind with
    | NoBody => False
    | PlainBody b => received (rs_sink r) ++ w = b /\ rs_recvBodySize r = Z.of_nat (length (received (rs_sink r)))
    | ChunkedBody ds => exists ds1 ds2, ds = ds1 ++ ds2 /\ w = encode_chunks ds2 ++ last_chunk /\
        received (rs_sink r) = concat ds1
    end -> awaits r w
| awaits_nothing w : response_read r -> (is_chunked kind \/ w = [] /\ rs_finishedCalls r = 1%nat) -> awaits r w.

(** The result of one call on [len] bytes of which [p] are left after the head. *)
Definition progresses (len : nat) (p q : bytes) (res : Response * Z) : Prop :=
  let '(r, n) := res in
  exists k, n = Z.of_nat len - Z.of_nat (length p) + Z.of_nat k /\ (k <= length p)%nat /\
  awaits r (drop k p ++ q) /\ (q = [] -> response_read r).

(** A response that finishes in this call. *)
Lemma completes len p q k r :
  (k <= length p)%nat -> rs_parserStage r = PS_Finished -> rs_state r = RS_Incomplete -> head_read r ->
  received (rs_sink r) = body_payload kind -> (is_chunked kind \/ drop k p ++ q = []) ->
  progresses len p q (complete r, Z.of_nat len - Z.of_nat (length p - k)).
Proof.
  intros Hk Hst Hs (H1 & H2 & H3) Hb Hc. unfold complete, finish, done. rewrite Hs. cbn [negb].
  assert (Hr : response_read (r <| rs_state := RS_Complete |> <| rs_finishedCalls ::= S |>)).
  { split_and!; try done. cbn. lia. }
  exists k. split_and!; [lia|done| |done]. apply awaits_nothing; [done|]. destruct Hc; [by left|]. right. split; [done|]. cbn. by rewrite H3.
Qed.

Lemma body_end_advances len p q r :
  (length p <= len)%nat -> rs_parserStage r = PS_Body -> rs_state r = RS_Incomplete -> head_read r ->
  p ++ q <> [] ->
  match kind with
  | NoBody => False
  | PlainBody b => received (rs_sink r) ++ p ++ q = b /\ rs_recvBodySize r = Z.of_nat (length (received (rs_sink r)))
  | ChunkedBody ds => exists ds1 ds2, ds = ds1 ++ ds2 /\ p ++ q = encode_chunks ds2 ++ last_chunk /\
      received (rs_sink r) = concat ds1
  end -> progresses len p q (response_body_end io_write len p r).
Proof.
  intros Hlen Hst Hs Hh Hne Hk. unfold response_body_end. rewrite Hst, bool_decide_eq_true_2 by done. cbn [andb].
  assert (Hok := kind_ok). unfold response_body_ok in Hok.
  destruct (Nat.eqb_spec (length p) 0) as [Hp|Hp].
  { cbn [negb]. rewrite Hst, bool_decide_eq_false_2 by done. exists 0%nat. split_and!; [lia|lia| |].
    - rewrite drop_0. by apply awaits_body.
    - intros ->. destruct p; done. }
  assert (Hh' := Hh). destruct Hh' as (Hsl & Hhd & Hfc). cbn [negb]. unfold parse_response_body. rewrite Hhd.
  destruct (body_kind_cases kind) as [Ek|[[b Ek]|[ds Ek]]]; rewrite Ek in Hk, Hok; [done| |].
  - destruct Hok as (_ & _ & Hc & Hcl & Hlb & _), Hk as (Hrec & Hsz). rewrite Hc.
    destruct (on_body_write_all io_write io_writes_all p (rs_sink r)) as (s' & -> & Hs').
    destruct (Z.ltb_spec (Z.of_nat (length p)) 0); [lia|]. destruct (Z.ltb_spec 0 (Z.of_nat (length p))); [|lia].
    cbn [rset rs_header rs_recvBodySize rs_parserStage rs_sink rs_statusLine rs_state rs_finishedCalls].
    rewrite Hhd, Hcl, Hlb. cbn [andb].
    assert (Hl := f_equal length Hrec). rewrite !length_app in Hl.
    destruct (Z.leb_spec (Z.of_nat (length b)) (rs_recvBodySize r + Z.of_nat (length p))) as [Hfull|Hpart].
    + assert (q = []) as -> by (destruct q; [done|cbn in Hl; lia]). rewrite app_nil_r in Hrec.
      cbn [rs_parserStage]. rewrite bool_decide_eq_true_2 by done. rewrite Nat2Z.id.
      apply completes; [lia|done|exact Hs|by split_and!| |right; by rewrite drop_ge].
      cbn. rewrite Hs', Hrec. by rewrite Ek.
    + cbn [rs_parserStage]. rewrite Hst, bool_decide_eq_false_2 by done. rewrite Nat2Z.id, Nat.sub_diag.
      assert (q <> []) by (intros ->; cbn in Hl; lia).
      exists (length p). split_and!; [lia|lia| |done]. rewrite drop_ge by lia.
      apply awaits_body; [done|by split_and!|done|]. rewrite Ek. cbn. rewrite Hs', length_app, <- (assoc_L (++)).
      split; [done|lia].
  - destruct Hok as (_ & Hc & _ & Hds), Hk as (ds1 & ds2 & -> & Hpq & Hrec). rewrite Hc.
    apply Forall_app in Hds as [_ Hds2].
    assert (H := read_chunks_stream io_write io_writes_all ds2 Hds2 (S (length p)) (rs_sink r) (rs_recvBodySize r) p q ltac:(lia) Hpq).
    destruct (read_chunks _ _ _ _ _) as [[[s' recv'] rest] e].
    destruct H as [(-> & -> & Hr)|(-> & Hq & Hle & da & db & -> & Erest & Hr)].
    + cbn [rset rs_parserStage]. rewrite bool_decide_eq_true_2 by done.
      replace (length (@nil Z)) with (length p - length p)%nat by (cbn; lia).
      apply completes; [lia|done|exact Hs|by split_and!| |left; by rewrite Ek].
      cbn. by rewrite Hr, Hrec, Ek, <- concat_app.
    + cbn [rset rs_parserStage]. rewrite Hst, bool_decide_eq_false_2 by done.
      assert (Hp' : p = encode_chunks da ++ rest).
      { apply (app_inv_tail q). rewrite Hpq. unfold encode_chunks in *. rewrite map_app, concat_app.
        by rewrite <- !(assoc_L (++)), Erest. }
      exists (length p - length rest)%nat. split_and!; [lia|lia| |done].
      replace (drop (length p - length rest) p) with rest.
      2: { rewrite Hp' at 2. rewrite drop_app_length'; [done|]. rewrite Hp', length_app. lia. }
      apply awaits_body; [done|by split_and!|by destruct rest, q|]. rewrite Ek. exists (ds1 ++ da), db. cbn.
      split_and!; [by rewrite <- (assoc_L (++))|done|]. by rewrite Hr, Hrec, concat_app.
Qed.
Lemma expect_body_kind r :
  rs_statusLine r = s -> rs_header r = header_of fields -> sk_body (rs_sink r) = [] -> sk_sent (rs_sink r) = [] ->
  exists r', expect_body r = (r', true) /\ rs_statusLine r' = s /\ rs_header r' = header_of fields /\
  rs_state r' = rs_state r /\ rs_recvBodySize r' = rs_recvBodySize r /\ rs_finishedCalls r' = rs_finishedCalls r /\
  received (rs_sink r') = [] /\ rs_parserStage r' = match kind with NoBody => PS_Finished | _ => PS_Body end.
Proof.
  intros Hs Hh Hb Hse. assert (Hok := kind_ok). unfold response_body_ok in Hok.
  assert (Hrec : forall k, received {| sk_kind := k; sk_body := []; sk_sent := [] |} = []) by (by intros []).
  assert (Hsink : rs_sink r = {| sk_kind := sk_kind (rs_sink r); sk_body := []; sk_sent := [] |}).
  { rewrite <- Hb at 1. rewrite <- Hse. by destruct (rs_sink r). }
  unfold expect_body. change (rs_statusLine (r <| rs_parserStage := PS_Body |>)) with (rs_statusLine r). rewrite Hs.
  unfold bodiless in *.
  destruct (_ || _ || _) eqn:Ebl.
  - eexists. split; [done|]. cbn. rewrite Hsink. split_and!; try done;
      first [apply Hrec | destruct kind; [done|by destruct Hok..]].
  - set (r1 := if negb _ then _ else _).
    assert (Hr1 : rs_statusLine r1 = s /\ rs_header r1 = header_of fields /\ rs_state r1 = rs_state r /\
      rs_recvBodySize r1 = rs_recvBodySize r /\ rs_finishedCalls r1 = rs_finishedCalls r /\ received (rs_sink r1) = [] /\
      rs_parserStage r1 = PS_Body).
    { unfold r1. cbn [rset rs_statusLine]. destruct (negb _); cbn; rewrite Hsink; split_and!; try done; apply Hrec. }
    destruct Hr1 as (A1 & A2 & A3 & A4 & A5 & A6 & A7). rewrite A2.
    destruct kind as [|b|ds].
    + destruct Hok as [Hok|(Hcl & Hl & Hte)]; [done|]. rewrite Hcl, Hl, Hte. cbn [Z.ltb Z.compare length Nat.eqb negb orb Z.eqb].
      eexists. split; [done|]. cbn. by split_and!.
    + destruct Hok as (_ & Hne & Hc & Hcl & Hl & Hte). rewrite Hcl, Hl, Hte.
      destruct (Z.ltb_spec (Z.of_nat (length b)) 0); [lia|]. destruct (Z.eqb_spec (Z.of_nat (length b)) 0).
      { destruct b; [done|cbn in *; lia]. }
      eexists. split; [reflexivity|]. by split_and!.
    + destruct Hok as (_ & Hc & Hcl & _). rewrite Hcl. eexists. split; [reflexivity|]. by split_and!.
Qed.

Lemma header_progresses p q r :
  rs_parserStage r = PS_Header -> rs_state r = RS_Incomplete -> rs_statusLine r = s -> untouched r ->
  p <> [] -> p ++ q = response_wire -> progresses (length p) p q (response_header io_write poco_read (length p) p r).
Proof.
  intros Hst Hs Hsl Hu Hne E. assert (Hu' := Hu). destruct Hu' as (Hh & Hb & Hse & Hz & Hf).
  unfold response_header. rewrite Hst, bool_decide_eq_true_2 by done.
  destruct (Nat.eqb_spec (length p) 0); [by destruct p|]. cbn [negb andb]. rewrite Hh.
  assert (HB := header_parse_block poco_read poco_ok (Some (status_text s)) fields p q (body_wire kind)).
  cbn [first_lines] in HB.
  assert (Ehead : crlf_lines [status_text s] ++ header_lines fields ++ CRLF = head).
  { unfold crlf_lines, head. cbn [map concat]. by rewrite app_nil_r, <- !(assoc_L (++)). }
  rewrite Ehead in HB. rewrite HB; [|by constructor|done|done|exact E]. clear HB.
  assert (Hh0 : (0 < length head)%nat) by (unfold head, CRLF; rewrite !length_app; cbn; lia).
  destruct (Nat.leb_spec (length head) (length p)) as [Hle|Hlt].
  - destruct (Z.ltb_spec (Z.of_nat (length head)) 0); [lia|]. destruct (Z.ltb_spec 0 (Z.of_nat (length head))); [|lia].
    destruct (prefix_split p q _ _ E Hle) as (p' & -> & E'). rewrite Nat2Z.id, drop_app_length.
    destruct (expect_body_kind (r <| rs_header := header_of fields |>)) as (r' & -> & B1 & B2 & B3 & B4 & B5 & B6 & B7); [done..|].
    cbn [rset rs_state rs_recvBodySize rs_finishedCalls] in B3, B4, B5.
    assert (Hadv : progresses (length (head ++ p')) p' q (response_body_end io_write (length (head ++ p')) p' r')).
    { assert (Hhr : head_read r') by (split_and!; [done|done|by rewrite B5]). rewrite Hs in B3.
      assert (Hok := kind_ok). unfold response_body_ok in Hok.
      destruct (body_kind_cases kind) as [Ek|[[b Ek]|[ds Ek]]]; rewrite Ek in B7, E', Hok.
      - unfold response_body_end. rewrite B7. rewrite bool_decide_eq_false_2 by done. cbn [andb].
        rewrite B7, bool_decide_eq_true_2 by done. cbn in E'.
        assert (Hc := completes (length (head ++ p')) p' q 0 r'). rewrite Nat.sub_0_r in Hc.
        apply Hc; [lia|done|done|done|by rewrite B6, Ek|right; done].
      - apply body_end_advances; [rewrite length_app; lia|done|done|done|rewrite E'; by destruct Hok as (_ & ? & _)|].
        rewrite Ek. cbn in E'. rewrite B6, B4, Hz, E'. done.
      - apply body_end_advances; [rewrite length_app; lia|done|done|done| |].
        + rewrite E'. destruct Hok as (_ & _ & _ & Hds). destruct (stream_head ds Hds) as (? & ? & Hst' & _).
          unfold body_wire. by rewrite Hst'.
        + rewrite Ek. exists [], ds. by rewrite B6. }
    destruct (response_body_end _ _ _ _) as [r2 n2]. destruct Hadv as (k & Hk & Hkp & Hex & Hq).
    exists (length head + k)%nat. rewrite length_app in *. rewrite <- drop_drop, drop_app_length. split_and!; [lia|lia|done|done].
  - cbn [Z.ltb Z.compare]. unfold response_body_end. cbn [rset rs_parserStage]. rewrite Hst, !bool_decide_eq_false_2 by done.
    cbn [andb]. exists 0%nat. split_and!; [lia|lia| |].
    + rewrite drop_0, E. by apply awaits_header.
    + intros ->. rewrite app_nil_r in E. rewrite E in Hlt. unfold response_wire in Hlt. rewrite length_app in Hlt. lia.
Qed.

(** One call of [readData]. *)
Lemma response_progresses r p q :
  p <> [] -> awaits r (p ++ q) -> progresses (length p) p q (response_readData io_write poco_read p r).
Proof.
  intros Hne He. unfold response_readData. set (r1 := r <| rs_state := RS_Incomplete |>).
  assert (Hs1 : rs_state r1 = RS_Incomplete) by done.
  inversion He as [Hst Hu Ew|Hst Hsl Hu Ew|w Hst Hh Hw Hk Ew|w Hr Hc Ew];
    [change (rs_parserStage r1 = PS_StatusLine) in Hst; change (untouched r1) in Hu
    |change (rs_parserStage r1 = PS_Header) in Hst; change (rs_statusLine r1 = s) in Hsl; change (untouched r1) in Hu
    |change (rs_parserStage r1 = PS_Body) in Hst; change (head_read r1) in Hh|].
  - rewrite Hst, bool_decide_eq_true_2 by done.
    assert (Hwire : p ++ q = status_full s (header_lines fields ++ CRLF ++ body_wire kind)).
    { rewrite <- Ew. unfold response_wire, head, status_full. by rewrite <- !(assoc_L (++)). }
    assert (H := status_parse_prefix s s_ok (header_lines fields ++ CRLF ++ body_wire kind) p q (rs_statusLine r1) Hwire).
    destruct (Nat.leb_spec (length (status_text s ++ CRLF)) (length p)) as [Hle|Hlt].
    + destruct H as (n & ->). cbn [Nat.eqb]. by apply header_progresses.
    + destruct H as (s1 & ->). exists 0%nat. split_and!; [lia|lia| |].
      * rewrite drop_0, <- Ew. by apply awaits_status.
      * intros ->. rewrite app_nil_r in Hwire. rewrite Hwire in Hlt. unfold status_full in Hlt.
        rewrite (assoc_L (++)), length_app in Hlt. lia.
  - rewrite Hst, bool_decide_eq_false_2 by done. by apply header_progresses.
  - rewrite Hst, bool_decide_eq_false_2 by done. unfold response_header.
    rewrite Hst, bool_decide_eq_false_2 by done. cbn [andb].
    apply body_end_advances; [done|exact Hst|done|exact Hh|done|exact Hk].
  - destruct Hc as [Hc|[Hc _]]; [|by destruct p].
    assert (R1 : rs_parserStage r1 = PS_Finished) by apply Hr.
    assert (Hd : response_read (complete r1)).
    { destruct Hr as (_ & _ & R3 & R4 & R5 & R6). split_and!; try done. cbn. lia. }
    rewrite R1, bool_decide_eq_false_2 by done. unfold response_header.
    rewrite R1, bool_decide_eq_false_2 by done. cbn [andb]. unfold response_body_end.
    rewrite R1, bool_decide_eq_false_2 by done. cbn [andb]. rewrite R1, bool_decide_eq_true_2 by done.
    exists 0%nat. split_and!; [lia|lia| |done]. apply awaits_nothing; [done|by left].
Qed.

(** The client's side, as [feed_request]. *)
Fixpoint feed_response (pieces : list bytes) (buf : bytes) (r : Response) : option (bytes * Response) :=
  match pieces with
  | [] => Some (buf, r)
  | p :: pieces =>
      let '(r, n) := response_readData io_write poco_read (buf ++ p) r in
      if n <? 0 then None else feed_response pieces (drop (Z.to_nat n) (buf ++ p)) r
  end.

Lemma feed_response_reads pieces buf r :
  pieces <> [] -> Forall (fun p => p <> []) pieces -> awaits r (buf ++ concat pieces) ->
  exists buf' r', feed_response pieces buf r = Some (buf', r') /\ response_read r' /\
  (~ is_chunked kind -> rs_finishedCalls r' = 1%nat).
Proof.
  revert buf r. induction pieces as [|p pieces IH]; intros buf r Hne Hp He; [done|]. cbn [feed_response concat] in *.
  apply Forall_cons in Hp as [Hp1 Hp]. rewrite (assoc_L (++)) in He.
  assert (H := response_progresses r (buf ++ p) _ ltac:(by destruct buf, p) He).
  destruct (response_readData io_write poco_read (buf ++ p) r) as [r' n]. destruct H as (k & -> & Hk & Hex & Hq).
  replace (Z.of_nat (length (buf ++ p)) - Z.of_nat (length (buf ++ p)) + Z.of_nat k) with (Z.of_nat k) by lia.
  destruct (Z.ltb_spec (Z.of_nat k) 0); [lia|]. rewrite Nat2Z.id.
  destruct pieces as [|p' pieces]; [|by apply IH].
  cbn [feed_response concat] in *. specialize (Hq eq_refl). eexists _, _. split; [done|]. split; [done|].
  destruct Hq as (R1 & _). intros Hnc.
  inversion Hex as [Hst Hu Ew|Hst Hsl Hu Ew|w Hst Hh Hw Hbody Ew|w Hr Hc Ew]; try congruence.
  by destruct Hc as [Hc|[_ Hc]].
Qed.
End response.

(** C40 (roundtrip): a response is read as it was written. However the network cuts
    the bytes of [writeData], the client's parser ends in [Complete] with the status
    line, the header fields and the body, for responses without a body, with a body
    of the announced length and with a chunked body; except for a chunked one, whose
    end the parser sees before its last line break, the finished callback is called
    exactly once. *)
Theorem response_roundtrip io_write poco_read (r : Response) kind pieces :
  (forall sent d, io_write sent d = Z.of_nat (length d)) -> poco_law poco_read ->
  let fields := hd_headers (rs_header r) in
  status_ok (rs_statusLine r) -> first_line_ok (status_text (rs_statusLine r)) = true -> fields_ok fields ->
  response_body_ok (rs_statusLine r) (header_of fields) kind -> sk_body (rs_sink r) = body_wire kind ->
  concat pieces = response_writeData r [] -> Forall (fun p => p <> []) pieces ->
  exists buf r', feed_response io_write poco_read pieces [] Response_new = Some (buf, r') /\
  response_read (rs_statusLine r) fields kind r' /\ (~ is_chunked kind -> rs_finishedCalls r' = 1%nat).
Proof.
  intros Hio Hpoco fields Hs Hl Hf Hk Hb Hp Hne.
  assert (Hw : concat pieces = response_wire (rs_statusLine r) fields kind).
  { rewrite Hp. unfold response_writeData, header_writeData, status_writeData, response_wire, head, status_text.
    rewrite Hb. cbn [app]. by rewrite <- !(assoc_L (++)). }
  apply feed_response_reads; try done.
  - intros ->. apply (f_equal length) in Hw. unfold response_wire, head, CRLF in Hw. rewrite !length_app in Hw. cbn in Hw. lia.
  - cbn [app]. rewrite Hw. apply awaits_status; [done|]. by split_and!.
Qed.

(** A response whose body has an announced length, cut inside the status line, inside
    the header and inside the body. *)
Definition sample_response : Response :=
  response_setBody (str "<html></html>") (str "text/html") (Response_of (StatusLine_new 200) (str "Tue, 1 Jul") (str "COOLWSD")).

Definition sample_response_pieces : list bytes :=
  let out := response_writeData sample_response [] in
  [take 12 out; take 30 (drop 12 out); take 60 (drop 42 out); drop 102 out].

Lemma response_roundtrip_witness : exists buf r',
  feed_response (fun _ d => Z.of_nat (length d)) sample_poco sample_response_pieces [] Response_new = Some (buf, r') /\
  sl_statusCode (rs_statusLine r') = 200 /\ received (rs_sink r') = str "<html></html>" /\ rs_finishedCalls r' = 1%nat.
Proof.
  destruct (response_roundtrip (fun _ d => Z.of_nat (length d)) sample_poco sample_response
    (PlainBody (str "<html></html>")) sample_response_pieces) as (buf & r' & E & Hr & Hc).
  - done.
  - apply sample_poco_ok.
  - split; [cbn; lia|]. split; [cbn; lia|]. split; [reflexivity|]. split; [cbn; lia|]. split; [by repeat constructor|reflexivity].
  - reflexivity.
  - split; [by repeat constructor|]. by_decide.
  - split; [reflexivity|]. split; [discriminate|]. by split_and!.
  - reflexivity.
  - reflexivity.
  - repeat constructor; discriminate.
  - exists buf, r'. split; [exact E|]. destruct Hr as (_ & _ & Hs & _ & Hb & _). split; [by rewrite Hs|].
    split; [exact Hb|]. apply Hc. intros [].
Defined.

(** ** What belongs to no message *)

(** Fact (error): data that arrives after the end of a response finishes it again.
    Whatever the bytes, [readData] on a finished response consumes nothing and calls
    the finished callback once more. (The end of a chunked body is seen at the line
    of its last chunk, so the line break that ends the message is such data when the
    network delivers it separately.) *)
Theorem late_data_finishes_again io_write poco_read p r :
  rs_parserStage r = PS_Finished ->
  let '(r', n) := response_readData io_write poco_read p r in
  n = 0 /\ rs_state r' = RS_Complete /\ rs_finishedCalls r' = S (rs_finishedCalls r).
Proof.
  intros Hst. unfold response_readData. set (r1 := r <| rs_state := RS_Incomplete |>).
  assert (R1 : rs_parserStage r1 = PS_Finished) by done.
  rewrite R1, bool_decide_eq_false_2 by done. unfold response_header.
  rewrite R1, bool_decide_eq_false_2 by done. cbn [andb]. unfold response_body_end.
  rewrite R1, bool_decide_eq_false_2 by done. cbn [andb]. rewrite R1, bool_decide_eq_true_2 by done.
  split; [lia|]. done.
Qed.

(** The header and the chunk of a response, cut before its last line break. *)
Definition sample_chunked_pieces : list bytes :=
  [str "HTTP/1.1 200 OK" ++ CRLF ++ str "Transfer-Encoding: chunked" ++ CRLF ++ CRLF ++
   chunk_bytes (str "body") ++ str "0" ++ CRLF; CRLF].

Lemma late_data_finishes_again_witness : exists r,
  feed_response (fun _ d => Z.of_nat (length d)) sample_poco (take 1 sample_chunked_pieces) [] Response_new = Some ([], r) /\
  rs_finishedCalls r = 1%nat /\
  rs_finishedCalls (response_readData (fun _ d => Z.of_nat (length d)) sample_poco CRLF r).1 = 2%nat.
Proof.
  eexists. split; [vm_compute; reflexivity|]. split; [reflexivity|].
  match goal with |- rs_finishedCalls (response_readData ?w ?pc ?p ?r).1 = _ =>
    pose proof (late_data_finishes_again w pc p r eq_refl) as H end.
  destruct (response_readData _ _ _ _) as [r' n]. destruct H as (_ & _ & H). exact H.
Defined.

(** Fact (error): a body of announced length takes all that is buffered: bytes that
    follow it, the next message of a pipelining peer, become part of the body. *)
Theorem body_takes_what_follows io_write poco_read b extra r :
  (forall sent d, io_write sent d = Z.of_nat (length d)) ->
  rs_parserStage r = PS_Body -> rs_recvBodySize r = 0 -> b <> [] ->
  getChunkedTransferEncoding (rs_header r) = false -> hasContentLength (rs_header r) = true ->
  getContentLength (rs_header r) = Z.of_nat (length b) ->
  let '(r', n) := response_readData io_write poco_read (b ++ extra) r in
  n = Z.of_nat (length (b ++ extra)) /\ rs_state r' = RS_Complete /\
  received (rs_sink r') = received (rs_sink r) ++ b ++ extra.
Proof.
  intros Hio Hst Hz Hb Hc Hcl Hl. unfold response_readData. set (r1 := r <| rs_state := RS_Incomplete |>).
  assert (R1 : rs_parserStage r1 = PS_Body) by done.
  assert (R2 : rs_header r1 = rs_header r) by done.
  rewrite R1, bool_decide_eq_false_2 by done. unfold response_header.
  rewrite R1, bool_decide_eq_false_2 by done. cbn [andb]. unfold response_body_end.
  rewrite R1, bool_decide_eq_true_2 by done.
  assert (Hne : (0 < length (b ++ extra))%nat) by (destruct b; [done|cbn; lia]).
  destruct (Nat.eqb_spec (length (b ++ extra)) 0); [lia|]. cbn [negb andb].
  unfold parse_response_body. rewrite R2, Hc.
  destruct (on_body_write_all io_write Hio (b ++ extra) (rs_sink r1)) as (s' & -> & Hs').
  destruct (Z.ltb_spec (Z.of_nat (length (b ++ extra))) 0); [lia|].
  destruct (Z.ltb_spec 0 (Z.of_nat (length (b ++ extra)))); [|lia].
  cbn [rset rs_header rs_recvBodySize rs_parserStage rs_sink rs_statusLine rs_state rs_finishedCalls].
  rewrite R2, Hcl, Hl. change (rs_recvBodySize r1) with (rs_recvBodySize r). rewrite Hz. cbn [andb].
  destruct (Z.leb_spec (Z.of_nat (length b)) (0 + Z.of_nat (length (b ++ extra)))); [|rewrite length_app in *; lia].
  cbn [rs_parserStage]. rewrite bool_decide_eq_true_2 by done. split_and!; [lia|done|].
  cbn. by rewrite Hs'.
Qed.

(** Fact (error): a chunk whose length does not start with a digit counts as the last
    one: the body ends, and the rest of the data is thrown away. *)
Theorem bad_chunk_length_ends_body io_write fuel s recv l rest :
  no_lf l -> match l with [] => True | c :: _ => hexDigitFromChar c < 0 end ->
  read_chunks io_write (S fuel) s recv (l ++ chr_newline :: rest) = (s, recv, [], Chunks_last).
Proof.
  intros Hl Hd. cbn [read_chunks]. rewrite length_app. cbn [length].
  destruct (Nat.eqb_spec (length l + S (length rest)) 0); [lia|].
  unfold findLineBreak. rewrite (scan_drop _ _ 0 l chr_newline rest eq_refl Hl) by done.
  destruct (Nat.eqb_spec (0 + length l) (length l + S (length rest))); [lia|].
  assert (Hc : chunk_length (l ++ chr_newline :: rest) 0 = Some 0).
  { destruct l as [|c l]; [done|]. cbn [app chunk_length]. by destruct (Z.ltb_spec (hexDigitFromChar c) 0); [|lia]. }
  by rewrite Hc.
Qed.
