(* ===== verification/JsonUtil.v ===== *)
(** * [JsonUtil]: reading values out of JSON objects

    Models the readers of [common/JsonUtil.hpp] the sessions use: [parseJSON],
    [getJSONValue], [findJSONValue] and the edit distance behind its warning about
    mis-spelt names. Parsing and printing JSON is the Poco library's: an argument,
    [JsonLib]. *)

From S2P Require Import Prelude Util Protocol.

Open Scope cool_scope.

(** ** The JSON library *)

(** [Poco::JSON::Object], [Poco::Dynamic::Var] and the parser. A conversion that
    throws is [None]. *)
Record JsonLib := {
  js_object : Type;
  js_var : Type;
  js_parse : bytes -> option js_object;              (* [parser.parse(s).extract<Object::Ptr>()] *)
  js_get : js_object -> bytes -> option js_var;      (* [object->get(key)]; [None]: [isEmpty()] *)
  js_names : js_object -> list bytes;                (* [object->getNames] *)
  js_getObject : js_object -> bytes -> option js_object;
  js_string : js_var -> option bytes;                (* [convert<std::string>()] *)
  js_int : js_var -> option Z;
  js_bool : js_var -> option bool;
  js_set : js_object -> bytes -> bytes -> js_object; (* [object->set(key, text)] *)
  js_setObject : js_object -> bytes -> js_object -> js_object;
  js_new : js_object;                                (* [new Object()] *)
  js_stringify : js_object -> bytes }.

Section json.
Context (js : JsonLib).

(** [parseJSON]: what precedes the first brace is skipped. *)
Definition parseJSON (json : bytes) : option (js_object js) :=
  match find_sub [123] json with
  | Some index => js_parse js (drop index json)
  | None => None
  end.

(** ** The edit distance *)

(** Row [i] of the matrix from the row above; [left] is the entry just written. *)
Fixpoint lev_cells (c : Z) (left : nat) (above : list nat) (string2 : bytes) : list nat :=
  match string2, above with
  | d :: string2', diag :: ((up :: _) as above') =>
      let v := if c =? d then diag else S (Nat.min (Nat.min left up) diag) in
      v :: lev_cells c v above' string2'
  | _, _ => []
  end.
Fixpoint lev_rows (i : nat) (above : list nat) (string1 string2 : bytes) : list nat :=
  match string1 with
  | [] => above
  | c :: string1' => lev_rows (S i) (S i :: lev_cells c (S i) above string2) string1' string2
  end.
(** [matrix[string1.size()][string2.size()]]. *)
Definition getLevenshteinDist (string1 string2 : bytes) : nat :=
  List.last (lev_rows 0 (seq 0 (S (length string2))) string1 string2) 0%nat.

(** ** Values *)

(** [getJSONValue<T>(key, var)]: [conv] is [convert<T>()] and [default] is [T()];
    converting an empty [Var] throws. *)
Definition getJSONValue {T} (conv : js_var js -> option T) (dflt : T) (v : option (js_var js)) : T :=
  match v with
  | Some v => match conv v with Some t => t | None => dflt end
  | None => dflt
  end.

(** The names tried once there is no exact match with a value. *)
Fixpoint find_misspelt {T} (conv : js_var js -> option T) (dflt : T) (object : js_object js) (key : bytes)
    (names : list bytes) (value : T) : T * bool :=
  match names with
  | [] => (value, false)
  | userInput :: names' =>
      if beq key userInput then (getJSONValue conv dflt (js_get js object userInput), true)
      else if (2 <? getLevenshteinDist (toLower key) (toLower userInput))%nat
           then find_misspelt conv dflt object key names' value
           else (value, false)
  end.

(** [findJSONValue(object, key, value)]: the value and whether it was found. *)
Definition findJSONValue {T} (conv : js_var js -> option T) (dflt : T) (object : js_object js) (key : bytes)
    (value : T) : T * bool :=
  match js_get js object key with
  | Some v => (getJSONValue conv dflt (Some v), true)
  | None => find_misspelt conv dflt object key (js_names js object) value
  end.

Definition findJSONString (object : js_object js) (key value : bytes) : bytes :=
  (findJSONValue (js_string js) [] object key value).1.
Definition findJSONBool (object : js_object js) (key : bytes) (value : bool) : bool :=
  (findJSONValue (js_bool js) false object key value).1.
End json.

(** ** The edit distance is the least number of edits *)

(** One insertion, deletion or replacement of a character. *)
Inductive edit1 : bytes -> bytes -> Prop :=
| edit_insert p q c : edit1 (p ++ q) (p ++ c :: q)
| edit_delete p q c : edit1 (p ++ c :: q) (p ++ q)
| edit_replace p q c d : edit1 (p ++ c :: q) (p ++ d :: q).

(** [edits n s t]: [n] edits lead from [s] to [t]. *)
Inductive edits : nat -> bytes -> bytes -> Prop :=
| edits_none s : edits 0 s s
| edits_step n s t u : edits n s t -> edit1 t u -> edits (S n) s u.

(** An alignment of [s] with [t] that costs [n]. *)
Inductive align : nat -> bytes -> bytes -> Prop :=
| al_nil : align 0 [] []
| al_keep n s t c : align n s t -> align n (c :: s) (c :: t)
| al_subst n s t c d : align n s t -> align (S n) (c :: s) (d :: t)
| al_ins n s t d : align n s t -> align (S n) s (d :: t)
| al_del n s t c : align n s t -> align (S n) (c :: s) t.

Create HintDb align.
#[local] Hint Constructors align : align.

Lemma align_refl s : align 0 s s.
Proof. induction s; eauto with align. Qed.

Lemma align_app n m s t s' t' : align n s t -> align m s' t' -> align (n + m) (s ++ s') (t ++ t').
Proof. intros H H'. induction H; simpl; eauto with align. Qed.

Lemma align_split n s p q :
  align n s (p ++ q) -> exists s1 s2 n1 n2, s = s1 ++ s2 /\ n = (n1 + n2)%nat /\ align n1 s1 p /\ align n2 s2 q.
Proof.
  intros H. remember (p ++ q) as t eqn:E. revert p q E.
  induction H as [|n s t c H IH|n s t c d H IH|n s t d H IH|n s t c H IH]; intros p q E.
  - symmetry in E. apply app_eq_nil in E as [-> ->]. exists [], [], 0%nat, 0%nat. eauto with align.
  - destruct p as [|a p]; simpl in E.
    + subst q. exists [], (c :: s), 0%nat, n. eauto with align.
    + injection E as -> ->. destruct (IH p q eq_refl) as (s1 & s2 & n1 & n2 & -> & -> & H1 & H2).
      exists (a :: s1), s2, n1, n2. eauto with align.
  - destruct p as [|a p]; simpl in E.
    + subst q. exists [], (c :: s), 0%nat, (S n). eauto with align.
    + injection E as -> ->. destruct (IH p q eq_refl) as (s1 & s2 & n1 & n2 & -> & -> & H1 & H2).
      exists (c :: s1), s2, (S n1), n2. eauto with align.
  - destruct p as [|a p]; simpl in E.
    + subst q. exists [], s, 0%nat, (S n). eauto with align.
    + injection E as -> ->. destruct (IH p q eq_refl) as (s1 & s2 & n1 & n2 & -> & -> & H1 & H2).
      exists s1, s2, (S n1), n2. eauto with align.
  - destruct (IH p q E) as (s1 & s2 & n1 & n2 & -> & -> & H1 & H2).
    exists (c :: s1), s2, (S n1), n2. eauto with align.
Qed.

(** Changing the first character of the target costs at most one. *)
Lemma align_tail n s d t : align n s (d :: t) -> exists m, (m <= S n)%nat /\ align m s t.
Proof.
  intros H. remember (d :: t) as u eqn:E. revert d t E.
  induction H as [|n s u c H IH|n s u c e H IH|n s u e H IH|n s u c H IH]; intros d t E; try done.
  - injection E as <- <-. exists (S n). split; [lia|]. eauto with align.
  - injection E as <- <-. exists (S n). split; [lia|]. eauto with align.
  - injection E as <- <-. exists n. split; [lia|done].
  - destruct (IH d t E) as (m & ? & ?). exists (S m). split; [lia|]. eauto with align.
Qed.
Lemma align_head n s d e t : align n s (d :: t) -> exists m, (m <= S n)%nat /\ align m s (e :: t).
Proof.
  intros H. remember (d :: t) as u eqn:E. revert d t E.
  induction H as [|n s u c H IH|n s u c f H IH|n s u f H IH|n s u c H IH]; intros d t E; try done.
  - injection E as <- <-. exists (S n). split; [lia|]. eauto with align.
  - injection E as <- <-. exists (S n). split; [lia|]. eauto with align.
  - injection E as <- <-. exists (S n). split; [lia|]. eauto with align.
  - destruct (IH d t E) as (m & ? & ?). exists (S m). split; [lia|]. eauto with align.
Qed.

Lemma align_edit1 n s t u : align n s t -> edit1 t u -> exists m, (m <= S n)%nat /\ align m s u.
Proof.
  intros H E. destruct E as [p q c|p q c|p q c d];
    destruct (align_split _ _ _ _ H) as (s1 & s2 & n1 & n2 & -> & -> & H1 & H2).
  - exists (n1 + S n2)%nat. split; [lia|]. apply align_app; eauto with align.
  - apply align_tail in H2 as (m & ? & ?). exists (n1 + m)%nat. split; [lia|]. by apply align_app.
  - apply (align_head _ _ _ d) in H2 as (m & ? & ?). exists (n1 + m)%nat. split; [lia|]. by apply align_app.
Qed.

Lemma edits_align n s t : edits n s t -> exists m, (m <= n)%nat /\ align m s t.
Proof.
  induction 1 as [s|n s t u H (m & Hm & IH) E]; [exists 0%nat; split; [lia|apply align_refl]|].
  destruct (align_edit1 _ _ _ _ IH E) as (k & ? & ?). exists k. split; [lia|done].
Qed.

Lemma edits_cons n s t c : edits n s t -> edits n (c :: s) (c :: t).
Proof.
  induction 1 as [s|n s t u H IH E]; [constructor|]. econstructor; [exact IH|].
  destruct E as [p q d|p q d|p q d e]; [apply (edit_insert (c :: p))|apply (edit_delete (c :: p))|apply (edit_replace (c :: p))].
Qed.
Lemma edits_first n s t u : edit1 s t -> edits n t u -> edits (S n) s u.
Proof.
  intros E H. induction H as [t|n t u v H IH E']; [econstructor; [constructor|done]|].
  econstructor; [by apply IH|done].
Qed.
Lemma align_edits n s t : align n s t -> edits n s t.
Proof.
  induction 1 as [|n s t c H IH|n s t c d H IH|n s t d H IH|n s t c H IH].
  - constructor.
  - by apply edits_cons.
  - eapply edits_first; [apply (edit_replace [] s c d)|]. by apply edits_cons.
  - econstructor; [exact IH|]. apply (edit_insert [] t d).
  - eapply edits_first; [apply (edit_delete [] s c)|exact IH].
Qed.

(** ** The matrix *)

(** The distance by recursion on both ends; the reference the matrix tabulates. *)
Fixpoint lev_spec (s : bytes) : bytes -> nat :=
  match s with
  | [] => fun t => length t
  | c :: s' => fix row (t : bytes) : nat :=
      match t with
      | [] => length (c :: s')
      | d :: t' => if c =? d then lev_spec s' t'
                   else S (Nat.min (Nat.min (row t') (lev_spec s' t)) (lev_spec s' t'))
      end
  end.

Lemma lev_spec_nil_r s : lev_spec s [] = length s.
Proof. by destruct s. Qed.
Lemma lev_spec_cons c s d t :
  lev_spec (c :: s) (d :: t) =
  if c =? d then lev_spec s t
  else S (Nat.min (Nat.min (lev_spec (c :: s) t) (lev_spec s (d :: t))) (lev_spec s t)).
Proof. done. Qed.

Lemma align_nil_l t : align (length t) [] t.
Proof. induction t; simpl; eauto with align. Qed.
Lemma align_nil_r s : align (length s) s [].
Proof. induction s; simpl; eauto with align. Qed.
Lemma align_length n s t : align n s t -> (length s <= n + length t)%nat /\ (length t <= n + length s)%nat.
Proof. induction 1; simpl; lia. Qed.
Lemma align_sym n s t : align n s t -> align n t s.
Proof. induction 1; eauto with align. Qed.
Lemma align_rev n s t : align n s t -> align n (rev s) (rev t).
Proof.
  induction 1 as [|n s t c H IH|n s t c d H IH|n s t d H IH|n s t c H IH]; simpl; [constructor| | | |].
  - replace n with (n + 0)%nat by lia. apply align_app; eauto with align.
  - replace (S n) with (n + 1)%nat by lia. apply align_app; eauto with align.
  - rewrite <- (app_nil_r (rev s)). replace (S n) with (n + 1)%nat by lia. apply align_app; eauto with align.
  - rewrite <- (app_nil_r (rev t)). replace (S n) with (n + 1)%nat by lia. apply align_app; eauto with align.
Qed.

Lemma lev_spec_align s t : align (lev_spec s t) s t.
Proof.
  revert t. induction s as [|c s IHs]; intros t; [apply align_nil_l|].
  induction t as [|d t IHt]; [apply align_nil_r|]. rewrite lev_spec_cons.
  destruct (Z.eqb_spec c d) as [->|]; [by apply al_keep|].
  destruct (Nat.min_dec (Nat.min (lev_spec (c :: s) t) (lev_spec s (d :: t))) (lev_spec s t)) as [->| ->];
    [|by apply al_subst].
  destruct (Nat.min_dec (lev_spec (c :: s) t) (lev_spec s (d :: t))) as [->| ->];
    [by apply al_ins|by apply al_del].
Qed.

Lemma lev_spec_least n s t : align n s t -> (lev_spec s t <= n)%nat.
Proof.
  revert n t. induction s as [|c s IHs]; intros n t H; [apply align_length in H; simpl in *; lia|].
  revert n H. induction t as [|d t IHt]; intros n H; [apply align_length in H; simpl in *; lia|].
  rewrite lev_spec_cons.
  inversion H as [|m s' t' c' H'|m s' t' c' d' H'|m s' t' d' H'|m s' t' c' H']; subst.
  - rewrite Z.eqb_refl. by apply IHs.
  - apply IHs in H'. destruct (c =? d); lia.
  - destruct (Z.eqb_spec c d) as [->|].
    + apply align_sym, align_tail in H' as (k & Hk & H'). apply align_sym, IHs in H'. lia.
    + apply IHt in H'. lia.
  - destruct (Z.eqb_spec c d) as [->|].
    + apply align_tail in H' as (k & Hk & H'). apply IHs in H'. lia.
    + apply IHs in H'. lia.
Qed.

(** Row of the matrix: the prefix of the first string and what the second string
    already gave are reversed. *)
Fixpoint lev_row (r1 r2 string2 : bytes) : list nat :=
  lev_spec r1 r2 :: match string2 with [] => [] | d :: rest => lev_row r1 (d :: r2) rest end.

Lemma lev_cells_row c r1 r2 string2 :
  lev_spec (c :: r1) r2 :: lev_cells c (lev_spec (c :: r1) r2) (lev_row r1 r2 string2) string2
  = lev_row (c :: r1) r2 string2.
Proof.
  revert r2. induction string2 as [|d rest IH]; intros r2; [done|].
  transitivity (lev_spec (c :: r1) r2 :: lev_spec (c :: r1) (d :: r2) ::
    lev_cells c (lev_spec (c :: r1) (d :: r2)) (lev_row r1 (d :: r2) rest) rest); [by destruct rest|].
  by rewrite IH.
Qed.

Lemma lev_rows_row i r1 string1 string2 :
  i = length r1 ->
  lev_rows i (lev_row r1 [] string2) string1 string2 = lev_row (rev string1 ++ r1) [] string2.
Proof.
  revert i r1. induction string1 as [|c rest IH]; intros i r1 ->; [done|]. simpl.
  replace (S (length r1)) with (lev_spec (c :: r1) []) by done.
  rewrite lev_cells_row. simpl lev_spec. rewrite (IH (S (length r1)) (c :: r1)) by done. by rewrite <- app_assoc.
Qed.

Lemma lev_row_first r2 string2 : lev_row [] r2 string2 = seq (length r2) (S (length string2)).
Proof. revert r2. induction string2 as [|d rest IH]; intros r2; [done|]. simpl. by rewrite IH. Qed.
Lemma lev_row_last r1 r2 string2 : List.last (lev_row r1 r2 string2) 0%nat = lev_spec r1 (rev string2 ++ r2).
Proof.
  revert r2. induction string2 as [|d rest IH]; intros r2; [done|].
  simpl rev. rewrite <- app_assoc. simpl. rewrite <- IH. by destruct rest.
Qed.

Lemma getLevenshteinDist_spec s t : getLevenshteinDist s t = lev_spec (rev s) (rev t).
Proof.
  unfold getLevenshteinDist. change 0%nat with (length (@nil Z)) at 2. rewrite <- lev_row_first.
  rewrite lev_rows_row by done. rewrite lev_row_last. by rewrite !app_nil_r.
Qed.

(** ** Property *)

(** Fact (equivalence): the matrix of [getLevenshteinDist] computes the edit distance:
    that many insertions, deletions and replacements of one character lead from the first
    string to the second, and no fewer do. *)
Theorem getLevenshteinDist_least s t :
  edits (getLevenshteinDist s t) s t /\ forall n, edits n s t -> (getLevenshteinDist s t <= n)%nat.
Proof.
  rewrite getLevenshteinDist_spec. split.
  - apply align_edits. pose proof (align_rev _ _ _ (lev_spec_align (rev s) (rev t))) as H.
    by rewrite !rev_involutive in H.
  - intros n H. apply edits_align in H as (m & Hm & H). apply align_rev, lev_spec_least in H. lia.
Qed.

Example getLevenshteinDist_ex : getLevenshteinDist (str "darktheme") (str "drakthem") = 3%nat.
Proof. reflexivity. Qed.
