(* ===== verification/LoadOptions.v ===== *)
(** * The options of a document load

    A client's [load] line becomes the load message of the broker to the kit, and
    the kit's session reads that message again. Models [Session::parseDocOptions]
    ([common/Session.cpp], run at both ends), [ClientSession::overrideDocOption] and
    the message of [ClientSession::loadDocument] ([wsd/ClientSession.cpp]), and what
    [DocumentBroker::forwardToChild] makes of it ([wsd/DocumentBroker.cpp]). User data
    is not anonymized, and the features of locked and restricted commands are not
    built in. *)

From S2P Require Import Prelude RecordSet StateError Util StringVector Protocol JsonUtil.

Open Scope cool_scope.
Open Scope record_scope.

(** ** Data *)

(** What [Session] holds of the permissions to edit. *)
Record Permissions := {
  pm_isReadOnly : bool;
  pm_isAllowChangeComments : bool;
  pm_isAllowManageRedlines : bool }.

#[export] Instance Permissions_settable : Settable Permissions := fun p =>
  {| pm_isReadOnly := pm_isReadOnly p; pm_isAllowChangeComments := pm_isAllowChangeComments p;
     pm_isAllowManageRedlines := pm_isAllowManageRedlines p |}.

(** The other fields of [Session] a load line reads or sets. *)
Record SessionData := {
  so_docURL : bytes;
  so_jailedFilePath : bytes;
  so_jailedFilePathAnonym : bytes;
  so_docPassword : bytes;
  so_haveDocPassword : bool;
  so_docOptions : bytes;
  so_userId : bytes;
  so_userIdAnonym : bytes;
  so_userName : bytes;
  so_userNameAnonym : bytes;
  so_userExtraInfo : bytes;
  so_userPrivateInfo : bytes;
  so_serverPrivateInfo : bytes;
  so_watermarkText : bytes;
  so_watermarkOpacity : Z;          (* the bits of the double *)
  so_lang : bytes;
  so_timeZone : bytes;
  so_deviceFormFactor : bytes;
  so_spellOnline : bytes;
  so_darkTheme : bytes;
  so_darkBackground : bytes;
  so_batch : bytes;
  so_enableMacrosExecution : bytes;
  so_macroSecurityLevel : bytes;
  so_initialClientVisibleArea : bytes;
  so_docTemplate : bytes;
  so_accessibilityState : bool;
  so_disableVerifyHost : bool;
  so_inFilterOptions : bytes }.

#[export] Instance SessionData_settable : Settable SessionData := fun d =>
  {| so_docURL := so_docURL d; so_jailedFilePath := so_jailedFilePath d;
     so_jailedFilePathAnonym := so_jailedFilePathAnonym d; so_docPassword := so_docPassword d;
     so_haveDocPassword := so_haveDocPassword d; so_docOptions := so_docOptions d; so_userId := so_userId d;
     so_userIdAnonym := so_userIdAnonym d; so_userName := so_userName d; so_userNameAnonym := so_userNameAnonym d;
     so_userExtraInfo := so_userExtraInfo d; so_userPrivateInfo := so_userPrivateInfo d;
     so_serverPrivateInfo := so_serverPrivateInfo d; so_watermarkText := so_watermarkText d;
     so_watermarkOpacity := so_watermarkOpacity d; so_lang := so_lang d; so_timeZone := so_timeZone d;
     so_deviceFormFactor := so_deviceFormFactor d; so_spellOnline := so_spellOnline d;
     so_darkTheme := so_darkTheme d; so_darkBackground := so_darkBackground d; so_batch := so_batch d;
     so_enableMacrosExecution := so_enableMacrosExecution d; so_macroSecurityLevel := so_macroSecurityLevel d;
     so_initialClientVisibleArea := so_initialClientVisibleArea d; so_docTemplate := so_docTemplate d;
     so_accessibilityState := so_accessibilityState d; so_disableVerifyHost := so_disableVerifyHost d;
     so_inFilterOptions := so_inFilterOptions d |}.

(** The locals of a parse and the session it changes. *)
Record ParseState := {
  ps_data : SessionData;
  ps_perm : Permissions;
  ps_offset : nat;
  ps_part : Z;
  ps_timestamp : bytes }.

#[export] Instance ParseState_settable : Settable ParseState := fun s =>
  {| ps_data := ps_data s; ps_perm := ps_perm s; ps_offset := ps_offset s; ps_part := ps_part s;
     ps_timestamp := ps_timestamp s |}.

(** Functions of the libraries on texts. *)
Record TextLib := {
  tl_decode : bytes -> option bytes;  (* [Poco::URI::decode]; [None]: it throws a [SyntaxException] *)
  tl_encode : bytes -> bytes;         (* [Poco::URI::encode(s, "", result)] *)
  tl_stod : bytes -> option Z }.      (* [std::stod], the bits of the double; [None]: it throws *)

(** ** [Util::replace] *)

Fixpoint replace_from (fuel : nat) (from to s : bytes) : bytes :=
  match fuel with
  | O => s
  | S fuel' =>
      match find_sub from s with
      | None => s
      | Some pos => take pos s ++ to ++ replace_from fuel' from to (drop (pos + length from) s)
      end
  end.
Definition replace (s from to : bytes) : bytes :=
  match from with [] => s | _ => replace_from (S (length s)) from to s end.

(** ** [Session::parseDocOptions] *)

Section parse.
Context (tl : TextLib) (js : JsonLib).

Definition setSignToUserPrivateConfig (key : bytes) (signatureData userPrivateInfo : js_object js) : js_object js :=
  match js_get js signatureData key with
  | None => userPrivateInfo
  | Some v =>
      match js_string js v with
      | None => userPrivateInfo
      | Some componentValue =>
          js_set js userPrivateInfo key (replace componentValue (str "\n") [chr_newline])
      end
  end.

(** The [signatureconfig] option: the private info it leaves. *)
Definition signature_config (decoded : bytes) (userPrivateInfo : bytes) : bytes :=
  if beq decoded (str "{}") then userPrivateInfo
  else match parseJSON js decoded with
       | None => userPrivateInfo
       | Some signatureDataObject =>
           match parseJSON js userPrivateInfo with
           | None => userPrivateInfo
           | Some object =>
               let object := setSignToUserPrivateConfig (str "SignatureCert") signatureDataObject object in
               let object := setSignToUserPrivateConfig (str "SignatureKey") signatureDataObject object in
               let object := setSignToUserPrivateConfig (str "SignatureCa") signatureDataObject object in
               js_stringify js object
           end
       end.

Abbreviation PS := (SE ParseState).

(** A recognized option counts towards [offset]. *)
Definition set_data (f : SessionData -> SessionData) : PS unit :=
  se_modify (fun s => s <| ps_data ::= f |> <| ps_offset ::= S |>).
Definition set_perm (f : Permissions -> Permissions) : PS unit :=
  se_modify (fun s => s <| ps_perm ::= f |> <| ps_offset ::= S |>).
(** [Uri::decode(value)]. *)
Definition decode (value : bytes) : PS bytes :=
  match tl_decode tl value with Some v => se_ret v | None => se_throw SyntaxException end.
Definition set_decoded (value : bytes) (f : bytes -> SessionData -> SessionData) : PS unit :=
  do v <- decode value; set_data (f v).

(** The body of the loop for one name and value. *)
Definition set_option (name value : bytes) : PS unit :=
  if beq name (str "url") then set_data (fun d => d <| so_docURL := value |>)
  else if beq name (str "jail") then set_data (fun d => d <| so_jailedFilePath := value |>)
  else if beq name (str "xjail") then set_data (fun d => d <| so_jailedFilePathAnonym := value |>)
  else if beq name (str "authorid") then set_decoded value (fun v d => d <| so_userId := v |>)
  else if beq name (str "xauthorid") then set_decoded value (fun v d => d <| so_userIdAnonym := v |>)
  else if beq name (str "author") then set_decoded value (fun v d => d <| so_userName := v |>)
  else if beq name (str "xauthor") then set_decoded value (fun v d => d <| so_userNameAnonym := v |>)
  else if beq name (str "authorextrainfo") then set_decoded value (fun v d => d <| so_userExtraInfo := v |>)
  else if beq name (str "authorprivateinfo") then set_decoded value (fun v d => d <| so_userPrivateInfo := v |>)
  else if beq name (str "signatureconfig") then
    do s <- se_get;
    if beq (so_userPrivateInfo (ps_data s)) [] then set_data id
    else set_decoded value (fun v d => d <| so_userPrivateInfo ::= signature_config v |>)
  else if beq name (str "serverprivateinfo") then set_decoded value (fun v d => d <| so_serverPrivateInfo := v |>)
  else if beq name (str "readonly") then set_perm (fun p => p <| pm_isReadOnly := negb (beq value (str "0")) |>)
  else if beq name (str "password") then
    set_data (fun d => d <| so_docPassword := value |> <| so_haveDocPassword := true |>)
  else if beq name (str "lang") then
    set_data (fun d => d <| so_lang := if beq value (str "en") then str "en-US" else value |>)
  else if beq name (str "timezone") then set_data (fun d => d <| so_timeZone := value |>)
  else if beq name (str "watermarkText") then set_decoded value (fun v d => d <| so_watermarkText := v |>)
  else if beq name (str "watermarkOpacity") then
    match tl_stod tl value with
    | Some x => set_data (fun d => d <| so_watermarkOpacity := x |>)
    | None => se_throw invalid_argument
    end
  else if beq name (str "timestamp") then
    se_modify (fun s => s <| ps_timestamp := value |> <| ps_offset ::= S |>)
  else if beq name (str "template") then set_data (fun d => d <| so_docTemplate := value |>)
  else if beq name (str "deviceFormFactor") then set_data (fun d => d <| so_deviceFormFactor := value |>)
  else if beq name (str "spellOnline") then set_data (fun d => d <| so_spellOnline := value |>)
  else if beq name (str "darkTheme") then set_data (fun d => d <| so_darkTheme := value |>)
  else if beq name (str "darkBackground") then set_data (fun d => d <| so_darkBackground := value |>)
  else if beq name (str "batch") then set_data (fun d => d <| so_batch := value |>)
  else if beq name (str "enableMacrosExecution") then set_data (fun d => d <| so_enableMacrosExecution := value |>)
  else if beq name (str "macroSecurityLevel") then set_data (fun d => d <| so_macroSecurityLevel := value |>)
  else if beq name (str "clientvisiblearea") then set_data (fun d => d <| so_initialClientVisibleArea := value |>)
  else if beq name (str "accessibilityState") then
    set_data (fun d => d <| so_accessibilityState := beq value (str "true") |>)
  else if beq name (str "isAllowChangeComments") then
    set_perm (fun p => p <| pm_isAllowChangeComments := beq value (str "true") |>)
  else if beq name (str "isAllowManageRedlines") then
    set_perm (fun p => p <| pm_isAllowManageRedlines := beq value (str "true") |>)
  else if beq name (str "verifyHost") then
    set_data (fun d => d <| so_disableVerifyHost := beq value (str "false") |>)
  else if beq name (str "infilterOptions") then set_data (fun d => d <| so_inFilterOptions := value |>)
  else se_ret tt.

(** One token of the loop. *)
Definition option_token (token : bytes) : PS unit :=
  match parseNameValuePair token chr_eq with
  | None => se_ret tt
  | Some (name, value) => set_option name value
  end.

(** The [options] behind [offset]. *)
Definition doc_options (tokens : StringVector) (offset : nat) (docOptions : bytes) : bytes :=
  if (offset <? sv_size tokens)%nat then
    match getTokenString (sv_get tokens offset) (str "options") with
    | None => docOptions
    | Some v =>
        if (offset + 1 <? sv_size tokens)%nat then v ++ cat tokens [chr_space] (offset + 1) None else v
    end
  else docOptions.

Definition disableSpellCheckIfReadOnly (p : Permissions) (d : SessionData) : SessionData :=
  if pm_isReadOnly p then d <| so_spellOnline := str "false" |> else d.

(** A leading [part=]. *)
Definition leading_part (tokens : StringVector) (s : ParseState) : ParseState :=
  if (2 <? sv_size tokens)%nat && starts_with (str "part=") (sv_get tokens 1) then
    s <| ps_part := default (ps_part s) (getTokenInteger (sv_get tokens 1) (str "part")).1 |> <| ps_offset := 2%nat |>
  else s <| ps_offset := 1%nat |>.

Definition finish_options (tokens : StringVector) (s : ParseState) : ParseState :=
  s <| ps_data ::= fun d => d <| so_docOptions ::= doc_options tokens (ps_offset s) |> |>
    <| ps_data ::= disableSpellCheckIfReadOnly (ps_perm s) |>.

Definition parseDocOptions (tokens : StringVector) : PS unit :=
  exec se_modify (leading_part tokens);
  do s <- se_get;
  exec se_iter option_token (drop (ps_offset s) (sv_strings tokens));
  se_modify (finish_options tokens).

(** ** [ClientSession::overrideDocOption] *)

(** [_sentBrowserSetting] and [_browserSettingsJSON]. *)
Record BrowserSettings := { bs_sent : bool; bs_json : js_object js }.

Definition overrideDocOption (bs : BrowserSettings) (d : SessionData) : SessionData :=
  if negb (bs_sent bs) then d
  else
    let spellOnline := findJSONString js (bs_json bs) (str "spellOnline") [] in
    let darkTheme := findJSONString js (bs_json bs) (str "darkTheme") [] in
    let accessibilityState := findJSONString js (bs_json bs) (str "accessibilityState") [] in
    let '(d, darkBackgroundForTheme) :=
      match js_getObject js (bs_json bs) (str "darkBackgroundForTheme") with
      | None => (d <| so_darkBackground := darkTheme |>, [])
      | Some darkBackgroundObj =>
          (d, findJSONString js darkBackgroundObj
                (if beq darkTheme (str "true") then str "dark" else str "light") [])
      end in
    let d := if beq darkTheme [] then d else d <| so_darkTheme := darkTheme |> in
    let d := if beq darkBackgroundForTheme [] then d else d <| so_darkBackground := darkBackgroundForTheme |> in
    let d := if beq spellOnline [] then d else d <| so_spellOnline := spellOnline |> in
    if beq accessibilityState [] then d
    else d <| so_accessibilityState := beq accessibilityState (str "true") |>.

(** ** The load message *)

(** What [loadDocument] and the broker read besides the session. *)
Record LoadConfig := {
  lc_publicUri : bytes;               (* [docBroker->getPublicUri().toString()] *)
  lc_clientVerificationDisabled : bool;
  lc_watermarkOpacity : bytes;        (* [watermark.opacity], as the stream prints it *)
  lc_enableMacrosExecution : option bool;  (* [None]: the property is not set *)
  lc_macroSecurityLevel : option Z;
  lc_accessibilityEnable : bool;
  lc_templateSource : bytes;          (* of the session's WOPI file info; empty without one *)
  lc_additionalTemplate : option bytes;    (* [getAdditionalFileUrisJailed()], "template" *)
  lc_uriJailed : bytes;
  lc_uriJailedAnonym : bytes;
  lc_isViewSettingsUpdated : bool;
  lc_signatureCertificate : bytes;
  lc_signatureKey : bytes;
  lc_signatureCa : bytes }.

Definition bool_word (b : bool) : bytes := if b then str "true" else str "false".

(** [oss << " name=" << value], when [c]. *)
Definition field (c : bool) (name value : bytes) : list bytes := if c then [name ++ [chr_eq] ++ value] else [].
Definition text_field (name value : bytes) : list bytes := field (negb (beq value [])) name value.
Definition encoded_field (name value : bytes) : list bytes := field (negb (beq value [])) name (tl_encode tl value).

Definition named (d : SessionData) : bool := negb (beq (so_userId d) []) && negb (beq (so_userName d) []).

Definition template_options (template : bytes) : bytes :=
  let q := [34] in
  str "{" ++ q ++ str "TemplateURL" ++ q ++ str ":{" ++ q ++ str "type" ++ q ++ str ":" ++ q ++ str "string" ++ q
  ++ str "," ++ q ++ str "value" ++ q ++ str ":" ++ q ++ template ++ q ++ str "}}".

(** The pieces of the stream after [load url=], each behind a blank; [part] is the
    part the client asked for. *)
Definition load_user (d : SessionData) : list bytes :=
  field (named d) (str "authorid") (tl_encode tl (so_userId d))
  ++ field (named d) (str "xauthorid") (tl_encode tl (so_userId d))
  ++ field (named d) (str "author") (tl_encode tl (so_userName d))
  ++ field (named d) (str "xauthor") (tl_encode tl (so_userName d))
  ++ encoded_field (str "authorextrainfo") (so_userExtraInfo d)
  ++ encoded_field (str "authorprivateinfo") (so_userPrivateInfo d)
  ++ encoded_field (str "serverprivateinfo") (so_serverPrivateInfo d).
Definition load_permissions (p : Permissions) : list bytes :=
  field true (str "readonly") (if pm_isReadOnly p then str "1" else str "0")
  ++ field (pm_isAllowChangeComments p) (str "isAllowChangeComments") (str "true")
  ++ field (pm_isAllowManageRedlines p) (str "isAllowManageRedlines") (str "true").
Definition load_view (d : SessionData) (part : Z) : list bytes :=
  field (0 <=? part) (str "part") (to_string part)
  ++ field (so_haveDocPassword d) (str "password") (so_docPassword d)
  ++ text_field (str "lang") (so_lang d)
  ++ text_field (str "deviceFormFactor") (so_deviceFormFactor d)
  ++ text_field (str "timezone") (so_timeZone d)
  ++ text_field (str "spellOnline") (so_spellOnline d)
  ++ text_field (str "darkTheme") (so_darkTheme d)
  ++ text_field (str "darkBackground") (so_darkBackground d).
Definition load_settings (lc : LoadConfig) (d : SessionData) : list bytes :=
  encoded_field (str "watermarkText") (so_watermarkText d)
  ++ field (negb (beq (so_watermarkText d) [])) (str "watermarkOpacity") (lc_watermarkOpacity lc)
  ++ match lc_enableMacrosExecution lc with
     | Some b => field true (str "enableMacrosExecution") (bool_word b) | None => [] end
  ++ match lc_macroSecurityLevel lc with
     | Some n => field true (str "macroSecurityLevel") (to_string n) | None => [] end
  ++ text_field (str "clientvisiblearea") (so_initialClientVisibleArea d)
  ++ field (lc_accessibilityEnable lc) (str "accessibilityState") (bool_word (so_accessibilityState d)).
Definition load_tail (lc : LoadConfig) (d : SessionData) : list bytes :=
  text_field (str "options") (so_docOptions d)
  ++ text_field (str "template") (lc_templateSource lc)
  ++ text_field (str "batch") (so_batch d)
  ++ (if beq (so_inFilterOptions d) []
      then match lc_additionalTemplate lc with
           | Some template => field true (str "infilterOptions") (template_options template)
           | None => []
           end
      else text_field (str "infilterOptions") (so_inFilterOptions d)).
Definition load_fields (lc : LoadConfig) (p : Permissions) (d : SessionData) (part : Z) : list bytes :=
  field (lc_clientVerificationDisabled lc) (str "verifyHost") (str "false")
  ++ load_user d ++ load_permissions p ++ load_view d part ++ load_settings lc d ++ load_tail lc d.

(** [oss.str()]. *)
Definition load_message (lc : LoadConfig) (p : Permissions) (d : SessionData) (part : Z) : bytes :=
  str "load url=" ++ lc_publicUri lc ++ join_with chr_space (load_fields lc p d part).

(** ** The broker's side *)

Definition applySignViewSettings (lc : LoadConfig) (message : bytes) : bytes :=
  if negb (lc_isViewSettingsUpdated lc) then message
  else
    let o := js_set js (js_new js) (str "SignatureCert") (lc_signatureCertificate lc) in
    let o := js_set js o (str "SignatureKey") (lc_signatureKey lc) in
    let o := js_set js o (str "SignatureCa") (lc_signatureCa lc) in
    message ++ str " signatureconfig=" ++ tl_encode tl (js_stringify js o).

(** [settings] are those of the view's session, when the broker knows it. *)
Definition applyBrowserAccessibility (settings : option BrowserSettings) (message : bytes) : bytes :=
  let accessibilityEnabled :=
    match settings with
    | Some bs => findJSONBool js (bs_json bs) (str "accessibilityState") false
    | None => false
    end in
  if negb accessibilityEnabled then message
  else
    let tokens := sv_strings (tokenize message chr_space) in
    let is_state t := starts_with (str "accessibilityState") t in
    let on := str "accessibilityState=true" in
    let result := map (fun t => if is_state t then on else t) tokens in
    let joined := match result with [] => [] | t :: ts => t ++ join_with chr_space ts end in
    if existsb is_state tokens then joined else joined ++ [chr_space] ++ on.

Definition applyViewSetting (lc : LoadConfig) (settings : option BrowserSettings) (message : bytes) : bytes :=
  applyBrowserAccessibility settings (applySignViewSettings lc message).

(** The frame [DocumentBroker::forwardToChild] sends for a message starting with
    [load] and a blank. *)
Definition load_frame (lc : LoadConfig) (settings : option BrowserSettings) (viewId message : bytes) : bytes :=
  let msg := str "child-" ++ viewId ++ str " " in
  let tokens := tokenize message chr_space in
  if (1 <? sv_size tokens)%nat && equals tokens 0 (str "load") then
    applyViewSetting lc settings
      (msg ++ str "load " ++ sv_get tokens 1 ++ str " jail=" ++ lc_uriJailed lc
       ++ str " xjail=" ++ lc_uriJailedAnonym lc ++ str " " ++ cat tokens [chr_space] 2 None)
  else msg ++ message.
End parse.
