(* ===== verification/LoadOptionsSpec.v ===== *)
(** * The load message: what the kit reads of what the server wrote

    The broker's load frame, read again by [Session::parseDocOptions] in the kit,
    gives the kit's session the options of the client's session: the round trip
    [load_roundtrip], with the laws it asks of the URI library, and the case in which
    it fails, a requested part. *)

From S2P Require Import Prelude RecordSet StateError Util StringVector Protocol JsonUtil LoadOptions.

Open Scope cool_scope.
Open Scope record_scope.

(** ** Texts without separators *)

Definition no_blank (v : bytes) : Prop := Forall (fun c => c <> chr_space /\ c <> chr_newline) v.

#[global] Instance no_blank_dec v : Decision (no_blank v).
Proof. apply _. Defined.

Create HintDb load.
#[local] Hint Unfold no_blank : load.

Lemma no_blank_app a b : no_blank a -> no_blank b -> no_blank (a ++ b).
Proof. apply Forall_app_2. Qed.
Lemma no_blank_name (s : String.string) : bool_decide (no_blank (str s)) = true -> no_blank (str s).
Proof. apply bool_decide_eq_true_1. Qed.
Lemma no_blank_to_string n : no_blank (to_string n).
Proof.
  apply Forall_forall. intros c Hc. apply to_string_chars in Hc as [->|Hc]; [done|].
  unfold isdigit in Hc. bool_hyps. unfold chr_space, chr_newline. lia.
Qed.
Lemma no_blank_bool_word b : no_blank (bool_word b).
Proof. destruct b; by apply no_blank_name. Qed.
#[local] Hint Resolve no_blank_app no_blank_to_string no_blank_bool_word : load.
#[local] Hint Extern 1 (no_blank (str _)) => (apply no_blank_name; reflexivity) : load.
#[local] Hint Extern 1 (no_blank [_]) => (repeat constructor; discriminate) : load.

(** The laws of the URI library: decoding undoes encoding, and what is encoded has
    no separator. *)
Record text_law (tl : TextLib) : Prop := {
  tl_roundtrip s : tl_decode tl (tl_encode tl s) = Some s;
  tl_no_blank s : no_blank (tl_encode tl s) }.

(** ** Tokens *)

Lemma field_plain c name value :
  no_blank name -> no_blank value -> Forall (plain chr_space) (field c name value).
Proof.
  intros Hn Hv. destruct c; [|constructor]. apply Forall_singleton. split; [by destruct name|].
  apply no_blank_app; [done|]. apply no_blank_app; auto with load.
Qed.
#[local] Hint Resolve field_plain Forall_app_2 : load.
Lemma field_length c name value : length (field c name value) = if c then 1%nat else 0%nat.
Proof. by destruct c. Qed.

(** [cat] from a token on, in terms of the strings. *)
Lemma cat_strings sv sep k :
  cat sv sep k None = match drop k (sv_strings sv) with
                      | [] => []
                      | t :: ts => t ++ concat (map (fun u => sep ++ u) ts)
                      end.
Proof.
  unfold cat, sv_strings, sv_size. rewrite orb_false_r.
  change (map (getParam sv) (sv_tokens sv)) with (getParam sv <$> sv_tokens sv). rewrite <- fmap_drop.
  destruct (Nat.leb_spec (length (sv_tokens sv)) k) as [Hk|Hk]; [by rewrite drop_ge|].
  rewrite take_ge by (rewrite length_drop; lia).
  destruct (drop k (sv_tokens sv)) as [|t ts]; [done|]. simpl. f_equal. unfold cat_rest. by rewrite map_map.
Qed.

Lemma tokenize_join t ts :
  plain chr_space t -> head t <> Some chr_nul -> Forall (plain chr_space) ts ->
  sv_strings (tokenize (t ++ join_with chr_space ts) chr_space) = t :: ts.
Proof.
  intros Ht Hn Hts. rewrite tokenize_strings; [by apply tokens_spec_join|done|].
  destruct Ht as [Hne _]. by destruct t.
Qed.

(** ** Runs of the loop *)

Section runs.
Context (tl : TextLib) (js : JsonLib).

Definition runs (ts : list bytes) (s s' : ParseState) : Prop :=
  se_iter (option_token tl js) ts s = (s', Ok tt).

Lemma runs_nil s : runs [] s s.
Proof. done. Qed.
Lemma runs_app ts us s s' s'' : runs ts s s' -> runs us s' s'' -> runs (ts ++ us) s s''.
Proof.
  unfold runs. revert s. induction ts as [|t ts IH]; intros s; simpl; [by intros [= <-]|].
  unfold se_bind. destruct (option_token tl js t s) as [s1 [[]|e]]; [|done]. apply IH.
Qed.

(** A name, which has no equals sign. *)
Definition is_name (name : bytes) : bool := forallb (fun c => negb (c =? chr_eq)) name.

Lemma option_token_name name value s :
  is_name name = true -> option_token tl js (name ++ [chr_eq] ++ value) s = set_option tl js name value s.
Proof.
  intros Hn. change (name ++ [chr_eq] ++ value) with (name ++ chr_eq :: value).
  unfold option_token, parseNameValuePair. rewrite getDelimiterPosition_app.
  - rewrite !length_app. simpl. replace (_ <? _)%nat with true by (symmetry; apply Nat.ltb_lt; lia).
    rewrite take_app_length, drop_app. rewrite drop_ge by lia.
    replace (length name + 1 - length name)%nat with 1%nat by lia. done.
  - unfold is_name in Hn. apply Forall_forall. intros c Hc. rewrite forallb_forall in Hn.
    apply list_elem_of_In, Hn in Hc. by bool_hyps.
Qed.

(** The state of a parse whose part and timestamp are untouched. *)
Definition mk (d : SessionData) (p : Permissions) (n : nat) : ParseState :=
  {| ps_data := d; ps_perm := p; ps_offset := n; ps_part := -1; ps_timestamp := [] |}.

Lemma runs_field c name value d p n d' p' :
  is_name name = true ->
  (c = true -> set_option tl js name value (mk d p n) = (mk d' p' (S n), Ok tt)) ->
  (c = false -> d' = d /\ p' = p) ->
  runs (field c name value) (mk d p n) (mk d' p' (n + length (field c name value))).
Proof.
  intros Hn Ht Hf. destruct c; unfold runs, field; simpl.
  - unfold se_bind. change (name ++ chr_eq :: value) with (name ++ [chr_eq] ++ value).
    rewrite option_token_name by done. rewrite Ht by done. by rewrite Nat.add_1_r.
  - destruct Hf as [-> ->]; [done|]. by rewrite Nat.add_0_r.
Qed.

Lemma set_decoded_encode value f s :
  text_law tl -> set_decoded tl (tl_encode tl value) f s = set_data (f value) s.
Proof. intros H. unfold set_decoded, decode, se_bind. by rewrite (tl_roundtrip _ H). Qed.

Definition none_if (c : bool) (v : bytes) : bytes := if c then v else [].

(** A field that is left out leaves its empty member as it is. *)
Lemma runs_if c name value f d p n :
  is_name name = true ->
  (c = true -> forall s, set_option tl js name value s = set_data f s) ->
  (c = false -> f d = d) ->
  runs (field c name value) (mk d p n) (mk (f d) p (n + length (field c name value))).
Proof. intros Hn Ht Hf. apply runs_field; [done|intros Hc; by rewrite Ht|]. intros Hc. by rewrite Hf. Qed.

(** An unknown name is skipped, and not counted. *)
Lemma runs_unknown c name value s :
  is_name name = true -> (forall s, set_option tl js name value s = (s, Ok tt)) -> runs (field c name value) s s.
Proof.
  intros Hn Ht. destruct c; [|done]. unfold runs, field, se_iter, se_bind. by rewrite option_token_name, Ht.
Qed.

Lemma runs_text name value f d p n :
  is_name name = true ->
  (forall s, set_option tl js name value s = set_data (f value) s) -> (f [] d = d) ->
  runs (text_field name value) (mk d p n) (mk (f value d) p (n + length (text_field name value))).
Proof.
  intros Hn Ht Hf. apply (runs_if _ _ _ (f value)); [done|done|]. intros Hc. bool_hyps. by subst value.
Qed.

Lemma runs_encoded name value f d p n :
  text_law tl -> is_name name = true ->
  (forall v s, set_option tl js name v s = set_decoded tl v f s) -> (f [] d = d) ->
  runs (encoded_field tl name value) (mk d p n) (mk (f value d) p (n + length (encoded_field tl name value))).
Proof.
  intros Hl Hn Ht Hf. apply (runs_if _ _ _ (f value)); [done| |].
  - intros _ s. by rewrite Ht, set_decoded_encode.
  - intros Hc. bool_hyps. by subst value.
Qed.

Lemma runs_named (c : bool) name value f d p n :
  text_law tl -> is_name name = true ->
  (forall v s, set_option tl js name v s = set_decoded tl v f s) -> (f [] d = d) ->
  runs (field c name (tl_encode tl value)) (mk d p n)
    (mk (f (none_if c value) d) p (n + length (field c name (tl_encode tl value)))).
Proof.
  intros Hl Hn Ht Hf. apply runs_field; [done| |].
  - intros ->. by rewrite Ht, set_decoded_encode.
  - intros ->. simpl. by rewrite Hf.
Qed.

Lemma runs_conv ts s s' s'' : runs ts s s' -> s' = s'' -> runs ts s s''.
Proof. by intros H <-. Qed.
Lemma mk_eq d p n n' : n = n' -> mk d p n = mk d p n'.
Proof. by intros ->. Qed.

(** ** Groups of fields *)

(** The members a group sets are still empty. *)
Ltac unset := destruct_and?; match goal with d : SessionData |- _ => destruct d; simpl in *; subst; reflexivity end.
Ltac fields_done := apply mk_eq; rewrite !length_app; lia.

Lemma runs_user d D p n :
  text_law tl ->
  so_userId D = [] /\ so_userIdAnonym D = [] /\ so_userName D = [] /\ so_userNameAnonym D = [] /\ so_userExtraInfo D = [] /\ so_userPrivateInfo D = [] /\ so_serverPrivateInfo D = [] ->
  runs (load_user tl d) (mk D p n)
    (mk (D <| so_userId := none_if (named d) (so_userId d) |>
           <| so_userIdAnonym := none_if (named d) (so_userId d) |>
           <| so_userName := none_if (named d) (so_userName d) |>
           <| so_userNameAnonym := none_if (named d) (so_userName d) |>
           <| so_userExtraInfo := so_userExtraInfo d |>
           <| so_userPrivateInfo := so_userPrivateInfo d |>
           <| so_serverPrivateInfo := so_serverPrivateInfo d |>) p (n + length (load_user tl d))).
Proof.
  intros Hl HD. unfold load_user. eapply runs_conv.
  - eapply runs_app; [apply (runs_named _ _ _ (fun v d => d <| so_userId := v |>)); [done|done|done|unset]|].
    eapply runs_app; [apply (runs_named _ _ _ (fun v d => d <| so_userIdAnonym := v |>)); [done|done|done|unset]|].
    eapply runs_app; [apply (runs_named _ _ _ (fun v d => d <| so_userName := v |>)); [done|done|done|unset]|].
    eapply runs_app; [apply (runs_named _ _ _ (fun v d => d <| so_userNameAnonym := v |>)); [done|done|done|unset]|].
    eapply runs_app; [apply (runs_encoded _ _ (fun v d => d <| so_userExtraInfo := v |>)); [done|done|done|unset]|].
    eapply runs_app; [apply (runs_encoded _ _ (fun v d => d <| so_userPrivateInfo := v |>)); [done|done|done|unset]|].
    apply (runs_encoded _ _ (fun v d => d <| so_serverPrivateInfo := v |>)); [done|done|done|unset].
  - fields_done.
Qed.

Lemma runs_permissions d p0 p n :
  pm_isAllowChangeComments p0 = false /\ pm_isAllowManageRedlines p0 = false ->
  runs (load_permissions p) (mk d p0 n) (mk d p (n + length (load_permissions p))).
Proof.
  intros [H1 H2]. destruct p as [ro cc mr]. unfold load_permissions, pm_isReadOnly, pm_isAllowChangeComments, pm_isAllowManageRedlines.
  destruct p0 as [ro0 cc0 mr0]. simpl in H1, H2. subst cc0 mr0.
  eapply runs_conv.
  - eapply runs_app; [|eapply runs_app].
    + apply (runs_field true _ _ d _ n d {| pm_isReadOnly := ro; pm_isAllowChangeComments := false; pm_isAllowManageRedlines := false |});
        [done| |done]. intros _. by destruct ro.
    + apply (runs_field cc _ _ d _ _ d {| pm_isReadOnly := ro; pm_isAllowChangeComments := cc; pm_isAllowManageRedlines := false |});
        [done|by intros ->|by intros ->].
    + apply (runs_field mr _ _ d _ _ d {| pm_isReadOnly := ro; pm_isAllowChangeComments := cc; pm_isAllowManageRedlines := mr |});
        [done|by intros ->|by intros ->].
  - fields_done.
Qed.

(** A requested part is a token the kit does not know here: it is not counted. *)
Definition uncounted (part : Z) : nat := if 0 <=? part then 1 else 0.

Lemma runs_view d D p n part :
  so_docPassword D = [] /\ so_haveDocPassword D = false /\ so_lang D = [] /\ so_deviceFormFactor D = [] /\
  so_timeZone D = [] /\ so_spellOnline D = [] /\ so_darkTheme D = [] /\ so_darkBackground D = [] ->
  runs (load_view d part) (mk D p n)
    (mk (D <| so_docPassword := none_if (so_haveDocPassword d) (so_docPassword d) |>
           <| so_haveDocPassword := so_haveDocPassword d |>
           <| so_lang := if beq (so_lang d) (str "en") then str "en-US" else so_lang d |>
           <| so_deviceFormFactor := so_deviceFormFactor d |>
           <| so_timeZone := so_timeZone d |>
           <| so_spellOnline := so_spellOnline d |>
           <| so_darkTheme := so_darkTheme d |>
           <| so_darkBackground := so_darkBackground d |>) p (n + length (load_view d part) - uncounted part)).
Proof.
  intros HD. unfold load_view. eapply runs_conv.
  - eapply runs_app; [by apply runs_unknown|].
    eapply runs_app.
    { apply (runs_field _ _ _ _ _ _ (D <| so_docPassword := none_if (so_haveDocPassword d) (so_docPassword d) |>
           <| so_haveDocPassword := so_haveDocPassword d |>) p); [done|by intros ->|intros ->; split; [unset|done]]. }
    eapply runs_app; [apply (runs_text _ _ (fun v d => d <| so_lang := if beq v (str "en") then str "en-US" else v |>)); [done|done|unset]|].
    eapply runs_app; [apply (runs_text _ _ (fun v d => d <| so_deviceFormFactor := v |>)); [done|done|unset]|].
    eapply runs_app; [apply (runs_text _ _ (fun v d => d <| so_timeZone := v |>)); [done|done|unset]|].
    eapply runs_app; [apply (runs_text _ _ (fun v d => d <| so_spellOnline := v |>)); [done|done|unset]|].
    eapply runs_app; [apply (runs_text _ _ (fun v d => d <| so_darkTheme := v |>)); [done|done|unset]|].
    apply (runs_text _ _ (fun v d => d <| so_darkBackground := v |>)); [done|done|unset].
  - apply mk_eq. rewrite !length_app, (field_length (0 <=? part)). unfold uncounted. lia.
Qed.

(** The settings of the server that the kit keeps. *)
Definition set_enableMacros (lc : LoadConfig) (d : SessionData) : SessionData :=
  match lc_enableMacrosExecution lc with Some b => d <| so_enableMacrosExecution := bool_word b |> | None => d end.
Definition set_macroLevel (lc : LoadConfig) (d : SessionData) : SessionData :=
  match lc_macroSecurityLevel lc with Some n => d <| so_macroSecurityLevel := to_string n |> | None => d end.

Lemma runs_enableMacros lc d p n :
  let fs := match lc_enableMacrosExecution lc with
            | Some b => field true (str "enableMacrosExecution") (bool_word b) | None => [] end in
  runs fs (mk d p n) (mk (set_enableMacros lc d) p (n + length fs)).
Proof.
  unfold set_enableMacros. destruct (lc_enableMacrosExecution lc) as [b|].
  - by apply (runs_if true _ _ (fun d => d <| so_enableMacrosExecution := bool_word b |>)).
  - rewrite Nat.add_0_r. apply runs_nil.
Qed.
Lemma runs_macroLevel lc d p n :
  let fs := match lc_macroSecurityLevel lc with
            | Some v => field true (str "macroSecurityLevel") (to_string v) | None => [] end in
  runs fs (mk d p n) (mk (set_macroLevel lc d) p (n + length fs)).
Proof.
  unfold set_macroLevel. destruct (lc_macroSecurityLevel lc) as [v|].
  - by apply (runs_if true _ _ (fun d => d <| so_macroSecurityLevel := to_string v |>)).
  - rewrite Nat.add_0_r. apply runs_nil.
Qed.

Lemma runs_settings lc d D p n opacity :
  text_law tl -> tl_stod tl (lc_watermarkOpacity lc) = Some opacity ->
  so_watermarkText D = [] /\ so_initialClientVisibleArea D = [] /\ so_accessibilityState D = false ->
  runs (load_settings tl lc d) (mk D p n)
    (mk (set_macroLevel lc (set_enableMacros lc
          (D <| so_watermarkText := so_watermarkText d |>
             <| so_watermarkOpacity ::= fun o => if beq (so_watermarkText d) [] then o else opacity |>))
           <| so_initialClientVisibleArea := so_initialClientVisibleArea d |>
           <| so_accessibilityState := lc_accessibilityEnable lc && so_accessibilityState d |>)
        p (n + length (load_settings tl lc d))).
Proof.
  intros Hl Ho HD. unfold load_settings, set_macroLevel, set_enableMacros. eapply runs_conv.
  - eapply runs_app; [apply (runs_encoded _ _ (fun v d => d <| so_watermarkText := v |>)); [done|done|done|unset]|].
    eapply runs_app.
    { apply (runs_if _ _ _ (fun D => D <| so_watermarkOpacity ::= fun o => if beq (so_watermarkText d) [] then o else opacity |>));
        [done| |].
      - intros Hc s. apply negb_true_iff in Hc. unfold set_option. simpl. by rewrite Ho, Hc.
      - intros Hc. apply negb_false_iff in Hc. rewrite Hc. unset. }
    eapply runs_app; [apply runs_enableMacros|]. eapply runs_app; [apply runs_macroLevel|].
    eapply runs_app; [apply (runs_text _ _ (fun v d => d <| so_initialClientVisibleArea := v |>)); [done|done|]|].
    { unfold set_macroLevel, set_enableMacros. destruct (lc_macroSecurityLevel lc), (lc_enableMacrosExecution lc); unset. }
    apply (runs_if _ _ _ (fun D => D <| so_accessibilityState := lc_accessibilityEnable lc && so_accessibilityState d |>)); [done| |].
    + intros -> s. by destruct (so_accessibilityState d).
    + intros ->. unfold set_macroLevel, set_enableMacros.
      destruct (lc_macroSecurityLevel lc), (lc_enableMacrosExecution lc); unset.
  - fields_done.
Qed.

(** ** The whole message *)

(** A session of the kit before the load message. *)
Definition kit_data (opacity : Z) : SessionData :=
  {| so_docURL := []; so_jailedFilePath := []; so_jailedFilePathAnonym := []; so_docPassword := [];
     so_haveDocPassword := false; so_docOptions := []; so_userId := []; so_userIdAnonym := []; so_userName := [];
     so_userNameAnonym := []; so_userExtraInfo := []; so_userPrivateInfo := []; so_serverPrivateInfo := [];
     so_watermarkText := []; so_watermarkOpacity := opacity; so_lang := []; so_timeZone := [];
     so_deviceFormFactor := []; so_spellOnline := []; so_darkTheme := []; so_darkBackground := []; so_batch := [];
     so_enableMacrosExecution := []; so_macroSecurityLevel := []; so_initialClientVisibleArea := [];
     so_docTemplate := []; so_accessibilityState := false; so_disableVerifyHost := false; so_inFilterOptions := [] |}.
Definition kit_perm : Permissions :=
  {| pm_isReadOnly := false; pm_isAllowChangeComments := false; pm_isAllowManageRedlines := false |}.
Definition kit_start (opacity : Z) : ParseState := mk (kit_data opacity) kit_perm 0.

Definition sent_inFilter (lc : LoadConfig) (d : SessionData) : bytes :=
  if beq (so_inFilterOptions d) [] then
    match lc_additionalTemplate lc with Some template => template_options template | None => [] end
  else so_inFilterOptions d.

(** What the kit's session holds after the message. *)
Definition received (lc : LoadConfig) (p : Permissions) (d : SessionData) (opacity0 opacity : Z)
    (docOptions : bytes) : SessionData :=
  {| so_docURL := lc_publicUri lc;
     so_jailedFilePath := lc_uriJailed lc;
     so_jailedFilePathAnonym := lc_uriJailedAnonym lc;
     so_docPassword := none_if (so_haveDocPassword d) (so_docPassword d);
     so_haveDocPassword := so_haveDocPassword d;
     so_docOptions := docOptions;
     so_userId := none_if (named d) (so_userId d);
     so_userIdAnonym := none_if (named d) (so_userId d);
     so_userName := none_if (named d) (so_userName d);
     so_userNameAnonym := none_if (named d) (so_userName d);
     so_userExtraInfo := so_userExtraInfo d;
     so_userPrivateInfo := so_userPrivateInfo d;
     so_serverPrivateInfo := so_serverPrivateInfo d;
     so_watermarkText := so_watermarkText d;
     so_watermarkOpacity := if beq (so_watermarkText d) [] then opacity0 else opacity;
     so_lang := if beq (so_lang d) (str "en") then str "en-US" else so_lang d;
     so_timeZone := so_timeZone d;
     so_deviceFormFactor := so_deviceFormFactor d;
     so_spellOnline := if pm_isReadOnly p then str "false" else so_spellOnline d;
     so_darkTheme := so_darkTheme d;
     so_darkBackground := so_darkBackground d;
     so_batch := so_batch d;
     so_enableMacrosExecution :=
       match lc_enableMacrosExecution lc with Some b => bool_word b | None => [] end;
     so_macroSecurityLevel := match lc_macroSecurityLevel lc with Some n => to_string n | None => [] end;
     so_initialClientVisibleArea := so_initialClientVisibleArea d;
     so_docTemplate := lc_templateSource lc;
     so_accessibilityState := lc_accessibilityEnable lc && so_accessibilityState d;
     so_disableVerifyHost := lc_clientVerificationDisabled lc;
     so_inFilterOptions := sent_inFilter lc d |}.

(** The texts sent as they are hold no separator. *)
Definition load_texts (lc : LoadConfig) (d : SessionData) : list bytes :=
  [lc_publicUri lc; lc_uriJailed lc; lc_uriJailedAnonym lc; lc_watermarkOpacity lc;
   lc_templateSource lc; sent_inFilter lc d; so_docPassword d; so_docOptions d; so_lang d; so_timeZone d;
   so_deviceFormFactor d; so_spellOnline d; so_darkTheme d; so_darkBackground d; so_batch d;
   so_initialClientVisibleArea d].

(** Nothing is added to the message for the view. *)
Definition plain_view (lc : LoadConfig) (settings : option (BrowserSettings js)) : Prop :=
  lc_isViewSettingsUpdated lc = false /\
  match settings with
  | Some bs => findJSONBool js (bs_json js bs) (str "accessibilityState") false = false
  | None => True
  end.

(** The tokens of the frame behind the prefix of the view. *)
Definition head_fields (lc : LoadConfig) : list bytes :=
  field true (str "url") (lc_publicUri lc) ++ field true (str "jail") (lc_uriJailed lc)
  ++ field true (str "xjail") (lc_uriJailedAnonym lc).
(** The fields before and after the options. *)
Definition mid_fields (lc : LoadConfig) (p : Permissions) (d : SessionData) (part : Z) : list bytes :=
  field (lc_clientVerificationDisabled lc) (str "verifyHost") (str "false")
  ++ load_user tl d ++ load_permissions p ++ load_view d part ++ load_settings tl lc d.
Definition last_fields (lc : LoadConfig) (d : SessionData) : list bytes :=
  text_field (str "template") (lc_templateSource lc) ++ text_field (str "batch") (so_batch d)
  ++ text_field (str "infilterOptions") (sent_inFilter lc d).

Lemma load_fields_split lc p d part :
  load_fields tl lc p d part
  = mid_fields lc p d part ++ text_field (str "options") (so_docOptions d) ++ last_fields lc d.
Proof.
  unfold load_fields, mid_fields, load_tail, last_fields, sent_inFilter. rewrite <- !app_assoc.
  do 6 f_equal. unfold text_field. destruct (beq (so_inFilterOptions d) []) eqn:E; [|by rewrite E].
  by destruct (lc_additionalTemplate lc).
Qed.

Lemma load_fields_plain lc p d part :
  text_law tl -> Forall no_blank (load_texts lc d) ->
  Forall (plain chr_space) (head_fields lc ++ load_fields tl lc p d part).
Proof.
  intros [_ Hl] Ht. rewrite load_fields_split. unfold load_texts in Ht. rewrite !Forall_cons in Ht. destruct_and!.
  unfold head_fields, mid_fields, last_fields, load_user, load_permissions, load_view, load_settings, text_field, encoded_field.
  repeat apply Forall_app_2;
    try (destruct (lc_enableMacrosExecution lc) as [b|]; [|by constructor]);
    try (destruct (lc_macroSecurityLevel lc) as [n|]; [|by constructor]);
    (apply field_plain; [by auto with load|]); try (destruct (pm_isReadOnly p)); auto with load.
Qed.

(** The broker's rewriting of the message keeps its tokens. *)
Lemma load_frame_tokens lc p d part settings viewId :
  text_law tl -> Forall no_blank (load_texts lc d) -> plain_view lc settings ->
  load_frame tl js lc settings viewId (load_message tl lc p d part)
  = str "child-" ++ viewId ++ str " " ++ str "load" ++ join_with chr_space (head_fields lc ++ load_fields tl lc p d part).
Proof.
  intros Hl Ht [Hv Hs]. pose proof (load_fields_plain lc p d part Hl Ht) as Hp.
  set (fs := load_fields tl lc p d part) in *.
  assert (Hm : sv_strings (tokenize (load_message tl lc p d part) chr_space)
               = str "load" :: (str "url=" ++ lc_publicUri lc) :: fs).
  { change (load_message tl lc p d part)
      with (str "load" ++ join_with chr_space ((str "url=" ++ lc_publicUri lc) :: fs)).
    apply tokenize_join; [split; [done|repeat constructor; discriminate]|done|].
    unfold head_fields in Hp. simpl in Hp. inversion Hp as [|? ? Hu Hp1]; subst. inversion Hp1 as [|? ? _ Hp2]; subst.
    inversion Hp2 as [|? ? _ Hp3]; subst. by constructor. }
  unfold load_frame. rewrite sv_size_strings, equals_strings, sv_get_strings, cat_strings, Hm. simpl.
  unfold applyViewSetting, applyBrowserAccessibility, applySignViewSettings. rewrite Hv. simpl.
  assert (Hfs : exists t ts, fs = t :: ts).
  { destruct fs as [|t ts] eqn:E; [|by eauto]. apply (f_equal length) in E. unfold fs in E.
    rewrite load_fields_split in E. unfold mid_fields, load_permissions in E. rewrite !length_app in E. simpl in E. lia. }
  destruct Hfs as (t & ts & ->). rewrite drop_0.
  replace (match settings with Some bs => findJSONBool js (bs_json js bs) (str "accessibilityState") false | None => false end)
    with false by (by destruct settings).
  simpl. rewrite <- !app_assoc. done.
Qed.

Lemma runs_head lc D p n :
  runs (head_fields lc) (mk D p n)
    (mk (D <| so_docURL := lc_publicUri lc |> <| so_jailedFilePath := lc_uriJailed lc |>
           <| so_jailedFilePathAnonym := lc_uriJailedAnonym lc |>) p (n + length (head_fields lc))).
Proof.
  unfold head_fields. eapply runs_conv.
  - eapply runs_app; [by apply (runs_if true _ _ (fun d => d <| so_docURL := lc_publicUri lc |>))|].
    eapply runs_app; [by apply (runs_if true _ _ (fun d => d <| so_jailedFilePath := lc_uriJailed lc |>))|].
    by apply (runs_if true _ _ (fun d => d <| so_jailedFilePathAnonym := lc_uriJailedAnonym lc |>)).
  - fields_done.
Qed.

Lemma runs_last lc d D p n :
  so_docTemplate D = [] /\ so_batch D = [] /\ so_inFilterOptions D = [] ->
  runs (last_fields lc d) (mk D p n)
    (mk (D <| so_docTemplate := lc_templateSource lc |> <| so_batch := so_batch d |>
           <| so_inFilterOptions := sent_inFilter lc d |>) p (n + length (last_fields lc d))).
Proof.
  intros HD. unfold last_fields. eapply runs_conv.
  - eapply runs_app; [apply (runs_text _ _ (fun v d => d <| so_docTemplate := v |>)); [done|done|unset]|].
    eapply runs_app; [apply (runs_text _ _ (fun v d => d <| so_batch := v |>)); [done|done|unset]|].
    apply (runs_text _ _ (fun v d => d <| so_inFilterOptions := v |>)); [done|done|unset].
  - fields_done.
Qed.

(** The session before the options and the spell checking are settled. *)
Definition unfinished (lc : LoadConfig) (d : SessionData) (opacity0 opacity : Z) : SessionData :=
  received lc kit_perm d opacity0 opacity [].

Definition recognized (lc : LoadConfig) (p : Permissions) (d : SessionData) (part : Z) : nat :=
  1 + length (head_fields lc) + length (mid_fields lc p d part) - uncounted part + length (last_fields lc d).

Lemma runs_message lc p d part opacity0 opacity :
  text_law tl -> tl_stod tl (lc_watermarkOpacity lc) = Some opacity ->
  runs (head_fields lc ++ load_fields tl lc p d part) (mk (kit_data opacity0) kit_perm 1)
    (mk (unfinished lc d opacity0 opacity) p (recognized lc p d part)).
Proof.
  intros Hl Ho. rewrite load_fields_split. unfold mid_fields. rewrite <- !app_assoc. eapply runs_conv.
  - eapply runs_app; [apply runs_head|]. eapply runs_app.
    { apply (runs_if _ _ _ (fun d => d <| so_disableVerifyHost := lc_clientVerificationDisabled lc |>));
        [done|by intros ->|by intros ->]. }
    eapply runs_app; [by apply runs_user|]. eapply runs_app; [by apply runs_permissions|].
    eapply runs_app; [by apply runs_view|]. eapply runs_app; [by apply runs_settings|].
    eapply runs_app; [by apply runs_unknown|]. apply runs_last.
    unfold set_macroLevel, set_enableMacros.
    by destruct (lc_macroSecurityLevel lc), (lc_enableMacrosExecution lc).
  - unfold unfinished, received, set_macroLevel, set_enableMacros, recognized, mid_fields. rewrite !length_app.
    match goal with |- mk ?a _ ?b = mk ?c _ ?e => assert (Hd : a = c); [|assert (Hn : b = e); [|by rewrite Hd, Hn]] end.
    + by destruct (lc_macroSecurityLevel lc), (lc_enableMacrosExecution lc).
    + assert (uncounted part <= length (load_view d part))%nat; [|lia].
      unfold load_view, uncounted. rewrite length_app, field_length. destruct (0 <=? part); lia.
Qed.

(** ** The options *)

(** No other field begins like [options]. *)
Definition not_options (t : bytes) : Prop := head t <> Some 111.

Lemma not_options_None t : not_options t -> getTokenString t (str "options") = None.
Proof.
  intros Hn. unfold getTokenString. destruct (_ && _) eqn:E; [|done]. exfalso. apply Hn.
  unfold has_name in E. rewrite !andb_true_iff, beq_eq in E. destruct E as (_ & E & _).
  destruct t as [|c t]; [done|]. by injection E as ->.
Qed.
Lemma field_not_options c name value :
  bool_decide (name <> [] /\ head name <> Some 111) = true -> Forall not_options (field c name value).
Proof.
  intros H. apply bool_decide_eq_true_1 in H as [Hne Hh]. destruct c; [|constructor].
  apply Forall_singleton. by destruct name.
Qed.
Lemma fields_not_options lc p d part :
  Forall not_options (head_fields lc ++ mid_fields lc p d part) /\ Forall not_options (last_fields lc d).
Proof.
  unfold head_fields, mid_fields, last_fields, load_user, load_permissions, load_view, load_settings, text_field, encoded_field.
  split; repeat apply Forall_app_2;
    try (destruct (lc_enableMacrosExecution lc) as [b|]; [|by constructor]);
    try (destruct (lc_macroSecurityLevel lc) as [n|]; [|by constructor]);
    by apply field_not_options.
Qed.

(** What [doc_options] reads when [unc] tokens were not counted: the options when
    nothing follows them, and a mixture when one token does. *)
Definition received_options (part : Z) (last : list bytes) (docOptions : bytes) : bytes :=
  if part <? 0 then match last with [] => docOptions | _ => [] end
  else match last with [t] => if beq docOptions [] then [] else docOptions ++ t | _ => [] end.

Lemma received_options_nil part last : received_options part last [] = [].
Proof. unfold received_options. destruct (part <? 0), last as [|t [|]]; reflexivity. Qed.

Lemma doc_options_miss sv n :
  match sv_strings sv !! n with Some t => not_options t | None => True end -> doc_options sv n [] = [].
Proof.
  intros Ht. unfold doc_options. rewrite sv_get_strings. destruct (_ <? _)%nat; [|done].
  destruct (sv_strings sv !! n) as [t|]; simpl; [by rewrite not_options_None|done].
Qed.

Lemma doc_options_hit sv n pre v last :
  sv_strings sv = pre ++ [str "options" ++ [chr_eq] ++ v] ++ last -> n = length pre ->
  doc_options sv n [] = v ++ match last with [] => [] | t :: ts => t ++ concat (map (fun u => [chr_space] ++ u) ts) end.
Proof.
  intros E ->. unfold doc_options. rewrite sv_size_strings, sv_get_strings, cat_strings, E.
  rewrite lookup_app_r, Nat.sub_diag by lia. rewrite !length_app. simpl length.
  replace (_ <? _)%nat with true by (symmetry; apply Nat.ltb_lt; lia).
  replace (drop (length pre + 1) _) with last; [|].
  - simpl. destruct last as [|t ts]; simpl.
    + destruct (_ <? _)%nat; by rewrite ?app_nil_r.
    + by replace (_ <? _)%nat with true by (symmetry; apply Nat.ltb_lt; lia).
  - rewrite drop_app. rewrite drop_ge by lia. by replace (length pre + 1 - length pre)%nat with 1%nat by lia.
Qed.

Lemma doc_options_received lc p d part sv :
  sv_strings sv = str "load" :: head_fields lc ++ load_fields tl lc p d part ->
  doc_options sv (recognized lc p d part) [] = received_options part (last_fields lc d) (so_docOptions d).
Proof.
  intros E. rewrite load_fields_split in E. destruct (fields_not_options lc p d part) as [Hpre Hlast].
  set (pre := str "load" :: head_fields lc ++ mid_fields lc p d part) in *.
  assert (Hpre' : Forall not_options pre) by (constructor; done).
  assert (E' : sv_strings sv = pre ++ text_field (str "options") (so_docOptions d) ++ last_fields lc d).
  { rewrite E. unfold pre. rewrite app_comm_cons, !app_assoc. done. }
  assert (Hn : recognized lc p d part = (length pre - uncounted part + length (last_fields lc d))%nat).
  { unfold recognized, pre. simpl length. rewrite ?length_app. simpl length.
    assert (uncounted part <= length (mid_fields lc p d part))%nat; [|lia].
    unfold mid_fields, load_view, uncounted. rewrite !length_app, (field_length (0 <=? part)). destruct (0 <=? part); lia. }
  assert (Hlen : (1 <= length pre)%nat) by (unfold pre; simpl; lia).
  clearbody pre. clear E Hpre. generalize dependent (last_fields lc d). intros last Hlast E Hn.
  rewrite Hn. unfold text_field in E. destruct (so_docOptions d) as [|c v] eqn:Eo; simpl in E.
  - rewrite received_options_nil. apply doc_options_miss. rewrite E.
    pose proof (Forall_app_2 _ _ _ Hpre' Hlast) as H.
    destruct ((pre ++ last) !! _) as [t|] eqn:Et; [|done]. by eapply Forall_lookup_1.
  - unfold received_options, uncounted. destruct (Z.ltb_spec part 0) as [Hp|Hp].
    + replace (0 <=? part) with false by (symmetry; apply Z.leb_gt; lia). destruct last as [|t ts].
      * rewrite (doc_options_hit sv _ pre (c :: v) []); [by rewrite app_nil_r|exact E|simpl; lia].
      * apply doc_options_miss. rewrite E, lookup_app_r by (simpl; lia).
        replace (_ - _)%nat with (S (length ts)) by (simpl; lia).
        change ((_ :: t :: ts) !! S (length ts)) with ((t :: ts) !! length ts).
        destruct ((t :: ts) !! length ts) as [u|] eqn:Eu; [|done]. exact (Forall_lookup_1 _ _ _ _ Hlast Eu).
    + replace (0 <=? part) with true by (symmetry; apply Z.leb_le; lia). destruct last as [|t [|u ts]].
      * apply doc_options_miss. rewrite E, lookup_app_l by (simpl; lia).
        destruct (pre !! _) as [u|] eqn:Eu; [|done]. exact (Forall_lookup_1 _ _ _ _ Hpre' Eu).
      * rewrite (doc_options_hit sv _ pre (c :: v) [t]); [cbn [map concat]; by rewrite (app_nil_r t)|exact E|simpl; lia].
      * apply doc_options_miss. rewrite E, lookup_app_r by (simpl; lia).
        replace (_ - _)%nat with (S (length ts)) by (simpl; lia).
        change ((_ :: t :: u :: ts) !! S (length ts)) with ((t :: u :: ts) !! length ts).
        destruct ((t :: u :: ts) !! length ts) as [w|] eqn:Ew; [|done]. exact (Forall_lookup_1 _ _ _ _ Hlast Ew).
Qed.

Lemma finish_mk sv lc d p n opacity0 opacity :
  finish_options sv (mk (unfinished lc d opacity0 opacity) p n)
  = mk (disableSpellCheckIfReadOnly p (received lc kit_perm d opacity0 opacity (doc_options sv n []))) p n.
Proof. done. Qed.

(** The kit's session after the message, whatever the part and the options. *)
Lemma kit_reads lc p d part opacity0 opacity sv :
  text_law tl -> tl_stod tl (lc_watermarkOpacity lc) = Some opacity ->
  sv_strings sv = str "load" :: head_fields lc ++ load_fields tl lc p d part ->
  exists n, parseDocOptions tl js sv (kit_start opacity0)
  = (mk (received lc p d opacity0 opacity (received_options part (last_fields lc d) (so_docOptions d))) p n, Ok tt).
Proof.
  intros Hl Ho E. exists (recognized lc p d part). unfold parseDocOptions, se_bind, se_modify, se_get.
  assert (Hpart : leading_part sv (kit_start opacity0) = mk (kit_data opacity0) kit_perm 1).
  { unfold leading_part. rewrite sv_size_strings, sv_get_strings, E.
    replace (starts_with _ _) with false by reflexivity. by rewrite andb_false_r. }
  rewrite Hpart. simpl ps_offset. rewrite E, skipn_cons, drop_0.
  pose proof (runs_message lc p d part opacity0 opacity Hl Ho) as Hr. unfold runs in Hr. rewrite Hr.
  rewrite finish_mk, (doc_options_received lc p d part sv E). unfold disableSpellCheckIfReadOnly, received, mk.
  by destruct (pm_isReadOnly p).
Qed.
End runs.

(** ** Properties *)

(** The message of the client's session [d] with permissions [p], as the kit's session
    gets it behind the prefix of its view. *)
Definition delivered (tl : TextLib) (js : JsonLib) (lc : LoadConfig) (settings : option (BrowserSettings js))
    (viewId : bytes) (p : Permissions) (d : SessionData) (part opacity0 : Z) : ParseState * result unit :=
  let frame := load_frame tl js lc settings viewId (load_message tl lc p d part) in
  parseDocOptions tl js (tokenize (drop (length (str "child-" ++ viewId ++ str " ")) frame) chr_space)
    (kit_start opacity0).

Lemma delivered_received tl js lc settings viewId p d part opacity0 opacity :
  text_law tl -> tl_stod tl (lc_watermarkOpacity lc) = Some opacity ->
  Forall no_blank (load_texts lc d) -> plain_view js lc settings ->
  exists n, delivered tl js lc settings viewId p d part opacity0
  = (mk (received lc p d opacity0 opacity
           (received_options part (last_fields lc d) (so_docOptions d))) p n, Ok tt).
Proof.
  intros Hl Ho Ht Hv. unfold delivered. rewrite load_frame_tokens by done.
  replace (str "child-" ++ viewId ++ str " " ++ str "load" ++ _)
    with ((str "child-" ++ viewId ++ str " ") ++ str "load" ++
          join_with chr_space (head_fields lc ++ load_fields tl lc p d part))
    by (by rewrite <- !app_assoc).
  rewrite drop_app_length. apply kit_reads; [done|done|].
  apply tokenize_join; [split; [done|repeat constructor; discriminate]|done|by apply load_fields_plain].
Qed.

(** C23 (roundtrip): a load message reaches the kit whole. Suppose the texts that are
    sent as they are hold no blank and no newline, the broker adds nothing for the
    view (no updated signature settings, no accessibility in the browser's
    settings), the client asks for no part, and nothing follows the document options
    (no template, batch or import filter options). Then the kit's session reads the
    permissions and, as the client's session holds them, the password, the document
    options, the extra, private and server-private user information, the watermark's
    text, the language ([en] as [en-US]), the device, the time zone, the themes and
    the visible area. It reads the user's id and name if both are set and neither
    otherwise, the spell checking except in a read-only view, where it is off, and
    the accessibility state if accessibility is enabled; the URL, the jailed paths,
    the macro settings, the watermark's opacity (if there is a text) and whether
    hosts are verified come from the configuration and not from the client. *)
Theorem load_roundtrip tl js lc settings viewId p d part opacity0 opacity :
  text_law tl -> tl_stod tl (lc_watermarkOpacity lc) = Some opacity ->
  Forall no_blank (load_texts lc d) -> plain_view js lc settings ->
  part < 0 -> last_fields lc d = [] ->
  exists n, delivered tl js lc settings viewId p d part opacity0
  = (mk (received lc p d opacity0 opacity (so_docOptions d)) p n, Ok tt).
Proof.
  intros Hl Ho Ht Hv Hp Hlast.
  destruct (delivered_received tl js lc settings viewId p d part opacity0 opacity Hl Ho Ht Hv) as [n E].
  exists n. rewrite E. unfold received_options. rewrite Hlast. by replace (part <? 0) with true by (symmetry; by apply Z.ltb_lt).
Qed.

(** Fact (error): when the client asks for a part, the kit reads no part, and no document
    options when nothing follows them; when one field follows them, its text is appended
    to the options. *)
Theorem requested_part_loses_options tl js lc settings viewId p d part opacity0 opacity :
  text_law tl -> tl_stod tl (lc_watermarkOpacity lc) = Some opacity ->
  Forall no_blank (load_texts lc d) -> plain_view js lc settings -> 0 <= part ->
  let s := (delivered tl js lc settings viewId p d part opacity0).1 in
  ps_part s = -1 /\
  (last_fields lc d = [] -> so_docOptions (ps_data s) = []) /\
  (forall t, last_fields lc d = [t] -> so_docOptions d <> [] -> so_docOptions (ps_data s) = so_docOptions d ++ t).
Proof.
  intros Hl Ho Ht Hv Hp.
  destruct (delivered_received tl js lc settings viewId p d part opacity0 opacity Hl Ho Ht Hv) as [n E].
  rewrite E. simpl. unfold received_options. replace (part <? 0) with false by (symmetry; apply Z.ltb_ge; lia).
  split; [done|]. split; [by intros ->|]. intros t -> Hne. by rewrite (proj2 (beq_neq _ _) Hne).
Qed.

(** ** A concrete URI library *)

Module Sample.
(** Percent encoding of the separators. *)
Definition encode_char (c : Z) : bytes :=
  if c =? 32 then str "%20" else if c =? 10 then str "%0A" else if c =? 37 then str "%25" else [c].
Definition encode (s : bytes) : bytes := concat (map encode_char s).
Fixpoint decode (s : bytes) : option bytes :=
  match s with
  | [] => Some []
  | c :: s' =>
      if c =? 37 then
        match s' with
        | a :: b :: s'' =>
            if beq [a; b] (str "20") then cons 32 <$> decode s''
            else if beq [a; b] (str "0A") then cons 10 <$> decode s''
            else if beq [a; b] (str "25") then cons 37 <$> decode s'' else None
        | _ => None
        end
      else cons c <$> decode s'
  end.

Definition tl : TextLib :=
  {| tl_decode := decode; tl_encode := encode;
     tl_stod := fun s => if beq s (str "0.2") then Some 4596373779694328218 else None |}.

Lemma decode_encode s : decode (encode s) = Some s.
Proof.
  induction s as [|c s IH]; [done|]. unfold encode. simpl. fold (encode s). unfold encode_char.
  destruct (Z.eqb_spec c 32) as [->|]; [simpl; by rewrite IH|].
  destruct (Z.eqb_spec c 10) as [->|]; [simpl; by rewrite IH|].
  destruct (Z.eqb_spec c 37) as [->|]; [simpl; by rewrite IH|].
  simpl. destruct (Z.eqb_spec c 37); [done|]. by rewrite IH.
Qed.
Lemma encode_no_blank s : no_blank (encode s).
Proof.
  induction s as [|c s IH]; [constructor|]. unfold encode. simpl. apply no_blank_app; [|exact IH].
  unfold encode_char. destruct (Z.eqb_spec c 32); [by apply no_blank_name|].
  destruct (Z.eqb_spec c 10); [by apply no_blank_name|]. destruct (Z.eqb_spec c 37); [by apply no_blank_name|].
  by repeat constructor.
Qed.
Lemma law : text_law tl.
Proof. split; [exact decode_encode|exact encode_no_blank]. Qed.

(** Objects are lists of names and texts; only the empty one and the result of a save that
    failed can be parsed. *)
Definition js : JsonLib :=
  {| js_object := list (bytes * bytes); js_var := bytes;
     js_parse := fun s =>
       if beq s (str "{}") then Some []
       else if beq s (str " {failed}") then Some [(str "commandName", str ".uno:Save"); (str "success", str "false")]
       else None;
     js_get := fun o k => snd <$> List.find (fun e => beq (fst e) k) o;
     js_names := map fst;
     js_getObject := fun _ _ => None;
     js_string := Some; js_int := fun v => Some (atoi v);
     js_bool := fun v => if beq v (str "true") then Some true else if beq v (str "false") then Some false else None;
     js_set := fun o k v => (k, v) :: o;
     js_setObject := fun o _ _ => o; js_new := [];
     js_stringify := fun o => concat (map (fun e => fst e ++ snd e) o) |}.

Definition lc : LoadConfig :=
  {| lc_publicUri := str "https://host/doc"; lc_clientVerificationDisabled := true;
     lc_watermarkOpacity := str "0.2"; lc_enableMacrosExecution := Some false; lc_macroSecurityLevel := Some 1;
     lc_accessibilityEnable := true; lc_templateSource := []; lc_additionalTemplate := None;
     lc_uriJailed := str "file:///tmp/doc.odt"; lc_uriJailedAnonym := str "#0#doc";
     lc_isViewSettingsUpdated := false; lc_signatureCertificate := []; lc_signatureKey := [];
     lc_signatureCa := [] |}.
Definition settings : BrowserSettings js :=
  {| bs_sent := true; bs_json := ([(str "darkTheme", str "true")] : js_object js) |}.
Definition perm : Permissions :=
  {| pm_isReadOnly := true; pm_isAllowChangeComments := true; pm_isAllowManageRedlines := false |}.
Definition data : SessionData :=
  {| so_docURL := str "https://host/doc"; so_jailedFilePath := []; so_jailedFilePathAnonym := [];
     so_docPassword := str "secret"; so_haveDocPassword := true; so_docOptions := str "{rendering}";
     so_userId := str "u 1"; so_userIdAnonym := []; so_userName := str "A 100% User"; so_userNameAnonym := [];
     so_userExtraInfo := str "{mail}"; so_userPrivateInfo := []; so_serverPrivateInfo := [];
     so_watermarkText := str "for your eyes"; so_watermarkOpacity := 0; so_lang := str "en";
     so_timeZone := str "UTC"; so_deviceFormFactor := str "desktop"; so_spellOnline := str "true";
     so_darkTheme := str "true"; so_darkBackground := []; so_batch := []; so_enableMacrosExecution := [];
     so_macroSecurityLevel := []; so_initialClientVisibleArea := []; so_docTemplate := [];
     so_accessibilityState := true; so_disableVerifyHost := false; so_inFilterOptions := [] |}.
End Sample.

Lemma load_roundtrip_witness :
  exists n, delivered Sample.tl Sample.js Sample.lc (Some Sample.settings) (str "0ab") Sample.perm Sample.data (-1) 0
  = (mk (received Sample.lc Sample.perm Sample.data 0 4596373779694328218 (str "{rendering}")) Sample.perm n, Ok tt).
Proof.
  apply (load_roundtrip Sample.tl Sample.js Sample.lc (Some Sample.settings) (str "0ab") Sample.perm Sample.data (-1) 0
           4596373779694328218 Sample.law);
    [reflexivity|apply (bool_decide_eq_true_1 _); vm_compute; reflexivity|split; reflexivity|reflexivity|reflexivity].
Defined.

Lemma requested_part_loses_options_witness :
  let s := (delivered Sample.tl Sample.js Sample.lc (Some Sample.settings) (str "0ab") Sample.perm Sample.data 2 0).1 in
  so_docOptions (ps_data s) = [].
Proof.
  apply (requested_part_loses_options Sample.tl Sample.js Sample.lc (Some Sample.settings) (str "0ab") Sample.perm
           Sample.data 2 0 4596373779694328218 Sample.law);
    [reflexivity|apply (bool_decide_eq_true_1 _); vm_compute; reflexivity|split; reflexivity|lia|reflexivity].
Defined.
