(* ===== verification/ClientInput.v ===== *)
(** * The client's commands

    Models [ClientSession::_handleInput] ([wsd/ClientSession.cpp]), the dispatcher of
    what a client sends, with the handlers it calls: the load of a document, the
    message filters, the lock attempt, the trace events, the browser settings. A
    command works on the two halves of the broker that other files model, the tiles
    ([TileServer]) and the saving ([DocumentSave], [DocumentPoll]), and on the client's
    own fields. Text frames and messages to the kit go to the output of the saving
    half, which records the frames that the queues of the sessions get here
    ([KitMessages] puts those of its messages in the queues); tiles go to the sender
    queue of the tile half. The boolean a handler returns
    is ignored by [Session::handleMessage] and left out. *)

From S2P Require Import Prelude RecordSet StateError Util StringVector Protocol Rectangle TileCache ClientSession TileServer JsonUtil LoadOptions Storage SaveManager DocumentSave DocumentPoll.

Open Scope cool_scope.
Open Scope record_scope.

(** ** State *)

(** What the handlers read of [WOPIFileInfo]. *)
Record WopiFileInfo := {
  wf_disableCopy : bool;
  wf_disablePrint : bool;
  wf_disableExport : bool;
  wf_watermarkText : bytes;
  wf_enableOwnerTermination : bool }.

(** The process-wide settings. *)
Record InputConfig := {
  ic_enableTraceEventLogging : bool;       (* [COOLWSD::EnableTraceEventLogging] *)
  ic_traceEventEnable : bool;              (* [trace_event[@enable]] *)
  ic_pid : Z;                              (* [Util::getProcessId()] *)
  ic_versionJSON : bytes;
  ic_lokitVersion : bytes;
  ic_osInfo : bytes;
  ic_latestVersion : bytes;
  ic_leastVerboseLevel : bytes;
  ic_mostVerboseLevel : bytes;
  ic_parseLevel : bytes -> option Z;       (* [Poco::Logger::parseLevel]; [None]: it throws *)
  ic_perfCounter : bytes -> option Z }.    (* a counter in range, read by [strtod]: [(uint64_t)(counter * 1000)] *)

(** Effects outside the document. *)
Inductive Effect :=
| TraceEvent (record : bytes)              (* [COOLWSD::writeTraceEventRecording] *)
| RecordTraceEvents (on : bool)
| SetLogLevel (level : bytes)              (* empty: the default *)
| UrpToKit (message : bytes)
| SignatureRequest (url body : bytes)
| SyncBrowserSettings (userId json : bytes)
| UploadBrowserSettings
| RouteTokenSanityCheck.

Section input.
Context (tl : TextLib) (js : JsonLib) (lc : LoadConfig) (ic : InputConfig).
Context (json_viewId : bytes -> result bytes) (terminating : bool).

(** The fields of [ClientSession] that neither half of the broker holds; [cl_id] is its
    key in [_sessions], [cl_sid] its number in the tile half. *)
Record Client := {
  cl_id : bytes;
  cl_sid : Z;
  cl_data : SessionData;
  cl_browser : BrowserSettings js;
  cl_wopi : option WopiFileInfo;
  cl_splitX : Z;
  cl_splitY : Z;
  cl_clientSelectedPart : Z;
  cl_tileWidthPixel : Z;
  cl_tileHeightPixel : Z;
  cl_isTextDocument : bool;
  cl_keyEvents : Z;
  cl_performanceCounterEpoch : Z;
  cl_accessToken : bytes;                  (* of [_auth], once reset by the client *)
  cl_clipboardKeys : bytes * bytes;
  cl_lastActivityTime : Z }.

#[export] Instance Client_settable : Settable Client := fun c =>
  {| cl_id := cl_id c; cl_sid := cl_sid c; cl_data := cl_data c; cl_browser := cl_browser c; cl_wopi := cl_wopi c;
     cl_splitX := cl_splitX c; cl_splitY := cl_splitY c; cl_clientSelectedPart := cl_clientSelectedPart c;
     cl_tileWidthPixel := cl_tileWidthPixel c; cl_tileHeightPixel := cl_tileHeightPixel c;
     cl_isTextDocument := cl_isTextDocument c; cl_keyEvents := cl_keyEvents c;
     cl_performanceCounterEpoch := cl_performanceCounterEpoch c; cl_accessToken := cl_accessToken c;
     cl_clipboardKeys := cl_clipboardKeys c; cl_lastActivityTime := cl_lastActivityTime c |}.

Record World := {
  w_db : DB;
  w_tiles : TileServer.DocumentBroker;
  w_client : Client;
  w_isFollowmeSlideShowOn : bool;
  w_leaderSlide : Z;
  w_leaderEffect : Z;
  w_slideLayerCache : gmap (list Z) (list bytes);
  w_renderedTileCount : Z;
  w_urpSocket : bool;                      (* the kit's URP socket is there *)
  w_effects : list Effect }.

#[export] Instance World_settable : Settable World := fun w =>
  {| w_db := w_db w; w_tiles := w_tiles w; w_client := w_client w;
     w_isFollowmeSlideShowOn := w_isFollowmeSlideShowOn w; w_leaderSlide := w_leaderSlide w;
     w_leaderEffect := w_leaderEffect w; w_slideLayerCache := w_slideLayerCache w;
     w_renderedTileCount := w_renderedTileCount w; w_urpSocket := w_urpSocket w; w_effects := w_effects w |}.

(** What happens outside while a command is handled. *)
Record InputEnv := {
  ie_env : Env;
  ie_randomKey : bytes;                    (* [Util::rng::getHexString] *)
  ie_httpSession : bytes -> bool }.        (* [http::Session::create(url)] succeeds *)
Context (ie : InputEnv).
Let ev : Env := ie_env ie.

Abbreviation IO := (SE World).

(** ** Access to the parts *)

Definition io_skip : IO unit := se_ret tt.
Definition when (c : bool) (m : IO unit) : IO unit := if c then m else io_skip.
Definition get_client : IO Client := fun w => (w, Ok (w_client w)).
Definition set_client (f : Client -> Client) : IO unit := se_modify (fun w => w <| w_client ::= f |>).
Definition on_db (f : bytes -> DB -> DB) : IO unit :=
  se_modify (fun w => w <| w_db ::= f (cl_id (w_client w)) |>).
Definition effect (e : Effect) : IO unit := se_modify (fun w => w <| w_effects ::= fun l => l ++ [e] |>).
(** A method of the tile half. *)
Definition on_tiles (m : Z -> Z -> SE TileServer.DocumentBroker unit) : IO unit := fun w =>
  let '(t, r) := m (cl_sid (w_client w)) (to_ms (ev_now ev)) (w_tiles w) in (w <| w_tiles := t |>, r).
Definition on_tile_session (f : ClientSession -> ClientSession) : IO unit :=
  on_tiles (fun sid _ => on_session sid (se_modify f)).

Definition send (msg : bytes) : IO unit := on_db (fun id => DocumentSave.sendTextFrame id msg).
Definition find_self (w : World) : option Session := find_session (cl_id (w_client w)) (w_db w).
Definition self_is (f : Session -> bool) (w : World) : bool :=
  match find_self w with Some s => f s | None => false end.
Definition ask (f : World -> bool) : IO bool := fun w => (w, Ok (f w)).

(** ** Forwarding to the kit *)

Definition forwardToChild (message : bytes) : IO unit :=
  if starts_with (str "urp ") message then
    do socket <- ask w_urpSocket;
    when (socket && (4 <=? length message)%nat) (effect (UrpToKit (drop 4 message)))
  else if starts_with (str "load ") message then
    do w <- se_get;
    match find_self w with
    | None => io_skip
    | Some _ =>
        when (db_kitSocket (w_db w))
          (on_db (fun id b => output (ToKit (load_frame tl js lc (Some (cl_browser (w_client w))) id message)) b))
    end
  else on_db (fun id b => (DocumentSave.forwardToChild ev id message b).1).

(** ** Trace events *)

Definition SYNTHETIC_COOL_PID_OFFSET : Z := 10000000.

Definition getTokenUInt64_if (token name : bytes) : option Z :=
  let '(v, res) := getTokenUInt64 token name in if res then v else None.

Definition trace_json (name ph args : bytes) (ts tid : Z) (tail : bytes) : bytes :=
  let q := [34] in
  str "{" ++ q ++ str "name" ++ q ++ str ":" ++ name ++ str "," ++ q ++ str "ph" ++ q ++ str ":" ++ q ++ ph ++ q
  ++ args ++ str "," ++ q ++ str "ts" ++ q ++ str ":" ++ to_string ts ++ str "," ++ q ++ str "pid" ++ q ++ str ":"
  ++ to_string (ic_pid ic + SYNTHETIC_COOL_PID_OFFSET) ++ str "," ++ q ++ str "tid" ++ q ++ str ":"
  ++ to_string tid ++ tail ++ str "}," ++ [chr_newline].

Definition json_number (name : bytes) (n : Z) : bytes :=
  str "," ++ [34] ++ name ++ [34] ++ str ":" ++ to_string n.

(** The record of a [TRACEEVENT]; the id of an asynchronous event is read even when the
    token gave none. *)
Definition trace_record (epoch : Z) (tokens : StringVector) (name ph : bytes) (ts : Z) : IO unit :=
  let args :=
    if (5 <=? sv_size tokens)%nat then
      match getTokenString_sv tokens (str "args") with
      | Some a => str "," ++ [34] ++ str "args" ++ [34] ++ str ":" ++ a
      | None => []
      end
    else [] in
  let time := u64 (ts + epoch) in
  if beq ph (str "i") then effect (TraceEvent (trace_json name ph args time 1 []))
  else if beq ph (str "S") || beq ph (str "F") then
    match getTokenUInt64_if (sv_get tokens 5) (str "tid") with
    | Some tid =>
        match (getTokenUInt64 (sv_get tokens 4) (str "id")).1 with
        | Some id => effect (TraceEvent (trace_json name ph args time tid (json_number (str "id") id)))
        | None => se_throw undefined
        end
    | None => io_skip
    end
  else if beq ph (str "X") then
    match getTokenUInt64_if (sv_get tokens 4) (str "dur") with
    | Some dur => effect (TraceEvent (trace_json name ph args time 1 (json_number (str "dur") dur)))
    | None => io_skip
    end
  else io_skip.

Definition traceevent (tokens : StringVector) : IO unit :=
  if negb (ic_enableTraceEventLogging ic) then io_skip
  else
    do c <- get_client;
    let epoch := cl_performanceCounterEpoch c in
    if (epoch =? 0) || (epoch <? 1620000000000000) || (2000000000000000 <? epoch) then io_skip
    else if (4 <=? sv_size tokens)%nat then
      match getTokenString (sv_get tokens 1) (str "name"), getTokenString (sv_get tokens 2) (str "ph"),
            getTokenUInt64_if (sv_get tokens 3) (str "ts") with
      | Some name, Some ph, Some ts => trace_record epoch tokens name ph ts
      | _, _, _ => io_skip
      end
    else io_skip.

(** ** The greeting *)

Definition rotateClipboardKey (notifyClient : bool) : IO unit :=
  do waiting <- ask (self_is inWaitDisconnected);
  if waiting then io_skip
  else
    exec set_client (fun c => c <| cl_clipboardKeys ::= fun keys => (ie_randomKey ie, keys.1) |>);
    when notifyClient (send (str "clipboardkey: " ++ ie_randomKey ie)).

(** [strtoull(s, &end, 10)] stops at the end of [s]. *)
Definition reads_all (s : bytes) : bool :=
  let digits := (split_sign (drop_spaces s)).2 in
  match digit_run digits with
  | [] => (length s =? 0)%nat
  | ds => (length ds =? length digits)%nat
  end.
Definition performance_epoch (tokens : StringVector) : Z :=
  if (4 <=? sv_size tokens)%nat && reads_all (sv_get tokens 2) then
    match ic_perfCounter ic (sv_get tokens 3) with
    | Some counter => u64 (cv_value (strtoul (sv_get tokens 2)) * 1000 - counter)
    | None => 0
    end
  else 0.

Definition coolclient (tokens : StringVector) : IO unit :=
  let bad := send (str "error: cmd=coolclient kind=badprotocolversion") in
  if (sv_size tokens <? 2)%nat then bad
  else
    do version <- se_lift (ParseVersion (sv_get tokens 1));
    if negb (bool_decide (version.1 = (0, 1))) then bad
    else
      exec set_client (fun c => c <| cl_performanceCounterEpoch := performance_epoch tokens |>);
      exec send (str "coolserver " ++ ic_versionJSON ic);
      exec send (str "lokitversion " ++ ic_lokitVersion ic);
      exec when (ic_enableTraceEventLogging ic) (send (str "enabletraceeventlogging yes"));
      exec send (str "osinfo " ++ ic_osInfo ic);
      rotateClipboardKey true.

(** ** Loading *)

Definition permissions_of (s : Session) : Permissions :=
  {| pm_isReadOnly := se_isReadOnly s; pm_isAllowChangeComments := se_isAllowChangeComments s;
     pm_isAllowManageRedlines := se_isAllowManageRedlines s |}.
Definition with_permissions (p : Permissions) (s : Session) : Session :=
  s <| se_isReadOnly := pm_isReadOnly p |> <| se_isAllowChangeComments := pm_isAllowChangeComments p |>
    <| se_isAllowManageRedlines := pm_isAllowManageRedlines p |>.

(** [parseDocOptions] on the client's own session: what it set before an exception stays. *)
Definition parse_load (tokens : StringVector) : IO Z := fun w =>
  match find_self w with
  | None => (w, Ok (-1))
  | Some s =>
      let start := {| ps_data := cl_data (w_client w); ps_perm := permissions_of s; ps_offset := 0;
                      ps_part := -1; ps_timestamp := [] |} in
      let '(ps, r) := parseDocOptions tl js tokens start in
      let user := so_userName (ps_data ps) in
      let w := w <| w_client ::= fun c => c <| cl_data := ps_data ps |> |>
                 <| w_db ::= update_session (cl_id (w_client w))
                               (fun s => with_permissions (ps_perm ps) s <| se_userName := user |>) |> in
      (w, match r with Ok _ => Ok (ps_part ps) | Throw e => Throw e end)
  end.

Definition slideshow_frame (name : bytes) (field : bytes) (n : Z) : bytes :=
  str "slideshowfollow " ++ name ++ str " {" ++ [34] ++ field ++ [34] ++ str ": " ++ to_string n ++ str "}".

Definition do_load (tokens : StringVector) : IO unit :=
  do part <- parse_load tokens;
  exec set_client (fun c => c <| cl_data ::= overrideDocOption js (cl_browser c) |>);
  do w <- se_get;
  exec when (w_isFollowmeSlideShowOn w)
    (exec send (slideshow_frame (str "displayslide") (str "currentSlide") (w_leaderSlide w));
     exec send (slideshow_frame (str "effect") (str "currentEffect") (w_leaderEffect w));
     send (str "slideshowfollow slideshowfollowon"));
  match find_self w with
  | Some s => forwardToChild (load_message tl lc (permissions_of s) (cl_data (w_client w)) part)
  | None => io_skip
  end.

(** [catch (const Poco::SyntaxException&)]. *)
Definition catch_syntax (m h : IO unit) : IO unit := fun w =>
  match m w with
  | (w', Throw SyntaxException) => h w'
  | r => r
  end.

Definition loadDocument (tokens : StringVector) : IO unit :=
  if (sv_size tokens <? 2)%nat then send (str "error: cmd=load kind=syntax")
  else catch_syntax (do_load tokens) (send (str "error: cmd=load kind=uriinvalid")).

Definition load (tokens : StringVector) : IO unit :=
  do c <- get_client;
  if negb (beq (so_docURL (cl_data c)) []) then send (str "error: cmd=load kind=docalreadyloaded")
  else loadDocument tokens.

Definition loadwithpassword (tokens : StringVector) : IO unit :=
  exec match getTokenString (sv_get tokens 1) (str "password") with
       | Some docPassword =>
           when ((1 <? sv_size tokens)%nat && negb (beq docPassword []))
             (set_client (fun c => c <| cl_data ::= fun d =>
                d <| so_haveDocPassword := true |> <| so_docPassword := docPassword |> |>))
       | None => io_skip
       end;
  loadDocument tokens.

(** ** Commands on a loaded document *)

Definition getCommandValues (message : bytes) (tokens : StringVector) : IO unit :=
  match (if (sv_size tokens =? 2)%nat then getTokenString (sv_get tokens 1) (str "command") else None) with
  | None => send (str "error: cmd=commandvalues kind=syntax")
  | Some command =>
      do w <- se_get;
      match b_tileCache (w_tiles w) ≫= fun c => getTextStream c CmdValues command with
      | Some cmdValues => send cmdValues
      | None => forwardToChild message
      end
  end.

Definition sendFontRendering (message : bytes) (tokens : StringVector) : IO unit :=
  match (if (sv_size tokens <? 2)%nat then None else getTokenString (sv_get tokens 1) (str "font")) with
  | None => send (str "error: cmd=renderfont kind=syntax")
  | Some font =>
      let text := default [] (getTokenString (sv_get tokens 2) (str "char")) in
      do w <- se_get;
      match b_tileCache (w_tiles w) ≫= fun c => lookupCachedStream c Font (font ++ text) with
      | Some cachedStream =>
          send (str "renderfont: " ++ cat tokens [chr_space] 1 None ++ [chr_newline] ++ cachedStream)
      | None => forwardToChild message
      end
  end.

Definition closedocument : IO unit :=
  do w <- se_get;
  let terminates := match cl_wopi (w_client w) with Some f => wf_enableOwnerTermination f | None => false end in
  if self_is se_isDocumentOwner w && terminates then on_db (fun _ => closeDocument (str "ownertermination"))
  else when (db_documentChangedInStorage (w_db w))
         (on_db (fun _ => stop (str "documentconflict " ++ so_userName (cl_data (w_client w))))).

(** The arguments of [save]. *)
Record SaveArgs := { sv_dontSaveIfUnmodified : Z; sv_dontTerminateEdit : Z; sv_extendedData : bytes }.
Definition save_argument (a : SaveArgs) (token : bytes) : result SaveArgs :=
  let attr := tokenize token chr_eq in
  if (sv_size attr =? 2)%nat then
    let name := sv_get attr 0 in
    let value := sv_get attr 1 in
    if beq name (str "dontTerminateEdit") then
      Ok {| sv_dontSaveIfUnmodified := sv_dontSaveIfUnmodified a; sv_dontTerminateEdit := (stringToInteger value).1;
            sv_extendedData := sv_extendedData a |}
    else if beq name (str "dontSaveIfUnmodified") then
      Ok {| sv_dontSaveIfUnmodified := (stringToInteger value).1; sv_dontTerminateEdit := sv_dontTerminateEdit a;
            sv_extendedData := sv_extendedData a |}
    else if beq name (str "extendedData") then
      match tl_decode tl value with
      | Some data => Ok {| sv_dontSaveIfUnmodified := sv_dontSaveIfUnmodified a;
                           sv_dontTerminateEdit := sv_dontTerminateEdit a; sv_extendedData := data |}
      | None => Throw SyntaxException
      end
    else Ok a
  else Ok a.
Definition save_arguments (tokens : StringVector) : result SaveArgs :=
  try a <- save_argument {| sv_dontSaveIfUnmodified := 1; sv_dontTerminateEdit := 1; sv_extendedData := [] |}
             (sv_get tokens 1);
  try a <- save_argument a (sv_get tokens 2);
  save_argument a (sv_get tokens 3).

Definition save (tokens : StringVector) : IO unit :=
  do writable <- ask (self_is se_isWritable);
  if negb writable then send (str "error: cmd=save kind=savefailed")
  else
    do a <- se_lift (save_arguments tokens);
    on_db (fun id b => (manualSave ev id (negb (sv_dontTerminateEdit a =? 0)) (negb (sv_dontSaveIfUnmodified a =? 0))
                          (sv_extendedData a) b).1).

Definition savetostorage (tokens : StringVector) : IO unit :=
  let force := if (1 <? sv_size tokens)%nat
               then default 1 (getTokenInteger (sv_get tokens 1) (str "force")).1 else 1 in
  on_db (fun id => uploadToStorage ev id (negb (force =? 0))).

(** [getTokenInteger(tokens[i], name, value)], when it succeeds. *)
Definition integer_at (tokens : StringVector) (i : nat) (name : bytes) : option Z :=
  let '(v, res) := getTokenInteger (sv_get tokens i) name in if res then v else None.

Definition clientvisiblearea (message : bytes) (tokens : StringVector) : IO unit :=
  let n := sv_size tokens in
  if negb ((n =? 5)%nat || (n =? 7)%nat) then io_skip
  else
    match integer_at tokens 1 (str "x"), integer_at tokens 2 (str "y"), integer_at tokens 3 (str "width"),
          integer_at tokens 4 (str "height") with
    | Some x, Some y, Some width, Some height =>
        let set_area := exec on_tile_session (fun s =>
            {| s_tracker := s_tracker s; s_tilesOnFly := s_tilesOnFly s; s_requestedTiles := s_requestedTiles s;
               s_senderQueue := s_senderQueue s; s_closeFrame := s_closeFrame s;
               s_clientVisibleArea := rect_make x y (Z.max width 0) (Z.max height 0);
               s_tileWidthTwips := s_tileWidthTwips s; s_tileHeightTwips := s_tileHeightTwips s;
               s_canonicalViewId := s_canonicalViewId s |});
          forwardToChild message in
        if (n =? 7)%nat then
          match integer_at tokens 5 (str "splitx"), integer_at tokens 6 (str "splity") with
          | Some splitX, Some splitY =>
              exec set_client (fun c => c <| cl_splitX := splitX |> <| cl_splitY := splitY |>); set_area
          | _, _ => io_skip
          end
        else set_area
    | _, _, _, _ => io_skip
    end.

Definition setclientpart (message : bytes) (tokens : StringVector) : IO unit :=
  do c <- get_client;
  if cl_isTextDocument c then io_skip
  else if negb (sv_size tokens =? 2)%nat then io_skip
  else match integer_at tokens 1 (str "part") with
       | None => io_skip
       | Some part => exec set_client (fun c => c <| cl_clientSelectedPart := part |>); forwardToChild message
       end.

Definition selectclientpart (message : bytes) (tokens : StringVector) : IO unit :=
  do c <- get_client;
  if cl_isTextDocument c then io_skip
  else
    let bad := send (str "error: cmd=selectclientpart kind=syntax") in
    if negb (sv_size tokens =? 3)%nat then bad
    else match integer_at tokens 1 (str "part"), integer_at tokens 2 (str "how") with
         | Some _, Some _ => forwardToChild message
         | _, _ => bad
         end.

Definition mark_modifying : IO unit := on_db (fun _ => updateLastModifyingActivityTime (ev_now ev)).

Definition moveselectedclientparts (message : bytes) (tokens : StringVector) : IO unit :=
  do c <- get_client;
  if cl_isTextDocument c then io_skip
  else
    let bad := send (str "error: cmd=moveselectedclientparts kind=syntax") in
    if negb (sv_size tokens =? 2)%nat then bad
    else match integer_at tokens 1 (str "position") with
         | None => bad
         | Some _ =>
             do editable <- ask (self_is isEditable);
             exec when editable mark_modifying; forwardToChild message
         end.

Definition clientzoom (message : bytes) (tokens : StringVector) : IO unit :=
  if (sv_size tokens <? 5)%nat then io_skip
  else
    match integer_at tokens 1 (str "tilepixelwidth"), integer_at tokens 2 (str "tilepixelheight"),
          integer_at tokens 3 (str "tiletwipwidth"), integer_at tokens 4 (str "tiletwipheight") with
    | Some tilePixelWidth, Some tilePixelHeight, Some tileTwipWidth, Some tileTwipHeight =>
        exec set_client (fun c => c <| cl_tileWidthPixel := tilePixelWidth |> <| cl_tileHeightPixel := tilePixelHeight |>);
        exec on_tile_session (fun s =>
            {| s_tracker := s_tracker s; s_tilesOnFly := s_tilesOnFly s; s_requestedTiles := s_requestedTiles s;
               s_senderQueue := s_senderQueue s; s_closeFrame := s_closeFrame s;
               s_clientVisibleArea := s_clientVisibleArea s; s_tileWidthTwips := tileTwipWidth;
               s_tileHeightTwips := tileTwipHeight; s_canonicalViewId := s_canonicalViewId s |});
        forwardToChild message
    | _, _, _, _ => io_skip
    end.

Definition removesession (firstLine : bytes) (tokens : StringVector) : IO unit :=
  do allowed <- ask (self_is (fun s => se_isDocumentOwner s || negb (se_isReadOnly s)));
  when ((1 <? sv_size tokens)%nat && allowed)
    (on_db (fun id b => removeSession ev id (broadcastMessage firstLine b))).

Definition renamefile (tokens : StringVector) : IO unit :=
  match (if (sv_size tokens <? 2)%nat then None else getTokenString (sv_get tokens 1) (str "filename")) with
  | None => send (str "error: cmd=renamefile kind=syntax")
  | Some encodedWopiFilename =>
      match tl_decode tl encodedWopiFilename with
      | None => se_throw SyntaxException
      | Some wopiFilename => fun w =>
          let '(b, error) := handleRenameFileCommand ev (cl_id (w_client w)) wopiFilename (w_db w) in
          when (negb (beq error [])) (send error) (w <| w_db := b |>)
      end
  end.

(** The [changepass] dialog of a session that is not the owner's. *)
Definition asks_changepass (tokens : StringVector) : bool :=
  if (2 <? sv_size tokens)%nat then
    match js_parse js (cat tokens [] 2 None) with
    | Some object =>
        match js_get js object (str "id") ≫= js_string js with
        | Some id => beq id (str "changepass")
        | None => false
        end
    | None => false
    end
  else false.
Definition dialogevent (firstLine : bytes) (tokens : StringVector) : IO unit :=
  do w <- se_get;
  if asks_changepass tokens && bool_decide (is_Some (cl_wopi (w_client w))) && negb (self_is se_isDocumentOwner w)
  then send (str "error: cmd=dialogevent kind=cantchangepass")
  else forwardToChild firstLine.

Definition loggingleveloverride (tokens : StringVector) : IO unit :=
  if equals tokens 1 (str "default") then effect (SetLogLevel [])
  else
    match ic_parseLevel ic (ic_leastVerboseLevel ic), ic_parseLevel ic (ic_mostVerboseLevel ic) with
    | Some leastVerboseAllowed, Some mostVerboseAllowed =>
        if equals tokens 1 (str "verbose") then effect (SetLogLevel (ic_mostVerboseLevel ic))
        else if equals tokens 1 (str "terse") then effect (SetLogLevel (ic_leastVerboseLevel ic))
        else match ic_parseLevel ic (sv_get tokens 1) with
             | Some level => when ((leastVerboseAllowed <=? level) && (level <=? mostVerboseAllowed))
                               (effect (SetLogLevel (sv_get tokens 1)))
             | None => io_skip
             end
    | _, _ => io_skip
    end.

Definition traceeventrecording (firstLine : bytes) (tokens : StringVector) : IO unit :=
  when (ic_traceEventEnable ic)
    (exec (if equals tokens 1 (str "start") then effect (RecordTraceEvents true)
           else when (equals tokens 1 (str "stop")) (effect (RecordTraceEvents false)));
     forwardToChild firstLine).

Definition resetaccesstoken (tokens : StringVector) : IO unit :=
  if negb (sv_size tokens =? 2)%nat then send (str "error: cmd=resetaccesstoken kind=syntax")
  else
    exec set_client (fun c => c <| cl_accessToken := sv_get tokens 1 |>);
    on_db (fun id => update_session id (fun s => s <| se_authExpired := false |>)).

Definition switch_request (tokens : StringVector) : IO unit :=
  if negb (sv_size tokens =? 2)%nat then send (str "error: cmd=switch_request kind=syntax")
  else on_db (fun id => switchMode ev id (sv_get tokens 1)).

(** ** Filters *)

Definition wopi_has (f : WopiFileInfo -> bool) (c : Client) : bool :=
  match cl_wopi c with Some i => f i | None => false end.

Definition filterDownloadAs (id : bytes) (c : Client) : bool :=
  if beq id [] then false
  else if beq id (str "print") && wopi_has wf_disablePrint c then false
  else if beq id (str "export") && wopi_has wf_disableExport c then false
  else negb (beq id (str "slideshow")
             && wopi_has (fun i => wf_disableExport i || negb (beq (wf_watermarkText i) [])) c).

Definition filterMessage (message : bytes) (c : Client) : bool :=
  let tokens := tokenize message chr_space in
  if equals tokens 0 (str "downloadas") then
    filterDownloadAs
      (if (3 <=? sv_size tokens)%nat then default [] (getTokenString (sv_get tokens 2) (str "id")) else []) c
  else if equals tokens 0 (str "gettextselection") then negb (wopi_has wf_disableCopy c)
  else true.

(** ** Locking *)

(** What [DocumentBroker::updateStorageLockState] says of a refusal. *)
Definition lock_error (b : DB) (s : Session) : bytes :=
  if se_authExpired s then str "Expired authorization token"
  else if se_isReadOnly s then str "Readonly session"
  else if bool_decide (is_Some (db_storage b)) then [] else str "Missing storage".

Definition attemptLock : IO unit := fun w =>
  match find_self w with
  | None => (w, Ok tt)
  | Some s =>
      if negb (se_isReadOnly s) || negb (se_isLockFailed s) then (w, Ok tt)
      else
        let id := cl_id (w_client w) in
        let '(b, result) := updateStorageLockState ev id LOCK (w_db w) in
        (w <| w_db := if result then setReadOnly id false b
                      else DocumentSave.sendTextFrame id (str "lockfailed:" ++ lock_error (w_db w) s) b |>, Ok tt)
  end.

(** ** Signatures, slide shows and slides *)

Definition handleSignatureAction (tokens : StringVector) : IO unit :=
  do c <- get_client;
  match parseJSON js (so_serverPrivateInfo (cl_data c)) with
  | None => io_skip
  | Some serverPrivateInfo =>
      let base := findJSONString js serverPrivateInfo (str "ESignatureBaseUrl") [] in
      let requestUrl := base ++ (if equals tokens 1 (str ".uno:PrepareSignature")
                                 then str "/api/signatures/prepare-files-for-signing"
                                 else if equals tokens 1 (str ".uno:DownloadSignature")
                                 then str "/api/signatures/download-signed-file" else []) in
      if negb (ie_httpSession ie requestUrl) then io_skip
      else
        match parseJSON js (cat tokens [chr_space] 2 None) ≫= fun o => js_getObject js o (str "body") with
        | None => io_skip
        | Some requestBody =>
            let secret := findJSONString js serverPrivateInfo (str "ESignatureSecret") [] in
            effect (SignatureRequest requestUrl (js_stringify js (js_set js requestBody (str "secret") secret)))
        end
  end.

(** [getJSONValue<int>(parser.parse(tokens[2]), name)]. *)
Definition json_int (tokens : StringVector) (name : bytes) : IO Z :=
  match js_parse js (sv_get tokens 2) with
  | Some object => se_ret (getJSONValue js (js_int js) 0 (js_get js object name))
  | None => se_throw json_error
  end.

Definition slideshowfollow (tokens : StringVector) : IO unit :=
  exec (if equals tokens 1 (str "newfollowmepresentation")
        then se_modify (fun w => w <| w_isFollowmeSlideShowOn := true |>)
        else if equals tokens 1 (str "endpresentation")
        then se_modify (fun w => w <| w_isFollowmeSlideShowOn := false |>)
        else if equals tokens 1 (str "effect") then
          do effectNumber <- json_int tokens (str "currentEffect");
          se_modify (fun w => w <| w_leaderEffect := effectNumber |>)
        else if equals tokens 1 (str "displayslide") then
          do slideNumber <- json_int tokens (str "currentSlide");
          se_modify (fun w => w <| w_leaderSlide := slideNumber |> <| w_leaderEffect := -1 |>)
        else io_skip);
  on_db (fun id => broadcastMessageToOthers (substrFromToken tokens 0 None) id).

Definition handleGetSlideRequest (tokens : StringVector) : IO unit :=
  do w <- se_get;
  match w_slideLayerCache w !! substrFromToken tokens 1 None with
  | Some layers => se_iter send layers
  | None => forwardToChild (substrFromToken tokens 0 None)
  end.

(** ** Browser settings *)

(** [updateBrowserSettingsJSON]; a value or a parent of the wrong type throws. *)
Fixpoint update_settings (update : js_object js) (names : list bytes) (settings : js_object js)
    : js_object js * result unit :=
  match names with
  | [] => (settings, Ok tt)
  | key :: names' =>
      match js_get js update key ≫= js_string js with
      | None => (settings, Throw json_error)
      | Some value =>
          match fields 46 [] key with
          | [parentKey; childKey] =>
              if existsb (beq parentKey) (js_names js settings) then
                match js_getObject js settings parentKey with
                | None => (settings, Throw json_error)
                | Some object =>
                    update_settings update names'
                      (js_setObject js settings parentKey (js_set js object childKey value))
                end
              else update_settings update names'
                     (js_setObject js settings parentKey (js_set js (js_new js) childKey value))
          | _ => update_settings update names' (js_set js settings key value)
          end
      end
  end.

Definition browsersetting (tokens : StringVector) : IO unit :=
  do c <- get_client;
  if beq (default [] (getTokenString (sv_get tokens 1) (str "action"))) (str "update") then
    let json := default [] (getTokenString (sv_get tokens 2) (str "json")) in
    match js_parse js json with
    | None => io_skip
    | Some update =>
        let '(settings, r) := update_settings update (js_names js update) (bs_json js (cl_browser c)) in
        exec set_client (fun c => c <| cl_browser := {| bs_sent := bs_sent js (cl_browser c); bs_json := settings |} |>);
        match r with
        | Ok _ => exec effect (SyncBrowserSettings (so_userId (cl_data c)) json); effect UploadBrowserSettings
        | Throw _ => io_skip
        end
    end
  else io_skip.

(** ** The dispatcher *)

(** [tokens.equals(0, name)]. *)
Definition is_cmd (tokens : StringVector) (name : String.string) : bool := equals tokens 0 (str name).
Arguments is_cmd tokens name%_string_scope.

(** The commands passed to the kit once the filters let them. *)
Definition forwarded_commands : list bytes :=
  [str "outlinestate"; str "downloadas"; str "getchildid"; str "gettextselection"; str "paste"; str "insertfile";
   str "key"; str "textinput"; str "windowkey"; str "mouse"; str "windowmouse"; str "windowgesture";
   str "resetselection"; str "saveas"; str "exportas"; str "selectgraphic"; str "selecttext"; str "windowselecttext";
   str "setpage"; str "uno"; str "urp"; str "useractive"; str "userinactive"; str "paintwindow"; str "windowcommand";
   str "asksignaturestatus"; str "rendershapeselection"; str "resizewindow"; str "removetextcontext";
   str "rendersearchresult"; str "geta11yfocusedparagraph"; str "geta11ycaretposition"; str "getpresentationinfo";
   str "slideshowfollow"].
Definition is_forwarded (tokens : StringVector) : bool := existsb (equals tokens 0) forwarded_commands.

(** Ctrl+q. *)
Definition quits_core (tokens : StringVector) : bool :=
  equals tokens 0 (str "key") && (sv_size tokens =? 4)%nat && equals tokens 2 (str "char=0")
  && equals tokens 3 (str "key=8720").

Definition forwarded (message firstLine : bytes) (tokens : StringVector) : IO unit :=
  if equals tokens 0 (str "uno")
     && (equals tokens 1 (str ".uno:PrepareSignature") || equals tokens 1 (str ".uno:DownloadSignature"))
  then handleSignatureAction tokens
  else
    exec when (equals tokens 0 (str "key")) (set_client (fun c => c <| cl_keyEvents ::= fun n => u64 (n + 1) |>));
    if quits_core tokens then io_skip
    else
      do editable <- ask (self_is isEditable);
      exec when (editable && tokenIndicatesDocumentModification tokens) mark_modifying;
      do c <- get_client;
      if negb (filterMessage firstLine c) then forwardToChild (str "dummymsg")
      else if equals tokens 0 (str "slideshowfollow") then slideshowfollow tokens
      else forwardToChild message.

(** The commands of a loaded document. *)
Definition document_command (message firstLine : bytes) (tokens : StringVector) : IO unit :=
  if is_cmd tokens "commandvalues" then getCommandValues message tokens
  else if is_cmd tokens "closedocument" then closedocument
  else if is_cmd tokens "versionrestore" then
    when ((1 <? sv_size tokens)%nat && equals tokens 1 (str "prerestore"))
      (on_db (fun _ => closeDocument (str "versionrestore: prerestore_ack")))
  else if is_cmd tokens "partpagerectangles" then send (str "partpagerectangles: ")
  else if is_cmd tokens "ping" then
    do w <- se_get; send (str "pong rendercount=" ++ to_string (w_renderedTileCount w))
  else if is_cmd tokens "renderfont" then sendFontRendering message tokens
  else if is_cmd tokens "status" || is_cmd tokens "statusupdate" then forwardToChild firstLine
  else if is_cmd tokens "tile" then on_tiles (TileServer.sendTile json_viewId terminating tokens)
  else if is_cmd tokens "tilecombine" then on_tiles (TileServer.sendCombinedTiles json_viewId terminating tokens)
  else if is_cmd tokens "save" then save tokens
  else if is_cmd tokens "savetostorage" then savetostorage tokens
  else if is_cmd tokens "clientvisiblearea" then clientvisiblearea message tokens
  else if is_cmd tokens "setclientpart" then setclientpart message tokens
  else if is_cmd tokens "selectclientpart" then selectclientpart message tokens
  else if is_cmd tokens "moveselectedclientparts" then moveselectedclientparts message tokens
  else if is_cmd tokens "clientzoom" then clientzoom message tokens
  else if is_cmd tokens "tileprocessed" then on_tiles (TileServer.tileprocessed json_viewId terminating tokens)
  else if is_cmd tokens "removesession" then removesession firstLine tokens
  else if is_cmd tokens "renamefile" then renamefile tokens
  else if is_cmd tokens "dialogevent" then dialogevent firstLine tokens
  else if is_cmd tokens "formfieldevent" || is_cmd tokens "sallogoverride" || is_cmd tokens "contentcontrolevent" then forwardToChild firstLine
  else if is_cmd tokens "loggingleveloverride" then loggingleveloverride tokens
  else if is_cmd tokens "traceeventrecording" then traceeventrecording firstLine tokens
  else if is_cmd tokens "a11ystate" then when (lc_accessibilityEnable lc) (forwardToChild message)
  else if is_cmd tokens "completefunction" then forwardToChild message
  else if is_cmd tokens "resetaccesstoken" then resetaccesstoken tokens
  else if is_cmd tokens "switch_request" then switch_request tokens
  else if is_forwarded tokens then forwarded message firstLine tokens
  else if is_cmd tokens "attemptlock" then attemptLock
  else if is_cmd tokens "blockingcommandstatus" then forwardToChild message
  else if is_cmd tokens "toggletiledumping" then forwardToChild message
  else if is_cmd tokens "getslide" then handleGetSlideRequest tokens
  else if is_cmd tokens "routetokensanitycheck" then effect RouteTokenSanityCheck
  else if is_cmd tokens "browsersetting" && (3 <=? sv_size tokens)%nat then browsersetting tokens
  else send (str "error: cmd=" ++ sv_get tokens 0 ++ str " kind=unknown").

(** Timestamps of user activity. *)
Definition note_activity (tokens : StringVector) : IO unit :=
  when (tokenIndicatesUserInteraction (sv_get tokens 0))
    (exec set_client (fun c => c <| cl_lastActivityTime := ev_now ev |>);
     exec on_db (fun _ => updateLastActivityTime (ev_now ev));
     do editing <- ask (self_is (fun s => isEditable s && isViewLoaded s));
     when editing (on_db updateEditingSessionId)).

(** The commands allowed before a document is loaded, and the check. *)
Definition command (message firstLine : bytes) (tokens : StringVector) : IO unit :=
  exec note_activity tokens;
  if is_cmd tokens "urp" then forwardToChild message
  else if is_cmd tokens "coolclient" then coolclient tokens
  else if is_cmd tokens "versionbar" then
    when (negb (beq (ic_latestVersion ic) [])) (send (str "versionbar: " ++ ic_latestVersion ic))
  else if is_cmd tokens "jserror" || is_cmd tokens "jsexception" then io_skip
  else if is_cmd tokens "load" then load tokens
  else if is_cmd tokens "loadwithpassword" then loadwithpassword tokens
  else
    do c <- get_client;
    if beq (so_docURL (cl_data c)) []
    then send (str "error: cmd=" ++ sv_get tokens 0 ++ str " kind=nodocloaded")
    else document_command message firstLine tokens.

Definition _handleInput (message : bytes) : IO unit :=
  let firstLine := getFirstLine message in
  let tokens := tokenize_data firstLine chr_space in
  do w <- se_get;
  if isMarkedToDestroyB (w_db w) then io_skip
  else if (sv_size tokens <? 1)%nat then send (str "error: cmd=empty kind=unknown")
  else if is_cmd tokens "DEBUG" || is_cmd tokens "ERROR" then io_skip
  else if is_cmd tokens "TRACEEVENT" then traceevent tokens
  else command message firstLine tokens.

(** [Session::handleMessage]: an exception ends the handling, what was done stays. *)
Definition handleMessage (message : bytes) (w : World) : World :=
  match message with
  | [] => w
  | _ => (_handleInput message w).1
  end.
End input.

Arguments w_db {js} _.
Arguments w_tiles {js} _.
Arguments w_client {js} _.
Arguments cl_id {js} _.
Arguments cl_data {js} _.
Arguments is_cmd tokens name%_string_scope.
