(* ===== verification/ClientInputSpec.v ===== *)
(** * What a client's commands can do

    The permissions of the sessions, what reaches the kit, and what the filters hold
    back, for every message a client may send ([ClientInput]). *)

From S2P Require Import Prelude RecordSet StateError Util StringVector Protocol Rectangle TileCache ClientSession TileServer JsonUtil LoadOptions LoadOptionsSpec Storage SaveManager DocumentSave DocumentPoll DocumentSaveSpec ClientInput.

Open Scope cool_scope.
Open Scope record_scope.

(** ** Permissions in the broker *)

(** [s'] is the same session with no more permissions than [s]. *)
Definition no_more (s s' : Session) : Prop :=
  se_id s' = se_id s /\
  (se_isReadOnly s = true -> se_isReadOnly s' = true) /\
  (se_isAllowChangeComments s' = true -> se_isAllowChangeComments s = true) /\
  (se_isAllowManageRedlines s' = true -> se_isAllowManageRedlines s = true) /\
  (se_isWritable s' = true -> se_isWritable s = true).

Lemma no_more_refl s : no_more s s.
Proof. by split_and!. Qed.
Lemma no_more_trans s1 s2 s3 : no_more s1 s2 -> no_more s2 s3 -> no_more s1 s3.
Proof. intros (? & ? & ? & ? & ?) (? & ? & ? & ? & ?). split_and!; [congruence|tauto..]. Qed.

(** No session gains a permission, and none is added. *)
Definition no_gain (b b' : DB) : Prop :=
  Forall (fun s' => Exists (fun s => no_more s s') (db_sessions b)) (db_sessions b').

#[export] Instance no_gain_preorder : PreOrder no_gain.
Proof.
  split.
  - intros b. apply Forall_forall. intros s Hs. apply Exists_exists. exists s. split; [done|apply no_more_refl].
  - intros b1 b2 b3 H12 H23. unfold no_gain in *. rewrite Forall_forall in *. intros s3 Hs3.
    apply H23, Exists_exists in Hs3 as (s2 & Hs2 & H3). apply H12, Exists_exists in Hs2 as (s1 & Hs1 & H2).
    apply Exists_exists. exists s1. split; [done|by eapply no_more_trans].
Qed.

Lemma no_gain_sessions b b' : db_sessions b' = db_sessions b -> no_gain b b'.
Proof. intros E. unfold no_gain. rewrite E. apply (reflexivity (R := no_gain)). Qed.

Lemma gain_update_session id f b : (forall s, no_more s (f s)) -> no_gain b (update_session id f b).
Proof.
  intros Hf. apply Forall_forall. intros s' Hs'. unfold update_session in Hs'. cbn in Hs'.
  apply list_elem_of_fmap in Hs' as (s & -> & Hs). apply Exists_exists. exists s. split; [done|].
  destruct (beq (se_id s) id); [apply Hf|apply no_more_refl].
Qed.
Lemma no_more_setState st s : no_more s (setState st s).
Proof. unfold setState. destruct (inWaitDisconnected s); [apply no_more_refl|by split_and!]. Qed.
Lemma gain_setState id st b : no_gain b (update_session id (setState st) b).
Proof. apply gain_update_session. intros s. apply no_more_setState. Qed.
Lemma gain_filter f b : no_gain b (b <| db_sessions ::= List.filter f |>).
Proof.
  apply Forall_forall. intros s Hs. cbn in Hs. apply Exists_exists. exists s. split; [|apply no_more_refl].
  apply list_elem_of_In in Hs. apply filter_In in Hs as [Hs _]. by apply list_elem_of_In.
Qed.
Create HintDb gain.
Ltac gain_field := first [apply no_gain_sessions; reflexivity | apply gain_filter].
Ltac gain_call := solve [auto 1 with gain].
Ltac gain := intros; cbn zeta; repeat (peel gain_field gain_call; cbn zeta).

Lemma gain_erase_session id b : no_gain b (erase_session id b).
Proof. apply gain_filter. Qed.
#[export] Hint Resolve gain_erase_session gain_setState : gain.
#[export] Hint Extern 1 (no_gain _ (update_session _ _ _)) =>
  (apply gain_update_session; intros ?; by split_and!) : gain.

Lemma gain_output o b : no_gain b (output o b).
Proof. unfold output. gain. Qed.
#[export] Hint Resolve gain_output : gain.

Lemma gain_sendTextFrame id msg b : no_gain b (DocumentSave.sendTextFrame id msg b).
Proof. unfold DocumentSave.sendTextFrame. gain. Qed.
#[export] Hint Resolve gain_sendTextFrame : gain.

Lemma gain_broadcastMessage msg b : no_gain b (broadcastMessage msg b).
Proof. unfold broadcastMessage. gain. Qed.
#[export] Hint Resolve gain_broadcastMessage : gain.

Lemma gain_broadcastMessageToOthers msg id b : no_gain b (broadcastMessageToOthers msg id b).
Proof. unfold broadcastMessageToOthers. gain. Qed.
#[export] Hint Resolve gain_broadcastMessageToOthers : gain.

Lemma gain_broadcastSaveResult success result errorMsg b : no_gain b (broadcastSaveResult success result errorMsg b).
Proof. unfold broadcastSaveResult. gain. Qed.
#[export] Hint Resolve gain_broadcastSaveResult : gain.

Lemma gain_blockUI msg b : no_gain b (blockUI msg b).
Proof. unfold blockUI. gain. Qed.
#[export] Hint Resolve gain_blockUI : gain.

Lemma gain_unblockUI b : no_gain b (unblockUI b).
Proof. unfold unblockUI. gain. Qed.
#[export] Hint Resolve gain_unblockUI : gain.

Lemma gain_forwardToChild ev id message b : no_gain b ((DocumentSave.forwardToChild ev id message b).1).
Proof. unfold DocumentSave.forwardToChild. gain. Qed.
#[export] Hint Resolve gain_forwardToChild : gain.

Lemma gain_stop reason b : no_gain b (stop reason b).
Proof. unfold stop. gain. Qed.
#[export] Hint Resolve gain_stop : gain.

Lemma gain_endActivityB b : no_gain b (endActivityB b).
Proof. unfold endActivityB. gain. Qed.
#[export] Hint Resolve gain_endActivityB : gain.

Lemma gain_startActivityB a b : no_gain b ((startActivityB a b).1).
Proof. unfold startActivityB. gain. Qed.
#[export] Hint Resolve gain_startActivityB : gain.

Lemma gain_endRenameFileCommand b : no_gain b (endRenameFileCommand b).
Proof. unfold endRenameFileCommand. gain. Qed.
#[export] Hint Resolve gain_endRenameFileCommand : gain.

Lemma gain_endSwitchingToOffline b : no_gain b (endSwitchingToOffline b).
Proof. unfold endSwitchingToOffline. gain. Qed.
#[export] Hint Resolve gain_endSwitchingToOffline : gain.

Lemma gain_sendUnoSave ev id x y z u v b : no_gain b ((sendUnoSave ev id x y z u v b).1).
Proof. unfold sendUnoSave. gain. Qed.
#[export] Hint Resolve gain_sendUnoSave : gain.

Lemma gain_manualSave ev id x y z b : no_gain b ((manualSave ev id x y z b).1).
Proof. unfold manualSave. gain. Qed.
#[export] Hint Resolve gain_manualSave : gain.

Lemma gain_autoSave ev x y z b : no_gain b ((autoSave ev x y z b).1).
Proof. unfold autoSave. gain. Qed.
#[export] Hint Resolve gain_autoSave : gain.

Lemma gain_reportUploadToStorageFailed b : no_gain b (reportUploadToStorageFailed b).
Proof. unfold reportUploadToStorageFailed. gain. Qed.
#[export] Hint Resolve gain_reportUploadToStorageFailed : gain.

Lemma gain_setUploadComplete b : no_gain b (setUploadComplete b).
Proof. unfold setUploadComplete. gain. Qed.
#[export] Hint Resolve gain_setUploadComplete : gain.

Lemma gain_uploadCallback_incomplete ev a b : no_gain b (uploadCallback_incomplete ev a b).
Proof. unfold uploadCallback_incomplete. gain. Qed.
#[export] Hint Resolve gain_uploadCallback_incomplete : gain.

Lemma gain_prepare_upload ev request attrs b : no_gain b (prepare_upload ev request attrs b).
Proof. unfold prepare_upload. gain. Qed.
#[export] Hint Resolve gain_prepare_upload : gain.

Lemma gain_start_upload ev up b : no_gain b (start_upload ev up b).
Proof. unfold start_upload. gain. Qed.
#[export] Hint Resolve gain_start_upload : gain.

Lemma gain_uploadToStorageInternal ev id p q x y z b : no_gain b (uploadToStorageInternal ev id p q x y z b).
Proof. unfold uploadToStorageInternal. gain. Qed.
#[export] Hint Resolve gain_uploadToStorageInternal : gain.

Lemma gain_uploadToStorage ev id force b : no_gain b (uploadToStorage ev id force b).
Proof. unfold uploadToStorage. gain. Qed.
#[export] Hint Resolve gain_uploadToStorage : gain.

Lemma gain_startRenameFileCommand ev b : no_gain b (startRenameFileCommand ev b).
Proof. unfold startRenameFileCommand. gain. Qed.
#[export] Hint Resolve gain_startRenameFileCommand : gain.

Lemma gain_handleRenameFileCommand ev id name b : no_gain b ((handleRenameFileCommand ev id name b).1).
Proof. unfold handleRenameFileCommand. gain. Qed.
#[export] Hint Resolve gain_handleRenameFileCommand : gain.

Lemma gain_startSwitchingToOffline ev id b : no_gain b (startSwitchingToOffline ev id b).
Proof. unfold startSwitchingToOffline. gain. Qed.
#[export] Hint Resolve gain_startSwitchingToOffline : gain.

Lemma gain_startSwitchingToOnline b : no_gain b (startSwitchingToOnline b).
Proof. unfold startSwitchingToOnline. gain. Qed.
#[export] Hint Resolve gain_startSwitchingToOnline : gain.

Lemma gain_switchMode ev id mode b : no_gain b (switchMode ev id mode b).
Proof. unfold switchMode. gain. Qed.
#[export] Hint Resolve gain_switchMode : gain.

Lemma gain_setLockFailed id reason b : no_gain b (setLockFailed id reason b).
Proof. unfold setLockFailed, setReadOnly. gain. Qed.
#[export] Hint Resolve gain_setLockFailed : gain.

Lemma gain_handleLockResult ev id result b : no_gain b ((handleLockResult ev id result b).1).
Proof. unfold handleLockResult. gain. Qed.
#[export] Hint Resolve gain_handleLockResult : gain.

Lemma gain_updateStorageLockState ev id lock b : no_gain b ((updateStorageLockState ev id lock b).1).
Proof. unfold updateStorageLockState. gain. Qed.
#[export] Hint Resolve gain_updateStorageLockState : gain.

Lemma gain_disconnectFromKit ev id b : no_gain b ((disconnectFromKit ev id b).1).
Proof. unfold disconnectFromKit. gain. Qed.
#[export] Hint Resolve gain_disconnectFromKit : gain.

Lemma gain_finalRemoveSession id b : no_gain b (finalRemoveSession id b).
Proof. unfold finalRemoveSession. gain. Qed.
#[export] Hint Resolve gain_finalRemoveSession : gain.

Lemma gain_failLoadingSessions remove b : no_gain b (failLoadingSessions remove b).
Proof. unfold failLoadingSessions. gain. Qed.
#[export] Hint Resolve gain_failLoadingSessions : gain.

Lemma gain_disconnectSessionInternal ev id b : no_gain b (disconnectSessionInternal ev id b).
Proof. unfold disconnectSessionInternal. gain. Qed.
#[export] Hint Resolve gain_disconnectSessionInternal : gain.

Lemma gain_removeSession ev id b : no_gain b (removeSession ev id b).
Proof. unfold removeSession. gain. Qed.
#[export] Hint Resolve gain_removeSession : gain.

Lemma gain_closeDocument reason b : no_gain b (closeDocument reason b).
Proof. unfold closeDocument. gain. Qed.
#[export] Hint Resolve gain_closeDocument : gain.

Lemma gain_updateLastActivityTime now b : no_gain b (updateLastActivityTime now b).
Proof. unfold updateLastActivityTime. gain. Qed.
Lemma gain_updateLastModifyingActivityTime now b : no_gain b (updateLastModifyingActivityTime now b).
Proof. unfold updateLastModifyingActivityTime. gain. Qed.
Lemma gain_updateEditingSessionId id b : no_gain b (updateEditingSessionId id b).
Proof. unfold updateEditingSessionId. gain. Qed.
#[export] Hint Resolve gain_updateLastActivityTime gain_updateLastModifyingActivityTime gain_updateEditingSessionId : gain.

(** ** Relations kept by a handler *)

Section keeps.
Context {S : Type}.

Definition keeps {A} (R : S -> S -> Prop) (m : SE (S) A) : Prop := forall w, R w (m w).1.

Lemma keeps_ret {A} R `{!PreOrder R} (a : A) : keeps R (se_ret a).
Proof. intros w. by simpl. Qed.
Lemma keeps_throw {A} R `{!PreOrder R} e : keeps R (se_throw (A := A) e).
Proof. intros w. by simpl. Qed.
Lemma keeps_lift {A} R `{!PreOrder R} (r : result A) : keeps R (se_lift r).
Proof. intros w. by simpl. Qed.
Lemma keeps_get R `{!PreOrder R} : keeps R (se_get (S := S)).
Proof. intros w. by simpl. Qed.
Lemma keeps_modify (R : S -> S -> Prop) f : (forall w, R w (f w)) -> keeps R (se_modify f).
Proof. intros H w. apply H. Qed.
Lemma keeps_io_bind {A B} R `{!PreOrder R} (m : SE (S) A) (f : A -> SE (S) B) :
  keeps R m -> (forall a, keeps R (f a)) -> keeps R (se_bind m f).
Proof.
  intros Hm Hf w. unfold se_bind. specialize (Hm w). destruct (m w) as [w' [a|e]]; simpl in *; [|done].
  etransitivity; [done|]. apply Hf.
Qed.
Lemma keeps_iter {A} R `{!PreOrder R} (f : A -> SE (S) unit) l : (forall a, keeps R (f a)) -> keeps R (se_iter f l).
Proof. intros Hf. induction l; simpl; [by apply keeps_ret|by apply keeps_io_bind]. Qed.
End keeps.

Lemma keeps_ask {js : JsonLib} (R : World js -> World js -> Prop) `{!PreOrder R} f : keeps R (ask js f).
Proof. intros w. by simpl. Qed.
Lemma keeps_get_client {js : JsonLib} (R : World js -> World js -> Prop) `{!PreOrder R} : keeps R (get_client js).
Proof. intros w. by simpl. Qed.

(** Follows the structure of a handler; [atom] proves what is left. *)
Ltac keeps_with atom :=
  repeat lazymatch goal with
  | |- keeps _ (se_ret _) => apply keeps_ret; exact _
  | |- keeps _ (io_skip _) => apply keeps_ret; exact _
  | |- keeps _ (se_throw _) => apply keeps_throw; exact _
  | |- keeps _ (se_lift _) => apply keeps_lift; exact _
  | |- keeps _ se_get => apply keeps_get; exact _
  | |- keeps _ (ask _ _) => apply keeps_ask; exact _
  | |- keeps _ (get_client _) => apply keeps_get_client; exact _
  | |- keeps _ (se_bind _ _) => apply keeps_io_bind; [exact _| |intros ?]
  | |- keeps _ (se_iter _ _) => apply keeps_iter; [exact _|intros ?]
  | |- keeps _ (when _ _ _) => unfold when
  | |- keeps _ (let '(_, _) := ?x in _) => destruct x
  | |- keeps _ (match ?x with _ => _ end) => destruct x
  | |- keeps _ _ => atom
  end.

(** ** No command but [load] gains a permission *)

Section permissions.
Context (tl : TextLib) (js : JsonLib) (lc : LoadConfig) (ic : InputConfig).
Context (json_viewId : bytes -> result bytes) (terminating : bool) (ie : InputEnv).

Definition no_gain_w (w w' : World js) : Prop := no_gain (w_db w) (w_db w').

#[local] Instance no_gain_w_preorder : PreOrder no_gain_w.
Proof. split; [intros w; unfold no_gain_w; reflexivity|intros w1 w2 w3; unfold no_gain_w; apply transitivity]. Qed.

Lemma keeps_on_db f : (forall id b, no_gain b (f id b)) -> keeps no_gain_w (on_db js f).
Proof. intros Hf w. apply Hf. Qed.
Lemma keeps_same {A} (m : SE (World js) A) : (forall w, w_db (m w).1 = w_db w) -> keeps no_gain_w m.
Proof. intros Hm w. unfold no_gain_w. rewrite Hm. reflexivity. Qed.
Lemma keeps_effect e : keeps no_gain_w (effect js e).
Proof. by apply keeps_same. Qed.
Lemma keeps_set_client f : keeps no_gain_w (set_client js f).
Proof. by apply keeps_same. Qed.
Lemma keeps_on_tiles m : keeps no_gain_w (on_tiles js ie m).
Proof. apply keeps_same. intros w. unfold on_tiles. by destruct (m _ _ _). Qed.

Ltac gain_atom :=
  first [ apply keeps_effect | apply keeps_set_client | apply keeps_on_tiles
        | apply keeps_on_db; intros; solve [gain]
        | apply keeps_same; reflexivity ].
Ltac keeps := keeps_with gain_atom.

Lemma keeps_forwardToChild message : keeps no_gain_w (forwardToChild tl js lc ie message).
Proof. unfold forwardToChild, effect. keeps. Qed.

Lemma keeps_attemptLock : keeps no_gain_w (attemptLock js ie).
Proof.
  intros w. unfold attemptLock. destruct (find_self js w) as [s|] eqn:Es; [|by simpl].
  destruct (negb (se_isReadOnly s) || negb (se_isLockFailed s)) eqn:E; [by simpl|].
  assert (Hl : updateStorageLockState (ie_env ie) (cl_id (w_client w)) LOCK (w_db w) = (w_db w, false)).
  { unfold updateStorageLockState. unfold find_self in Es. rewrite Es.
    apply orb_false_iff in E as [E _]. apply negb_false_iff in E. rewrite E. by destruct (se_authExpired s). }
  rewrite Hl. unfold no_gain_w. simpl. gain.
Qed.

Lemma keeps_send msg : keeps no_gain_w (send js msg).
Proof. unfold send. keeps. Qed.

Lemma keeps_renamefile tokens : keeps no_gain_w (renamefile tl js ie tokens).
Proof.
  unfold renamefile. pose proof keeps_send as Hs.
  destruct (if (sv_size tokens <? 2)%nat then _ else _) as [name|]; [|apply Hs].
  destruct (tl_decode tl name) as [filename|]; [|apply keeps_throw, _].
  intros w. destruct (handleRenameFileCommand _ _ _ _) as [b error] eqn:E.
  assert (Hb : no_gain (w_db w) b).
  { replace b with ((handleRenameFileCommand (ie_env ie) (cl_id (w_client w)) filename (w_db w)).1) by (by rewrite E).
    gain. }
  unfold when. destruct (negb _); [|exact Hb].
    transitivity (w <| w_db := b |>); [exact Hb|apply Hs].
Qed.

Create HintDb keeps.
#[local] Hint Resolve keeps_forwardToChild keeps_attemptLock keeps_send keeps_renamefile : keeps.

Ltac handler :=
  first [ solve [auto 1 with keeps] | gain_atom
        | progress unfold note_activity, coolclient, rotateClipboardKey, document_command,
    getCommandValues, sendFontRendering, closedocument, save, savetostorage, clientvisiblearea, setclientpart,
    selectclientpart, moveselectedclientparts, clientzoom, removesession, dialogevent, loggingleveloverride,
    traceeventrecording, resetaccesstoken, switch_request, forwarded, slideshowfollow, json_int, handleSignatureAction,
    handleGetSlideRequest, browsersetting, on_tile_session, mark_modifying, traceevent, trace_record
        | match goal with |- ?g => idtac g end; fail 2 ].

Lemma keeps_forwarded message firstLine tokens : keeps no_gain_w (forwarded tl js lc ie message firstLine tokens).
Proof. keeps_with handler. Qed.
Lemma keeps_document_command message firstLine tokens :
  keeps no_gain_w (document_command tl js lc ic json_viewId terminating ie message firstLine tokens).
Proof. pose proof (keeps_forwarded message firstLine tokens) as Hf. keeps_with ltac:(first [exact Hf|handler]). Qed.
Lemma keeps_command message firstLine tokens :
  is_cmd tokens "load" = false -> is_cmd tokens "loadwithpassword" = false ->
  keeps no_gain_w (command tl js lc ic json_viewId terminating ie message firstLine tokens).
Proof.
  intros Hl Hp. unfold command. rewrite Hl, Hp. pose proof (keeps_document_command message firstLine tokens) as Hd.
  keeps_with ltac:(first [exact Hd|handler]).
Qed.
Lemma keeps_traceevent tokens : keeps no_gain_w (traceevent js ic tokens).
Proof. keeps_with handler. Qed.

(** C19 (safety): only a load line gives permissions. Whatever else a client sends, no session of
    the document stops being read-only or becomes able to comment, to manage redlines or to
    write in the storage, and no session is added; [attemptlock] included. *)
Theorem only_load_gives_permissions message w :
  let tokens := tokenize_data (getFirstLine message) chr_space in
  is_cmd tokens "load" = false -> is_cmd tokens "loadwithpassword" = false ->
  no_gain (w_db w) (w_db (handleMessage tl js lc ic json_viewId terminating ie message w)).
Proof.
  intros tokens Hl Hp. unfold handleMessage. destruct message as [|c m]; [reflexivity|].
  apply (keeps_io_bind no_gain_w); [apply keeps_get; exact _|]. intros w0. fold tokens.
  pose proof (keeps_command (c :: m) (getFirstLine (c :: m)) tokens Hl Hp) as Hc.
  pose proof (keeps_traceevent tokens) as Ht. keeps_with ltac:(first [exact Hc|exact Ht|handler]).
Qed.
End permissions.

(** ** Which command it is *)

(** The first token decides every test of the command. *)
Lemma is_cmd_first tokens name n : equals tokens 0 name = true -> is_cmd tokens n = beq name (str n).
Proof.
  unfold is_cmd. rewrite !equals_strings. destruct (sv_strings tokens !! 0%nat) as [t|]; simpl; [|done].
  intros H. apply beq_eq in H as ->. done.
Qed.

Lemma equals_first tokens name u : equals tokens 0 name = true -> equals tokens 0 u = beq name u.
Proof.
  rewrite !equals_strings. destruct (sv_strings tokens !! 0%nat) as [t|]; simpl; [|done].
  intros H. apply beq_eq in H as ->. done.
Qed.
Lemma existsb_first tokens name l :
  equals tokens 0 name = true -> existsb (equals tokens 0) l = existsb (beq name) l.
Proof. intros H. induction l as [|u l IH]; [done|]. simpl. by rewrite (equals_first _ _ _ H), IH. Qed.

Ltac decide_names :=
  repeat match goal with
  | |- context [beq (str ?a) (str ?b)] =>
      let v := eval vm_compute in (beq (str a) (str b)) in change (beq (str a) (str b)) with v
  end; cbn [orb andb negb]; cbv beta iota.

(** ** What leaves the server *)

Section outputs.
Context (tl : TextLib) (js : JsonLib) (lc : LoadConfig) (ic : InputConfig).
Context (json_viewId : bytes -> result bytes) (terminating : bool) (ie : InputEnv).

(** A handler for the client [id] with the data [d] that leaves the tiles alone and adds only
    outputs in [P] and effects in [E]. *)
Definition is_client (id : bytes) (d : SessionData) (wf : option WopiFileInfo) (c : Client js) : Prop :=
  cl_id c = id /\ cl_data c = d /\ cl_wopi js c = wf.
Definition adds (id : bytes) (d : SessionData) (wf : option WopiFileInfo) (P : Output -> Prop) (E : Effect -> Prop) (w w' : World js) : Prop :=
  is_client id d wf (w_client w) ->
  is_client id d wf (w_client w') /\ w_tiles w' = w_tiles w /\
  (exists l, db_out (w_db w') = db_out (w_db w) ++ l /\ Forall P l) /\
  (exists l, w_effects js w' = w_effects js w ++ l /\ Forall E l).

#[export] Instance adds_preorder id d wf P E : PreOrder (adds id d wf P E).
Proof.
  split.
  - intros w Hid. do 2 (split; [done|]). split; exists []; by rewrite app_nil_r.
  - intros w1 w2 w3 H12 H23 Hid. destruct (H12 Hid) as (Hid2 & Ht2 & (l2 & Eo2 & Ho2) & (e2 & Ee2 & He2)).
    destruct (H23 Hid2) as (Hid3 & Ht3 & (l3 & Eo3 & Ho3) & (e3 & Ee3 & He3)).
    split; [done|]. split; [congruence|]. split.
    + exists (l2 ++ l3). rewrite Eo3, Eo2, app_assoc. split; [done|by apply Forall_app_2].
    + exists (e2 ++ e3). rewrite Ee3, Ee2, app_assoc. split; [done|by apply Forall_app_2].
Qed.

Lemma adds_client_bind {A} id d wf P E (f : Client js -> SE (World js) A) :
  (forall c, is_client id d wf c -> keeps (adds id d wf P E) (f c)) -> keeps (adds id d wf P E) (se_bind (get_client js) f).
Proof. intros Hf w Hid. exact (Hf (w_client w) Hid w Hid). Qed.

Lemma adds_on_db id d wf (P : Output -> Prop) E f :
  (forall b, exists l, db_out (f id b) = db_out b ++ l /\ Forall P l) -> keeps (adds id d wf P E) (on_db js f).
Proof.
  intros Hf w Hid. destruct Hid as (Hid & Hd & Hw). simpl. rewrite Hid. do 2 (split; [done|]). split; [apply Hf|].
  exists []. by rewrite app_nil_r.
Qed.
Lemma adds_quiet id d wf P E f : (forall id' b, db_out (f id' b) = db_out b) -> keeps (adds id d wf P E) (on_db js f).
Proof. intros Hf. apply adds_on_db. intros b. exists []. by rewrite Hf, app_nil_r. Qed.
Lemma adds_send id d wf (P : Output -> Prop) E msg : P (ToClient id msg) -> keeps (adds id d wf P E) (send js msg).
Proof.
  intros HP. apply adds_on_db. intros b. unfold DocumentSave.sendTextFrame.
  destruct (find_session id b) as [s|]; [destruct (se_isCloseFrame s)|].
  - exists []. by rewrite app_nil_r.
  - exists [ToClient id msg]. split; [done|by constructor].
  - exists []. by rewrite app_nil_r.
Qed.
Lemma adds_effect id d wf P (E : Effect -> Prop) e : E e -> keeps (adds id d wf P E) (effect js e).
Proof.
  intros He w Hid. simpl. do 2 (split; [done|]). split; [exists []; by rewrite app_nil_r|].
  exists [e]. split; [done|by constructor].
Qed.
Lemma adds_set_client id d wf P E f :
  (forall c, cl_id (f c) = cl_id c /\ cl_data (f c) = cl_data c /\ cl_wopi js (f c) = cl_wopi js c) ->
  keeps (adds id d wf P E) (set_client js f).
Proof.
  intros Hf w (Hid & Hd & Hw). destruct (Hf (w_client w)) as (E1 & E2 & E3). simpl.
  split; [split_and!; congruence|]. split; [done|]. split; exists []; by rewrite app_nil_r.
Qed.
Lemma adds_note_activity id d wf P E tokens : keeps (adds id d wf P E) (note_activity js ie tokens).
Proof. unfold note_activity. keeps_with ltac:(first [by apply adds_set_client|by apply adds_quiet]). Qed.

(** What does not leave the server: frames to clients, and trace records. *)
Definition to_client (o : Output) : Prop := exists id msg, o = ToClient id msg.
Definition is_trace (e : Effect) : Prop := exists record, e = TraceEvent record.

Ltac adds_atom :=
  first [ by apply adds_set_client | by apply adds_quiet | apply adds_send; by do 2 eexists
        | apply adds_effect; by eexists | apply adds_note_activity
        | progress unfold coolclient, rotateClipboardKey, traceevent, trace_record ].

Lemma adds_before_load id d wf message firstLine tokens :
  so_docURL d = [] ->
  is_cmd tokens "load" = false -> is_cmd tokens "loadwithpassword" = false -> is_cmd tokens "urp" = false ->
  keeps (adds id d wf to_client is_trace)
    (command tl js lc ic json_viewId terminating ie message firstLine tokens).
Proof.
  intros Hu Hl Hp Hurp. unfold command. rewrite Hl, Hp, Hurp.
  apply keeps_io_bind; [exact _|apply adds_note_activity|intros _].
  destruct (is_cmd tokens "coolclient"); [keeps_with adds_atom|].
  destruct (is_cmd tokens "versionbar"); [keeps_with adds_atom|].
  destruct (is_cmd tokens "jserror" || is_cmd tokens "jsexception"); [keeps_with adds_atom|].
  apply adds_client_bind. intros c (_ & Hd & _). rewrite Hd, Hu. simpl. keeps_with adds_atom.
Qed.

(** C22 (safety): until a document is loaded, only [load], [loadwithpassword] and [urp] reach the kit.
    Any other message leaves the tiles and the options of the session alone, and produces nothing but
    frames to clients and trace records. *)
Theorem nothing_before_load message w :
  let tokens := tokenize_data (getFirstLine message) chr_space in
  so_docURL (cl_data (w_client w)) = [] ->
  is_cmd tokens "load" = false -> is_cmd tokens "loadwithpassword" = false -> is_cmd tokens "urp" = false ->
  let w' := handleMessage tl js lc ic json_viewId terminating ie message w in
  w_tiles w' = w_tiles w /\ cl_data (w_client w') = cl_data (w_client w) /\
  (exists l, db_out (w_db w') = db_out (w_db w) ++ l /\ Forall to_client l) /\
  (exists l, w_effects js w' = w_effects js w ++ l /\ Forall is_trace l).
Proof.
  intros tokens Hu Hl Hp Hurp w'.
  cut (adds (cl_id (w_client w)) (cl_data (w_client w)) (cl_wopi js (w_client w)) to_client is_trace w w').
  { intros H. destruct H as ((_ & Hd & _) & Ht & Ho & He); [done|]. by split_and!. }
  unfold w', handleMessage. destruct message as [|c m]; [reflexivity|]. revert w Hu w'. intros w Hu _.
  pose proof (adds_before_load (cl_id (w_client w)) (cl_data (w_client w)) (cl_wopi js (w_client w)) (c :: m) (getFirstLine (c :: m)) tokens Hu Hl Hp Hurp) as Hc.
  generalize dependent (cl_data (w_client w)). generalize (cl_id (w_client w)), (cl_wopi js (w_client w)). intros id wf d Hu Hc.
  revert w. apply (keeps_io_bind (adds id d wf to_client is_trace)); [apply keeps_get; exact _|]. intros w. fold tokens.
  keeps_with ltac:(first [exact Hc|adds_atom]).
Qed.

(** ** The filters *)

(** What is forbidden: by the host's file information, if there is any, and the tokens
    of the message. Without the host, only a download without an id is. *)
Inductive forbidden (wopi : option WopiFileInfo) (tokens : StringVector) : Prop :=
| forbidden_print i : wopi = Some i -> equals tokens 0 (str "downloadas") = true -> sv_get tokens 2 = str "id=print" ->
    wf_disablePrint i = true -> forbidden wopi tokens
| forbidden_export i : wopi = Some i -> equals tokens 0 (str "downloadas") = true -> sv_get tokens 2 = str "id=export" ->
    wf_disableExport i = true -> forbidden wopi tokens
| forbidden_slideshow i : wopi = Some i -> equals tokens 0 (str "downloadas") = true ->
    sv_get tokens 2 = str "id=slideshow" -> wf_disableExport i = true \/ wf_watermarkText i <> [] ->
    forbidden wopi tokens
| forbidden_unnamed : equals tokens 0 (str "downloadas") = true ->
    (forall name, sv_get tokens 2 = str "id=" ++ name -> name = []) -> forbidden wopi tokens
| forbidden_copy i : wopi = Some i -> equals tokens 0 (str "gettextselection") = true ->
    wf_disableCopy i = true -> forbidden wopi tokens.

Lemma forbidden_first wopi tokens : forbidden wopi tokens ->
  equals tokens 0 (str "downloadas") = true \/ equals tokens 0 (str "gettextselection") = true.
Proof. destruct 1; auto. Qed.

Lemma unnamed_token t : (forall name, t = str "id=" ++ name -> name = []) -> default [] (getTokenString t (str "id")) = [].
Proof.
  intros H. unfold getTokenString. destruct (_ <=? _)%nat; [|done]. destruct (has_name t (str "id")) eqn:E; [|done].
  cbn [andb default]. apply H. unfold has_name in E. apply andb_true_iff in E as [E1 E2]. apply beq_eq in E1.
  change (length (str "id")) with 2%nat in *.
  unfold char_is in E2. destruct (t !! 2%nat) as [c|] eqn:E3; [apply Z.eqb_eq in E2 as ->|done].
  rewrite <- (take_drop 2 t) at 1. by rewrite E1, (drop_S _ _ _ E3).
Qed.

Lemma get_size tokens k t : sv_get tokens k = t -> t <> [] -> (k < sv_size tokens)%nat.
Proof.
  intros E Hne. rewrite sv_get_strings in E. rewrite sv_size_strings.
  destruct (sv_strings tokens !! k) eqn:H; simpl in E; [by eapply lookup_lt_Some|congruence].
Qed.

Lemma forbidden_filtered c firstLine :
  forbidden (cl_wopi js c) (tokenize firstLine chr_space) -> filterMessage js firstLine c = false.
Proof.
  intros H. unfold filterMessage. set (tokens := tokenize firstLine chr_space) in *.
  assert (Hid : forall t, sv_get tokens 2 = t -> t <> [] ->
    (if (3 <=? sv_size tokens)%nat then default [] (getTokenString (sv_get tokens 2) (str "id")) else [])
    = default [] (getTokenString t (str "id"))).
  { intros t E Hne. pose proof (get_size _ _ _ E Hne). rewrite (proj2 (Nat.leb_le 3 (sv_size tokens))) by lia. by rewrite E. }
  destruct H as [i Hi H0 H2 Hf|i Hi H0 H2 Hf|i Hi H0 H2 Hf|H0 Hs|i Hi H0 Hf]; rewrite ?H0.
  - rewrite (Hid _ H2) by done. unfold filterDownloadAs, wopi_has. rewrite Hi, Hf. reflexivity.
  - rewrite (Hid _ H2) by done. unfold filterDownloadAs, wopi_has. rewrite Hi, Hf. reflexivity.
  - rewrite (Hid _ H2) by done. unfold filterDownloadAs, wopi_has. rewrite Hi.
    assert (E : wf_disableExport i || negb (beq (wf_watermarkText i) []) = true).
    { apply orb_true_iff. destruct Hf as [Hf|Hf]; [by left|right]. by rewrite (proj2 (beq_neq _ _) Hf). }
    rewrite E. reflexivity.
  - destruct (3 <=? sv_size tokens)%nat; [by rewrite (unnamed_token _ Hs)|done].
  - assert (Hd : is_cmd tokens "downloadas" = false) by (by rewrite (is_cmd_first _ _ _ H0)).
    unfold is_cmd in Hd. rewrite Hd. unfold wopi_has. by rewrite Hi, Hf.
Qed.

Definition dummy_or_client (id : bytes) (o : Output) : Prop :=
  to_client o \/ o = ToKit (str "child-" ++ id ++ str " " ++ str "dummymsg").

Lemma adds_dummy id d wf E : keeps (adds id d wf (dummy_or_client id) E) (forwardToChild tl js lc ie (str "dummymsg")).
Proof.
  unfold forwardToChild. change (starts_with (str "urp ") (str "dummymsg")) with false.
  change (starts_with (str "load ") (str "dummymsg")) with false. cbv beta iota.
  apply adds_on_db. intros b. unfold DocumentSave.forwardToChild.
  repeat case_match; simpl; try (exists []; by rewrite app_nil_r).
  eexists. split; [reflexivity|]. constructor; [by right|done].
Qed.

(** Both tokenizers agree unless the line starts with a NUL. *)
Lemma tokenize_same s t : equals (tokenize s chr_space) 0 t = true -> tokenize_data s chr_space = tokenize s chr_space.
Proof.
  unfold tokenize_data, tokenize, tokenize_tokens. destruct s as [|c s]; [done|].
  by destruct (c =? chr_nul).
Qed.
Lemma equals_size tokens t : equals tokens 0 t = true -> (sv_size tokens <? 1)%nat = false.
Proof.
  rewrite equals_strings, sv_size_strings. destruct (sv_strings tokens) as [|u us]; [done|]. by simpl.
Qed.

(** The path of a filtered command. *)
Lemma adds_forbidden wopi id d message firstLine tokens name :
  equals tokens 0 name = true -> name = str "downloadas" \/ name = str "gettextselection" ->
  forbidden wopi (tokenize firstLine chr_space) ->
  keeps (adds id d wopi (dummy_or_client id) (fun _ => False))
    (command tl js lc ic json_viewId terminating ie message firstLine tokens).
Proof.
  intros H0 Hn Hf. unfold command. apply keeps_io_bind; [exact _|apply adds_note_activity|intros _].
  rewrite !(is_cmd_first _ _ _ H0).
  assert (Hc : is_forwarded tokens = true).
  { unfold is_forwarded. rewrite (existsb_first _ _ _ H0). by destruct Hn as [-> | ->]. }
  destruct Hn as [-> | ->]; decide_names; apply adds_client_bind; intros c _;
    (destruct (beq (so_docURL (cl_data c)) []); [apply adds_send; left; by do 2 eexists|]);
    unfold document_command; rewrite Hc, !(is_cmd_first _ _ _ H0); decide_names;
    unfold forwarded, quits_core; rewrite !(equals_first _ _ _ H0); decide_names; cbn [andb];
    (apply keeps_io_bind; [exact _|apply keeps_ret; exact _|intros _]);
    (apply keeps_io_bind; [exact _|apply keeps_ask; exact _|intros editable]);
    (apply keeps_io_bind; [exact _|unfold when; destruct (_ && _); [by apply adds_quiet|apply keeps_ret; exact _]|intros _]);
    apply adds_client_bind; intros c' (_ & _ & Hw); rewrite <- Hw in Hf;
    rewrite (forbidden_filtered c' firstLine Hf); cbn [negb]; apply adds_dummy.
Qed.

(** C20 (safety): what is forbidden does not reach the kit. A [downloadas] whose third token is
    [id=print], [id=export] or [id=slideshow] when the host disabled that for the session, one whose
    third token gives no id at all (with or without a host), and a [gettextselection] when the host
    disabled copying, sends the kit at most the placeholder [dummymsg], and has no other effect
    outside than frames to clients. *)
Theorem forbidden_not_forwarded message w :
  forbidden (cl_wopi js (w_client w)) (tokenize (getFirstLine message) chr_space) ->
  let w' := handleMessage tl js lc ic json_viewId terminating ie message w in
  w_tiles w' = w_tiles w /\ w_effects js w' = w_effects js w /\
  exists l, db_out (w_db w') = db_out (w_db w) ++ l /\ Forall (dummy_or_client (cl_id (w_client w))) l.
Proof.
  intros Hf w'. set (id := cl_id (w_client w)). set (wopi := cl_wopi js (w_client w)) in *.
  cut (adds id (cl_data (w_client w)) wopi (dummy_or_client id) (fun _ => False) w w').
  { intros H. destruct H as (_ & Ht & Ho & (l & He & Hl)); [by split_and!|]. split_and!; [done| |done].
    destruct l; [by rewrite app_nil_r in He|by inversion Hl]. }
  generalize (cl_data (w_client w)). intros d. unfold w', handleMessage. destruct message as [|c m]; [reflexivity|].
  clearbody id wopi. clear w'. revert w. change (keeps (adds id d wopi (dummy_or_client id) (fun _ => False))
    (_handleInput tl js lc ic json_viewId terminating ie (c :: m))).
  unfold _handleInput. apply keeps_io_bind; [exact _|apply keeps_get; exact _|]. intros w.
  destruct (isMarkedToDestroyB (w_db w)); [apply keeps_ret; exact _|].
  destruct (forbidden_first wopi _ Hf) as [H0|H0];
    rewrite (tokenize_same _ _ H0), (equals_size _ _ H0), !(is_cmd_first _ _ _ H0); decide_names;
    (apply (adds_forbidden wopi id d (c :: m) _ _ _ H0); [auto|exact Hf]).
Qed.
End outputs.

(** ** What a load line can do *)

Section load_line.
Context (tl : TextLib) (js : JsonLib) (lc : LoadConfig) (ic : InputConfig).
Context (json_viewId : bytes -> result bytes) (terminating : bool) (ie : InputEnv).

(** The sessions, and which one is the client's, are as they were. *)
Definition same_sessions (w w' : World js) : Prop :=
  cl_id (w_client w') = cl_id (w_client w) /\ db_sessions (w_db w') = db_sessions (w_db w).
#[export] Instance same_sessions_preorder : PreOrder same_sessions.
Proof. split; [by split|]. intros w1 w2 w3 [] []. split; congruence. Qed.

Lemma same_sessions_on_db f :
  (forall id b, db_sessions (f id b) = db_sessions b) -> keeps same_sessions (on_db js f).
Proof. intros Hf w. split; [done|apply Hf]. Qed.
Lemma sendTextFrame_sessions id msg b : db_sessions (DocumentSave.sendTextFrame id msg b) = db_sessions b.
Proof. unfold DocumentSave.sendTextFrame. by repeat case_match. Qed.

Lemma forwardToChild_sessions ev id msg b : db_sessions (DocumentSave.forwardToChild ev id msg b).1 = db_sessions b.
Proof. unfold DocumentSave.forwardToChild. by repeat case_match. Qed.

Ltac same_atom :=
  first [ apply same_sessions_on_db; intros; solve [apply sendTextFrame_sessions|apply forwardToChild_sessions|reflexivity]
        | (intros w0; by split)
        | progress unfold send, forwardToChild, effect ].

(** The tail of [do_load], after the options are read. *)
Definition after_parse (part : Z) : SE (World js) unit :=
    (exec set_client js (fun c => c <| cl_data ::= overrideDocOption js (cl_browser js c) |>);
     do w <- se_get;
     exec when js (w_isFollowmeSlideShowOn js w)
       (exec send js (slideshow_frame (str "displayslide") (str "currentSlide") (w_leaderSlide js w));
        exec send js (slideshow_frame (str "effect") (str "currentEffect") (w_leaderEffect js w));
        send js (str "slideshowfollow slideshowfollowon"));
     match find_self js w with
     | Some s => forwardToChild tl js lc ie (load_message tl lc (permissions_of s) (cl_data (w_client w)) part)
     | None => io_skip js
     end).
Lemma same_after_parse part : keeps same_sessions (after_parse part).
Proof. unfold after_parse. keeps_with same_atom. Qed.

Lemma find_updated id f b s :
  (forall s, se_id (f s) = se_id s) -> find_session id b = Some s -> find_session id (update_session id f b) = Some (f s).
Proof.
  intros Hf. unfold find_session, update_session. cbn. induction (db_sessions b) as [|t l IH]; [done|]. cbn.
  destruct (beq (se_id t) id) eqn:E; cbn.
  - rewrite Hf, E. by intros [= ->].
  - by rewrite E.
Qed.

(** A load line asking for write access, parsed on a session. *)
Lemma parse_readonly_line sv uri d p :
  sv_strings sv = [str "load"; str "url=" ++ uri; str "readonly=0"] ->
  exists d' n, parseDocOptions tl js sv (mk d p 0) = (mk d' (p <| pm_isReadOnly := false |>) n, Ok tt).
Proof.
  intros E. unfold parseDocOptions, se_bind, se_modify, se_get.
  assert (Hpart : leading_part sv (mk d p 0) = mk d p 1).
  { unfold leading_part. rewrite sv_size_strings, sv_get_strings, E. reflexivity. }
  rewrite Hpart. simpl ps_offset. rewrite E, skipn_cons, drop_0.
  assert (Hr : runs tl js [str "url=" ++ uri; str "readonly=0"] (mk d p 1)
    (mk (d <| so_docURL := uri |>) (p <| pm_isReadOnly := false |>) 3)).
  { unfold runs, se_iter, se_bind.
    change (str "url=" ++ uri) with (str "url" ++ [chr_eq] ++ uri). by rewrite option_token_name. }
  unfold runs in Hr. rewrite Hr. by do 2 eexists.
Qed.

Lemma find_self_same w w' : same_sessions w w' -> find_self js w' = find_self js w.
Proof. intros [Hid Hs]. unfold find_self, find_session. by rewrite Hid, Hs. Qed.

Lemma first_line_join t ts :
  plain chr_space t -> Forall (plain chr_space) ts ->
  getFirstLine (t ++ join_with chr_space ts) = t ++ join_with chr_space ts.
Proof.
  intros Ht Hts. unfold getFirstLine, getDelimitedInitialSubstring. rewrite getDelimiterPosition_none; [by rewrite take_ge|].
  assert (Hp : forall x, plain chr_space x -> Forall (fun c => c <> chr_newline) x).
  { intros x [_ Hx]. eapply Forall_impl; [exact Hx|]. simpl. tauto. }
  apply Forall_app_2; [by apply Hp|]. induction Hts as [|u us Hu Hus IH]; [constructor|].
  unfold join_with. simpl. constructor; [done|]. apply Forall_app_2; [by apply Hp|exact IH].
Qed.
Lemma tokens_join t ts :
  plain chr_space t -> head t <> Some chr_nul -> Forall (plain chr_space) ts ->
  sv_strings (tokenize_data (getFirstLine (t ++ join_with chr_space ts)) chr_space) = t :: ts.
Proof.
  intros Ht Hn Hts. rewrite first_line_join by done.
  rewrite tokenize_data_strings; [by apply tokens_spec_join|done|]. destruct Ht as [Hne _]. by destruct t.
Qed.

Lemma same_note_activity tokens : keeps same_sessions (note_activity js ie tokens).
Proof. unfold note_activity. keeps_with same_atom. Qed.
Lemma note_activity_ok tokens w : (note_activity js ie tokens w).2 = Ok tt.
Proof.
  unfold note_activity, when. destruct (tokenIndicatesUserInteraction _); [|done].
  unfold se_bind, set_client, on_db, se_modify, ask. by destruct (self_is _ _ _).
Qed.

(** The message of a load, up to the loading. *)
Lemma handle_load w message tokens :
  message <> [] -> tokens = tokenize_data (getFirstLine message) chr_space ->
  equals tokens 0 (str "load") = true -> (2 <= sv_size tokens)%nat ->
  isMarkedToDestroyB (w_db w) = false -> so_docURL (cl_data (w_client w)) = [] ->
  exists w1, same_sessions w w1 /\
  handleMessage tl js lc ic json_viewId terminating ie message w
  = (catch_syntax js (do_load tl js lc ie tokens) (send js (str "error: cmd=load kind=uriinvalid")) w1).1.
Proof.
  intros Hne -> H0 Hsize Hd Hu. set (tokens := tokenize_data (getFirstLine message) chr_space) in *.
  pose proof (same_note_activity tokens w) as Hs. pose proof (note_activity_ok tokens w) as Hok.
  destruct (adds_note_activity js ie (cl_id (w_client w)) (cl_data (w_client w)) (cl_wopi js (w_client w))
              (fun _ => True) (fun _ => True) tokens w) as ((_ & Hdata & _) & _); [done|].
  destruct (note_activity js ie tokens w) as [w1 r] eqn:E. simpl in *. subst r. exists w1. split; [done|].
  unfold handleMessage. destruct message as [|c m]; [done|]. f_equal. unfold _handleInput. fold tokens.
  unfold se_bind at 1. unfold se_get at 1. cbv beta iota. rewrite Hd, (equals_size _ _ H0), !(is_cmd_first _ _ _ H0). decide_names.
  unfold command. rewrite !(is_cmd_first _ _ _ H0). decide_names. rewrite (se_bind_ok _ _ _ _ _ E).
  unfold load. rewrite (se_bind_ok _ _ _ w1 (w_client w1)) by done. rewrite Hdata, Hu. cbn [beq negb].
  change (negb (beq [] [])) with false. cbv beta iota. unfold loadDocument. by rewrite (proj2 (Nat.ltb_ge _ _) Hsize).
Qed.

(** Fact (error): the load line decides the permissions. A session the host opened read-only becomes
    editable by sending [readonly=0] with the first [load], whether or not it may write in the
    storage. *)
Theorem load_line_lifts_readonly w s uri :
  isMarkedToDestroyB (w_db w) = false -> find_self js w = Some s -> so_docURL (cl_data (w_client w)) = [] ->
  no_blank uri ->
  let w' := handleMessage tl js lc ic json_viewId terminating ie (str "load url=" ++ uri ++ str " readonly=0") w in
  exists s', find_self js w' = Some s' /\ isEditable s' = true /\ se_isWritable s' = se_isWritable s.
Proof.
  intros Hd Hs Hu Huri. set (message := str "load url=" ++ uri ++ str " readonly=0").
  assert (Hm : message = str "load" ++ join_with chr_space [str "url=" ++ uri; str "readonly=0"]) by done.
  set (tokens := tokenize_data (getFirstLine message) chr_space).
  assert (Ht : sv_strings tokens = [str "load"; str "url=" ++ uri; str "readonly=0"]).
  { unfold tokens. rewrite Hm. apply tokens_join; [split; [done|repeat constructor; discriminate]|done|].
    apply Forall_cons. split; [|apply Forall_singleton]; split; [done| |done|by apply no_blank_name].
    by apply no_blank_app; [apply no_blank_name|]. }
  destruct (handle_load w message tokens) as (w1 & Hw1 & E); [done|done| | |done|done|].
  { by rewrite equals_strings, Ht. } { rewrite sv_size_strings, Ht. simpl. lia. }
  intros w'. unfold w'. rewrite E. clear w' E.
  pose proof (find_self_same _ _ Hw1) as Hs1. rewrite Hs in Hs1.
  destruct (parse_readonly_line tokens uri (cl_data (w_client w1)) (permissions_of s) Ht) as (d' & n & Ep).
  change (do_load tl js lc ie tokens) with (do part <- parse_load tl js tokens; after_parse part). set (w2 := w1 <| w_client ::= fun c => c <| cl_data := d' |> |>
    <| w_db ::= update_session (cl_id (w_client w1))
         (fun s0 => with_permissions (permissions_of s <| pm_isReadOnly := false |>) s0 <| se_userName := so_userName d' |>) |>).
  assert (Ew : parse_load tl js tokens w1 = (w2, Ok (-1))).
  { unfold parse_load. rewrite Hs1. unfold mk in Ep. by rewrite Ep. }
  assert (Hs2 : find_self js w2 = Some (with_permissions (permissions_of s <| pm_isReadOnly := false |>) s <| se_userName := so_userName d' |>)).
  { pose (f := fun s0 : Session => with_permissions (permissions_of s <| pm_isReadOnly := false |>) s0
      <| se_userName := so_userName d' |>).
    assert (Hf : forall s0, se_id (f s0) = se_id s0) by (intros s0; reflexivity).
    exact (find_updated (cl_id (w_client w1)) f (w_db w1) s Hf Hs1). }
  exists (with_permissions (permissions_of s <| pm_isReadOnly := false |>) s <| se_userName := so_userName d' |>).
  split; [|done]. rewrite <- Hs2. apply find_self_same. unfold catch_syntax. rewrite (se_bind_ok _ _ _ _ _ Ew).
  pose proof (same_after_parse (-1) w2) as Htail. destruct (after_parse (-1) w2) as [w3 [[]|e]]; [exact Htail|].
  destruct e; try exact Htail. transitivity w3; [exact Htail|].
  apply same_sessions_on_db. intros. apply sendTextFrame_sessions.
Qed.
End load_line.

(** ** Input reaches the kit *)

Section forwarding.
Context (tl : TextLib) (js : JsonLib) (lc : LoadConfig) (ic : InputConfig).
Context (json_viewId : bytes -> result bytes) (terminating : bool) (ie : InputEnv).

(** Only timestamps and the count of key strokes may differ. *)
Record untouched (w w' : World js) : Prop := {
  u_id : cl_id (w_client w') = cl_id (w_client w);
  u_wopi : cl_wopi js (w_client w') = cl_wopi js (w_client w);
  u_data : cl_data (w_client w') = cl_data (w_client w);
  u_tiles : w_tiles w' = w_tiles w;
  u_effects : w_effects js w' = w_effects js w;
  u_out : db_out (w_db w') = db_out (w_db w);
  u_sessions : db_sessions (w_db w') = db_sessions (w_db w);
  u_docState : db_docState (w_db w') = db_docState (w_db w);
  u_stop : db_stop (w_db w') = db_stop (w_db w);
  u_kitSocket : db_kitSocket (w_db w') = db_kitSocket (w_db w) }.
#[export] Instance untouched_preorder : PreOrder untouched.
Proof. split; [by split|]. intros w1 w2 w3 [] []. split; congruence. Qed.

Ltac untouched_atom := first [progress unfold mark_modifying | (intros w0; by split)].

Lemma untouched_note_activity tokens : keeps untouched (note_activity js ie tokens).
Proof. unfold note_activity. keeps_with untouched_atom. Qed.

Lemma is_cmd_not_forwarded tokens n :
  is_forwarded tokens = true -> existsb (beq (str n)) forwarded_commands = false -> is_cmd tokens n = false.
Proof.
  unfold is_forwarded, is_cmd. intros Hf Hn. destruct (equals tokens 0 (str n)) eqn:E; [|done].
  by rewrite (existsb_first _ _ _ E), Hn in Hf.
Qed.

(** The commands that are handled here before they are passed on. *)
Definition intercepted (tokens : StringVector) : bool :=
  is_cmd tokens "urp" || is_cmd tokens "slideshowfollow" || quits_core tokens
  || (is_cmd tokens "uno" && (equals tokens 1 (str ".uno:PrepareSignature") || equals tokens 1 (str ".uno:DownloadSignature"))).

(** The document is loaded, is not being closed, and the kit is there. *)
Definition serving (w : World js) : Prop :=
  is_Some (find_self js w) /\ so_docURL (cl_data (w_client w)) <> [] /\ isLoaded (w_db w) = true /\
  isUnloading (ie_env ie) (w_db w) = false /\ db_kitSocket (w_db w) = true.

Lemma forwardToChild_serving w w1 message :
  serving w -> untouched w w1 ->
  starts_with (str "urp ") message = false -> starts_with (str "load ") message = false ->
  let w' := (forwardToChild tl js lc ie message w1).1 in
  w_tiles w' = w_tiles w /\ w_effects js w' = w_effects js w /\
  db_out (w_db w') = db_out (w_db w) ++ [ToKit (str "child-" ++ cl_id (w_client w) ++ str " " ++ message)].
Proof.
  intros ([s Hs] & _ & Hl & Hu & Hk) [] Hurp Hload w'. unfold w', forwardToChild. rewrite Hurp, Hload. simpl.
  unfold find_self, find_session, isLoaded, isUnloading, isUnloadingUnrecoverably, isMarkedToDestroyB in *.
  unfold DocumentSave.forwardToChild, find_session, isLoaded, isUnloading, isUnloadingUnrecoverably, isMarkedToDestroyB.
  rewrite u_id0, u_sessions0, u_docState0, u_stop0, u_kitSocket0, Hs, Hl, Hu, Hk. simpl.
  by rewrite u_tiles0, u_effects0, u_out0.
Qed.

Lemma serving_not_destroyed w : serving w -> isMarkedToDestroyB (w_db w) = false.
Proof.
  intros (_ & _ & _ & Hu & _). unfold isUnloading, isUnloadingUnrecoverably in Hu.
  rewrite !orb_false_iff in Hu. tauto.
Qed.

Lemma forwarded_size tokens : is_forwarded tokens = true -> (sv_size tokens <? 1)%nat = false.
Proof.
  unfold is_forwarded. intros H. apply existsb_exists in H as (name & _ & H). by apply equals_size in H.
Qed.

(** A handler that always returns, in untouched states. *)
Lemma untouched_bind {B} (m : SE (World js) unit) (f : unit -> SE (World js) B) w (Q : World js -> Prop) :
  keeps untouched m -> (m w).2 = Ok tt -> (forall w1, untouched w w1 -> Q (f tt w1).1) -> Q (se_bind m f w).1.
Proof.
  intros Hm Hok HQ. specialize (Hm w). destruct (m w) as [w1 r] eqn:E. simpl in *. subst r.
  rewrite (se_bind_ok _ _ _ _ _ E). by apply HQ.
Qed.

Lemma filter_untouched line w w1 :
  untouched w w1 -> filterMessage js line (w_client w1) = filterMessage js line (w_client w).
Proof. intros []. unfold filterMessage, filterDownloadAs, wopi_has. by rewrite u_wopi0. Qed.

(** The message was passed on from [w], whatever the timestamps. *)
Definition passed_on (message : bytes) (w w' : World js) : Prop :=
  w_tiles w' = w_tiles w /\ w_effects js w' = w_effects js w /\
  db_out (w_db w') = db_out (w_db w) ++ [ToKit (str "child-" ++ cl_id (w_client w) ++ str " " ++ message)].

Lemma forwarded_passed_on message tokens w w1 :
  serving w -> untouched w w1 -> intercepted tokens = false ->
  filterMessage js (getFirstLine message) (w_client w) = true ->
  starts_with (str "urp ") message = false -> starts_with (str "load ") message = false ->
  passed_on message w (forwarded tl js lc ie message (getFirstLine message) tokens w1).1.
Proof.
  intros Hw H1 Hi Hfilter Hurp Hload.
  unfold intercepted, is_cmd in Hi. rewrite !orb_false_iff in Hi. destruct Hi as (((_ & His) & Hiq) & Hin).
  unfold forwarded. rewrite Hin, Hiq, His.
  apply (untouched_bind _ _ w1 (passed_on message w)); [keeps_with untouched_atom|unfold when; by case_match|].
  intros w2 H2. rewrite (se_bind_ok _ _ w2 w2 (self_is js isEditable w2)) by done.
  apply (untouched_bind _ _ w2 (passed_on message w)); [keeps_with untouched_atom|unfold when; by case_match|].
  intros w3 H3. rewrite (se_bind_ok _ _ w3 w3 (w_client w3)) by done.
  assert (H : untouched w w3) by (by transitivity w1; [|transitivity w2]).
  rewrite (filter_untouched _ _ _ H), Hfilter. cbn [negb]. by apply forwardToChild_serving.
Qed.

Lemma command_forwarded message tokens w :
  serving w -> is_forwarded tokens = true -> intercepted tokens = false ->
  filterMessage js (getFirstLine message) (w_client w) = true ->
  starts_with (str "urp ") message = false -> starts_with (str "load ") message = false ->
  passed_on message w (command tl js lc ic json_viewId terminating ie message (getFirstLine message) tokens w).1.
Proof.
  intros Hw Hf Hi Hfilter Hurp Hload. pose proof (is_cmd_not_forwarded tokens) as Hn.
  pose proof Hi as Hiu. unfold intercepted in Hiu. rewrite !orb_false_iff in Hiu. destruct Hiu as (((Hiu & _) & _) & _).
  unfold command. apply (untouched_bind _ _ w (passed_on message w)); [apply untouched_note_activity|apply note_activity_ok|].
  intros w1 H1. rewrite Hiu, !Hn by done. cbn [orb].
  rewrite (se_bind_ok _ _ w1 w1 (w_client w1)) by done.
  assert (Hu : beq (so_docURL (cl_data (w_client w1))) [] = false).
  { rewrite (u_data _ _ H1). apply beq_neq. apply Hw. }
  rewrite Hu. unfold document_command. rewrite Hf, !Hn by done. cbn [orb]. by apply forwarded_passed_on.
Qed.

Lemma input_passed_on message w :
  let tokens := tokenize_data (getFirstLine message) chr_space in
  serving w -> is_forwarded tokens = true -> intercepted tokens = false ->
  filterMessage js (getFirstLine message) (w_client w) = true ->
  starts_with (str "urp ") message = false -> starts_with (str "load ") message = false ->
  passed_on message w (handleMessage tl js lc ic json_viewId terminating ie message w).
Proof.
  intros tokens Hw Hf Hi Hfilter Hurp Hload. unfold handleMessage. destruct message as [|c m].
  { by vm_compute in Hf. }
  pose proof (is_cmd_not_forwarded tokens) as Hn. unfold _handleInput. fold tokens.
  rewrite (se_bind_ok _ _ w w w) by done. rewrite (serving_not_destroyed _ Hw).
  rewrite (forwarded_size _ Hf), !Hn by done. cbn [orb]. by apply command_forwarded.
Qed.

(** C21 (functional): the user's input reaches the kit once and unchanged. While the document is served,
    a message of one of the commands for the kit, which the filters let and which is not handled by the
    server itself, is forwarded whole behind the prefix of the view, and nothing else leaves. The
    exception is [uno .uno:Save...], which the broker asserts never to get: the server has its own
    save command ([uno_save_gets_through]). *)
Theorem input_reaches_kit message w :
  let tokens := tokenize_data (getFirstLine message) chr_space in
  serving w -> is_forwarded tokens = true -> intercepted tokens = false ->
  filterMessage js (getFirstLine message) (w_client w) = true ->
  starts_with (str "urp ") message = false -> starts_with (str "load ") message = false ->
  starts_with (str "uno .uno:Save") message = false ->
  let w' := handleMessage tl js lc ic json_viewId terminating ie message w in
  w_tiles w' = w_tiles w /\ w_effects js w' = w_effects js w /\
  db_out (w_db w') = db_out (w_db w) ++ [ToKit (str "child-" ++ cl_id (w_client w) ++ str " " ++ message)].
Proof. intros tokens Hw Hf Hi Hfilter Hurp Hload _. by apply input_passed_on. Qed.

(** Fact (error): nothing but an assertion keeps a client's own [.uno:Save] from the kit. Where
    assertions are compiled out, the dispatcher forwards [uno .uno:Save] and whatever follows like any
    other input, although the broker's comment says that it should not get through. *)
Theorem uno_save_gets_through rest w :
  let message := str "uno .uno:Save" ++ rest in
  let tokens := tokenize_data (getFirstLine message) chr_space in
  serving w -> is_forwarded tokens = true -> intercepted tokens = false ->
  filterMessage js (getFirstLine message) (w_client w) = true ->
  let w' := handleMessage tl js lc ic json_viewId terminating ie message w in
  db_out (w_db w') = db_out (w_db w) ++ [ToKit (str "child-" ++ cl_id (w_client w) ++ str " " ++ message)].
Proof.
  intros message tokens Hw Hf Hi Hfilter. apply (input_passed_on message w); [done..| |]; by vm_compute.
Qed.
End forwarding.

(** ** Concrete sessions *)

Module SampleInput.
Definition config : InputConfig :=
  {| ic_enableTraceEventLogging := false; ic_traceEventEnable := false; ic_pid := 1; ic_versionJSON := str "{}";
     ic_lokitVersion := str "{}"; ic_osInfo := str "unknown"; ic_latestVersion := [];
     ic_leastVerboseLevel := str "fatal"; ic_mostVerboseLevel := str "notice";
     ic_parseLevel := fun _ => Some 1; ic_perfCounter := fun _ => None |}.
Definition env : InputEnv :=
  {| ie_env := sample_env 5000000; ie_randomKey := str "00ff"; ie_httpSession := fun _ => true |}.
Definition wopi : WopiFileInfo :=
  {| wf_disableCopy := true; wf_disablePrint := true; wf_disableExport := false; wf_watermarkText := [];
     wf_enableOwnerTermination := false |}.
Definition tiles : TileServer.DocumentBroker :=
  {| b_tileVersion := 1; b_tileCache := None; b_sessions := ∅; b_childProcess := [] |}.
(** A session with a document, or before its load. *)
Definition world (url : bytes) (readOnly : bool) : World Sample.js :=
  {| w_db := sample_broker <| db_sessions := [sample_session <| se_isReadOnly := readOnly |> <| se_isWritable := negb readOnly |>] |>;
     w_tiles := tiles;
     w_client := {| cl_id := se_id sample_session; cl_sid := 1; cl_data := kit_data 0 <| so_docURL := url |>;
                    cl_browser := Sample.settings; cl_wopi := Some wopi; cl_splitX := 0; cl_splitY := 0;
                    cl_clientSelectedPart := 0; cl_tileWidthPixel := 256; cl_tileHeightPixel := 256;
                    cl_isTextDocument := true; cl_keyEvents := 0; cl_performanceCounterEpoch := 0;
                    cl_accessToken := []; cl_clipboardKeys := ([], []); cl_lastActivityTime := 0 |};
     w_isFollowmeSlideShowOn := false; w_leaderSlide := 0; w_leaderEffect := -1; w_slideLayerCache := ∅;
     w_renderedTileCount := 0; w_urpSocket := true; w_effects := [] |}.
Definition handle (message : bytes) (w : World Sample.js) : World Sample.js :=
  handleMessage Sample.tl Sample.js Sample.lc config (fun _ => Throw json_error) false env message w.
End SampleInput.

Lemma only_load_gives_permissions_witness :
  let w := SampleInput.world (str "u") true in
  no_gain (w_db w) (w_db (SampleInput.handle (str "attemptlock") w)).
Proof. by apply only_load_gives_permissions. Defined.

Lemma nothing_before_load_witness :
  let w := SampleInput.world [] false in
  w_tiles (SampleInput.handle (str "save") w) = w_tiles w.
Proof. by apply nothing_before_load. Defined.

Lemma forbidden_not_forwarded_witness :
  let w := SampleInput.world (str "u") false in
  let w' message := SampleInput.handle message w in
  w_effects Sample.js (w' (str "downloadas name=a.pdf id=print format=pdf")) = w_effects Sample.js w /\
  w_effects Sample.js (w' (str "downloadas name=a.pdf format=pdf")) = w_effects Sample.js w.
Proof.
  intros w w'. split.
  - apply (forbidden_not_forwarded Sample.tl Sample.js Sample.lc SampleInput.config (fun _ => Throw json_error) false
             SampleInput.env (str "downloadas name=a.pdf id=print format=pdf") w).
    by apply (forbidden_print _ _ SampleInput.wopi).
  - apply (forbidden_not_forwarded Sample.tl Sample.js Sample.lc SampleInput.config (fun _ => Throw json_error) false
             SampleInput.env (str "downloadas name=a.pdf format=pdf") w).
    by apply forbidden_unnamed.
Defined.

Lemma load_line_lifts_readonly_witness :
  let w := SampleInput.world [] true in
  exists s', find_self Sample.js (SampleInput.handle (str "load url=" ++ str "doc" ++ str " readonly=0") w) = Some s' /\
    isEditable s' = true /\ se_isWritable s' = false.
Proof.
  intros w.
  destruct (load_line_lifts_readonly Sample.tl Sample.js Sample.lc SampleInput.config (fun _ => Throw json_error) false
    SampleInput.env w (sample_session <| se_isReadOnly := true |> <| se_isWritable := false |>) (str "doc"))
    as (s' & H1 & H2 & H3); [reflexivity|reflexivity|reflexivity|by apply no_blank_name|].
  by exists s'.
Defined.

Lemma uno_save_gets_through_witness :
  let w := SampleInput.world (str "u") false in
  db_out (w_db (SampleInput.handle (str "uno .uno:Save") w)) = db_out (w_db w) ++ [ToKit (str "child-1 uno .uno:Save")].
Proof.
  apply (uno_save_gets_through Sample.tl Sample.js Sample.lc SampleInput.config (fun _ => Throw json_error) false
    SampleInput.env [] (SampleInput.world (str "u") false)); try reflexivity.
  split; [by eexists|]. by split_and!.
Defined.

Lemma input_reaches_kit_witness :
  let w := SampleInput.world (str "u") false in
  w_effects Sample.js (SampleInput.handle (str "key type=input char=97 key=512") w) = w_effects Sample.js w.
Proof.
  apply (input_reaches_kit Sample.tl Sample.js Sample.lc SampleInput.config (fun _ => Throw json_error) false
    SampleInput.env (str "key type=input char=97 key=512") (SampleInput.world (str "u") false)); try reflexivity.
  split; [by eexists|]. by split_and!.
Defined.
