(* ===== verification/SlideCache.v ===== *)
(** * The cache of slide layers

    Models [SlideLayerCacheMap] ([wsd/SlideCache.hpp], [wsd/SlideCache.cpp]): the messages
    of the rendered slides, of which the least recently written go when there are more
    than [max_size]. The [unordered_map] is a finite map, the message its data. *)

From S2P Require Import Prelude RecordSet.

Open Scope cool_scope.
Open Scope record_scope.

Record SlideLayerCacheMap := {
  sl_cache_map : gmap (list Z) (list bytes);
  sl_insertion_order : list bytes;
  sl_max_size : nat }.

#[export] Instance SlideLayerCacheMap_settable : Settable SlideLayerCacheMap := fun c =>
  {| sl_cache_map := sl_cache_map c; sl_insertion_order := sl_insertion_order c; sl_max_size := sl_max_size c |}.

Definition sl_new (maxSize : nat) : SlideLayerCacheMap :=
  {| sl_cache_map := ∅; sl_insertion_order := []; sl_max_size := maxSize |}.

(** [std::rotate] of the element found to the end. *)
Fixpoint move_to_back (key : bytes) (order : list bytes) : list bytes :=
  match order with
  | [] => []
  | k :: order' => if beq k key then order' ++ [k] else k :: move_to_back key order'
  end.

(** The oldest entries go until there are few enough; there is an order entry for each. *)
Fixpoint sl_reduce (order : list bytes) (desiredSize : nat) (m : gmap (list Z) (list bytes))
    : gmap (list Z) (list bytes) * list bytes :=
  match order with
  | [] => (m, [])
  | k :: order' => if (size m <=? desiredSize)%nat then (m, order) else sl_reduce order' desiredSize (delete k m)
  end.
Definition reduceSizeTo (desiredSize : nat) (c : SlideLayerCacheMap) : SlideLayerCacheMap :=
  let '(m, order) := sl_reduce (sl_insertion_order c) desiredSize (sl_cache_map c) in
  c <| sl_cache_map := m |> <| sl_insertion_order := order |>.

Definition sl_insert (key cachedData : bytes) (c : SlideLayerCacheMap) : SlideLayerCacheMap :=
  let order :=
    match sl_cache_map c !! key with
    | Some _ => if bool_decide (last (sl_insertion_order c) = Some key) then sl_insertion_order c
                else move_to_back key (sl_insertion_order c)
    | None => sl_insertion_order c ++ [key]
    end in
  let c := c <| sl_insertion_order := order |>
             <| sl_cache_map ::= fun m => <[key := default [] (m !! key) ++ [cachedData]]> m |> in
  reduceSizeTo (sl_max_size c) c.

Definition sl_erase_all (c : SlideLayerCacheMap) : SlideLayerCacheMap :=
  c <| sl_cache_map := ∅ |> <| sl_insertion_order := [] |>.

Definition sl_find (key : bytes) (c : SlideLayerCacheMap) : option (list bytes) := sl_cache_map c !! key.

(** ** Invariant *)

(** The order names the entries, each once. *)
Record sl_ok (c : SlideLayerCacheMap) : Prop := {
  sk_nodup : NoDup (sl_insertion_order c);
  sk_dom k : k ∈ sl_insertion_order c <-> is_Some (sl_cache_map c !! k) }.

Lemma move_to_back_perm key order : Permutation (move_to_back key order) order.
Proof.
  induction order as [|k order IH]; simpl; [done|]. destruct (beq k key).
  - symmetry. apply Permutation_cons_append.
  - by constructor.
Qed.

Lemma sl_size c : sl_ok c -> size (sl_cache_map c) = length (sl_insertion_order c).
Proof.
  intros [Hn Hd]. rewrite <- size_dom. rewrite <- (size_list_to_set (C := gset (list Z))) by done. f_equal.
  apply set_eq. intros k. by rewrite elem_of_dom, elem_of_list_to_set, Hd.
Qed.

Lemma sl_reduce_spec c n :
  sl_ok c ->
  let c' := reduceSizeTo n c in
  sl_ok c' /\ (size (sl_cache_map c') <= n)%nat /\
  exists old, sl_insertion_order c = old ++ sl_insertion_order c' /\
    (forall k, k ∉ old -> sl_cache_map c' !! k = sl_cache_map c !! k) /\
    length old = (length (sl_insertion_order c) - n)%nat.
Proof.
  intros Hok. unfold reduceSizeTo. destruct c as [m order mx]. cbn in *.
  revert m Hok. induction order as [|k order IH]; intros m Hok; cbn [sl_reduce].
  - cbn. pose proof (sl_size _ Hok) as Hs. cbn in Hs. split; [done|]. split; [lia|]. exists []. split_and!; [done|done|simpl; lia].
  - pose proof (sl_size _ Hok) as Hs. cbn in Hs. destruct (Nat.leb_spec (size m) n) as [Hle|Hgt].
    + cbn. split; [done|]. split; [done|]. exists []. split_and!; [done|done|simpl; lia].
    + destruct Hok as [Hn Hd]. cbn in Hn, Hd. apply NoDup_cons in Hn as [Hk Hn].
      specialize (IH (delete k m)). destruct (sl_reduce order n (delete k m)) as [m' order'] eqn:E. cbn in *.
      destruct IH as (Hok' & Hle & old & Ho & Hkeep & Hlen).
      { constructor; cbn; [done|]. intros k'. destruct (decide (k = k')) as [<-|Hne].
        - rewrite lookup_delete_eq. split; [done|by intros [? ?]].
        - rewrite lookup_delete_ne by done. rewrite <- Hd, elem_of_cons. naive_solver. }
      split; [done|]. split; [done|]. exists (k :: old). split_and!.
      * by rewrite Ho.
      * intros k' Hk'. apply not_elem_of_cons in Hk' as [Hne Hk']. rewrite Hkeep by done. by rewrite lookup_delete_ne.
      * cbn. rewrite Hlen. destruct order; cbn in *; lia.
Qed.

(** The cache after an insertion, before it is reduced. *)
Lemma sl_insert_ok key d c :
  sl_ok c ->
  exists c1, sl_insert key d c = reduceSizeTo (sl_max_size c) c1 /\ sl_ok c1 /\ last (sl_insertion_order c1) = Some key /\
    sl_max_size c1 = sl_max_size c /\
    sl_cache_map c1 = <[key := default [] (sl_cache_map c !! key) ++ [d]]> (sl_cache_map c) /\
    (forall k, k <> key -> k ∈ sl_insertion_order c1 <-> k ∈ sl_insertion_order c).
Proof.
  intros Hok. eexists. split; [reflexivity|].
  set (order := match sl_cache_map c !! key with Some _ => _ | None => _ end). cbn.
  assert (Ho : Permutation order (if decide (is_Some (sl_cache_map c !! key)) then sl_insertion_order c
                                  else key :: sl_insertion_order c) /\ last order = Some key).
  { subst order. destruct (sl_cache_map c !! key) as [l|] eqn:Hk.
    - rewrite decide_True by by eexists. case_bool_decide as Hl; [done|]. split; [apply move_to_back_perm|].
      assert (Hin : key ∈ sl_insertion_order c) by (apply (sk_dom _ Hok); by eexists). clear -Hin.
      induction (sl_insertion_order c) as [|k o IH]; [by apply not_elem_of_nil in Hin|]. simpl.
      destruct (beq k key) eqn:Hb; [apply beq_eq in Hb as ->; by rewrite last_snoc|].
      apply beq_neq in Hb. apply elem_of_cons in Hin as [<-|Hin]; [done|]. specialize (IH Hin).
      destruct (move_to_back key o); [done|]. by rewrite last_cons_cons.
    - rewrite decide_False by (by intros [? ?]). split; [symmetry; apply Permutation_cons_append|by rewrite last_snoc]. }
  destruct Ho as [Hp Hl]. destruct Hok as [Hn Hd]. split; [|split; [exact Hl|split; [done|split; [done|]]]].
  - constructor; cbn.
    + rewrite Hp. case_decide as Hk; [done|]. apply NoDup_cons. split; [|done]. by rewrite Hd.
    + intros k. rewrite Hp. destruct (decide (key = k)) as [<-|Hne].
      * rewrite lookup_insert_eq. split; [by eexists|]. intros _. case_decide as Hk; [by apply Hd|by left].
      * rewrite lookup_insert_ne by done. case_decide as Hk; rewrite ?elem_of_cons, Hd; naive_solver.
  - intros k Hne. rewrite Hp. case_decide; [done|]. rewrite elem_of_cons. naive_solver.
Qed.

(** What the broker does to the cache. *)
Inductive sl_step : SlideLayerCacheMap -> SlideLayerCacheMap -> Prop :=
| sls_insert key d c : sl_step c (sl_insert key d c)
| sls_erase c : sl_step c (sl_erase_all c).

Lemma reduce_max n c : sl_max_size (reduceSizeTo n c) = sl_max_size c.
Proof. unfold reduceSizeTo. by destruct (sl_reduce _ _ _). Qed.

Lemma sl_reachable maxSize c :
  rtc sl_step (sl_new maxSize) c -> sl_ok c /\ (size (sl_cache_map c) <= maxSize)%nat /\ sl_max_size c = maxSize.
Proof.
  intros Hr. assert (H : forall c1 c2, rtc sl_step c1 c2 ->
    sl_ok c1 /\ (size (sl_cache_map c1) <= maxSize)%nat /\ sl_max_size c1 = maxSize ->
    sl_ok c2 /\ (size (sl_cache_map c2) <= maxSize)%nat /\ sl_max_size c2 = maxSize).
  { induction 1 as [|c1 c2 c3 Hs _ IH]; [done|]. intros (Hok & Hsz & Hmx). apply IH. destruct Hs as [key d c1|c1].
    - destruct (sl_insert_ok key d c1 Hok) as (c2 & -> & Hok2 & _ & Hm2 & _). rewrite reduce_max, Hm2, Hmx.
      destruct (sl_reduce_spec c2 maxSize Hok2) as (H1 & H2 & _). by split_and!.
    - cbn. rewrite map_size_empty. split_and!; [|lia|done]. constructor; cbn; [constructor|]. intros k.
      rewrite lookup_empty, elem_of_nil. split; [done|by intros [? ?]]. }
  apply (H _ _ Hr). cbn. rewrite map_size_empty. split_and!; [|lia|done]. constructor; cbn; [constructor|]. intros k.
  rewrite lookup_empty, elem_of_nil. split; [done|by intros [? ?]].
Qed.

(** Fact (invariant): the slide cache is a bounded map that forgets what was written least
    recently. In every reachable state it holds at most [max_size] slides; writing a
    layer of a slide appends it to that slide's layers, keeps every other slide that it
    keeps unchanged, and drops only slides at the front of the order of writing, never
    the one written. *)
Theorem slide_cache_bounded maxSize c key d :
  rtc sl_step (sl_new maxSize) c -> (0 < maxSize)%nat ->
  let c' := sl_insert key d c in
  (size (sl_cache_map c') <= maxSize)%nat /\
  sl_find key c' = Some (default [] (sl_find key c) ++ [d]) /\
  last (sl_insertion_order c') = Some key /\
  exists old, (length old <= 1)%nat /\ forall k, k <> key ->
    sl_find k c' = (if decide (k ∈ old) then None else sl_find k c).
Proof.
  intros Hr Hmax. destruct (sl_reachable maxSize c Hr) as (Hok & Hsz & Hmx). cbv zeta.
  destruct (sl_insert_ok key d c Hok) as (c1 & -> & Hok1 & Hlast & _ & Hmap & Hin). rewrite Hmx.
  destruct (sl_reduce_spec c1 maxSize Hok1) as (Hok' & Hle & old & Ho & Hkeep & Hlen).
  assert (Hsz1 : (size (sl_cache_map c1) <= S (size (sl_cache_map c)))%nat).
  { rewrite Hmap, map_size_insert. destruct (_ !! key); simpl; lia. }
  rewrite (sl_size c1 Hok1) in Hsz1.
  assert (Hne : sl_insertion_order (reduceSizeTo maxSize c1) <> []).
  { intros E. rewrite E, app_nil_r in Ho. rewrite Ho in Hlen. destruct old; [by rewrite Ho in Hlast|]. simpl in Hlen. lia. }
  assert (Hlast' : last (sl_insertion_order (reduceSizeTo maxSize c1)) = Some key).
  { rewrite Ho in Hlast. rewrite last_app in Hlast. by destruct (last (sl_insertion_order _)) eqn:E; [|apply last_None in E]. }
  assert (Hkey : key ∉ old).
  { intros Hk. pose proof (sk_nodup _ Hok1) as Hn. rewrite Ho in Hn. apply NoDup_app in Hn as (_ & Hn & _).
    apply (Hn key Hk). by apply last_Some_elem_of. }
  split_and!; [done| |done|].
  - unfold sl_find. by rewrite Hkeep, Hmap, lookup_insert_eq.
  - exists old. split; [lia|]. intros k Hk. unfold sl_find. case_decide as Hold.
    + destruct (sl_cache_map (reduceSizeTo maxSize c1) !! k) eqn:E; [|done]. exfalso.
      pose proof (sk_nodup _ Hok1) as Hn. rewrite Ho in Hn. apply NoDup_app in Hn as (_ & Hn & _).
      apply (Hn k Hold). apply (sk_dom _ Hok'). by eexists.
    + rewrite Hkeep by done. by rewrite Hmap, lookup_insert_ne.
Qed.

(** Two slides and room for two. *)
Definition two_slides : SlideLayerCacheMap :=
  sl_insert (str "hash=2") (str "b") (sl_insert (str "hash=1") (str "a") (sl_new 2)).
Lemma two_slides_reachable : rtc sl_step (sl_new 2) two_slides.
Proof. eapply rtc_l; [apply (sls_insert (str "hash=1") (str "a"))|]. eapply rtc_l; [apply (sls_insert (str "hash=2") (str "b"))|]. apply rtc_refl. Defined.

Lemma slide_cache_bounded_witness :
  sl_find (str "hash=1") (sl_insert (str "hash=3") (str "c") two_slides) = None /\
  sl_find (str "hash=3") (sl_insert (str "hash=3") (str "c") two_slides) = Some [str "c"].
Proof.
  destruct (slide_cache_bounded 2 two_slides (str "hash=3") (str "c") two_slides_reachable) as (_ & H & _); [lia|].
  split; [vm_compute; reflexivity|exact H].
Defined.
