(* ===== verification/KitMessages.v ===== *)
(** * The kit's messages to a session

    Models [ClientSession::handleKitToClientMessage] ([wsd/ClientSession.cpp]) with the
    handlers it calls, and the delivery of the kit's messages to the sessions,
    [DocumentBroker::handleInput] and [forwardToClient] ([wsd/DocumentBroker.cpp]). The
    state is that of the client's commands ([ClientInput]) and the fields of the session
    only these messages use. What is passed on goes to the session's sender queue in
    the tile half, and so do the frames the save half sends to any session. The boolean results are ignored by the callers and left out; a
    handler's [true] says that the message is dealt with. Locked and restricted
    features are not built in; the headers of HTTP answers that do not depend on the
    message are left out. The kit sends a text selection to one session: that the sessions
    of a broadcast would share the message that is rewritten in place is not modelled. *)

From S2P Require Import Prelude RecordSet StateError Util StringVector Protocol Rectangle TileDesc TileCache Message ClientSession TileServer TileInvalidation JsonUtil LoadOptions SlideCache Clipboard Storage SaveManager DocumentSave DocumentPoll ClientInput.

Open Scope cool_scope.
Open Scope record_scope.

(** ** State *)

(** What leaves the document's broker otherwise. *)
Inductive KitEffect :=
| HttpAnswer (statusCode : Z) (errorKind : bytes) (contentType body : bytes)  (* [saveAsSocket->sendAndShutdown] *)
| SendFile (path : bytes)                 (* [HttpHelper::sendFileAndShutdown] *)
| ClipboardContent (sockets : nat) (content : bytes)   (* [session->asyncUpload], for each of the sockets *)
| ClipboardDownload (url jailClipFile clipFile commandName : bytes)  (* a request that was started *)
| DownloadRegistered (downloadId url : bytes)
| AlertAllUsers (cmd kind : bytes)
| TraceRecord (data : bytes).

(** The fields of [ClientSession] that only the kit's messages use. *)
Record KitView := {
  kv_clientSelectedMode : Z;
  kv_kitViewId : Z;
  kv_isDocPasswordProtected : bool;
  kv_isConvertTo : bool;
  kv_saveAsSocket : bool;                 (* the weak pointer can be locked *)
  kv_clipSockets : nat;                   (* those that are still there *)
  kv_thumbnailSession : bool;
  kv_thumbnailTarget : bytes;
  kv_thumbnailPosition : Z * Z;
  kv_lastSentFormFielButtonMessage : bytes;
  kv_sentAudit : bool;
  kv_isAdminUser : option bool;
  kv_disableChangeTrackingRecord : option bool;   (* the [TriState]s; [None]: unset, or no file info *)
  kv_disableChangeTrackingShow : option bool;
  kv_templateSource : bytes }.

#[export] Instance KitView_settable : Settable KitView := fun v =>
  {| kv_clientSelectedMode := kv_clientSelectedMode v; kv_kitViewId := kv_kitViewId v;
     kv_isDocPasswordProtected := kv_isDocPasswordProtected v; kv_isConvertTo := kv_isConvertTo v;
     kv_saveAsSocket := kv_saveAsSocket v; kv_clipSockets := kv_clipSockets v;
     kv_thumbnailSession := kv_thumbnailSession v; kv_thumbnailTarget := kv_thumbnailTarget v;
     kv_thumbnailPosition := kv_thumbnailPosition v;
     kv_lastSentFormFielButtonMessage := kv_lastSentFormFielButtonMessage v; kv_sentAudit := kv_sentAudit v;
     kv_isAdminUser := kv_isAdminUser v; kv_disableChangeTrackingRecord := kv_disableChangeTrackingRecord v;
     kv_disableChangeTrackingShow := kv_disableChangeTrackingShow v; kv_templateSource := kv_templateSource v |}.

(** Functions of the Poco library on URIs, and arrays inside a JSON object. *)
Record KitLib (js : JsonLib) := {
  kl_uri : bytes -> option (bytes * bytes);      (* [Poco::URI(s)]: scheme and path; [None]: it throws *)
  kl_pathAndQuery : bytes -> option bytes;       (* [Poco::URI(s).getPathAndQuery()] *)
  kl_encode : bytes -> bytes -> bytes;           (* [Uri::encode(reserved, s)] *)
  kl_elements : js_object js -> bytes -> option (list (js_object js));
     (* [object->getArray(key)], its [getObject(i)]; [None]: null *)
  kl_setElements : js_object js -> bytes -> list (js_object js) -> js_object js
     (* the object once the elements of that array are changed in place *) }.
Arguments kl_uri {js} _.
Arguments kl_pathAndQuery {js} _.
Arguments kl_encode {js} _.
Arguments kl_elements {js} _.
Arguments kl_setElements {js} _.

(** Settings and surroundings of the process and the document. *)
Record KitConfig := {
  kc_enableExperimental : bool;
  kc_noCapsForKit : bool;
  kc_jailPath : bytes -> bytes;           (* [buildLocalPathToJail], for the document's jail root *)
  kc_isDirectory : bytes -> bool;
  kc_number : bytes -> Z;                 (* the number of a session in the tile half *)
  kc_renames : bool;                      (* the system moves files when it is asked to *)
  kc_wopiSrc : bytes;                     (* the public URI without its query *)
  kc_serverURL : bytes;                   (* [_serverURL.getSubURLForEndpoint("")] *)
  kc_processId : bytes;
  kc_routeToken : bytes;
  kc_auditJSON : option bytes;            (* [None]: the audit is disabled *)
  kc_traceEventFile : bool;
  kc_traceRecordingOn : bool }.

(** ** The monad *)

Section kit.
Context (tl : TextLib) (js : JsonLib) (kl : KitLib js) (lc : LoadConfig) (kc : KitConfig).
Context (json_viewId : bytes -> result bytes) (terminating : bool) (item_overhead : Z) (ie : InputEnv).
Let ev : Env := ie_env ie.

Record KitWorld := {
  k_world : World js;
  k_view : KitView;
  k_initialState : list bytes;             (* [_isInitialStateSet] *)
  k_embeddedMedia : gmap bytes bytes;
  k_downloadLinks : gmap bytes bytes;
  k_clipboards : ClipboardCache;           (* [COOLWSD::SavedClipboards], and the files *)
  k_cursor : Z * Z * Z * Z;
  k_effects : list KitEffect }.

#[export] Instance KitWorld_settable : Settable KitWorld := fun k =>
  {| k_world := k_world k; k_view := k_view k; k_initialState := k_initialState k;
     k_embeddedMedia := k_embeddedMedia k; k_downloadLinks := k_downloadLinks k; k_clipboards := k_clipboards k; k_cursor := k_cursor k;
     k_effects := k_effects k |}.

Abbreviation KIO := (SE KitWorld).

Definition k_io {A} (m : SE (World js) A) : KIO A := fun k =>
  let '(w, r) := m (k_world k) in (k <| k_world := w |>, r).
Definition k_skip : KIO unit := se_ret tt.
Definition k_when (c : bool) (m : KIO unit) : KIO unit := if c then m else k_skip.
Definition k_effect (e : KitEffect) : KIO unit := se_modify (fun k => k <| k_effects ::= fun l => l ++ [e] |>).
Definition set_view (f : KitView -> KitView) : KIO unit := se_modify (fun k => k <| k_view ::= f |>).
Definition set_k_client (f : Client js -> Client js) : KIO unit := k_io (ClientInput.set_client js f).
(** [ClientSession::sendTextFrame] of the save half, for the frames it has sent: each
    goes into the sender queue of its session, if it is there. None of these frames is
    one the queue reads, so that none can fail. *)
Definition deliver_frame (t : TileServer.DocumentBroker) (o : Output) : TileServer.DocumentBroker :=
  match o with
  | ToClient id msg =>
      (on_session (kc_number kc id)
         (enqueueSendMessage json_viewId terminating (to_ms (ev_now ev)) (Message_new msg)) t).1
  | _ => t
  end.
Definition deliver (frames : list Output) (t : TileServer.DocumentBroker) : TileServer.DocumentBroker :=
  fold_left deliver_frame frames t.
(** A method of the save half, for the session at work; what it adds to the output is
    delivered. *)
Definition k_db (f : bytes -> DB -> DB) : KIO unit := k_io (fun w =>
  let b := f (cl_id (w_client w)) (w_db w) in
  let frames := drop (length (db_out (w_db w))) (db_out b) in
  (w <| w_db := b |> <| w_tiles ::= deliver frames |>, Ok tt)).
Definition k_send (msg : bytes) : KIO unit := k_db (fun id => DocumentSave.sendTextFrame id msg).
Definition to_kit (message : bytes) : KIO unit := k_io (ClientInput.forwardToChild tl js lc ie message).

(** [return true] or [return false] of a handler, and going on. *)
Definition handled (m : KIO unit) : KIO bool := exec m; se_ret true.
Definition go_on (m : KIO unit) : KIO bool := exec m; se_ret false.

(** [ClientSession::forwardToClient]. *)
Definition forwardToClient (payload : Message) : KIO unit :=
  k_io (on_tiles js ie (fun sid now => on_session sid (enqueueSendMessage json_viewId terminating now payload))).

(** [catch (const std::exception&)]. *)
Definition k_catch {A} (m : KIO A) (h : KIO A) : KIO A := fun k =>
  match m k with
  | (k', Throw e) => if bool_decide (e = undefined) then (k', Throw undefined) else h k'
  | r => r
  end.

(** ** JSON *)

(** [parser.parse(s).extract<Object::Ptr>()]. *)
Definition parse_object (s : bytes) : KIO (js_object js) :=
  match js_parse js s with Some o => se_ret o | None => se_throw json_error end.
(** [object->get(key).toString()]: an empty value throws. *)
Definition get_text (object : js_object js) (key : bytes) : KIO bytes :=
  match js_get js object key ≫= js_string js with Some s => se_ret s | None => se_throw json_error end.
Definition has_key (object : js_object js) (key : bytes) : bool := bool_decide (is_Some (js_get js object key)).
Definition json_text (object : js_object js) (key : bytes) : bytes := getJSONValue js (js_string js) [] (js_get js object key).

(** What [DocumentBroker::handleSaveResponse] reads. *)
Definition read_save_response (json : js_object js) : KIO SaveResponse :=
  do success <- get_text json (str "success");
  do result <- (if has_key json (str "result") then
                  match js_getObject js json (str "result") with
                  | None => se_throw json_error
                  | Some resultObj =>
                      do type <- get_text resultObj (str "type");
                      if beq type (str "string") then get_text resultObj (str "value") else se_ret []
                  end
                else se_ret []);
  do wasModified <- (if has_key json (str "wasModified") then
                       do m <- get_text json (str "wasModified"); se_ret (Some (beq m (str "true")))
                     else se_ret None);
  se_ret {| sr_success := beq success (str "true"); sr_result := result; sr_wasModified := wasModified |}.

(** ** Public URIs *)

Definition reserved : bytes := str ",/?:@&=+$#".

Definition createPublicURI (k : KitWorld) (subPath tag : bytes) (encode : bool) : bytes :=
  let meta := kc_serverURL kc ++ str "/cool/" ++ subPath ++ str "?WOPISrc=" ++ kl_encode kl reserved (kc_wopiSrc kc)
              ++ str "&ServerId=" ++ kc_processId kc ++ str "&ViewId=" ++ to_string (kv_kitViewId (k_view k))
              ++ str "&Tag=" ++ tag
              ++ (if beq (kc_routeToken kc) [] then [] else str "&RouteToken=" ++ kc_routeToken kc) in
  if encode then kl_encode kl reserved meta else meta.

Definition getClipboardURI (k : KitWorld) : bytes :=
  if wopi_has js wf_disableCopy (w_client (k_world k)) then []
  else createPublicURI k (str "clipboard") (cl_clipboardKeys js (w_client (k_world k))).1 true.

Definition addEmbeddedMedia (id json : bytes) : KIO unit :=
  se_modify (fun k => k <| k_embeddedMedia ::= <[id := json]> |>).
Definition mediaUrl (k : KitWorld) (id : bytes) : bytes :=
  kl_encode kl (str "&") (createPublicURI k (str "media") id false).

(** ** Text selections *)

Definition textselectioncontent (payload : Message) : KIO bool :=
  do k <- se_get;
  handled (forwardToClient (rewriteDataBody payload (postProcessCopyBody (getClipboardURI k)))).

(** ** Presentation info *)

(** The prefix of a message and the JSON behind it. *)
Definition split_json (data : bytes) : bytes * bytes :=
  match find_sub [123] data with
  | Some i => (take i data, drop i data)
  | None => (data, [])
  end.

Definition quoted (name value : bytes) : bytes := [34] ++ name ++ [34] ++ str " : " ++ [34] ++ value ++ [34].

(** A video whose file is to be had under a public URL; [modified] so far. *)
Definition publish_video (video : js_object js) (modified : bool) : KIO (js_object js * bool) :=
  let id := json_text video (str "id") in
  let url := json_text video (str "url") in
  if negb (beq id []) && negb (beq url []) then
    exec addEmbeddedMedia id (str "{ " ++ quoted (str "id") id ++ str ", " ++ quoted (str "url") url ++ str " }");
    do k <- se_get;
    se_ret (js_set js video (str "url") (mediaUrl k id), true)
  else se_ret (video, modified).
Fixpoint publish_videos (videos : list (js_object js)) (modified : bool) : KIO (list (js_object js) * bool) :=
  match videos with
  | [] => se_ret ([], modified)
  | video :: videos' =>
      do r <- publish_video video modified;
      do r' <- publish_videos videos' r.2;
      se_ret (r.1 :: r'.1, r'.2)
  end.
Fixpoint publish_slides (slides : list (js_object js)) (modified : bool) : KIO (list (js_object js) * bool) :=
  match slides with
  | [] => se_ret ([], modified)
  | slide :: slides' =>
      do r <- match kl_elements kl slide (str "videos") with
              | None => se_ret (slide, modified)
              | Some videos =>
                  do v <- publish_videos videos modified;
                  se_ret (kl_setElements kl slide (str "videos") v.1, v.2)
              end;
      do r' <- publish_slides slides' r.2;
      se_ret (r.1 :: r'.1, r'.2)
  end.

Definition handlePresentationInfo (payload : Message) : KIO unit :=
  let '(prefix, json) := split_json (m_data payload) in
  match parseJSON js json with
  | None => forwardToClient payload
  | Some rootObject =>
      match kl_elements kl rootObject (str "slides") with
      | None => forwardToClient payload
      | Some slides =>
          do r <- publish_slides slides false;
          if r.2 then forwardToClient (Message_new (prefix ++ js_stringify js
                                         (kl_setElements kl rootObject (str "slides") r.1)))
          else forwardToClient payload
      end
  end.

(** ** Conversions and saving under a name *)

(** The session of a conversion ends. *)
Definition end_conversion (reason : bytes) : KIO unit :=
  k_db (fun id b => stop reason (removeSession ev id b)).

Definition abortConversion (errorKind : bytes) : KIO unit :=
  do k <- se_get;
  exec k_when (kv_saveAsSocket (k_view k)) (k_effect (HttpAnswer 401 errorKind [] []));
  end_conversion (str "Aborting saveas handler.").

(** [Poco::File(path).exists()]. *)
Definition file_exists (k : KitWorld) (path : bytes) : bool :=
  bool_decide (is_Some (cs_files (k_clipboards k) !! path)) || kc_isDirectory kc path.

(** [resultURL] of [handleSaveAs]: scheme and path, the latter as the server sees it;
    blank when there is no such file. *)
Definition saveas_url (exists_ : bytes -> bool) (isConvertTo isExportAs : bool) (url : bytes * bytes) : result (bytes * bytes) :=
  let decode (s : bytes) := match tl_decode tl s with Some d => Ok d | None => Throw SyntaxException end in
  if beq url.1 (str "file") && negb (kc_noCapsForKit kc) then
    try relative <- (if isConvertTo || isExportAs then decode url.2 else Ok url.2);
    let relative := match relative with
                    | c :: rest => if c =? 47 then rest else relative
                    | [] => []
                    end in
    let path := kc_jailPath kc relative in
    if exists_ path then
      try path <- decode (if isConvertTo then path else tl_encode tl path);
      Ok (url.1, path)
    else Ok ([], [])
  else Ok url.

Definition handleSaveAs (payload : Message) : KIO unit :=
  let tokens := m_tokens payload in
  let isExportAs := equals tokens 0 (str "exportas:") in
  do k <- se_get;
  let isConvertTo := kv_isConvertTo (k_view k) in
  let bad := k_send (str "error: cmd=saveas kind=syntax") in
  let read token name := match getTokenString token name with
                         | Some s => Some s
                         | None => if isConvertTo then Some [] else None
                         end in
  let encodedURL := read (sv_get tokens 1) (str "url") in
  let encodedWopiFilename := if isConvertTo then Some [] else read (sv_get tokens 2) (str "filename") in
  match encodedURL, encodedWopiFilename with
  | None, _ | _, None => bad
  | Some url, Some filename =>
      match tl_decode tl filename, kl_uri kl url with
      | Some wopiFilename, Some url =>
          do resultURL <- se_lift (saveas_url (file_exists k) isConvertTo isExportAs url);
          if negb isConvertTo then
            if beq resultURL.1 (str "file") && negb (beq resultURL.2 []) then
              k_db (fun id => uploadAsToStorage ev id resultURL.2 wopiFilename false isExportAs)
            else k_send (str "error: cmd=storage kind=savefailed")
          else
            exec k_when (negb (beq resultURL.2 []) && kv_saveAsSocket (k_view k)) (k_effect (SendFile resultURL.2));
            end_conversion (str "Finished saveas handler.")
      | _, _ => se_throw SyntaxException
      end
  end.

(** ** Messages of any document *)

Definition msg_cmd (payload : Message) (name : String.string) : bool := equals (m_tokens payload) 0 (str name).
Arguments msg_cmd payload name%_string_scope.

Definition k_thumbnail (pos : Z * Z) : KIO unit :=
  to_kit (str "getthumbnail x=" ++ to_string pos.1 ++ str " y=" ++ to_string pos.2).

Definition downloadas (payload : Message) : KIO bool :=
  let tokens := m_tokens payload in
  let id := if (4 <=? sv_size tokens)%nat then default [] (getTokenString (sv_get tokens 3) (str "id")) else [] in
  do k <- se_get;
  se_ret (negb (filterDownloadAs js id (w_client (k_world k)))).

Definition unocommandresult (payload : Message) : KIO bool :=
  let stringJSON := jsonString payload in
  if beq stringJSON [] then se_ret false
  else
    k_catch
      (do object <- parse_object stringJSON;
       do commandName <- get_text object (str "commandName");
       if beq commandName (str ".uno:Save") then
         do response <- read_save_response object;
         exec k_db (fun id => handleSaveResponse ev id response);
         handled (forwardToClient payload)
       else se_ret false)
      (se_ret false).

Definition wrong_password (errorKind : bytes) : bool :=
  beq errorKind (str "passwordrequired:to-view") || beq errorKind (str "passwordrequired:to-modify")
  || beq errorKind (str "wrongpassword").

Definition error_message (payload : Message) : KIO bool :=
  let tokens := m_tokens payload in
  do k <- se_get;
  match getTokenString (sv_get tokens 1) (str "cmd"), getTokenString (sv_get tokens 2) (str "kind") with
  | Some errorCommand, Some errorKind =>
      if beq errorCommand (str "load") then
        if wrong_password errorKind then
          handled (if kv_isConvertTo (k_view k) then abortConversion errorKind else forwardToClient payload)
        else se_ret false
      else if kv_isConvertTo (k_view k) && beq errorCommand (str "saveas") then handled (abortConversion errorKind)
      else se_ret false
  | _, _ => se_ret false
  end.

Definition setpart (payload : Message) : KIO bool :=
  let token := sv_get (m_tokens payload) 1 in
  do k <- se_get;
  if cl_isTextDocument js (w_client (k_world k)) then se_ret false
  else
    let part :=
      match getTokenInteger token (str "part") with
      | (Some part, true) => Some part
      | _ => let '(part, ok) := stringToInteger token in if ok then Some part else None
      end in
    match part with
    | Some part => go_on (set_k_client (fun c => c <| cl_clientSelectedPart js := part |>))
    | None => se_ret true
    end.

(** A change tracking state that the host wants otherwise is toggled, the first time it
    is told. *)
Definition force_toggle (wanted : option bool) (state : bytes) : bool :=
  match wanted with
  | Some disable => beq state (if disable then str "true" else str "false")
  | None => false
  end.
Definition initial_state (name state : bytes) : KIO unit :=
  do k <- se_get;
  if existsb (beq name) (k_initialState k) then k_skip
  else
    exec se_modify (fun k => k <| k_initialState ::= fun l => l ++ [name] |>);
    if beq name (str ".uno:TrackChanges") then
      k_when (force_toggle (kv_disableChangeTrackingRecord (k_view k)) state) (to_kit (str "uno .uno:TrackChanges"))
    else if beq name (str ".uno:ShowTrackedChanges") then
      k_when (force_toggle (kv_disableChangeTrackingShow (k_view k)) state) (to_kit (str "uno .uno:ShowTrackedChanges"))
    else k_skip.

Definition statechanged (payload : Message) : KIO bool :=
  let token := sv_get (m_tokens payload) 1 in
  let stateTokens := tokenize token chr_eq in
  go_on (if (sv_size stateTokens =? 2)%nat && equals stateTokens 0 (str ".uno:ModifiedStatus")
         then k_db (fun _ => setModified (equals stateTokens 1 (str "true")))
         else let '(name, state) := split token chr_eq true in initial_state name state).

(** Blank when there is no such file. *)
Definition getLocalPathToJail (k : KitWorld) (filePath : bytes) : bytes :=
  if kc_noCapsForKit kc then filePath
  else
    let filePath := match filePath with
                    | c :: rest => if c =? 47 then rest else filePath
                    | [] => []
                    end in
    let path := kc_jailPath kc filePath in
    if file_exists k path then path else [].

Definition clipboardcontent (payload : Message) : KIO bool :=
  match getTokenString (sv_get (m_tokens payload) 1) (str "file") with
  | None => se_ret true
  | Some clipFile =>
      do k <- se_get;
      let client := w_client (k_world k) in
      let sockets := kv_clipSockets (k_view k) in
      let '(path, c) := keep_clipboard (kc_renames kc) (getClipboardURI k) (wopi_has js wf_disableCopy client)
                          (cl_clipboardKeys js client) sockets (ev_now ev) (getLocalPathToJail k clipFile) (k_clipboards k) in
      exec se_modify (fun k => k <| k_clipboards := c |>);
      exec k_effect (ClipboardContent sockets (default [] (cs_files c !! path)));
      handled (set_view (fun v => v <| kv_clipSockets := 0%nat |>))
  end.

(** The session goes, in both halves of the broker. *)
Definition disconnected : KIO bool :=
  exec k_db finalRemoveSession;
  handled (k_io (se_modify (fun w => w <| w_tiles ::= fun t =>
    b_setSessions t (delete (cl_sid js (w_client w)) (b_sessions t)) |>))).

(** A video in the selection gets a public URL. *)
Definition publish_selection (payload : Message) : KIO bool :=
  if negb (msg_contains payload (str "url")) then se_ret false
  else
    let '(prefix, json) := split_json (m_data payload) in
    match parseJSON js json with
    | None => se_ret false
    | Some object =>
        let url := json_text object (str "url") in
        let id := json_text object (str "id") in
        if beq url [] || beq id [] then se_ret false
        else
          exec addEmbeddedMedia id json;
          do k <- se_get;
          let object := js_set js (js_set js object (str "url") (mediaUrl k id)) (str "mimeType") (str "video/mp4") in
          handled (forwardToClient (Message_new (prefix ++ js_stringify js object)))
    end.

Definition graphicselection (payload : Message) : KIO bool :=
  let tokens := m_tokens payload in
  do k <- se_get;
  exec (match stringToInteger (sv_get tokens 1), stringToInteger (sv_get tokens 2) with
        | (x, true), (y, true) => k_when (kv_thumbnailSession (k_view k)) (k_thumbnail (x, y))
        | _, _ => k_skip
        end);
  do published <- publish_selection payload;
  handled (k_when (negb published) (forwardToClient payload)).

(** The same button is not sent twice in a row. *)
Definition formfieldbutton (payload : Message) : KIO bool :=
  do k <- se_get;
  if beq (kv_lastSentFormFielButtonMessage (k_view k)) (msg_firstLine payload) then se_ret true
  else go_on (set_view (fun v => v <| kv_lastSentFormFielButtonMessage := msg_firstLine payload |>)).

Definition canonicalidchange (payload : Message) : KIO bool :=
  let tokens := m_tokens payload in
  match getTokenInteger (sv_get tokens 1) (str "viewid"), getTokenInteger (sv_get tokens 2) (str "canonicalid") with
  | (Some _, true), (Some canonicalId, true) =>
      go_on (k_io (on_tile_session js ie (fun s =>
        {| s_tracker := s_tracker s; s_tilesOnFly := s_tilesOnFly s; s_requestedTiles := s_requestedTiles s;
           s_senderQueue := s_senderQueue s; s_closeFrame := s_closeFrame s;
           s_clientVisibleArea := s_clientVisibleArea s; s_tileWidthTwips := s_tileWidthTwips s;
           s_tileHeightTwips := s_tileHeightTwips s; s_canonicalViewId := canonicalId |})))
  | _, _ => se_ret false
  end.

(** The first chain of tests. *)
Definition any_document (payload : Message) : KIO bool :=
  let n := sv_size (m_tokens payload) in
  if msg_cmd payload "downloadas:" then downloadas payload
  else if msg_cmd payload "unocommandresult:" then unocommandresult payload
  else if msg_cmd payload "error:" then error_message payload
  else if msg_cmd payload "curpart:" && (n =? 2)%nat then se_ret true
  else if msg_cmd payload "setpart:" && (n =? 2)%nat then setpart payload
  else if (n =? 3)%nat && (msg_cmd payload "saveas:" || msg_cmd payload "exportas:") then handled (handleSaveAs payload)
  else if (n =? 2)%nat && msg_cmd payload "statechanged:" then statechanged payload
  else if msg_cmd payload "textselectioncontent:" then textselectioncontent payload
  else if msg_cmd payload "presentationinfo:" then handled (handlePresentationInfo payload)
  else if msg_cmd payload "clipboardcontent:" then clipboardcontent payload
  else if msg_cmd payload "disconnected:" then disconnected
  else if msg_cmd payload "graphicselection:" || msg_cmd payload "graphicviewselection:" then graphicselection payload
  else if msg_cmd payload "formfieldbutton:" then formfieldbutton payload
  else if msg_cmd payload "canonicalidchange:" then canonicalidchange payload
  else se_ret false.

(** ** Messages of a document without a password *)

Definition loaded (payload : Message) : KIO unit :=
  do k <- se_get;
  let isFirst := contains (msg_firstLine payload) (str "isfirst=true") in
  let template := negb (beq (kv_templateSource (k_view k)) []) in
  k_db (fun id => handleLoaded ev id isFirst template).

Definition hyperlink_command (target : bytes) : bytes :=
  let q := [34] in
  let field name value := q ++ name ++ q ++ str ":" ++ q ++ value ++ q in
  str "uno .uno:OpenHyperLink {" ++ q ++ str "Name" ++ q ++ str ":{" ++ field (str "type") (str "string") ++ str ","
  ++ field (str "value") (str "URL") ++ str "}," ++ q ++ str "URL" ++ q ++ str ":{"
  ++ field (str "type") (str "string") ++ str "," ++ field (str "value") (str "#" ++ target) ++ str "}}".

(** [if (object->has(key)) field = std::atoi(object->get(key).toString().c_str())]. *)
Definition when_int (object : js_object js) (key : bytes) (set : Z -> KIO unit) : KIO unit :=
  if has_key object key then do text <- get_text object key; set (atoi text) else k_skip.

Definition status (payload : Message) : KIO bool :=
  do k <- se_get;
  exec k_when (kv_thumbnailSession (k_view k)) (to_kit (hyperlink_command (kv_thumbnailTarget (k_view k))));
  do object <- parse_object (drop 7 (msg_firstLine payload));
  exec when_int object (str "selectedpart") (fun part => set_k_client (fun c => c <| cl_clientSelectedPart js := part |>));
  exec when_int object (str "mode") (fun mode => set_view (fun v => v <| kv_clientSelectedMode := mode |>));
  exec (if has_key object (str "type") then
          do type <- get_text object (str "type");
          set_k_client (fun c => c <| cl_isTextDocument js := beq type (str "text") |>)
        else k_skip);
  exec when_int object (str "viewid") (fun viewId => set_view (fun v => v <| kv_kitViewId := viewId |>));
  handled (forwardToClient payload).

Definition statusupdate (payload : Message) : KIO bool :=
  do object <- parse_object (drop 13 (msg_firstLine payload));
  go_on (when_int object (str "mode") (fun mode => set_view (fun v => v <| kv_clientSelectedMode := mode |>))).

Definition save_stream (type : StreamType) (name data : bytes) : KIO unit :=
  k_io (on_tiles js ie (fun _ _ => do c <- get_cache; set_cache_ (saveStream c type name data))).

Definition commandvalues (payload : Message) : KIO bool :=
  let stringJSON := jsonString payload in
  if beq stringJSON [] then se_ret false
  else
    go_on (k_catch
      (do object <- parse_object stringJSON;
       do commandName <- (if has_key object (str "commandName") then get_text object (str "commandName") else se_ret []);
       k_when (beq commandName (str ".uno:CharFontName") || beq commandName (str ".uno:StyleApply"))
         (save_stream CmdValues commandName (m_data payload)))
      k_skip).

(** The view as [handleTileInvalidation] reads it. *)
Definition pane_view (k : KitWorld) : PaneView :=
  let c := w_client (k_world k) in
  {| pv_splitX := cl_splitX js c; pv_splitY := cl_splitY js c; pv_clientSelectedPart := cl_clientSelectedPart js c;
     pv_clientSelectedMode := kv_clientSelectedMode (k_view k); pv_tileWidthPixel := cl_tileWidthPixel js c;
     pv_tileHeightPixel := cl_tileHeightPixel js c; pv_isTextDocument := cl_isTextDocument js c |}.

(** The slide layers go with the tiles. *)
Definition invalidatetiles (payload : Message) : KIO bool :=
  exec forwardToClient payload;
  do k <- se_get;
  exec k_io (se_modify (fun w => w <| w_slideLayerCache js := ∅ |>));
  handled (k_io (on_tiles js ie
    (handleTileInvalidation json_viewId terminating (pane_view k) (msg_firstLine payload)))).

(** The rectangle of [invalidatecursor], when its first numbers can be read. *)
Definition cursor_rectangle (rectangle : bytes) : option (Z * Z * Z * Z) :=
  let tokens := tokenize rectangle chr_comma in
  if (2 <? sv_size tokens)%nat then
    match stringToInteger (sv_get tokens 0), stringToInteger (sv_get tokens 1) with
    | (x, true), (y, true) =>
        if (3 <? sv_size tokens)%nat
        then Some (x, y, (stringToInteger (sv_get tokens 2)).1, (stringToInteger (sv_get tokens 3)).1)
        else Some (x, y, 0, 0)
    | _, _ => None
    end
  else None.

Definition invalidatecursor (payload : Message) : KIO bool :=
  go_on (k_catch
    (do object <- parse_object (jsonString payload);
     do rectangle <- get_text object (str "rectangle");
     match cursor_rectangle rectangle with
     | None => k_skip
     | Some (x, y, w, h) =>
         exec se_modify (fun k => k <| k_cursor := (x, y, w, h) |>);
         do k <- se_get;
         k_when (kv_thumbnailSession (k_view k))
           (exec set_view (fun v => v <| kv_thumbnailPosition := (x, y) |>);
            if beq (kv_thumbnailTarget (k_view k)) [] then k_thumbnail (x, y)
            else set_view (fun v => v <| kv_thumbnailTarget := [] |>))
     end)
    k_skip).

Definition admin_status (isAdminUser : option bool) : bytes :=
  match isAdminUser with Some true => str "true" | Some false => str "false" | None => str "null" end.

Definition viewinfo (payload : Message) : KIO bool :=
  exec forwardToClient payload;
  exec set_view (fun v => v <| kv_sentAudit := true |>);
  do k <- se_get;
  exec forwardToClient (Message_new (str "adminuser: " ++ admin_status (kv_isAdminUser (k_view k))));
  handled (forwardToClient (Message_new (str "serveraudit: " ++ default (str "disabled") (kc_auditJSON kc)))).

Definition renderfont (payload : Message) : KIO bool :=
  let tokens := m_tokens payload in
  match (if (sv_size tokens <? 3)%nat then None else getTokenString (sv_get tokens 1) (str "font")) with
  | None => se_ret true
  | Some font =>
      let text := default [] (getTokenString (sv_get tokens 2) (str "char")) in
      exec (if (length (m_data payload) <=? length (msg_firstLine payload))%nat then se_throw undefined
            else save_stream Font (font ++ text) (drop (length (msg_firstLine payload) + 1) (m_data payload)));
      handled (forwardToClient payload)
  end.

(** The result of a conversion, and its document is closed. *)
Definition conversion_result (reason : bytes) (answer : KitEffect) : KIO unit :=
  do k <- se_get;
  exec k_when (kv_saveAsSocket (k_view k)) (k_effect answer);
  k_db (fun _ => closeDocument reason).
Definition json_result (reason : bytes) (payload : Message) : KIO bool :=
  handled (conversion_result reason (HttpAnswer 200 [] (str "application/json") (jsonString payload))).

Definition sendthumbnail (payload : Message) : KIO bool :=
  let firstLine := msg_firstLine payload in
  do k <- se_get;
  if kv_saveAsSocket (k_view k) && negb (contains firstLine (str "error"))
     && (length (m_data payload) <=? length firstLine)%nat
  then se_throw out_of_range (* [std::length_error] *)
  else
    go_on (conversion_result (str "thumbnailgenerated")
      (if contains firstLine (str "error") then HttpAnswer 500 [] [] []
       else HttpAnswer 200 [] (str "image/png") (drop (length firstLine + 1) (m_data payload)))).

Definition handleOpenDocKitToClientMessage (payload : Message) : KIO bool :=
  do k <- se_get;
  let v := k_view k in
  let loading := self_is js (fun s => bool_decide (se_state s = LOADING)) (k_world k) in
  if msg_cmd payload "tile:" then se_ret false
  else if msg_cmd payload "jsdialog:" && loading then
    go_on (k_db (fun _ => setInteractive true))
  else if msg_cmd payload "loaded:" then go_on (loaded payload)
  else if msg_cmd payload "status:" then status payload
  else if msg_cmd payload "statusupdate:" then statusupdate payload
  else if msg_cmd payload "commandvalues:" then commandvalues payload
  else if msg_cmd payload "invalidatetiles:" then invalidatetiles payload
  else if msg_cmd payload "statechanged:" then
    go_on (k_when (kv_thumbnailSession v) (k_thumbnail (kv_thumbnailPosition v)))
  else if msg_cmd payload "invalidatecursor:" then invalidatecursor payload
  else if negb (kv_sentAudit v) && msg_cmd payload "viewinfo:" then viewinfo payload
  else if msg_cmd payload "renderfont:" then renderfont payload
  else if msg_cmd payload "extractedlinktargets:" then json_result (str "extractedlinktargets") payload
  else if msg_cmd payload "extracteddocumentstructure:" then json_result (str "extracteddocumentstructure") payload
  else if msg_cmd payload "transformeddocumentstructure:" then json_result (str "transformeddocumentstructure") payload
  else if msg_cmd payload "sendthumbnail:" then sendthumbnail payload
  else se_ret false.

Definition handleKitToClientMessage (payload : Message) : KIO unit :=
  do done <- any_document payload;
  if done then k_skip
  else
    do k <- se_get;
    do done <- (if kv_isDocPasswordProtected (k_view k) then se_ret false else handleOpenDocKitToClientMessage payload);
    if done then k_skip else forwardToClient payload.

(** ** Media in a slide show *)

(** One [src] that refers to a file of the kit: what is before it, and the name and the
    URL of the file, and what follows; [None]: there is no closing quote. *)
Definition svg_prefix : bytes := str "src=" ++ [34] ++ str "file:///tmp/".
Definition svg_media (svg : bytes) (start : nat) : option (bytes * bytes * bytes) :=
  let name := drop (start + length svg_prefix) svg in
  match find_sub [34] name with
  | None => None
  | Some end_ =>
      let dot := match find_sub (str ".") name with
                 | Some dot => if (end_ <? dot)%nat then end_ else dot
                 | None => end_
                 end in
      Some (take dot name, str "file:///tmp/" ++ take end_ name, drop (end_ + 1) name)
  end.

(** The loop over the rest of the text; [None] for a broken file. Each round consumes
    more than the prefix. *)
Fixpoint svg_loop (fuel : nat) (svg : bytes) : KIO (option bytes) :=
  match find_sub svg_prefix svg, fuel with
  | None, _ | _, O => se_ret (Some svg)
  | Some start, S fuel' =>
      match svg_media svg start with
      | None => se_ret None
      | Some (id, fileUrl, rest) =>
          exec addEmbeddedMedia id (str "{ " ++ [34] ++ str "action" ++ [34] ++ str ":" ++ [34] ++ str "update" ++ [34]
            ++ str "," ++ [34] ++ str "id" ++ [34] ++ str ":" ++ [34] ++ id ++ [34] ++ str "," ++ [34] ++ str "url" ++ [34]
            ++ str ":" ++ [34] ++ fileUrl ++ [34] ++ str "}");
          do k <- se_get;
          do tail <- svg_loop fuel' rest;
          se_ret ((fun t => take start svg ++ str "src=" ++ [34] ++ mediaUrl k id ++ [34] ++ t) <$> tail)
      end
  end.
Definition processSVGContent (svg : bytes) : KIO bytes :=
  do r <- svg_loop (S (length svg)) svg;
  se_ret (default svg r).

(** ** The broker's side *)

(** The views of the sessions; that of the session at work is in the world. *)
Record KitBroker := {
  kb_world : KitWorld;
  kb_views : gmap bytes (Client js * KitView);
  kb_slides : SlideLayerCacheMap }.        (* its map is that of the world *)

#[export] Instance KitBroker_settable : Settable KitBroker := fun b =>
  {| kb_world := kb_world b; kb_views := kb_views b; kb_slides := kb_slides b |}.

Abbreviation BIO := (SE KitBroker).

Definition session_known (sid : bytes) (b : KitBroker) : bool :=
  bool_decide (is_Some (find_session sid (w_db (k_world (kb_world b))))).

(** A method of the session [sid]. *)
Definition for_session {A} (sid : bytes) (m : KIO A) : BIO A := fun b =>
  match kb_views b !! sid with
  | None => (b, Throw undefined)
  | Some (client, view) =>
      let k := kb_world b <| k_world ::= fun w => w <| w_client := client |> |> <| k_view := view |> in
      let '(k', r) := m k in
      (b <| kb_world := k' |> <| kb_views ::= <[sid := (w_client (k_world k'), k_view k')]> |>, r)
  end.

(** The loop of a broadcast over [_sessions]: an iterator to a session that is erased
    meanwhile is not valid any more. *)
Fixpoint broadcast_kit (ids : list bytes) (payload : Message) : BIO unit :=
  match ids with
  | [] => se_ret tt
  | id :: ids' =>
      do b <- se_get;
      let skip := match find_session id (w_db (k_world (kb_world b))) with
                  | Some s => inWaitDisconnected s
                  | None => true
                  end in
      exec (if skip then se_ret tt else for_session id (handleKitToClientMessage payload));
      do b' <- se_get;
      if session_known id b && negb (session_known id b') then se_throw undefined else broadcast_kit ids' payload
  end.

(** [DocumentBroker::forwardToClient]. *)
Definition broker_forwardToClient (payload : Message) : BIO unit :=
  match parseNameValuePair (m_forwardToken payload) chr_minus with
  | Some (name, sid) =>
      if beq name (str "client") then
        do b <- se_get;
        if beq sid (str "all") then broadcast_kit (map se_id (db_sessions (w_db (k_world (kb_world b))))) payload
        else if session_known sid b then for_session sid (handleKitToClientMessage payload)
        else se_ret tt
      else se_ret tt
  | None => se_ret tt
  end.

Definition b_kit (f : KitWorld -> KitWorld) : BIO unit := se_modify (fun b => b <| kb_world ::= f |>).

(** The slides as the world has them, with the order of their writing. *)
Definition slides_of (b : KitBroker) : SlideLayerCacheMap :=
  kb_slides b <| sl_cache_map := w_slideLayerCache js (k_world (kb_world b)) |>
    <| sl_insertion_order ::= fun order => if bool_decide (w_slideLayerCache js (k_world (kb_world b)) = ∅) then [] else order |>.
Definition set_slides (c : SlideLayerCacheMap) (b : KitBroker) : KitBroker :=
  b <| kb_slides := c |> <| kb_world ::= fun k => k <| k_world ::= fun w => w <| w_slideLayerCache js := sl_cache_map c |> |> |>.

Definition handleSlideLayerResponse (message : Message) : BIO unit :=
  if kc_enableExperimental kc then
    let msg := match find_sub [chr_newline] (m_data message) with
               | Some pos => take pos (m_data message)
               | None => m_data message
               end in
    match parseJSON js msg with
    | None => se_ret tt
    | Some json =>
        exec se_modify (fun b => set_slides (sl_insert (json_text json (str "cacheKey")) (m_data message) (slides_of b)) b);
        broker_forwardToClient message
    end
  else broker_forwardToClient message.

(** The tile half, without a session. *)
Definition b_tiles (m : SE TileServer.DocumentBroker unit) : BIO unit := fun b =>
  let '(t, r) := m (w_tiles (k_world (kb_world b))) in
  (b <| kb_world ::= fun k => k <| k_world ::= fun w => w <| w_tiles := t |> |> |>, r).

Definition clearCaches : BIO unit :=
  exec b_tiles (se_modify (fun t => b_setCache t (tcache_clear <$> b_tileCache t)));
  se_modify (fun b => set_slides (sl_erase_all (slides_of b)) b).

Definition errortoall (tokens : StringVector) : BIO unit :=
  let cmd := default [] (getTokenString (sv_get tokens 1) (str "cmd")) in
  let kind := default [] (getTokenString (sv_get tokens 2) (str "kind")) in
  if (sv_size tokens =? 3)%nat && negb (beq cmd []) && negb (beq kind [])
  then b_kit (fun k => k <| k_effects ::= fun l => l ++ [AlertAllUsers cmd kind] |>)
  else se_ret tt.

(** The file of a download, rewritten for the session that asked for it. *)
Definition registerdownload (tokens : StringVector) : BIO unit :=
  let field i name := default [] (getTokenString (sv_get tokens i) name) in
  let downloadid := field 1%nat (str "downloadid") in
  let url := field 2%nat (str "url") in
  let clientId := field 3%nat (str "clientid") in
  if (sv_size tokens =? 4)%nat && negb (beq downloadid []) && negb (beq url []) && negb (beq clientId []) then
    match tl_decode tl url with
    | None => se_throw SyntaxException
    | Some decoded =>
        let filePath := kc_jailPath kc (str "/tmp/user/docs/" ++ decoded) in
        do b <- se_get;
        let svg := default [] (cs_files (k_clipboards (kb_world b)) !! filePath) in
        exec (if session_known clientId b then
                do content <- for_session clientId (processSVGContent svg);
                b_kit (fun k => k <| k_clipboards ::= fun c => c <| cs_files ::= <[filePath := content]> |> |>)
              else se_ret tt);
        b_kit (fun k => k <| k_downloadLinks ::= <[downloadid := url]> |>)
    end
  else se_ret tt.

Definition traceevent_record (always : bool) (message : Message) : BIO unit :=
  let firstLine := msg_firstLine message in
  if (sv_size (m_tokens message) =? 1)%nat && kc_traceEventFile kc && (always || kc_traceRecordingOn kc)
     && (length firstLine <? msg_size message)%nat
  then b_kit (fun k => k <| k_effects ::= fun l => l ++ [TraceRecord (drop (length firstLine + 1) (m_data message))] |>)
  else se_ret tt.

(** [DocumentBroker::handleInput]. *)
Definition broker_handleInput (message : Message) : BIO unit :=
  let now := to_ms (ev_now ev) in
  if beq (getFirstToken (m_forwardToken message) chr_minus) (str "client") then
    if msg_cmd message "slidelayer:" || msg_cmd message "sliderenderingcomplete:"
    then handleSlideLayerResponse message
    else broker_forwardToClient message
  else if msg_cmd message "tile:" then
    b_tiles (handleTileResponse json_viewId terminating item_overhead message now)
  else if msg_cmd message "tilecombine:" then
    b_tiles (handleTileCombinedResponse json_viewId terminating item_overhead message now)
  else if msg_cmd message "errortoall:" then errortoall (m_tokens message)
  else if msg_cmd message "registerdownload:" then registerdownload (m_tokens message)
  else if msg_cmd message "traceevent:" then traceevent_record false message
  else if msg_cmd message "forcedtraceevent:" then traceevent_record true message
  else if msg_cmd message "memorytrimmed:" then clearCaches
  else se_ret tt.
End kit.

Arguments k_world {js} _.
Arguments k_view {js} _.
Arguments kb_world {js} _.
Arguments kb_views {js} _.
Arguments msg_cmd payload name%_string_scope.
