(* ===== verification/KitMessagesSpec.v ===== *)
(** * What the kit's messages do

    The kit gives no permission, a message for one session leaves the others as they are,
    and what the server does not look at is passed on ([KitMessages]). *)

From S2P Require Import Prelude RecordSet StateError Util StringVector Protocol Rectangle TileDesc TileCache Message ClientSession TileServer TileInvalidation JsonUtil LoadOptions LoadOptionsSpec SlideCache Clipboard Storage SaveManager DocumentSave DocumentPoll DocumentSaveSpec ClientInput ClientInputSpec KitMessages.

Open Scope cool_scope.
Open Scope record_scope.

(** ** One session of the tile half *)

(** The other sessions are as they were. *)
Definition others (sid : Z) (b b' : TileServer.DocumentBroker) : Prop :=
  forall i, i <> sid -> b_sessions b' !! i = b_sessions b !! i.

#[export] Instance others_preorder sid : PreOrder (others sid).
Proof. split; [by intros b i|]. intros b1 b2 b3 H12 H23 i Hi. by rewrite H23, H12. Qed.

Lemma others_same sid b b' : b_sessions b' = b_sessions b -> others sid b b'.
Proof. intros E i _. by rewrite E. Qed.
Lemma others_on_session {A} sid (m : SE ClientSession A) : keeps (others sid) (on_session sid m).
Proof.
  intros b. unfold on_session. destruct (b_sessions b !! sid); [|reflexivity]. destruct (m _) as [s' r].
  intros i Hi. cbn. by rewrite lookup_insert_ne.
Qed.
Lemma others_get_cache sid : keeps (others sid) get_cache.
Proof. intros b. unfold get_cache. by destruct (b_tileCache b). Qed.
Lemma others_set_cache sid c : keeps (others sid) (set_cache_ c).
Proof. apply keeps_modify. intros b. by apply others_same. Qed.

Ltac others_atom :=
  first [ apply others_on_session | apply others_get_cache | apply others_set_cache
        | apply keeps_modify; intros ?; by apply others_same ].
Ltac others := keeps_with others_atom.

Section tile_half.
Context (json_viewId : bytes -> result bytes) (terminating : bool) (sid now : Z).

Lemma others_requestTileRendering tile force version needs :
  keeps (others sid) (requestTileRendering tile force version now needs sid).
Proof. unfold requestTileRendering, subscribe. others. Qed.
Lemma others_answer tile t : keeps (others sid) (answer json_viewId terminating sid now tile t).
Proof. unfold answer, with_wid, last_wid, sendTile_to. others. Qed.
Lemma others_combined_tiles tiles force version needs :
  keeps (others sid) (combined_tiles tiles force sid version now needs).
Proof.
  revert needs. induction tiles as [|tile tiles IH]; intros needs; cbn [combined_tiles]; [others|].
  keeps_with ltac:(first [apply IH|apply others_requestTileRendering|others_atom]).
Qed.
Lemma others_send_requested requested limit bumped needs same :
  keeps (others sid) (send_requested json_viewId terminating requested sid limit now bumped needs same).
Proof.
  revert bumped needs same. induction requested as [|tile rest IH]; intros bumped needs same; cbn [send_requested]; [others|].
  keeps_with ltac:(first [apply IH|apply others_requestTileRendering|apply others_answer|progress unfold render_requested|others_atom]).
Qed.
Lemma others_sendRequestedTiles : keeps (others sid) (sendRequestedTiles json_viewId terminating sid now).
Proof.
  unfold sendRequestedTiles, send_combined, sendTileCombine.
  keeps_with ltac:(first [apply others_send_requested|others_atom]).
Qed.
Lemma others_handleTileCombinedRequest tc force :
  keeps (others sid) (handleTileCombinedRequest json_viewId terminating tc force sid now).
Proof.
  unfold handleTileCombinedRequest, send_combined, sendTileCombine.
  keeps_with ltac:(first [apply others_combined_tiles|apply others_sendRequestedTiles|others_atom]).
Qed.
Lemma others_handleTileInvalidation v message :
  keeps (others sid) (handleTileInvalidation json_viewId terminating v message sid now).
Proof.
  unfold handleTileInvalidation, broker_invalidateTiles, request_invalid.
  keeps_with ltac:(first [apply others_handleTileCombinedRequest|others_atom]).
Qed.
End tile_half.

(** ** The save half *)

Lemma gain_upload_rename ev b : no_gain b (upload_rename ev b).
Proof. unfold upload_rename. gain. Qed.
#[export] Hint Resolve gain_upload_rename : gain.
Lemma gain_switchToOffline b : no_gain b (switchToOffline b).
Proof. unfold switchToOffline. gain. Qed.
#[export] Hint Resolve gain_switchToOffline : gain.
Lemma gain_disconnect_closed ev ids b : no_gain b (disconnect_closed ev ids b).
Proof. revert b. induction ids as [|id ids IH]; intros b; simpl; [reflexivity|]. etransitivity; [|apply IH]. gain. Qed.
#[export] Hint Resolve gain_disconnect_closed : gain.
Lemma gain_disconnectClosedSessions ev b : no_gain b (disconnectClosedSessions ev b).
Proof. unfold disconnectClosedSessions. gain. Qed.
#[export] Hint Resolve gain_disconnectClosedSessions : gain.
Lemma gain_upload_if_needed ev id justSaved needToUpload b : no_gain b (upload_if_needed ev id justSaved needToUpload b).
Proof. unfold upload_if_needed. gain. Qed.
#[export] Hint Resolve gain_upload_if_needed : gain.
Lemma gain_checkAndUploadToStorage ev id justSaved b : no_gain b (checkAndUploadToStorage ev id justSaved b).
Proof. unfold checkAndUploadToStorage. gain. Qed.
#[export] Hint Resolve gain_checkAndUploadToStorage : gain.
Lemma gain_handleSaveResponse ev id json b : no_gain b (handleSaveResponse ev id json b).
Proof. unfold handleSaveResponse, rename_to_uploading. gain. Qed.
Lemma gain_uploadAsToStorage ev id path filename isRename isExport b :
  no_gain b (uploadAsToStorage ev id path filename isRename isExport b).
Proof. unfold uploadAsToStorage. gain. Qed.
Lemma gain_uploadAfterLoadingTemplate ev id b : no_gain b (uploadAfterLoadingTemplate ev id b).
Proof. unfold uploadAfterLoadingTemplate, rename_to_uploading. gain. Qed.
Lemma gain_setWritable id b : no_gain b (setWritableB id false b).
Proof. unfold setWritableB. gain. Qed.
#[export] Hint Resolve gain_setWritable : gain.
Lemma gain_lockIfEditing ev id b : no_gain b (lockIfEditing ev id b).
Proof. unfold lockIfEditing. gain. Qed.
Lemma gain_setLoaded now b : no_gain b (setLoaded now b).
Proof. unfold setLoaded. gain. Qed.
#[export] Hint Resolve gain_handleSaveResponse gain_uploadAsToStorage gain_uploadAfterLoadingTemplate gain_lockIfEditing
  gain_setLoaded : gain.
Lemma gain_handleLoaded ev id isFirst template b : no_gain b (handleLoaded ev id isFirst template b).
Proof. unfold handleLoaded, setInteractive. gain. Qed.
Lemma gain_setModified value b : no_gain b (setModified value b).
Proof. unfold setModified. gain. Qed.
#[export] Hint Resolve gain_handleLoaded gain_setModified : gain.

(** Fact (functional): a view that cannot lock the document becomes a reader. If the storage supports locks
    and none is held, and the lock of an editing view that is loaded cannot be had - for whatever
    reason - its session may no longer edit, comment, manage redlines or write in the storage. *)
Theorem failed_lock_makes_readonly ev id b s :
  lc_supportsLocks (db_lockCtx b) = true -> isLocked (db_lockCtx b) = false ->
  find_session id b = Some s -> se_isReadOnly s = false -> (updateStorageLockState ev id LOCK b).2 = false ->
  Forall (fun s' => se_id s' = id -> se_isWritable s' = false /\ isEditable s' = false)
    (db_sessions (lockIfEditing ev id b)).
Proof.
  intros Hl Hk Hs Hr Hf. unfold lockIfEditing. rewrite Hl, Hk, Hs, Hr. cbn [negb orb].
  destruct (updateStorageLockState ev id LOCK b) as [b1 ok]. cbn in Hf. subst ok. unfold setWritableB.
  assert (E : forall msg b2, db_sessions (DocumentSave.sendTextFrame id msg b2) = db_sessions b2)
    by (intros; unfold DocumentSave.sendTextFrame; by repeat case_match).
  rewrite E. apply Forall_forall. intros s' Hin Hid. cbn in Hin. apply list_elem_of_fmap in Hin as (t & -> & _).
  destruct (beq (se_id t) id) eqn:Et; [done|]. by rewrite Hid, beq_refl in Et.
Qed.

Lemma failed_lock_makes_readonly_witness :
  let b := sample_broker <| db_lockCtx ::= fun c => c <| lc_supportsLocks := true |> |> in
  let ev := {| ev_now := 7; ev_shutdownRequestFlag := false; ev_connects := true; ev_lockStatus := Lock_FAILED;
               ev_lockReason := []; ev_cfiStarts := true |} in
  Forall (fun s' => se_id s' = str "1" -> se_isWritable s' = false /\ isEditable s' = false)
    (db_sessions (lockIfEditing ev (str "1") b)).
Proof. intros b ev. by apply (failed_lock_makes_readonly ev (str "1") b sample_session). Defined.

(** ** A message for one session *)

Lemma forwarded_first token name id :
  parseNameValuePair token chr_minus = Some (name, id) -> getFirstToken token chr_minus = name.
Proof.
  unfold parseNameValuePair, getFirstToken, getDelimitedInitialSubstring. by destruct (_ <? _)%nat; intros [= <- _].
Qed.

Section handlers.
Context (tl : TextLib) (js : JsonLib) (kl : KitLib js) (lc : LoadConfig) (kc : KitConfig).
Context (json_viewId : bytes -> result bytes) (terminating : bool) (item_overhead : Z) (ie : InputEnv).

(** What the frames of the save half do to the session of number [i]. *)
Definition frames_for (i : Z) (frames : list Output) (s : ClientSession) : ClientSession :=
  fold_left (fun s o =>
    match o with
    | ToClient id msg =>
        if kc_number kc id =? i
        then (enqueueSendMessage json_viewId terminating (to_ms (ev_now (ie_env ie))) (Message_new msg) s).1 else s
    | _ => s
    end) frames s.

Lemma deliver_lookup frames t i :
  b_sessions (deliver kc json_viewId terminating ie frames t) !! i = frames_for i frames <$> b_sessions t !! i.
Proof.
  revert t. induction frames as [|o frames IH]; intros t; [symmetry; apply option_fmap_id|].
  unfold deliver in *. cbn [fold_left]. rewrite IH. destruct o as [id msg| | | | |]; try done.
  unfold deliver_frame, on_session. destruct (b_sessions t !! kc_number kc id) as [s|] eqn:E.
  - destruct (enqueueSendMessage _ _ _ _ s) as [s' r] eqn:Es. cbn [fst b_setSessions b_sessions].
    destruct (Z.eqb_spec (kc_number kc id) i) as [<-|Hi].
    + rewrite lookup_insert_eq, E. cbn. unfold frames_for. cbn [fold_left]. by rewrite Z.eqb_refl, Es.
    + rewrite lookup_insert_ne by done. destruct (b_sessions t !! i); [|done]. cbn. unfold frames_for. cbn [fold_left].
      by rewrite (proj2 (Z.eqb_neq _ _) Hi).
  - cbn [fst]. destruct (Z.eqb_spec (kc_number kc id) i) as [<-|Hi]; [by rewrite E|].
    destruct (b_sessions t !! i); [|done]. cbn. unfold frames_for. cbn [fold_left]. by rewrite (proj2 (Z.eqb_neq _ _) Hi).
Qed.

Lemma frames_for_app i l1 l2 s : frames_for i (l1 ++ l2) s = frames_for i l2 (frames_for i l1 s).
Proof. apply fold_left_app. Qed.

(** The frames of the session [id] itself. *)
Definition own_frame (id : bytes) (o : Output) : Prop := match o with ToClient i _ => i = id | _ => True end.

Lemma frames_for_own id i l s : Forall (own_frame id) l -> kc_number kc id <> i -> frames_for i l s = s.
Proof.
  intros Hl Hi. revert s. induction Hl as [|o l Ho Hl IH]; intros s; [done|]. cbn [frames_for fold_left].
  destruct o; try apply IH. cbn in Ho. subst. rewrite (proj2 (Z.eqb_neq _ _) Hi). apply IH.
Qed.

(** The save half adds these frames; unless it is [loud], for the session at work. *)
Definition said (loud : bool) (id : bytes) (b b' : DB) : Prop :=
  exists l, db_out b' = db_out b ++ l /\ (loud = false -> Forall (own_frame id) l).

Lemma said_same loud id b b' : db_out b' = db_out b -> said loud id b b'.
Proof. intros E. exists []. rewrite app_nil_r. by split; [|constructor]. Qed.
Lemma said_loud loud id b b' : loud = true -> (exists l, db_out b' = db_out b ++ l) -> said loud id b b'.
Proof. intros -> [l E]. by exists l. Qed.
Lemma said_stepped loud id b b' : loud = true -> stepped b b' -> said loud id b b'.
Proof. intros Hl [_ _ _ _ _ (l & El & _)]. apply said_loud; [done|by exists l]. Qed.
Lemma said_stop loud id reason b b' : said loud id b b' -> said loud id b (stop reason b').
Proof. intros (l & El & Hl). exists l. split; [|done]. rewrite <- El. unfold stop. by case_match. Qed.
Lemma said_sendTextFrame loud id msg b : said loud id b (DocumentSave.sendTextFrame id msg b).
Proof.
  unfold DocumentSave.sendTextFrame. repeat case_match; try (by apply said_same).
  eexists [_]. split; [reflexivity|]. intros _. by repeat constructor.
Qed.
(** What goes to the kit is no frame. *)
Definition silent (o : Output) : Prop := match o with ToClient _ _ => False | _ => True end.
Lemma frames_for_silent i l s : Forall silent l -> frames_for i l s = s.
Proof. intros Hl. revert s. induction Hl as [|o l Ho Hl IH]; intros s; [done|]. destruct o; try apply IH. done. Qed.
Lemma silent_own id o : silent o -> own_frame id o.
Proof. by destruct o. Qed.
Lemma silent_forwardToChild ev id msg b :
  exists l, db_out (DocumentSave.forwardToChild ev id msg b).1 = db_out b ++ l /\ Forall silent l.
Proof.
  unfold DocumentSave.forwardToChild.
  repeat case_match; first [exists []; by rewrite app_nil_r | eexists [_]; split; [reflexivity|by repeat constructor]].
Qed.

(** No session gains a permission, and in the tile half only the session at work may
    change, but for the frames of the save half. *)
Record confined (loud : bool) (k k' : KitWorld js) : Prop := {
  cf_id : cl_id (w_client (k_world k')) = cl_id (w_client (k_world k));
  cf_sid : cl_sid js (w_client (k_world k')) = cl_sid js (w_client (k_world k));
  cf_gain : no_gain (w_db (k_world k)) (w_db (k_world k'));
  cf_others : exists l, db_out (w_db (k_world k')) = db_out (w_db (k_world k)) ++ l /\
    (loud = false -> Forall (own_frame (cl_id (w_client (k_world k)))) l) /\
    forall i, i <> cl_sid js (w_client (k_world k)) ->
      b_sessions (w_tiles (k_world k')) !! i = frames_for i l <$> b_sessions (w_tiles (k_world k)) !! i }.

#[local] Instance confined_preorder loud : PreOrder (confined loud).
Proof.
  split.
  - intros k. split; [done..|]. exists []. rewrite app_nil_r. split_and!; [done|constructor|].
    intros i _. by destruct (b_sessions _ !! i).
  - intros k1 k2 k3 [I1 S1 G1 (l1 & E1 & F1 & O1)] [I2 S2 G2 (l2 & E2 & F2 & O2)]. split; [congruence..|by etransitivity|].
    exists (l1 ++ l2). split_and!; [by rewrite E2, E1, app_assoc|intros Hl; rewrite I1 in F2; by apply Forall_app_2; auto|].
    intros i Hi. rewrite O2, O1 by congruence. destruct (b_sessions _ !! i); [|done]. cbn. by rewrite frames_for_app.
Qed.

(** The save half is left alone, and in the tile half only the session at work changes. *)
Lemma confined_quiet loud k k' :
  cl_id (w_client (k_world k')) = cl_id (w_client (k_world k)) ->
  cl_sid js (w_client (k_world k')) = cl_sid js (w_client (k_world k)) ->
  w_db (k_world k') = w_db (k_world k) ->
  others (cl_sid js (w_client (k_world k))) (w_tiles (k_world k)) (w_tiles (k_world k')) -> confined loud k k'.
Proof.
  intros Hi Hs Hd Ho. split; [done..|by rewrite Hd|]. exists []. rewrite app_nil_r, Hd. split_and!; [done|constructor|].
  intros i Hne. rewrite Ho by done. by destruct (b_sessions _ !! i).
Qed.

(** Nothing of the two halves of the broker changes. *)
Lemma confined_same loud k k' : k_world k' = k_world k -> confined loud k k'.
Proof. intros E. by apply confined_quiet; rewrite E. Qed.

Lemma confined_db loud f :
  (forall id b, no_gain b (f id b)) -> (forall id b, said loud id b (f id b)) ->
  keeps (confined loud) (k_db js kc json_viewId terminating ie f).
Proof.
  intros Hf Hs k. unfold k_db, k_io. cbn [fst]. set (w := k_world k).
  destruct (Hs (cl_id (w_client w)) (w_db w)) as (l & El & Hl).
  split; cbn; [done|done|apply Hf|]. exists l. split_and!; [done|done|]. intros i Hi. fold w. rewrite El, drop_app_length.
  apply deliver_lookup.
Qed.
Lemma confined_tiles loud m :
  (forall sid now, keeps (others sid) (m sid now)) -> keeps (confined loud) (k_io js (on_tiles js ie m)).
Proof.
  intros Hm k. unfold k_io, on_tiles. specialize (Hm (cl_sid js (w_client (k_world k))) (to_ms (ev_now (ie_env ie))) (w_tiles (k_world k))).
  destruct (m _ _ _) as [t r]. by apply confined_quiet.
Qed.
Lemma confined_client loud f :
  (forall c, cl_id (f c) = cl_id c /\ cl_sid js (f c) = cl_sid js c) -> keeps (confined loud) (set_k_client js f).
Proof. intros Hf k. destruct (Hf (w_client (k_world k))). by apply confined_quiet. Qed.
Lemma confined_send loud msg : keeps (confined loud) (k_send js kc json_viewId terminating ie msg).
Proof. apply confined_db; intros id b; [gain|apply said_sendTextFrame]. Qed.
Lemma confined_to_kit loud message : keeps (confined loud) (to_kit tl js lc ie message).
Proof.
  intros k. unfold to_kit, k_io. pose proof (keeps_forwardToChild tl js lc ie message (k_world k)) as Hg.
  destruct (ClientInput.forwardToChild tl js lc ie message (k_world k)) as [w r] eqn:E.
  assert (Hw : w_client w = w_client (k_world k) /\ w_tiles w = w_tiles (k_world k) /\
               exists l, db_out (w_db w) = db_out (w_db (k_world k)) ++ l /\ Forall silent l).
  { replace w with ((ClientInput.forwardToChild tl js lc ie message (k_world k)).1) by (by rewrite E). clear.
    unfold ClientInput.forwardToChild, when.
    repeat case_match; cbn; repeat case_match; split_and!; try done; try apply silent_forwardToChild;
      first [exists []; by rewrite app_nil_r | eexists [_]; split; [reflexivity|by repeat constructor]]. }
  destruct Hw as (Hc & Ht & l & El & Hl). split; cbn; [by rewrite Hc..|exact Hg|].
  exists l. split_and!; [done|intros _; eapply Forall_impl; [exact Hl|apply silent_own]|]. intros i Hi. rewrite Ht.
  destruct (b_sessions _ !! i) as [s|]; [|done]. cbn. by rewrite frames_for_silent.
Qed.
Lemma confined_catch loud {A} (m h : SE (KitWorld js) A) : keeps (confined loud) m -> keeps (confined loud) h -> keeps (confined loud) (k_catch js m h).
Proof.
  intros Hm Hh k. specialize (Hm k). unfold k_catch. destruct (m k) as [k' [a|e]]; [done|]. case_bool_decide; [done|].
  etransitivity; [exact Hm|apply Hh].
Qed.
Lemma confined_forwardToClient loud payload : keeps (confined loud) (forwardToClient js json_viewId terminating ie payload).
Proof. apply confined_tiles. intros sid now. apply others_on_session. Qed.
Lemma confined_tile_session loud f : keeps (confined loud) (k_io js (on_tile_session js ie f)).
Proof. apply confined_tiles. intros sid now. apply others_on_session. Qed.
Lemma confined_save_stream loud type name data : keeps (confined loud) (save_stream js ie type name data).
Proof. apply confined_tiles. intros sid now. others. Qed.
Lemma confined_invalidation loud v message :
  keeps (confined loud) (k_io js (on_tiles js ie (handleTileInvalidation json_viewId terminating v message))).
Proof. apply confined_tiles. intros sid now. apply others_handleTileInvalidation. Qed.
Lemma confined_modify loud f : (forall k, k_world (f k) = k_world k) -> keeps (confined loud) (se_modify f).
Proof. intros Hf. apply keeps_modify. intros k. by apply confined_same. Qed.
Lemma confined_clear_slides loud (f : World js -> World js) :
  (forall w, w_client (f w) = w_client w /\ w_db (f w) = w_db w /\ w_tiles (f w) = w_tiles w) ->
  keeps (confined loud) (k_io js (se_modify f)).
Proof. intros Hf k. destruct (Hf (k_world k)) as (Hc & Hd & Ht). apply confined_quiet; cbn; by rewrite ?Hc, ?Hd, ?Ht. Qed.
Lemma confined_remove loud :
  keeps (confined loud) (k_io js (se_modify (fun w => w <| w_tiles ::= fun t =>
    b_setSessions t (delete (cl_sid js (w_client w)) (b_sessions t)) |>))).
Proof. intros k. apply confined_quiet; try done. intros i Hi. cbn. by rewrite lookup_delete_ne. Qed.

Create HintDb confined.
#[local] Hint Resolve confined_send confined_to_kit confined_forwardToClient confined_save_stream confined_tile_session
  confined_invalidation confined_remove : confined.

(** The calls that send nothing, and those of a message that may be loud. *)
Lemma said_closeDocument loud id reason b : said loud id b (closeDocument reason b).
Proof. apply said_same. unfold closeDocument, stop. by repeat case_match. Qed.
Lemma said_setModified loud id value b : said loud id b (setModified value b).
Proof. apply said_same. unfold setModified. by repeat case_match. Qed.
Ltac said :=
  first [ apply said_same; reflexivity | apply said_closeDocument | apply said_setModified
        | apply said_stepped; [assumption|stepped] ].
Ltac confined_atom :=
  first [ solve [auto 1 with confined]
        | apply confined_db; intros; [solve [gain]|solve [said]]
        | apply confined_client; intros; by split
        | apply confined_modify; intros; reflexivity
        | apply confined_clear_slides; intros; by split_and!
        | apply confined_catch
        | progress unfold k_when, k_skip, handled, go_on, k_effect, set_view, parse_object, get_text, when_int,
            k_thumbnail, addEmbeddedMedia, conversion_result, end_conversion ].
Ltac confined := keeps_with confined_atom.

Lemma confined_read_save_response loud json : keeps (confined loud) (read_save_response js json).
Proof. unfold read_save_response. confined. Qed.
Lemma confined_publish_videos loud videos modified : keeps (confined loud) (publish_videos js kl kc videos modified).
Proof.
  revert modified. induction videos as [|video videos IH]; intros modified; cbn [publish_videos]; [confined|].
  unfold publish_video. keeps_with ltac:(first [apply IH|confined_atom]).
Qed.
#[local] Hint Resolve confined_publish_videos confined_read_save_response : confined.
Lemma confined_publish_slides loud slides modified : keeps (confined loud) (publish_slides js kl kc slides modified).
Proof.
  revert modified. induction slides as [|slide slides IH]; intros modified; cbn [publish_slides]; [confined|].
  keeps_with ltac:(first [apply IH|confined_atom]).
Qed.
#[local] Hint Resolve confined_publish_slides : confined.
Lemma confined_handlePresentationInfo loud payload :
  keeps (confined loud) (handlePresentationInfo js kl kc json_viewId terminating ie payload).
Proof. unfold handlePresentationInfo. confined. Qed.
#[local] Hint Resolve confined_handlePresentationInfo : confined.
Section loud.
Context (loud : bool) (Hloud : loud = true).
Lemma confined_abortConversion errorKind :
  keeps (confined loud) (abortConversion js kc json_viewId terminating ie errorKind).
Proof. unfold abortConversion. confined. Qed.
Lemma confined_handleSaveAs payload :
  keeps (confined loud) (handleSaveAs tl js kl kc json_viewId terminating ie payload).
Proof. unfold handleSaveAs. confined. Qed.
Lemma confined_unocommandresult payload :
  keeps (confined loud) (unocommandresult js kc json_viewId terminating ie payload).
Proof. unfold unocommandresult. confined. Qed.
Lemma confined_error_message payload :
  keeps (confined loud) (error_message js kc json_viewId terminating ie payload).
Proof. unfold error_message. keeps_with ltac:(first [apply confined_abortConversion|confined_atom]). Qed.
Lemma confined_loaded payload : keeps (confined loud) (loaded js kc json_viewId terminating ie payload).
Proof. unfold loaded. confined. Qed.
End loud.
Lemma confined_initial_state loud name state : keeps (confined loud) (initial_state tl js lc ie name state).
Proof. unfold initial_state. confined. Qed.
#[local] Hint Resolve confined_initial_state : confined.

(** The messages on which the save half may speak to other sessions. *)
Definition loud_commands : list bytes :=
  [str "unocommandresult:"; str "error:"; str "saveas:"; str "exportas:"; str "loaded:"].
Definition is_loud (payload : Message) : bool := existsb (equals (m_tokens payload) 0) loud_commands.
Lemma loud_command payload name : msg_cmd payload name = true -> In (str name) loud_commands -> is_loud payload = true.
Proof. intros Hc Hin. apply existsb_exists. by exists (str name). Qed.

Lemma confined_any_document payload :
  keeps (confined (is_loud payload)) (any_document tl js kl lc kc json_viewId terminating ie payload).
Proof.
  unfold any_document. destruct (msg_cmd payload "downloadas:"); [unfold downloadas; confined|].
  destruct (msg_cmd payload "unocommandresult:") eqn:E1.
  { apply confined_unocommandresult, (loud_command _ _ E1). vm_compute; tauto. }
  destruct (msg_cmd payload "error:") eqn:E2.
  { apply confined_error_message, (loud_command _ _ E2). vm_compute; tauto. }
  destruct (_ && _); [confined|]. destruct (_ && _); [unfold setpart; confined|].
  destruct (_ && (_ || _)) eqn:E3.
  { assert (Hl : is_loud payload = true).
    { apply andb_true_iff in E3 as [_ E3]. apply orb_true_iff in E3 as [E3|E3];
        apply (loud_command _ _ E3); vm_compute; tauto. }
    unfold handled. keeps_with ltac:(first [by apply confined_handleSaveAs|confined_atom]). }
  unfold statechanged, textselectioncontent, clipboardcontent, disconnected, graphicselection, publish_selection,
    formfieldbutton, canonicalidchange.
  confined.
Qed.
Lemma confined_open_document payload :
  keeps (confined (is_loud payload)) (handleOpenDocKitToClientMessage tl js lc kc json_viewId terminating ie payload).
Proof.
  unfold handleOpenDocKitToClientMessage. apply keeps_io_bind; [exact _|confined|intros k]. cbn zeta.
  destruct (msg_cmd payload "tile:"); [confined|]. destruct (_ && _); [unfold setInteractive; confined|].
  destruct (msg_cmd payload "loaded:") eqn:E.
  { assert (Hl : is_loud payload = true) by (apply (loud_command _ _ E); vm_compute; tauto).
    unfold go_on. keeps_with ltac:(first [by apply confined_loaded|confined_atom]). }
  unfold status, statusupdate, commandvalues, invalidatetiles, invalidatecursor, viewinfo, renderfont, json_result, sendthumbnail.
  confined.
Qed.
Lemma confined_handleKitToClientMessage payload :
  keeps (confined (is_loud payload)) (handleKitToClientMessage tl js kl lc kc json_viewId terminating ie payload).
Proof.
  unfold handleKitToClientMessage. pose proof (confined_any_document payload) as Ha.
  pose proof (confined_open_document payload) as Ho. keeps_with ltac:(first [exact Ha|exact Ho|confined_atom]).
Qed.

(** ** Delivery *)

Definition db_of (b : KitBroker js) : DB := w_db (k_world (kb_world b)).
Definition tiles_of (b : KitBroker js) : TileServer.DocumentBroker := w_tiles (k_world (kb_world b)).
Definition no_gain_b (b b' : KitBroker js) : Prop := no_gain (db_of b) (db_of b').

#[local] Instance no_gain_b_preorder : PreOrder no_gain_b.
Proof. split; [intros b; unfold no_gain_b; reflexivity|intros b1 b2 b3; unfold no_gain_b; apply transitivity]. Qed.

Lemma gain_same_db b b' : db_of b' = db_of b -> no_gain_b b b'.
Proof. intros E. unfold no_gain_b. rewrite E. reflexivity. Qed.

(** The other views of the document, and the other sessions of the tile half, but for the
    frames of the save half. *)
Definition undisturbed (loud : bool) (id : bytes) (client : Client js) (b b' : KitBroker js) : Prop :=
  (exists l, db_out (db_of b') = db_out (db_of b) ++ l /\ (loud = false -> Forall (own_frame (cl_id client)) l) /\
     forall i, i <> cl_sid js client -> b_sessions (tiles_of b') !! i = frames_for i l <$> b_sessions (tiles_of b) !! i) /\
  (forall i, i <> id -> kb_views b' !! i = kb_views b !! i).

Lemma undisturbed_same loud id client b b' :
  k_world (kb_world b') = k_world (kb_world b) \/ db_of b' = db_of b /\ tiles_of b' = tiles_of b ->
  kb_views b' = kb_views b -> undisturbed loud id client b b'.
Proof.
  intros H Hv. split; [|by rewrite Hv]. exists [].
  assert (db_of b' = db_of b /\ tiles_of b' = tiles_of b) as [-> ->].
  { destruct H as [H|H]; [|done]. unfold db_of, tiles_of. by rewrite H. }
  rewrite app_nil_r. split_and!; [done|constructor|]. intros i _. by destruct (b_sessions _ !! i).
Qed.

(** What the work of a session does to the document. *)
Lemma for_session_confined {A} loud sid (m : SE (KitWorld js) A) b client view :
  keeps (confined loud) m -> kb_views b !! sid = Some (client, view) ->
  let b' := (for_session js sid m b).1 in
  no_gain (db_of b) (db_of b') /\ undisturbed loud sid client b b'.
Proof.
  intros Hm Hv b'. unfold b', for_session. rewrite Hv.
  set (k := kb_world b <| k_world ::= fun w => w <| w_client := client |> |> <| k_view := view |>).
  destruct (Hm k) as [_ _ Hg Ho]. destruct (m k) as [k' r]. cbn in *. split; [exact Hg|]. split; [exact Ho|].
  intros id Hid. cbn. by rewrite lookup_insert_ne.
Qed.
Lemma gain_for_session {A} loud sid (m : SE (KitWorld js) A) : keeps (confined loud) m -> keeps no_gain_b (for_session js sid m).
Proof.
  intros Hm b. destruct (kb_views b !! sid) as [[client view]|] eqn:E.
  - by destruct (for_session_confined loud sid m b client view Hm E).
  - unfold for_session. rewrite E. reflexivity.
Qed.
Lemma gain_broadcast_kit ids payload :
  keeps no_gain_b (broadcast_kit tl js kl lc kc json_viewId terminating ie ids payload).
Proof.
  pose proof (confined_handleKitToClientMessage payload) as Hk.
  pose proof (fun sid => gain_for_session (A := unit) _ sid _ Hk) as Hs.
  induction ids as [|id ids IH]; cbn [broadcast_kit]; keeps_with ltac:(first [exact IH|apply Hs]).
Qed.
Lemma gain_b_tiles m : keeps no_gain_b (b_tiles js m).
Proof. intros b. apply gain_same_db. unfold b_tiles. by destruct (m _). Qed.
Lemma gain_b_modify f : (forall b, db_of (f b) = db_of b) -> keeps no_gain_b (se_modify f).
Proof. intros Hf. apply keeps_modify. intros b. by apply gain_same_db. Qed.
Lemma gain_broker_forwardToClient payload :
  keeps no_gain_b (broker_forwardToClient tl js kl lc kc json_viewId terminating ie payload).
Proof.
  pose proof (confined_handleKitToClientMessage payload) as Hk.
  pose proof (fun sid => gain_for_session (A := unit) _ sid _ Hk) as Hs.
  unfold broker_forwardToClient. keeps_with ltac:(first [apply gain_broadcast_kit|apply Hs]).
Qed.
Lemma confined_svg_loop loud fuel svg : keeps (confined loud) (svg_loop js kl kc fuel svg).
Proof.
  revert svg. induction fuel as [|fuel IH]; intros svg; cbn [svg_loop]; [confined|].
  keeps_with ltac:(first [apply IH|confined_atom]).
Qed.
Lemma confined_processSVGContent loud svg : keeps (confined loud) (processSVGContent js kl kc svg).
Proof. unfold processSVGContent. keeps_with ltac:(first [apply confined_svg_loop|confined_atom]). Qed.

(** C25 (safety): the kit gives no permission. Whatever message comes from the kit's process, to a session, to
    all of them or to the document itself, no session stops being read-only or becomes able to
    comment, to manage redlines or to write in the storage, and none is added. *)
Theorem kit_gives_no_permissions message b :
  no_gain (db_of b)
    (db_of (broker_handleInput tl js kl lc kc json_viewId terminating item_overhead ie message b).1).
Proof.
  revert b. change (keeps no_gain_b (broker_handleInput tl js kl lc kc json_viewId terminating item_overhead ie message)).
  unfold broker_handleInput, handleSlideLayerResponse, errortoall, registerdownload, traceevent_record, clearCaches, b_kit.
  cbn zeta.
  keeps_with ltac:(first [apply gain_broker_forwardToClient | apply gain_b_tiles
    | apply (gain_for_session false), confined_processSVGContent | apply gain_b_modify; intros; reflexivity]).
Qed.

Lemma forward_undisturbed message id b client view :
  parseNameValuePair (m_forwardToken message) chr_minus = Some (str "client", id) -> id <> str "all" ->
  kb_views b !! id = Some (client, view) ->
  undisturbed (is_loud message) id client b
    (broker_forwardToClient tl js kl lc kc json_viewId terminating ie message b).1.
Proof.
  intros Hp Hall Hv. unfold broker_forwardToClient. rewrite Hp, (beq_refl (str "client")). apply beq_neq in Hall. rewrite Hall.
  rewrite (se_bind_ok _ _ b b b) by done. destruct (session_known js id b); [|apply undisturbed_same; by auto].
  by destruct (for_session_confined (is_loud message) id _ b client view (confined_handleKitToClientMessage message) Hv).
Qed.

Lemma input_undisturbed message id b client view :
  parseNameValuePair (m_forwardToken message) chr_minus = Some (str "client", id) -> id <> str "all" ->
  kb_views b !! id = Some (client, view) ->
  undisturbed (is_loud message) id client b
    (broker_handleInput tl js kl lc kc json_viewId terminating item_overhead ie message b).1.
Proof.
  intros Hp Hall Hv. unfold broker_handleInput.
  destruct (beq (getFirstToken _ _) _) eqn:E; [|by rewrite (forwarded_first _ _ _ Hp) in E].
  destruct (_ || _); [|by apply (forward_undisturbed _ _ _ _ view)].
  unfold handleSlideLayerResponse. destruct (kc_enableExperimental kc); [|by apply (forward_undisturbed _ _ _ _ view)].
  destruct (parseJSON _ _) as [json|]; [|apply undisturbed_same; by auto].
  set (b1 := set_slides js (sl_insert (json_text js json (str "cacheKey")) (m_data message) (slides_of js b)) b).
  rewrite (se_bind_ok _ _ b b1 tt) by done. exact (forward_undisturbed message id b1 client view Hp Hall Hv).
Qed.

(** C26 (safety): a message for one session leaves the others alone. What the kit sends to [client-<id>]
    does not change the views of the other sessions, and changes their tiles, requests, sender
    queues and canonical views in no way but this: each frame that the save half sends to one of
    them meanwhile is put into its sender queue, in order. There are such frames only on a result
    of a command (the outcome of a save is told to everyone), an error, a document saved or
    exported under a name, and a view that is loaded; on any other message the other sessions
    stay as they are. *)
Theorem kit_message_is_private message id b client view :
  parseNameValuePair (m_forwardToken message) chr_minus = Some (str "client", id) -> id <> str "all" ->
  kb_views b !! id = Some (client, view) -> cl_id client = id -> kc_number kc id = cl_sid js client ->
  let b' := (broker_handleInput tl js kl lc kc json_viewId terminating item_overhead ie message b).1 in
  (exists frames, db_out (db_of b') = db_out (db_of b) ++ frames /\
     forall i, i <> cl_sid js client ->
       b_sessions (tiles_of b') !! i = frames_for i frames <$> b_sessions (tiles_of b) !! i) /\
  (is_loud message = false ->
     forall i, i <> cl_sid js client -> b_sessions (tiles_of b') !! i = b_sessions (tiles_of b) !! i) /\
  (forall i, i <> id -> kb_views b' !! i = kb_views b !! i).
Proof.
  intros Hp Hall Hv Hid Hn b'. destruct (input_undisturbed message id b client view Hp Hall Hv) as [(l & El & Hl & Ho) Hi].
  fold b' in El, Ho, Hi. split; [by exists l|]. split; [|done]. intros Hq i Hne. rewrite Ho by done. rewrite Hid in Hl.
  destruct (b_sessions _ !! i) as [s|]; [|done]. cbn. rewrite (frames_for_own id); [done|by apply Hl|congruence].
Qed.

(** ** What is passed on *)

(** The messages of the kit the server looks at. *)
Definition kit_commands : list bytes :=
  [str "downloadas:"; str "unocommandresult:"; str "error:"; str "curpart:"; str "setpart:"; str "saveas:"; str "exportas:";
   str "statechanged:"; str "textselectioncontent:"; str "presentationinfo:"; str "clipboardcontent:"; str "disconnected:";
   str "graphicselection:"; str "graphicviewselection:"; str "formfieldbutton:"; str "canonicalidchange:"; str "jsdialog:";
   str "loaded:"; str "status:"; str "statusupdate:"; str "commandvalues:"; str "invalidatetiles:"; str "invalidatecursor:";
   str "viewinfo:"; str "renderfont:"; str "extractedlinktargets:"; str "extracteddocumentstructure:";
   str "transformeddocumentstructure:"; str "sendthumbnail:"; str "slidelayer:"; str "sliderenderingcomplete:"].
Definition is_kit_command (payload : Message) : bool := existsb (equals (m_tokens payload) 0) kit_commands.

Lemma not_kit_command payload name :
  is_kit_command payload = false -> In (str name) kit_commands -> msg_cmd payload name = false.
Proof.
  intros H Hin. apply not_true_is_false. intros Hc. apply not_true_iff_false in H. apply H, existsb_exists. by exists (str name).
Qed.

Lemma handle_passed payload k :
  is_kit_command payload = false ->
  handleKitToClientMessage tl js kl lc kc json_viewId terminating ie payload k
  = forwardToClient js json_viewId terminating ie payload k.
Proof.
  intros H. assert (Hc : forall name, In (str name) kit_commands -> msg_cmd payload name = false) by (intros; by apply not_kit_command).
  unfold handleKitToClientMessage, any_document, handleOpenDocKitToClientMessage.
  generalize (msg_cmd payload "tile:"). intros is_tile. rewrite !Hc by (vm_compute; tauto). cbn [andb orb]. rewrite !andb_false_r. cbn. unfold se_bind, se_get, se_ret.
  destruct (kv_isDocPasswordProtected (k_view k)); [done|]. destruct is_tile; [done|]. by rewrite andb_false_r.
Qed.

(** Fact (functional): what the server does not look at reaches the client. A message of the kit for one
    session, which is none of the commands the server handles, is put once and unchanged into the
    sender queue of that session, and the save half and all views stay as they are. *)
Theorem kit_message_reaches_client message id b client view s :
  parseNameValuePair (m_forwardToken message) chr_minus = Some (str "client", id) -> id <> str "all" ->
  kb_views b !! id = Some (client, view) -> session_known js id b = true -> is_kit_command message = false ->
  b_sessions (tiles_of b) !! cl_sid js client = Some s ->
  let b' := (broker_handleInput tl js kl lc kc json_viewId terminating item_overhead ie message b).1 in
  b_sessions (tiles_of b') !! cl_sid js client
    = Some (enqueueSendMessage json_viewId terminating (to_ms (ev_now (ie_env ie))) message s).1 /\
  db_of b' = db_of b /\ kb_views b' = kb_views b.
Proof.
  intros Hp Hall Hv Hk Hc Hs b'. unfold b', broker_handleInput.
  rewrite (forwarded_first _ _ _ Hp), (beq_refl (str "client")), !(not_kit_command message) by (done || (vm_compute; tauto)).
  cbn [orb]. unfold broker_forwardToClient. rewrite Hp, (beq_refl (str "client")). apply beq_neq in Hall. rewrite Hall.
  rewrite (se_bind_ok _ _ b b b) by done. rewrite Hk. unfold for_session. rewrite Hv, handle_passed by done.
  unfold forwardToClient, k_io, on_tiles, on_session. unfold tiles_of, db_of in *. cbn. rewrite Hs.
  destruct (enqueueSendMessage _ _ _ _ s) as [s' r]. cbn. by rewrite lookup_insert_eq, insert_id.
Qed.
End handlers.

(** ** A concrete broker *)

Module SampleKit.
Definition lib : KitLib Sample.js :=
  {| kl_uri := fun s => Some (str "file", s); kl_pathAndQuery := Some; kl_encode := fun _ s => s;
     kl_elements := fun _ _ => None; kl_setElements := fun o _ _ => o |}.
Definition config : KitConfig :=
  {| kc_enableExperimental := false; kc_noCapsForKit := false; kc_jailPath := fun p => str "/jail/" ++ p;
     kc_isDirectory := fun _ => false; kc_number := fun id => if beq id (str "2") then 2 else 1; kc_renames := true;
     kc_wopiSrc := str "https://host/doc"; kc_serverURL := str "https://server";
     kc_processId := str "p"; kc_routeToken := []; kc_auditJSON := None; kc_traceEventFile := false;
     kc_traceRecordingOn := false |}.
Definition view : KitView :=
  {| kv_clientSelectedMode := 0; kv_kitViewId := 0; kv_isDocPasswordProtected := false; kv_isConvertTo := false;
     kv_saveAsSocket := false; kv_clipSockets := 0%nat; kv_thumbnailSession := false; kv_thumbnailTarget := [];
     kv_thumbnailPosition := (0, 0); kv_lastSentFormFielButtonMessage := []; kv_sentAudit := true;
     kv_isAdminUser := None; kv_disableChangeTrackingRecord := None; kv_disableChangeTrackingShow := None;
     kv_templateSource := [] |}.
Definition session : ClientSession :=
  {| s_tracker := ∅; s_tilesOnFly := []; s_requestedTiles := []; s_senderQueue := []; s_closeFrame := false;
     s_clientVisibleArea := rect_empty; s_tileWidthTwips := 0; s_tileHeightTwips := 0; s_canonicalViewId := 1000 |}.
Definition client (sid : Z) : Client Sample.js := w_client (SampleInput.world (str "u") false) <| cl_sid Sample.js := sid |>.
(** Two sessions. *)
Definition world : World Sample.js :=
  SampleInput.world (str "u") false <| w_tiles := b_setSessions SampleInput.tiles {[1 := session; 2 := session]} |>.
Definition broker : KitBroker Sample.js :=
  {| kb_world := {| k_world := world; k_view := view; k_initialState := []; k_embeddedMedia := ∅; k_downloadLinks := ∅;
                    k_clipboards := ClipboardCache_new (str "/tmp/clipboards") 0 ∅;
                    k_cursor := (0, 0, 0, 0); k_effects := [] |};
     kb_views := {[str "1" := (client 1, view); str "2" := (client 2, view)]};
     kb_slides := sl_new 100 |}.
Definition handle (message : Message) : KitBroker Sample.js :=
  (broker_handleInput Sample.tl Sample.js lib Sample.lc config (fun _ => Throw json_error) false 72 SampleInput.env
     message broker).1.
(** The messages that wait for a session. *)
Definition queue (sid : Z) (b : KitBroker Sample.js) : list bytes :=
  map m_data (from_option s_senderQueue [] (b_sessions (w_tiles (k_world (kb_world b))) !! sid)).
End SampleKit.

Example delivered_to_one :
  let b := SampleKit.handle (Message_new (str "client-1 hello world")) in
  SampleKit.queue 1 b = [str "hello world"] /\ SampleKit.queue 2 b = [].
Proof. vm_compute. done. Qed.

(** The outcome of a save is told to the other session as well. *)
Example failed_save_told_to_all :
  let b := SampleKit.broker <| kb_world ::= fun k => k <| k_world ::= fun w => w <| w_db ::= fun d =>
             d <| db_sessions ::= fun l => l ++ [sample_session <| se_id := str "2" |>] |> |> |> |> in
  let b' := (broker_handleInput Sample.tl Sample.js SampleKit.lib Sample.lc SampleKit.config (fun _ => Throw json_error) false 72
               SampleInput.env (Message_new (str "client-1 unocommandresult: {failed}")) b).1 in
  length (SampleKit.queue 1 b') = 3%nat /\ length (SampleKit.queue 2 b') = 1%nat.
Proof. vm_compute. done. Qed.

Lemma kit_message_is_private_witness :
  let b' := SampleKit.handle (Message_new (str "client-1 hello world")) in
  b_sessions (w_tiles (k_world (kb_world b'))) !! 2 = Some SampleKit.session.
Proof.
  destruct (kit_message_is_private Sample.tl Sample.js SampleKit.lib Sample.lc SampleKit.config (fun _ => Throw json_error)
    false 72 SampleInput.env (Message_new (str "client-1 hello world")) (str "1") SampleKit.broker (SampleKit.client 1)
    SampleKit.view) as (_ & H & _); [reflexivity|discriminate|reflexivity|reflexivity|reflexivity|].
  by apply (H eq_refl 2).
Defined.

Lemma kit_message_reaches_client_witness :
  let b' := SampleKit.handle (Message_new (str "client-1 hello world")) in
  b_sessions (w_tiles (k_world (kb_world b'))) !! 1
    = Some (enqueueSendMessage (fun _ => Throw json_error) false 5000 (Message_new (str "client-1 hello world")) SampleKit.session).1.
Proof.
  destruct (kit_message_reaches_client Sample.tl Sample.js SampleKit.lib Sample.lc SampleKit.config (fun _ => Throw json_error)
    false 72 SampleInput.env (Message_new (str "client-1 hello world")) (str "1") SampleKit.broker (SampleKit.client 1)
    SampleKit.view SampleKit.session) as [H _];
    [reflexivity|discriminate|reflexivity|reflexivity|reflexivity|reflexivity|]. exact H.
Defined.
