(* ===== verification/ClipboardServer.v ===== *)
(** * Requests for clipboards

    Models the HTTP requests that get or set a clipboard, in the broker and in the session
    whose key they name: [handleClipboardRequest], [handlePersistentClipboardRequest] and
    [getSessionFromClipboardTag] of [DocumentBroker] ([wsd/DocumentBroker.cpp]), and
    [handleClipboardRequest] and [matchesClipboardKeys] of [ClientSession]
    ([wsd/ClientSession.cpp]), over the state of [KitMessages]. A request has one socket;
    the answers are the effects. *)

From S2P Require Import Prelude RecordSet StateError Util StringVector Protocol StreamSearch Message JsonUtil LoadOptions Clipboard ClipboardSpec Storage SaveManager DocumentSave ClientInput KitMessages.

Open Scope cool_scope.
Open Scope record_scope.

(** [DocumentBroker::ClipboardRequest]. *)
Inductive ClipboardRequest :=
| CLIP_REQUEST_SET
| CLIP_REQUEST_GET
| CLIP_REQUEST_GET_RICH_HTML_ONLY
| CLIP_REQUEST_GET_HTML_PLAIN_ONLY.

#[global] Instance ClipboardRequest_eq_dec : EqDecision ClipboardRequest.
Proof. solve_decision. Defined.

Section requests.
Context (tl : TextLib) (js : JsonLib) (kl : KitLib js) (lc : LoadConfig) (kc : KitConfig) (ie : InputEnv).
Let ev : Env := ie_env ie.

Abbreviation KIO := (SE (KitWorld js)).
Abbreviation BIO := (SE (KitBroker js)).

Definition k_answer (statusCode : Z) : KIO unit := k_effect js (HttpAnswer statusCode [] [] []).

(** The result says that the content is on its way. *)
Definition handlePersistentClipboardRequest (type : ClipboardRequest) (tag : bytes) (sendError : bool) : KIO bool :=
  do k <- se_get;
  let '(clipFile, c) := if bool_decide (type = CLIP_REQUEST_SET) then (None, k_clipboards js k)
                        else cached_clipboard tag (ev_now ev) (k_clipboards js k) in
  exec se_modify (fun k => k <| k_clipboards js := c |>);
  match clipFile with
  | Some o =>
      exec k_effect js (ClipboardContent 1 (default [] (cs_files c !! of_file o)));
      se_ret true
  | None => exec k_when js sendError (k_answer 400); se_ret false
  end.

Definition matchesClipboardKeys (tag : bytes) (c : Client js) : bool :=
  negb (beq tag []) && (beq (cl_clipboardKeys js c).1 tag || beq (cl_clipboardKeys js c).2 tag).

(** The mime types that are asked for. *)
Definition clip_specific (type : ClipboardRequest) : bytes :=
  match type with
  | CLIP_REQUEST_GET_RICH_HTML_ONLY => str " mimetype=text/html"
  | CLIP_REQUEST_GET_HTML_PLAIN_ONLY => str " mimetype=text/html,text/plain;charset=utf-8"
  | _ => []
  end.

Definition add_clip_socket : KIO unit := set_view js (fun v => v <| kv_clipSockets ::= S |>).

(** The file that is set, without the origin that was added to it. *)
Definition strip_origin (jailClipFile : bytes) (c : ClipboardCache) : ClipboardCache :=
  let '(out, preProcessed) := preProcessSetClipboardPayload (default [] (cs_files c !! jailClipFile)) in
  let preProcessedClipFile := jailClipFile ++ str ".preproc" in
  if preProcessed then
    if kc_renames kc then c <| cs_files ::= fun fs => <[jailClipFile := out]> (delete preProcessedClipFile fs) |>
    else c <| cs_files ::= <[preProcessedClipFile := out]> |>
  else c <| cs_files ::= delete preProcessedClipFile |>.

(** The clipboard of another document is fetched first. *)
Definition download_clipboard (jailClipFile clipFile content : bytes) : KIO unit :=
  match js_parse js content with
  | None => k_skip js
  | Some json =>
      let url := findJSONString js json (str "url") [] in
      let commandName := findJSONString js json (str "commandName") [] in
      match kl_pathAndQuery kl url with
      | None => se_throw SyntaxException
      | Some pathAndQuery =>
          k_when js (contains pathAndQuery (str "/cool/clipboard") && ie_httpSession ie url)
            (k_effect js (ClipboardDownload url jailClipFile clipFile commandName))
      end
  end.

Definition session_handleClipboardRequest (type : ClipboardRequest) (tag clipFile : bytes) : KIO unit :=
  do k <- se_get;
  do done <- (if self_is js inWaitDisconnected (k_world k) then
                do sent <- handlePersistentClipboardRequest type tag false;
                exec (if sent then k_skip js
                      else if bool_decide (type = CLIP_REQUEST_SET) then k_answer 400
                      else add_clip_socket);
                se_ret sent
              else se_ret false);
  if done then k_skip js
  else if negb (bool_decide (type = CLIP_REQUEST_SET)) then
    if wopi_has js wf_disableCopy (w_client (k_world k)) then k_answer 403
    else
      exec to_kit tl js lc ie (str "getclipboard name=" ++ tag ++ clip_specific type);
      add_clip_socket
  else
    let jailClipFile := getLocalPathToJail js kc k clipFile in
    if beq jailClipFile [] then k_answer 400
    else
      exec se_modify (fun k => k <| k_clipboards js ::= strip_origin jailClipFile |>);
      do k <- se_get;
      let content := default [] (cs_files (k_clipboards js k) !! jailClipFile) in
      exec (if starts_with (str "{") content then download_clipboard jailClipFile clipFile content
            else to_kit tl js lc ie (str "setclipboard name=" ++ clipFile));
      k_answer 200.

(** The finished request of [download_clipboard]; the body is in the file by then. *)
Definition clipboard_downloaded (statusCode : Z) (clipboardHeader body jailClipFile clipFile commandName : bytes) : KIO unit :=
  exec se_modify (fun k => k <| k_clipboards js ::= fun c => c <| cs_files ::= <[jailClipFile := body]> |> |>);
  if negb (statusCode =? 200) then k_skip js
  else if negb (beq clipboardHeader (str "true")) then k_skip js
  else if isOwnFormat (ts_open body) then
    exec to_kit tl js lc ie (str "setclipboard name=" ++ clipFile);
    to_kit tl js lc ie (str "uno " ++ commandName)
  else k_skip js.

(** ** The broker *)

Definition getSessionFromClipboardTag (tag : bytes) (b : KitBroker js) : option bytes :=
  se_id <$> List.find (fun s => match kb_views b !! se_id s with
                                | Some (client, _) => matchesClipboardKeys tag client
                                | None => false
                                end) (db_sessions (w_db (k_world (kb_world b)))).

(** The work of a handler that needs no session. *)
Definition b_io {A} (m : KIO A) : BIO A := fun b =>
  let '(k, r) := m (kb_world b) in (b <| kb_world := k |>, r).

Definition handleClipboardRequest (type : ClipboardRequest) (tag clipFile : bytes) : BIO unit :=
  do b <- se_get;
  match getSessionFromClipboardTag tag b with
  | Some id => for_session js id (session_handleClipboardRequest type tag clipFile)
  | None => exec b_io (handlePersistentClipboardRequest type tag true); se_ret tt
  end.
End requests.
