(* ===== verification/ClipboardServerSpec.v ===== *)
(** * From one clipboard to another

    What was copied in one document is what is pasted in another, where the origin is
    stripped, through the files of the server; what is pasted where it is not; a host that
    forbids copying; and what a request for a clipboard does in a
    session that ends ([Clipboard], [ClipboardServer]). *)

From S2P Require Import Prelude RecordSet StateError Util StringVector Protocol StreamSearch Message ClientSession TileServer JsonUtil LoadOptions LoadOptionsSpec Clipboard ClipboardSpec Storage SaveManager DocumentSave DocumentPoll DocumentSaveSpec ClientInput ClientInputSpec KitMessages KitMessagesSpec ClipboardServer.

Open Scope cool_scope.
Open Scope record_scope.

(** ** Copy and paste *)

(** C27 (roundtrip): what is copied in one document is pasted in another, on the way of a clipboard that
    the client itself sets there. The kit's clipboard, of types of one line and contents that fit in
    memory, is written to a file; the server adds the origin to its text, sends it and keeps it;
    the file that is set with what was sent loses the origin again; and the kit of the other
    document reads the same types and contents. The file is one the server writes the origin
    into: its text has a [<body>] that is closed, names no origin yet, and does not start with
    [text/plain], [{] or the HTML document type; and the system can rename the files. A clipboard
    that the server fetches from the other document itself keeps the origin, and is not read
    back ([downloaded_clipboard_keeps_origin]). *)
Theorem copy_paste_roundtrip dir start files c meta key sockets now jail e data before attrs content after paste fuel c2 kc :
  (forall i, 0 <= i -> files !! clip_file dir i = None) -> rtc clip_step (ClipboardCache_new dir start files) c ->
  outside c jail -> jail <> [] -> cs_files c !! jail = Some (clipboard_write (e :: data)) ->
  Forall entry_ok (e :: data) -> starts_with (str "<!DOCTYPE html>") e.1 = false ->
  clipboard_write (e :: data) = before ++ str "<body" ++ attrs ++ str ">" ++ content ++ str "</body>" ++ after ->
  starts_with (str "text/plain") (clipboard_write (e :: data)) = false -> starts_with (str "{") (clipboard_write (e :: data)) = false ->
  find_sub (str "<body") before = None -> (62 ∉ attrs) -> find_sub (str "</body>") content = None ->
  find_sub meta_tag (before ++ str "<body" ++ attrs ++ str ">") = None -> (62 ∉ meta) ->
  (length data + 1 < fuel)%nat -> kc_renames kc = true ->
  let '(f, c1) := keep_clipboard true meta false key sockets now jail c in
  exists sent, cs_files c1 !! f = Some sent /\
    (cs_files c2 !! paste = Some sent ->
     exists set, cs_files (strip_origin kc paste c2) !! paste = Some set /\ clipboard_contents fuel set = Some (Ok (e :: data))).
Proof.
  intros Hf Hc Hout Hj Hcontent Hd Hh Hw Htext Hjson Hb Ha Hcl Htag Hm Hfuel Hren.
  assert (Hok : clips_ok [] c) by by apply (reachable_clips_ok dir start files).
  pose proof (keep_clipboard_keeps c meta key sockets now jail (clipboard_write (e :: data)) Hok Hout Hj) as Hk.
  destruct (keep_clipboard _ _ _ _ _ _ _ _) as [f c1].
  assert (Hne : clipboard_write (e :: data) <> []) by (rewrite Hw; by destruct before).
  specialize (Hk Hne Hcontent). destruct Hk as [Hs _].
  rewrite Hw in Htext, Hjson, Hs. rewrite post_process_html in Hs by done. change (default ?d (Some ?x)) with x in Hs. eexists. split; [exact Hs|]. intros H2.
  exists (clipboard_write (e :: data)). split; [|by apply contents_write].
  unfold strip_origin. rewrite H2. change (default [] (Some ?x)) with x. rewrite pre_process_html by done. rewrite Hren, Hw. cbn -[str app].
  rewrite lookup_insert_eq. f_equal. by rewrite <- !app_assoc.
Qed.

Lemma copy_paste_roundtrip_witness :
  let types := [(str "text/html", str "<body>x</body>"); (str "text/plain", str "x")] in
  let c := ClipboardCache_new (str "/tmp/c") 0 {[str "/jail/clip" := clipboard_write types]} in
  let '(f, c1) := keep_clipboard true (str "http://h") false (str "k0", str "k1") 0 5 (str "/jail/clip") c in
  exists sent, cs_files c1 !! f = Some sent /\
    (cs_files ({| cs_cache := ∅; cs_cacheDir := []; cs_nextExpiryTime := 0; cs_cacheFileId := 0; cs_objects := 0; cs_owners := [];
                  cs_files := {[str "/paste" := sent]} |}) !! str "/paste" = Some sent ->
     exists set, cs_files (strip_origin SampleKit.config (str "/paste")
       {| cs_cache := ∅; cs_cacheDir := []; cs_nextExpiryTime := 0; cs_cacheFileId := 0; cs_objects := 0; cs_owners := [];
          cs_files := {[str "/paste" := sent]} |}) !! str "/paste" = Some set /\ clipboard_contents 10 set = Some (Ok types)).
Proof.
  intros types c.
  pose proof (fun c2 => copy_paste_roundtrip (str "/tmp/c") 0 {[str "/jail/clip" := clipboard_write types]} c (str "http://h") (str "k0", str "k1")
    0 5 (str "/jail/clip") (str "text/html", str "<body>x</body>") [(str "text/plain", str "x")]
    (str "text/html" ++ [10; 101; 10]) [] (str "x") ([10] ++ str "text/plain" ++ [10; 49; 10; 120; 10]) (str "/paste") 10 c2 SampleKit.config) as H.
  destruct (keep_clipboard _ _ _ _ _ _ _ _) as [f c1].
  specialize (fun c2 => H c2 ltac:(intros; by apply lookup_singleton_None) ltac:(apply rtc_refl) ltac:(done) ltac:(done) ltac:(apply lookup_singleton_eq)).
  assert (Hok : Forall entry_ok types).
  { repeat (apply Forall_cons; split; [split_and!; [discriminate|not_in_text|vm_compute; discriminate]|]). constructor. }
  specialize (fun c2 => H c2 Hok eq_refl eq_refl eq_refl eq_refl eq_refl ltac:(not_in_text) eq_refl eq_refl ltac:(not_in_text) ltac:(simpl; lia) eq_refl).
  pose (H0 := H c). destruct H0 as (sent & Hs & _). exists sent. split; [exact Hs|].
  set (c2 := {| cs_cache := _; cs_files := _ |}). destruct (H c2) as (sent' & Hs' & H'). rewrite Hs in Hs'. by injection Hs' as <-.
Defined.

(** ** The clipboard of another document, fetched *)

Lemma to_kit_clipboards tl js lc ie msg k : k_clipboards js (to_kit tl js lc ie msg k).1 = k_clipboards js k.
Proof. unfold to_kit, k_io. by destruct (ClientInput.forwardToChild _ _ _ _ _ _). Qed.

(** An HTML text and a plain one, as the server sends them with their origin. *)
Definition sample_types : ClipboardData := [(str "text/html", str "<body>x</body>"); (str "text/plain", str "x")].
Definition sample_sent : bytes := default [] (postProcessCopyPayload (str "http://h") (clipboard_write sample_types)).

(** Fact (error): a clipboard that the server fetches from another document keeps its origin. The file that
    the kit is told to read is what was downloaded, byte for byte, while the lengths in it are those
    from before the origin was added; so that the kit reads an HTML text cut off in the origin, and
    the rest of it as the name of a type. *)
Theorem downloaded_clipboard_keeps_origin tl js lc ie header body jail clip command k :
  let k' := (clipboard_downloaded tl js lc ie 200 header body jail clip command k).1 in
  cs_files (k_clipboards js k') !! jail = Some body /\
  clipboard_contents 10 sample_sent
  = Some (Ok [(str "text/html", str "<body><div id="); (str "x</div></body>", [])]).
Proof.
  intros k'. split; [|by vm_compute]. unfold k', clipboard_downloaded, se_bind. cbn [se_modify].
  destruct (negb (200 =? 200)); [apply lookup_insert_eq|]. destruct (negb _); [apply lookup_insert_eq|].
  destruct (isOwnFormat _); [|apply lookup_insert_eq].
  match goal with |- context [to_kit ?a ?b ?c ?d ?m ?k1] => pose proof (to_kit_clipboards a b c d m k1) as E1;
    destruct (to_kit a b c d m k1) as [k2 [u|e]] end; cbn [fst] in *.
  - rewrite to_kit_clipboards, E1. apply lookup_insert_eq.
  - rewrite E1. apply lookup_insert_eq.
Qed.

(** ** Copying that is forbidden *)

(** Fact (safety): where the host forbids copying no clipboard leaves the document. A request to get one, in
    a session that is not about to end, is answered with status 403 and reaches neither the kit nor the
    sockets that wait; and a clipboard of the kit that arrives all the same is not kept in the
    cache. *)
Theorem forbidden_copy_refused tl js kl lc kc ie type tag clipFile k :
  (self_is js inWaitDisconnected (k_world k) = false -> type <> CLIP_REQUEST_SET ->
   wopi_has js wf_disableCopy (w_client (k_world k)) = true ->
   session_handleClipboardRequest tl js kl lc kc ie type tag clipFile k =
     (k <| k_effects js ::= fun l => l ++ [HttpAnswer 403 [] [] []] |>, Ok tt)) /\
  (forall renames meta key sockets now jail c,
     cs_cache (keep_clipboard renames meta true key sockets now jail c).2 = cs_cache c).
Proof.
  split.
  - intros Hend Htype Hcopy. unfold session_handleClipboardRequest, se_bind, se_get. rewrite Hend.
    rewrite bool_decide_false by done. cbn [negb se_ret]. by rewrite Hcopy.
  - intros renames meta key sockets now jail c. unfold keep_clipboard. rewrite andb_false_r.
    assert (Hown : forall path c', cs_cache (cache_or_own renames false key sockets now path c').2 = cs_cache c').
    { intros path c'. unfold cache_or_own. rewrite beq_refl. cbn [make_owned]. destruct sockets; [|done].
      exact (release_cache [_] _). }
    destruct (_ || _); [by rewrite Hown|]. unfold add_origin. cbn [nextClipFileName].
    destruct (postProcessCopyPayload _ _); by rewrite Hown.
Qed.

Lemma forbidden_copy_refused_witness :
  let k := kb_world SampleKit.broker in
  k_effects Sample.js (session_handleClipboardRequest Sample.tl Sample.js SampleKit.lib Sample.lc SampleKit.config SampleInput.env
    CLIP_REQUEST_GET (str "tag") [] k).1 = k_effects Sample.js k ++ [HttpAnswer 403 [] [] []].
Proof.
  intros k. destruct (forbidden_copy_refused Sample.tl Sample.js SampleKit.lib Sample.lc SampleKit.config SampleInput.env
    CLIP_REQUEST_GET (str "tag") [] k) as [H _]. by rewrite H.
Defined.

(** ** A session that ends *)

(** The socket of one request is kept twice, and the kit is asked although the answer was left
    to the end of the session; content that is set is refused and set. *)
Definition ending : KitWorld Sample.js :=
  let k := kb_world SampleKit.broker in
  k <| k_world ::= fun w => w <| w_db ::= fun b => b <| db_sessions ::= map (setState WAIT_DISCONNECT) |> |>
      <| w_client ::= fun c => c <| cl_wopi Sample.js := None |> |> |>
      <| k_clipboards Sample.js ::= fun c => c <| cs_files := {[str "/jail/f" := str "x"]} |> |>.

Example ending_session_keeps_socket_twice :
  let k := (session_handleClipboardRequest Sample.tl Sample.js SampleKit.lib Sample.lc SampleKit.config SampleInput.env
    CLIP_REQUEST_GET (str "tag") [] ending).1 in
  kv_clipSockets (k_view k) = 2%nat.
Proof. vm_compute. done. Qed.

Example ending_session_answers_twice :
  let k := (session_handleClipboardRequest Sample.tl Sample.js SampleKit.lib Sample.lc SampleKit.config SampleInput.env
    CLIP_REQUEST_SET (str "tag") (str "f") ending).1 in
  k_effects Sample.js k = [HttpAnswer 400 [] [] []; HttpAnswer 200 [] [] []].
Proof. vm_compute. done. Qed.
