(* ===== verification/KitSession.v ===== *)
(** * The kit's document and its sessions

    Models the state of [Document] ([kit/Kit.hpp], [kit/Kit.cpp]) and of [ChildSession]
    ([kit/ChildSession.hpp]) that callbacks of LibreOfficeKit act on, the recorder of
    inactive sessions ([kit/StateRecorder.hpp]), and what the document does for all its
    sessions: sending, canonical view ids, editor speeds, the view information, the
    modified state across background saves, trimming, and removing sessions. What the
    document asks of LibreOfficeKit and of its sockets is its output, in order. *)

From S2P Require Import Prelude RecordSet StateError Util StringVector Protocol Rectangle JsonUtil.

Open Scope cool_scope.
Open Scope record_scope.

(** ** Types of callbacks

    Those that [ChildSession] handles; the last stands for all others. *)
Inductive LokCallback :=
| LOK_CALLBACK_INVALIDATE_TILES | LOK_CALLBACK_INVALIDATE_VISIBLE_CURSOR | LOK_CALLBACK_TEXT_SELECTION
| LOK_CALLBACK_TEXT_SELECTION_START | LOK_CALLBACK_TEXT_SELECTION_END | LOK_CALLBACK_CURSOR_VISIBLE
| LOK_CALLBACK_GRAPHIC_SELECTION | LOK_CALLBACK_SHAPE_INNER_TEXT | LOK_CALLBACK_CELL_CURSOR
| LOK_CALLBACK_CELL_FORMULA | LOK_CALLBACK_MOUSE_POINTER | LOK_CALLBACK_HYPERLINK_CLICKED
| LOK_CALLBACK_STATE_CHANGED | LOK_CALLBACK_SEARCH_NOT_FOUND | LOK_CALLBACK_SEARCH_RESULT_SELECTION
| LOK_CALLBACK_DOCUMENT_SIZE_CHANGED | LOK_CALLBACK_SET_PART | LOK_CALLBACK_UNO_COMMAND_RESULT
| LOK_CALLBACK_ERROR | LOK_CALLBACK_CONTEXT_MENU | LOK_CALLBACK_STATUS_INDICATOR_START
| LOK_CALLBACK_STATUS_INDICATOR_SET_VALUE | LOK_CALLBACK_STATUS_INDICATOR_FINISH | LOK_CALLBACK_INVALIDATE_VIEW_CURSOR
| LOK_CALLBACK_TEXT_VIEW_SELECTION | LOK_CALLBACK_CELL_VIEW_CURSOR | LOK_CALLBACK_GRAPHIC_VIEW_SELECTION
| LOK_CALLBACK_VIEW_CURSOR_VISIBLE | LOK_CALLBACK_VIEW_LOCK | LOK_CALLBACK_REDLINE_TABLE_SIZE_CHANGED
| LOK_CALLBACK_REDLINE_TABLE_ENTRY_MODIFIED | LOK_CALLBACK_COMMENT | LOK_CALLBACK_INVALIDATE_HEADER
| LOK_CALLBACK_CELL_ADDRESS | LOK_CALLBACK_RULER_UPDATE | LOK_CALLBACK_VERTICAL_RULER_UPDATE
| LOK_CALLBACK_WINDOW | LOK_CALLBACK_VALIDITY_LIST_BUTTON | LOK_CALLBACK_VALIDITY_INPUT_HELP
| LOK_CALLBACK_CLIPBOARD_CHANGED | LOK_CALLBACK_CONTEXT_CHANGED | LOK_CALLBACK_SIGNATURE_STATUS
| LOK_CALLBACK_PROFILE_FRAME | LOK_CALLBACK_DOCUMENT_PASSWORD | LOK_CALLBACK_DOCUMENT_PASSWORD_TO_MODIFY
| LOK_CALLBACK_DOCUMENT_PASSWORD_RESET | LOK_CALLBACK_CELL_SELECTION_AREA | LOK_CALLBACK_CELL_AUTO_FILL_AREA
| LOK_CALLBACK_TABLE_SELECTED | LOK_CALLBACK_REFERENCE_MARKS | LOK_CALLBACK_JSDIALOG
| LOK_CALLBACK_CALC_FUNCTION_LIST | LOK_CALLBACK_TAB_STOP_LIST | LOK_CALLBACK_FORM_FIELD_BUTTON
| LOK_CALLBACK_INVALIDATE_SHEET_GEOMETRY | LOK_CALLBACK_DOCUMENT_BACKGROUND_COLOR | LOK_CALLBACK_APPLICATION_BACKGROUND_COLOR
| LOK_CALLBACK_MEDIA_SHAPE | LOK_CALLBACK_CONTENT_CONTROL | LOK_COMMAND_BLOCKED
| LOK_CALLBACK_PRINT_RANGES | LOK_CALLBACK_FONTS_MISSING | LOK_CALLBACK_EXPORT_FILE
| LOK_CALLBACK_A11Y_FOCUS_CHANGED | LOK_CALLBACK_A11Y_CARET_CHANGED | LOK_CALLBACK_A11Y_TEXT_SELECTION_CHANGED
| LOK_CALLBACK_A11Y_FOCUSED_CELL_CHANGED | LOK_CALLBACK_COLOR_PALETTES | LOK_CALLBACK_A11Y_EDITING_IN_SELECTION_STATE
| LOK_CALLBACK_A11Y_SELECTION_CHANGED | LOK_CALLBACK_CORE_LOG | LOK_CALLBACK_TOOLTIP
| LOK_CALLBACK_OTHER.

Definition lok_callbacks : list LokCallback :=
  [LOK_CALLBACK_INVALIDATE_TILES; LOK_CALLBACK_INVALIDATE_VISIBLE_CURSOR; LOK_CALLBACK_TEXT_SELECTION;
   LOK_CALLBACK_TEXT_SELECTION_START; LOK_CALLBACK_TEXT_SELECTION_END; LOK_CALLBACK_CURSOR_VISIBLE;
   LOK_CALLBACK_GRAPHIC_SELECTION; LOK_CALLBACK_SHAPE_INNER_TEXT; LOK_CALLBACK_CELL_CURSOR;
   LOK_CALLBACK_CELL_FORMULA; LOK_CALLBACK_MOUSE_POINTER; LOK_CALLBACK_HYPERLINK_CLICKED;
   LOK_CALLBACK_STATE_CHANGED; LOK_CALLBACK_SEARCH_NOT_FOUND; LOK_CALLBACK_SEARCH_RESULT_SELECTION;
   LOK_CALLBACK_DOCUMENT_SIZE_CHANGED; LOK_CALLBACK_SET_PART; LOK_CALLBACK_UNO_COMMAND_RESULT;
   LOK_CALLBACK_ERROR; LOK_CALLBACK_CONTEXT_MENU; LOK_CALLBACK_STATUS_INDICATOR_START;
   LOK_CALLBACK_STATUS_INDICATOR_SET_VALUE; LOK_CALLBACK_STATUS_INDICATOR_FINISH; LOK_CALLBACK_INVALIDATE_VIEW_CURSOR;
   LOK_CALLBACK_TEXT_VIEW_SELECTION; LOK_CALLBACK_CELL_VIEW_CURSOR; LOK_CALLBACK_GRAPHIC_VIEW_SELECTION;
   LOK_CALLBACK_VIEW_CURSOR_VISIBLE; LOK_CALLBACK_VIEW_LOCK; LOK_CALLBACK_REDLINE_TABLE_SIZE_CHANGED;
   LOK_CALLBACK_REDLINE_TABLE_ENTRY_MODIFIED; LOK_CALLBACK_COMMENT; LOK_CALLBACK_INVALIDATE_HEADER;
   LOK_CALLBACK_CELL_ADDRESS; LOK_CALLBACK_RULER_UPDATE; LOK_CALLBACK_VERTICAL_RULER_UPDATE;
   LOK_CALLBACK_WINDOW; LOK_CALLBACK_VALIDITY_LIST_BUTTON; LOK_CALLBACK_VALIDITY_INPUT_HELP;
   LOK_CALLBACK_CLIPBOARD_CHANGED; LOK_CALLBACK_CONTEXT_CHANGED; LOK_CALLBACK_SIGNATURE_STATUS;
   LOK_CALLBACK_PROFILE_FRAME; LOK_CALLBACK_DOCUMENT_PASSWORD; LOK_CALLBACK_DOCUMENT_PASSWORD_TO_MODIFY;
   LOK_CALLBACK_DOCUMENT_PASSWORD_RESET; LOK_CALLBACK_CELL_SELECTION_AREA; LOK_CALLBACK_CELL_AUTO_FILL_AREA;
   LOK_CALLBACK_TABLE_SELECTED; LOK_CALLBACK_REFERENCE_MARKS; LOK_CALLBACK_JSDIALOG;
   LOK_CALLBACK_CALC_FUNCTION_LIST; LOK_CALLBACK_TAB_STOP_LIST; LOK_CALLBACK_FORM_FIELD_BUTTON;
   LOK_CALLBACK_INVALIDATE_SHEET_GEOMETRY; LOK_CALLBACK_DOCUMENT_BACKGROUND_COLOR; LOK_CALLBACK_APPLICATION_BACKGROUND_COLOR;
   LOK_CALLBACK_MEDIA_SHAPE; LOK_CALLBACK_CONTENT_CONTROL; LOK_COMMAND_BLOCKED;
   LOK_CALLBACK_PRINT_RANGES; LOK_CALLBACK_FONTS_MISSING; LOK_CALLBACK_EXPORT_FILE;
   LOK_CALLBACK_A11Y_FOCUS_CHANGED; LOK_CALLBACK_A11Y_CARET_CHANGED; LOK_CALLBACK_A11Y_TEXT_SELECTION_CHANGED;
   LOK_CALLBACK_A11Y_FOCUSED_CELL_CHANGED; LOK_CALLBACK_COLOR_PALETTES; LOK_CALLBACK_A11Y_EDITING_IN_SELECTION_STATE;
   LOK_CALLBACK_A11Y_SELECTION_CHANGED; LOK_CALLBACK_CORE_LOG; LOK_CALLBACK_TOOLTIP;
   LOK_CALLBACK_OTHER].

Definition lok_index (c : LokCallback) : nat :=
  match c with
  | LOK_CALLBACK_INVALIDATE_TILES => 0 | LOK_CALLBACK_INVALIDATE_VISIBLE_CURSOR => 1 | LOK_CALLBACK_TEXT_SELECTION => 2
  | LOK_CALLBACK_TEXT_SELECTION_START => 3 | LOK_CALLBACK_TEXT_SELECTION_END => 4 | LOK_CALLBACK_CURSOR_VISIBLE => 5
  | LOK_CALLBACK_GRAPHIC_SELECTION => 6 | LOK_CALLBACK_SHAPE_INNER_TEXT => 7 | LOK_CALLBACK_CELL_CURSOR => 8
  | LOK_CALLBACK_CELL_FORMULA => 9 | LOK_CALLBACK_MOUSE_POINTER => 10 | LOK_CALLBACK_HYPERLINK_CLICKED => 11
  | LOK_CALLBACK_STATE_CHANGED => 12 | LOK_CALLBACK_SEARCH_NOT_FOUND => 13 | LOK_CALLBACK_SEARCH_RESULT_SELECTION => 14
  | LOK_CALLBACK_DOCUMENT_SIZE_CHANGED => 15 | LOK_CALLBACK_SET_PART => 16 | LOK_CALLBACK_UNO_COMMAND_RESULT => 17
  | LOK_CALLBACK_ERROR => 18 | LOK_CALLBACK_CONTEXT_MENU => 19 | LOK_CALLBACK_STATUS_INDICATOR_START => 20
  | LOK_CALLBACK_STATUS_INDICATOR_SET_VALUE => 21 | LOK_CALLBACK_STATUS_INDICATOR_FINISH => 22 | LOK_CALLBACK_INVALIDATE_VIEW_CURSOR => 23
  | LOK_CALLBACK_TEXT_VIEW_SELECTION => 24 | LOK_CALLBACK_CELL_VIEW_CURSOR => 25 | LOK_CALLBACK_GRAPHIC_VIEW_SELECTION => 26
  | LOK_CALLBACK_VIEW_CURSOR_VISIBLE => 27 | LOK_CALLBACK_VIEW_LOCK => 28 | LOK_CALLBACK_REDLINE_TABLE_SIZE_CHANGED => 29
  | LOK_CALLBACK_REDLINE_TABLE_ENTRY_MODIFIED => 30 | LOK_CALLBACK_COMMENT => 31 | LOK_CALLBACK_INVALIDATE_HEADER => 32
  | LOK_CALLBACK_CELL_ADDRESS => 33 | LOK_CALLBACK_RULER_UPDATE => 34 | LOK_CALLBACK_VERTICAL_RULER_UPDATE => 35
  | LOK_CALLBACK_WINDOW => 36 | LOK_CALLBACK_VALIDITY_LIST_BUTTON => 37 | LOK_CALLBACK_VALIDITY_INPUT_HELP => 38
  | LOK_CALLBACK_CLIPBOARD_CHANGED => 39 | LOK_CALLBACK_CONTEXT_CHANGED => 40 | LOK_CALLBACK_SIGNATURE_STATUS => 41
  | LOK_CALLBACK_PROFILE_FRAME => 42 | LOK_CALLBACK_DOCUMENT_PASSWORD => 43 | LOK_CALLBACK_DOCUMENT_PASSWORD_TO_MODIFY => 44
  | LOK_CALLBACK_DOCUMENT_PASSWORD_RESET => 45 | LOK_CALLBACK_CELL_SELECTION_AREA => 46 | LOK_CALLBACK_CELL_AUTO_FILL_AREA => 47
  | LOK_CALLBACK_TABLE_SELECTED => 48 | LOK_CALLBACK_REFERENCE_MARKS => 49 | LOK_CALLBACK_JSDIALOG => 50
  | LOK_CALLBACK_CALC_FUNCTION_LIST => 51 | LOK_CALLBACK_TAB_STOP_LIST => 52 | LOK_CALLBACK_FORM_FIELD_BUTTON => 53
  | LOK_CALLBACK_INVALIDATE_SHEET_GEOMETRY => 54 | LOK_CALLBACK_DOCUMENT_BACKGROUND_COLOR => 55 | LOK_CALLBACK_APPLICATION_BACKGROUND_COLOR => 56
  | LOK_CALLBACK_MEDIA_SHAPE => 57 | LOK_CALLBACK_CONTENT_CONTROL => 58 | LOK_COMMAND_BLOCKED => 59
  | LOK_CALLBACK_PRINT_RANGES => 60 | LOK_CALLBACK_FONTS_MISSING => 61 | LOK_CALLBACK_EXPORT_FILE => 62
  | LOK_CALLBACK_A11Y_FOCUS_CHANGED => 63 | LOK_CALLBACK_A11Y_CARET_CHANGED => 64 | LOK_CALLBACK_A11Y_TEXT_SELECTION_CHANGED => 65
  | LOK_CALLBACK_A11Y_FOCUSED_CELL_CHANGED => 66 | LOK_CALLBACK_COLOR_PALETTES => 67 | LOK_CALLBACK_A11Y_EDITING_IN_SELECTION_STATE => 68
  | LOK_CALLBACK_A11Y_SELECTION_CHANGED => 69 | LOK_CALLBACK_CORE_LOG => 70 | LOK_CALLBACK_TOOLTIP => 71
  | LOK_CALLBACK_OTHER => 72
  end%nat.

#[global] Instance lok_eq_dec : EqDecision LokCallback.
Proof. refine (fun a b => cast_if (decide (lok_index a = lok_index b))); [by destruct a, b|naive_solver]. Defined.
#[global] Instance lok_countable : Countable LokCallback.
Proof.
  apply (inj_countable' lok_index (fun n => nth n lok_callbacks LOK_CALLBACK_OTHER)). by intros [].
Defined.

(** ** The recorder of an inactive session *)

Record RecordedEvent := { re_type : LokCallback; re_payload : bytes }.

Record StateRecorder := {
  sr_invalidate : bool;
  sr_states : gmap bytes bytes;
  sr_viewEvents : gmap Z (gmap LokCallback RecordedEvent);
  sr_events : gmap LokCallback RecordedEvent;
  sr_eventsVector : list RecordedEvent }.

#[export] Instance StateRecorder_settable : Settable StateRecorder := fun r =>
  {| sr_invalidate := sr_invalidate r; sr_states := sr_states r; sr_viewEvents := sr_viewEvents r;
     sr_events := sr_events r; sr_eventsVector := sr_eventsVector r |}.

Definition StateRecorder_new : StateRecorder :=
  {| sr_invalidate := false; sr_states := ∅; sr_viewEvents := ∅; sr_events := ∅; sr_eventsVector := [] |}.

Definition recordInvalidate (r : StateRecorder) : StateRecorder := r <| sr_invalidate := true |>.
Definition recordEvent (type : LokCallback) (payload : bytes) (r : StateRecorder) : StateRecorder :=
  r <| sr_events ::= <[type := {| re_type := type; re_payload := payload |}]> |>.
Definition recordViewEvent (viewId : Z) (type : LokCallback) (payload : bytes) (r : StateRecorder) : StateRecorder :=
  r <| sr_viewEvents ::= fun m =>
    <[viewId := <[type := {| re_type := type; re_payload := payload |}]> (default ∅ (m !! viewId))]> m |>.
Definition recordState (name value : bytes) (r : StateRecorder) : StateRecorder :=
  r <| sr_states ::= <[name := value]> |>.
Definition recordEventSequence (type : LokCallback) (payload : bytes) (r : StateRecorder) : StateRecorder :=
  r <| sr_eventsVector ::= fun l => l ++ [{| re_type := type; re_payload := payload |}] |>.
Definition sr_clear (_ : StateRecorder) : StateRecorder := StateRecorder_new.

(** ** Sessions *)

(** The fields the modelled operations use; times are in milliseconds. *)
Record ChildSession := {
  ks_viewId : Z;
  ks_currentPart : Z;
  ks_cursorPosition : Rectangle;
  ks_isDocLoaded : bool;
  ks_docType : bytes;
  ks_stateRecorder : StateRecorder;
  ks_copyToClipboard : bool;
  ks_exportAsWopiUrl : bytes;
  ks_viewRenderState : bytes;
  ks_canonicalViewId : Z;
  ks_cursorInvalidatedEvent : list Z;
  ks_isActive : bool;
  ks_isCloseFrame : bool;
  ks_disconnected : bool;
  ks_lastActivityTime : Z;
  ks_jailedFilePath : bytes;
  ks_watermarkText : bytes;
  ks_userPrivateInfo : bytes;
  ks_serverPrivateInfo : bytes }.

#[export] Instance ChildSession_settable : Settable ChildSession := fun s =>
  {| ks_viewId := ks_viewId s; ks_currentPart := ks_currentPart s; ks_cursorPosition := ks_cursorPosition s;
     ks_isDocLoaded := ks_isDocLoaded s; ks_docType := ks_docType s; ks_stateRecorder := ks_stateRecorder s;
     ks_copyToClipboard := ks_copyToClipboard s; ks_exportAsWopiUrl := ks_exportAsWopiUrl s;
     ks_viewRenderState := ks_viewRenderState s; ks_canonicalViewId := ks_canonicalViewId s;
     ks_cursorInvalidatedEvent := ks_cursorInvalidatedEvent s; ks_isActive := ks_isActive s;
     ks_isCloseFrame := ks_isCloseFrame s; ks_disconnected := ks_disconnected s;
     ks_lastActivityTime := ks_lastActivityTime s; ks_jailedFilePath := ks_jailedFilePath s;
     ks_watermarkText := ks_watermarkText s; ks_userPrivateInfo := ks_userPrivateInfo s;
     ks_serverPrivateInfo := ks_serverPrivateInfo s |}.

(** The constructors of [ChildSession] and [Session]. *)
Definition ChildSession_new (now : Z) : ChildSession :=
  {| ks_viewId := -1; ks_currentPart := -1; ks_cursorPosition := rect_empty; ks_isDocLoaded := false; ks_docType := [];
     ks_stateRecorder := StateRecorder_new; ks_copyToClipboard := false; ks_exportAsWopiUrl := [];
     ks_viewRenderState := []; ks_canonicalViewId := -1; ks_cursorInvalidatedEvent := []; ks_isActive := true;
     ks_isCloseFrame := false; ks_disconnected := false; ks_lastActivityTime := now; ks_jailedFilePath := [];
     ks_watermarkText := []; ks_userPrivateInfo := []; ks_serverPrivateInfo := [] |}.

Record UserInfo := {
  ui_userId : bytes;
  ui_userName : bytes;
  ui_userExtraInfo : bytes;
  ui_readOnly : bool;
  ui_connected : bool }.

(** [UserInfo()]. *)
Definition UserInfo_default : UserInfo :=
  {| ui_userId := []; ui_userName := []; ui_userExtraInfo := []; ui_readOnly := false; ui_connected := false |}.
Definition setDisconnected (u : UserInfo) : UserInfo :=
  {| ui_userId := ui_userId u; ui_userName := ui_userName u; ui_userExtraInfo := ui_userExtraInfo u;
     ui_readOnly := ui_readOnly u; ui_connected := false |}.

(** ** The document *)

Inductive ModifiedState := Modified | UnModifiedButSaving | UnModified.

(** What the document sends: for a client, or for the broker; and its bytes. *)
Inductive kit_message := ClientFrame (id text : bytes) | BrokerFrame (text : bytes).

Definition kit_wire (m : kit_message) : bytes :=
  match m with
  | ClientFrame id text => str "client-" ++ id ++ [chr_space] ++ text
  | BrokerFrame text => text
  end.

(** What the document sends, and the calls it makes, in order. *)
Inductive kit_output :=
| SentToServer (message : kit_message)
| SentToParent (message : kit_message)
| SetView (viewId : Z)
| DestroyView (viewId : Z)
| PostUnoCommand (command arguments : bytes)
| CopyForUpload (path : bytes)
| TrimMemory (target : Z)
| DropCache
| SetSessionCount (count : nat)
| ShutdownParentSocket
| ClearQueue
| UnregisterViewCallbacks
| FlushAndExit.

#[global] Instance kit_message_eq_dec : EqDecision kit_message.
Proof. solve_decision. Defined.
#[global] Instance kit_output_eq_dec : EqDecision kit_output.
Proof. solve_decision. Defined.

(** [_sessions] in the order of the map. Of LibreOfficeKit's document, whether there is
    one, and its views; [kd_exited] once the process has ended. *)
Record Document := {
  kd_sessions : list (bytes * ChildSession);
  kd_canonicalIds : list (bytes * Z);
  kd_sessionUserInfo : gmap Z UserInfo;
  kd_modified : ModifiedState;
  kd_isBgSaveProcess : bool;
  kd_saveProcessParent : bool;
  kd_websocketHandler : bool;
  kd_editorId : Z;
  kd_editorChangeWarning : bool;
  kd_speedCount : gmap Z Z;
  kd_lastUpdatedAt : gmap Z Z;
  kd_bgSavesOngoing : Z;
  kd_trimIfInactivePostponed : bool;
  kd_lastMemTrimTime : Z;
  kd_loKitDocument : bool;
  kd_views : list Z;
  kd_exited : bool;
  kd_output : list kit_output }.

#[export] Instance Document_settable : Settable Document := fun d =>
  {| kd_sessions := kd_sessions d; kd_canonicalIds := kd_canonicalIds d; kd_sessionUserInfo := kd_sessionUserInfo d;
     kd_modified := kd_modified d; kd_isBgSaveProcess := kd_isBgSaveProcess d;
     kd_saveProcessParent := kd_saveProcessParent d; kd_websocketHandler := kd_websocketHandler d;
     kd_editorId := kd_editorId d; kd_editorChangeWarning := kd_editorChangeWarning d;
     kd_speedCount := kd_speedCount d; kd_lastUpdatedAt := kd_lastUpdatedAt d; kd_bgSavesOngoing := kd_bgSavesOngoing d;
     kd_trimIfInactivePostponed := kd_trimIfInactivePostponed d; kd_lastMemTrimTime := kd_lastMemTrimTime d;
     kd_loKitDocument := kd_loKitDocument d; kd_views := kd_views d; kd_exited := kd_exited d; kd_output := kd_output d |}.

Abbreviation KD := (SE Document).

Definition kd_emit (o : kit_output) : KD unit := se_modify (fun d => d <| kd_output ::= fun l => l ++ [o] |>).
Definition kd_emit_all (os : list kit_output) : KD unit := se_modify (fun d => d <| kd_output ::= fun l => l ++ os |>).

(** The session a method runs on. *)
Definition find_child (id : bytes) (d : Document) : option ChildSession :=
  snd <$> List.find (fun e => beq e.1 id) (kd_sessions d).
Definition the_session (id : bytes) (d : Document) : ChildSession := default (ChildSession_new 0) (find_child id d).
Definition map_session (f : ChildSession -> ChildSession) (id : bytes) (d : Document) : Document :=
  d <| kd_sessions ::= map (fun e => if beq e.1 id then (e.1, f e.2) else e) |>.
Definition this (id : bytes) : KD ChildSession := fun d => (d, Ok (the_session id d)).
Definition set_this (id : bytes) (f : ChildSession -> ChildSession) : KD unit := se_modify (map_session f id).

(** ** Sending *)

(** [Document::postMessage] of text, with [sendFrame]. *)
Definition postMessage (msg : kit_message) : KD bool := fun d =>
  if kd_isBgSaveProcess d then
    if kd_saveProcessParent d then (d <| kd_output ::= fun l => l ++ [SentToParent msg] |>, Ok true)
    else (d, Ok false)
  else if negb (kd_websocketHandler d) then (d, Ok false)
  else (d <| kd_output ::= fun l => l ++ [SentToServer msg] |>, Ok true).

Definition notifyAll (msg : bytes) : KD bool := postMessage (ClientFrame (str "all") msg).

(** [ChildSession::sendTextFrame]. *)
Definition sendTextFrame (id text : bytes) : KD bool := postMessage (ClientFrame id text).
Definition send_ (id text : bytes) : KD unit := exec sendTextFrame id text; se_ret tt.

Definition session_ids : KD (list bytes) := fun d => (d, Ok (map fst (kd_sessions d))).

(** ** Canonical view ids *)

Definition createCanonicalId (viewProps : bytes) (d : Document) : Document * Z :=
  if beq viewProps [] then (d, 0)
  else
    match List.find (fun e => beq e.1 viewProps) (kd_canonicalIds d) with
    | Some e => (d, e.2)
    | None =>
        let id := i32 (Z.of_nat (length (kd_canonicalIds d)) + 1000) in
        (d <| kd_canonicalIds ::= fun l => l ++ [(viewProps, id)] |>, id)
    end.

Definition findByCanonicalId (id : Z) (d : Document) : option bytes :=
  fst <$> List.find (fun e => ks_canonicalViewId e.2 =? id) (kd_sessions d).

Definition getViewProps (s : ChildSession) : bytes := ks_watermarkText s ++ str "|" ++ ks_viewRenderState s.

Definition invalidateCanonicalId (id : bytes) : KD unit := fun d =>
  match find_child id d with
  | None => (d, Ok tt)
  | Some s =>
      let '(d, newCanonicalId) := createCanonicalId (getViewProps s) d in
      if newCanonicalId =? ks_canonicalViewId s then (d, Ok tt)
      else
        let d := map_session (fun s => s <| ks_canonicalViewId := newCanonicalId |>) id d in
        let stateName := if beq (ks_viewRenderState s) [] then str "Empty" else ks_viewRenderState s in
        send_ id (str "canonicalidchange: viewid=" ++ to_string (ks_viewId s) ++ str " canonicalid=" ++
          to_string newCanonicalId ++ str " viewrenderedstate=" ++ stateName) d
  end.

Definition findSessionByViewId (viewId : Z) (d : Document) : option bytes :=
  fst <$> List.find (fun e => ks_viewId e.2 =? viewId) (kd_sessions d).

(** ** Editor speeds *)

(** What a handler is told by LibreOfficeKit, and the clock. *)
Record Lok := {
  lk_now : Z;
  lk_isText : bool;               (* [getDocumentType() == LOK_DOCTYPE_TEXT] *)
  lk_part : Z;                    (* [getPart()] *)
  lk_documentStatus : bool -> bytes;  (* [LOKitHelper::documentStatus(doc, partsOnly)] *)
  lk_viewColors : gmap bytes Z;   (* [getViewColors()] *)
  lk_wireId : Z;                  (* [getCurrentWireId()] *)
  lk_filename : bytes;            (* [Util::rng::getFilename(64)] *)
  lk_ClientPortNumber : Z;
  lk_fontsMissingHandling : bytes }.  (* of the environment *)

Definition EventStorageInterval : Z := 15000.

Fixpoint pop_old (now : Z) (q : list Z) : list Z :=
  match q with
  | t :: q' => if EventStorageInterval <? now - t then pop_old now q' else q
  | [] => []
  end.

Definition getSpeed (L : Lok) (id : bytes) : KD Z :=
  exec set_this id (fun s => s <| ks_cursorInvalidatedEvent ::= pop_old (lk_now L) |>);
  do s <- this id;
  se_ret (Z.of_nat (length (ks_cursorInvalidatedEvent s))).

Definition speedOf (viewId : Z) (d : Document) : Z := default 0 (kd_speedCount d !! viewId).
Definition setSpeed (viewId speed : Z) : KD unit := se_modify (fun d => d <| kd_speedCount ::= <[viewId := speed]> |>).
Definition setUpdatedAt (viewId now : Z) : KD unit := se_modify (fun d => d <| kd_lastUpdatedAt ::= <[viewId := now]> |>).

(** The first loop; [operator[]] of the maps inserts a zero. *)
Fixpoint speed_loop (L : Lok) (id : Z) (sessions : list bytes) (maxSpeed fastestUser : Z) : KD (Z * Z) :=
  match sessions with
  | [] => se_ret (maxSpeed, fastestUser)
  | sid :: sessions' =>
      do s <- this sid;
      let sessionId := ks_viewId s in
      do d <- se_get;
      let durationInMs := default 0 (kd_lastUpdatedAt d !! id) - lk_now L in
      exec setSpeed sessionId (speedOf sessionId d);
      exec (if negb (speedOf sessionId d =? 0) && (5000 <? durationInMs) then
              do speed <- getSpeed L sid;
              exec setSpeed sessionId speed;
              setUpdatedAt sessionId (lk_now L)
            else se_ret tt);
      do d <- se_get;
      if maxSpeed <? speedOf sessionId d then speed_loop L id sessions' (speedOf sessionId d) sessionId
      else speed_loop L id sessions' maxSpeed fastestUser
  end.

Definition updateEditorSpeeds (L : Lok) (id speed : Z) : KD unit :=
  exec setUpdatedAt id (lk_now L);
  exec setSpeed id speed;
  do ids <- session_ids;
  do fastest <- speed_loop L id ids (-1) (-1);
  let '(maxSpeed, fastestUser) := fastest in
  do d <- se_get;
  if negb (kd_editorId d =? fastestUser) && (negb (maxSpeed =? 0) && negb (maxSpeed =? 1)) then
    if negb (kd_editorChangeWarning d) && negb (kd_editorId d =? -1) then
      se_modify (fun d => d <| kd_editorChangeWarning := true |>)
    else
      exec se_modify (fun d => d <| kd_editorChangeWarning := false |> <| kd_editorId := fastestUser |>);
      se_iter (fun sid => send_ sid (str "editor: " ++ to_string fastestUser)) ids
  else se_modify (fun d => d <| kd_editorChangeWarning := false |>).

Definition updateSpeed (L : Lok) (id : bytes) : KD unit :=
  exec set_this id (fun s => s <| ks_cursorInvalidatedEvent ::= fun q => pop_old (lk_now L) q ++ [lk_now L] |>);
  do s <- this id;
  updateEditorSpeeds L (ks_viewId s) (Z.of_nat (length (ks_cursorInvalidatedEvent s))).

(** ** The view information *)

Definition getEscapementChar (ch : Z) : Z :=
  if ch =? 8 then 98 else if ch =? 9 then 116 else if ch =? 10 then 110 else if ch =? 12 then 102
  else if ch =? 13 then 114 else ch.

(** [JsonUtil::escapeJSONValue]; 0xE2 0x80 0xA8 and 0xE2 0x80 0xA9 are U+2028 and U+2029. *)
Fixpoint escapeJSONValue (val : bytes) : bytes :=
  match val with
  | [] => []
  | ch :: rest =>
      if (ch =? 8) || (ch =? 9) || (ch =? 10) || (ch =? 12) || (ch =? 13) || (ch =? 34) || (ch =? 47) || (ch =? 92)
      then 92 :: getEscapementChar ch :: escapeJSONValue rest
      else if ch =? 226 then
        match rest with
        | 128 :: 168 :: rest' => str "\u2028" ++ escapeJSONValue rest'
        | 128 :: 169 :: rest' => str "\u2029" ++ escapeJSONValue rest'
        | _ => ch :: escapeJSONValue rest
        end
      else ch :: escapeJSONValue rest
  end.

Definition jquote (s : bytes) : bytes := 34 :: s ++ [34].

Section viewinfo.
Context (js : JsonLib).
(** Whether [parser.parse] accepts a text: what it accepts need not be an object. *)
Variable is_json : bytes -> bool.

(** A text that is not JSON makes the parser throw, which is not caught here. *)
Definition replaceKeysWithPlaceholder (json : bytes) (keys : list bytes) : result bytes :=
  if beq json [] then Ok json
  else if negb (is_json json) then Throw json_error
  else
    match js_parse js json with
    | None => Ok json
    | Some obj =>
        Ok (js_stringify js
          (fold_left (fun o key => if beq (findJSONString js o key []) [] then o else js_set js o key (str " ")) keys obj))
    end.

Definition view_string (L : Lok) (d : Document) (viewId : Z) : bytes :=
  jquote (str "id") ++ str ":" ++ to_string viewId ++ str "," ++
  match kd_sessionUserInfo d !! viewId with
  | None => jquote (str "username") ++ str ":" ++ jquote (str "Unknown") ++ str ","
  | Some u =>
      jquote (str "userid") ++ str ":" ++ jquote (escapeJSONValue (ui_userId u)) ++ str "," ++
      jquote (str "username") ++ str ":" ++ jquote (escapeJSONValue (ui_userName u)) ++ str "," ++
      (if beq (ui_userExtraInfo u) [] then [] else jquote (str "userextrainfo") ++ str ":" ++ ui_userExtraInfo u ++ str ",") ++
      jquote (str "readonly") ++ str ":" ++ jquote (if ui_readOnly u then str "1" else str "0") ++ str ","
  end ++
  jquote (str "color") ++ str ":" ++
  to_string (match kd_sessionUserInfo d !! viewId with
             | Some u => default 0 (lk_viewColors L !! ui_userName u)
             | None => 0
             end).

Definition private_strings (s : ChildSession) : result bytes :=
  try user <- (if beq (ks_userPrivateInfo s) [] then Ok []
               else try t <- replaceKeysWithPlaceholder (ks_userPrivateInfo s)
                               [str "SignatureCert"; str "SignatureKey"; str "SignatureCa"];
                    Ok (str "," ++ jquote (str "userprivateinfo") ++ str ":" ++ t));
  try server <- (if beq (ks_serverPrivateInfo s) [] then Ok []
                 else try t <- replaceKeysWithPlaceholder (ks_serverPrivateInfo s) [str "ESignatureSecret"];
                      Ok (str "," ++ jquote (str "serverprivateinfo") ++ str ":" ++ t));
  Ok (user ++ server).

(** The entries of one session's message, each with its comma. *)
Fixpoint viewinfo_entries (L : Lok) (d : Document) (s : ChildSession) (viewIds : list Z) : result bytes :=
  match viewIds with
  | [] => Ok []
  | viewId :: viewIds' =>
      try private <- (if viewId =? ks_viewId s then private_strings s else Ok []);
      try rest <- viewinfo_entries L d s viewIds';
      Ok (str "{" ++ view_string L d viewId ++ private ++ str "}," ++ rest)
  end.

Definition viewinfo_message (L : Lok) (d : Document) (s : ChildSession) : result bytes :=
  try entries <- viewinfo_entries L d s (kd_views d);
  Ok (str "viewinfo: [" ++ removelast entries ++ str "]").

Definition notifyViewInfo (L : Lok) : KD unit :=
  do ids <- session_ids;
  se_iter (fun id =>
    do d <- se_get;
    do msg <- se_lift (viewinfo_message L d (the_session id d));
    send_ id msg) ids.
End viewinfo.

(** ** The modified state *)

Definition postForceModifiedCommand (modified : bool) : KD unit :=
  kd_emit (PostUnoCommand (str ".uno:Modified")
    (str "{ " ++ jquote (str "Modified") ++ str ": { " ++ jquote (str "type") ++ str ": " ++ jquote (str "boolean") ++ str ", "
      ++ jquote (str "value") ++ str ": " ++ jquote (if modified then str "true" else str "false") ++ str " } }")).

Definition set_modified (m : ModifiedState) : KD unit := se_modify (fun d => d <| kd_modified := m |>).

Definition forceDocUnmodifiedForBgSave (viewId : Z) : KD unit :=
  do d <- se_get;
  match kd_modified d with
  | Modified =>
      exec kd_emit (SetView viewId);
      exec set_modified UnModifiedButSaving;
      postForceModifiedCommand false
  | _ => se_ret tt
  end.

Definition updateModifiedOnFailedBgSave : KD unit :=
  do d <- se_get;
  match kd_modified d with
  | UnModifiedButSaving =>
      exec set_modified Modified;
      postForceModifiedCommand true
  | _ => se_ret tt
  end.

Definition notifySyntheticUnmodifiedState : KD unit :=
  do d <- se_get;
  match kd_modified d with
  | UnModifiedButSaving =>
      exec set_modified UnModified;
      exec notifyAll (str "statechanged: .uno:ModifiedStatus=false");
      se_ret tt
  | _ => se_ret tt
  end.

(** Returns whether the notification is to be filtered out. *)
Definition trackDocModifiedState (stateChanged : bytes) : KD bool :=
  let tokens := tokenize stateChanged chr_eq in
  let modified := (1 <? sv_size tokens)%nat && equals tokens 1 (str "true") in
  do d <- se_get;
  match kd_modified d with
  | Modified => exec set_modified (if modified then Modified else UnModified); se_ret false
  | UnModifiedButSaving => if modified then (exec set_modified Modified; se_ret false) else se_ret true
  | UnModified => exec set_modified (if modified then Modified else UnModified); se_ret false
  end.

(** ** Trimming memory *)

Definition bgSaveEnded (L : Lok) : KD unit :=
  exec se_modify (fun d => d <| kd_bgSavesOngoing ::= fun n => n - 1 |>);
  do d <- se_get;
  if kd_bgSavesOngoing d =? 0 then se_modify (fun d => d <| kd_lastMemTrimTime := lk_now L |>) else se_ret tt.

Definition trimIfInactive : KD unit :=
  do d <- se_get;
  if kd_isBgSaveProcess d then se_ret tt
  else if negb (kd_bgSavesOngoing d =? 0) then se_modify (fun d => d <| kd_trimIfInactivePostponed := true |>)
  else
    exec se_modify (fun d => d <| kd_trimIfInactivePostponed := false |>);
    if existsb (fun e => ks_isActive e.2) (kd_sessions d) then se_ret tt
    else
      exec kd_emit_all [TrimMemory 4096; DropCache];
      exec postMessage (BrokerFrame (str "memorytrimmed:"));
      se_ret tt.

Definition getInactivityMS (L : Lok) (s : ChildSession) : Z := lk_now L - ks_lastActivityTime s.

Definition trimAfterInactivity (L : Lok) : KD unit :=
  do d <- se_get;
  if kd_isBgSaveProcess d || negb (kd_bgSavesOngoing d =? 0) then se_ret tt
  else if Z.quot (lk_now L - kd_lastMemTrimTime d) 1000 <? 30 then se_ret tt
  else if kd_trimIfInactivePostponed d then trimIfInactive
  else if forallb (fun e => 9999 <=? getInactivityMS L e.2) (kd_sessions d) then
    exec kd_emit (TrimMemory 1024);
    se_modify (fun d => d <| kd_lastMemTrimTime := lk_now L |>)
  else se_ret tt.

(** ** The end of a background save *)

Definition handleSaveMessage : KD unit :=
  do d <- se_get;
  if kd_isBgSaveProcess d then
    exec (if kd_saveProcessParent d then kd_emit ShutdownParentSocket else se_ret tt);
    exec kd_emit ClearQueue;
    exec kd_emit_all (map SetView (kd_views d));
    exec kd_emit UnregisterViewCallbacks;
    se_modify (fun d => d <| kd_loKitDocument := false |>)
  else se_ret tt.

(** ** Sessions come and go *)

Definition flushAndExit : KD unit :=
  exec kd_emit FlushAndExit;
  se_modify (fun d => d <| kd_exited := true |>).

(** [std::string]'s order. *)
Fixpoint bytes_ltb (a b : bytes) : bool :=
  match a, b with
  | [], [] => false
  | [], _ => true
  | _, [] => false
  | x :: a', y :: b' => (x <? y) || ((x =? y) && bytes_ltb a' b')
  end.

Fixpoint insert_session (id : bytes) (s : ChildSession) (l : list (bytes * ChildSession)) : list (bytes * ChildSession) :=
  match l with
  | [] => [(id, s)]
  | e :: l' =>
      if beq e.1 id then l
      else if bytes_ltb id e.1 then (id, s) :: l
      else e :: insert_session id s l'
  end.

Definition createSession (L : Lok) (id : bytes) : KD bool :=
  do d <- se_get;
  match find_child id d with
  | Some _ => se_ret true
  | None =>
      exec se_modify (fun d => d <| kd_sessions ::= insert_session id (ChildSession_new (lk_now L)) |>);
      do d <- se_get;
      exec kd_emit (SetSessionCount (length (kd_sessions d)));
      exec setUpdatedAt (-1) (lk_now L);
      exec setSpeed (-1) 0;
      se_ret true
  end.

Section unload.
Context (js : JsonLib).
Variable is_json : bytes -> bool.

(** [onUnload]; the session is no longer among the sessions. *)
Definition onUnload (L : Lok) (s : ChildSession) : KD unit :=
  do d <- se_get;
  if negb (kd_loKitDocument d) then flushAndExit
  else if negb (existsb (fun e => ks_isDocLoaded e.2) (kd_sessions d)) then flushAndExit
  else
    let viewId := ks_viewId s in
    exec kd_emit_all [SetView viewId; UnregisterViewCallbacks; DestroyView viewId];
    exec se_modify (fun d => d <| kd_views ::= List.filter (fun v => negb (v =? viewId)) |>);
    do d <- se_get;
    if (0 <? length (kd_views d))%nat then notifyViewInfo js is_json L else se_ret tt.

(** [~ChildSession], with [disconnect]. *)
Definition destroySession (L : Lok) (id : bytes) (s : ChildSession) : KD unit :=
  if ks_disconnected s || (ks_viewId s <? 0) then se_ret tt
  else
    exec onUnload L s;
    do d <- se_get;
    if kd_exited d then se_ret tt
    else send_ id (str "unloaded: viewid=" ++ to_string (ks_viewId s) ++ str " views=" ++
           to_string (if kd_loKitDocument d then Z.of_nat (length (kd_views d)) else 0)).

Definition remove_child (id : bytes) (d : Document) : Document :=
  d <| kd_sessions ::= List.filter (fun e => negb (beq e.1 id)) |>.

(** [child-<id> disconnect], of [forwardToChild]. *)
Definition disconnectChild (L : Lok) (id : bytes) : KD bool :=
  do d <- se_get;
  match find_child id d with
  | None => se_ret false
  | Some s =>
      exec (if ks_viewId s =? kd_editorId d then se_modify (fun d => d <| kd_editorId := -1 |>) else se_ret tt);
      exec send_ id (str "disconnected:");
      exec se_modify (remove_child id);
      do d <- se_get;
      exec kd_emit (SetSessionCount (length (kd_sessions d)));
      exec se_modify (fun d => d <| kd_sessionUserInfo ::= fun m =>
        <[ks_viewId s := setDisconnected (default UserInfo_default (m !! ks_viewId s))]> m |>);
      exec destroySession L id s;
      se_ret true
  end.

(** The dead sessions are destroyed after all have been erased. *)
Definition purgeSessions (L : Lok) : KD nat :=
  do d <- se_get;
  let dead := List.filter (fun e => ks_isCloseFrame e.2) (kd_sessions d) in
  let live := List.filter (fun e => negb (ks_isCloseFrame e.2)) (kd_sessions d) in
  exec se_modify (fun d => d <| kd_sessions := live |>);
  if (length live =? 0)%nat then (exec flushAndExit; se_ret 0%nat)
  else
    exec se_iter (fun e => destroySession L e.1 e.2) dead;
    se_ret (length live).
End unload.
