(* ===== verification/KitCallbacks.v ===== *)
(** * Callbacks of LibreOfficeKit to a session in the kit

    Models [ChildSession::loKitCallback] ([kit/ChildSession.cpp]) with its helpers: what of
    each callback reaches the client, what an inactive session keeps of it, how the
    session catches up when its user is active again, and how [Document::drainCallbacks]
    ([kit/Kit.cpp]) hands the callbacks to the sessions. *)

From S2P Require Import Prelude RecordSet StateError Util StringVector Protocol Rectangle JsonUtil KitSession.

Open Scope cool_scope.
Open Scope record_scope.

(** [std::stoi], with the two exceptions apart. *)
Definition std_stoi (s : bytes) : result Z :=
  let c := strtol s in
  if negb (cv_any c) then Throw invalid_argument
  else if cv_erange c || negb (bool_decide (is_i32 (cv_value c))) then Throw out_of_range
  else Ok (cv_value c).

(** [Rectangle(text)]; the sums are of [int]s. *)
Definition rect_parse (rectangle : bytes) : result Rectangle :=
  let tokens := tokenize rectangle chr_comma in
  if (sv_size tokens =? 4)%nat then
    try x1 <- std_stoi (sv_get tokens 0);
    try y1 <- std_stoi (sv_get tokens 1);
    try w <- std_stoi (sv_get tokens 2);
    try h <- std_stoi (sv_get tokens 3);
    Ok {| _x1 := x1; _y1 := y1; _x2 := i32 (x1 + w); _y2 := i32 (y1 + h) |}
  else Ok {| _x1 := 0; _y1 := 0; _x2 := 0; _y2 := 0 |}.

(** ** Messages *)

Definition sendProgressFrame (id : bytes) (pid jsonProps forcedID : bytes) : KD unit :=
  do d <- se_get;
  send_ id (str "progress: { " ++ jquote (str "id") ++ str ":" ++ jquote pid
    ++ (if kd_isBgSaveProcess d then str ", " ++ jquote (str "type") ++ str ":" ++ jquote (str "bg") else [])
    ++ (if beq jsonProps [] then [] else str ", " ++ jsonProps)
    ++ (if beq forcedID [] then [] else str ", " ++ jquote (str "forceid") ++ str ": " ++ jquote forcedID)
    ++ str " }").

Definition getStatus (L : Lok) (id : bytes) : KD bool :=
  do s <- this id;
  exec kd_emit (SetView (ks_viewId s));
  if beq (lk_documentStatus L false) [] then se_ret false
  else sendTextFrame id (str "status: " ++ lk_documentStatus L false).

Definition getPartStatus (L : Lok) (id : bytes) : KD bool :=
  do s <- this id;
  exec kd_emit (SetView (ks_viewId s));
  if beq (lk_documentStatus L true) [] then se_ret false
  else sendTextFrame id (str "partstatus:" ++ lk_documentStatus L true).

Definition updateCursorPosition (id rect : bytes) : KD unit :=
  do r <- se_lift (rect_parse rect);
  if negb (rect_getWidth r =? 0) && negb (rect_getHeight r =? 0)
  then set_this id (fun s => s <| ks_cursorPosition := r |>) else se_ret tt.

Fixpoint take_digits (s : bytes) : bytes :=
  match s with c :: s' => if isdigit c then c :: take_digits s' else [] | [] => [] end.

Definition getZoomPercent (payload : bytes) : bytes :=
  match find_sub [chr_eq] payload with
  | Some eq => take_digits (drop (eq + 1) payload)
  | None => []
  end.

(** [INVALIDATE_TILES]. *)
Definition invalidate_numbers (s : ChildSession) (tokens : StringVector) : result (Z * Z * Z * Z * Z * Z) :=
  try x <- std_stoi (sv_get tokens 0);
  try y <- std_stoi (sv_get tokens 1);
  try width <- std_stoi (sv_get tokens 2);
  try height <- std_stoi (sv_get tokens 3);
  try part <- (if negb (beq (ks_docType s) (str "text")) then std_stoi (sv_get tokens 4) else Ok 0);
  try mode <- (if (sv_size tokens =? 6)%nat then std_stoi (sv_get tokens 5) else Ok 0);
  Ok (part, mode, x, y, width, height).

Definition invalidate_frame (L : Lok) (n : Z * Z * Z * Z * Z * Z) : bytes :=
  let '(part, mode, x, y, width, height) := n in
  str "invalidatetiles: part=" ++ to_string part ++ str " mode=" ++ to_string mode ++ str " x=" ++ to_string x ++
  str " y=" ++ to_string y ++ str " width=" ++ to_string width ++ str " height=" ++ to_string height ++
  str " wid=" ++ to_string (lk_wireId L).

Definition invalidation_text (L : Lok) (s : ChildSession) (payload : bytes) : result bytes :=
  let tokens := tokenize payload chr_comma in
  let part := if negb (beq (ks_docType s) (str "text")) then sv_get tokens 1 else str "0" in
  let wid := str " wid=" ++ to_string (lk_wireId L) in
  if (sv_size tokens =? 5)%nat || (sv_size tokens =? 6)%nat then
    match invalidate_numbers s tokens with
    | Ok n => Ok (invalidate_frame L n)
    | Throw out_of_range => Ok (invalidate_frame L (0, 0, 0, 0, INT_MAX, INT_MAX))
    | Throw e => Throw e
    end
  else if (sv_size tokens =? 2)%nat && equals tokens 0 (str "EMPTY") then
    Ok (str "invalidatetiles: EMPTY, " ++ part ++ str ", 0" ++ wid)
  else if (sv_size tokens =? 3)%nat && equals tokens 0 (str "EMPTY") then
    Ok (str "invalidatetiles: EMPTY, " ++ part ++ str ", " ++ sv_get tokens 2 ++ wid)
  else Ok (str "invalidatetiles: " ++ payload ++ wid).

Definition setPart (L : Lok) (id payload : bytes) : KD unit :=
  let tokens := tokenize payload chr_comma in
  exec (match getTokenInteger (sv_get tokens 1) (str "part") with
        | (Some part, true) => if lk_isText L then se_ret tt else set_this id (fun s => s <| ks_currentPart := part |>)
        | _ => se_ret tt
        end);
  send_ id (str "setpart: " ++ payload).

Definition stateChanged (L : Lok) (id payload : bytes) : KD unit :=
  if beq payload (str ".uno:NotesMode=true") || beq payload (str ".uno:NotesMode=false")
     || beq payload (str ".uno:RedlineRenderMode=true") || beq payload (str ".uno:RedlineRenderMode=false")
  then send_ id (str "statusupdate: " ++ lk_documentStatus L false)
  else if contains payload (str ".uno:ModifiedStatus") then
    do filter <- trackDocModifiedState payload;
    if filter then se_ret tt else send_ id (str "statechanged: " ++ payload)
  else if contains payload (str ".uno:CurrentPageResize") then (exec getPartStatus L id; se_ret tt)
  else if contains payload (str ".uno:PageZoomChange") then send_ id (str "changepagezoom:" ++ getZoomPercent payload)
  else send_ id (str "statechanged: " ++ payload).

(** An empty payload asks LibreOfficeKit for the selection, and drops the answer. *)
Definition clipboardChanged (id payload : bytes) : KD unit :=
  do s <- this id;
  if ks_copyToClipboard s then
    exec set_this id (fun s => s <| ks_copyToClipboard := false |>);
    if beq payload [] then kd_emit (SetView (ks_viewId s))
    else send_ id (str "clipboardchanged: " ++ payload)
  else se_ret tt.

Definition fontsMissing (L : Lok) (id payload : bytes) : KD unit :=
  if beq (lk_fontsMissingHandling L) (str "report") || beq (lk_fontsMissingHandling L) (str "both")
  then send_ id (str "fontsmissing: " ++ payload) else se_ret tt.

(** [find_last_of]. *)
Fixpoint find_last_of (c : Z) (s : bytes) : option nat :=
  match s with
  | [] => None
  | x :: s' =>
      match find_last_of c s' with
      | Some n => Some (S n)
      | None => if x =? c then Some 0%nat else None
      end
  end.

Section callbacks.
Context (js : JsonLib).
Variable is_json : bytes -> bool.
(** [Poco::URI::encode(text, "")]. *)
Variable uri_encode : bytes -> bytes.

(** [object->get(key).toString()]. *)
Definition object_text (o : js_object js) (key : bytes) : result bytes :=
  match js_get js o key with
  | Some v => match js_string js v with Some t => Ok t | None => Throw json_error end
  | None => Throw json_error
  end.
Definition json_object (payload : bytes) : result (js_object js) :=
  match js_parse js payload with Some o => Ok o | None => Throw json_error end.

Definition json_rectangle (payload : bytes) : result bytes :=
  try o <- json_object payload; object_text o (str "rectangle").

Definition updateCursorPositionJSON (id payload : bytes) : KD unit :=
  do rect <- se_lift (json_rectangle payload);
  updateCursorPosition id rect.

(** [root->getValue<int>("viewId")]. *)
Definition json_viewId (payload : bytes) : result Z :=
  try o <- json_object payload;
  match js_get js o (str "viewId") with
  | Some v => match js_int js v with Some n => Ok n | None => Throw json_error end
  | None => Throw json_error
  end.

Definition unoCommandResult (id payload : bytes) : KD unit :=
  do o <- se_lift (json_object payload);
  do saveCommand <- se_lift (match js_get js o (str "commandName") with
    | None => Ok false
    | Some v => match js_string js v with Some t => Ok (beq t (str ".uno:Save")) | None => Throw json_error end
    end);
  do s <- this id;
  exec (if saveCommand then kd_emit (CopyForUpload (ks_jailedFilePath s)) else se_ret tt);
  exec send_ id (str "unocommandresult: " ++ payload);
  if saveCommand then handleSaveMessage else se_ret tt.

Definition callbackError (id payload : bytes) : KD unit :=
  do o <- se_lift (json_object payload);
  do cmd <- se_lift (object_text o (str "cmd"));
  do kind <- se_lift (object_text o (str "kind"));
  do code <- se_lift (object_text o (str "code"));
  send_ id (str "error: cmd=" ++ cmd ++ str " kind=" ++ kind ++ str " code=" ++ code).

Definition exportFile (L : Lok) (id payload : bytes) : KD unit :=
  do s <- this id;
  if beq payload (str "PENDING") then
    exec send_ id (str "blockui: ");
    sendProgressFrame id (str "start") [] (str "exporting")
  else if beq payload (str "ABORT") then
    exec set_this id (fun s => s <| ks_exportAsWopiUrl := [] |>);
    sendProgressFrame id (str "finish") [] (str "exporting")
  else
    exec send_ id (str "unblockui: ");
    exec sendProgressFrame id (str "finish") [] (str "exporting");
    if beq payload (str "ERROR") then
      exec set_this id (fun s => s <| ks_exportAsWopiUrl := [] |>);
      send_ id (str "error: cmd=exportas kind=saveasfailed")
    else if negb (beq (ks_exportAsWopiUrl s) []) then
      exec send_ id (str "exportas: url=" ++ uri_encode payload ++ str " filename=" ++ ks_exportAsWopiUrl s);
      set_this id (fun s => s <| ks_exportAsWopiUrl := [] |>)
    else
      match find_last_of 47 payload with
      | None => se_throw out_of_range
      | Some slash =>
          exec postMessage (BrokerFrame (str "registerdownload: downloadid=" ++ lk_filename L ++ str " url=../../" ++
            drop slash payload ++ str " clientid=" ++ id));
          send_ id (str "downloadas: downloadid=" ++ lk_filename L ++ str " port=" ++ to_string (lk_ClientPortNumber L)
            ++ str " id=export")
      end.

(** ** The callback of a session *)

(** The features that block commands are not built in. *)
Definition callback_switch (L : Lok) (id : bytes) (type : LokCallback) (payload : bytes) : KD unit :=
  match type with
  | LOK_CALLBACK_INVALIDATE_TILES => do s <- this id; do msg <- se_lift (invalidation_text L s payload); send_ id msg
  | LOK_CALLBACK_INVALIDATE_VISIBLE_CURSOR => exec updateSpeed L id; exec updateCursorPositionJSON id payload; send_ id (str "invalidatecursor: " ++ payload)
  | LOK_CALLBACK_TEXT_SELECTION => send_ id (str "textselection: " ++ payload)
  | LOK_CALLBACK_TEXT_SELECTION_START => send_ id (str "textselectionstart: " ++ payload)
  | LOK_CALLBACK_TEXT_SELECTION_END => send_ id (str "textselectionend: " ++ payload)
  | LOK_CALLBACK_CURSOR_VISIBLE => send_ id (str "cursorvisible: " ++ payload)
  | LOK_CALLBACK_GRAPHIC_SELECTION => send_ id (str "graphicselection: " ++ payload)
  | LOK_CALLBACK_SHAPE_INNER_TEXT => send_ id (str "graphicinnertextarea: " ++ payload)
  | LOK_CALLBACK_CELL_CURSOR => exec updateCursorPosition id payload; send_ id (str "cellcursor: " ++ payload)
  | LOK_CALLBACK_CELL_FORMULA => send_ id (str "cellformula: " ++ payload)
  | LOK_CALLBACK_MOUSE_POINTER => send_ id (str "mousepointer: " ++ payload)
  | LOK_CALLBACK_HYPERLINK_CLICKED => send_ id (str "hyperlinkclicked: " ++ payload)
  | LOK_CALLBACK_STATE_CHANGED => stateChanged L id payload
  | LOK_CALLBACK_SEARCH_NOT_FOUND => send_ id (str "searchnotfound: " ++ payload)
  | LOK_CALLBACK_SEARCH_RESULT_SELECTION => send_ id (str "searchresultselection: " ++ payload)
  | LOK_CALLBACK_DOCUMENT_SIZE_CHANGED => exec getStatus L id; se_ret tt
  | LOK_CALLBACK_SET_PART => setPart L id payload
  | LOK_CALLBACK_UNO_COMMAND_RESULT => unoCommandResult id payload
  | LOK_CALLBACK_ERROR => callbackError id payload
  | LOK_CALLBACK_CONTEXT_MENU => send_ id (str "contextmenu: " ++ payload)
  | LOK_CALLBACK_STATUS_INDICATOR_START => sendProgressFrame id (str "start") (jquote (str "text") ++ str ": " ++ jquote (escapeJSONValue payload)) []
  | LOK_CALLBACK_STATUS_INDICATOR_SET_VALUE => sendProgressFrame id (str "setvalue") (jquote (str "value") ++ str ": " ++ payload) []
  | LOK_CALLBACK_STATUS_INDICATOR_FINISH => sendProgressFrame id (str "finish") [] []
  | LOK_CALLBACK_INVALIDATE_VIEW_CURSOR => exec updateCursorPositionJSON id payload; send_ id (str "invalidateviewcursor: " ++ payload)
  | LOK_CALLBACK_TEXT_VIEW_SELECTION => send_ id (str "textviewselection: " ++ payload)
  | LOK_CALLBACK_CELL_VIEW_CURSOR => exec updateCursorPositionJSON id payload; send_ id (str "cellviewcursor: " ++ payload)
  | LOK_CALLBACK_GRAPHIC_VIEW_SELECTION => send_ id (str "graphicviewselection: " ++ payload)
  | LOK_CALLBACK_VIEW_CURSOR_VISIBLE => send_ id (str "viewcursorvisible: " ++ payload)
  | LOK_CALLBACK_VIEW_LOCK => send_ id (str "viewlock: " ++ payload)
  | LOK_CALLBACK_REDLINE_TABLE_SIZE_CHANGED => send_ id (str "redlinetablechanged: " ++ payload)
  | LOK_CALLBACK_REDLINE_TABLE_ENTRY_MODIFIED => send_ id (str "redlinetablemodified: " ++ payload)
  | LOK_CALLBACK_COMMENT => exec send_ id (str "comment: " ++ payload); exec getStatus L id; se_ret tt
  | LOK_CALLBACK_INVALIDATE_HEADER => send_ id (str "invalidateheader: " ++ payload)
  | LOK_CALLBACK_CELL_ADDRESS => send_ id (str "celladdress: " ++ payload)
  | LOK_CALLBACK_RULER_UPDATE => send_ id (str "hrulerupdate: " ++ payload)
  | LOK_CALLBACK_VERTICAL_RULER_UPDATE => send_ id (str "vrulerupdate: " ++ payload)
  | LOK_CALLBACK_WINDOW => send_ id (str "window: " ++ payload)
  | LOK_CALLBACK_VALIDITY_LIST_BUTTON => send_ id (str "validitylistbutton: " ++ payload)
  | LOK_CALLBACK_VALIDITY_INPUT_HELP => send_ id (str "validityinputhelp: " ++ payload)
  | LOK_CALLBACK_CLIPBOARD_CHANGED => clipboardChanged id payload
  | LOK_CALLBACK_CONTEXT_CHANGED => send_ id (str "context: " ++ payload)
  | LOK_CALLBACK_SIGNATURE_STATUS => send_ id (str "signaturestatus: " ++ payload)
  | LOK_CALLBACK_CELL_SELECTION_AREA => send_ id (str "cellselectionarea: " ++ payload)
  | LOK_CALLBACK_CELL_AUTO_FILL_AREA => send_ id (str "cellautofillarea: " ++ payload)
  | LOK_CALLBACK_TABLE_SELECTED => send_ id (str "tableselected: " ++ payload)
  | LOK_CALLBACK_REFERENCE_MARKS => send_ id (str "referencemarks: " ++ payload)
  | LOK_CALLBACK_JSDIALOG => send_ id (str "jsdialog: " ++ payload)
  | LOK_CALLBACK_CALC_FUNCTION_LIST => send_ id (str "calcfunctionlist: " ++ payload)
  | LOK_CALLBACK_TAB_STOP_LIST => send_ id (str "tabstoplistupdate: " ++ payload)
  | LOK_CALLBACK_FORM_FIELD_BUTTON => send_ id (str "formfieldbutton: " ++ payload)
  | LOK_CALLBACK_INVALIDATE_SHEET_GEOMETRY => send_ id (str "invalidatesheetgeometry: " ++ payload)
  | LOK_CALLBACK_DOCUMENT_BACKGROUND_COLOR => send_ id (str "documentbackgroundcolor: " ++ payload)
  | LOK_CALLBACK_APPLICATION_BACKGROUND_COLOR => send_ id (str "applicationbackgroundcolor: " ++ payload)
  | LOK_CALLBACK_MEDIA_SHAPE => send_ id (str "mediashape: " ++ payload)
  | LOK_CALLBACK_CONTENT_CONTROL => send_ id (str "contentcontrol: " ++ payload)
  | LOK_CALLBACK_PRINT_RANGES => send_ id (str "printranges: " ++ payload)
  | LOK_CALLBACK_FONTS_MISSING => fontsMissing L id payload
  | LOK_CALLBACK_EXPORT_FILE => exportFile L id payload
  | LOK_CALLBACK_A11Y_FOCUS_CHANGED => send_ id (str "a11yfocuschanged: " ++ payload)
  | LOK_CALLBACK_A11Y_CARET_CHANGED => send_ id (str "a11ycaretchanged: " ++ payload)
  | LOK_CALLBACK_A11Y_TEXT_SELECTION_CHANGED => send_ id (str "a11ytextselectionchanged: " ++ payload)
  | LOK_CALLBACK_A11Y_FOCUSED_CELL_CHANGED => send_ id (str "a11yfocusedcellchanged: " ++ payload)
  | LOK_CALLBACK_COLOR_PALETTES => send_ id (str "colorpalettes: " ++ payload)
  | LOK_CALLBACK_A11Y_EDITING_IN_SELECTION_STATE => send_ id (str "a11yeditinginselectionstate: " ++ payload)
  | LOK_CALLBACK_A11Y_SELECTION_CHANGED => send_ id (str "a11yselectionchanged: " ++ payload)
  | LOK_CALLBACK_CORE_LOG => send_ id (str "corelog: " ++ payload)
  | LOK_CALLBACK_TOOLTIP => send_ id (str "tooltip: " ++ payload)
  | LOK_CALLBACK_PROFILE_FRAME | LOK_CALLBACK_DOCUMENT_PASSWORD | LOK_CALLBACK_DOCUMENT_PASSWORD_TO_MODIFY | LOK_CALLBACK_DOCUMENT_PASSWORD_RESET | LOK_COMMAND_BLOCKED | LOK_CALLBACK_OTHER => se_ret tt
  end.

(** What [rememberEventsForInactiveUser] does with a type. *)
Inductive remembered := RInvalidate | REvent | RViewEvent | RState | RSequence | RNothing.

Definition remembers (type : LokCallback) : remembered :=
  match type with
  | LOK_CALLBACK_INVALIDATE_TILES => RInvalidate
  | LOK_CALLBACK_INVALIDATE_VISIBLE_CURSOR | LOK_CALLBACK_CURSOR_VISIBLE | LOK_CALLBACK_TEXT_SELECTION
  | LOK_CALLBACK_TEXT_SELECTION_START | LOK_CALLBACK_TEXT_SELECTION_END | LOK_CALLBACK_CELL_FORMULA
  | LOK_CALLBACK_CELL_CURSOR | LOK_CALLBACK_GRAPHIC_SELECTION | LOK_CALLBACK_DOCUMENT_SIZE_CHANGED
  | LOK_CALLBACK_INVALIDATE_HEADER | LOK_CALLBACK_INVALIDATE_SHEET_GEOMETRY | LOK_CALLBACK_CELL_ADDRESS
  | LOK_CALLBACK_REFERENCE_MARKS | LOK_CALLBACK_A11Y_FOCUS_CHANGED | LOK_CALLBACK_A11Y_CARET_CHANGED
  | LOK_CALLBACK_A11Y_TEXT_SELECTION_CHANGED => REvent
  | LOK_CALLBACK_INVALIDATE_VIEW_CURSOR | LOK_CALLBACK_TEXT_VIEW_SELECTION | LOK_CALLBACK_CELL_VIEW_CURSOR
  | LOK_CALLBACK_GRAPHIC_VIEW_SELECTION | LOK_CALLBACK_VIEW_CURSOR_VISIBLE | LOK_CALLBACK_VIEW_LOCK => RViewEvent
  | LOK_CALLBACK_STATE_CHANGED => RState
  | LOK_CALLBACK_REDLINE_TABLE_SIZE_CHANGED | LOK_CALLBACK_REDLINE_TABLE_ENTRY_MODIFIED | LOK_CALLBACK_COMMENT => RSequence
  | _ => RNothing
  end.

Definition remember (type : LokCallback) (payload : bytes) (r : StateRecorder) : result StateRecorder :=
  match remembers type with
  | RInvalidate => Ok (recordInvalidate r)
  | REvent => Ok (recordEvent type payload r)
  | RViewEvent => try viewId <- json_viewId payload; Ok (recordViewEvent viewId type payload r)
  | RState =>
      match parseNameValuePair payload chr_eq with
      | Some (name, _) => Ok (recordState name payload r)
      | None => Ok r
      end
  | RSequence => Ok (recordEventSequence type payload r)
  | RNothing => Ok r
  end.

Definition rememberEventsForInactiveUser (id : bytes) (type : LokCallback) (payload : bytes) : KD unit :=
  do s <- this id;
  do r <- se_lift (remember type payload (ks_stateRecorder s));
  set_this id (fun s => s <| ks_stateRecorder := r |>).

(** What passes through an inactive session. *)
Definition passes_inactive (type : LokCallback) (payload : bytes) : bool :=
  (bool_decide (type = LOK_CALLBACK_UNO_COMMAND_RESULT) && contains payload (str ".uno:Save"))
  || contains payload (str ".uno:ModifiedStatus").

Definition loKitCallback (L : Lok) (id : bytes) (type : LokCallback) (payload : bytes) : KD unit :=
  do s <- this id;
  if ks_isCloseFrame s then se_ret tt
  else if ks_disconnected s then se_ret tt
  else if negb (ks_isActive s) then
    exec rememberEventsForInactiveUser id type payload;
    if passes_inactive type payload then callback_switch L id type payload else se_ret tt
  else callback_switch L id type payload.

(** ** Becoming active again *)

(** The recorded events in the order in which the unordered maps are walked. *)
Record replay_order := {
  ro_viewEvents : list RecordedEvent;
  ro_events : list RecordedEvent;
  ro_states : list bytes }.

Definition recorded_viewEvents (r : StateRecorder) : list RecordedEvent :=
  concat (map (fun e => (map_to_list e.2).*2) (map_to_list (sr_viewEvents r))).

Definition replays (r : StateRecorder) (o : replay_order) : Prop :=
  ro_viewEvents o ≡ₚ recorded_viewEvents r /\ ro_events o ≡ₚ (map_to_list (sr_events r)).*2
  /\ ro_states o ≡ₚ (map_to_list (sr_states r)).*2.

Definition replay_event (L : Lok) (id : bytes) (e : RecordedEvent) : KD unit := loKitCallback L id (re_type e) (re_payload e).

Definition full_invalidation (curPart : Z) : bytes := str "0, 0, 1000000000, 1000000000, " ++ to_string curPart.

(** The messages that follow the view information, and the replay. *)
Definition curPart (L : Lok) : Z := if lk_isText L then 0 else lk_part L.

Definition catch_up (L : Lok) (id : bytes) (o : replay_order) (r : StateRecorder) : KD unit :=
  exec (if lk_isText L then se_ret tt
        else exec send_ id (str "curpart: part=" ++ to_string (curPart L)); send_ id (str "setpart: part=" ++ to_string (curPart L)));
  exec (if sr_invalidate r then loKitCallback L id LOK_CALLBACK_INVALIDATE_TILES (full_invalidation (curPart L)) else se_ret tt);
  exec se_iter (replay_event L id) (ro_viewEvents o);
  exec se_iter (replay_event L id) (ro_events o);
  exec se_iter (loKitCallback L id LOK_CALLBACK_STATE_CHANGED) (ro_states o);
  se_iter (replay_event L id) (sr_eventsVector r).

(** The message [useractive], of [_handleInput]. [getLOKitDocument] throws without a document. *)
Definition useractive (L : Lok) (id : bytes) (o : replay_order) : KD bool :=
  exec set_this id (fun s => s <| ks_lastActivityTime := lk_now L |>);
  do d <- se_get;
  if negb (kd_loKitDocument d) then se_throw runtime_error
  else
    exec set_this id (fun s => s <| ks_isActive := true |>);
    do s <- this id;
    exec kd_emit (SetView (ks_viewId s));
    exec notifyViewInfo js is_json L;
    exec catch_up L id o (ks_stateRecorder s);
    exec set_this id (fun s => s <| ks_stateRecorder ::= sr_clear |>);
    if negb (ks_isDocLoaded s) then (exec send_ id (str "error: cmd=useractive kind=nodocloaded"); se_ret false)
    else se_ret true.

(** The message [userinactive]. *)
Definition userinactive (id : bytes) : KD bool :=
  do s <- this id;
  if negb (ks_isDocLoaded s) then (exec send_ id (str "error: cmd=userinactive kind=nodocloaded"); se_ret false)
  else
    exec set_this id (fun s => s <| ks_isActive := false |>);
    exec trimIfInactive;
    se_ret true.

(** ** All sessions of a document *)

Record KitCallback := { cb_view : Z; cb_type : LokCallback; cb_payload : bytes }.

(** The loop over the sessions for one callback. *)
Fixpoint deliver (L : Lok) (cb : KitCallback) (ids : list bytes) : KD unit :=
  match ids with
  | [] => se_ret tt
  | id :: ids' =>
      do s <- this id;
      let broadcast := cb_view cb =? -1 in
      if broadcast || (ks_viewId s =? cb_view cb) then
        exec (if negb (ks_isCloseFrame s) then loKitCallback L id (cb_type cb) (cb_payload cb) else se_ret tt);
        if broadcast then deliver L cb ids' else se_ret tt
      else deliver L cb ids'
  end.

Definition drainCallbacks (L : Lok) (cbs : list KitCallback) : KD unit :=
  se_iter (fun cb => do ids <- session_ids; deliver L cb ids) cbs.

(** [drainQueue]'s [catch]: an exception ends the process. *)
Definition drainQueue_callbacks (L : Lok) (cbs : list KitCallback) : KD unit := fun d =>
  match drainCallbacks L cbs d with
  | (d', Ok _) => (d', Ok tt)
  | (d', Throw _) => flushAndExit d'
  end.

(** [Session::handleMessage]: exceptions are logged. *)
Definition handle_message (m : KD bool) : KD unit := fun d => ((m d).1, Ok tt).
End callbacks.
