(* ===== verification/KitReplay.v ===== *)
(** * Runs of callbacks, and the recorder

    What a handler of [KitCallbacks] shows a client ([shows]), what of that counts
    ([noted], [about]), that a recorder holds the last callback for every key
    ([record_all_spec], [replay_filter]), and what an inactive session shows and records
    until it has caught up ([inactive_run], [useractive_run]). *)

From S2P Require Import Prelude RecordSet StateError Util StringVector Protocol Rectangle JsonUtil KitSession KitCallbacks.

Open Scope cool_scope.
Open Scope record_scope.

(** ** The frames of a client *)

Definition frames_to (id : bytes) (os : list kit_output) : list bytes :=
  omap (fun o => match o with
                 | SentToServer (ClientFrame i t) => if beq i id then Some t else None
                 | _ => None
                 end) os.

Lemma frames_to_app id os os' : frames_to id (os ++ os') = frames_to id os ++ frames_to id os'.
Proof. apply omap_app. Qed.

Lemma the_session_map f i id d :
  is_Some (find_child id d) ->
  the_session id (map_session f i d) = (if beq i id then f (the_session id d) else the_session id d)
  /\ is_Some (find_child id (map_session f i d)).
Proof.
  unfold the_session, find_child, map_session. simpl. induction (kd_sessions d) as [|[j s] l IH]; simpl; [by intros [? ?]|].
  destruct (beq j i) eqn:Ei; simpl; destruct (beq j id) eqn:Ej; simpl.
  - intros _. apply beq_eq in Ei, Ej. subst. rewrite beq_refl. simpl. eauto.
  - apply beq_eq in Ei. subst. rewrite Ej in *. exact IH.
  - apply beq_eq in Ej. subst. intros _. rewrite beq_neq in Ei.
    assert (beq i id = false) as -> by (apply beq_neq; congruence). simpl. eauto.
  - exact IH.
Qed.

Section shows.
Context (js : JsonLib) (is_json : bytes -> bool).
Context (id : bytes) (N : bytes -> bool).

Definition seen (os : list kit_output) : list bytes := filter (fun t => N t = true) (frames_to id os).

Lemma seen_app os os' : seen (os ++ os') = seen os ++ seen os'.
Proof. unfold seen. by rewrite frames_to_app, filter_app. Qed.

(** What of the session the callbacks of LibreOfficeKit leave alone. *)
Definition core (s : ChildSession) : bool * bool * bool * StateRecorder * bool * bytes :=
  (ks_isActive s, ks_isCloseFrame s, ks_disconnected s, ks_stateRecorder s, ks_isDocLoaded s, ks_docType s).

(** The kit is connected and has its document, the session is one of its sessions, and no
    private information stops the view information. *)
Record good (c : bool * bool * bool * StateRecorder * bool * bytes) (d : Document) : Prop := {
  g_socket : kd_websocketHandler d = true;
  g_process : kd_isBgSaveProcess d = false;
  g_document : kd_loKitDocument d = true;
  g_session : is_Some (find_child id d);
  g_core : core (the_session id d) = c;
  g_private : Forall (fun e => is_ok (private_strings js is_json e.2) = true) (kd_sessions d) }.

(** [m] returns, shows the client the frames [fs], and changes nothing of the above. *)
Definition shows {A} c (m : KD A) (fs : list bytes) : Prop :=
  forall d, good c d -> exists d' a os,
    m d = (d', Ok a) /\ good c d' /\ kd_output d' = kd_output d ++ os /\ seen os = fs.

Lemma steps_ret {A} c (a : A) : shows c (se_ret a) [].
Proof. intros d Hd. exists d, a, []. by rewrite app_nil_r. Qed.

Lemma steps_bind {A B} c (m : KD A) (f : A -> KD B) fs fs' :
  shows c m fs -> (forall a, shows c (f a) fs') -> shows c (se_bind m f) (fs ++ fs').
Proof.
  intros Hm Hf d Hd. destruct (Hm d Hd) as (d1 & a & os & E & H1 & Ho & <-).
  destruct (Hf a d1 H1) as (d2 & b & os' & E' & H2 & Ho' & <-). exists d2, b, (os ++ os').
  rewrite (se_bind_ok _ _ _ _ _ E). split; [done|]. split; [done|]. split; [by rewrite Ho', Ho, app_assoc|apply seen_app].
Qed.

Lemma steps_quiet {A B} c (m : KD A) (f : A -> KD B) fs :
  shows c m [] -> (forall a, shows c (f a) fs) -> shows c (se_bind m f) fs.
Proof. intros Hm Hf. exact (steps_bind _ _ _ _ _ Hm Hf). Qed.
Lemma steps_last {A B} c (m : KD A) (f : A -> KD B) fs :
  shows c m fs -> (forall a, shows c (f a) []) -> shows c (se_bind m f) fs.
Proof. intros Hm Hf. rewrite <- (app_nil_r fs). by apply steps_bind. Qed.

Lemma steps_get {B} c (f : Document -> KD B) fs : (forall d, good c d -> shows c (f d) fs) -> shows c (se_bind se_get f) fs.
Proof. intros Hf d Hd. exact (Hf d Hd d Hd). Qed.
Lemma steps_ids {B} c (f : list bytes -> KD B) fs : (forall l, shows c (f l) fs) -> shows c (se_bind session_ids f) fs.
Proof. intros Hf d Hd. by apply Hf. Qed.
Lemma steps_this {B} c i (f : ChildSession -> KD B) fs : (forall s, shows c (f s) fs) -> shows c (se_bind (this i) f) fs.
Proof. intros Hf d Hd. by apply Hf. Qed.
Lemma steps_this_id {B} c (f : ChildSession -> KD B) fs :
  (forall s, core s = c -> shows c (f s) fs) -> shows c (se_bind (this id) f) fs.
Proof. intros Hf d Hd. apply (Hf (the_session id d)); [apply Hd|done]. Qed.
Lemma steps_lift {A B} c (r : result A) a (f : A -> KD B) fs : r = Ok a -> shows c (f a) fs -> shows c (se_bind (se_lift r) f) fs.
Proof. intros -> Hf. exact Hf. Qed.

(** A change of the document outside of its sessions and its state of connection. *)
Lemma steps_modify c (f : Document -> Document) :
  (forall d, kd_sessions (f d) = kd_sessions d /\ kd_websocketHandler (f d) = kd_websocketHandler d
     /\ kd_isBgSaveProcess (f d) = kd_isBgSaveProcess d /\ kd_loKitDocument (f d) = kd_loKitDocument d
     /\ kd_output (f d) = kd_output d) -> shows c (se_modify f) [].
Proof.
  intros Hf d Hd. destruct (Hf d) as (E1 & E2 & E3 & E4 & E5). exists (f d), tt, [].
  split; [done|]. split; [|by rewrite E5, app_nil_r].
  destruct Hd as [H1 H2 H3 H4 H5 H6]. constructor; unfold the_session, find_child in *; rewrite ?E1; congruence.
Qed.

Lemma steps_set_this c i (f : ChildSession -> ChildSession) :
  (forall s, core (f s) = core s /\ ks_userPrivateInfo (f s) = ks_userPrivateInfo s
     /\ ks_serverPrivateInfo (f s) = ks_serverPrivateInfo s) -> shows c (set_this i f) [].
Proof.
  intros Hf d Hd. exists (map_session f i d), tt, []. split; [done|]. split; [|by rewrite app_nil_r].
  destruct Hd as [H1 H2 H3 H4 H5 H6]. destruct (the_session_map f i id d H4) as [Et Hs]. constructor; try done.
  - rewrite Et. destruct (beq i id); [|done]. by rewrite (proj1 (Hf _)).
  - simpl. apply Forall_map. apply (Forall_impl _ _ _ H6). intros [j s]; simpl. destruct (beq j i); simpl; [|done].
    unfold private_strings. by rewrite (proj1 (proj2 (Hf s))), (proj2 (proj2 (Hf s))).
Qed.

Lemma good_output c d os : good c d -> good c (d <| kd_output ::= fun l => l ++ os |>).
Proof. intros [H1 H2 H3 H4 H5 H6]. by constructor. Qed.

Lemma steps_output c o : (match o with SentToServer _ => false | _ => true end) = true -> shows c (kd_emit o) [].
Proof.
  intros Ho d Hd. exists (d <| kd_output ::= fun l => l ++ [o] |>), tt, [o]. split; [done|].
  split; [by apply good_output|]. split; [done|]. by destruct o.
Qed.

Lemma steps_post c i t : shows c (postMessage (ClientFrame i t)) (if beq i id && N t then [t] else []).
Proof.
  intros d Hd. exists (d <| kd_output ::= fun l => l ++ [SentToServer (ClientFrame i t)] |>), true, [SentToServer (ClientFrame i t)].
  unfold postMessage. rewrite (g_process _ _ Hd), (g_socket _ _ Hd). simpl. split; [done|]. split; [by apply good_output|].
  split; [done|]. unfold seen. simpl. destruct (beq i id); [|done]. simpl. by destruct (N t) eqn:E; rewrite ?filter_cons, ?E.
Qed.

Lemma steps_broker c t : shows c (postMessage (BrokerFrame t)) [].
Proof.
  intros d Hd. exists (d <| kd_output ::= fun l => l ++ [SentToServer (BrokerFrame t)] |>), true, [SentToServer (BrokerFrame t)].
  unfold postMessage. rewrite (g_process _ _ Hd), (g_socket _ _ Hd). simpl. split; [done|]. split; [by apply good_output|done].
Qed.

Lemma steps_send c t fs : (if N t then [t] else []) = fs -> shows c (send_ id t) fs.
Proof. intros <-. apply steps_last; [|intros; apply steps_ret]. pose proof (steps_post c id t) as H. by rewrite beq_refl in H. Qed.
Lemma steps_send_quiet c i t : N t = false -> shows c (send_ i t) [].
Proof.
  intros E. apply steps_last; [|intros; apply steps_ret]. pose proof (steps_post c i t) as H.
  rewrite E, andb_false_r in H. exact H.
Qed.

Lemma steps_iter {A} c (f : A -> KD unit) (fs : A -> list bytes) l :
  (forall a, a ∈ l -> shows c (f a) (fs a)) -> shows c (se_iter f l) (concat (map fs l)).
Proof.
  induction l as [|a l IH]; intros Hf; simpl; [apply steps_ret|].
  apply steps_bind; [apply Hf; left|]. intros _. apply IH. intros b Hb. apply Hf. by right.
Qed.
Lemma steps_iter_quiet {A} c (f : A -> KD unit) l : (forall a, a ∈ l -> shows c (f a) []) -> shows c (se_iter f l) [].
Proof.
  intros Hf. pose proof (steps_iter c f (fun _ => []) l Hf) as H. replace (concat (map _ l)) with (@nil bytes) in H; [done|].
  clear. by induction l.
Qed.
End shows.

(** ** The frames of the callbacks *)

(** What stands before the payload in the frame of a callback that is passed on. *)
Definition frame_prefix (type : LokCallback) : option bytes :=
  match type with
  | LOK_CALLBACK_INVALIDATE_VISIBLE_CURSOR => Some (str "invalidatecursor: ")
  | LOK_CALLBACK_TEXT_SELECTION => Some (str "textselection: ")
  | LOK_CALLBACK_TEXT_SELECTION_START => Some (str "textselectionstart: ")
  | LOK_CALLBACK_TEXT_SELECTION_END => Some (str "textselectionend: ")
  | LOK_CALLBACK_CURSOR_VISIBLE => Some (str "cursorvisible: ")
  | LOK_CALLBACK_GRAPHIC_SELECTION => Some (str "graphicselection: ")
  | LOK_CALLBACK_SHAPE_INNER_TEXT => Some (str "graphicinnertextarea: ")
  | LOK_CALLBACK_CELL_CURSOR => Some (str "cellcursor: ")
  | LOK_CALLBACK_CELL_FORMULA => Some (str "cellformula: ")
  | LOK_CALLBACK_MOUSE_POINTER => Some (str "mousepointer: ")
  | LOK_CALLBACK_HYPERLINK_CLICKED => Some (str "hyperlinkclicked: ")
  | LOK_CALLBACK_SEARCH_NOT_FOUND => Some (str "searchnotfound: ")
  | LOK_CALLBACK_SEARCH_RESULT_SELECTION => Some (str "searchresultselection: ")
  | LOK_CALLBACK_CONTEXT_MENU => Some (str "contextmenu: ")
  | LOK_CALLBACK_INVALIDATE_VIEW_CURSOR => Some (str "invalidateviewcursor: ")
  | LOK_CALLBACK_TEXT_VIEW_SELECTION => Some (str "textviewselection: ")
  | LOK_CALLBACK_CELL_VIEW_CURSOR => Some (str "cellviewcursor: ")
  | LOK_CALLBACK_GRAPHIC_VIEW_SELECTION => Some (str "graphicviewselection: ")
  | LOK_CALLBACK_VIEW_CURSOR_VISIBLE => Some (str "viewcursorvisible: ")
  | LOK_CALLBACK_VIEW_LOCK => Some (str "viewlock: ")
  | LOK_CALLBACK_REDLINE_TABLE_SIZE_CHANGED => Some (str "redlinetablechanged: ")
  | LOK_CALLBACK_REDLINE_TABLE_ENTRY_MODIFIED => Some (str "redlinetablemodified: ")
  | LOK_CALLBACK_COMMENT => Some (str "comment: ")
  | LOK_CALLBACK_INVALIDATE_HEADER => Some (str "invalidateheader: ")
  | LOK_CALLBACK_CELL_ADDRESS => Some (str "celladdress: ")
  | LOK_CALLBACK_RULER_UPDATE => Some (str "hrulerupdate: ")
  | LOK_CALLBACK_VERTICAL_RULER_UPDATE => Some (str "vrulerupdate: ")
  | LOK_CALLBACK_WINDOW => Some (str "window: ")
  | LOK_CALLBACK_VALIDITY_LIST_BUTTON => Some (str "validitylistbutton: ")
  | LOK_CALLBACK_VALIDITY_INPUT_HELP => Some (str "validityinputhelp: ")
  | LOK_CALLBACK_CONTEXT_CHANGED => Some (str "context: ")
  | LOK_CALLBACK_SIGNATURE_STATUS => Some (str "signaturestatus: ")
  | LOK_CALLBACK_CELL_SELECTION_AREA => Some (str "cellselectionarea: ")
  | LOK_CALLBACK_CELL_AUTO_FILL_AREA => Some (str "cellautofillarea: ")
  | LOK_CALLBACK_TABLE_SELECTED => Some (str "tableselected: ")
  | LOK_CALLBACK_REFERENCE_MARKS => Some (str "referencemarks: ")
  | LOK_CALLBACK_JSDIALOG => Some (str "jsdialog: ")
  | LOK_CALLBACK_CALC_FUNCTION_LIST => Some (str "calcfunctionlist: ")
  | LOK_CALLBACK_TAB_STOP_LIST => Some (str "tabstoplistupdate: ")
  | LOK_CALLBACK_FORM_FIELD_BUTTON => Some (str "formfieldbutton: ")
  | LOK_CALLBACK_INVALIDATE_SHEET_GEOMETRY => Some (str "invalidatesheetgeometry: ")
  | LOK_CALLBACK_DOCUMENT_BACKGROUND_COLOR => Some (str "documentbackgroundcolor: ")
  | LOK_CALLBACK_APPLICATION_BACKGROUND_COLOR => Some (str "applicationbackgroundcolor: ")
  | LOK_CALLBACK_MEDIA_SHAPE => Some (str "mediashape: ")
  | LOK_CALLBACK_CONTENT_CONTROL => Some (str "contentcontrol: ")
  | LOK_CALLBACK_PRINT_RANGES => Some (str "printranges: ")
  | LOK_CALLBACK_A11Y_FOCUS_CHANGED => Some (str "a11yfocuschanged: ")
  | LOK_CALLBACK_A11Y_CARET_CHANGED => Some (str "a11ycaretchanged: ")
  | LOK_CALLBACK_A11Y_TEXT_SELECTION_CHANGED => Some (str "a11ytextselectionchanged: ")
  | LOK_CALLBACK_A11Y_FOCUSED_CELL_CHANGED => Some (str "a11yfocusedcellchanged: ")
  | LOK_CALLBACK_COLOR_PALETTES => Some (str "colorpalettes: ")
  | LOK_CALLBACK_A11Y_EDITING_IN_SELECTION_STATE => Some (str "a11yeditinginselectionstate: ")
  | LOK_CALLBACK_A11Y_SELECTION_CHANGED => Some (str "a11yselectionchanged: ")
  | LOK_CALLBACK_CORE_LOG => Some (str "corelog: ")
  | LOK_CALLBACK_TOOLTIP => Some (str "tooltip: ")
  | _ => None
  end.

(** A state the client is told as it is. *)
Definition plain_state (payload : bytes) : bool :=
  negb (beq payload (str ".uno:NotesMode=true") || beq payload (str ".uno:NotesMode=false")
        || beq payload (str ".uno:RedlineRenderMode=true") || beq payload (str ".uno:RedlineRenderMode=false"))
  && negb (contains payload (str ".uno:ModifiedStatus")) && negb (contains payload (str ".uno:CurrentPageResize"))
  && negb (contains payload (str ".uno:PageZoomChange")).

(** The session of a document of type [dt], as far as an invalidation looks at it. *)
Definition of_type (dt : bytes) : ChildSession := ChildSession_new 0 <| ks_docType := dt |>.

(** The frames of a callback that carry its payload. *)
Definition plain_frames (L : Lok) (dt : bytes) (type : LokCallback) (payload : bytes) : list bytes :=
  match type with
  | LOK_CALLBACK_STATE_CHANGED => if plain_state payload then [str "statechanged: " ++ payload] else []
  | LOK_CALLBACK_INVALIDATE_TILES =>
      match invalidation_text L (of_type dt) payload with Ok msg => [msg] | Throw _ => [] end
  | _ => match frame_prefix type with Some p => [p ++ payload] | None => [] end
  end.

(** The names of all other frames. *)
Definition other_names : list bytes :=
  [str "editor: "; str "viewinfo: "; str "status: "; str "partstatus:"; str "statusupdate: "; str "changepagezoom:";
   str "setpart: "; str "curpart: "; str "unocommandresult: "; str "error: "; str "progress: "; str "clipboardchanged: ";
   str "fontsmissing: "; str "blockui: "; str "unblockui: "; str "exportas: "; str "downloadas: "].

Fixpoint strip (p t : bytes) : option bytes :=
  match p, t with
  | [], _ => Some t
  | x :: p', y :: t' => if x =? y then strip p' t' else None
  | _, [] => None
  end.
Definition has_prefix (p t : bytes) : bool := match strip p t with Some _ => true | None => false end.
Definition is_other (t : bytes) : bool := existsb (fun n => has_prefix n t) other_names.

Lemma strip_app p t : strip p (p ++ t) = Some t.
Proof. induction p as [|x p IH]; simpl; [done|]. by rewrite Z.eqb_refl. Qed.
Lemma strip_eq p t r : strip p t = Some r -> t = p ++ r.
Proof.
  revert t. induction p as [|x p IH]; intros [|y t]; simpl; try congruence.
  destruct (Z.eqb_spec x y); [|done]. intros H. subst. by rewrite (IH t H).
Qed.

(** What of the callbacks lasts for a client, written out apart from the code: of cursors,
    selections, sizes, headers and the focus the last counts; of the cursors, selections
    and locks of the other views the last for each view; of the states the last for each
    name; and of comments and tracked changes all of them. *)
Inductive lasting := Last | LastOfView | LastOfName | Every | Passing.

Definition lasts (type : LokCallback) : lasting :=
  match type with
  | LOK_CALLBACK_INVALIDATE_VISIBLE_CURSOR | LOK_CALLBACK_CURSOR_VISIBLE | LOK_CALLBACK_CELL_CURSOR
  | LOK_CALLBACK_TEXT_SELECTION | LOK_CALLBACK_TEXT_SELECTION_START | LOK_CALLBACK_TEXT_SELECTION_END
  | LOK_CALLBACK_GRAPHIC_SELECTION | LOK_CALLBACK_CELL_FORMULA | LOK_CALLBACK_CELL_ADDRESS
  | LOK_CALLBACK_DOCUMENT_SIZE_CHANGED | LOK_CALLBACK_INVALIDATE_HEADER | LOK_CALLBACK_INVALIDATE_SHEET_GEOMETRY
  | LOK_CALLBACK_REFERENCE_MARKS | LOK_CALLBACK_A11Y_FOCUS_CHANGED | LOK_CALLBACK_A11Y_CARET_CHANGED
  | LOK_CALLBACK_A11Y_TEXT_SELECTION_CHANGED => Last
  | LOK_CALLBACK_INVALIDATE_VIEW_CURSOR | LOK_CALLBACK_VIEW_CURSOR_VISIBLE | LOK_CALLBACK_CELL_VIEW_CURSOR
  | LOK_CALLBACK_TEXT_VIEW_SELECTION | LOK_CALLBACK_GRAPHIC_VIEW_SELECTION | LOK_CALLBACK_VIEW_LOCK => LastOfView
  | LOK_CALLBACK_STATE_CHANGED => LastOfName
  | LOK_CALLBACK_COMMENT | LOK_CALLBACK_REDLINE_TABLE_SIZE_CHANGED | LOK_CALLBACK_REDLINE_TABLE_ENTRY_MODIFIED => Every
  | _ => Passing
  end.

(** The recorder remembers that. *)
Lemma remembers_lasts c :
  remembers c = match lasts c with
                | Last => REvent | LastOfView => RViewEvent | LastOfName => RState | Every => RSequence
                | Passing => if bool_decide (c = LOK_CALLBACK_INVALIDATE_TILES) then RInvalidate else RNothing
                end.
Proof. by destruct c. Qed.

(** A callback whose payload can be read. *)
Definition callback_ok (js : JsonLib) (L : Lok) (dt : bytes) (type : LokCallback) (payload : bytes) : bool :=
  match type with
  | LOK_CALLBACK_INVALIDATE_TILES => is_ok (invalidation_text L (of_type dt) payload)
  | LOK_CALLBACK_INVALIDATE_VISIBLE_CURSOR | LOK_CALLBACK_INVALIDATE_VIEW_CURSOR | LOK_CALLBACK_CELL_VIEW_CURSOR =>
      is_ok (rbind (json_rectangle js payload) rect_parse)
  | LOK_CALLBACK_CELL_CURSOR => is_ok (rect_parse payload)
  | LOK_CALLBACK_UNO_COMMAND_RESULT =>
      match js_parse js payload with
      | Some o => match js_get js o (str "commandName") with
                  | Some v => bool_decide (is_Some (js_string js v))
                  | None => true
                  end
      | None => false
      end
  | LOK_CALLBACK_ERROR =>
      is_ok (try o <- json_object js payload; try _ <- object_text js o (str "cmd");
             try _ <- object_text js o (str "kind"); object_text js o (str "code"))
  | LOK_CALLBACK_EXPORT_FILE =>
      beq payload (str "PENDING") || beq payload (str "ABORT") || beq payload (str "ERROR")
      || bool_decide (is_Some (find_last_of 47 payload))
  | _ => true
  end
  && match lasts type with LastOfView => is_ok (json_viewId js payload) | _ => true end.

Section switch.
Context (js : JsonLib) (is_json : bytes -> bool) (uri_encode : bytes -> bytes).
Context (id : bytes) (N : bytes -> bool) (L : Lok).
Hypothesis N_other : forall t, is_other t = true -> N t = false.
Hypothesis N_modified : forall payload, contains payload (str ".uno:ModifiedStatus") = true -> N (str "statechanged: " ++ payload) = false.

#[local] Abbreviation steps := (shows js is_json id N).

Lemma quiet_send c i t : is_other t = true -> steps c (send_ i t) [].
Proof. intros Hn. apply steps_send_quiet. by apply N_other. Qed.
Lemma quiet_frame c i t : is_other t = true -> steps c (sendTextFrame i t) [].
Proof. intros Hn. pose proof (steps_post js is_json id N c i t) as H. by rewrite (N_other _ Hn), andb_false_r in H. Qed.

Ltac step :=
  lazymatch goal with
  | |- shows _ _ _ _ _ (se_ret _) _ => apply steps_ret
  | |- shows _ _ _ _ _ (kd_emit _) _ => apply steps_output; reflexivity
  | |- shows _ _ _ _ _ (postMessage (BrokerFrame _)) _ => apply steps_broker
  | |- shows _ _ _ _ _ (set_this _ _) _ => apply steps_set_this; intros; split; [|split]; reflexivity
  | |- shows _ _ _ _ _ (se_modify _) _ => apply steps_modify; intros; repeat split; reflexivity
  | |- shows _ _ _ _ _ (setSpeed _ _) _ => apply steps_modify; intros; repeat split; reflexivity
  | |- shows _ _ _ _ _ (setUpdatedAt _ _) _ => apply steps_modify; intros; repeat split; reflexivity
  | |- shows _ _ _ _ _ (set_modified _) _ => apply steps_modify; intros; repeat split; reflexivity
  | |- shows _ _ _ _ _ (se_bind se_get _) _ => apply steps_get; intros ?d ?Hd
  | |- shows _ _ _ _ _ (se_bind session_ids _) _ => apply steps_ids; intros ?l
  | |- shows _ _ _ _ _ (se_bind (this _) _) _ => apply steps_this; intros ?s
  | |- shows _ _ _ _ _ (if ?b then _ else _) _ => destruct b eqn:?
  | |- shows _ _ _ _ _ (send_ _ _) [] => apply quiet_send; reflexivity
  | |- shows _ _ _ _ _ (sendTextFrame _ _) [] => apply quiet_frame; reflexivity
  | |- shows _ _ _ _ _ (se_bind _ _) [] => apply steps_quiet; [|intros ?a]
  end.
Ltac walk := repeat step.

Lemma steps_getSpeed c i : steps c (getSpeed L i) [].
Proof. unfold getSpeed. walk. Qed.

Lemma steps_speed_loop c v ids : forall m f, steps c (speed_loop L v ids m f) [].
Proof.
  induction ids as [|i ids IH]; intros m f; simpl; [step|]. do 3 step; [step|]. step.
  - step; [|step]. step; [apply steps_getSpeed|]. walk.
  - do 2 step; apply IH.
Qed.

Lemma steps_updateEditorSpeeds c v speed : steps c (updateEditorSpeeds L v speed) [].
Proof.
  unfold updateEditorSpeeds. walk. all: try (apply steps_speed_loop). destruct a1 as [m f]. walk.
  apply steps_iter_quiet. intros i _. step.
Qed.

Lemma steps_updateSpeed c i : steps c (updateSpeed L i) [].
Proof. unfold updateSpeed. walk. apply steps_updateEditorSpeeds. Qed.
Lemma steps_getStatus c : steps c (getStatus L id) [].
Proof. unfold getStatus. walk. Qed.
Lemma steps_getPartStatus c : steps c (getPartStatus L id) [].
Proof. unfold getPartStatus. walk. Qed.
Lemma steps_progress c a b e : steps c (sendProgressFrame id a b e) [].
Proof. unfold sendProgressFrame. walk. Qed.

Lemma steps_updateCursorPosition c payload : is_ok (rect_parse payload) = true -> steps c (updateCursorPosition id payload) [].
Proof.
  unfold updateCursorPosition. destruct (rect_parse payload) as [r|e] eqn:E; [intros _|done].
  eapply steps_lift; [done|]. walk.
Qed.
Lemma steps_updateCursorPositionJSON c payload :
  is_ok (rbind (json_rectangle js payload) rect_parse) = true -> steps c (updateCursorPositionJSON js id payload) [].
Proof.
  unfold updateCursorPositionJSON. destruct (json_rectangle js payload) as [r|e]; [simpl|done].
  intros Hr. eapply steps_lift; [done|]. by apply steps_updateCursorPosition.
Qed.

Lemma steps_track c payload : steps c (trackDocModifiedState payload) [].
Proof. unfold trackDocModifiedState. step. destruct (kd_modified d); walk. Qed.

Lemma steps_stateChanged c payload :
  steps c (stateChanged L id payload) (filter (fun t => N t = true) (plain_frames L [] LOK_CALLBACK_STATE_CHANGED payload)).
Proof.
  unfold stateChanged, plain_frames, plain_state. destruct (_ || _ || _ || _); cbn [negb andb]; [rewrite filter_nil; step|].
  destruct (contains payload (str ".uno:ModifiedStatus")) eqn:E; cbn [negb andb].
  { rewrite filter_nil. step; [apply steps_track|]. step; [step|]. apply steps_send_quiet, N_modified, E. }
  destruct (contains payload (str ".uno:CurrentPageResize")); cbn [negb andb].
  { rewrite filter_nil. step; [apply steps_getPartStatus|step]. }
  destruct (contains payload (str ".uno:PageZoomChange")); cbn [negb andb]; [rewrite filter_nil; step|].
  apply steps_send. rewrite filter_cons, filter_nil. by destruct (N _).
Qed.

Lemma steps_setPart c payload : steps c (setPart L id payload) [].
Proof. unfold setPart. step; [|step]. destruct (getTokenInteger _ _) as [[p|] [|]]; walk. Qed.
Lemma steps_clipboardChanged c payload : steps c (clipboardChanged id payload) [].
Proof. unfold clipboardChanged. walk. Qed.
Lemma steps_fontsMissing c payload : steps c (fontsMissing L id payload) [].
Proof. unfold fontsMissing. walk. Qed.
Lemma steps_handleSaveMessage c : steps c handleSaveMessage [].
Proof. unfold handleSaveMessage. step. rewrite (g_process _ _ _ _ _ Hd). step. Qed.

Lemma steps_unoCommandResult c dt payload :
  callback_ok js L dt LOK_CALLBACK_UNO_COMMAND_RESULT payload = true -> steps c (unoCommandResult js id payload) [].
Proof.
  unfold unoCommandResult, callback_ok, json_object. cbn -[str]. destruct (js_parse js payload) as [o|]; [|done].
  intros Hok. eapply steps_lift; [done|]. destruct (js_get js o _) as [v|]; [destruct (js_string js v) as [t|]; [|done]|].
  all: eapply steps_lift; [done|]; walk; apply steps_handleSaveMessage.
Qed.

Lemma steps_callbackError c dt payload :
  callback_ok js L dt LOK_CALLBACK_ERROR payload = true -> steps c (callbackError js id payload) [].
Proof.
  unfold callbackError, callback_ok. cbn -[str]. destruct (json_object js payload) as [o|]; [cbn -[str]|done].
  destruct (object_text js o (str "cmd")) eqn:E1; [cbn -[str]|done]. destruct (object_text js o (str "kind")) eqn:E2; [cbn -[str]|done].
  destruct (object_text js o (str "code")) eqn:E3; [|done]. intros _. do 4 (eapply steps_lift; [done|]). walk.
Qed.

Lemma steps_exportFile c dt payload :
  callback_ok js L dt LOK_CALLBACK_EXPORT_FILE payload = true -> steps c (exportFile uri_encode L id payload) [].
Proof.
  unfold exportFile, callback_ok. cbn -[str]. intros Hok. step.
  destruct (beq payload (str "PENDING")); [step; [step|intros; apply steps_progress]|].
  destruct (beq payload (str "ABORT")); [step; [step|intros; apply steps_progress]|].
  step; [step|]. step; [apply steps_progress|]. destruct (beq payload (str "ERROR")); [walk|]. step; [walk|].
  destruct (find_last_of 47 payload); [|done]. walk.
Qed.

Lemma invalidatetiles_type s dt payload :
  ks_docType s = dt -> invalidation_text L s payload = invalidation_text L (of_type dt) payload.
Proof. intros <-. reflexivity. Qed.

(** What a callback shows an active session's client. *)
Lemma steps_switch c dt type payload :
  c.2 = dt -> callback_ok js L dt type payload = true ->
  steps c (callback_switch js uri_encode L id type payload) (filter (fun t => N t = true) (plain_frames L dt type payload)).
Proof.
  intros Hdt Hok.
  assert (forall t, steps c (send_ id t) (filter (fun t => N t = true) [t])) as Hsend
    by (intros t; apply steps_send; rewrite filter_cons, filter_nil; by destruct (N t)).
  destruct type; try apply Hsend; try (apply steps_ret).
  all: pose proof Hok as Hok'; unfold callback_ok in Hok'; cbn -[str] in Hok'; rewrite ?andb_true_r in Hok'.
  all: try (apply andb_true_iff in Hok' as [Hok' _]).
  all: try (apply steps_quiet; [apply steps_updateCursorPositionJSON; exact Hok'|intros; apply Hsend]).
  - apply steps_this_id. intros s Hs. cbn [plain_frames]. rewrite (invalidatetiles_type s dt) by (rewrite <- Hdt, <- Hs; done).
    destruct (invalidation_text L (of_type dt) payload) as [m|]; [|done]. eapply steps_lift; [done|]. apply Hsend.
  - apply steps_quiet; [apply steps_updateSpeed|]. intros _.
    apply steps_quiet; [by apply steps_updateCursorPositionJSON|]. intros _. apply Hsend.
  - apply steps_quiet; [by apply steps_updateCursorPosition|]. intros _. apply Hsend.
  - apply steps_stateChanged.
  - apply steps_last; [apply steps_getStatus|]. intros. step.
  - apply steps_setPart.
  - by apply (steps_unoCommandResult c dt).
  - by apply (steps_callbackError c dt).
  - apply steps_progress.
  - apply steps_progress.
  - apply steps_progress.
  - apply steps_last; [apply Hsend|]. intros _. step; [apply steps_getStatus|step].
  - apply steps_clipboardChanged.
  - apply steps_fontsMissing.
  - by apply (steps_exportFile c dt).
Qed.
End switch.

(** ** What a client knows

    A client that counts is told the last value for each key, and every event of a
    sequence. *)

Inductive key := KEvent (c : LokCallback) | KView (viewId : Z) (c : LokCallback) | KState (name : bytes) | KSequence.

#[global] Instance key_eq_dec : EqDecision key.
Proof. solve_decision. Defined.

(** What a callback is the last value of. *)
Definition key_of (js : JsonLib) (e : RecordedEvent) : option key :=
  match lasts (re_type e) with
  | Last => Some (KEvent (re_type e))
  | LastOfView => match json_viewId js (re_payload e) with Ok v => Some (KView v (re_type e)) | Throw _ => None end
  | LastOfName => match parseNameValuePair (re_payload e) chr_eq with Some (n, _) => Some (KState n) | None => None end
  | Every => Some KSequence
  | Passing => None
  end.

Definition is_recorded (c : LokCallback) : bool :=
  match lasts c with Last | LastOfView | Every => true | _ => false end.

Fixpoint first_callback (cs : list LokCallback) (t : bytes) : option RecordedEvent :=
  match cs with
  | [] => None
  | c :: cs' =>
      match (if is_recorded c then frame_prefix c else None) with
      | Some p =>
          match strip p t with
          | Some payload => Some {| re_type := c; re_payload := payload |}
          | None => first_callback cs' t
          end
      | None => first_callback cs' t
      end
  end.

(** The callback a frame passes on, if that lasts; the modified
    state is apart, as the document tracks it for all sessions. *)
Definition frame_callback (t : bytes) : option RecordedEvent :=
  match first_callback lok_callbacks t with
  | Some e => Some e
  | None =>
      match strip (str "statechanged: ") t with
      | Some payload =>
          if contains payload (str ".uno:ModifiedStatus") then None
          else Some {| re_type := LOK_CALLBACK_STATE_CHANGED; re_payload := payload |}
      | None => None
      end
  end.

Definition noted (t : bytes) : bool := match frame_callback t with Some _ => true | None => false end.
Definition about (js : JsonLib) (k : key) (t : bytes) : bool :=
  match frame_callback t with Some e => bool_decide (key_of js e = Some k) | None => false end.

Lemma noted_other t : is_other t = true -> noted t = false.
Proof.
  unfold is_other. rewrite existsb_exists. intros (n & Hn & Ht). unfold has_prefix in Ht.
  destruct (strip n t) as [r|] eqn:E; [|done]. apply strip_eq in E as ->.
  unfold other_names in Hn. repeat (destruct Hn as [<-|Hn]; [reflexivity|]). destruct Hn.
Qed.

Lemma noted_modified payload :
  contains payload (str ".uno:ModifiedStatus") = true -> noted (str "statechanged: " ++ payload) = false.
Proof.
  intros E. unfold noted, frame_callback. replace (first_callback _ _) with (@None RecordedEvent) by reflexivity.
  rewrite strip_app, E. reflexivity.
Qed.

Lemma frame_callback_recorded c p payload :
  is_recorded c = true -> frame_prefix c = Some p -> frame_callback (p ++ payload) = Some {| re_type := c; re_payload := payload |}.
Proof. destruct c; try discriminate; intros _; intros [= <-]; reflexivity. Qed.
Lemma noted_not_recorded c p payload : is_recorded c = false -> frame_prefix c = Some p -> noted (p ++ payload) = false.
Proof. destruct c; try discriminate; intros _; intros [= <-]; reflexivity. Qed.
Lemma frame_callback_state payload :
  plain_state payload = true ->
  frame_callback (str "statechanged: " ++ payload) = Some {| re_type := LOK_CALLBACK_STATE_CHANGED; re_payload := payload |}.
Proof.
  unfold plain_state. intros H. unfold frame_callback. replace (first_callback _ _) with (@None RecordedEvent) by reflexivity.
  rewrite strip_app. destruct (contains payload (str ".uno:ModifiedStatus")); [|done].
  rewrite andb_false_r in H. done.
Qed.

Lemma invalidatetiles_name L s payload m : invalidation_text L s payload = Ok m -> has_prefix (str "invalidatetiles:") m = true.
Proof.
  unfold invalidation_text. intros H.
  repeat match type of H with
  | context [if ?b then _ else _] => destruct b
  | context [match invalidate_numbers ?s ?t with _ => _ end] => destruct (invalidate_numbers s t) as [[[[[[? ?] ?] ?] ?] ?]|[]]
  end; try discriminate; injection H as <-; reflexivity.
Qed.

Section knowledge.
Context (js : JsonLib) (L : Lok) (dt : bytes).

(** The frames of a callback that count. *)
Definition own (e : RecordedEvent) : list bytes :=
  filter (fun t => noted t = true) (plain_frames L dt (re_type e) (re_payload e)).

Lemma own_cases e : own e = [] \/ exists f, own e = [f] /\ frame_callback f = Some e.
Proof.
  assert (forall f, frame_callback f = Some e -> filter (fun t => noted t = true) [f] = [f]) as Hf.
  { intros f E. rewrite filter_cons, filter_nil. unfold noted. rewrite E. done. }
  assert (forall f, noted f = false -> filter (fun t => noted t = true) [f] = []) as Hn.
  { intros f E. rewrite filter_cons, filter_nil, E. done. }
  destruct e as [c payload]. unfold own. cbn [re_type re_payload].
  assert (forall p, frame_prefix c = Some p -> filter (fun t => noted t = true) [p ++ payload] = [] \/
    exists f, filter (fun t => noted t = true) [p ++ payload] = [f] /\ frame_callback f = Some {| re_type := c; re_payload := payload |}) as Hp.
  { intros p Ep. destruct (is_recorded c) eqn:Ec.
    - right. exists (p ++ payload). pose proof (frame_callback_recorded c p payload Ec Ep) as H. split; [by apply Hf|done].
    - left. apply Hn. by apply (noted_not_recorded c). }
  destruct c; try (by left); try (by apply Hp).
  - left. unfold plain_frames. destruct (invalidation_text L (of_type dt) payload) as [m|] eqn:E; [|done].
    apply Hn. apply invalidatetiles_name in E. unfold has_prefix in E. destruct (strip _ m) eqn:Em; [|done].
    apply strip_eq in Em as ->. reflexivity.
  - unfold plain_frames. destruct (plain_state payload) eqn:E; [|by left]. right. eexists.
    split; [apply Hf|]; by apply frame_callback_state.
Qed.

(** Of all that lasts, only a new size is not told with its payload, and states that are
    not plain. *)
Lemma own_told e :
  lasts (re_type e) <> Passing -> re_type e <> LOK_CALLBACK_DOCUMENT_SIZE_CHANGED ->
  (re_type e = LOK_CALLBACK_STATE_CHANGED -> plain_state (re_payload e) = true) -> own e <> [].
Proof.
  destruct e as [c payload]. cbn [re_type re_payload]. intros Hl Hs Hp.
  assert (forall f, frame_callback f = Some {| re_type := c; re_payload := payload |} ->
    plain_frames L dt c payload = [f] -> own {| re_type := c; re_payload := payload |} <> []) as Hf.
  { intros f Ef El. unfold own. cbn [re_type re_payload]. rewrite El, filter_cons, filter_nil. unfold noted. by rewrite Ef. }
  destruct (is_recorded c) eqn:Er.
  - assert (exists p, frame_prefix c = Some p /\ plain_frames L dt c payload = [p ++ payload]) as (p & Ep & El)
      by (destruct c; try discriminate; try done; by eexists).
    apply (Hf _ (frame_callback_recorded c p payload Er Ep) El).
  - assert (c = LOK_CALLBACK_STATE_CHANGED) as -> by (destruct c; done).
    apply (Hf _ (frame_callback_state payload (Hp eq_refl))). unfold plain_frames. by rewrite Hp.
Qed.

Definition keyed (k : key) (e : RecordedEvent) : Prop := key_of js e = Some k.
#[global] Instance keyed_dec k e : Decision (keyed k e).
Proof. unfold keyed. apply _. Defined.

Lemma keyed_lasts k e : keyed k e -> lasts (re_type e) <> Passing.
Proof. unfold keyed, key_of. by destruct (lasts (re_type e)). Qed.
Lemma keyed_type k e c : keyed k e -> re_type e = c -> lasts c = Last -> k = KEvent c.
Proof. unfold keyed, key_of. intros H <- E. rewrite E in H. by injection H as <-. Qed.

(** The frames about a key are those of the callbacks with that key. *)
Lemma filter_about k l :
  filter (fun t => about js k t = true) (concat (map own l)) = concat (map own (filter (keyed k) l)).
Proof.
  induction l as [|e l IH]; simpl; [done|]. rewrite filter_app, IH, filter_cons.
  destruct (own_cases e) as [E|(f & E & Ef)]; rewrite E.
  - destruct (decide (keyed k e)); simpl; [by rewrite E|done].
  - assert (about js k f = bool_decide (keyed k e)) as Ha by (unfold about; by rewrite Ef).
    rewrite filter_cons, filter_nil, Ha. destruct (decide (keyed k e)) as [H|H].
    + rewrite bool_decide_eq_true_2 by done. simpl. rewrite E. done.
    + rewrite bool_decide_eq_false_2 by done. done.
Qed.

Lemma last_own l e : last l = Some e -> own e <> [] -> last (concat (map own l)) = last (own e).
Proof.
  intros Hl He. destruct l as [|x l' _] using rev_ind; [done|].
  rewrite last_snoc in Hl. injection Hl as ->. rewrite map_app, concat_app. simpl. rewrite app_nil_r.
  destruct (own_cases e) as [E|(f & E & _)]; [done|]. rewrite E. by rewrite !last_snoc.
Qed.
End knowledge.

(** ** The recorder *)

Definition state_event (payload : bytes) : RecordedEvent := {| re_type := LOK_CALLBACK_STATE_CHANGED; re_payload := payload |}.

(** The recorder as one map from keys. *)
Definition recorded_at (r : StateRecorder) (k : key) : option RecordedEvent :=
  match k with
  | KEvent c => sr_events r !! c
  | KView v c => default ∅ (sr_viewEvents r !! v) !! c
  | KState n => state_event <$> sr_states r !! n
  | KSequence => None
  end.

(** The callbacks in the order in which they are replayed. *)
Definition replay_list (o : replay_order) (r : StateRecorder) : list RecordedEvent :=
  ro_viewEvents o ++ ro_events o ++ map state_event (ro_states o) ++ sr_eventsVector r.

Section recorder.
Context (js : JsonLib).

#[local] Abbreviation keyed := (keyed js).

Fixpoint record_all (l : list RecordedEvent) (r : StateRecorder) : result StateRecorder :=
  match l with
  | [] => Ok r
  | e :: l' => try r' <- remember js (re_type e) (re_payload e) r; record_all l' r'
  end.

Lemma lasts_name c : lasts c = LastOfName -> c = LOK_CALLBACK_STATE_CHANGED.
Proof. by destruct c. Qed.

Lemma has_key_if {A} e q k (a b : A) :
  key_of js e = q -> (if decide (keyed k e) then a else b) = (if decide (q = Some k) then a else b).
Proof.
  intros <-. destruct (decide (keyed k e)) as [H|H], (decide (key_of js e = Some k)) as [H'|H']; [done| | |done].
  - by destruct H'.
  - by destruct H.
Qed.

(** The recorder after [e] was put at the key [q]. *)
Definition put_at (e : RecordedEvent) (q : option key) (r r' : StateRecorder) : Prop :=
  (forall k, k <> KSequence -> recorded_at r' k = if decide (q = Some k) then Some e else recorded_at r k)
  /\ sr_eventsVector r' = sr_eventsVector r ++ (if decide (q = Some KSequence) then [e] else [])
  /\ sr_invalidate r' = sr_invalidate r.

Lemma put_event c p r : put_at {| re_type := c; re_payload := p |} (Some (KEvent c)) r (recordEvent c p r).
Proof.
  split; [|split]; [|simpl; by rewrite app_nil_r|done]. intros k Hk. destruct k as [c'|v c'|n|]; simpl; try done.
  destruct (decide (Some (KEvent c) = Some (KEvent c'))) as [[= ->]|Hn]; [by rewrite lookup_insert_eq|].
  rewrite lookup_insert_ne; [done|congruence].
Qed.
Lemma put_view v c p r : put_at {| re_type := c; re_payload := p |} (Some (KView v c)) r (recordViewEvent v c p r).
Proof.
  split; [|split]; [|simpl; by rewrite app_nil_r|done]. intros k Hk. destruct k as [c'|v' c'|n|]; simpl; try done.
  destruct (decide (Some (KView v c) = Some (KView v' c'))) as [[= -> ->]|Hn].
  { rewrite lookup_insert_eq. simpl. by rewrite lookup_insert_eq. }
  destruct (decide (v = v')) as [->|]; [|by rewrite lookup_insert_ne].
  rewrite lookup_insert_eq. simpl. rewrite lookup_insert_ne; [done|congruence].
Qed.
Lemma put_state n p r : put_at (state_event p) (Some (KState n)) r (recordState n p r).
Proof.
  split; [|split]; [|simpl; by rewrite app_nil_r|done]. intros k Hk. destruct k as [c'|v' c'|n'|]; simpl; try done.
  destruct (decide (Some (KState n) = Some (KState n'))) as [[= ->]|Hn]; [by rewrite lookup_insert_eq|].
  rewrite lookup_insert_ne; [done|congruence].
Qed.
Lemma put_sequence c p r : put_at {| re_type := c; re_payload := p |} (Some KSequence) r (recordEventSequence c p r).
Proof. split; [|done]. intros k Hk. destruct (decide _) as [[=]|]; [congruence|]. by destruct k. Qed.
Lemma put_nothing e r : put_at e None r r.
Proof. split; [|split]; [|simpl; by rewrite app_nil_r|done]. intros k Hk. by destruct (decide _). Qed.

Lemma put_invalidate e r : re_type e <> LOK_CALLBACK_INVALIDATE_TILES ->
  sr_invalidate r = sr_invalidate r || bool_decide (re_type e = LOK_CALLBACK_INVALIDATE_TILES).
Proof. intros H. by rewrite bool_decide_eq_false_2, orb_false_r. Qed.

Lemma remember_put e r r' :
  remember js (re_type e) (re_payload e) r = Ok r' ->
  (re_type e = LOK_CALLBACK_INVALIDATE_TILES /\ r' = recordInvalidate r) \/
  (re_type e <> LOK_CALLBACK_INVALIDATE_TILES /\ put_at e (key_of js e) r r').
Proof.
  destruct e as [c p]. unfold remember, key_of. cbn [re_type re_payload]. rewrite remembers_lasts.
  destruct (decide (c = LOK_CALLBACK_INVALIDATE_TILES)) as [->|Hc]; [intros [= <-]; by left|].
  rewrite (bool_decide_eq_false_2 _ Hc). destruct (lasts c) eqn:Ec.
  - intros [= <-]. right. split; [done|apply put_event].
  - destruct (json_viewId js p) as [v|]; [|done]. intros [= <-]. right. split; [done|apply put_view].
  - apply lasts_name in Ec as ->. destruct (parseNameValuePair p chr_eq) as [[n v]|]; intros [= <-]; right.
    + split; [done|apply put_state].
    + split; [done|apply put_nothing].
  - intros [= <-]. right. split; [done|apply put_sequence].
  - intros [= <-]. right. split; [done|apply put_nothing].
Qed.

Lemma remember_spec e r r' :
  remember js (re_type e) (re_payload e) r = Ok r' ->
  (forall k, k <> KSequence -> recorded_at r' k = if decide (keyed k e) then Some e else recorded_at r k)
  /\ sr_eventsVector r' = sr_eventsVector r ++ (if decide (keyed KSequence e) then [e] else [])
  /\ sr_invalidate r' = sr_invalidate r || bool_decide (re_type e = LOK_CALLBACK_INVALIDATE_TILES).
Proof.
  intros H. destruct (remember_put e r r' H) as [[E ->]|[E (H1 & H2 & H3)]].
  - assert (key_of js e = None) as Hk by (unfold key_of; by rewrite E). rewrite (has_key_if e None) by done.
    simpl. rewrite app_nil_r, E, orb_true_r. split; [|done]. intros k _. rewrite (has_key_if e None) by done.
    destruct k; done.
  - rewrite (has_key_if e (key_of js e)) by done. rewrite <- put_invalidate by done.
    split; [|done]. intros k Hk. rewrite (has_key_if e (key_of js e)) by done. by apply H1.
Qed.

Lemma record_all_spec l : forall r r', record_all l r = Ok r' ->
  (forall k, k <> KSequence ->
     recorded_at r' k = match last (filter (keyed k) l) with Some e => Some e | None => recorded_at r k end)
  /\ sr_eventsVector r' = sr_eventsVector r ++ filter (keyed KSequence) l
  /\ sr_invalidate r' = sr_invalidate r || existsb (fun e => bool_decide (re_type e = LOK_CALLBACK_INVALIDATE_TILES)) l.
Proof.
  induction l as [|e l IH]; intros r r'; simpl.
  { intros [= <-]. by rewrite app_nil_r, orb_false_r. }
  destruct (remember js (re_type e) (re_payload e) r) as [r1|] eqn:E; [simpl|done].
  intros H. destruct (remember_spec e r r1 E) as (H1 & H2 & H3). destruct (IH r1 r' H) as (I1 & I2 & I3).
  split; [|split].
  - intros k Hk. rewrite I1, H1 by done. rewrite filter_cons.
    destruct (decide (keyed k e)); [|done]. rewrite last_cons. by destruct (last (filter (keyed k) l)).
  - rewrite I2, H2, filter_cons, <- app_assoc. by destruct (decide (keyed KSequence e)).
  - by rewrite I3, H3, orb_assoc.
Qed.

(** What is recorded is recorded under its key. *)
Definition recorder_ok (r : StateRecorder) : Prop :=
  (forall k e, recorded_at r k = Some e -> keyed k e) /\ Forall (keyed KSequence) (sr_eventsVector r).

Lemma record_all_ok l r : record_all l StateRecorder_new = Ok r -> recorder_ok r.
Proof.
  intros H. destruct (record_all_spec l _ _ H) as (H1 & H2 & _). split.
  - intros k e He. destruct (decide (k = KSequence)) as [->|Hk]; [done|]. rewrite H1 in He by done.
    destruct (last (filter (keyed k) l)) as [x|] eqn:Ex.
    + injection He as ->. apply last_Some_elem_of in Ex. by apply list_elem_of_filter in Ex as [? _].
    + destruct k as [| v c| |]; simpl in He; done.
  - rewrite H2. apply Forall_forall. intros e He. by apply list_elem_of_filter in He as [? _].
Qed.

Lemma filter_other_key k l : (forall e, e ∈ l -> exists k', keyed k' e /\ k' <> k) -> filter (keyed k) l = [].
Proof.
  intros Hl. destruct (filter (keyed k) l) as [|e l'] eqn:E; [done|]. exfalso.
  assert (e ∈ filter (keyed k) l) as He by (rewrite E; left). apply list_elem_of_filter in He as [Hk He].
  destruct (Hl e He) as (k' & Hk' & Hn). unfold KitReplay.keyed in *. congruence.
Qed.

Lemma perm_option {A} (l : list A) (o : option A) : l ≡ₚ option_list o -> l = option_list o.
Proof. destruct o; simpl; intros H; [by apply Permutation_singleton_r|by apply Permutation_nil_r]. Qed.

(** The values of a map, of which each has the key of its place. *)
Lemma filter_values `{Countable K} {A} (m : gmap K A) (f : A -> RecordedEvent) (kf : K -> key) l i :
  (forall i j, kf i = kf j -> i = j) -> (forall i x, m !! i = Some x -> keyed (kf i) (f x)) ->
  l ≡ₚ map f (map_to_list m).*2 -> filter (keyed (kf i)) l = option_list (f <$> m !! i).
Proof.
  intros Hinj Hm Hl.
  assert (forall m' : gmap K A, (forall j x, m' !! j = Some x -> m !! j = Some x /\ j <> i) ->
    filter (keyed (kf i)) (map f (map_to_list m').*2) = []) as Hrest.
  { intros m' Hm'. apply filter_other_key. intros e He. rewrite <- list_fmap_compose in He.
    apply list_elem_of_fmap in He as ([j x] & -> & Hj). apply elem_of_map_to_list in Hj. simpl.
    destruct (Hm' j x Hj) as [Hx Hn]. exists (kf j). split; [by apply Hm|]. intros E. by apply Hn, Hinj. }
  apply perm_option. rewrite Hl. destruct (m !! i) as [x|] eqn:Ei; simpl.
  - rewrite <- (insert_delete_id m i x Ei) at 1. rewrite map_to_list_insert by apply lookup_delete_eq. simpl.
    rewrite filter_cons_True by (by apply Hm). rewrite Hrest; [done|].
    intros j y Hj. apply lookup_delete_Some in Hj as [? ?]. done.
  - rewrite Hrest; [done|]. intros j y Hj. split; [done|]. by intros ->; congruence.
Qed.
End recorder.

Section replay.
Context (js : JsonLib).

#[local] Abbreviation keyed := (keyed js).

Lemma recorded_views_key r e :
  recorder_ok js r -> e ∈ recorded_viewEvents r -> exists v c, recorded_at r (KView v c) = Some e.
Proof.
  intros _ He. unfold recorded_viewEvents in He. apply list_elem_of_In, in_concat in He as (l & Hl & He).
  apply in_map_iff in Hl as ([v m] & <- & Hm). apply list_elem_of_In in He, Hm.
  apply elem_of_map_to_list in Hm. apply list_elem_of_fmap in He as ([c e'] & -> & Hc). apply elem_of_map_to_list in Hc.
  exists v, c. simpl in *. by rewrite Hm.
Qed.

Lemma filter_views r v c l :
  recorder_ok js r -> l ≡ₚ recorded_viewEvents r -> filter (keyed (KView v c)) l = option_list (recorded_at r (KView v c)).
Proof.
  intros [Hr _] Hl.
  assert (forall m' : gmap Z (gmap LokCallback RecordedEvent), (forall w x, m' !! w = Some x -> sr_viewEvents r !! w = Some x /\ w <> v) ->
    filter (keyed (KView v c)) (concat (map (fun e => (map_to_list e.2).*2) (map_to_list m'))) = []) as Hrest.
  { intros m' Hm'. apply filter_other_key. intros e He. apply list_elem_of_In, in_concat in He as (l' & Hl' & He).
    apply in_map_iff in Hl' as ([w m] & <- & Hm). apply list_elem_of_In in He, Hm. apply elem_of_map_to_list in Hm.
    apply list_elem_of_fmap in He as ([c' e'] & -> & Hc). apply elem_of_map_to_list in Hc. simpl in *.
    destruct (Hm' w m Hm) as [Hw Hn]. exists (KView w c'). split; [|congruence]. apply Hr. simpl. by rewrite Hw. }
  apply perm_option. rewrite Hl. simpl. destruct (sr_viewEvents r !! v) as [m|] eqn:Ev; simpl.
  - unfold recorded_viewEvents. rewrite <- (insert_delete_id (sr_viewEvents r) v m Ev).
    rewrite map_to_list_insert by apply lookup_delete_eq. simpl. rewrite filter_app, Hrest, app_nil_r.
    + rewrite (filter_values js m (fun e => e) (KView v) ((map_to_list m).*2) c); [by destruct (m !! c)|congruence| |by rewrite map_id].
      intros i x Hi. apply Hr. simpl. by rewrite Ev.
    + intros w x Hw. apply lookup_delete_Some in Hw as [? ?]. done.
  - rewrite lookup_empty. simpl. unfold recorded_viewEvents. rewrite Hrest; [done|].
    intros w x Hw. split; [done|]. intros ->. congruence.
Qed.

(** The parts of the replay have keys of their kinds. *)
Lemma replay_parts r o :
  recorder_ok js r -> replays r o ->
  (forall e, e ∈ ro_viewEvents o -> exists v c, keyed (KView v c) e)
  /\ (forall e, e ∈ ro_events o -> exists c, keyed (KEvent c) e)
  /\ (forall e, e ∈ map state_event (ro_states o) -> exists n, keyed (KState n) e)
  /\ (forall e, e ∈ sr_eventsVector r -> keyed KSequence e).
Proof.
  intros Hok (Hv & He & Hs). pose proof Hok as [Hr Hq]. rewrite Forall_forall in Hq. split; [|split; [|split; [|exact Hq]]].
  - intros e Hin. rewrite Hv in Hin. destruct (recorded_views_key r e Hok Hin) as (v & c & H). eauto.
  - intros e Hin. rewrite He in Hin. apply list_elem_of_fmap in Hin as ([c e'] & -> & Hc). apply elem_of_map_to_list in Hc.
    exists c. apply Hr, Hc.
  - intros e Hin. apply list_elem_of_fmap in Hin as (p & -> & Hp). rewrite Hs in Hp.
    apply list_elem_of_fmap in Hp as ([n p'] & -> & Hn). apply elem_of_map_to_list in Hn. exists n. apply Hr. simpl in *. by rewrite Hn.
Qed.

(** For every key the last callback is replayed, and nothing else. *)
Lemma replay_filter r o k :
  recorder_ok js r -> replays r o -> k <> KSequence -> filter (keyed k) (replay_list o r) = option_list (recorded_at r k).
Proof.
  intros Hok Ho Hk. destruct (replay_parts r o Hok Ho) as (Kv & Ke & Ks & Kq). destruct Ho as (Hv & He & Hs).
  pose proof Hok as [Hr _]. unfold replay_list. rewrite !filter_app.
  rewrite (filter_other_key js k (sr_eventsVector r)), app_nil_r by eauto.
  destruct k as [c|v c|n|]; [| | |done].
  - rewrite (filter_other_key js _ (ro_viewEvents o)), (filter_other_key js _ (map state_event (ro_states o))), app_nil_r, app_nil_l.
    + rewrite (filter_values js (sr_events r) (fun e => e) KEvent); [by simpl; destruct (_ !! _)|congruence| |by rewrite map_id].
      intros i x Hi. by apply Hr.
    + intros e Hin. destruct (Ks e Hin) as [n Hn]. eauto.
    + intros e Hin. destruct (Kv e Hin) as (v & c' & Hn). eauto.
  - rewrite (filter_other_key js _ (ro_events o)), (filter_other_key js _ (map state_event (ro_states o))), !app_nil_r.
    + by apply filter_views.
    + intros e Hin. destruct (Ks e Hin) as [n Hn]. eauto.
    + intros e Hin. destruct (Ke e Hin) as (c' & Hn). eauto.
  - rewrite (filter_other_key js _ (ro_viewEvents o)), (filter_other_key js _ (ro_events o)), !app_nil_l.
    + apply (filter_values js (sr_states r) state_event KState); [congruence| |].
      * intros i x Hi. apply Hr. simpl. by rewrite Hi.
      * by apply Permutation_map.
    + intros e Hin. destruct (Ke e Hin) as [n' Hn]. eauto.
    + intros e Hin. destruct (Kv e Hin) as (v & c' & Hn). eauto.
Qed.

Lemma replay_filter_sequence r o :
  recorder_ok js r -> replays r o -> filter (keyed KSequence) (replay_list o r) = sr_eventsVector r.
Proof.
  intros Hok Ho. destruct (replay_parts r o Hok Ho) as (Kv & Ke & Ks & Kq). unfold replay_list. rewrite !filter_app.
  rewrite (filter_other_key js _ (ro_viewEvents o)), (filter_other_key js _ (ro_events o)),
    (filter_other_key js _ (map state_event (ro_states o))).
  - simpl. induction (sr_eventsVector r) as [|e l IH]; [done|]. rewrite filter_cons_True by (apply Kq; left).
    rewrite IH; [done|]. intros x Hx. apply Kq. by right.
  - intros e Hin. destruct (Ks e Hin) as [n Hn]. eauto.
  - intros e Hin. destruct (Ke e Hin) as (c & Hn). eauto.
  - intros e Hin. destruct (Kv e Hin) as (v & c & Hn). eauto.
Qed.
End replay.

(** ** Runs of callbacks *)

Lemma std_stoi_to_string n : is_i32 n -> std_stoi (to_string n) = Ok n.
Proof.
  intros Hn. unfold std_stoi. rewrite strtol_to_string by (int_unfold; lia). simpl.
  by rewrite bool_decide_eq_true_2.
Qed.

Lemma full_invalidation_tokens n :
  sv_strings (tokenize (full_invalidation n) chr_comma) =
    [str "0"; str " 0"; str " 1000000000"; str " 1000000000"; str " " ++ to_string n].
Proof.
  assert (plain chr_comma (str " " ++ to_string n)) as Hp.
  { split; [done|]. constructor; [done|]. apply Forall_forall. intros c Hc.
    apply to_string_chars in Hc as [->|Hc]; [done|]. unfold isdigit in Hc. bool_hyps. unfold chr_comma, chr_newline. lia. }
  unfold full_invalidation. revert Hp. generalize (to_string n). intros t Hp. rewrite tokenize_strings by done.
  replace (str "0, 0, 1000000000, 1000000000, " ++ t)
    with (str "0" ++ join_with chr_comma [str " 0"; str " 1000000000"; str " 1000000000"; str " " ++ t])
    by (rewrite <- (app_nil_r t) at 2; reflexivity).
  apply tokens_spec_join; [done|by repeat constructor|].
  repeat (apply Forall_cons_2; [by repeat constructor|]). apply Forall_cons_2; [exact Hp|apply Forall_nil_2].
Qed.

(** Everything of the current part, or of a text document, is invalidated. *)
Lemma full_invalidation_frame L s n :
  is_i32 n -> invalidation_text L s (full_invalidation n) =
    Ok (invalidate_frame L (if beq (ks_docType s) (str "text") then 0 else n, 0, 0, 0, 1000000000, 1000000000)).
Proof.
  intros Hn. unfold invalidation_text, invalidate_numbers. rewrite sv_size_strings, !sv_get_strings, full_invalidation_tokens.
  change (std_stoi (default [] ([str "0"; str " 0"; str " 1000000000"; str " 1000000000"; str " " ++ to_string n] !! 4%nat)))
    with (std_stoi (to_string n)).
  rewrite std_stoi_to_string by done. destruct (beq (ks_docType s) (str "text")); reflexivity.
Qed.

Section runs.
Context (js : JsonLib) (is_json : bytes -> bool) (uri_encode : bytes -> bytes).
Context (id : bytes) (N : bytes -> bool) (L : Lok) (dt : bytes).
Hypothesis N_other : forall t, is_other t = true -> N t = false.
Hypothesis N_modified : forall payload, contains payload (str ".uno:ModifiedStatus") = true -> N (str "statechanged: " ++ payload) = false.
Hypothesis part_fits : is_i32 (lk_part L).

#[local] Abbreviation good := (good js is_json id).
#[local] Abbreviation steps := (shows js is_json id N).
#[local] Abbreviation seen := (seen id N).

(** The frames of a callback that are looked at. *)
Definition sees (e : RecordedEvent) : list bytes := filter (fun t => N t = true) (plain_frames L dt (re_type e) (re_payload e)).
Definition callback_wf (e : RecordedEvent) : Prop := callback_ok js L dt (re_type e) (re_payload e) = true.

Lemma steps_active r ld e :
  callback_wf e -> steps (true, false, false, r, ld, dt) (replay_event js uri_encode L id e) (sees e).
Proof.
  intros He. apply steps_this_id. intros s Hs. unfold core in Hs. injection Hs as E1 E2 E3 E4 E5 E6. rewrite E1, E2, E3. simpl.
  by apply steps_switch.
Qed.

Lemma steps_active_all r ld l :
  Forall callback_wf l -> steps (true, false, false, r, ld, dt) (se_iter (replay_event js uri_encode L id) l) (concat (map sees l)).
Proof. intros Hl. apply steps_iter. intros e He. apply steps_active. rewrite Forall_forall in Hl. by apply Hl. Qed.

Lemma good_set c c' (f : ChildSession -> ChildSession) d :
  good c d -> (forall s, core s = c -> core (f s) = c') ->
  (forall s, ks_userPrivateInfo (f s) = ks_userPrivateInfo s /\ ks_serverPrivateInfo (f s) = ks_serverPrivateInfo s) ->
  good c' (map_session f id d).
Proof.
  intros [H1 H2 H3 H4 H5 H6] Hc Hp. destruct (the_session_map f id id d H4) as [Et Hs]. rewrite beq_refl in Et. constructor; try done.
  - rewrite Et. by apply Hc.
  - simpl. apply Forall_map. apply (Forall_impl _ _ _ H6). intros [j s]; simpl. destruct (beq j id); simpl; [|done].
    unfold private_strings. by rewrite (proj1 (Hp s)), (proj2 (Hp s)).
Qed.

(** An inactive session records, and shows what passes. *)
Lemma inactive_step r r' ld e d :
  callback_wf e -> good (false, false, false, r, ld, dt) d -> remember js (re_type e) (re_payload e) r = Ok r' ->
  exists d' os, replay_event js uri_encode L id e d = (d', Ok tt) /\ good (false, false, false, r', ld, dt) d'
    /\ kd_output d' = kd_output d ++ os /\ seen os = if passes_inactive (re_type e) (re_payload e) then sees e else [].
Proof.
  intros He Hd Hr. pose proof (g_core _ _ _ _ _ Hd) as Hc. unfold core in Hc. injection Hc as E1 E2 E3 E4 E5 E6.
  set (d1 := map_session (fun s => s <| ks_stateRecorder := r' |>) id d).
  assert (good (false, false, false, r', ld, dt) d1) as Hd1.
  { apply (good_set _ _ _ _ Hd); [|done]. intros s Hs. unfold core in *. simpl. congruence. }
  assert (replay_event js uri_encode L id e d =
    (if passes_inactive (re_type e) (re_payload e) then callback_switch js uri_encode L id (re_type e) (re_payload e) else se_ret tt) d1) as ->.
  { unfold replay_event, loKitCallback, this, rememberEventsForInactiveUser. unfold se_bind at 1. rewrite E1, E2, E3. simpl.
    unfold se_bind at 1, this. unfold se_bind at 1. rewrite E4. unfold se_bind at 1, se_lift. rewrite Hr. reflexivity. }
  destruct (passes_inactive _ _).
  - destruct (steps_switch js is_json uri_encode id N L N_other N_modified (false, false, false, r', ld, dt) dt _ _ eq_refl He d1 Hd1) as (d' & [] & os & E & H).
    exists d', os. split; [exact E|]. exact H.
  - exists d1, []. by rewrite app_nil_r.
Qed.

Definition passed (e : RecordedEvent) : list bytes := if passes_inactive (re_type e) (re_payload e) then sees e else [].

Lemma inactive_run l : forall r r' ld d,
  Forall callback_wf l -> good (false, false, false, r, ld, dt) d -> record_all js l r = Ok r' ->
  exists d' os, se_iter (replay_event js uri_encode L id) l d = (d', Ok tt) /\ good (false, false, false, r', ld, dt) d'
    /\ kd_output d' = kd_output d ++ os /\ seen os = concat (map passed l).
Proof.
  induction l as [|e l IH]; intros r r' ld d Hl Hd Hr; simpl in *.
  { injection Hr as <-. exists d, []. by rewrite app_nil_r. }
  apply Forall_cons_1 in Hl as [He Hl]. destruct (remember js (re_type e) (re_payload e) r) as [r1|] eqn:E; [simpl in Hr|done].
  destruct (inactive_step r r1 ld e d He Hd E) as (d1 & os1 & E1 & H1 & O1 & S1).
  destruct (IH r1 r' ld d1 Hl H1 Hr) as (d2 & os2 & E2 & H2 & O2 & S2). exists d2, (os1 ++ os2).
  rewrite (se_bind_ok _ _ _ _ _ E1). split; [exact E2|]. split; [exact H2|]. split; [by rewrite O2, O1, app_assoc|].
  by rewrite seen_app, S1, S2.
Qed.

(** ** The message [useractive] *)

Lemma entries_ok d s l :
  is_ok (private_strings js is_json s) = true -> is_ok (viewinfo_entries js is_json L d s l) = true.
Proof.
  intros Hs. induction l as [|v l IH]; simpl; [done|]. destruct (v =? ks_viewId s).
  - destruct (private_strings js is_json s); [simpl|done]. by destruct (viewinfo_entries _ _ _ _ _ _).
  - simpl. by destruct (viewinfo_entries _ _ _ _ _ _).
Qed.

Lemma private_ok c d i : good c d -> is_ok (private_strings js is_json (the_session i d)) = true.
Proof.
  intros Hd. pose proof (g_private _ _ _ _ _ Hd) as Hp. unfold the_session, find_child.
  destruct (List.find _ _) as [[j s]|] eqn:E; [simpl|reflexivity]. apply find_some in E as [Hin _].
  rewrite Forall_forall in Hp. apply list_elem_of_In in Hin. apply (Hp _ Hin).
Qed.

Lemma steps_notifyViewInfo c : steps c (notifyViewInfo js is_json L) [].
Proof.
  apply steps_ids. intros ids. apply steps_iter_quiet. intros i _. apply steps_get. intros d Hd.
  unfold viewinfo_message. pose proof (entries_ok d (the_session i d) (kd_views d) (private_ok c d i Hd)) as Hok.
  destruct (viewinfo_entries _ _ _ _ _ _) as [m|]; [|done]. eapply steps_lift; [done|].
  apply steps_send_quiet, N_other. reflexivity.
Qed.

Lemma curPart_fits : is_i32 (curPart L).
Proof. unfold curPart. destruct (lk_isText L); [int_unfold; lia|done]. Qed.

Definition whole_invalidation : RecordedEvent := {| re_type := LOK_CALLBACK_INVALIDATE_TILES; re_payload := full_invalidation (curPart L) |}.

Lemma invalidation_ok : callback_wf whole_invalidation.
Proof.
  unfold callback_wf, callback_ok. cbn [re_type re_payload whole_invalidation]. rewrite full_invalidation_frame by apply curPart_fits. done.
Qed.

Lemma steps_catch_up o r ld :
  Forall callback_wf (replay_list o r) ->
  steps (true, false, false, r, ld, dt) (catch_up js uri_encode L id o r)
    ((if sr_invalidate r then sees whole_invalidation else []) ++ concat (map sees (replay_list o r))).
Proof.
  unfold replay_list. rewrite !Forall_app. intros (Hv & He & Hs & Hq). unfold catch_up. apply steps_quiet.
  { destruct (lk_isText L); [apply steps_ret|]. apply steps_quiet; [|intros _]; apply steps_send_quiet, N_other; reflexivity. }
  intros _. apply steps_bind.
  { destruct (sr_invalidate r); [|apply steps_ret]. apply (steps_active r ld whole_invalidation), invalidation_ok. }
  intros _. rewrite !map_app, !concat_app. apply steps_bind; [by apply steps_active_all|]. intros _.
  apply steps_bind; [by apply steps_active_all|]. intros _. apply steps_bind; [|intros _; by apply steps_active_all].
  rewrite map_map. apply (steps_iter js is_json id N _ _ (fun p => sees (state_event p))). intros p Hp.
  apply (steps_active r ld (state_event p)). rewrite Forall_map, Forall_forall in Hs. by apply Hs.
Qed.

Lemma useractive_run o a r ld d :
  good (a, false, false, r, ld, dt) d -> Forall callback_wf (replay_list o r) ->
  exists d' os, useractive js is_json uri_encode L id o d = (d', Ok ld) /\ good (true, false, false, StateRecorder_new, ld, dt) d'
    /\ kd_output d' = kd_output d ++ os
    /\ seen os = (if sr_invalidate r then sees whole_invalidation else []) ++ concat (map sees (replay_list o r)).
Proof.
  intros Hd Ho. unfold useractive.
  set (d0 := map_session (fun s => s <| ks_lastActivityTime := lk_now L |>) id d).
  assert (good (a, false, false, r, ld, dt) d0) as Hd0 by (by apply (good_set _ _ _ _ Hd)).
  rewrite (se_bind_ok _ _ d d0 tt) by done. rewrite (se_bind_ok _ _ d0 d0 d0) by done.
  rewrite (g_document _ _ _ _ _ Hd0). cbn [negb].
  set (d1 := map_session (fun s => s <| ks_isActive := true |>) id d0).
  assert (good (true, false, false, r, ld, dt) d1) as Hd1.
  { apply (good_set _ _ _ _ Hd0); [|done]. intros s Hs. unfold core in *. simpl. congruence. }
  rewrite (se_bind_ok _ _ d0 d1 tt) by done. rewrite (se_bind_ok _ _ d1 d1 (the_session id d1)) by done.
  pose proof (g_core _ _ _ _ _ Hd1) as Hc. unfold core in Hc. injection Hc as _ _ _ E4 E5 _. rewrite E4, E5.
  set (d2 := d1 <| kd_output ::= fun l => l ++ [SetView (ks_viewId (the_session id d1))] |>).
  assert (good (true, false, false, r, ld, dt) d2) as Hd2 by (by apply good_output).
  rewrite (se_bind_ok _ _ d1 d2 tt) by done.
  destruct (steps_notifyViewInfo _ d2 Hd2) as (d3 & [] & os1 & Ev & Hd3 & O1 & S1). rewrite (se_bind_ok _ _ _ _ _ Ev).
  destruct (steps_catch_up o r ld Ho d3 Hd3) as (d4 & [] & os2 & Er & Hd4 & O2 & S2). rewrite (se_bind_ok _ _ _ _ _ Er).
  set (d5 := map_session (fun s => s <| ks_stateRecorder ::= sr_clear |>) id d4).
  assert (good (true, false, false, StateRecorder_new, ld, dt) d5) as Hd5.
  { apply (good_set _ _ _ _ Hd4); [|done]. intros s Hs. unfold core, sr_clear in *. simpl. congruence. }
  rewrite (se_bind_ok _ _ d4 d5 tt) by done.
  assert (kd_output d5 = kd_output d ++ SetView (ks_viewId (the_session id d1)) :: os1 ++ os2) as O5.
  { change (kd_output d5) with (kd_output d4). rewrite O2, O1. change (kd_output d2) with (kd_output d ++ [SetView (ks_viewId (the_session id d1))]).
    by rewrite <- !app_assoc. }
  assert (seen (SetView (ks_viewId (the_session id d1)) :: os1 ++ os2) =
    (if sr_invalidate r then sees whole_invalidation else []) ++ concat (map sees (replay_list o r))) as S5.
  { change (seen (os1 ++ os2) = (if sr_invalidate r then sees whole_invalidation else []) ++ concat (map sees (replay_list o r))).
    by rewrite seen_app, S1, S2. }
  destruct ld; cbn [negb]; [by eauto 10|].
  assert (steps (true, false, false, StateRecorder_new, false, dt)
    (exec send_ id (str "error: cmd=useractive kind=nodocloaded"); se_ret false) []) as Hs.
  { apply steps_quiet; [|intros; apply steps_ret]. apply steps_send_quiet, N_other. reflexivity. }
  destruct (Hs d5 Hd5) as (d6 & b & os3 & E6 & Hd6 & O6 & S6). exists d6, ((SetView (ks_viewId (the_session id d1)) :: os1 ++ os2) ++ os3).
  split; [|split; [done|split; [by rewrite O6, O5, <- app_assoc|by rewrite seen_app, S5, S6, app_nil_r]]].
  rewrite E6. revert E6. unfold se_bind, se_ret. destruct (send_ _ _ d5) as [? [?|?]]; simpl; congruence.
Qed.
End runs.
