(* ===== verification/KitCallbacksSpec.v ===== *)
(** * What a client learns from the callbacks of the kit

    Theorems on [KitCallbacks]: a session whose user was away ends up telling its client
    what it would have told it all along ([inactive_session_catches_up],
    [missed_invalidation_replayed]), and what is lost or wrong on the way. *)

From S2P Require Import Prelude RecordSet StateError Util StringVector Protocol Rectangle JsonUtil KitSession KitCallbacks KitReplay.

Open Scope cool_scope.
Open Scope record_scope.

Section session.
Context (js : JsonLib) (is_json : bytes -> bool) (uri_encode : bytes -> bytes).
Context (id : bytes) (L : Lok) (dt : bytes).

#[local] Abbreviation run := (se_iter (replay_event js uri_encode L id)).
#[local] Abbreviation callback_wf := (callback_wf js L dt).
#[local] Abbreviation own := (own L dt).

Definition set_active (b : bool) : Document -> Document := map_session (fun s => s <| ks_isActive := b |>) id.

(** [d] is connected and has the session, which is open, and has recorded nothing. *)
Definition ready (ld : bool) (d : Document) : Prop := exists a, good js is_json id (a, false, false, StateRecorder_new, ld, dt) d.

Lemma ready_active b ld d : ready ld d -> good js is_json id (b, false, false, StateRecorder_new, ld, dt) (set_active b d).
Proof.
  intros [a Hd]. apply (good_set js is_json id _ _ _ _ Hd); [|done]. intros s Hs. unfold core in *. simpl. congruence.
Qed.

Lemma remember_ok e r : callback_wf e -> exists r', remember js (re_type e) (re_payload e) r = Ok r'.
Proof.
  intros He. unfold KitReplay.callback_wf, callback_ok in He. apply andb_true_iff in He as [_ He]. unfold remember.
  rewrite remembers_lasts. destruct (lasts (re_type e)); eauto.
  - destruct (json_viewId js (re_payload e)) as [v|]; [simpl; eauto|done].
  - destruct (parseNameValuePair _ _) as [[? ?]|]; eauto.
  - destruct (bool_decide _); eauto.
Qed.

Lemma record_all_total l : forall r, Forall callback_wf l -> exists r', record_all js l r = Ok r'.
Proof.
  induction l as [|e l IH]; intros r Hl; simpl; [eauto|]. apply Forall_cons_1 in Hl as [He Hl].
  destruct (remember_ok e r He) as [r1 ->]. simpl. by apply IH.
Qed.

Lemma recorded_new k : recorded_at StateRecorder_new k = None.
Proof. by destruct k. Qed.

(** Only callbacks that came are replayed. *)
Lemma replayed_came l r o e :
  record_all js l StateRecorder_new = Ok r -> replays r o -> e ∈ replay_list o r -> e ∈ l.
Proof.
  intros Hr Ho He. pose proof (record_all_ok js l r Hr) as Hok. destruct (record_all_spec js l _ _ Hr) as (H1 & H2 & _).
  destruct (replay_parts js r o Hok Ho) as (Kv & Ke & Ks & Kq).
  assert (forall k, k <> KSequence -> keyed js k e -> e ∈ l) as Hk.
  { intros k Hk Hke. assert (e ∈ filter (keyed js k) (replay_list o r)) as Hin by (by apply list_elem_of_filter).
    rewrite (replay_filter js r o k Hok Ho Hk), H1 in Hin by done.
    destruct (last (filter (keyed js k) l)) as [x|] eqn:Ex.
    - simpl in Hin. apply list_elem_of_singleton in Hin as ->. apply last_Some_elem_of in Ex. by apply list_elem_of_filter in Ex as [_ ?].
    - rewrite recorded_new in Hin. by apply elem_of_nil in Hin. }
  unfold replay_list in He. rewrite !elem_of_app in He. destruct He as [He|[He|[He|He]]].
  - destruct (Kv e He) as (v & c & H). eapply Hk; [|exact H]; done.
  - destruct (Ke e He) as (c & H). eapply Hk; [|exact H]; done.
  - destruct (Ks e He) as (n & H). eapply Hk; [|exact H]; done.
  - rewrite H2 in He. simpl in He. by apply list_elem_of_filter in He as [_ ?].
Qed.

(** Apart from the modified state, no callback speaks of it. *)
Definition speaks_of_modified (e : RecordedEvent) : bool :=
  negb (bool_decide (re_type e = LOK_CALLBACK_STATE_CHANGED)) && contains (re_payload e) (str ".uno:ModifiedStatus").

Lemma passed_own e : speaks_of_modified e = false -> passed noted L dt e = [].
Proof.
  unfold speaks_of_modified, passed, passes_inactive. destruct e as [c p]. cbn [re_type re_payload]. intros H.
  destruct (contains p (str ".uno:ModifiedStatus")) eqn:E.
  - rewrite andb_true_r, negb_false_iff, bool_decide_eq_true in H. subst c. rewrite orb_true_r.
    unfold sees. cbn [re_type re_payload plain_frames]. unfold plain_state. by rewrite E, andb_false_r.
  - rewrite orb_false_r. destruct (decide (c = LOK_CALLBACK_UNO_COMMAND_RESULT)) as [->|Hc].
    + unfold sees. cbn [re_type re_payload plain_frames frame_prefix]. rewrite filter_nil.
      clear H. by destruct (_ && _).
    + by rewrite (bool_decide_eq_false_2 _ Hc).
Qed.

Lemma filter_about_seen k os : filter (fun t => about js k t = true) (frames_to id os) = filter (fun t => about js k t = true) (seen id noted os).
Proof.
  unfold seen. rewrite list_filter_filter. apply list_filter_iff. intros t. unfold about, noted.
  destruct (frame_callback t); split; [by intros H|by intros [? ?]|done|by intros [? ?]].
Qed.

(** What counts of a list of callbacks depends on the last callback per key. *)
Lemma last_about k l l' :
  (forall e, e ∈ l -> keyed js k e -> own e <> []) -> last (filter (keyed js k) l) = last (filter (keyed js k) l') ->
  last (filter (fun t => about js k t = true) (concat (map own l))) = last (filter (fun t => about js k t = true) (concat (map own l'))).
Proof.
  intros Hown Hl. rewrite !filter_about. destruct (last (filter (keyed js k) l)) as [e|] eqn:E.
  - assert (own e <> []) as He.
    { apply last_Some_elem_of, list_elem_of_filter in E as [Hk He]. by apply Hown. }
    by rewrite (last_own L dt _ e E He), (last_own L dt _ e (eq_sym Hl) He).
  - apply last_None in E. symmetry in Hl. apply last_None in Hl. by rewrite E, Hl.
Qed.

(** C7 (refinement): inactivity costs a client nothing that lasts. Take callbacks that
    LibreOfficeKit makes for a session of a connected document, with nothing recorded
    yet and private information of the users that can be read; callbacks whose
    payloads can be read ([callback_ok]) and, but for state changes, do not mention
    [.uno:ModifiedStatus]. Compare the document with the session active and with it
    inactive. Both runs end without an exception; then, in whatever order the
    recorder's hash maps are walked, the message [useractive] is handled too, and by
    its end the client of the inactive session was told last what the other client
    was told last of each kind of event of which the last one counts and, for each
    view, of each kind of view event ([lasts] lists them), and of each named state, if
    its changes are told as they are ([plain_state]); and of comments and tracked
    changes it was told every one in order. A new size of the document is told as a
    status and is left out here, and invalidations are those of the next property; the
    modified state is left out, as it is sent to inactive sessions too and an old one may
    be replayed ([stale_modified_state_replayed]); and what does not last (progress,
    dialogs, results of commands and so on) is not made up for. *)
Theorem inactive_session_catches_up d ld cbs :
  ready ld d -> is_i32 (lk_part L) -> Forall callback_wf cbs -> Forall (fun e => speaks_of_modified e = false) cbs ->
  exists da oa di oi,
    run cbs (set_active true d) = (da, Ok tt) /\ kd_output da = kd_output d ++ oa
    /\ run cbs (set_active false d) = (di, Ok tt) /\ kd_output di = kd_output d ++ oi
    /\ forall o, replays (ks_stateRecorder (the_session id di)) o ->
       exists d' ou, useractive js is_json uri_encode L id o di = (d', Ok ld) /\ kd_output d' = kd_output d ++ oi ++ ou
         /\ (forall k, k <> KSequence -> k <> KEvent LOK_CALLBACK_DOCUMENT_SIZE_CHANGED ->
               (forall e, e ∈ cbs -> keyed js k e -> re_type e = LOK_CALLBACK_STATE_CHANGED -> plain_state (re_payload e) = true) ->
               last (filter (fun t => about js k t = true) (frames_to id (oi ++ ou))) =
               last (filter (fun t => about js k t = true) (frames_to id oa)))
         /\ filter (fun t => about js KSequence t = true) (frames_to id (oi ++ ou)) =
            filter (fun t => about js KSequence t = true) (frames_to id oa).
Proof.
  intros Hd Hpart Hok Hmod.
  destruct (steps_active_all js is_json uri_encode id noted L dt noted_other noted_modified StateRecorder_new ld cbs Hok
    _ (ready_active true ld d Hd)) as (da & [] & oa & Ea & Hda & Oa & Sa).
  destruct (record_all_total cbs StateRecorder_new Hok) as [r Hr].
  destruct (inactive_run js is_json uri_encode id noted L dt noted_other noted_modified cbs StateRecorder_new r ld
    _ Hok (ready_active false ld d Hd) Hr) as (di & oi & Ei & Hdi & Oi & Si).
  exists da, oa, di, oi. split; [exact Ea|]. split; [exact Oa|]. split; [exact Ei|]. split; [exact Oi|].
  pose proof (g_core _ _ _ _ _ Hdi) as Hc. unfold core in Hc. injection Hc as _ _ _ E _ _. rewrite E. intros o Ho.
  assert (Forall callback_wf (replay_list o r)) as Hro.
  { apply Forall_forall. intros e He. rewrite Forall_forall in Hok. by apply Hok, (replayed_came cbs r o). }
  destruct (useractive_run js is_json uri_encode id noted L dt noted_other noted_modified Hpart o false r ld di Hdi Hro)
    as (d' & ou & Eu & _ & Ou & Su). exists d', ou. split; [exact Eu|]. split; [by rewrite Ou, Oi, <- app_assoc|].
  assert (seen id noted (oi ++ ou) = concat (map own (replay_list o r))) as S.
  { rewrite seen_app, Si, Su. replace (concat (map _ cbs)) with (@nil bytes).
    2: { clear -Hmod. induction Hmod as [|e l He _ IH]; simpl; [done|]. by rewrite passed_own, <- IH. }
    assert (sees noted L dt (whole_invalidation L) = []) as ->; [|by destruct (sr_invalidate r)].
    unfold sees. cbn [re_type re_payload whole_invalidation plain_frames]. rewrite full_invalidation_frame by by apply curPart_fits.
    reflexivity. }
  pose proof (record_all_ok js cbs r Hr) as Hrec. destruct (record_all_spec js cbs _ _ Hr) as (H1 & H2 & _).
  split.
  - intros k Hk Hsize Hplain. rewrite !filter_about_seen, S, Sa. symmetry. apply (last_about k cbs).
    { intros e He Hke. apply own_told; [by eapply keyed_lasts| |by apply Hplain].
      intros Et. by apply Hsize, (keyed_type js k e). }
    rewrite (replay_filter js r o k Hrec Ho Hk), H1 by done. destruct (last (filter (keyed js k) cbs)); [done|].
    by rewrite recorded_new.
  - rewrite !filter_about_seen, S, Sa. change (sees noted L dt) with own. rewrite !filter_about.
    by rewrite (replay_filter_sequence js r o Hrec Ho), H2.
Qed.
End session.

(** ** Invalidations *)

Definition is_invalidation (t : bytes) : bool := has_prefix (str "invalidatetiles:") t.

Lemma invalidation_other t : is_other t = true -> is_invalidation t = false.
Proof.
  unfold is_other. rewrite existsb_exists. intros (n & Hn & Ht). unfold has_prefix in Ht.
  destruct (strip n t) as [r|] eqn:E; [|done]. apply strip_eq in E as ->.
  unfold other_names in Hn. repeat (destruct Hn as [<-|Hn]; [reflexivity|]). destruct Hn.
Qed.

Lemma sees_no_invalidation L dt e : re_type e <> LOK_CALLBACK_INVALIDATE_TILES -> sees is_invalidation L dt e = [].
Proof.
  destruct e as [c p]. unfold sees. cbn [re_type re_payload]. intros Hc.
  assert (forall t, is_invalidation t = false -> filter (fun t => is_invalidation t = true) [t] = []) as Hf
    by (intros t E; by rewrite filter_cons, filter_nil, E).
  destruct c; try done; try (apply Hf; reflexivity).
  unfold plain_frames. destruct (plain_state p); [|done]. apply Hf. reflexivity.
Qed.

Section invalidations.
Context (js : JsonLib) (is_json : bytes -> bool) (uri_encode : bytes -> bytes).
Context (id : bytes) (L : Lok) (dt : bytes).

Lemma passed_no_invalidation e : speaks_of_modified e = false -> passed is_invalidation L dt e = [].
Proof.
  unfold speaks_of_modified, passed, passes_inactive. intros H.
  destruct (decide (re_type e = LOK_CALLBACK_INVALIDATE_TILES)) as [Hi|Hi].
  - rewrite Hi in *. simpl in H. rewrite H. done.
  - rewrite sees_no_invalidation by done. by destruct (_ || _).
Qed.

Lemma replayed_no_invalidation r o e :
  recorder_ok js r -> replays r o -> e ∈ replay_list o r -> re_type e <> LOK_CALLBACK_INVALIDATE_TILES.
Proof.
  intros Hok Ho He Hi. destruct (replay_parts js r o Hok Ho) as (Kv & Ke & Ks & Kq).
  assert (key_of js e = None) as Hn by (unfold key_of; by rewrite Hi).
  unfold replay_list in He. rewrite !elem_of_app in He. unfold keyed in *. destruct He as [He|[He|[He|He]]].
  - destruct (Kv e He) as (v & c & H). congruence.
  - destruct (Ke e He) as (c & H). congruence.
  - destruct (Ks e He) as (n & H). congruence.
  - specialize (Kq e He). congruence.
Qed.

(** C8 (liveness): of the invalidations a user missed, the current part's are made up
    for. For a session of a connected document, with nothing recorded yet and
    private information of the users that can be read, and for callbacks with payloads
    that can be read and, but for state changes, do not mention [.uno:ModifiedStatus]: if
    there was any invalidation, of whatever part and mode, then the message [useractive]
    makes the session invalidate the part the view shows by then - the whole document,
    if it is a text - as a whole, once, in mode 0; and if there was none, nothing is
    invalidated. The other parts and modes are not made up for
    ([missed_invalidation_of_other_part_lost]). *)
Theorem missed_invalidation_replayed d ld cbs :
  ready js is_json id dt ld d -> is_i32 (lk_part L) -> Forall (callback_wf js L dt) cbs ->
  Forall (fun e => speaks_of_modified e = false) cbs ->
  exists di oi, se_iter (replay_event js uri_encode L id) cbs (set_active id false d) = (di, Ok tt)
    /\ forall o, replays (ks_stateRecorder (the_session id di)) o ->
       exists d' ou, useractive js is_json uri_encode L id o di = (d', Ok ld) /\ kd_output d' = kd_output d ++ oi ++ ou
         /\ filter (fun t => is_invalidation t = true) (frames_to id (oi ++ ou)) =
            if existsb (fun e => bool_decide (re_type e = LOK_CALLBACK_INVALIDATE_TILES)) cbs
            then [invalidate_frame L (if beq dt (str "text") then 0 else curPart L, 0, 0, 0, 1000000000, 1000000000)]
            else [].
Proof.
  intros Hd Hpart Hok Hmod.
  assert (forall p, contains p (str ".uno:ModifiedStatus") = true -> is_invalidation (str "statechanged: " ++ p) = false) as Hm by done.
  destruct (record_all_total js L dt cbs StateRecorder_new Hok) as [r Hr].
  destruct (inactive_run js is_json uri_encode id is_invalidation L dt invalidation_other Hm cbs StateRecorder_new r ld
    _ Hok (ready_active js is_json id dt false ld d Hd) Hr) as (di & oi & Ei & Hdi & Oi & Si).
  exists di, oi. split; [exact Ei|].
  pose proof (g_core _ _ _ _ _ Hdi) as Hc. unfold core in Hc. injection Hc as _ _ _ E _ _. rewrite E. intros o Ho.
  assert (Forall (callback_wf js L dt) (replay_list o r)) as Hro.
  { apply Forall_forall. intros e He. rewrite Forall_forall in Hok. by apply Hok, (replayed_came js cbs r o). }
  destruct (useractive_run js is_json uri_encode id is_invalidation L dt invalidation_other Hm Hpart o false r ld di Hdi Hro)
    as (d' & ou & Eu & _ & Ou & Su). exists d', ou. split; [exact Eu|]. split; [by rewrite Ou, Oi, <- app_assoc|].
  change (seen id is_invalidation (oi ++ ou) = if existsb (fun e => bool_decide (re_type e = LOK_CALLBACK_INVALIDATE_TILES)) cbs
    then [invalidate_frame L (if beq dt (str "text") then 0 else curPart L, 0, 0, 0, 1000000000, 1000000000)] else []).
  destruct (record_all_spec js cbs _ _ Hr) as (_ & _ & H3). simpl in H3. rewrite seen_app, Si, Su, <- H3.
  replace (concat (map _ cbs)) with (@nil bytes).
  2: { clear -Hmod. induction Hmod as [|e l He _ IH]; simpl; [done|]. by rewrite passed_no_invalidation, <- IH. }
  replace (concat (map _ (replay_list o r))) with (@nil bytes).
  2: { pose proof (fun e => replayed_no_invalidation r o e (record_all_ok js cbs r Hr) Ho) as Hn. clear -Hn.
       induction (replay_list o r) as [|e l IH]; simpl; [done|]. rewrite sees_no_invalidation by (apply Hn; left).
       apply IH. intros x Hx. apply Hn. by right. }
  rewrite app_nil_r. simpl. destruct (sr_invalidate r); [|done].
  unfold sees. cbn [re_type re_payload whole_invalidation plain_frames]. rewrite full_invalidation_frame by by apply curPart_fits.
  rewrite filter_cons_True by reflexivity. by rewrite filter_nil.
Qed.
End invalidations.

(** ** Other clients *)

Section others.
Context (other : bytes).

(** [m] shows [other] nothing but who edits, and leaves its session alone, whatever the
    document is like and whether or not there is an exception. *)
Definition leaves {A} (m : KD A) : Prop := forall d,
  core (the_session other (m d).1) = core (the_session other d)
  /\ exists os, kd_output (m d).1 = kd_output d ++ os /\ Forall (fun t => has_prefix (str "editor: ") t = true) (frames_to other os).

Lemma leaves_same {A} (m : KD A) :
  (forall d, kd_sessions (m d).1 = kd_sessions d /\ kd_output (m d).1 = kd_output d) -> leaves m.
Proof.
  intros Hm d. destruct (Hm d) as [E1 E2]. split; [unfold the_session, find_child; by rewrite E1|].
  exists []. by rewrite app_nil_r.
Qed.
Lemma leaves_ret {A} (a : A) : leaves (se_ret a).
Proof. by apply leaves_same. Qed.
Lemma leaves_throw {A} e : leaves (@se_throw Document A e).
Proof. by apply leaves_same. Qed.
Lemma leaves_lift {A} (r : result A) : leaves (se_lift r).
Proof. by apply leaves_same. Qed.
Lemma leaves_get : leaves se_get.
Proof. by apply leaves_same. Qed.
Lemma leaves_this i : leaves (this i).
Proof. by apply leaves_same. Qed.
Lemma leaves_ids : leaves session_ids.
Proof. by apply leaves_same. Qed.
Lemma leaves_modify f :
  (forall d, kd_sessions (f d) = kd_sessions d /\ kd_output (f d) = kd_output d) -> leaves (se_modify f).
Proof. intros Hf. by apply leaves_same. Qed.

Lemma leaves_bind {A B} (m : KD A) (f : A -> KD B) : leaves m -> (forall a, leaves (f a)) -> leaves (se_bind m f).
Proof.
  intros Hm Hf d. unfold se_bind. destruct (Hm d) as (E & os & Ho & Hs). destruct (m d) as [d1 [a|e]]; simpl in *; [|eauto].
  destruct (Hf a d1) as (E' & os' & Ho' & Hs'). split; [by rewrite E'|]. exists (os ++ os').
  split; [by rewrite Ho', Ho, app_assoc|]. rewrite frames_to_app. by apply Forall_app_2.
Qed.

Lemma leaves_iter {A} (f : A -> KD unit) l : (forall a, leaves (f a)) -> leaves (se_iter f l).
Proof. intros Hf. induction l as [|a l IH]; simpl; [apply leaves_ret|]. by apply leaves_bind. Qed.

Lemma leaves_set_this i f : i <> other \/ (forall s, core (f s) = core s) -> leaves (set_this i f).
Proof.
  intros Hf d. split; [|exists []; by rewrite app_nil_r]. unfold set_this, se_modify. simpl.
  unfold the_session, find_child, map_session. simpl. induction (kd_sessions d) as [|[j s] l IH]; simpl; [done|].
  destruct (beq j i) eqn:Ei; simpl; destruct (beq j other) eqn:Ej; simpl; [|exact IH|done|exact IH].
  apply beq_eq in Ei, Ej. subst. destruct Hf as [Hf|Hf]; [done|]. apply Hf.
Qed.

Lemma leaves_output os : frames_to other os = [] -> leaves (kd_emit_all os).
Proof. intros Hos d. split; [done|]. exists os. simpl. by rewrite Hos. Qed.

Lemma leaves_post m :
  match m with ClientFrame i t => i <> other \/ has_prefix (str "editor: ") t = true | BrokerFrame _ => True end ->
  leaves (postMessage m).
Proof.
  intros Hm d. unfold postMessage. destruct (kd_isBgSaveProcess d); [destruct (kd_saveProcessParent d)|destruct (kd_websocketHandler d)];
    simpl; (split; [done|]); [exists [SentToParent m]|exists []|exists [SentToServer m]|exists []]; try (by rewrite app_nil_r); (split; [done|]); [done|].
  destruct m as [i t|t]; simpl; [|done]. destruct (beq i other) eqn:E; [|done]. apply beq_eq in E.
  destruct Hm as [Hm|Hm]; [done|by constructor].
Qed.
End others.

Create HintDb leaves.
#[export] Hint Resolve leaves_ret leaves_throw leaves_lift leaves_get leaves_this leaves_ids : leaves.

Ltac leave :=
  lazymatch goal with
  | |- leaves _ (se_bind _ _) => apply leaves_bind; [|intros ?a]
  | |- leaves _ (se_iter _ _) => apply leaves_iter; intros ?a
  | |- leaves _ (set_this _ _) => apply leaves_set_this; first [left; assumption|right; intros; reflexivity]
  | |- leaves _ (se_modify _) => apply leaves_modify; intros; split; reflexivity
  | |- leaves _ (set_modified _) => apply leaves_modify; intros; split; reflexivity
  | |- leaves _ (setSpeed _ _) => apply leaves_modify; intros; split; reflexivity
  | |- leaves _ (setUpdatedAt _ _) => apply leaves_modify; intros; split; reflexivity
  | |- leaves _ (kd_emit _) => apply leaves_output; reflexivity
  | |- leaves _ (kd_emit_all (map _ _)) => apply leaves_output
  | |- leaves _ (postMessage _) => apply leaves_post; first [exact I|left; assumption|right; reflexivity]
  | |- leaves _ (sendTextFrame _ _) => apply leaves_post; first [left; assumption|right; reflexivity]
  | |- leaves _ (if ?b then _ else _) => destruct b
  | |- leaves _ (match ?x with _ => _ end) => destruct x
  | |- leaves _ _ => auto with leaves nocore
  end.
Ltac leave_all := repeat leave.

Section private.
Context (js : JsonLib) (is_json : bytes -> bool) (uri_encode : bytes -> bytes).
Context (id other : bytes) (L : Lok).
Hypothesis Hother : id <> other.

Lemma leaves_send t : leaves other (send_ id t).
Proof. unfold send_. leave_all. Qed.
Lemma leaves_editor i t : has_prefix (str "editor: ") t = true -> leaves other (send_ i t).
Proof. intros Ht. apply leaves_bind; [|intros; leave]. apply leaves_post. by right. Qed.

Lemma leaves_getSpeed i : leaves other (getSpeed L i).
Proof. unfold getSpeed. leave_all. Qed.
Lemma leaves_speed_loop v ids : forall m f, leaves other (speed_loop L v ids m f).
Proof. induction ids as [|i ids IH]; intros m f; simpl; leave_all; try apply IH; apply leaves_getSpeed. Qed.
Lemma leaves_updateEditorSpeeds v speed : leaves other (updateEditorSpeeds L v speed).
Proof.
  unfold updateEditorSpeeds. leave_all; [apply leaves_speed_loop|]. apply leaves_editor. reflexivity.
Qed.
Lemma leaves_updateSpeed : leaves other (updateSpeed L id).
Proof. unfold updateSpeed. leave_all. apply leaves_updateEditorSpeeds. Qed.
Lemma leaves_getStatus : leaves other (getStatus L id).
Proof. unfold getStatus. leave_all. Qed.
Lemma leaves_getPartStatus : leaves other (getPartStatus L id).
Proof. unfold getPartStatus. leave_all. Qed.
Lemma leaves_updateCursorPosition p : leaves other (updateCursorPosition id p).
Proof. unfold updateCursorPosition. leave_all. Qed.
Lemma leaves_updateCursorPositionJSON p : leaves other (updateCursorPositionJSON js id p).
Proof. unfold updateCursorPositionJSON. leave_all. apply leaves_updateCursorPosition. Qed.
Lemma leaves_progress a b c : leaves other (sendProgressFrame id a b c).
Proof. unfold sendProgressFrame. leave_all. apply leaves_send. Qed.
Lemma leaves_track p : leaves other (trackDocModifiedState p).
Proof. unfold trackDocModifiedState. leave_all. Qed.
Lemma leaves_handleSaveMessage : leaves other handleSaveMessage.
Proof.
  unfold handleSaveMessage. leave_all. clear. induction (kd_views _); [done|assumption].
Qed.

Hint Resolve leaves_send leaves_updateSpeed leaves_getStatus leaves_getPartStatus leaves_updateCursorPosition
  leaves_updateCursorPositionJSON leaves_progress leaves_track leaves_handleSaveMessage : leaves.

Lemma leaves_stateChanged p : leaves other (stateChanged L id p).
Proof. unfold stateChanged. leave_all. Qed.
Lemma leaves_setPart p : leaves other (setPart L id p).
Proof. unfold setPart. leave_all. Qed.
Lemma leaves_unoCommandResult p : leaves other (unoCommandResult js id p).
Proof. unfold unoCommandResult. leave_all. Qed.
Lemma leaves_callbackError p : leaves other (callbackError js id p).
Proof. unfold callbackError. leave_all. Qed.
Lemma leaves_clipboardChanged p : leaves other (clipboardChanged id p).
Proof. unfold clipboardChanged. leave_all. Qed.
Lemma leaves_fontsMissing p : leaves other (fontsMissing L id p).
Proof. unfold fontsMissing. leave_all. Qed.
Lemma leaves_exportFile p : leaves other (exportFile uri_encode L id p).
Proof. unfold exportFile. leave_all. Qed.

Hint Resolve leaves_stateChanged leaves_setPart leaves_unoCommandResult leaves_callbackError leaves_clipboardChanged
  leaves_fontsMissing leaves_exportFile : leaves.

Lemma leaves_switch type payload : leaves other (callback_switch js uri_encode L id type payload).
Proof. destruct type; cbn [callback_switch]; leave_all. Qed.
Lemma leaves_remember type payload : leaves other (rememberEventsForInactiveUser js id type payload).
Proof. unfold rememberEventsForInactiveUser. leave_all. Qed.

(** C9 (safety): what LibreOfficeKit calls back for one view is nobody else's: whatever
    the callback and the document, and even if its payload makes the handler throw, no
    other client gets a frame of it, save that all are told who the editor is; and what
    another, inactive session has recorded stays as it is. *)
Theorem callback_is_private type payload d :
  let d' := (loKitCallback js uri_encode L id type payload d).1 in
  core (the_session other d') = core (the_session other d)
  /\ exists os, kd_output d' = kd_output d ++ os
       /\ Forall (fun t => has_prefix (str "editor: ") t = true) (frames_to other os).
Proof.
  assert (leaves other (loKitCallback js uri_encode L id type payload)) as H; [|exact (H d)].
  unfold loKitCallback. leave_all; first [apply leaves_remember|apply leaves_switch].
Qed.
End private.

(** ** Canonical view ids *)

(** The ids in use are those of the first so many different properties. *)
Definition canonical_ok (d : Document) : Prop :=
  NoDup (map fst (kd_canonicalIds d)) /\ Z.of_nat (length (kd_canonicalIds d)) + 1000 <= INT_MAX
  /\ forall i p n, kd_canonicalIds d !! i = Some (p, n) -> n = Z.of_nat i + 1000.

Lemma find_canonical d p e :
  List.find (fun e => beq e.1 p) (kd_canonicalIds d) = Some e -> e.1 = p /\ exists i, kd_canonicalIds d !! i = Some e.
Proof.
  intros H. apply find_some in H as [Hin E]. apply beq_eq in E. split; [done|].
  by apply list_elem_of_In, list_elem_of_lookup in Hin.
Qed.
Lemma find_canonical_None d p :
  List.find (fun e => beq e.1 p) (kd_canonicalIds d) = None -> p ∉ map fst (kd_canonicalIds d).
Proof.
  intros H Hin. apply list_elem_of_fmap in Hin as (e & -> & He). apply list_elem_of_In in He.
  pose proof (find_none _ _ H _ He) as E. simpl in E. by rewrite beq_refl in E.
Qed.

Lemma createCanonicalId_ok p d :
  canonical_ok d -> p <> [] -> Z.of_nat (length (kd_canonicalIds d)) + 1000 < INT_MAX ->
  canonical_ok (createCanonicalId p d).1
  /\ exists i, kd_canonicalIds (createCanonicalId p d).1 !! i = Some (p, (createCanonicalId p d).2)
  /\ forall e j, kd_canonicalIds d !! j = Some e -> kd_canonicalIds (createCanonicalId p d).1 !! j = Some e.
Proof.
  intros (Hn & Hl & Hi) Hp Hm. unfold createCanonicalId. apply beq_neq in Hp. rewrite Hp.
  destruct (List.find _ _) as [e|] eqn:E; simpl.
  - destruct (find_canonical d p e E) as [E1 [i He]]. split; [done|]. exists i. split; [|done]. destruct e. by simpl in *; subst.
  - apply find_canonical_None in E.
    assert (i32 (Z.of_nat (length (kd_canonicalIds d)) + 1000) = Z.of_nat (length (kd_canonicalIds d)) + 1000) as Ei
      by (apply i32_id; int_unfold; lia).
    rewrite Ei. split; [split; [|split]|].
    + simpl. rewrite map_app. apply NoDup_app. split; [done|]. split; [|apply NoDup_singleton].
      intros x Hx Hx'. apply list_elem_of_singleton in Hx' as ->. done.
    + simpl. rewrite length_app. simpl. lia.
    + simpl. intros i q n Hq. apply lookup_app_Some in Hq as [Hq|[Hge Hq]]; [by apply (Hi i q)|].
      apply list_lookup_singleton_Some in Hq as [E0 [= <- <-]]. f_equal. lia.
    + exists (length (kd_canonicalIds d)). split.
      * simpl. rewrite lookup_app_r by lia. by rewrite Nat.sub_diag.
      * intros e j He. simpl. by apply lookup_app_l_Some.
Qed.

(** Fact (invariant): sessions get the same canonical view id exactly if their watermark
    and their view's render state agree, so a tile rendered for one view is shared only
    with views that look the same; the ids that were given out stay as they are. *)
Theorem canonical_id_exact s1 s2 d :
  canonical_ok d -> Z.of_nat (length (kd_canonicalIds d)) + 1002 <= INT_MAX ->
  let '(d1, id1) := createCanonicalId (getViewProps s1) d in
  let '(d2, id2) := createCanonicalId (getViewProps s2) d1 in
  canonical_ok d2 /\ (id1 = id2 <-> getViewProps s1 = getViewProps s2) /\ 1000 <= id1
  /\ (forall e, e ∈ kd_canonicalIds d -> e ∈ kd_canonicalIds d2).
Proof.
  intros Hd Hl. assert (forall s, getViewProps s <> []) as Hp.
  { intros s E. unfold getViewProps in E. apply app_eq_nil in E as [_ E]. by apply app_eq_nil in E as [E _]. }
  pose proof (createCanonicalId_ok (getViewProps s1) d Hd (Hp s1)) as H1.
  assert (length (kd_canonicalIds (createCanonicalId (getViewProps s1) d).1) <= length (kd_canonicalIds d) + 1)%nat as Hl1.
  { unfold createCanonicalId. destruct (beq _ _); [simpl; lia|]. destruct (List.find _ _); simpl; [lia|]. rewrite length_app. simpl. lia. }
  destruct (createCanonicalId (getViewProps s1) d) as [d1 id1] eqn:E1. simpl in *.
  destruct H1 as (Hd1 & i & Hi & Hk1); [lia|].
  pose proof (createCanonicalId_ok (getViewProps s2) d1 Hd1 (Hp s2)) as H2.
  destruct (createCanonicalId (getViewProps s2) d1) as [d2 id2] eqn:E2. simpl in *.
  destruct H2 as (Hd2 & j & Hj & Hk2); [lia|]. pose proof (Hk2 _ _ Hi) as Hi2. destruct Hd2 as (Hn & Hl2 & Hx).
  split; [done|]. pose proof (Hx _ _ _ Hi2) as Xi. pose proof (Hx _ _ _ Hj) as Xj. split; [split|split].
  - intros E. assert (i = j) as -> by lia. congruence.
  - intros E. assert (i = j) as ->; [|congruence].
    apply (NoDup_lookup (map fst (kd_canonicalIds d2)) i j (getViewProps s1) Hn).
    + by rewrite list_lookup_fmap, Hi2.
    + by rewrite list_lookup_fmap, Hj, E.
  - lia.
  - intros e He. apply list_elem_of_lookup in He as [k Hk]. apply list_elem_of_lookup. exists k. by apply Hk2, Hk1.
Qed.

(** ** Editor speeds *)

Lemma speed_loop_keeps L v ids : forall m f d,
  kd_lastUpdatedAt d !! v = Some (lk_now L) ->
  exists a, (speed_loop L v ids m f d).2 = Ok a
    /\ (forall u, speedOf u (speed_loop L v ids m f d).1 = speedOf u d) /\ kd_lastUpdatedAt (speed_loop L v ids m f d).1 = kd_lastUpdatedAt d.
Proof.
  induction ids as [|i ids IH]; intros m f d Hv; [by eexists|].
  set (sp := speedOf (ks_viewId (the_session i d)) d).
  set (d1 := d <| kd_speedCount ::= <[ks_viewId (the_session i d) := sp]> |>).
  assert (forall u, speedOf u d1 = speedOf u d) as Hs.
  { intros u. unfold d1, speedOf. simpl. destruct (decide (u = ks_viewId (the_session i d))) as [->|Hu].
    - by rewrite lookup_insert_eq.
    - by rewrite lookup_insert_ne. }
  assert (exists m' f', speed_loop L v (i :: ids) m f d = speed_loop L v ids m' f' d1) as (m' & f' & ->).
  { cbn [speed_loop]. unfold se_bind at 1, this. unfold se_bind at 1, se_get. unfold se_bind at 1, setSpeed at 1, se_modify.
    rewrite Hv. simpl default. replace (5000 <? lk_now L - lk_now L) with false by (symmetry; apply Z.ltb_ge; lia).
    rewrite andb_false_r. unfold se_bind at 1, se_ret. unfold se_bind at 1, se_get. destruct (m <? _); eauto. }
  destruct (IH m' f' d1 Hv) as (a & Ha & Hu & Hl). exists a. split; [done|]. split; [|done]. intros u. by rewrite Hu, Hs.
Qed.

Lemma iter_send_speed text ids : forall d u, speedOf u (se_iter (fun sid => send_ sid text) ids d).1 = speedOf u d.
Proof.
  induction ids as [|i ids IH]; intros d u; simpl; [done|]. unfold se_bind at 1, send_. unfold se_bind at 1, sendTextFrame, postMessage.
  destruct (kd_isBgSaveProcess d); [destruct (kd_saveProcessParent d)|destruct (kd_websocketHandler d)]; simpl; by rewrite IH.
Qed.

(** Fact (error): the speed of a user who stopped typing is never brought up to date:
    however long ago, an update by another user leaves it as it is, since the age that is
    compared is that of the entry just written. *)
Theorem speed_of_others_kept L v speed d u :
  u <> v -> speedOf u (updateEditorSpeeds L v speed d).1 = speedOf u d.
Proof.
  intros Hu. unfold updateEditorSpeeds. unfold se_bind at 1, setUpdatedAt, se_modify. unfold se_bind at 1, setSpeed, se_modify.
  unfold se_bind at 1, session_ids. set (d1 := _ <| kd_speedCount ::= _ |>).
  assert (kd_lastUpdatedAt d1 !! v = Some (lk_now L)) as Hv by apply lookup_insert_eq.
  assert (speedOf u d1 = speedOf u d) as E1 by (unfold speedOf; simpl; by rewrite lookup_insert_ne).
  destruct (speed_loop_keeps L v (map fst (kd_sessions d1)) (-1) (-1) d1 Hv) as ([m f] & Ea & Es & _).
  unfold se_bind at 1. destruct (speed_loop L v _ (-1) (-1) d1) as [d2 r]. simpl in Ea, Es. subst r.
  unfold se_bind at 1, se_get. rewrite <- E1, <- Es.
  destruct (negb (kd_editorId d2 =? f) && (negb (m =? 0) && negb (m =? 1))); [|done].
  destruct (negb (kd_editorChangeWarning d2) && negb (kd_editorId d2 =? -1)); [done|]. unfold se_bind at 1, se_modify.
  by rewrite iter_send_speed.
Qed.

(** ** Private information *)

Definition set_private (user server : bytes) (s : ChildSession) : ChildSession :=
  s <| ks_userPrivateInfo := user |> <| ks_serverPrivateInfo := server |>.

Section viewinfo.
Context (js : JsonLib) (is_json : bytes -> bool) (L : Lok) (a b : bytes).
Hypothesis Hab : a <> b.

(** The same but for the private information of [a] and what its client was sent. *)
Definition alike (user server : bytes) (d d' : Document) : Prop :=
  exists os, d' = map_session (set_private user server) a d <| kd_output := os |> /\ frames_to b os = frames_to b (kd_output d).

Lemma alike_session user server i d d' : i <> a -> alike user server d d' -> the_session i d' = the_session i d.
Proof.
  intros Hi (os & -> & _). unfold the_session, find_child, map_session. simpl.
  induction (kd_sessions d) as [|[j s] l IH]; simpl; [done|].
  destruct (beq j a) eqn:Ea; simpl; destruct (beq j i) eqn:Ej; simpl; [|exact IH|done|exact IH].
  apply beq_eq in Ea, Ej. congruence.
Qed.

Lemma viewinfo_alike d d' s : kd_views d' = kd_views d -> kd_sessionUserInfo d' = kd_sessionUserInfo d ->
  viewinfo_message js is_json L d' s = viewinfo_message js is_json L d s.
Proof.
  intros Ev Eu. unfold viewinfo_message. rewrite Ev. assert (forall l, viewinfo_entries js is_json L d' s l = viewinfo_entries js is_json L d s l) as ->; [|done].
  induction l as [|v l IH]; simpl; [done|]. rewrite IH. unfold view_string. by rewrite Eu.
Qed.

Definition posted (m : kit_message) (d : Document) : list kit_output :=
  if kd_isBgSaveProcess d then if kd_saveProcessParent d then [SentToParent m] else []
  else if kd_websocketHandler d then [SentToServer m] else [].

Lemma send_posted i t d : send_ i t d = (d <| kd_output ::= fun l => l ++ posted (ClientFrame i t) d |>, Ok tt).
Proof.
  unfold send_, se_bind, sendTextFrame, postMessage, posted.
  destruct (kd_isBgSaveProcess d); [destruct (kd_saveProcessParent d)|destruct (kd_websocketHandler d)]; try done;
    unfold se_ret; f_equal; destruct d; simpl; by rewrite app_nil_r.
Qed.

Lemma send_alike user server i t t' d d' :
  i = a \/ t = t' -> alike user server d d' -> alike user server (send_ i t d).1 (send_ i t' d').1.
Proof.
  intros Ht (os & -> & Hf). rewrite !send_posted. simpl fst.
  exists (os ++ posted (ClientFrame i t') d). split; [reflexivity|]. simpl kd_output. rewrite !frames_to_app, Hf. f_equal.
  unfold posted. destruct (kd_isBgSaveProcess d); [by destruct (kd_saveProcessParent d)|].
  destruct (kd_websocketHandler d); [|done]. unfold frames_to. simpl. destruct (beq i b) eqn:Ei; [|done]. apply beq_eq in Ei.
  destruct Ht as [->| ->]; done.
Qed.

Definition notify_one (i : bytes) : KD unit :=
  do d <- se_get;
  do msg <- se_lift (viewinfo_message js is_json L d (the_session i d));
  send_ i msg.
Lemma notify_iter d : notifyViewInfo js is_json L d = se_iter notify_one (map fst (kd_sessions d)) d.
Proof. reflexivity. Qed.
Lemma notify_one_eq i d :
  notify_one i d = match viewinfo_message js is_json L d (the_session i d) with Ok msg => send_ i msg d | Throw e => (d, Throw e) end.
Proof. unfold notify_one, se_bind, se_get, se_lift. by destruct (viewinfo_message _ _ _ _ _). Qed.

(** C10 (safety): what a client learns of the views does not depend on the private
    information of another user: with any other values of it that the sender can read,
    the same frames go to everybody else. *)
Theorem private_information_stays_private user server d d1 d2 :
  notifyViewInfo js is_json L d = (d1, Ok tt) ->
  notifyViewInfo js is_json L (map_session (set_private user server) a d) = (d2, Ok tt) ->
  frames_to b (kd_output d2) = frames_to b (kd_output d1).
Proof.
  rewrite !notify_iter.
  assert (map fst (kd_sessions (map_session (set_private user server) a d)) = map fst (kd_sessions d)) as ->.
  { unfold map_session. simpl. rewrite map_map. apply map_ext. intros [j s]. simpl. by destruct (beq j a). }
  assert (alike user server d (map_session (set_private user server) a d)) as Hd by (by exists (kd_output d)).
  revert Hd. generalize (map_session (set_private user server) a d). generalize (map fst (kd_sessions d)). intros ids.
  revert d. induction ids as [|i ids IH]; intros d d' Hd; simpl; [intros [= <-] [= <-]; by destruct Hd as (os & -> & Hf)|].
  pose proof Hd as (os & Ed & _).
  assert (kd_views d' = kd_views d /\ kd_sessionUserInfo d' = kd_sessionUserInfo d) as [Ev Eu] by (by rewrite Ed).
  unfold se_bind. rewrite !notify_one_eq, (viewinfo_alike d d' (the_session i d') Ev Eu).
  destruct (viewinfo_message js is_json L d (the_session i d)) as [t|] eqn:Et; [|done].
  destruct (viewinfo_message js is_json L d (the_session i d')) as [t'|] eqn:Et'; [|done].
  assert (i = a \/ t = t') as Hi.
  { destruct (decide (i = a)) as [|Hn]; [by left|]. rewrite (alike_session _ _ _ _ _ Hn Hd), Et in Et'. right. congruence. }
  pose proof (send_alike user server i t t' d d' Hi Hd) as Hs. rewrite !send_posted in *. by apply IH.
Qed.
End viewinfo.

(** ** Concrete runs *)

Module Sample.

(** Every text is an object with the view 7 and a rectangle. *)
Definition js : JsonLib := {|
  js_object := bytes; js_var := bytes;
  js_parse := fun s => Some s;
  js_get := fun _ key => if beq key (str "viewId") then Some (str "7")
                         else if beq key (str "rectangle") then Some (str "10, 20, 30, 40") else None;
  js_names := fun _ => []; js_getObject := fun _ _ => None;
  js_string := fun v => Some v; js_int := fun _ => Some 7; js_bool := fun _ => None;
  js_set := fun o _ _ => o; js_setObject := fun o _ _ => o; js_new := []; js_stringify := fun o => o |}.
(** Only what starts with a brace is JSON. *)
Definition is_json (s : bytes) : bool := has_prefix [123] s.
Definition uri (s : bytes) : bytes := s.

Definition lok : Lok := {|
  lk_now := 100000; lk_isText := false; lk_part := 1; lk_documentStatus := fun _ => str "{}"; lk_viewColors := ∅;
  lk_wireId := 5; lk_filename := str "f"; lk_ClientPortNumber := 9980; lk_fontsMissingHandling := [] |}.

Definition session (view : Z) : ChildSession :=
  ChildSession_new 0 <| ks_viewId := view |> <| ks_docType := str "spreadsheet" |> <| ks_isDocLoaded := true |>.
(** Two users of a spreadsheet. *)
Definition document : Document := {|
  kd_sessions := [(str "a1", session 0); (str "b2", session 1)]; kd_canonicalIds := []; kd_sessionUserInfo := ∅;
  kd_modified := UnModified; kd_isBgSaveProcess := false; kd_saveProcessParent := false; kd_websocketHandler := true;
  kd_editorId := -1; kd_editorChangeWarning := false; kd_speedCount := ∅; kd_lastUpdatedAt := ∅; kd_bgSavesOngoing := 0;
  kd_trimIfInactivePostponed := false; kd_lastMemTrimTime := 0; kd_loKitDocument := true; kd_views := [0; 1];
  kd_exited := false; kd_output := [] |}.

Definition make_event (c : LokCallback) (payload : bytes) : RecordedEvent := {| re_type := c; re_payload := payload |}.

Definition missed : list RecordedEvent :=
  [make_event LOK_CALLBACK_INVALIDATE_TILES (str "0, 0, 100, 100, 2");
   make_event LOK_CALLBACK_COMMENT (str "first"); make_event LOK_CALLBACK_STATE_CHANGED (str ".uno:Bold=false");
   make_event LOK_CALLBACK_TEXT_SELECTION (str "1, 1, 2, 2"); make_event LOK_CALLBACK_TEXT_VIEW_SELECTION (str "{7}");
   make_event LOK_CALLBACK_STATE_CHANGED (str ".uno:Bold=true"); make_event LOK_CALLBACK_COMMENT (str "second");
   make_event LOK_CALLBACK_TEXT_SELECTION (str "3, 3, 4, 4"); make_event LOK_CALLBACK_MOUSE_POINTER (str "text")].

Lemma ready_document : ready js is_json (str "a1") (str "spreadsheet") true document.
Proof. exists true. constructor; try reflexivity; [by eexists|]. by repeat constructor. Qed.

(** The maps walked in the order of their keys. *)
Definition order (r : StateRecorder) : replay_order := {|
  ro_viewEvents := recorded_viewEvents r; ro_events := (map_to_list (sr_events r)).*2; ro_states := (map_to_list (sr_states r)).*2 |}.
Lemma order_replays r : replays r (order r).
Proof. done. Qed.
End Sample.

Import Sample.

Lemma inactive_session_catches_up_witness :
  exists da oa di oi,
    se_iter (replay_event js uri lok (str "a1")) missed (set_active (str "a1") true document) = (da, Ok tt) /\ kd_output da = oa
    /\ se_iter (replay_event js uri lok (str "a1")) missed (set_active (str "a1") false document) = (di, Ok tt) /\ kd_output di = oi
    /\ forall o, replays (ks_stateRecorder (the_session (str "a1") di)) o ->
       exists d' ou, useractive js is_json uri lok (str "a1") o di = (d', Ok true) /\ kd_output d' = oi ++ ou
         /\ (forall k, k <> KSequence -> k <> KEvent LOK_CALLBACK_DOCUMENT_SIZE_CHANGED ->
               (forall e, e ∈ missed -> keyed js k e -> re_type e = LOK_CALLBACK_STATE_CHANGED -> plain_state (re_payload e) = true) ->
               last (filter (fun t => about js k t = true) (frames_to (str "a1") (oi ++ ou))) =
               last (filter (fun t => about js k t = true) (frames_to (str "a1") oa)))
         /\ filter (fun t => about js KSequence t = true) (frames_to (str "a1") (oi ++ ou)) =
            filter (fun t => about js KSequence t = true) (frames_to (str "a1") oa).
Proof.
  apply (inactive_session_catches_up js is_json uri (str "a1") lok (str "spreadsheet") document true missed ready_document).
  - by vm_compute.
  - by repeat constructor.
  - by repeat constructor.
Defined.

Lemma missed_invalidation_replayed_witness :
  exists di oi, se_iter (replay_event js uri lok (str "a1")) missed (set_active (str "a1") false document) = (di, Ok tt)
    /\ forall o, replays (ks_stateRecorder (the_session (str "a1") di)) o ->
       exists d' ou, useractive js is_json uri lok (str "a1") o di = (d', Ok true) /\ kd_output d' = [] ++ oi ++ ou
         /\ filter (fun t => is_invalidation t = true) (frames_to (str "a1") (oi ++ ou)) =
            [invalidate_frame lok (1, 0, 0, 0, 1000000000, 1000000000)].
Proof.
  apply (missed_invalidation_replayed js is_json uri (str "a1") lok (str "spreadsheet") document true missed ready_document).
  - by vm_compute.
  - by repeat constructor.
  - by repeat constructor.
Defined.

Lemma callback_is_private_witness :
  (loKitCallback js uri lok (str "a1") LOK_CALLBACK_COMMENT (str "hello") document).2 = Ok tt /\
  exists os, kd_output (loKitCallback js uri lok (str "a1") LOK_CALLBACK_COMMENT (str "hello") document).1 = [] ++ os
    /\ Forall (fun t => has_prefix (str "editor: ") t = true) (frames_to (str "b2") os).
Proof.
  split; [by vm_compute|].
  exact (proj2 (callback_is_private js uri (str "a1") (str "b2") lok ltac:(done) LOK_CALLBACK_COMMENT (str "hello") document)).
Defined.

Lemma canonical_id_exact_witness :
  canonical_ok document /\
  let '(d1, id1) := createCanonicalId (getViewProps (session 0)) document in
  let '(d2, id2) := createCanonicalId (getViewProps (session 1 <| ks_watermarkText := str "secret" |>)) d1 in
  canonical_ok d2 /\ (id1 = id2 <-> getViewProps (session 0) = getViewProps (session 1 <| ks_watermarkText := str "secret" |>))
  /\ 1000 <= id1 /\ (forall e, e ∈ kd_canonicalIds document -> e ∈ kd_canonicalIds d2).
Proof.
  assert (canonical_ok document) as H by (split; [constructor|split; [by vm_compute|by intros [|i] p n [=]]]).
  split; [exact H|]. apply (canonical_id_exact (session 0) (session 1 <| ks_watermarkText := str "secret" |>) document H). by vm_compute.
Defined.

Lemma speed_of_others_kept_witness : 1 <> 0 /\ speedOf 1 (updateEditorSpeeds lok 0 3 (document <| kd_speedCount := {[1 := 30]} |>)).1 = 30.
Proof. split; [done|]. exact (speed_of_others_kept lok 0 3 (document <| kd_speedCount := {[1 := 30]} |>) 1 ltac:(done)). Defined.

Lemma private_information_stays_private_witness :
  (notifyViewInfo js is_json lok document).2 = Ok tt /\
  (notifyViewInfo js is_json lok (map_session (set_private (str "{secret}") []) (str "a1") document)).2 = Ok tt /\
  frames_to (str "b2") (kd_output (notifyViewInfo js is_json lok (map_session (set_private (str "{secret}") []) (str "a1") document)).1) =
  frames_to (str "b2") (kd_output (notifyViewInfo js is_json lok document).1).
Proof.
  split; [by vm_compute|]. split; [by vm_compute|].
  apply (private_information_stays_private js is_json lok (str "a1") (str "b2") ltac:(done) (str "{secret}") [] document); by vm_compute.
Defined.

(** ** What goes wrong *)

(** The session [a1] after it was inactive for [before], and is active again. *)
Definition away (before : KD unit) (d : Document) : Document :=
  let di := (before (set_active (str "a1") false d)).1 in
  (useractive js is_json uri lok (str "a1") (order (ks_stateRecorder (the_session (str "a1") di))) di).1.
Definition callback (c : LokCallback) (payload : bytes) : KD unit := loKitCallback js uri lok (str "a1") c payload.
Definition counted (P : bytes -> bool) (d : Document) : list bytes := List.filter P (frames_to (str "a1") (kd_output d)).

(** Fact (error): an invalidation of another part than the current one that came while the
    user was away is lost: sheet 2 was invalidated, an active client is told so, and the
    client that returns is told of sheet 1 only. *)
Theorem missed_invalidation_of_other_part_lost :
  let came := callback LOK_CALLBACK_INVALIDATE_TILES (str "0, 0, 100, 100, 2") in
  counted is_invalidation (came document).1 = [str "invalidatetiles: part=2 mode=0 x=0 y=0 width=100 height=100 wid=5"]
  /\ counted is_invalidation (away came document) =
       [str "invalidatetiles: part=1 mode=0 x=0 y=0 width=1000000000 height=1000000000 wid=5"].
Proof. split; by vm_compute. Qed.

(** Fact (error): a position that does not fit [int] makes the invalidation one of part 0,
    whatever part it was for. *)
Theorem overflowing_invalidation_goes_to_part_0 :
  counted is_invalidation (callback LOK_CALLBACK_INVALIDATE_TILES (str "2147483648, 0, 100, 100, 3") document).1 =
    [str "invalidatetiles: part=0 mode=0 x=0 y=0 width=2147483647 height=2147483647 wid=5"].
Proof. by vm_compute. Qed.

(** Fact (error): a modified state that was recorded is replayed as if it were new. The
    document is modified and saved in the background while the user is away; when the
    user returns, the document counts as modified again, and the broker is told so. *)
Theorem stale_modified_state_replayed :
  let d := away (exec callback LOK_CALLBACK_STATE_CHANGED (str ".uno:ModifiedStatus=true");
                 exec forceDocUnmodifiedForBgSave 0;
                 notifySyntheticUnmodifiedState) document in
  kd_modified d = Modified
  /\ frames_to (str "all") (kd_output d) = [str "statechanged: .uno:ModifiedStatus=false"]
  /\ counted (has_prefix (str "statechanged")) d =
       [str "statechanged: .uno:ModifiedStatus=true"; str "statechanged: .uno:ModifiedStatus=true"].
Proof. split; [|split]; by vm_compute. Qed.

(** Fact (error): worse, when the background save fails: LibreOfficeKit's note of the forced
    unmodified state is filtered out, but recorded; replayed after the failure it makes the
    modified document count as unmodified, and the broker is told so. *)
Theorem failed_save_replayed_as_unmodified :
  let d := away (exec callback LOK_CALLBACK_STATE_CHANGED (str ".uno:ModifiedStatus=true");
                 exec forceDocUnmodifiedForBgSave 0;
                 exec callback LOK_CALLBACK_STATE_CHANGED (str ".uno:ModifiedStatus=false");
                 updateModifiedOnFailedBgSave) document in
  kd_modified d = UnModified
  /\ counted (has_prefix (str "statechanged")) d =
       [str "statechanged: .uno:ModifiedStatus=true"; str "statechanged: .uno:ModifiedStatus=false"].
Proof. split; by vm_compute. Qed.

(** Fact (error): whatever payload mentions the modified state passes through an inactive
    session, and is recorded and replayed as well: such a comment is announced twice. *)
Theorem comment_on_modified_told_twice :
  counted (has_prefix (str "comment: ")) (away (callback LOK_CALLBACK_COMMENT (str "what is .uno:ModifiedStatus?")) document) =
    [str "comment: what is .uno:ModifiedStatus?"; str "comment: what is .uno:ModifiedStatus?"].
Proof. by vm_compute. Qed.

(** Fact (error): private information of one user that is not JSON stops the view
    information for the users after them, and another user who returns does not catch up:
    [useractive] throws before the replay. *)
Theorem broken_private_information_stops_others :
  let d := map_session (set_private (str "oops") []) (str "b2")
             (callback LOK_CALLBACK_COMMENT (str "new") (set_active (str "a1") false document)).1 in
  let r := useractive js is_json uri lok (str "a1") (order (ks_stateRecorder (the_session (str "a1") d))) d in
  r.2 = Throw json_error /\ counted (has_prefix (str "comment: ")) r.1 = []
  /\ ks_isActive (the_session (str "a1") r.1) = true.
Proof. split; [|split]; by vm_compute. Qed.
