(* ===== verification/ProxyProtocol.v ===== *)
(** * [ProxyProtocol]: a socket made of many proxied requests

    Models [wsd/ProxyProtocol.cpp], [wsd/ProxyProtocol.hpp] and the browser's
    [ProxySocket] of [browser/js/global.js]. Where no WebSocket gets through, the
    browser posts what it has to say in requests of their own and is answered with
    what the server has to say; frames carry serial numbers. The session behind
    the server's end is an interface, [MessageHandler]; the sockets keep the bytes
    read and the bytes written. A parse writes a NUL over the newline it has found
    and then erases it: the number read ends there. Time stamps of responses are
    arguments; logging and dumps are left out. *)

From S2P Require Import Prelude Util Buffer RecordSet HttpHeader Http Clipboard.

Open Scope cool_scope.
Open Scope record_scope.

(** ** Numbers *)

Definition ULLONG_MAX : Z := 18446744073709551615.

(** [strtoull(s, nullptr, 16)]. *)
Definition strtoull16 (s : bytes) : Z :=
  let '(neg, s') := split_sign (drop_spaces s) in
  let v := hex_value (hex_run (skip_0x s')) in
  if ULLONG_MAX <? v then ULLONG_MAX else if neg then u64 (- v) else v.

(** ** The session and the sockets *)

(** A message: whether it is text, and its bytes. *)
Definition OutMessage : Type := bool * bytes.

(** What the handler asks of a [MessageHandlerInterface]: the messages it sends while
    it handles one, and those it sends when told to write its queue. *)
Record MessageHandler := {
  mh_state : Type;
  mh_handleMessage : mh_state -> bytes -> mh_state * list OutMessage;
  mh_writeQueuedMessages : mh_state -> Z -> mh_state * list OutMessage;
  mh_hasQueuedMessages : mh_state -> bool;
  mh_onDisconnect : mh_state -> mh_state }.

(** The part of a [StreamSocket] the protocol uses; [ss_sent] is all that was ever
    appended to the output buffer, [ss_closed] that the disposition was set so. *)
Record StreamSocket := {
  ss_inBuffer : Buffer;
  ss_sent : bytes;
  ss_shutdown : bool;
  ss_closed : bool }.

#[global] Instance StreamSocket_settable : Settable StreamSocket := fun s =>
  {| ss_inBuffer := ss_inBuffer s; ss_sent := ss_sent s; ss_shutdown := ss_shutdown s;
     ss_closed := ss_closed s |}.

Definition StreamSocket_new : StreamSocket :=
  {| ss_inBuffer := Buffer_new; ss_sent := []; ss_shutdown := false; ss_closed := false |}.

Definition asyncShutdown (s : StreamSocket) : StreamSocket := s <| ss_shutdown := true |>.
Definition socket_send (data : bytes) (s : StreamSocket) : StreamSocket := s <| ss_sent ::= fun o => o ++ data |>.
(** [send(const http::Response&)]. *)
Definition socket_sendResponse (r : Response) (s : StreamSocket) : StreamSocket :=
  s <| ss_sent ::= response_writeData r |>.

Inductive ParseStatus := AGAIN | COMPLETE | PROTOCOL_ERROR.

#[global] Instance ParseStatus_eq_dec : EqDecision ParseStatus.
Proof. solve_decision. Defined.

(** The type, serial, length and content of a [Message]. *)
Definition Message_bytes (text : bool) (serial : Z) (msg : bytes) : bytes :=
  (if text then str "T" else str "B") ++ str "0x" ++ hex_string serial ++ [chr_newline] ++
  str "0x" ++ hex_string (Z.of_nat (length msg)) ++ [chr_newline] ++ msg ++ [chr_newline].

Definition chr_dot : Z := 46.
Definition chr_T : Z := 84.
Definition chr_B : Z := 66.

(** [hasCompleteMessage]. *)
Definition hasCompleteMessage (in_ : Buffer) : bool :=
  let d := buf_data in_ in
  let size := length d in
  if (size <? 2)%nat then (size =? 1)%nat && bool_decide (buf_at in_ 0 = Some chr_dot)
  else
    let pos := findLineBreak d 1 in
    if (size <=? pos)%nat then false
    else
      let lengthStart := S pos in
      let pos := findLineBreak d lengthStart in
      if (size <=? pos)%nat then false
      else
        let lengthFieldSize := (pos - lengthStart)%nat in
        if (32 <=? lengthFieldSize)%nat then false
        else
          let contentLength := strtoull16 (take lengthFieldSize (drop lengthStart d)) in
          let frameSize := u64 (Z.of_nat (S pos) + contentLength + 1) in
          frameSize <=? Z.of_nat size.

Section proxy.
Context (mh : MessageHandler).
Context (now server : bytes).

(** [ProxyProtocolHandler]; sockets are named by numbers. *)
Record ProxyProtocolHandler := {
  ph_msgHandler : option (mh_state mh);
  ph_serialQueue : gmap Z bytes;
  ph_writeQueue : list bytes;
  ph_outSockets : list nat;
  ph_inSerial : Z;
  ph_outSerial : Z }.

#[local] Instance ProxyProtocolHandler_settable : Settable ProxyProtocolHandler := fun p =>
  {| ph_msgHandler := ph_msgHandler p; ph_serialQueue := ph_serialQueue p; ph_writeQueue := ph_writeQueue p;
     ph_outSockets := ph_outSockets p; ph_inSerial := ph_inSerial p; ph_outSerial := ph_outSerial p |}.

(** The constructor, and [setMessageHandler]. *)
Definition ProxyProtocolHandler_new (m : mh_state mh) : ProxyProtocolHandler :=
  {| ph_msgHandler := Some m; ph_serialQueue := ∅; ph_writeQueue := []; ph_outSockets := [];
     ph_inSerial := 1; ph_outSerial := 1 |}.

Definition dispose (p : ProxyProtocolHandler) : ProxyProtocolHandler := p <| ph_msgHandler := None |>.

(** [sendMessage] without a flush, as every session calls it. *)
Definition queueMessage (p : ProxyProtocolHandler) (m : OutMessage) : ProxyProtocolHandler :=
  p <| ph_writeQueue ::= fun q => q ++ [Message_bytes m.1 (ph_outSerial p) m.2] |>
    <| ph_outSerial ::= fun n => u64 (n + 1) |>.

Definition queueMessages : list OutMessage -> ProxyProtocolHandler -> ProxyProtocolHandler :=
  fun ms p => fold_left queueMessage ms p.

(** ** Receiving *)

(** [_msgHandler->handleMessage(data)]. *)
Definition emit (data : bytes) (p : ProxyProtocolHandler) : ProxyProtocolHandler :=
  match ph_msgHandler p with
  | Some m => let '(m', out) := mh_handleMessage mh m data in
              queueMessages out (p <| ph_msgHandler := Some m' |>)
  | None => p
  end.

Fixpoint process_loop (fuel : nat) (p : ProxyProtocolHandler) : ProxyProtocolHandler :=
  match fuel with
  | O => p
  | S fuel' =>
      match ph_serialQueue p !! ph_inSerial p with
      | None => p
      | Some data =>
          let serial := ph_inSerial p in
          let p := emit data (p <| ph_inSerial ::= fun n => u64 (n + 1) |>) in
          process_loop fuel' (p <| ph_serialQueue ::= delete serial |>)
      end
  end.

Definition processBufferedMessages (p : ProxyProtocolHandler) : ProxyProtocolHandler :=
  process_loop (S (size (ph_serialQueue p))) p.

(** The loop of [parseEmitIncoming]; every round consumes some input. *)
Fixpoint parse_loop (fuel : nat) (s : StreamSocket) (p : ProxyProtocolHandler)
    : result (ParseStatus * StreamSocket * ProxyProtocolHandler) :=
  match fuel with
  | O => Ok (AGAIN, s, p)
  | S fuel' =>
      let in_ := ss_inBuffer s in
      if (buf_size in_ =? 0)%nat then Ok (AGAIN, s, p)
      else if negb (hasCompleteMessage in_) then Ok (AGAIN, s, p)
      else if bool_decide (buf_at in_ 0 = Some chr_dot) then Ok (COMPLETE, s, p)
      else if negb (bool_decide (buf_at in_ 0 = Some chr_T)) && negb (bool_decide (buf_at in_ 0 = Some chr_B))
           then Ok (PROTOCOL_ERROR, s, p)
      else
        let it := findLineBreak (buf_data in_) 1 in
        throw_if (buf_size in_ <=? it)%nat as undefined;
        let serial := strtoull16 (take (it - 1) (drop 1 (buf_data in_))) in
        let in_ := buf_erase in_ 0 (it + 1) in
        let it := findLineBreak (buf_data in_) 0 in
        throw_if (buf_size in_ <=? it)%nat as undefined;
        let len := strtoull16 (take it (buf_data in_)) in
        let in_ := buf_erase in_ 0 (it + 1) in
        throw_if Z.of_nat (buf_size in_) <? len as undefined;
        let data := take (Z.to_nat len) (buf_data in_) in
        let in_ := eraseFirst in_ (Z.to_nat len) in
        if (buf_size in_ <? 1)%nat || negb (bool_decide (buf_at in_ 0 = Some chr_newline))
        then Ok (PROTOCOL_ERROR, s <| ss_inBuffer := in_ |>, p)
        else
          let in_ := eraseFirst in_ 1 in
          parse_loop fuel' (s <| ss_inBuffer := in_ |>)
            (processBufferedMessages (p <| ph_serialQueue ::= <[serial := data]> |>))
  end.

Definition parseEmitIncoming (s : StreamSocket) (p : ProxyProtocolHandler)
    : result (ParseStatus * StreamSocket * ProxyProtocolHandler) :=
  parse_loop (S (buf_size (ss_inBuffer s))) s p.

(** ** Sending *)

(** [capacity] is what the socket has room for. *)
Definition slurpHasMessages (capacity : Z) (p : ProxyProtocolHandler) : ProxyProtocolHandler * bool :=
  let p := match ph_msgHandler p with
           | Some m => let '(m', out) := mh_writeQueuedMessages mh m capacity in
                       queueMessages out (p <| ph_msgHandler := Some m' |>)
           | None => p
           end in
  (p, (0 <? length (ph_writeQueue p))%nat).

Definition proxy_response : Response :=
  let r := Response_of (StatusLine_new 200) now server in
  r <| rs_header ::= header_set (str "Last-Modified") now |>
    <| rs_header ::= header_add (str "X-Content-Type-Options") (str "nosniff") |>.

Definition type_count (type : Z) (q : list bytes) : nat :=
  length (filter (fun m => head m = Some type) q).

(** The response before the messages of the queue. *)
Definition flush_response (q : list bytes) : Response :=
  let r := proxy_response <| rs_header ::= setContentLength (Z.of_nat (length (concat q))) |> in
  r <| rs_header ::= header_set (str "Content-Type")
         (if (type_count chr_B q <=? type_count chr_T q)%nat then str "text/plain; charset=utf-8"
          else str "application/octet-stream") |>.

Definition flushQueueTo (capacity : Z) (s : StreamSocket) (p : ProxyProtocolHandler)
    : StreamSocket * ProxyProtocolHandler * bool :=
  let '(p, has) := slurpHasMessages capacity p in
  if negb has then (s, p, false)
  else if (length (concat (ph_writeQueue p)) =? 0)%nat then (s, p, false)
  else
    let s := socket_sendResponse (flush_response (ph_writeQueue p)) s in
    let s := fold_left (fun s m => socket_send m s) (ph_writeQueue p) s in
    (s, p <| ph_writeQueue := [] |>, true).

Definition empty_response : Response := proxy_response <| rs_header ::= setContentLength 0 |>.

Definition sendAndClose (capacity : Z) (s : StreamSocket) (p : ProxyProtocolHandler)
    : StreamSocket * ProxyProtocolHandler :=
  let '(s, p, sentMsg) := flushQueueTo capacity s p in
  let s := if sentMsg then s else socket_sendResponse empty_response s in
  (asyncShutdown s, p).

Definition handleRequest (capacity : Z) (s : StreamSocket) (p : ProxyProtocolHandler)
    : result (StreamSocket * ProxyProtocolHandler) :=
  match ph_msgHandler p with
  | None => Ok (s, p)
  | Some _ =>
      try (status, s, p) <- parseEmitIncoming s p;
      match status with
      | COMPLETE => Ok (sendAndClose capacity s p)
      | AGAIN | PROTOCOL_ERROR => Ok (s, p)
      end
  end.

Definition handleIncomingMessage (capacity : Z) (s : StreamSocket) (p : ProxyProtocolHandler)
    : result (StreamSocket * ProxyProtocolHandler) :=
  try (status, s, p) <- parseEmitIncoming s p;
  match status with
  | PROTOCOL_ERROR => Ok (s <| ss_closed := true |>, p)
  | COMPLETE => Ok (sendAndClose capacity s p)
  | AGAIN => Ok (s, p)
  end.

Definition notifyDisconnected (p : ProxyProtocolHandler) : ProxyProtocolHandler :=
  p <| ph_msgHandler ::= fmap (mh_onDisconnect mh) |>.

(** POLLIN, and POLLOUT when the session has something queued. *)
Definition proxy_getPollEvents (p : ProxyProtocolHandler) : bool * bool :=
  (true, match ph_msgHandler p with Some m => mh_hasQueuedMessages mh m | None => false end).

(** ** The handler and its sockets *)

Record ProxyWorld := {
  pw_proxy : ProxyProtocolHandler;
  pw_sockets : gmap nat StreamSocket }.

#[local] Instance ProxyWorld_settable : Settable ProxyWorld := fun w =>
  {| pw_proxy := pw_proxy w; pw_sockets := pw_sockets w |}.

(** [popOutSocket]: the first of [_outSockets] that is still there. *)
Fixpoint pop_out (sockets : gmap nat StreamSocket) (l : list nat) : option nat * list nat :=
  match l with
  | [] => (None, [])
  | i :: l' => match sockets !! i with Some _ => (Some i, l') | None => pop_out sockets l' end
  end.
Definition popOutSocket (w : ProxyWorld) : option nat * ProxyWorld :=
  let '(i, l) := pop_out (pw_sockets w) (ph_outSockets (pw_proxy w)) in
  (i, w <| pw_proxy ::= fun p => p <| ph_outSockets := l |> |>).

(** Flush to a popped socket, if there is one. *)
Definition flush_popped (capacity : Z) (w : ProxyWorld) : ProxyWorld :=
  let '(i, w) := popOutSocket w in
  match i with
  | Some i =>
      match pw_sockets w !! i with
      | Some s => let '(s, p, _) := flushQueueTo capacity s (pw_proxy w) in
                  {| pw_proxy := p; pw_sockets := <[i := asyncShutdown s]> (pw_sockets w) |}
      | None => w
      end
  | None => w
  end.

(** [sendMessage]: what it returns, and the capacity of the socket a flush finds. *)
Definition sendMessage (m : OutMessage) (flush : bool) (capacity : Z) (w : ProxyWorld) : Z * ProxyWorld :=
  let w := w <| pw_proxy ::= fun p => queueMessage p m |> in
  (Z.of_nat (length m.2), if flush then flush_popped capacity w else w).

Definition performWrites (capacity sock_capacity : Z) (w : ProxyWorld) : ProxyWorld :=
  let '(p, has) := slurpHasMessages capacity (pw_proxy w) in
  let w := w <| pw_proxy := p |> in
  if negb has then w else flush_popped sock_capacity w.

(** ** Routing a request to its session *)

(** A session of the broker; [None] for one that speaks another protocol. *)
Record ProxySession := {
  px_proxyAccess : bytes;
  px_protocol : option ProxyProtocolHandler }.

(** [getOrCreateProxyAccess] with the token the generator would give. *)
Definition getOrCreateProxyAccess (token : bytes) (c : ProxySession) : ProxySession :=
  if (length (px_proxyAccess c) =? 0)%nat
  then {| px_proxyAccess := token; px_protocol := px_protocol c |} else c.

(** The loop over the sessions: the sessions passed over, the one found, the others. *)
Fixpoint find_proxy_session (sessionId : bytes) (tokens : nat -> bytes) (n : nat)
    (before sessions : list ProxySession) : list ProxySession * option (ProxySession * list ProxySession) :=
  match sessions with
  | [] => (before, None)
  | c :: rest =>
      let c := getOrCreateProxyAccess (tokens n) c in
      if beq (px_proxyAccess c) sessionId then (before, Some (c, rest))
      else find_proxy_session sessionId tokens (S n) (before ++ [c]) rest
  end.

(** A request is refused ([BadRequestException]) or goes to its session. *)
Inductive ProxyOutcome :=
| ProxyRefused (sessions : list ProxySession)
| ProxyHandled (socket : StreamSocket) (sessions : list ProxySession).

(** [handleProxyRequest], for a command other than "open". *)
Definition handleProxyRequest (command sessionId : bytes) (tokens : nat -> bytes) (capacity : Z)
    (socket : StreamSocket) (sessions : list ProxySession) : result ProxyOutcome :=
  match find_proxy_session sessionId tokens 0 [] sessions with
  | (sessions, None) => Ok (ProxyRefused sessions)
  | (before, Some (c, rest)) =>
      match px_protocol c with
      | None => Throw undefined
      | Some proxy =>
          let back p := before ++ {| px_proxyAccess := px_proxyAccess c; px_protocol := Some p |} :: rest in
          if beq command (str "close") then Ok (ProxyHandled socket (back (notifyDisconnected proxy)))
          else
            try (socket, proxy) <- handleRequest capacity socket proxy;
            Ok (ProxyHandled socket (back proxy))
      end
  end.
End proxy.

Arguments ph_msgHandler {mh} _.
Arguments ph_serialQueue {mh} _.
Arguments ph_writeQueue {mh} _.
Arguments ph_outSockets {mh} _.
Arguments ph_inSerial {mh} _.
Arguments ph_outSerial {mh} _.
Arguments pw_proxy {mh} _.
Arguments pw_sockets {mh} _.
Arguments px_proxyAccess {mh} _.
Arguments px_protocol {mh} _.
#[global] Existing Instance ProxyProtocolHandler_settable.
#[global] Existing Instance ProxyWorld_settable.

(** ** The browser's end

    A string is kept as the UTF-8 bytes it is sent as, and a text received as the
    bytes that are decoded; a field is read as ASCII. The poll timer may fire at any
    time: how its period is adapted is left out, and so is when a connection without
    an answer for too long is given up. *)

(** [bs_delivered] are the calls of [onmessage], [bs_errors] counts those of
    [onerror] and [onclose]; [None] for [bs_sessionId] is 'open'. *)
Record BrowserSocket := {
  bs_sendQueue : bytes;
  bs_outSerial : Z;
  bs_inSerial : Z;
  bs_serialQueue : gmap Z OutMessage;
  bs_sessionId : option bytes;
  bs_readyState : Z;
  bs_msgInflight : Z;
  bs_openInflight : Z;
  bs_delivered : list OutMessage;
  bs_errors : nat }.

#[global] Instance BrowserSocket_settable : Settable BrowserSocket := fun b =>
  {| bs_sendQueue := bs_sendQueue b; bs_outSerial := bs_outSerial b; bs_inSerial := bs_inSerial b;
     bs_serialQueue := bs_serialQueue b; bs_sessionId := bs_sessionId b; bs_readyState := bs_readyState b;
     bs_msgInflight := bs_msgInflight b; bs_openInflight := bs_openInflight b;
     bs_delivered := bs_delivered b; bs_errors := bs_errors b |}.

Definition BrowserSocket_new : BrowserSocket :=
  {| bs_sendQueue := []; bs_outSerial := 1; bs_inSerial := 1; bs_serialQueue := ∅; bs_sessionId := None;
     bs_readyState := 0; bs_msgInflight := 0; bs_openInflight := 0; bs_delivered := []; bs_errors := 0 |}.

(** [send]. *)
Definition js_send (msg : bytes) (b : BrowserSocket) : BrowserSocket :=
  b <| bs_sendQueue ::= fun q => q ++
         (str "B0x" ++ hex_string (bs_outSerial b) ++ [chr_newline] ++
          str "0x" ++ hex_string (Z.of_nat (length msg)) ++ [chr_newline] ++ msg ++ [chr_newline]) |>
    <| bs_outSerial ::= fun n => n + 1 |>.

(** [doSend]: the body of the request posted, if one is; while four have no answer none
    is. *)
Definition js_doSend (b : BrowserSocket) : BrowserSocket * option bytes :=
  match bs_sessionId b with
  | None => (b, None)
  | Some _ =>
      if 4 <=? bs_msgInflight b then (b, None)
      else (b <| bs_sendQueue := [] |> <| bs_msgInflight ::= fun n => n + 1 |>, Some (bs_sendQueue b ++ [chr_dot]))
  end.

Definition signalErrorClose (b : BrowserSocket) : BrowserSocket :=
  let b := if bs_readyState b <? 3 then b <| bs_errors ::= S |> else b in
  b <| bs_sessionId := None |> <| bs_inSerial := 0 |> <| bs_outSerial := 0 |> <| bs_msgInflight := 0 |>
    <| bs_openInflight := 0 |> <| bs_readyState := 3 |>.

Fixpoint js_process (fuel : nat) (expectedSerial : Z) (b : BrowserSocket) : BrowserSocket :=
  match fuel with
  | O => b
  | S fuel' =>
      match bs_serialQueue b !! expectedSerial with
      | None => b
      | Some m =>
          let b := b <| bs_inSerial := expectedSerial |> <| bs_delivered ::= fun l => l ++ [m] |> in
          js_process fuel' (expectedSerial + 1) (b <| bs_serialQueue ::= delete expectedSerial |>)
      end
  end.
(** [processBufferedMessages]. *)
Definition js_processBufferedMessages (expectedSerial : Z) (b : BrowserSocket) : BrowserSocket :=
  js_process (S (size (bs_serialQueue b))) expectedSerial b.

(** [arr[i]]; [None] is [undefined]. *)
Definition js_index (arr : bytes) (i : Z) : option Z := if i <? 0 then None else arr !! Z.to_nat i.

(** [bytes.slice(start, end)]. *)
Definition js_relative (len i : Z) : Z := if i <? 0 then Z.max 0 (len + i) else Z.min i len.
Definition js_doSlice (arr : bytes) (start stop : Z) : bytes :=
  let len := Z.of_nat (length arr) in
  let from := js_relative len start in
  take (Z.to_nat (js_relative len stop - from)) (drop (Z.to_nat from) arr).

(** [while (arr[i] != 10) i++;]: [None] when it never ends. *)
Definition js_newline (arr : bytes) (i : Z) : option Z :=
  let n := findLineBreak arr (Z.to_nat i) in
  if (n <? length arr)%nat then Some (Z.of_nat n) else None.

(** The double nearest to an integer, ties to even. *)
Definition js_number (n : Z) : Z :=
  if n <? 2 ^ 53 then n
  else
    let e := Z.log2 n - 52 in
    let q := n / 2 ^ e in
    let r := n mod 2 ^ e in
    let up := (2 ^ (e - 1) <? r) || ((r =? 2 ^ (e - 1)) && Z.odd q) in
    (if up then q + 1 else q) * 2 ^ e.

(** [parseInt(s, 16)]; [None] is [NaN]. *)
Definition js_skip_0x (s : bytes) : bytes :=
  match s with
  | z :: x :: s' => if (z =? 48) && ((x =? 120) || (x =? 88)) then s' else s
  | _ => s
  end.
Definition parseInt16 (s : bytes) : option Z :=
  let '(neg, s') := split_sign (drop_spaces s) in
  match hex_run (js_skip_0x s') with
  | [] => None
  | ds => let v := js_number (hex_value ds) in Some (if neg then - v else v)
  end.

(** [arr[i] !== 48 && arr[i+1] !== 120]. *)
Definition missing_preamble (arr : bytes) (i : Z) : bool :=
  negb (bool_decide (js_index arr i = Some 48)) && negb (bool_decide (js_index arr (i + 1) = Some 120)).

(** The loop has ended, or it is still running: after that many rounds, or looking
    for a newline that is not there. *)
Inductive JsLoop := JsReturned (b : BrowserSocket) | JsRunning (b : BrowserSocket).

Fixpoint js_parse (fuel : nat) (arr : bytes) (i : Z) (b : BrowserSocket) : JsLoop :=
  match fuel with
  | O => JsRunning b
  | S fuel' =>
      let len := Z.of_nat (length arr) in
      if negb (i <? len) then JsReturned b
      else if len - i <? 4 then JsReturned b
      else
        let type := js_index arr i in
        if negb (bool_decide (type = Some chr_T)) && negb (bool_decide (type = Some chr_B)) then JsReturned b
        else if missing_preamble arr (i + 1) then JsReturned b
        else
          match js_newline arr (i + 3) with
          | None => JsRunning b
          | Some j =>
              let serial := parseInt16 (js_doSlice arr (i + 3) j) in
              let k := j + 1 in
              if missing_preamble arr k then JsReturned b
              else
                match js_newline arr (k + 2) with
                | None => JsRunning b
                | Some l =>
                    let size := parseInt16 (js_doSlice arr (k + 2) l) in
                    let start := l + 1 in
                    let data := match size with Some n => js_doSlice arr start (start + n) | None => [] end in
                    let b := match serial with
                             | Some n => js_processBufferedMessages n
                                 (b <| bs_serialQueue ::= <[n := (bool_decide (type = Some chr_T), data)]> |>)
                             | None => b <| bs_delivered ::= fun q => q ++ [(bool_decide (type = Some chr_T), data)] |>
                             end in
                    match size with
                    | Some n => js_parse fuel' arr (start + n + 1) b
                    | None => JsReturned b
                    end
                end
          end
  end.

(** [parseIncomingArray]. *)
Definition parseIncomingArray (arr : bytes) (b : BrowserSocket) : JsLoop :=
  js_parse (S (length arr)) arr 0 b.

(** The 'load' event of a posted request; [None] when the handler does not return. *)
Definition js_load (status : Z) (data : bytes) (b : BrowserSocket) : option BrowserSocket :=
  if status =? 200 then
    if negb (length data =? 0)%nat then
      match parseIncomingArray data b with JsReturned b => Some b | JsRunning _ => None end
    else Some b
  else Some (signalErrorClose b).

Definition js_loadend (b : BrowserSocket) : BrowserSocket := b <| bs_msgInflight ::= fun n => n - 1 |>.

(** The 'load' event of the request that opens the session. *)
Definition js_opened (status : Z) (responseText : bytes) (b : BrowserSocket) : BrowserSocket :=
  if negb (status =? 200) || (length responseText =? 0)%nat || bool_decide (chr_newline ∈ responseText)
  then signalErrorClose b
  else b <| bs_sessionId := Some responseText |> <| bs_readyState := 1 |>.
