(* ===== verification/ProxyProtocolSpec.v ===== *)
(** * A proxied connection is a connection

    Theorems about [ProxyProtocol]: whatever way the posted requests overtake each
    other and are cut, the session handles each message once and in order, every
    request is answered once, and the answers hold what the session sent. *)

From S2P Require Import Prelude Util Buffer RecordSet HttpHeader Http Clipboard HttpSpec ClipboardSpec ProxyProtocol.

Open Scope cool_scope.
Open Scope record_scope.

(** ** Hexadecimal fields *)

Lemma hex_digits_length fuel n k :
  n < 16 ^ Z.of_nat k -> 0 <= n -> (0 < k)%nat -> (length (hex_digits fuel n) <= k)%nat.
Proof.
  revert n k. induction fuel as [|fuel IH]; intros n k Hk Hn Hpos; cbn [hex_digits length]; [lia|].
  destruct (Z.ltb_spec n 16); [cbn [length]; lia|]. rewrite length_app. cbn [length].
  destruct k as [|[|k]]; [lia|simpl in Hk; lia|].
  assert (length (hex_digits fuel (n / 16)) <= S k)%nat; [|lia]. apply IH; [|apply Z.div_pos; lia|lia].
  apply Z.div_lt_upper_bound; [lia|]. rewrite (Nat2Z.inj_succ (S k)), Z.pow_succ_r in Hk by lia. lia.
Qed.

Lemma hex_string_value n : 0 <= n ->
  Forall is_hex (hex_string n) /\ hex_value (hex_string n) = n /\ hex_string n <> [].
Proof.
  intros Hn. destruct (hex_digits_value (S (Z.to_nat (Z.log2 n))) n) as (E & Hh & Hne); [lia| |by split_and!].
  split; [done|]. destruct (Z.eq_dec n 0) as [->|Hnz]; [reflexivity|].
  pose proof (Z.log2_spec n ltac:(lia)). pose proof (Z.log2_nonneg n). rewrite Nat2Z.inj_succ, Z2Nat.id by done. lia.
Qed.

Lemma hex_run_all l : Forall is_hex l -> hex_run l = l.
Proof.
  induction 1 as [|c l Hc _ IH]; [done|]. cbn [hex_run]. unfold is_hex in Hc.
  destruct (Z.ltb_spec (hexDigitFromChar c) 0); [lia|]. by rewrite IH.
Qed.

Lemma strtoull16_hex n : 0 <= n <= ULLONG_MAX -> strtoull16 (str "0x" ++ hex_string n) = n.
Proof.
  intros Hn. destruct (hex_string_value n) as (Hh & Hv & Hne); [lia|]. unfold strtoull16.
  destruct (hex_string n) as [|c l]; [done|].
  assert (Hc := proj1 (proj1 (Forall_cons _ _ _) Hh)).   change (drop_spaces (str "0x" ++ c :: l)) with (48 :: 120 :: c :: l).
  change (split_sign (48 :: 120 :: c :: l)) with (false, 48 :: 120 :: c :: l).
  cbv beta iota zeta. assert (skip_0x (48 :: 120 :: c :: l) = c :: l) as ->.
  { unfold skip_0x. replace (0 <=? hexDigitFromChar c) with true by (symmetry; by apply Z.leb_le). done. }
  rewrite hex_run_all, Hv by done. destruct (Z.ltb_spec ULLONG_MAX n); [lia|done].
Qed.

Lemma parseInt16_hex n : 0 <= n -> parseInt16 (hex_string n) = Some (js_number n).
Proof.
  intros Hn. destruct (hex_string_value n Hn) as (Hh & Hv & Hne). unfold parseInt16.
  destruct (hex_string n) as [|c l] eqn:E; [done|].
  assert (Hc := proj1 (proj1 (Forall_cons _ _ _) Hh)).
  assert (drop_spaces (c :: l) = c :: l) as ->.
  { cbn [drop_spaces]. unfold isspace. replace (_ || _) with false; [done|].
    symmetry. apply is_hex_range in Hc. zcases; simpl; lia. }
  assert (split_sign (c :: l) = (false, c :: l)) as ->.
  { unfold split_sign, chr_minus, chr_plus. apply is_hex_range in Hc. zcases; done || lia. }
  cbv beta iota zeta. assert (js_skip_0x (c :: l) = c :: l) as ->.
  { unfold js_skip_0x. destruct l as [|x l]; [done|].
    assert (Hx : is_hex x) by (by apply Forall_cons in Hh as [_ [Hx _]%Forall_cons]).
    apply is_hex_range in Hx. zcases; simpl; done || lia. }
  by rewrite hex_run_all, Hv by done.
Qed.

Lemma js_number_small n : n < 2 ^ 53 -> js_number n = n.
Proof. intros Hn. unfold js_number. destruct (Z.ltb_spec n (2 ^ 53)); [done|lia]. Qed.

(** ** Frames *)

(** A text or binary message and the serial it travels under. *)
Record Frame := { fr_text : bool; fr_serial : Z; fr_data : bytes }.

Definition frame_bytes (f : Frame) : bytes := Message_bytes (fr_text f) (fr_serial f) (fr_data f).

(** A 64-bit serial, and a content that fits a buffer. *)
Definition frame_fits (f : Frame) : Prop :=
  0 <= fr_serial f <= ULLONG_MAX /\ Z.of_nat (length (fr_data f)) < 2 ^ 62.

Definition type_char (text : bool) : Z := if text then chr_T else chr_B.
Definition hex_field (n : Z) : bytes := str "0x" ++ hex_string n.

Lemma frame_split f : frame_bytes f =
  type_char (fr_text f) :: hex_field (fr_serial f) ++ chr_newline ::
  hex_field (Z.of_nat (length (fr_data f))) ++ chr_newline :: fr_data f ++ [chr_newline].
Proof. unfold frame_bytes, Message_bytes, hex_field. by destruct (fr_text f). Qed.

Definition not_newline (c : Z) : bool := negb (c =? chr_newline).

Lemma hex_field_plain n : 0 <= n -> Forall (fun c => not_newline c = true) (hex_field n).
Proof.
  intros Hn. unfold hex_field. apply Forall_app. split; [by repeat constructor|].
  eapply Forall_impl; [apply (hex_string_value n Hn)|]. unfold not_newline, chr_newline. intros c Hc%is_hex_range.
  zcases; [lia|done].
Qed.

Lemma hex_field_length n : 0 <= n <= ULLONG_MAX -> (3 <= length (hex_field n) <= 18)%nat.
Proof.
  intros Hn. destruct (hex_string_value n ltac:(lia)) as (_ & _ & Hne). unfold hex_field. rewrite length_app.
  assert (Hl : (length (hex_string n) <= 16)%nat).
  { apply hex_digits_length; [|lia|lia]. unfold ULLONG_MAX in Hn. change (16 ^ Z.of_nat 16) with 18446744073709551616. lia. }
  destruct (hex_string n); [done|]. change (length (str "0x")) with 2%nat. simpl length in *. lia.
Qed.

(** The two newlines a reader looks for in a stream that starts with a frame. *)
Lemma frame_newlines f rest :
  frame_fits f -> let X := frame_bytes f ++ rest in
  let l1 := length (hex_field (fr_serial f)) in
  let l2 := length (hex_field (Z.of_nat (length (fr_data f)))) in
  findLineBreak X 1 = S l1 /\ findLineBreak X (S (S l1)) = (S (S l1) + l2)%nat /\
  take l2 (drop (S (S l1)) X) = hex_field (Z.of_nat (length (fr_data f))) /\
  take l1 (drop 1 X) = hex_field (fr_serial f) /\
  drop (S (S l1)) X = hex_field (Z.of_nat (length (fr_data f))) ++ chr_newline :: fr_data f ++ chr_newline :: rest /\
  length (frame_bytes f) = (S (S l1) + l2 + 1 + length (fr_data f) + 1)%nat /\
  X !! 0%nat = Some (type_char (fr_text f)).
Proof.
  intros [Hs Hl] X l1 l2. unfold X. rewrite frame_split. cbn [app]. rewrite <- !(assoc_L (++)). cbn [app].
  rewrite <- !(assoc_L (++)). cbn [app]. rewrite <- !(assoc_L (++)). cbn [app].
  assert (E : forall Y, drop (S (S l1)) (type_char (fr_text f) :: hex_field (fr_serial f) ++ chr_newline :: Y) = Y).
  { intros Y. cbn [drop]. rewrite drop_app_ge by (fold l1; lia). fold l1. by replace (S l1 - l1)%nat with 1%nat by lia. }
  split_and!.
  - unfold findLineBreak. erewrite (scan_drop _ _ 1 (hex_field (fr_serial f)) chr_newline); [done|reflexivity| |done].
    apply hex_field_plain. lia.
  - unfold findLineBreak.
    rewrite (scan_drop _ _ (S (S l1)) (hex_field (Z.of_nat (length (fr_data f)))) chr_newline (fr_data f ++ chr_newline :: rest)).
    + done.
    + apply E.
    + apply hex_field_plain. lia.
    + done.
  - rewrite E. apply take_app_length.
  - cbn [drop]. apply take_app_length.
  - apply E.
  - cbn [length]. repeat (rewrite length_app; cbn [length]). fold l1 l2. lia.
  - done.
Qed.

(** However much of a frame has arrived, [hasCompleteMessage] tells whether it is whole. *)
Lemma hasCompleteMessage_take f rest n b :
  frame_fits f -> (n <= length (frame_bytes f ++ rest))%nat -> buf_ok b -> buf_data b = take n (frame_bytes f ++ rest) ->
  hasCompleteMessage b = (length (frame_bytes f) <=? n)%nat.
Proof.
  intros Hf Hn Hb Hd. destruct (frame_newlines f rest Hf) as (E1 & E2 & E3 & _ & _ & El & E0).
  set (l1 := length (hex_field (fr_serial f))) in *. set (l2 := length (hex_field (Z.of_nat (length (fr_data f))))) in *.
  destruct Hf as [Hs Hl].
  assert (3 <= l1 <= 18)%nat by (by apply hex_field_length).
  assert (3 <= l2 <= 18)%nat by (apply hex_field_length; unfold ULLONG_MAX; lia).
  unfold hasCompleteMessage. rewrite Hd, length_take, Nat.min_l by done. unfold findLineBreak in *. rewrite !scan_take, E1 by done.
  destruct (Nat.ltb_spec n 2).
  { replace (length (frame_bytes f) <=? n)%nat with false by (symmetry; apply Nat.leb_gt; lia).
    destruct (Nat.eqb_spec n 1) as [->|]; [|done]. cbn [andb]. apply bool_decide_eq_false. intros E.
    unfold buf_at in E. rewrite <- lookup_drop in E. fold (buf_data b) in E. rewrite Hd, lookup_take_lt, E0 in E by lia. destruct (fr_text f); discriminate E. }
  destruct (Nat.leb_spec n (Nat.min n (S l1))).
  { symmetry. apply Nat.leb_gt. lia. }
  rewrite (Nat.min_r n (S l1)), E2 by lia. destruct (Nat.leb_spec n (Nat.min n (S (S l1) + l2))).
  { symmetry. apply Nat.leb_gt. lia. }
  rewrite (Nat.min_r n (S (S l1) + l2)) by lia. replace (S (S l1) + l2 - S (S l1))%nat with l2 by lia.
  destruct (Nat.leb_spec 32 l2); [lia|].
  assert (take l2 (drop (S (S l1)) (take n (frame_bytes f ++ rest))) = hex_field (Z.of_nat (length (fr_data f)))) as ->.
  { rewrite <- E3. rewrite skipn_firstn_comm, take_take. f_equal. lia. }
  unfold hex_field. rewrite strtoull16_hex by (unfold ULLONG_MAX; lia). rewrite u64_id by lia.
  destruct (Nat.leb_spec (length (frame_bytes f)) n); zcases; lia || done.
Qed.

Lemma buf_at_data b i : buf_at b i = buf_data b !! i.
Proof. unfold buf_at, buf_data. by rewrite lookup_drop. Qed.

Lemma buf_erase_front b n : buf_erase b 0 n = eraseFirst b n.
Proof. done. Qed.

Section receiving.
Context (mh : MessageHandler).

(** What one whole frame does to the handler. *)
Definition receive_frame (f : Frame) (p : ProxyProtocolHandler mh) : ProxyProtocolHandler mh :=
  processBufferedMessages mh (p <| ph_serialQueue ::= <[fr_serial f := fr_data f]> |>).

Lemma parse_frame f rest fuel s p :
  frame_fits f -> buf_ok (ss_inBuffer s) -> buf_data (ss_inBuffer s) = frame_bytes f ++ rest ->
  exists b, buf_ok b /\ buf_data b = rest /\
  parse_loop mh (S fuel) s p = parse_loop mh fuel (s <| ss_inBuffer := b |>) (receive_frame f p).
Proof.
  intros Hf Hb Hd. destruct (frame_newlines f rest Hf) as (E1 & E2 & E3 & E4 & E5 & El & E0).
  pose proof (hasCompleteMessage_take f rest (length (frame_bytes f ++ rest)) (ss_inBuffer s) Hf) as Hc.
  rewrite take_ge in Hc by done. specialize (Hc ltac:(lia) Hb Hd).
  rewrite length_app in Hc. rewrite (proj2 (Nat.leb_le _ _)) in Hc by lia.
  set (l1 := length (hex_field (fr_serial f))) in *. set (l2 := length (hex_field (Z.of_nat (length (fr_data f))))) in *.
  destruct Hf as [Hs Hl].
  set (b1 := eraseFirst (ss_inBuffer s) (S l1 + 1)). set (b2 := eraseFirst b1 (l2 + 1)).
  set (b3 := eraseFirst b2 (length (fr_data f))).
  assert (D1 : buf_data b1 = hex_field (Z.of_nat (length (fr_data f))) ++ chr_newline :: fr_data f ++ chr_newline :: rest).
  { unfold b1. rewrite eraseFirst_data, Hd, <- E5. f_equal. lia. }
  assert (D2 : buf_data b2 = fr_data f ++ chr_newline :: rest).
  { unfold b2. rewrite eraseFirst_data, D1, drop_app_ge by (fold l2; lia). fold l2. by replace (l2 + 1 - l2)%nat with 1%nat by lia. }
  assert (D3 : buf_data b3 = chr_newline :: rest).
  { unfold b3. rewrite eraseFirst_data, D2. by rewrite drop_app_length. }
  exists (eraseFirst b3 1). split_and!; [by repeat apply eraseFirst_ok|by rewrite eraseFirst_data, D3|].
  cbn [parse_loop]. rewrite buf_erase_front, !buf_size_data, Hc, !buf_at_data, Hd, E0, E1, length_app, El. cbn [negb].
  replace (_ =? 0)%nat with false by (symmetry; apply Nat.eqb_neq; lia).
  rewrite bool_decide_eq_false_2 by (destruct (fr_text f); discriminate).
  replace (negb _ && _) with false by (by destruct (fr_text f)).
  rewrite (proj2 (Nat.leb_gt _ _)) by lia.
  fold b1. rewrite D1. unfold findLineBreak.
  rewrite (scan_drop _ _ 0 (hex_field (Z.of_nat (length (fr_data f)))) chr_newline _ eq_refl) by
    (apply hex_field_plain; lia) || done.
  fold l2. rewrite length_app. cbn [length]. fold l2. rewrite (proj2 (Nat.leb_gt _ _)) by lia.
  rewrite buf_erase_front, Nat.add_0_l. fold b2.
  assert (L : strtoull16 (take l2 (hex_field (Z.of_nat (length (fr_data f))) ++ chr_newline :: fr_data f ++ chr_newline :: rest))
    = Z.of_nat (length (fr_data f))).
  { unfold l2. rewrite take_app_length. apply strtoull16_hex. unfold ULLONG_MAX. lia. }
  rewrite L, Nat2Z.id. replace (S l1 - 1)%nat with l1 by lia. rewrite E4. unfold hex_field at 1. rewrite strtoull16_hex by done.
  fold b3. rewrite D2, D3. assert (Hl3 : Z.of_nat (length (fr_data f ++ chr_newline :: rest)) <? Z.of_nat (length (fr_data f)) = false)
    by (apply Z.ltb_ge; rewrite length_app; lia).
  rewrite Hl3, take_app_length. reflexivity.
Qed.

(** A posted body: frames, then the terminator. *)
Definition posted_body (fs : list Frame) : bytes := concat (map frame_bytes fs) ++ [chr_dot].

Definition receive_frames (fs : list Frame) (p : ProxyProtocolHandler mh) : ProxyProtocolHandler mh :=
  fold_left (fun p f => receive_frame f p) fs p.

Lemma posted_cons f fs : posted_body (f :: fs) = frame_bytes f ++ posted_body fs.
Proof. unfold posted_body. cbn [map concat]. by rewrite (assoc_L (++)). Qed.

Lemma same_buffer s : s <| ss_inBuffer := ss_inBuffer s |> = s.
Proof. by destruct s. Qed.

(** Parsing what has arrived of a body: all the whole frames are received, and the
    terminator is accounted exactly when everything is there. *)
Lemma parse_posted fs fuel s p later :
  Forall frame_fits fs -> buf_ok (ss_inBuffer s) -> buf_data (ss_inBuffer s) ++ later = posted_body fs ->
  (length (buf_data (ss_inBuffer s)) < fuel)%nat ->
  exists got todo b, fs = got ++ todo /\ buf_ok b /\
  buf_data (ss_inBuffer s) = concat (map frame_bytes got) ++ buf_data b /\ (later = [] -> todo = []) /\
  parse_loop mh fuel s p =
    Ok (if bool_decide (later = []) then COMPLETE else AGAIN, s <| ss_inBuffer := b |>, receive_frames got p).
Proof.
  intros Hf. revert fuel s p. induction Hf as [|f fs Hf Hfs IH]; intros fuel s p Hb Hd Hfuel.
  all: destruct fuel as [|fuel]; [lia|].
  - exists [], [], (ss_inBuffer s). split_and!; try done. rewrite same_buffer. cbn [parse_loop receive_frames fold_left].
    unfold hasCompleteMessage. rewrite !buf_size_data, !buf_at_data. unfold posted_body in Hd. cbn in Hd.
    destruct (buf_data (ss_inBuffer s)) as [|c d].
    + cbn in Hd. subst later. by rewrite bool_decide_eq_false_2 by done.
    + injection Hd as -> Hd. apply app_eq_nil in Hd as [-> ->]. done.
  - rewrite posted_cons in Hd. set (d := buf_data (ss_inBuffer s)) in *.
    assert (Ht : d = take (length d) (frame_bytes f ++ posted_body fs)) by (by rewrite <- Hd, take_app_length).
    assert (Hn : (length d <= length (frame_bytes f ++ posted_body fs))%nat) by (rewrite <- Hd, length_app; lia).
    pose proof (hasCompleteMessage_take f (posted_body fs) (length d) (ss_inBuffer s) Hf Hn Hb Ht) as Hc.
    destruct (Nat.leb_spec (length (frame_bytes f)) (length d)) as [Hle|Hlt].
    + assert (Ek : exists k, d = frame_bytes f ++ k).
      { exists (take (length d - length (frame_bytes f)) (posted_body fs)). rewrite Ht at 1. by rewrite take_app_ge. }
      destruct Ek as [k Ek]. rewrite Ek, <- (assoc_L (++)) in Hd. apply app_inv_head in Hd.
      destruct (parse_frame f k fuel s p Hf Hb Ek) as (b & Hb' & Hd' & E).
      assert (0 < length (frame_bytes f))%nat by (rewrite frame_split; simpl; lia).
      destruct (IH fuel (s <| ss_inBuffer := b |>) (receive_frame f p)) as (got & todo & b' & -> & Hbb & Hg & Hl & E').
      * done.
      * cbn. by rewrite Hd'.
      * cbn. rewrite Hd'. rewrite Ek, length_app in Hfuel. lia.
      * exists (f :: got), todo, b'. split_and!; try done.
        -- cbn [map concat]. cbn in Hg. by rewrite <- (assoc_L (++)), <- Hg, Hd'.
        -- by rewrite E, E'.
    + exists [], (f :: fs), (ss_inBuffer s). rewrite same_buffer.
      assert (later <> []). { intros ->. rewrite app_nil_r in Hd. rewrite Hd, length_app in Hlt. lia. }
      split_and!; try done. cbn [parse_loop receive_frames fold_left]. rewrite Hc, (bool_decide_eq_false_2 (later = [])) by done.
      by destruct (_ =? 0)%nat.
Qed.
End receiving.

(** ** Runs of the server *)

(** Data arrives on a socket: the first data of a request is handled when its socket
    is given to the handler, what follows when it has been read. Or the sockets are
    polled for writing. *)
Inductive ProxyEvent :=
| ProxyData (id : nat) (data : bytes) (capacity : Z)
| ProxyPoll (capacity sock_capacity : Z).

Definition buf_append (b : Buffer) (data : bytes) : Buffer :=
  {| buf_offset := buf_offset b; buf_buffer := buf_buffer b ++ data |}.

Lemma buf_append_spec b data :
  buf_ok b -> buf_ok (buf_append b data) /\ buf_data (buf_append b data) = buf_data b ++ data.
Proof.
  unfold buf_ok, buf_data. intros H. cbn. split; [rewrite length_app; lia|]. by rewrite drop_app_le by lia.
Qed.

Definition proxy_step (mh : MessageHandler) (now server : bytes) (e : ProxyEvent) (w : ProxyWorld mh)
    : result (ProxyWorld mh) :=
  match e with
  | ProxyData id data capacity =>
      try (s, p) <-
        match pw_sockets w !! id with
        | None => handleRequest mh now server capacity
                    (StreamSocket_new <| ss_inBuffer := buf_append Buffer_new data |>) (pw_proxy w)
        | Some s => handleIncomingMessage mh now server capacity
                      (s <| ss_inBuffer ::= fun b => buf_append b data |>) (pw_proxy w)
        end;
      Ok {| pw_proxy := p; pw_sockets := <[id := s]> (pw_sockets w) |}
  | ProxyPoll capacity sock_capacity => Ok (performWrites mh now server capacity sock_capacity w)
  end.

Fixpoint proxy_run (mh : MessageHandler) (now server : bytes) (es : list ProxyEvent) (w : ProxyWorld mh)
    : result (ProxyWorld mh) :=
  match es with
  | [] => Ok w
  | e :: es' => try w <- proxy_step mh now server e w; proxy_run mh now server es' w
  end.

Definition event_data (id : nat) (e : ProxyEvent) : bytes :=
  match e with ProxyData i data _ => if (i =? id)%nat then data else [] | ProxyPoll _ _ => [] end.

(** What arrives on a socket. *)
Definition arrivals (es : list ProxyEvent) (id : nat) : bytes := concat (map (event_data id) es).

Definition proxy_event_ok (e : ProxyEvent) : Prop :=
  match e with ProxyData _ data _ => data <> [] | ProxyPoll _ _ => True end.

Definition proxy_start (mh : MessageHandler) (m : mh_state mh) : ProxyWorld mh :=
  {| pw_proxy := ProxyProtocolHandler_new mh m; pw_sockets := ∅ |}.

(** ** A session that is watched *)

(** The session's state with the messages it has handled and sent. *)
Record Recorded (mh : MessageHandler) := {
  rec_state : mh_state mh;
  rec_handled : list bytes;
  rec_sent : list OutMessage }.
Arguments rec_state {mh} _.
Arguments rec_handled {mh} _.
Arguments rec_sent {mh} _.

Definition recorded (mh : MessageHandler) : MessageHandler :=
  {| mh_state := Recorded mh;
     mh_handleMessage r data :=
       let '(m, out) := mh_handleMessage mh (rec_state r) data in
       ({| rec_state := m; rec_handled := rec_handled r ++ [data]; rec_sent := rec_sent r ++ out |}, out);
     mh_writeQueuedMessages r capacity :=
       let '(m, out) := mh_writeQueuedMessages mh (rec_state r) capacity in
       ({| rec_state := m; rec_handled := rec_handled r; rec_sent := rec_sent r ++ out |}, out);
     mh_hasQueuedMessages r := mh_hasQueuedMessages mh (rec_state r);
     mh_onDisconnect r :=
       {| rec_state := mh_onDisconnect mh (rec_state r); rec_handled := rec_handled r; rec_sent := rec_sent r |} |}.

Definition watch (mh : MessageHandler) (m : mh_state mh) : Recorded mh :=
  {| rec_state := m; rec_handled := []; rec_sent := [] |}.

(** The frames of the messages sent, numbered from [n]. *)
Fixpoint wire (n : Z) (sent : list OutMessage) : list bytes :=
  match sent with
  | [] => []
  | m :: sent' => Message_bytes m.1 (u64 n) m.2 :: wire (n + 1) sent'
  end.

Lemma wire_app n a b : wire n (a ++ b) = wire n a ++ wire (n + Z.of_nat (length a)) b.
Proof.
  revert n. induction a as [|m a IH]; intros n; cbn [wire app]; [by rewrite Z.add_0_r|].
  rewrite IH. do 3 f_equal. cbn [length]. lia.
Qed.

Lemma wire_nonempty n sent m : m ∈ wire n sent -> m <> [].
Proof.
  revert n. induction sent as [|x sent IH]; intros n; cbn [wire]; [by intros ?%elem_of_nil|].
  intros [->|H]%elem_of_cons; [|by eapply IH]. unfold Message_bytes. by destruct x.1.
Qed.

Section session.
Context (mh : MessageHandler).
Implicit Types p : ProxyProtocolHandler (recorded mh).

(** Outwards: what was flushed and what is queued is what the session sent. *)
Definition outbox (flushed : list bytes) p : Prop :=
  exists r, ph_msgHandler p = Some r /\ flushed ++ ph_writeQueue p = wire 1 (rec_sent r) /\
  ph_outSerial p = u64 (1 + Z.of_nat (length (rec_sent r))) /\ ph_outSockets p = [].

(** Inwards: the messages before [_inSerial] have been handled, and those that wait
    are the ones their serials say. *)
Definition inbox (ms : list bytes) p : Prop :=
  exists r, ph_msgHandler p = Some r /\ 1 <= ph_inSerial p <= Z.of_nat (length ms) + 1 /\
  rec_handled r = take (Z.to_nat (ph_inSerial p - 1)) ms /\
  (forall k d, ph_serialQueue p !! k = Some d -> 1 <= k /\ ms !! Z.to_nat (k - 1) = Some d).

Definition accounted p (k : Z) : Prop := k < ph_inSerial p \/ is_Some (ph_serialQueue p !! k).

(** The next message has not arrived. *)
Definition up_to_date p : Prop := ph_serialQueue p !! ph_inSerial p = None.

(** The fields that sending does not touch. *)
Definition same_inwards p p' : Prop :=
  ph_serialQueue p' = ph_serialQueue p /\ ph_inSerial p' = ph_inSerial p.

Lemma queueMessages_spec out p :
  let p' := queueMessages (recorded mh) out p in
  same_inwards p p' /\ ph_msgHandler p' = ph_msgHandler p /\ ph_outSockets p' = ph_outSockets p /\
  (forall n, ph_outSerial p = u64 n ->
     ph_writeQueue p' = ph_writeQueue p ++ wire n out /\ ph_outSerial p' = u64 (n + Z.of_nat (length out))).
Proof.
  unfold same_inwards, queueMessages. revert p. induction out as [|m out IH]; intros p; cbn [fold_left].
  - split_and!; try done. intros n ->. cbn [wire length]. by rewrite app_nil_r, Z.add_0_r.
  - destruct (IH (queueMessage (recorded mh) p m)) as ([Hq Hi] & Hm & Ho & Hn). cbn in Hq, Hi, Hm, Ho.
    split_and!; try done. intros n E. destruct (Hn (n + 1)) as [Hw Hs]; [cbn; by rewrite E, u64_add_l|].
    split; [rewrite Hw; cbn; by rewrite E, <- (assoc_L (++))|]. rewrite Hs. f_equal. cbn [length]. lia.
Qed.

(** Handing the session a message, or telling it to write, keeps the outbox. *)
Lemma outbox_send flushed p (r r' : mh_state (recorded mh)) out :
  outbox flushed p -> ph_msgHandler p = Some r -> rec_sent r' = rec_sent r ++ out ->
  let p' := queueMessages (recorded mh) out (p <| ph_msgHandler := Some r' |>) in
  outbox flushed p' /\ same_inwards p p' /\ ph_msgHandler p' = Some r'.
Proof.
  intros (r0 & E0 & Hw & Hs & Ho) E Hr p'. rewrite E in E0. injection E0 as <-.
  destruct (queueMessages_spec out (p <| ph_msgHandler := Some r' |>)) as (Hi & Hm & Ho' & Hn). fold p' in Hi, Hm, Ho', Hn.
  cbn in Hm. split_and!; [|done|done]. exists r'. split; [done|].
  destruct (Hn (1 + Z.of_nat (length (rec_sent r)))) as [Hw' Hs']; [done|].
  split_and!; [|rewrite Hs', Hr, length_app; f_equal; lia|by rewrite Ho'].
  rewrite Hw', Hr, wire_app, <- Hw. cbn. by rewrite (assoc_L (++)).
Qed.

Lemma emit_spec flushed data p r :
  outbox flushed p -> ph_msgHandler p = Some r ->
  let p' := emit (recorded mh) data p in
  exists r', outbox flushed p' /\ same_inwards p p' /\ ph_msgHandler p' = Some r' /\
  rec_handled r' = rec_handled r ++ [data].
Proof.
  intros Ho E. unfold emit. rewrite E. cbn -[queueMessages]. destruct (mh_handleMessage mh (rec_state r) data) as [m out].
  eexists. destruct (outbox_send flushed p r {| rec_state := m; rec_handled := rec_handled r ++ [data];
    rec_sent := rec_sent r ++ out |} out Ho E eq_refl) as (? & ? & ?). by split_and!.
Qed.

Lemma slurp_spec flushed capacity p r :
  outbox flushed p -> ph_msgHandler p = Some r ->
  let p' := (slurpHasMessages (recorded mh) capacity p).1 in
  exists r', outbox flushed p' /\ same_inwards p p' /\ ph_msgHandler p' = Some r' /\
  rec_handled r' = rec_handled r.
Proof.
  intros Ho E. unfold slurpHasMessages. rewrite E. cbn -[queueMessages].
  destruct (mh_writeQueuedMessages mh (rec_state r) capacity) as [m out].
  eexists. destruct (outbox_send flushed p r {| rec_state := m; rec_handled := rec_handled r;
    rec_sent := rec_sent r ++ out |} out Ho E eq_refl) as (? & ? & ?). by split_and!.
Qed.

Lemma inbox_same ms p p' r r' :
  inbox ms p -> same_inwards p p' -> ph_msgHandler p = Some r -> ph_msgHandler p' = Some r' ->
  rec_handled r' = rec_handled r -> inbox ms p'.
Proof.
  intros (r0 & E0 & Hb & Hh & Hq) [Eq Ei] E E' Hr. rewrite E in E0. injection E0 as <-.
  exists r'. rewrite Eq, Ei, Hr. split; [done|]. by repeat (split; [done|]).
Qed.

(** What the session was sent is untouched by what it waits for. *)
Lemma outbox_same flushed p p' :
  outbox flushed p -> ph_msgHandler p' = ph_msgHandler p -> ph_writeQueue p' = ph_writeQueue p ->
  ph_outSerial p' = ph_outSerial p -> ph_outSockets p' = ph_outSockets p -> outbox flushed p'.
Proof. intros (r & ? & ? & ? & ?) E1 E2 E3 E4. exists r. by rewrite E1, E2, E3, E4. Qed.

Lemma process_round ms flushed p data :
  Z.of_nat (length ms) < ULLONG_MAX -> inbox ms p -> outbox flushed p ->
  ph_serialQueue p !! ph_inSerial p = Some data ->
  let serial := ph_inSerial p in
  let q := emit (recorded mh) data (p <| ph_inSerial ::= fun n => u64 (n + 1) |>) in
  let p' := q <| ph_serialQueue ::= delete serial |> in
  inbox ms p' /\ outbox flushed p' /\ (forall k, accounted p k -> accounted p' k) /\
  ph_serialQueue p' = delete serial (ph_serialQueue p).
Proof.
  intros Hms (r & E & Hb & Hh & Hq) Ho Ed serial q p'. destruct (Hq _ _ Ed) as [H1 Hd].
  assert (Hlt := lookup_lt_Some _ _ _ Hd).
  assert (Ei : u64 (serial + 1) = serial + 1) by (apply u64_id; unfold ULLONG_MAX, serial in *; lia).
  destruct (emit_spec flushed data (p <| ph_inSerial ::= fun n => u64 (n + 1) |>) r) as (r' & Hq' & [Eq Es] & E' & Hr).
  - by apply (outbox_same _ p).
  - done.
  - fold q in Hq', Eq, Es, E'. cbn in Eq, Es. fold serial in Es. rewrite Ei in Es.
    assert (Eq' : ph_serialQueue p' = delete serial (ph_serialQueue p)) by (unfold p'; cbn; by rewrite Eq).
    assert (Es' : ph_inSerial p' = serial + 1) by (unfold p'; cbn; done).
    split_and!; [|by apply (outbox_same _ q)| |done].
    + exists r'. split; [done|]. rewrite Es', Hr, Hh, Eq'. fold serial in Hb, H1, Hd, Hlt |- *. split; [lia|]. split.
      * replace (Z.to_nat (serial + 1 - 1)) with (S (Z.to_nat (serial - 1))) by lia. by erewrite take_S_r.
      * intros k d [_ Hk]%lookup_delete_Some. by apply Hq.
    + intros k Hk. unfold accounted in *. rewrite Es', Eq'. fold serial in Hk. destruct (decide (k = serial)) as [->|Hne]; [left; lia|].
      destruct Hk as [Hk|Hk]; [left; lia|right]. by rewrite lookup_delete_ne.
Qed.

Lemma process_loop_spec ms flushed fuel p :
  Z.of_nat (length ms) < ULLONG_MAX -> (size (ph_serialQueue p) < fuel)%nat -> inbox ms p -> outbox flushed p ->
  let p' := process_loop (recorded mh) fuel p in
  inbox ms p' /\ outbox flushed p' /\ (forall k, accounted p k -> accounted p' k) /\ up_to_date p'.
Proof.
  intros Hms. revert p. induction fuel as [|fuel IH]; intros p Hf Hi Ho; [lia|]. cbn [process_loop].
  destruct (ph_serialQueue p !! ph_inSerial p) as [data|] eqn:E; [|done].
  destruct (process_round ms flushed p data Hms Hi Ho E) as (Hi' & Ho' & Hs & Eq).
  destruct (IH _ ltac:(rewrite Eq, map_size_delete, E; assert (size (ph_serialQueue p) <> 0%nat)
    by (intros Hz%map_size_empty_inv; rewrite Hz in E; done); cbn; lia) Hi' Ho') as (? & ? & Hs' & ?).
  split_and!; try done. intros k Hk. by apply Hs', Hs.
Qed.

(** A frame that numbers one of the messages. *)
Definition frame_of (ms : list bytes) (f : Frame) : Prop :=
  frame_fits f /\ 1 <= fr_serial f /\ ms !! Z.to_nat (fr_serial f - 1) = Some (fr_data f).

(** Receiving frames of the messages, in any order and repeated or not. *)
Lemma receive_frames_spec ms flushed fs p :
  Z.of_nat (length ms) < ULLONG_MAX -> Forall (frame_of ms) fs -> inbox ms p -> outbox flushed p -> up_to_date p ->
  let p' := receive_frames (recorded mh) fs p in
  inbox ms p' /\ outbox flushed p' /\ (forall k, accounted p k -> accounted p' k) /\
  (forall f, f ∈ fs -> accounted p' (fr_serial f)) /\ up_to_date p'.
Proof.
  intros Hms Hfs. revert p. induction Hfs as [|f fs (Hf & H1 & Hd) Hfs IH]; intros p Hi Ho Hst.
  - split_and!; try done. by intros f ?%elem_of_nil.
  - set (q := p <| ph_serialQueue ::= <[fr_serial f := fr_data f]> |>).
    assert (Hiq : inbox ms q).
    { destruct Hi as (r & E & Hb & Hh & Hq). exists r. split; [done|]. split; [done|]. split; [done|].
      intros k d Hk. unfold q in Hk. cbn in Hk. apply lookup_insert_Some in Hk as [[<- <-]|[_ Hk]]; [done|]. by apply Hq. }
    destruct (process_loop_spec ms flushed (S (size (ph_serialQueue q))) q Hms ltac:(lia) Hiq) as (Hi1 & Ho1 & Hs1 & Hst1).
    { by apply (outbox_same _ p). }
    destruct (IH (receive_frame (recorded mh) f p) Hi1 Ho1 Hst1) as (Hi2 & Ho2 & Hs2 & Hf2 & Hst2).
    split_and!; try done.
    + intros k [Hk|Hk]; apply Hs2, Hs1; [by left|right]. unfold q. cbn.
      destruct (decide (fr_serial f = k)) as [->|Hne]; [by rewrite lookup_insert_eq|by rewrite lookup_insert_ne].
    + intros g [->|Hg]%elem_of_cons; [|by apply Hf2]. apply Hs2, Hs1. right. unfold q. cbn. by rewrite lookup_insert_eq.
Qed.

(** ** Answers *)

Context (now server : bytes).

(** The answer to a request, which takes the queued messages along. *)
Definition reply_of (q : list bytes) : bytes :=
  match q with
  | [] => response_writeData (empty_response now server) []
  | _ => response_writeData (flush_response now server q) [] ++ concat q
  end.

Lemma response_writeData_app r out : response_writeData r out = out ++ response_writeData r [].
Proof.
  unfold response_writeData, header_writeData, status_writeData. cbn [app].
  by rewrite <- !(assoc_L (++)).
Qed.

Lemma send_response r s :
  socket_sendResponse r s = s <| ss_sent ::= fun o => o ++ response_writeData r [] |>.
Proof. unfold socket_sendResponse. destruct s as [i o h c]. cbn [rset]. by rewrite response_writeData_app. Qed.

Lemma send_queue q s :
  fold_left (fun s m => socket_send m s) q s = s <| ss_sent ::= fun o => o ++ concat q |>.
Proof.
  revert s. induction q as [|m q IH]; intros s; cbn [fold_left concat].
  - destruct s. cbn. by rewrite app_nil_r.
  - rewrite IH. destruct s. cbn. by rewrite (assoc_L (++)).
Qed.

Lemma sendAndClose_spec ms flushed capacity s p :
  outbox flushed p -> inbox ms p ->
  let '(s', p') := sendAndClose (recorded mh) now server capacity s p in
  exists q, outbox (flushed ++ q) p' /\ inbox ms p' /\ same_inwards p p' /\
  s' = s <| ss_sent ::= fun o => o ++ reply_of q |> <| ss_shutdown := true |>.
Proof.
  intros Ho Hi. destruct Ho as (r & E & Ho). unfold sendAndClose, flushQueueTo.
  destruct (slurp_spec flushed capacity p r (ex_intro _ r (conj E Ho)) E) as (r' & Ho' & Hs & E' & Hr).
  assert (Hi' := inbox_same _ _ _ _ _ Hi Hs E E' Hr).
  destruct (slurpHasMessages (recorded mh) capacity p) as [p' has] eqn:Es. cbn [fst] in *.
  assert (has = (0 <? length (ph_writeQueue p'))%nat) as -> by (unfold slurpHasMessages in Es; repeat case_match; by injection Es as <- <-).
  destruct (ph_writeQueue p') as [|m q] eqn:Eq.
  - cbn. exists []. rewrite app_nil_r. split_and!; try done.
    by rewrite send_response.
  - assert (length (concat (m :: q)) <> 0%nat).
    { destruct Ho' as (x & _ & Hw & _). rewrite Eq in Hw.
      assert (m <> []) by (apply (wire_nonempty 1 (rec_sent x)); rewrite <- Hw; set_solver).
      cbn [concat]. rewrite length_app. destruct m; simpl; [done|lia]. }
    cbn [length Nat.ltb Nat.leb negb]. rewrite (proj2 (Nat.eqb_neq _ _)) by done. exists (m :: q). split_and!.
    + destruct Ho' as (x & ? & Hw & ? & ?). exists x. split_and!; try done. cbn. rewrite app_nil_r. by rewrite <- Hw, Eq.
    + destruct Hi' as (x & ? & ? & ? & ?). by exists x.
    + done.
    + rewrite send_queue, send_response. unfold asyncShutdown, reply_of. destruct s. cbn [rset].
      by rewrite (assoc_L (++)).
Qed.

(** ** The sockets *)

(** A socket for which all of [arrived] was read: the frames got, and once the body
    is whole, one answer. *)
Definition socket_ok (bodies : list (list Frame)) (arrived : nat -> bytes) (replies : list (nat * list bytes)) p
    (id : nat) (o : option StreamSocket) : Prop :=
  match o with
  | None => arrived id = [] /\ id ∉ replies.*1
  | Some s => exists got todo later,
      bodies !! id = Some (got ++ todo) /\ buf_ok (ss_inBuffer s) /\
      arrived id = concat (map frame_bytes got) ++ buf_data (ss_inBuffer s) /\
      buf_data (ss_inBuffer s) ++ later = posted_body todo /\ (later = [] -> todo = []) /\
      (forall f, f ∈ got -> accounted p (fr_serial f)) /\
      (later <> [] -> ss_shutdown s = false /\ ss_sent s = [] /\ id ∉ replies.*1) /\
      (later = [] -> ss_shutdown s = true /\ exists q, (id, q) ∈ replies /\ ss_sent s = reply_of q)
  end.

Record world_ok (ms : list bytes) (bodies : list (list Frame)) (arrived : nat -> bytes)
    (replies : list (nat * list bytes)) (w : ProxyWorld (recorded mh)) : Prop := {
  wk_out : outbox (concat replies.*2) (pw_proxy w);
  wk_in : inbox ms (pw_proxy w);
  wk_settled : up_to_date (pw_proxy w);
  wk_nodup : NoDup replies.*1;
  wk_socket : forall id, socket_ok bodies arrived replies (pw_proxy w) id (pw_sockets w !! id) }.

Lemma posted_app a b : posted_body (a ++ b) = concat (map frame_bytes a) ++ posted_body b.
Proof. unfold posted_body. by rewrite map_app, concat_app, (assoc_L (++)). Qed.

(** New data on a socket whose body is not whole yet. *)
Lemma incoming_spec ms bodies arrived replies p id s capacity got todo later :
  Z.of_nat (length ms) < ULLONG_MAX -> Forall (Forall (frame_of ms)) bodies ->
  outbox (concat replies.*2) p -> inbox ms p -> up_to_date p -> NoDup replies.*1 -> id ∉ replies.*1 ->
  bodies !! id = Some (got ++ todo) -> buf_ok (ss_inBuffer s) -> ss_shutdown s = false -> ss_sent s = [] ->
  arrived id = concat (map frame_bytes got) ++ buf_data (ss_inBuffer s) ->
  buf_data (ss_inBuffer s) ++ later = posted_body todo -> (forall f, f ∈ got -> accounted p (fr_serial f)) ->
  exists s' p' replies',
  handleRequest (recorded mh) now server capacity s p = Ok (s', p') /\
  handleIncomingMessage (recorded mh) now server capacity s p = Ok (s', p') /\
  outbox (concat replies'.*2) p' /\ inbox ms p' /\ up_to_date p' /\ NoDup replies'.*1 /\
  (forall k, accounted p k -> accounted p' k) /\ socket_ok bodies arrived replies' p' id (Some s') /\
  (forall i, i <> id -> i ∈ replies'.*1 <-> i ∈ replies.*1) /\ (forall e, e ∈ replies -> e ∈ replies').
Proof.
  intros Hms Hb Ho Hi Hst Hnd Hid Hg Hok Hsh Hse Ha Hl Hgot.
  assert (Hfs : Forall (frame_of ms) (got ++ todo)) by (by eapply Forall_lookup_1).
  apply Forall_app in Hfs as [_ Hfs].
  assert (Hfo : Forall frame_fits todo) by (eapply Forall_impl; [exact Hfs|]; by intros f [? _]).
  destruct (parse_posted (recorded mh) todo (S (buf_size (ss_inBuffer s))) s p later Hfo Hok Hl)
    as (new & todo' & b & Et & Hb' & Hd & Hend & E); [rewrite buf_size_data; lia|].
  assert (Hfn : Forall (frame_of ms) new) by (rewrite Et in Hfs; by apply Forall_app in Hfs as [? _]).
  destruct (receive_frames_spec ms (concat replies.*2) new p Hms Hfn Hi Ho Hst) as (Hi1 & Ho1 & Hs1 & Hf1 & Hst1).
  set (p1 := receive_frames (recorded mh) new p) in *. set (s1 := s <| ss_inBuffer := b |>) in *.
  assert (Hsock : forall p2, (forall k, accounted p1 k -> accounted p2 k) ->
    bodies !! id = Some ((got ++ new) ++ todo') /\ buf_ok b /\
    arrived id = concat (map frame_bytes (got ++ new)) ++ buf_data b /\ buf_data b ++ later = posted_body todo' /\
    (forall f, f ∈ got ++ new -> accounted p2 (fr_serial f))).
  { intros p2 Hp2. rewrite <- (assoc_L (++)), <- Et, map_app, concat_app, <- (assoc_L (++)), <- Hd. split_and!; try done.
    - rewrite Hd, Et, posted_app, <- (assoc_L (++)) in Hl. by apply app_inv_head in Hl.
    - intros f [Hf|Hf]%elem_of_app; apply Hp2; [by apply Hs1, Hgot|by apply Hf1]. }
  destruct Ho as (r & Em & _). unfold handleRequest, handleIncomingMessage, parseEmitIncoming. rewrite Em, E. cbn [rbind].
  destruct (decide (later = [])) as [Hlater|Hlater].
  - rewrite bool_decide_eq_true_2 by done.
    pose proof (sendAndClose_spec ms (concat replies.*2) capacity s1 p1 Ho1 Hi1) as Hsc.
    destruct (sendAndClose (recorded mh) now server capacity s1 p1) as [s2 p2] eqn:Esc.
    destruct Hsc as (q & Ho2 & Hi2 & [Eq Ei] & Es2). exists s2, p2, (replies ++ [(id, q)]).
    assert (Hs2 : forall k, accounted p1 k -> accounted p2 k) by (intros k; unfold accounted; by rewrite Eq, Ei).
    split_and!; try done.
    + rewrite fmap_app, concat_app. cbn. by rewrite app_nil_r.
    + unfold up_to_date. by rewrite Eq, Ei.
    + rewrite fmap_app. apply NoDup_app. split_and!; [done| |apply NoDup_singleton].
      by intros x Hx ->%list_elem_of_singleton.
    + intros k Hk. by apply Hs2, Hs1.
    + cbn [socket_ok]. exists (got ++ new), todo', later. destruct (Hsock p2 Hs2) as (? & ? & ? & ? & ?).
      subst s2. cbn. split_and!; try done. intros _. split; [done|]. exists q.
      split; [apply elem_of_app; right; by apply list_elem_of_singleton|]. by rewrite Hse.
    + intros i Hne. rewrite fmap_app, elem_of_app. split; [|by left]. by intros [?|?%list_elem_of_singleton].
    + intros e Hx. apply elem_of_app. by left.
  - rewrite bool_decide_eq_false_2 by done. exists s1, p1, replies. split_and!; try done.
    cbn [socket_ok]. exists (got ++ new), todo', later. destruct (Hsock p1 (fun k H => H)) as (? & ? & ? & ? & ?).
    by split_and!.
Qed.

Definition body_of (bodies : list (list Frame)) (id : nat) : bytes :=
  match bodies !! id with Some fs => posted_body fs | None => [] end.

(** A socket that is left alone keeps its invariant. *)
Lemma socket_ok_other bodies arrived arrived' replies replies' p p' i o :
  socket_ok bodies arrived replies p i o -> arrived' i = arrived i -> (forall k, accounted p k -> accounted p' k) ->
  (i ∈ replies'.*1 <-> i ∈ replies.*1) -> (forall e, e ∈ replies -> e ∈ replies') ->
  socket_ok bodies arrived' replies' p' i o.
Proof.
  intros H Ea Hs Hk He. destruct o as [s|]; cbn [socket_ok] in *; [|by rewrite Ea, Hk].
  destruct H as (got & todo & later & ? & ? & ? & ? & ? & Hg & Hopen & Hclosed). exists got, todo, later. rewrite Ea, Hk.
  split_and!; try done.
  - intros f Hf. by apply Hs, Hg.
  - intros Hl. destruct (Hclosed Hl) as (? & q & Hq & ?). split; [done|]. exists q. split; [by apply He|done].
Qed.

Lemma data_step ms bodies arrived replies w id data capacity :
  Z.of_nat (length ms) < ULLONG_MAX -> Forall (Forall (frame_of ms)) bodies ->
  world_ok ms bodies arrived replies w -> data <> [] -> arrived id ++ data `prefix_of` body_of bodies id ->
  exists w' replies', proxy_step (recorded mh) now server (ProxyData id data capacity) w = Ok w' /\
  world_ok ms bodies (fun i => arrived i ++ (if (id =? i)%nat then data else [])) replies' w'.
Proof.
  intros Hms Hb [Ho Hi Hst Hnd Hsock] Hne [later Hp]. 
  assert (Hstep : exists s0 got todo, bodies !! id = Some (got ++ todo) /\ buf_ok (ss_inBuffer s0) /\
    ss_shutdown s0 = false /\ ss_sent s0 = [] /\ id ∉ replies.*1 /\ 
    arrived id ++ data = concat (map frame_bytes got) ++ buf_data (ss_inBuffer s0) /\
    buf_data (ss_inBuffer s0) ++ later = posted_body todo /\ (forall f, f ∈ got -> accounted (pw_proxy w) (fr_serial f)) /\
    (proxy_step (recorded mh) now server (ProxyData id data capacity) w =
       (try (s, p) <- handleRequest (recorded mh) now server capacity s0 (pw_proxy w);
        Ok {| pw_proxy := p; pw_sockets := <[id := s]> (pw_sockets w) |}) \/
     proxy_step (recorded mh) now server (ProxyData id data capacity) w =
       (try (s, p) <- handleIncomingMessage (recorded mh) now server capacity s0 (pw_proxy w);
        Ok {| pw_proxy := p; pw_sockets := <[id := s]> (pw_sockets w) |}))).
  { specialize (Hsock id). unfold body_of in Hp. cbn [proxy_step]. destruct (pw_sockets w !! id) as [s|]; cbn [socket_ok] in Hsock.
    - destruct Hsock as (got & todo & later' & Hg & Hok & Ha & Hl & Hend & Hseen & Hopen & _). rewrite Hg in Hp.
      rewrite posted_app, Ha, <- !(assoc_L (++)) in Hp. apply app_inv_head in Hp. rewrite <- Hl in Hp. apply app_inv_head in Hp.
      destruct Hopen as (? & ? & ?); [intros ->; by destruct data|].
      destruct (buf_append_spec (ss_inBuffer s) data Hok) as [Hok' Hd'].
      exists (s <| ss_inBuffer ::= fun b => buf_append b data |>), got, todo. cbn [ss_inBuffer ss_shutdown ss_sent rset].
      rewrite Hd'. split_and!; try done; [by rewrite Ha, (assoc_L (++))| |by right].
      by rewrite <- (assoc_L (++)), <- Hp, Hl.
    - destruct Hsock as [Ha Hid]. rewrite Ha in *. destruct (bodies !! id) as [fs|]; [|by destruct data].
      exists (StreamSocket_new <| ss_inBuffer := buf_append Buffer_new data |>), [], fs. cbn.
      split_and!; try done; [unfold buf_ok; cbn; lia|by intros f ?%elem_of_nil|by left]. }
  destruct Hstep as (s0 & got & todo & Hg & Hok & Hsh & Hse & Hid & Ha & Hl & Hseen & Hstep).
  destruct (incoming_spec ms bodies (fun i => arrived i ++ (if (id =? i)%nat then data else [])) replies (pw_proxy w) id s0 capacity
    got todo later Hms Hb Ho Hi Hst Hnd Hid Hg Hok Hsh Hse) as (s' & p' & replies' & E1 & E2 & Ho' & Hi' & Hst' & Hnd' & Hs' & Hso & Hk & He).
  { by rewrite Nat.eqb_refl. } { done. } { done. }
  exists {| pw_proxy := p'; pw_sockets := <[id := s']> (pw_sockets w) |}, replies'. split.
  - destruct Hstep as [-> | ->]; [by rewrite E1|by rewrite E2].
  - split; try done. cbn. intros i. destruct (decide (i = id)) as [->|Hni]; [by rewrite lookup_insert_eq|].
    rewrite lookup_insert_ne by done. eapply socket_ok_other; [apply Hsock| |done|by apply Hk|done].
    cbn. by rewrite (proj2 (Nat.eqb_neq id i)), app_nil_r by congruence.
Qed.

(** Polling moves messages into the handler's queue and no further. *)
Lemma poll_step ms bodies arrived replies w capacity sock_capacity :
  world_ok ms bodies arrived replies w ->
  world_ok ms bodies arrived replies (performWrites (recorded mh) now server capacity sock_capacity w) /\
  pw_sockets (performWrites (recorded mh) now server capacity sock_capacity w) = pw_sockets w.
Proof.
  intros [Ho Hi Hst Hnd Hsock]. destruct Ho as (r & E & Ho0). assert (Ho : outbox (concat replies.*2) (pw_proxy w)) by (by exists r).
  destruct (slurp_spec _ capacity _ r Ho E) as (r' & Ho' & [Eq Ei] & E' & Hr).
  assert (Hi' := inbox_same _ _ _ _ _ Hi (conj Eq Ei) E E' Hr). unfold performWrites.
  destruct (slurpHasMessages (recorded mh) capacity (pw_proxy w)) as [p has]. cbn [fst] in *.
  set (w' := w <| pw_proxy := p |>).
  assert (Hw : world_ok ms bodies arrived replies w').
  { split; try done; [unfold up_to_date; cbn; by rewrite Eq, Ei|]. intros i.
    eapply socket_ok_other; [apply Hsock|done| |done|done]. intros k. unfold accounted. cbn. by rewrite Eq, Ei. }
  destruct has; [|done]. cbn [negb]. unfold flush_popped, popOutSocket. destruct Ho' as (x & ? & ? & ? & Hout).
  cbn [w' pw_proxy rset]. rewrite Hout. cbn [pop_out]. split; [|done].
  assert (w' <| pw_proxy ::= fun p => p <| ph_outSockets := [] |> |> = w') as E2; [|exact (eq_ind_r (world_ok _ _ _ _) Hw E2)].
  unfold w'. destruct w, p. cbn in *. by rewrite Hout.
Qed.

Lemma proxy_run_ok ms bodies es arrived replies w :
  Z.of_nat (length ms) < ULLONG_MAX -> Forall (Forall (frame_of ms)) bodies -> Forall proxy_event_ok es ->
  world_ok ms bodies arrived replies w ->
  (forall id, arrived id ++ arrivals es id `prefix_of` body_of bodies id) ->
  exists w' replies', proxy_run (recorded mh) now server es w = Ok w' /\
  world_ok ms bodies (fun i => arrived i ++ arrivals es i) replies' w'.
Proof.
  intros Hms Hb Hes. revert arrived replies w. induction Hes as [|e es He Hes IH]; intros arrived replies w Hw Hp.
  - exists w, replies. split; [done|]. destruct Hw as [? ? ? ? Hs]. split; try done.
    intros i. eapply socket_ok_other; [apply Hs| |done|done|done]. unfold arrivals. cbn. by rewrite app_nil_r.
  - unfold arrivals in Hp. cbn [map concat] in Hp. fold (arrivals es) in Hp.
    assert (Hstep : exists w1 replies1, proxy_step (recorded mh) now server e w = Ok w1 /\
      world_ok ms bodies (fun i => arrived i ++ event_data i e) replies1 w1).
    { destruct e as [id data capacity|capacity sock_capacity].
      - apply (data_step ms bodies arrived replies w id data capacity Hms Hb Hw He).
        specialize (Hp id). cbn in Hp. rewrite Nat.eqb_refl, (assoc_L (++)) in Hp.
        etrans; [|exact Hp]. by apply prefix_app_r.
      - eexists _, replies. split; [done|]. destruct (poll_step ms bodies arrived replies w capacity sock_capacity Hw) as [[? ? ? ? Hs] _].
        split; try done. intros i. eapply socket_ok_other; [apply Hs| |done|done|done]. cbn. by rewrite app_nil_r. }
    destruct Hstep as (w1 & replies1 & E1 & Hw1). destruct (IH _ _ _ Hw1) as (w' & replies' & E' & Hw').
    + intros id. rewrite <- (assoc_L (++)). apply Hp.
    + exists w', replies'. cbn [proxy_run]. rewrite E1. cbn [rbind]. split; [done|].
      destruct Hw' as [? ? ? ? Hs]. split; try done. intros i. eapply socket_ok_other; [apply Hs| |done|done|done].
      unfold arrivals. cbn [map concat]. by rewrite (assoc_L (++)).
Qed.

Lemma start_ok ms bodies m : world_ok ms bodies (fun _ => []) [] (proxy_start (recorded mh) (watch mh m)).
Proof.
  split.
  - by exists (watch mh m).
  - exists (watch mh m). cbn. split_and!; try done; try lia.
  - done.
  - apply NoDup_nil_2.
  - intros i. cbn. split; [done|]. by intros ?%elem_of_nil.
Qed.

(** The messages that are known to have arrived have been handled. *)
Lemma handled_upto ms bodies arrived replies w k :
  world_ok ms bodies arrived replies w ->
  (forall j, 1 <= j <= k -> exists id fs f, bodies !! id = Some fs /\ f ∈ fs /\ fr_serial f = j /\ arrived id = posted_body fs) ->
  k < ph_inSerial (pw_proxy w).
Proof.
  intros [_ (r & _ & Hb & _) Hst _ Hsock] Hall. destruct (Z.lt_ge_cases k (ph_inSerial (pw_proxy w))); [done|].
  destruct (Hall (ph_inSerial (pw_proxy w))) as (id & fs & f & Hid & Hf & Hj & Ha); [lia|].
  specialize (Hsock id). destruct (pw_sockets w !! id) as [s|]; cbn [socket_ok] in Hsock.
  - destruct Hsock as (got & todo & later & Hg & _ & Ha' & Hl & Hend & Hseen & _). rewrite Hid in Hg. injection Hg as ->.
    rewrite Ha, posted_app in Ha'. apply app_inv_head in Ha'. rewrite Ha' in Hl.
    assert (later = []) as -> by (destruct later; [done|]; apply (f_equal length) in Hl; rewrite length_app in Hl; simpl in Hl; lia).
    rewrite Hend, app_nil_r in Hf by done. destruct (Hseen f Hf) as [Hlt|[d Hd]]; [lia|].
    rewrite Hj in Hd. unfold up_to_date in Hst. congruence.
  - destruct Hsock as [Ha' _]. rewrite Ha in Ha'. unfold posted_body in Ha'. by destruct (concat (map frame_bytes fs)).
Qed.
End session.

(** ** Runs of the browser *)

(** The application sends a message, the poll timer fires, a request has ended. *)
Inductive BrowserOp := BrowserSend (msg : bytes) | BrowserPost | BrowserLoadEnd.

(** The bodies posted. *)
Fixpoint browser_run (ops : list BrowserOp) (b : BrowserSocket) : BrowserSocket * list bytes :=
  match ops with
  | [] => (b, [])
  | BrowserSend msg :: ops' => browser_run ops' (js_send msg b)
  | BrowserLoadEnd :: ops' => browser_run ops' (js_loadend b)
  | BrowserPost :: ops' =>
      let '(b, body) := js_doSend b in
      let '(b, bodies) := browser_run ops' b in
      (b, match body with Some body => body :: bodies | None => bodies end)
  end.

(** The messages each request takes along, told abstractly: those sent since the
    last request, and no request while four have no answer. *)
Fixpoint posts (pending : list bytes) (inflight : Z) (ops : list BrowserOp) : list (list bytes) :=
  match ops with
  | [] => []
  | BrowserSend msg :: ops' => posts (pending ++ [msg]) inflight ops'
  | BrowserLoadEnd :: ops' => posts pending (inflight - 1) ops'
  | BrowserPost :: ops' =>
      if 4 <=? inflight then posts pending inflight ops' else pending :: posts [] (inflight + 1) ops'
  end.

Fixpoint number (n : Z) (msgs : list bytes) : list Frame :=
  match msgs with
  | [] => []
  | m :: msgs' => {| fr_text := false; fr_serial := n; fr_data := m |} :: number (n + 1) msgs'
  end.
Fixpoint number_groups (n : Z) (gs : list (list bytes)) : list (list Frame) :=
  match gs with
  | [] => []
  | g :: gs' => number n g :: number_groups (n + Z.of_nat (length g)) gs'
  end.

Lemma number_app n a b : number n (a ++ b) = number n a ++ number (n + Z.of_nat (length a)) b.
Proof.
  revert n. induction a as [|m a IH]; intros n; cbn [number app]; [by rewrite Z.add_0_r|].
  rewrite IH. do 2 f_equal. cbn [length]. f_equal. lia.
Qed.

Lemma browser_run_posts ops b n pending token :
  bs_sessionId b = Some token -> bs_outSerial b = n + Z.of_nat (length pending) ->
  bs_sendQueue b = concat (map frame_bytes (number n pending)) ->
  (browser_run ops b).2 = map posted_body (number_groups n (posts pending (bs_msgInflight b) ops)).
Proof.
  revert b n pending. induction ops as [|op ops IH]; intros b n pending Hid Hn Hq; [done|].
  destruct op as [msg| |]; cbn [browser_run posts].
  - apply (IH (js_send msg b) n (pending ++ [msg])); [done|cbn; rewrite Hn, length_app; cbn; lia|].
    cbn -[str hex_string]. rewrite Hq, number_app, map_app, concat_app, Hn. f_equal. cbn [number map concat]. by rewrite app_nil_r.
  - unfold js_doSend. rewrite Hid. destruct (Z.leb_spec 4 (bs_msgInflight b)).
    + rewrite <- (IH b n pending Hid Hn Hq). by destruct (browser_run ops b).
    + set (b' := b <| bs_sendQueue := [] |> <| bs_msgInflight ::= fun k => k + 1 |>).
      pose proof (IH b' (n + Z.of_nat (length pending)) [] Hid) as Hb. cbn [length number map concat] in Hb.
      specialize (Hb ltac:(cbn; lia) eq_refl). change (bs_msgInflight b') with (bs_msgInflight b + 1) in Hb.
      destruct (browser_run ops b') as [b2 bodies]. cbn [snd] in *. cbn [number_groups map]. by rewrite <- Hb, Hq.
  - by apply (IH (js_loadend b) n pending).
Qed.

Lemma number_lookup n l i :
  number n l !! i = (fun m => {| fr_text := false; fr_serial := n + Z.of_nat i; fr_data := m |}) <$> l !! i.
Proof.
  revert n i. induction l as [|m l IH]; intros n [|i]; cbn [number lookup list_lookup fmap]; try done.
  - by rewrite Z.add_0_r.
  - rewrite IH. destruct (l !! i); [|done]. cbn. do 2 f_equal. lia.
Qed.

Lemma number_groups_concat n gs : concat (number_groups n gs) = number n (concat gs).
Proof.
  revert n. induction gs as [|g gs IH]; intros n; [done|]. cbn [number_groups concat]. by rewrite IH, number_app.
Qed.

Lemma number_groups_take n gs k : take k (number_groups n gs) = number_groups n (take k gs).
Proof. revert n k. induction gs as [|g gs IH]; intros n [|k]; cbn; [done..|]. by rewrite IH. Qed.

Lemma elem_of_concat {A} (x : A) ls : x ∈ concat ls <-> exists l, x ∈ l /\ l ∈ ls.
Proof.
  rewrite list_elem_of_In, in_concat. split; intros (l & H1 & H2); exists l; by rewrite ?list_elem_of_In in *.
Qed.

(** Messages that fit the frames they travel in. *)
Definition messages_ok (ms : list bytes) : Prop :=
  Forall (fun m => Z.of_nat (length m) < 2 ^ 62) ms /\ Z.of_nat (length ms) < ULLONG_MAX.

Lemma number_groups_frames gs :
  messages_ok (concat gs) -> Forall (Forall (frame_of (concat gs))) (number_groups 1 gs).
Proof.
  intros [Hl Hn]. apply Forall_forall. intros fs Hfs. apply Forall_forall. intros f Hf.
  assert (Hin : f ∈ number 1 (concat gs)) by (rewrite <- number_groups_concat; apply elem_of_concat; by exists fs).
  apply list_elem_of_lookup in Hin as [i Hi]. rewrite number_lookup in Hi.
  destruct (concat gs !! i) as [m|] eqn:E; [|done]. injection Hi as <-. assert (Hlt := lookup_lt_Some _ _ _ E).
  unfold frame_of, frame_fits. cbn. split_and!; try lia.
  - exact (Forall_lookup_1 _ _ _ _ Hl E).
  - by replace (Z.to_nat (1 + Z.of_nat i - 1)) with i by lia.
Qed.

Definition browser_connected (token : bytes) : BrowserSocket := js_opened 200 token BrowserSocket_new.

Section answered.
Context (mh : MessageHandler) (now server : bytes).

Lemma pair_unique {A B} (l : list (A * B)) a b c : NoDup l.*1 -> (a, b) ∈ l -> (a, c) ∈ l -> b = c.
Proof.
  intros Hnd [i Hi]%list_elem_of_lookup [j Hj]%list_elem_of_lookup.
  assert (i = j) as ->; [|congruence].
  apply (NoDup_lookup l.*1 i j a Hnd); by rewrite list_lookup_fmap, ?Hi, ?Hj.
Qed.

(** Exactly the requests that are whole have an answer, and it is on their socket. *)
Lemma answered_exactly ms bodies arrived replies w :
  world_ok mh now server ms bodies arrived replies w ->
  (forall id, id ∈ replies.*1 <-> exists fs, bodies !! id = Some fs /\ arrived id = posted_body fs) /\
  (forall id q, (id, q) ∈ replies ->
     exists s, pw_sockets w !! id = Some s /\ ss_shutdown s = true /\ ss_sent s = reply_of now server q) /\
  (forall id s, pw_sockets w !! id = Some s -> id ∉ replies.*1 -> ss_shutdown s = false /\ ss_sent s = []).
Proof.
  intros [_ _ _ Hnd Hsock].
  assert (Hstream : forall fs, posted_body fs <> []) by (intros fs; unfold posted_body; by destruct (concat _)).
  assert (Hin : forall id q, (id, q) ∈ replies -> id ∈ replies.*1).
  { intros id q H. apply list_elem_of_fmap. by exists (id, q). }
  split_and!.
  - intros id. specialize (Hsock id). destruct (pw_sockets w !! id) as [s|]; cbn [socket_ok] in Hsock.
    + destruct Hsock as (got & todo & later & Hg & _ & Ha & Hl & Hend & _ & Hopen & Hclosed). split.
      * intros Hid. destruct (decide (later = [])) as [->|Hne]; [|by destruct (Hopen Hne) as (_ & _ & ?)].
        exists (got ++ todo). split; [done|]. by rewrite Ha, posted_app, <- Hl, app_nil_r.
      * intros (fs & Hfs & E). rewrite Hg in Hfs. injection Hfs as <-. rewrite Ha, posted_app in E. apply app_inv_head in E.
        rewrite E in Hl. assert (later = []) as Hn.
        { destruct later; [done|]. apply (f_equal length) in Hl. rewrite length_app in Hl. simpl in Hl. lia. }
        destruct (Hclosed Hn) as (_ & q & Hq & _). by eapply Hin.
    + destruct Hsock as [Ha Hid]. split; [done|]. intros (fs & _ & E). rewrite Ha in E. by destruct (Hstream fs).
  - intros id q Hq. specialize (Hsock id). assert (Hid := Hin _ _ Hq).
    destruct (pw_sockets w !! id) as [s|]; cbn [socket_ok] in Hsock; [|by destruct Hsock].
    destruct Hsock as (got & todo & later & _ & _ & _ & _ & _ & _ & Hopen & Hclosed). exists s. split; [done|].
    destruct (decide (later = [])) as [Hn|Hne]; [|by destruct (Hopen Hne) as (_ & _ & ?)].
    destruct (Hclosed Hn) as (Hs & q' & Hq' & E). split; [done|]. by rewrite (pair_unique _ _ _ _ Hnd Hq Hq').
  - intros id s Hs Hid. specialize (Hsock id). rewrite Hs in Hsock.
    destruct Hsock as (got & todo & later & _ & _ & _ & _ & _ & _ & Hopen & Hclosed).
    destruct (decide (later = [])) as [Hn|Hne]; [|by destruct (Hopen Hne) as (? & ? & _)].
    destruct (Hclosed Hn) as (_ & q' & Hq' & _). by destruct Hid; eapply Hin.
Qed.
End answered.

(** C6 (refinement): a proxied connection carries the browser's messages as one
    connection would. Whatever the application sends and whenever the poll timer
    fires, however the posted requests overtake each other on their way, are cut
    into pieces and interleaved: the server parses everything without an undefined
    step; the session has handled a prefix of the messages posted, in the order they
    were sent and each once; the messages of the first [n] requests are all handled
    once these have arrived; a request has an answer exactly when it is whole, one,
    on its own socket, which is then shut down; and the answers together with what
    is still queued hold exactly the messages the session has sent, in order. *)
Theorem proxy_delivers_in_order mh m now server token ops evs :
  token <> [] -> chr_newline ∉ token ->
  let bodies := (browser_run ops (browser_connected token)).2 in
  let gs := posts [] 0 ops in
  messages_ok (concat gs) -> Forall proxy_event_ok evs ->
  (forall id, arrivals evs id `prefix_of` default [] (bodies !! id)) ->
  exists w r replies,
  proxy_run (recorded mh) now server evs (proxy_start (recorded mh) (watch mh m)) = Ok w /\
  ph_msgHandler (pw_proxy w) = Some r /\
  rec_handled r `prefix_of` concat gs /\
  (forall n, (n <= length bodies)%nat -> (forall id, (id < n)%nat -> bodies !! id = Some (arrivals evs id)) ->
     concat (take n gs) `prefix_of` rec_handled r) /\
  NoDup replies.*1 /\ (forall id, id ∈ replies.*1 <-> bodies !! id = Some (arrivals evs id)) /\
  (forall id q, (id, q) ∈ replies ->
     exists s, pw_sockets w !! id = Some s /\ ss_shutdown s = true /\ ss_sent s = reply_of now server q) /\
  (forall id s, pw_sockets w !! id = Some s -> id ∉ replies.*1 -> ss_shutdown s = false /\ ss_sent s = []) /\
  concat replies.*2 ++ ph_writeQueue (pw_proxy w) = wire 1 (rec_sent r).
Proof.
  intros Hne Hnl bodies gs Hms Hev Hp.
  assert (Hc : bs_sessionId (browser_connected token) = Some token /\ bs_outSerial (browser_connected token) = 1 /\
    bs_sendQueue (browser_connected token) = [] /\ bs_msgInflight (browser_connected token) = 0).
  { unfold browser_connected, js_opened. rewrite bool_decide_eq_false_2 by done. by destruct token. }
  destruct Hc as (Hc1 & Hc2 & Hc3 & Hc4).
  assert (Hb : bodies = map posted_body (number_groups 1 gs)).
  { unfold bodies, gs. rewrite <- Hc4. by apply (browser_run_posts _ _ 1 [] token). }
  assert (Hbody : forall id, bodies !! id = posted_body <$> number_groups 1 gs !! id) by (intros id; rewrite Hb; apply list_lookup_fmap).
  destruct (proxy_run_ok mh now server (concat gs) (number_groups 1 gs) evs (fun _ => []) [] (proxy_start (recorded mh) (watch mh m)))
    as (w & replies & E & Hw).
  - apply Hms.
  - by apply number_groups_frames.
  - done.
  - apply start_ok.
  - intros id. specialize (Hp id). rewrite Hbody in Hp. unfold body_of. by destruct (number_groups 1 gs !! id).
  - cbn [app] in Hw. destruct (answered_exactly _ _ _ _ _ _ _ _ Hw) as (Hid & Hq & Hno).
    assert (Hw' := Hw). destruct Hw' as [(r & Er & Hout & _) (r' & Er' & Hb1 & Hh & _) _ Hnd _].
    rewrite Er in Er'. injection Er' as <-. exists w, r, replies. split_and!; try done.
    + rewrite Hh. eexists. symmetry. apply take_drop.
    + intros n Hn Hall. rewrite Hh.
      assert (Hk : Z.of_nat (length (concat (take n gs))) < ph_inSerial (pw_proxy w)).
      { apply (handled_upto _ _ _ _ _ _ _ _ _ Hw). intros j Hj.
        assert (Hin : number 1 (concat (take n gs)) !! Z.to_nat (j - 1) <> None).
        { rewrite number_lookup. destruct (lookup_lt_is_Some_2 (concat (take n gs)) (Z.to_nat (j - 1))) as [x ->]; [lia|done]. }
        destruct (number 1 (concat (take n gs)) !! Z.to_nat (j - 1)) as [f|] eqn:Ef; [|done].
        assert (Hfj : fr_serial f = j).
        { rewrite number_lookup in Ef. destruct (_ !! _); [|done]. injection Ef as <-. cbn. lia. }
        apply list_elem_of_lookup_2 in Ef. rewrite <- number_groups_concat, <- number_groups_take in Ef.
        apply elem_of_concat in Ef as (fs & Hf & Hfs). apply list_elem_of_lookup in Hfs as [id Hl].
        apply lookup_take_Some in Hl as [Hl Hlt]. exists id, fs, f. split_and!; try done.
        specialize (Hall id Hlt). rewrite Hbody, Hl in Hall. by injection Hall. }
      rewrite <- (take_drop n gs) at 2. rewrite concat_app, take_app_ge by lia. by apply prefix_app_r.
    + intros id. rewrite Hid, Hbody. destruct (number_groups 1 gs !! id) as [fs|]; cbn; split.
      * intros (fs' & [= ->] & ->). done.
      * intros [= Ea]. exists fs. by rewrite Ea.
      * by intros (fs' & ? & _).
      * done.
Qed.

(** A session that sends back every message it gets as a text. *)
Definition echo : MessageHandler :=
  {| mh_state := list OutMessage;
     mh_handleMessage q data := (q ++ [(true, data)], []);
     mh_writeQueuedMessages q _ := ([], q);
     mh_hasQueuedMessages q := negb (length q =? 0)%nat;
     mh_onDisconnect q := q |}.

(** Three messages in two requests; the second overtakes the first, both in pieces. *)
Definition sample_ops : list BrowserOp :=
  [BrowserSend (str "load url=x"); BrowserPost; BrowserSend (str "key type=input"); BrowserSend (str "tile"); BrowserPost].

Definition sample_events : list ProxyEvent :=
  let bodies := (browser_run sample_ops (browser_connected (str "5eed"))).2 in
  let body id := nth id bodies [] in
  [ProxyData 1 (take 9 (body 1%nat)) 1000; ProxyData 0 (take 3 (body 0%nat)) 1000;
   ProxyData 1 (drop 9 (body 1%nat)) 1000; ProxyPoll 1000 1000; ProxyData 0 (drop 3 (body 0%nat)) 1000].

Lemma proxy_delivers_in_order_witness : exists w r,
  proxy_run (recorded echo) [] [] sample_events (proxy_start (recorded echo) (watch echo [])) = Ok w /\
  ph_msgHandler (pw_proxy w) = Some r /\ rec_handled r = [str "load url=x"; str "key type=input"; str "tile"].
Proof.
  destruct (proxy_delivers_in_order echo [] [] [] (str "5eed") sample_ops sample_events) as (w & r & replies & E & Er & Hp & Hall & _).
  - discriminate.
  - by_decide.
  - split; [|vm_compute; reflexivity]. repeat constructor.
  - repeat constructor; discriminate.
  - intros [|[|id]].
    + by_decide.
    + by_decide.
    + replace (arrivals sample_events (S (S id))) with (@nil Z) by reflexivity. apply prefix_nil.
  - exists w, r. split; [exact E|]. split; [exact Er|]. specialize (Hall 2%nat ltac:(vm_compute; lia)).
    apply (anti_symm prefix); [exact Hp|]. apply Hall. intros [|[|id]] Hid; [vm_compute; reflexivity..|lia].
Defined.

(** ** Answers in the browser *)

Lemma js_newline_spec arr i a rest :
  drop (Z.to_nat i) arr = a ++ chr_newline :: rest -> 0 <= i -> Forall (fun c => not_newline c = true) a ->
  js_newline arr i = Some (i + Z.of_nat (length a)).
Proof.
  intros Hd Hi Ha. unfold not_newline in Ha. unfold js_newline, findLineBreak.
  rewrite (scan_drop _ _ _ a chr_newline rest Hd Ha eq_refl).
  apply (f_equal length) in Hd. rewrite length_drop, length_app in Hd. cbn [length] in Hd.
  destruct (Nat.ltb_spec (Z.to_nat i + length a) (length arr)); [|lia]. f_equal. lia.
Qed.

Lemma js_doSlice_spec arr i a rest stop :
  drop (Z.to_nat i) arr = a ++ rest -> 0 <= i -> stop = i + Z.of_nat (length a) -> js_doSlice arr i stop = a.
Proof.
  intros Hd Hi ->. destruct (decide (Z.to_nat i <= length arr)%nat) as [Hle|Hlt].
  - assert (Hl := f_equal length Hd). rewrite length_drop, length_app in Hl. unfold js_doSlice, js_relative.
    destruct (Z.ltb_spec i 0); [lia|]. destruct (Z.ltb_spec (i + Z.of_nat (length a)) 0); [lia|].
    rewrite !Z.min_l by lia. rewrite Hd. replace (Z.to_nat _) with (length a) by lia. apply take_app_length.
  - rewrite drop_ge in Hd by lia. destruct a; [|done]. unfold js_doSlice.
    replace (Z.to_nat _) with 0%nat; [done|]. unfold js_relative. zcases; cbn; lia.
Qed.

Lemma js_index_spec arr i c rest : drop (Z.to_nat i) arr = c :: rest -> 0 <= i -> js_index arr i = Some c.
Proof.
  intros Hd Hi. unfold js_index. destruct (Z.ltb_spec i 0); [lia|].
  rewrite <- (Nat.add_0_r (Z.to_nat i)), <- lookup_drop, Hd. done.
Qed.

Lemma drop_Z (arr a rest : bytes) i :
  drop (Z.to_nat i) arr = a ++ rest -> 0 <= i -> drop (Z.to_nat (i + Z.of_nat (length a))) arr = rest.
Proof.
  intros Hd Hi. rewrite Z2Nat.inj_add, Nat2Z.id, <- drop_drop, Hd by lia. apply drop_app_length.
Qed.

Lemma drop_at (arr x : bytes) i i' : drop (Z.to_nat i') arr = x -> i = i' -> drop (Z.to_nat i) arr = x.
Proof. by intros H ->. Qed.

Lemma preamble_spec arr i rest : drop (Z.to_nat i) arr = 48 :: rest -> 0 <= i -> missing_preamble arr i = false.
Proof. intros Hd Hi. unfold missing_preamble. by rewrite (js_index_spec arr i 48 rest Hd Hi), bool_decide_eq_true_2. Qed.

Lemma hex_string_plain n : 0 <= n -> Forall (fun c => not_newline c = true) (hex_string n).
Proof. intros Hn. pose proof (hex_field_plain n Hn) as H. by apply Forall_app in H as [_ H]. Qed.

(** The positions the reader goes through in a frame. *)
Lemma js_positions arr i f rest :
  0 <= i -> drop (Z.to_nat i) arr = frame_bytes f ++ rest -> 0 <= fr_serial f ->
  let h1 := hex_string (fr_serial f) in let h2 := hex_string (Z.of_nat (length (fr_data f))) in
  let j := i + 3 + Z.of_nat (length h1) in let l := j + 3 + Z.of_nat (length h2) in
  (exists r, drop (Z.to_nat i) arr = type_char (fr_text f) :: r) /\
  (exists r, drop (Z.to_nat (i + 1)) arr = 48 :: r) /\
  (exists r, drop (Z.to_nat (i + 3)) arr = h1 ++ chr_newline :: r) /\
  (exists r, drop (Z.to_nat (j + 1)) arr = 48 :: r) /\
  (exists r, drop (Z.to_nat (j + 3)) arr = h2 ++ chr_newline :: r) /\
  drop (Z.to_nat (l + 1)) arr = fr_data f ++ chr_newline :: rest /\
  l + 1 + Z.of_nat (length (fr_data f)) + 1 = i + Z.of_nat (length (frame_bytes f)).
Proof.
  intros Hi Hd Hs h1 h2 j l.
  assert (Hd' : drop (Z.to_nat i) arr = [type_char (fr_text f)] ++ [48; 120] ++ h1 ++ [chr_newline; 48] ++
    [120] ++ h2 ++ [chr_newline] ++ fr_data f ++ chr_newline :: rest).
  { rewrite Hd, frame_split. unfold hex_field. fold h1 h2. change (str "0x") with [48; 120]. cbn [app].
    repeat (rewrite <- (assoc_L (++)); cbn [app]). done. }
  assert (Hl : Z.of_nat (length (frame_bytes f)) = 8 + Z.of_nat (length h1) + Z.of_nat (length h2) + Z.of_nat (length (fr_data f))).
  { rewrite frame_split. unfold hex_field. fold h1 h2. change (str "0x") with [48; 120]. cbn [app length].
    repeat (rewrite length_app; cbn [length]). lia. }
  assert (D1 := drop_Z _ _ _ _ Hd' Hi). assert (D3 := drop_Z _ _ _ _ D1 ltac:(lia)).
  assert (Dj := drop_Z _ _ _ _ D3 ltac:(lia)). assert (Dk := drop_Z _ [chr_newline] _ _ Dj ltac:(lia)).
  assert (Dk2 := drop_Z _ [48; 120] _ _ Dk ltac:(lia)). assert (Dl := drop_Z _ _ _ _ Dk2 ltac:(lia)).
  assert (Ds := drop_Z _ _ _ _ Dl ltac:(lia)). cbn [length app] in *. unfold j, l. split_and!.
  - by eexists.
  - eexists. exact D1.
  - eexists. apply (drop_at _ _ _ _ D3). lia.
  - eexists. apply (drop_at _ _ _ _ Dk). lia.
  - eexists. apply (drop_at _ _ _ _ Dk2). lia.
  - apply (drop_at _ _ _ _ Ds). lia.
  - lia.
Qed.

(** One frame of an answer is delivered at once, whatever its serial. *)
Lemma js_parse_frame arr i f rest fuel b :
  0 <= i -> drop (Z.to_nat i) arr = frame_bytes f ++ rest -> 0 <= fr_serial f -> Z.of_nat (length (fr_data f)) < 2 ^ 53 ->
  bs_serialQueue b = ∅ ->
  exists b', bs_serialQueue b' = ∅ /\ bs_delivered b' = bs_delivered b ++ [(fr_text f, fr_data f)] /\
  js_parse (S fuel) arr i b = js_parse fuel arr (i + Z.of_nat (length (frame_bytes f))) b'.
Proof.
  intros Hi Hd Hs Hn Hq. 
  destruct (js_positions arr i f rest Hi Hd Hs) as ([r0 D0] & [r1 D1] & [r3 D3] & [rk Dk] & [rk2 Dk2] & Ds & Hend).
  assert (Hlen := f_equal length Hd). rewrite length_drop, length_app in Hlen.
  set (h1 := hex_string (fr_serial f)) in *. set (h2 := hex_string (Z.of_nat (length (fr_data f)))) in *.
  set (j := i + 3 + Z.of_nat (length h1)) in *. set (l := j + 3 + Z.of_nat (length h2)) in *.
  assert (Ht : bool_decide (Some (type_char (fr_text f)) = Some chr_T) = fr_text f) by (by destruct (fr_text f)).
  set (n := js_number (fr_serial f)). set (m := (fr_text f, fr_data f)).
  exists (b <| bs_serialQueue := ∅ |> <| bs_inSerial := n |> <| bs_delivered ::= fun q => q ++ [m] |>).
  split; [done|]. split; [done|]. cbn [js_parse].
  destruct (Z.ltb_spec i (Z.of_nat (length arr))); [|lia].
  destruct (Z.ltb_spec (Z.of_nat (length arr) - i) 4); [lia|]. cbn [negb].
  rewrite (js_index_spec _ _ _ _ D0 Hi), Ht. replace (negb (fr_text f) && _) with false by (by destruct (fr_text f)).
  rewrite (preamble_spec _ _ _ D1 ltac:(lia)).
  rewrite (js_newline_spec _ _ h1 _ D3 ltac:(lia)) by (by apply hex_string_plain). fold j.
  rewrite (preamble_spec _ _ _ Dk ltac:(lia)). replace (j + 1 + 2) with (j + 3) by lia.
  rewrite (js_newline_spec _ _ h2 _ Dk2 ltac:(lia)) by (apply hex_string_plain; lia). fold l.
  rewrite (js_doSlice_spec _ (i + 3) h1 _ j D3 ltac:(lia) eq_refl), (js_doSlice_spec _ (j + 3) h2 _ l Dk2 ltac:(lia) eq_refl).
  unfold h1 at 1, h2. rewrite !parseInt16_hex, (js_number_small (Z.of_nat _)) by lia.
  rewrite (js_doSlice_spec _ (l + 1) (fr_data f) _ _ Ds ltac:(lia) eq_refl). fold n m. rewrite Hend. f_equal.
  unfold js_processBufferedMessages. cbn [bs_serialQueue rset]. rewrite Hq, insert_empty, map_size_singleton. cbn [js_process bs_serialQueue].
  rewrite lookup_singleton_eq. cbn [bs_serialQueue rset]. rewrite delete_singleton_eq, lookup_empty. by destruct b.
Qed.

(** The answers loaded one after the other. *)
Fixpoint load_answers (answers : list bytes) (b : BrowserSocket) : option BrowserSocket :=
  match answers with
  | [] => Some b
  | a :: answers' => b' ← js_load 200 a b; load_answers answers' b'
  end.

Definition small_messages (sent : list OutMessage) : Prop :=
  Forall (fun m : OutMessage => Z.of_nat (length m.2) < 2 ^ 53) sent.

Lemma js_parse_wire sent : forall n arr i fuel b,
  small_messages sent -> drop (Z.to_nat i) arr = concat (wire n sent) -> 0 <= i -> i <= Z.of_nat (length arr) ->
  (length sent < fuel)%nat -> bs_serialQueue b = ∅ ->
  exists b', js_parse fuel arr i b = JsReturned b' /\ bs_serialQueue b' = ∅ /\ bs_delivered b' = bs_delivered b ++ sent.
Proof.
  induction sent as [|[text d] sent IH]; intros n arr i fuel b Hsm Hd Hi Hle Hf Hq.
  all: destruct fuel as [|fuel]; [lia|].
  - exists b. rewrite app_nil_r. split; [|done]. apply (f_equal length) in Hd. rewrite length_drop in Hd. cbn [wire concat length] in Hd.
    cbn [js_parse]. destruct (Z.ltb_spec i (Z.of_nat (length arr))); [lia|done].
  - apply Forall_cons in Hsm as [Hd1 Hsm]. cbn [wire concat] in Hd.
    set (f := {| fr_text := text; fr_serial := u64 n; fr_data := d |}).
    change (Message_bytes _ _ _) with (frame_bytes f) in Hd.
    destruct (js_parse_frame arr i f (concat (wire (n + 1) sent)) fuel b Hi Hd) as (b1 & Hq1 & Hd1' & E).
    + cbn. unfold u64. apply Z.mod_pos_bound. lia.
    + done.
    + done.
    + assert (Hlen := f_equal length Hd). rewrite length_drop, length_app in Hlen.
      destruct (IH (n + 1) arr (i + Z.of_nat (length (frame_bytes f))) fuel b1) as (b2 & E2 & Hq2 & Hd2); try done.
      * apply (drop_Z _ _ _ _ Hd Hi).
      * lia.
      * assert (0 < length (frame_bytes f))%nat by (rewrite frame_split; simpl; lia). lia.
      * cbn in Hf. lia.
      * exists b2. rewrite E, E2. split_and!; try done. by rewrite Hd2, Hd1', <- (assoc_L (++)).
Qed.

Lemma load_wire n sent b :
  small_messages sent -> bs_serialQueue b = ∅ ->
  exists b', js_load 200 (concat (wire n sent)) b = Some b' /\ bs_serialQueue b' = ∅ /\
  bs_delivered b' = bs_delivered b ++ sent.
Proof.
  intros Hsm Hq. unfold js_load. cbn [Z.eqb Pos.eqb].
  destruct (js_parse_wire sent n (concat (wire n sent)) 0 (S (length (concat (wire n sent)))) b) as (b' & E & Hq' & Hd'); try done.
  - lia.
  - assert (Hge : forall n, (length sent <= length (concat (wire n sent)))%nat); [|specialize (Hge n); lia].
    clear. induction sent as [|m sent IH]; intros n; cbn [wire concat length]; [lia|]. rewrite length_app. specialize (IH (n + 1)).
    unfold Message_bytes. destruct m.1; simpl length; lia.
  - destruct (Nat.eqb_spec (length (concat (wire n sent))) 0) as [Hz|Hz]; cbn [negb].
    + exists b. split_and!; try done. destruct sent as [|m sent]; [by rewrite app_nil_r|]. exfalso. cbn [wire concat] in Hz.
      rewrite length_app in Hz. unfold Message_bytes in Hz. destruct m.1; simpl in Hz; lia.
    + exists b'. unfold parseIncomingArray. by rewrite E.
Qed.

Lemma length_wire n sent : length (wire n sent) = length sent.
Proof. revert n. induction sent as [|m sent IH]; intros n; [done|]. cbn [wire length]. by rewrite IH. Qed.

Lemma wire_split n sent a rest :
  a ++ rest = wire n sent ->
  (length a <= length sent)%nat /\ a = wire n (take (length a) sent) /\
  rest = wire (n + Z.of_nat (length a)) (drop (length a) sent).
Proof.
  intros H. assert (Hl := f_equal length H). rewrite length_app, length_wire in Hl.
  rewrite <- (take_drop (length a) sent), wire_app, length_take, Nat.min_l in H by lia.
  split; [lia|]. apply app_inj_1 in H; [done|]. rewrite length_wire, length_take. lia.
Qed.

(** Fact (roundtrip): the browser hears what the session said. Answers that hold the
    messages the session sent, as [proxy_delivers_in_order] says they do, and are
    loaded in the order they were made, give the application exactly these
    messages, each once, in order and of the right type; nothing stays behind in the
    browser's queue. *)
Theorem answers_read_back n sent qs rest b :
  small_messages sent -> concat qs ++ rest = wire n sent -> bs_serialQueue b = ∅ ->
  exists b', load_answers (map (@concat Z) qs) b = Some b' /\ bs_serialQueue b' = ∅ /\
  bs_delivered b' = bs_delivered b ++ take (length (concat qs)) sent.
Proof.
  revert n sent b. induction qs as [|q qs IH]; intros n sent b Hsm Hw Hq.
  - exists b. cbn. by rewrite app_nil_r.
  - cbn [concat] in Hw. rewrite <- (assoc_L (++)) in Hw. destruct (wire_split _ _ _ _ Hw) as (Hl & Eq & Er).
    assert (Hs2 := Hsm). unfold small_messages in Hs2. rewrite <- (take_drop (length q) sent) in Hs2. apply Forall_app in Hs2 as [Hs1 Hs2].
    destruct (load_wire n (take (length q) sent) b Hs1 Hq) as (b1 & E1 & Hq1 & Hd1). rewrite <- Eq in E1.
    destruct (IH _ _ b1 Hs2 Er Hq1) as (b2 & E2 & Hq2 & Hd2). exists b2. cbn [load_answers map]. rewrite E1. cbn [option_bind mbind].
    split_and!; [done..|]. rewrite Hd2, Hd1, <- (assoc_L (++)). f_equal. cbn [concat]. rewrite length_app.
    rewrite <- (take_drop (length q) sent) at 3. rewrite take_app_ge by (rewrite length_take; lia).
    rewrite length_take, Nat.min_l by lia. do 2 f_equal. lia.
Qed.

Lemma answers_read_back_witness : exists b',
  load_answers (map (@concat Z) [wire 1 [(true, str "status: x")]; []; wire 2 [(false, str "tile: y"); (true, [])]]) (browser_connected (str "5eed"))
    = Some b' /\ bs_delivered b' = [(true, str "status: x"); (false, str "tile: y"); (true, [])].
Proof.
  destruct (answers_read_back 1 [(true, str "status: x"); (false, str "tile: y"); (true, [])]
    [wire 1 [(true, str "status: x")]; []; wire 2 [(false, str "tile: y"); (true, [])]] [] (browser_connected (str "5eed"))) as (b' & E & _ & Hd).
  - repeat constructor.
  - reflexivity.
  - reflexivity.
  - exists b'. split; [exact E|exact Hd].
Defined.

(** ** Behaviour to know of *)

(** Fact (termination): the loop over the input ends for any input: every round consumes
    some of it, so the fuel [parseEmitIncoming] is given is enough, and more gives the
    same. *)
Theorem parse_fuel_enough mh fuel s p :
  (buf_size (ss_inBuffer s) < fuel)%nat -> parse_loop mh fuel s p = parseEmitIncoming mh s p.
Proof.
  unfold parseEmitIncoming. intros Hf. assert (Hg : (buf_size (ss_inBuffer s) < S (buf_size (ss_inBuffer s)))%nat) by lia.
  revert Hg. generalize (S (buf_size (ss_inBuffer s))). revert s p Hf.
  induction fuel as [|fuel IH]; intros s p Hf [|fuel'] Hg; [lia..|]. cbn [parse_loop].
  destruct (Nat.eqb_spec (buf_size (ss_inBuffer s)) 0) as [|Hne]; [done|].
  destruct (negb _); [done|]. destruct (bool_decide _); [done|]. destruct (negb _ && _); [done|].
  destruct (_ <=? _)%nat; [done|]. destruct (_ <=? _)%nat; [done|]. destruct (_ <? _); [done|].
  destruct (_ || _); [done|].
  apply IH; cbn [ss_inBuffer rset]; rewrite !buf_erase_front, !buf_size_data, !eraseFirst_data, !length_drop, <- buf_size_data; lia.
Qed.

Lemma parse_fuel_enough_witness :
  parse_loop echo 9 (StreamSocket_new <| ss_inBuffer := buf_append Buffer_new (str "B0x1") |>) (ProxyProtocolHandler_new echo [])
  = parseEmitIncoming echo (StreamSocket_new <| ss_inBuffer := buf_append Buffer_new (str "B0x1") |>) (ProxyProtocolHandler_new echo []).
Proof. apply parse_fuel_enough. vm_compute. lia. Defined.

(** Fact (error): serials do not order the answers in the browser. Two answers that
    overtake each other are delivered in the order they come: what was sent second is
    handled first, though both ends number the messages. *)
Theorem overtaking_answers_reorder_messages :
  exists b', load_answers [concat (wire 2 [(true, str "second")]); concat (wire 1 [(true, str "first")])]
    (browser_connected (str "5eed")) = Some b' /\
  bs_delivered b' = [(true, str "second"); (true, str "first")].
Proof. eexists. split; vm_compute; reflexivity. Qed.

(** Fact (error): an answer cut inside a number is never done with: the loop looks for
    a newline past the end of the array for ever. *)
Theorem cut_answer_hangs :
  parseIncomingArray (str "T0x1") (browser_connected (str "5eed")) = JsRunning (browser_connected (str "5eed")).
Proof. vm_compute. reflexivity. Qed.

(** Fact (error): a length that wraps around passes for a complete message, and the
    content is then taken from outside of the buffer. *)
Theorem wrapped_length_reads_outside : forall p : ProxyProtocolHandler echo,
  ph_msgHandler p <> None ->
  handleRequest echo [] [] 1000 (StreamSocket_new <| ss_inBuffer := buf_append Buffer_new (str "B0x1" ++ [10] ++
    str "0xffffffffffffffff" ++ [10] ++ str "x" ++ [10]) |>) p = Throw undefined.
Proof. intros p Hp. unfold handleRequest. destruct (ph_msgHandler p); [|done]. vm_compute. reflexivity. Qed.

(** Fact (safety): the list of sockets that wait for messages stays empty: a message
    the server has for the browser goes out with the answer to a later request, never
    when the socket is polled for writing. *)
Theorem polling_answers_nobody mh now server ms bodies arrived replies w capacity sock_capacity :
  world_ok mh now server ms bodies arrived replies w ->
  pw_sockets (performWrites (recorded mh) now server capacity sock_capacity w) = pw_sockets w.
Proof. intros H. by apply (poll_step mh now server ms bodies arrived replies w capacity sock_capacity H). Qed.

(** ** Routing *)

Section routing.
Context (mh : MessageHandler) (now server : bytes).

Lemma find_proxy_session_spec sessionId tokens : forall sessions n before,
  match find_proxy_session mh sessionId tokens n before sessions with
  | (after, None) => map px_protocol after = map px_protocol (before ++ sessions)
  | (passed, Some (c, rest)) =>
      px_proxyAccess c = sessionId /\
      map px_protocol (passed ++ c :: rest) = map px_protocol (before ++ sessions)
  end.
Proof.
  induction sessions as [|c sessions IH]; intros n before; cbn [find_proxy_session].
  - by rewrite app_nil_r.
  - set (c' := getOrCreateProxyAccess mh (tokens n) c).
    assert (Hc : px_protocol c' = px_protocol c) by (unfold c', getOrCreateProxyAccess; by destruct (_ =? 0)%nat).
    destruct (beq (px_proxyAccess c') sessionId) eqn:E.
    + apply beq_eq in E. split; [done|]. by rewrite !map_app, !map_cons, Hc.
    + specialize (IH (S n) (before ++ [c'])).
      assert (Hm : map px_protocol ((before ++ [c']) ++ sessions) = map px_protocol (before ++ c :: sessions)).
      { rewrite <- (assoc_L (++)), !map_app. cbn [map app]. by rewrite Hc. }
      rewrite Hm in IH. exact IH.
Qed.

(** Fact (safety): a request concerns one session, that of its token. The handlers of
    the sessions are unchanged when it is refused, and otherwise all but one are. *)
Theorem proxy_request_concerns_one_session command sessionId tokens capacity socket sessions out :
  handleProxyRequest mh now server command sessionId tokens capacity socket sessions = Ok out ->
  match out with
  | ProxyRefused _ after => map px_protocol after = map px_protocol sessions
  | ProxyHandled _ _ after => exists before c rest p,
      px_proxyAccess c = sessionId /\
      map px_protocol sessions = map px_protocol before ++ px_protocol c :: map px_protocol rest /\
      map px_protocol after = map px_protocol before ++ Some p :: map px_protocol rest
  end.
Proof.
  unfold handleProxyRequest. pose proof (find_proxy_session_spec sessionId tokens sessions 0 []) as H.
  destruct (find_proxy_session _ _ _ _ _ _) as [before [[c rest]|]].
  - destruct H as [Hid Hm]. rewrite map_app, map_cons in Hm. destruct (px_protocol c) as [proxy|] eqn:Ec; [|done].
    assert (Hback : forall p s, exists before' c' rest' p', px_proxyAccess c' = sessionId /\
      map px_protocol sessions = map px_protocol before' ++ px_protocol c' :: map px_protocol rest' /\
      map px_protocol (before ++ {| px_proxyAccess := s; px_protocol := Some p |} :: rest)
        = map px_protocol before' ++ Some p' :: map px_protocol rest').
    { intros p s. exists before, c, rest, p. rewrite Ec, map_app, map_cons. by split_and!. }
    destruct (beq command (str "close")); [intros [= <-]; apply Hback|].
    intros ([s p] & _ & [= <-])%rbind_ok. apply Hback.
  - by intros [= <-].
Qed.
End routing.
